(* ===== verification/_CoqProject ===== *)
-Q . S2P
Prelude.v
Bytes.v
Prog.v
Status.v
Hash.v
Library.v
Epoch.v
Garbage.v
Reclaim.v
Collector.v
Metrics.v
Memory.v
Descriptor.v
MwCAS.v
Entries.v
Target.v
Pool.v
DList.v
Chain.v
CasList.v
CasListSpec.v
DListSpec.v
DListCheck.v
BzNode.v
BzBytes.v
BzNodeSpec.v
BzSmo.v
BzTree.v
BzLeaf.v
BzSupply.v
BzPlace.v
BzMap.v
BzHeight.v
BzOrder.v
BzBuild.v
BzParent.v
BzWay.v
BzSteps.v
BzModify.v
BzChild.v
BzRoot.v
BzDue.v
BzUse.v
BzScenarios.v
Environment.v
Allocator.v
AllocSpec.v
AllocClient.v
Shared.v
Helping.v
Concurrent.v
Scenarios.v
Recovery.v
