(* ===== verification/Prelude.v ===== *)
(** * Verification of PMwCAS (persistent multi-word compare-and-swap)

    The repository is a C++ library: an epoch manager and garbage lists for safe
    memory reclamation, a multi-word compare-and-swap (MwCAS) in a volatile and a
    persistent variant with crash recovery, and data structures built on it.  This
    development models the library's own code and proves what it does.

    ** The model

    Code becomes a term of [prog S A] (Prog.v), a free monad of atomic accesses to a
    state [S]: one [act] per atomic access of the source, [check] for DCHECK and
    RAW_CHECK (a debug build; a failed check is [Fault] with the source's message),
    [loop] with fuel for loops that need not end ([Stuck] when it runs out).  A program
    has two semantics: [run] alone, and [exec] in a pool of threads under any schedule,
    one access at a time, sequentially consistent.  [rg] and [triple] are a
    rely-guarantee logic for the second; a [Lens] ([zoom]) lets a component's code run
    in a larger world.  Machine integers are Z with [u32]/[u64] written where C++ wraps.

    ** Files

    - Prelude.v: notation for machine words, flag tests, arithmetic lemmas, tactics.
    - Bytes.v: byte strings, literals, comparison.
    - Prog.v: programs, their semantics and logic.
    - Status.v: include/slice.h, include/status.h, src/util/status.cc.
    - Hash.v: src/util/hash.h and the generators of src/util/random_number_generator.h.
    - Library.v: the singletons and InitLibrary (src/common/pmwcas_internal.cc,
      allocator_internal, environment_internal), and the registry of thread-locals.
    - Epoch.v: src/common/epoch.{h,cc}.  [EpochWorld] holds the managers and the
      threads' TLS; a [MinEpochTable] is a list of [Entry].
    - Garbage.v: src/common/garbage_list.h and garbage_list_unsafe.h, over any client
      state and destroy callback.
    - Reclaim.v, Collector.v: the thread-safe garbage list and its epoch manager together
      under any schedule: the protocol of the slots' locks and epochs, then the list's
      operations and pools of threads that retire, scavenge, protect and bump.
    - Metrics.v: src/mwcas/metrics.h and src/util/core_local.h.
    - Memory.v: shared memory as a map from addresses to words, what is persistent of
      it, src/util/atomics.h and src/util/nvram.h.  [Platform] stands for libpmemobj
      and for the application's callbacks.
    - Descriptor.v: class Descriptor of src/mwcas/mwcas.{h,cc}; fields are cells at the
      C++ offsets, so pointer arithmetic is the source's.
    - MwCAS.v: the specification of the whole operation, run alone.
    - Entries.v: the specifications of AddEntry and FreeDescriptor.
    - Target.v: class MwcTargetField (reading a word).
    - Pool.v: DescriptorPartition, DescriptorPool, the code of Recovery.
    - DList.v: src/double-linked-list/doubly_linked_list.{h,cc}: [CASDList],
      [MwCASDList] and the cursor, again on cells at the C++ offsets.
    - Chain.v: neighbours and link fields in a chain of nodes.
    - CasList.v: rules for memory modulo dirty flags, the operations of [CASDList] on them, and
      the list as its clients see it; CasListSpec.v: its invariant and the refinement.
    - DListSpec.v: what the operations of [MwCASDList] do to the chain of nodes.
    - DListCheck.v: what SingleThreadSanityCheck decides.
    - BzNode.v: the layout of a BzTree node and its packed words (src/bztree/bztree.h and
      the accessors of bztree_helpers.cc); BzBytes.v: runs of bytes and words in
      persistent memory and the frame rules; BzNodeSpec.v: packing, lookup and the record
      space of a node.
    - BzSmo.v: src/bztree/bztree_smos.cc: freezing, consolidation, splits and merges of
      nodes, with what they do to the records.
    - BzTree.v: src/bztree/bztree.cc: descent, insertion, update, upsert, lookup, erasure
      and the growth of the root, over the pool, the descriptors and the epochs.
    - BzLeaf.v, BzSupply.v: one leaf as a finite map, and what an operation consumes of
      the descriptor pool and gives back; BzPlace.v: the operations at a leaf, whatever
      leads to it ([place]); BzMap.v: the tree of one leaf against the abstract map;
      BzHeight.v: trees of any height.
    - The structural modifications of a tree: BzOrder.v: the order of the keys and what a
      node leads to; BzBuild.v, BzParent.v: the nodes a modification builds and what becomes
      of the parent; BzWay.v: the way from the root to a subtree; BzSteps.v: freezing,
      swinging a pointer, handing nodes to the garbage list; BzModify.v: exchanging a subtree
      keeps the map; BzChild.v, BzRoot.v: compaction, split and merge of a child, compaction
      and split of the root; BzDue.v: the searches until no modification is due; BzUse.v: an
      operation that has to modify first; BzScenarios.v: concrete executions of the tree.
    - Environment.v: src/environment/environment_linux.cc (clocks, placing threads on
      processors, shared memory segments).
    - Allocator.v: TlsAllocator, DefaultAllocator and PMDKAllocator of
      src/environment/environment_linux.h; AllocSpec.v: the invariant of the slabs and
      free lists; AllocClient.v: every client of the TLS allocator.
    - Shared.v, Helping.v, Concurrent.v: the volatile operation under any schedule: what
      words may hold and show while operations are in flight; triples for the conditional
      CAS, the phases, helping and reading against other threads; owners and readers.
    - Scenarios.v: concrete schedules and crashes.
    - Recovery.v: the specification of the recovery scan.

    ** What is shown

    - Concurrent: epoch protection and the absence of faults of the epoch manager, for
      every number of threads and every schedule (rely-guarantee with ghost state); of
      reclamation: no object is destroyed twice, before it is unlinked, or while a thread
      is protected since before it was unlinked; for any
      number of volatile operations that share words, and readers of these words, under
      every schedule: no fault, one decision per operation, and words that show only what
      successful operations led to.
    - Sequential: functional correctness of MwCAS in both variants on any prepared
      descriptor, of entry insertion, freeing, reading, allocation, both garbage lists,
      the metrics, the thread registry and library initialisation.
    - Lists: insertion, deletion, traversal and construction of the multi-word CAS list
      run alone, from the theorems of the layers below (allocation, entries, the
      operation, reads), which [DListSpec.evm] composes; the list on single-word CAS refines a
      list of nodes, from its construction under any sequence of operations by one thread,
      in both builds, with walks from deleted nodes.
    - Progress: schedules in both variants after which another operation on the same word
      waits for ever; and for two concrete volatile operations that share a word, when the
      second completes although the owner of the first has stopped after any number of steps.
    - BzTree: freezing, consolidating, splitting and merging keep the visible records;
      packing and unpacking of the node words; the tree of one leaf refines a finite map,
      from any sequence of operations that stays below the thresholds of a split; on a
      tree of any height every operation answers what the map does that the separators
      and leaves represent, when it finds no structural modification due.  When some are
      due, any number of compactions, splits, merges and changes of the root before the
      answer leave an ordered tree of the same map, and insertion or update then answers as
      the map does.  This asks for aligned pointers, for parents that have the space for a
      new separator, and for inner nodes whose split or merge takes no key with it, because
      the code ensures none of them.
    - Allocator: under any sequence of allocations (of at least one byte and at most what a
      slab holds) and frees by any threads, live blocks
      are disjoint, aligned and inside their slab, and the free lists hold the others.
    - Crashes: recovery rolls an operation forward or back as a whole, or stops on one of
      its two checks, and when it does.
    - Round trips and orders of Status and Slice; injectivity of the hashes.
    - Where the code does not do what it means to, a theorem exhibits the execution:
      the TLS pointer shared between epoch managers, the conditional CAS that comes too
      late, the targets that are never flushed, the inserted node that a crash loses, the
      cache lines a flush misses, the nodes the sanity check skips; in the BzTree the lost
      insertion, the root split that loses its race, the reads that skip the protected read,
      the split nobody can finish, the key that the split of an inner node loses, the
      parent that a split overflows.

    ** Bounds

    Fuel bounds loops that wait for others.  Alone, one round of [CondCAS], of the
    install loops and of a read is enough (the theorems ask [0 < fuel]); a push onto a
    garbage list needs at most one pass over the ring ([2 ^ k] rounds), and [MwCAS] needs
    helping depth 1.  The pool-size rounding needs 32 rounds or never ends.  The BzTree's
    theorems ask for more than 30 rounds, one for each record a leaf below the split
    threshold can hold; with modifications due, for as many rounds as there are
    modifications and levels together, and for two descriptors per modification and two
    for the operation.
    [CASDList] needs three rounds in any loop, and one more for each deleted node a walk
    starts behind: fuel above the number of operations plus two is enough.
    The TLS allocator's loop takes two rounds for any request that fits a slab and never
    ends for one that does not.

    ** Not modelled

    Weak memory (x86-TSO reordering), the RTM variant, the Windows environment (no build
    here selects it), the benchmark drivers and tests, asynchronous files and the system
    calls behind the environment's interfaces, which are parameters.  [std::sort] of the
    words is one step.  Failures of the memory that the garbage lists, the epoch table and
    the per-core storage ask for ([posix_memalign], aligned allocation: "Out of memory") are
    not modelled, and [OsLaws] makes every [mmap] succeed, whose result the code does not
    look at.  The printing members of the BzTree and the allocator members with
    empty bodies are left out.  The persistent operation that helps another is modelled in
    full and specified on concrete schedules; its general theorem is for the operation run
    alone.  That a successful operation takes effect exactly once is not shown, because it
    is not so (Scenarios.v).
    [CASDList] is specified for one thread that inserts next to nodes of the list; insertion
    next to a deleted node and races between threads are modelled and no theorem is about them.
    The structural
    modifications of a BzTree are specified for a thread that runs alone; modifications
    that race each other or an operation are shown on concrete schedules. *)
From Stdlib Require Import ZArith Lia Ascii String.
From stdpp Require Import base list gmap strings.
#[local] Open Scope Z_scope.

(** ** Notation *)

Declare Scope machine_scope.
Delimit Scope machine_scope with m.

(** ** Machine integers

    An unsigned integer of w bits is its value in Z; every arithmetic result
    is written with its wrap-around. *)

Definition u64 (z : Z) : Z := z mod 2 ^ 64.
Definition u32 (z : Z) : Z := z mod 2 ^ 32.
Definition u16 (z : Z) : Z := z mod 2 ^ 16.

(** The signed reading of a w-bit word, as in [static_cast<intW_t>]. *)
Definition signed (w z : Z) : Z :=
  let r := z mod 2 ^ w in if r <? 2 ^ (w - 1) then r else r - 2 ^ w.

(** [x & ~mask] and the C truth value of [x & mask]. *)
Definition clear (x mask : Z) : Z := Z.ldiff x mask.
Definition has (x mask : Z) : bool := negb (Z.land x mask =? 0).

Notation "x .| y" := (Z.lor x y) (at level 50, left associativity) : machine_scope.
Notation "x .& y" := (Z.land x y) (at level 40, left associativity) : machine_scope.
Notation "x .^ y" := (Z.lxor x y) (at level 45, left associativity) : machine_scope.
Notation "x .>> n" := (Z.shiftr x n) (at level 34, left associativity) : machine_scope.
Notation "x .<< n" := (u64 (Z.shiftl x n)) (at level 34, left associativity) : machine_scope.

(** The predicate "z is the value of an unsigned w-bit word". *)
Definition fits (w z : Z) : Prop := 0 <= z < 2 ^ w.

#[global] Instance fits_dec w z : Decision (fits w z).
Proof. unfold fits. apply _. Defined.

Create HintDb machine.
Create Rewrite HintDb machine.

(** ** Tactics *)

(** Turn boolean comparisons in hypotheses and goal into propositions. *)
Ltac zbool :=
  repeat match goal with
  | H : (_ =? _) = true |- _ => apply Z.eqb_eq in H
  | H : (_ =? _) = false |- _ => apply Z.eqb_neq in H
  | H : (_ <? _) = true |- _ => apply Z.ltb_lt in H
  | H : (_ <? _) = false |- _ => apply Z.ltb_ge in H
  | H : (_ <=? _) = true |- _ => apply Z.leb_le in H
  | H : (_ <=? _) = false |- _ => apply Z.leb_gt in H
  | H : negb _ = true |- _ => apply negb_true_iff in H
  | H : negb _ = false |- _ => apply negb_false_iff in H
  | H : (_ && _)%bool = true |- _ => apply andb_true_iff in H as [? ?]
  | H : (_ || _)%bool = false |- _ => apply orb_false_iff in H as [? ?]
  end.

(** Case analysis on the first boolean integer test of the goal. *)
Ltac zcase :=
  match goal with
  | |- context [?a =? ?b] => destruct (Z.eqb_spec a b)
  | |- context [?a <? ?b] => destruct (Z.ltb_spec a b)
  | |- context [?a <=? ?b] => destruct (Z.leb_spec a b)
  end.

(** Prove an equality of integers bit by bit. *)
Ltac bitwise i Hi := apply Z.bits_inj'; intros i Hi.

(** ** Facts on machine integers *)

Lemma u64_fits z : fits 64 (u64 z).
Proof. unfold fits, u64. apply Z.mod_pos_bound. lia. Qed.

Lemma u32_fits z : fits 32 (u32 z).
Proof. unfold fits, u32. apply Z.mod_pos_bound. lia. Qed.

Lemma u64_id z : fits 64 z -> u64 z = z.
Proof. unfold fits, u64. intros. by apply Z.mod_small. Qed.

Lemma u32_id z : fits 32 z -> u32 z = z.
Proof. unfold fits, u32. intros. by apply Z.mod_small. Qed.

#[export] Hint Resolve u64_fits u32_fits : machine.
#[export] Hint Rewrite u64_id u32_id using (unfold fits in *; lia) : machine.

(** Bits of a value that fits in w bits vanish from position w on. *)
Lemma fits_testbit w z i : fits w z -> 0 <= w <= i -> Z.testbit z i = false.
Proof.
  intros [? ?] ?. rewrite <- (Z.mod_small z (2 ^ w)) by lia.
  apply Z.mod_pow2_bits_high. lia.
Qed.

(** Conversely, a natural number with no bit from position w on fits in w bits. *)
Lemma testbit_fits w z :
  0 <= w -> 0 <= z -> (forall i, w <= i -> Z.testbit z i = false) -> fits w z.
Proof.
  intros Hw Hz Hb. split; [done|].
  assert (z = z mod 2 ^ w) as ->.
  { bitwise i Hi. destruct (Z.lt_ge_cases i w).
    - by rewrite Z.mod_pow2_bits_low.
    - rewrite Z.mod_pow2_bits_high by lia. auto. }
  apply Z.mod_pos_bound. lia.
Qed.

Lemma fits_lor w x y : 0 <= w -> fits w x -> fits w y -> fits w (Z.lor x y).
Proof.
  intros Hw Hx Hy. apply testbit_fits; [done| |].
  - apply Z.lor_nonneg. unfold fits in *. lia.
  - intros i Hi. rewrite Z.lor_spec, !(fits_testbit w) by (auto; lia). done.
Qed.

Lemma fits_lxor w x y : 0 <= w -> fits w x -> fits w y -> fits w (Z.lxor x y).
Proof.
  intros Hw Hx Hy. apply testbit_fits; [done| |].
  - apply Z.lxor_nonneg. unfold fits in *. lia.
  - intros i Hi. rewrite Z.lxor_spec, !(fits_testbit w) by (auto; lia). done.
Qed.

Lemma fits_clear w x m : 0 <= w -> fits w x -> fits w (clear x m).
Proof.
  intros Hw Hx. apply testbit_fits; [done| |].
  - apply Z.ldiff_nonneg. unfold fits in *. lia.
  - intros i Hi. unfold clear. rewrite Z.ldiff_spec, (fits_testbit w) by (auto; lia). done.
Qed.

Lemma fits_shiftr w x n : 0 <= w -> 0 <= n -> fits w x -> fits w (Z.shiftr x n).
Proof.
  intros Hw Hn Hx. apply testbit_fits; [done| |].
  - apply Z.shiftr_nonneg. unfold fits in *. lia.
  - intros i Hi. rewrite Z.shiftr_spec, (fits_testbit w) by (auto; lia). done.
Qed.

Lemma land_range_r x y : 0 <= x -> 0 <= y -> 0 <= Z.land x y <= y.
Proof.
  intros Hx Hy. split; [apply Z.land_nonneg; by left|].
  rewrite <- (Z2N.id x), <- (Z2N.id y), <- N2Z.inj_land by done.
  apply N2Z.inj_le, N.land_le_r.
Qed.

#[export] Hint Resolve fits_lor fits_lxor fits_clear fits_shiftr : machine.
