(* ===== verification/Bytes.v ===== *)
(** * Bytes, C strings and byte buffers

    What the components share of the C++ memory model: bytes, little-endian
    words, [strlen], [strcmp], [memcmp], and reads and writes of a range of a
    buffer.  These are the language and standard-library primitives the sources
    call; no definition here models a function of the repository. *)
From Stdlib Require Import ZArith Lia Ascii String.
From stdpp Require Import base list sets strings.
From S2P Require Import Prelude.
#[local] Open Scope Z_scope.

Abbreviation byte := ascii (only parsing).
Abbreviation bytes := (list ascii) (only parsing).

Definition byte_val (b : byte) : Z := Z.of_N (N_of_ascii b).
Definition byte_of (z : Z) : byte := ascii_of_N (Z.to_N (z mod 256)).

(** A string literal as bytes, without a terminator. *)
Definition lit (s : string) : bytes := list_ascii_of_string s.

Definition NUL : byte := Ascii.zero.

(** ** The functions of [<cstring>] *)

(** [strlen]: the bytes before the first NUL. *)
Fixpoint c_str (bs : bytes) : bytes :=
  match bs with
  | [] => []
  | b :: r => if bool_decide (b = NUL) then [] else b :: c_str r
  end.

(** Lexicographic comparison of unsigned bytes; a proper prefix is smaller. *)
Fixpoint bytes_cmp (a b : bytes) : comparison :=
  match a, b with
  | [], [] => Eq
  | [], _ => Lt
  | _, [] => Gt
  | x :: r, y :: q =>
      match byte_val x ?= byte_val y with Eq => bytes_cmp r q | c => c end
  end.

(** The sign C library comparison functions return. *)
Definition sgn_of (c : comparison) : Z :=
  match c with Lt => -1 | Eq => 0 | Gt => 1 end.

(** [memcmp a b n] on buffers holding at least n bytes. *)
Definition memcmp (a b : bytes) (n : nat) : Z :=
  sgn_of (bytes_cmp (take n a) (take n b)).

(** [strcmp a b]: the sign of the first difference of the two C strings. *)
Definition strcmp (a b : bytes) : Z := sgn_of (bytes_cmp (c_str a) (c_str b)).

(** ** Little-endian words *)

Fixpoint le_bytes (n : nat) (z : Z) : bytes :=
  match n with
  | O => []
  | S m => byte_of z :: le_bytes m (Z.shiftr z 8)
  end.

Fixpoint le_val (bs : bytes) : Z :=
  match bs with
  | [] => 0
  | b :: r => byte_val b + 256 * le_val r
  end.

(** ** Buffers *)

(** The [n] bytes at offset [o], and the buffer with [bs] stored at [o]. *)
Definition bread (o n : nat) (buf : bytes) : bytes := take n (drop o buf).
Definition bwrite (o : nat) (bs buf : bytes) : bytes :=
  take o buf ++ bs ++ drop (o + length bs) buf.

(** ** Facts *)

Lemma byte_val_range b : 0 <= byte_val b < 256.
Proof.
  unfold byte_val. pose proof (N_ascii_bounded b). lia.
Qed.

Lemma byte_val_of z : byte_val (byte_of z) = z mod 256.
Proof.
  unfold byte_val, byte_of. pose proof (Z.mod_pos_bound z 256 ltac:(lia)).
  rewrite N_ascii_embedding by lia. lia.
Qed.

Lemma byte_val_inj a b : byte_val a = byte_val b -> a = b.
Proof.
  unfold byte_val. intros H. rewrite <- (ascii_N_embedding a), <- (ascii_N_embedding b).
  f_equal. lia.
Qed.

Lemma length_le_bytes n z : length (le_bytes n z) = n.
Proof. revert z. induction n; intros; simpl; auto. Qed.

Lemma le_val_bytes n z : le_val (le_bytes n z) = z mod 2 ^ (8 * Z.of_nat n).
Proof.
  revert z. induction n as [|n IH]; intros z; simpl le_bytes; simpl le_val.
  - rewrite Z.mul_0_r, Z.pow_0_r, Z.mod_1_r. done.
  - rewrite byte_val_of, IH, Z.shiftr_div_pow2 by lia.
    replace (8 * Z.of_nat (S n)) with (8 + 8 * Z.of_nat n) by lia.
    rewrite Z.pow_add_r by lia. change (2 ^ 8) with 256.
    rewrite Z.rem_mul_r by lia. lia.
Qed.

Lemma le_val_range bs : 0 <= le_val bs < 2 ^ (8 * Z.of_nat (length bs)).
Proof.
  induction bs as [|b r IH]; simpl le_val; simpl length.
  - rewrite Z.mul_0_r, Z.pow_0_r. lia.
  - pose proof (byte_val_range b).
    replace (8 * Z.of_nat (S (length r))) with (8 + 8 * Z.of_nat (length r)) by lia.
    rewrite Z.pow_add_r by lia. change (2 ^ 8) with 256. lia.
Qed.

Lemma le_val_inj a b : length a = length b -> le_val a = le_val b -> a = b.
Proof.
  revert b. induction a as [|x a IH]; intros [|y b] Hl Hv; simpl in *; try lia; [done|].
  pose proof (byte_val_range x). pose proof (byte_val_range y).
  assert (byte_val x = byte_val y /\ le_val a = le_val b) as [Hx Ha] by lia.
  f_equal; [by apply byte_val_inj|]. apply IH; [lia|done].
Qed.

Lemma le_bytes_val bs : le_bytes (length bs) (le_val bs) = bs.
Proof.
  apply le_val_inj; [apply length_le_bytes|].
  rewrite le_val_bytes. apply Z.mod_small, le_val_range.
Qed.

Lemma le_val_bytes_fits n z : fits (8 * Z.of_nat n) z -> le_val (le_bytes n z) = z.
Proof. intros. rewrite le_val_bytes. by apply Z.mod_small. Qed.

(** Buffers: a write reads back, and leaves every disjoint range alone. *)

Lemma length_bwrite o bs buf :
  (o + length bs <= length buf)%nat -> length (bwrite o bs buf) = length buf.
Proof. intros. unfold bwrite. rewrite !length_app, length_take, length_drop. lia. Qed.

Lemma length_bread o n buf : (o + n <= length buf)%nat -> length (bread o n buf) = n.
Proof. intros. unfold bread. rewrite length_take, length_drop. lia. Qed.

Lemma bread_lookup o n buf i :
  bread o n buf !! i = if decide (i < n)%nat then buf !! (o + i)%nat else None.
Proof.
  unfold bread. case_decide.
  - rewrite lookup_take_lt by done. apply lookup_drop.
  - apply lookup_take_ge. lia.
Qed.

Lemma bwrite_lookup o bs buf i :
  (o + length bs <= length buf)%nat ->
  bwrite o bs buf !! i =
    if decide (o <= i < o + length bs)%nat then bs !! (i - o)%nat else buf !! i.
Proof.
  intros Hl. unfold bwrite. case_decide.
  - rewrite lookup_app_r; rewrite length_take; [|lia].
    rewrite lookup_app_l by lia. f_equal. lia.
  - destruct (decide (i < o)%nat).
    + rewrite lookup_app_l by (rewrite length_take; lia). by apply lookup_take_lt.
    + rewrite lookup_app_r; rewrite length_take; [|lia].
      rewrite lookup_app_r by lia. rewrite lookup_drop. f_equal. lia.
Qed.

Lemma bread_bwrite_same o bs buf :
  (o + length bs <= length buf)%nat -> bread o (length bs) (bwrite o bs buf) = bs.
Proof.
  intros Hl. apply list_eq. intros i. rewrite bread_lookup.
  case_decide.
  - rewrite bwrite_lookup by done. rewrite decide_True by lia. f_equal. lia.
  - symmetry. apply lookup_ge_None. lia.
Qed.

(** A read inside the written range returns that part of what was written. *)
Lemma bread_bwrite_in o bs buf p n :
  (o + length bs <= length buf)%nat -> (o <= p)%nat -> (p + n <= o + length bs)%nat ->
  bread p n (bwrite o bs buf) = bread (p - o) n bs.
Proof.
  intros Hl H1 H2. apply list_eq. intros i. rewrite !bread_lookup.
  case_decide; [|done]. rewrite bwrite_lookup by done.
  rewrite decide_True by lia. f_equal. lia.
Qed.

Lemma bread_bwrite_disjoint o bs buf p n :
  (o + length bs <= length buf)%nat -> (p + n <= o \/ o + length bs <= p)%nat ->
  bread p n (bwrite o bs buf) = bread p n buf.
Proof.
  intros Hl Hd. apply list_eq. intros i. rewrite !bread_lookup.
  case_decide; [|done]. rewrite bwrite_lookup by done.
  rewrite decide_False by lia. done.
Qed.

(** Two adjacent reads are one read. *)
Lemma bread_app o n m buf :
  bread o (n + m) buf = bread o n buf ++ bread (o + n) m buf.
Proof.
  unfold bread. rewrite <- (take_drop n (take (n + m) (drop o buf))).
  rewrite take_take, Nat.min_l by lia. f_equal.
  rewrite skipn_firstn_comm, drop_drop. f_equal. lia.
Qed.

(** [c_str] stops at the first NUL. *)
Lemma c_str_app_nul k r : NUL ∉ k -> c_str (k ++ NUL :: r) = k.
Proof.
  induction k as [|b k IH]; intros Hn; simpl.
  - done.
  - rewrite bool_decide_eq_false_2 by set_solver. f_equal. apply IH. set_solver.
Qed.

Lemma c_str_no_nul k : NUL ∉ k -> c_str k = k.
Proof.
  induction k as [|b k IH]; intros Hn; simpl; [done|].
  rewrite bool_decide_eq_false_2 by set_solver. f_equal. apply IH. set_solver.
Qed.

Lemma c_str_nul_free bs : NUL ∉ c_str bs.
Proof.
  induction bs as [|b r IH]; simpl; [set_solver|].
  case_bool_decide; set_solver.
Qed.

Lemma c_str_length bs : (length (c_str bs) <= length bs)%nat.
Proof. induction bs as [|b r IH]; simpl; [lia|]. case_bool_decide; simpl; lia. Qed.

(** [bytes_cmp] is a decidable strict total order. *)
Lemma bytes_cmp_refl a : bytes_cmp a a = Eq.
Proof. induction a; simpl; [done|]. by rewrite Z.compare_refl. Qed.

Lemma bytes_cmp_eq a b : bytes_cmp a b = Eq <-> a = b.
Proof.
  split; [|intros ->; apply bytes_cmp_refl].
  revert b. induction a as [|x a IH]; intros [|y b]; simpl; try done.
  destruct (Z.compare_spec (byte_val x) (byte_val y)) as [E|E|E]; try done.
  intros H. f_equal; [by apply byte_val_inj|auto].
Qed.

Lemma bytes_cmp_antisym a b : bytes_cmp b a = CompOpp (bytes_cmp a b).
Proof.
  revert b. induction a as [|x a IH]; intros [|y b]; simpl; try done.
  rewrite (Z.compare_antisym (byte_val x) (byte_val y)).
  destruct (byte_val x ?= byte_val y); simpl; auto.
Qed.

Lemma bytes_cmp_lt_trans a b c :
  bytes_cmp a b = Lt -> bytes_cmp b c = Lt -> bytes_cmp a c = Lt.
Proof.
  revert b c. induction a as [|x a IH]; intros [|y b] [|z c]; simpl; try done.
  destruct (Z.compare_spec (byte_val x) (byte_val y)) as [E|E|E];
  destruct (Z.compare_spec (byte_val y) (byte_val z)) as [F|F|F];
  destruct (Z.compare_spec (byte_val x) (byte_val z)) as [G|G|G]; try done; try lia.
  apply IH.
Qed.

Lemma strcmp_eq a b : strcmp a b = 0 <-> c_str a = c_str b.
Proof.
  unfold strcmp. rewrite <- bytes_cmp_eq.
  destruct (bytes_cmp (c_str a) (c_str b)); simpl; split; try done; lia.
Qed.

Definition bytes_lt (a b : bytes) : Prop := bytes_cmp a b = Lt.

#[global] Instance bytes_lt_dec a b : Decision (bytes_lt a b).
Proof. unfold bytes_lt. apply _. Defined.

#[global] Instance bytes_lt_strict : StrictOrder bytes_lt.
Proof.
  split.
  - intros a. unfold complement, bytes_lt. by rewrite bytes_cmp_refl.
  - intros a b c. apply bytes_cmp_lt_trans.
Qed.

(** A difference within the first n bytes decides the comparison ... *)
Lemma bytes_cmp_take_ne n a b :
  bytes_cmp (take n a) (take n b) <> Eq ->
  (n <= length a)%nat -> (n <= length b)%nat ->
  bytes_cmp a b = bytes_cmp (take n a) (take n b).
Proof.
  revert a b. induction n as [|n IH]; intros [|x a] [|y b]; simpl; intros Hne Ha Hb; try done; try lia.
  destruct (byte_val x ?= byte_val y); try done. apply IH; [done|lia|lia].
Qed.

(** ... and otherwise the lengths do, once the shorter one is exhausted. *)
Lemma bytes_cmp_take_eq a b :
  let n := Nat.min (length a) (length b) in
  bytes_cmp (take n a) (take n b) = Eq ->
  bytes_cmp a b = Nat.compare (length a) (length b).
Proof.
  revert b. induction a as [|x a IH]; intros [|y b]; simpl; try done.
  destruct (byte_val x ?= byte_val y); try done. apply IH.
Qed.

Lemma sgn_of_0 c : sgn_of c = 0 <-> c = Eq.
Proof. destruct c; simpl; split; try done; lia. Qed.

(** Filling a zeroed buffer from left to right. *)
Lemma bwrite_fill o pre bs m k :
  o = length pre -> m = (length bs + k)%nat ->
  bwrite o bs (pre ++ replicate m NUL) = (pre ++ bs) ++ replicate k NUL.
Proof.
  intros -> ->. unfold bwrite. rewrite take_app_length.
  rewrite drop_app_add, replicate_add.
  rewrite drop_app_le by (rewrite length_replicate; lia).
  rewrite drop_replicate, Nat.sub_diag. simpl. by rewrite app_assoc.
Qed.

Lemma bread_app_l n a b : n = length a -> bread 0 n (a ++ b) = a.
Proof. intros ->. unfold bread. simpl. apply take_app_length. Qed.

Lemma bread_app_r o n a b : o = length a -> n = length b -> bread o n (a ++ b) = b.
Proof. intros -> ->. unfold bread. rewrite drop_app_length. by apply take_ge. Qed.
