(* ===== verification/Prog.v ===== *)
(** * Programs over a shared store

    The stateful code of the repository is written once, as a [prog]: a tree
    whose nodes are the atomic accesses to the shared store (one load, store or
    compare-and-swap each).  The same program has two readings:

    - [run] executes it alone, from start to end (sequential semantics);
    - [exec] interleaves a pool of programs, one atomic access per scheduled
      step (concurrent semantics).

    [Fault] is a failed RAW_CHECK, DCHECK or assert; [Stuck] is a loop that used
    up its fuel.  [rg] is a rely-guarantee judgement for programs and
    [exec_rg] its soundness for every schedule. *)
From Stdlib Require Import Lia.
From stdpp Require Import base list strings relations.
From S2P Require Import Prelude.

Inductive result (A : Type) :=
| Done (a : A)
| Faulted (msg : string)
| NoFuel.
Arguments Done {A} a.
Arguments Faulted {A} msg.
Arguments NoFuel {A}.

Section prog.
Context {S : Type}.

Inductive prog (A : Type) : Type :=
| Ret (a : A)
| Act {X : Type} (f : S -> X * S) (k : X -> prog A)
| Fault (msg : string)
| Stuck.
#[local] Arguments Ret {A} a.
#[local] Arguments Act {A X} f k.
#[local] Arguments Fault {A} msg.
#[local] Arguments Stuck {A}.

Fixpoint bind {A B} (p : prog A) (g : A -> prog B) : prog B :=
  match p with
  | Ret a => g a
  | Act f k => Act f (fun x => bind (k x) g)
  | Fault m => Fault m
  | Stuck => Stuck
  end.

(** One atomic access; a read; an update. *)
Definition act {X} (f : S -> X * S) : prog X := Act f Ret.
Definition rd {X} (f : S -> X) : prog X := act (fun s => (f s, s)).
Definition upd (f : S -> S) : prog unit := act (fun s => (tt, f s)).

(** RAW_CHECK, DCHECK and assert. *)
Definition check (b : bool) (msg : string) : prog unit :=
  if b then Ret tt else Fault msg.

(** [while (true) body], with the loop-carried variables as the state [I]:
    [inl] goes round again ([continue], [goto retry]), [inr] leaves. *)
Fixpoint loop {I O} (fuel : nat) (body : I -> prog (I + O)) (i : I) : prog O :=
  match fuel with
  | O => Stuck
  | Datatypes.S n =>
      bind (body i) (fun r => match r with inl j => loop n body j | inr o => Ret o end)
  end.

(** [for (x : l) body], threading a loop-carried value. *)
Fixpoint for_list {E I} (l : list E) (body : E -> I -> prog I) (i : I) : prog I :=
  match l with
  | [] => Ret i
  | x :: r => bind (body x i) (for_list r body)
  end.

(** ** Sequential semantics *)

Fixpoint run {A} (p : prog A) (s : S) : result A * S :=
  match p with
  | Ret a => (Done a, s)
  | Act f k => let (x, s') := f s in run (k x) s'
  | Fault m => (Faulted m, s)
  | Stuck => (NoFuel, s)
  end.

(** Sequential composition of outcomes. *)
Definition and_then {A B} (r : result A * S) (g : A -> S -> result B * S) : result B * S :=
  match r with
  | (Done a, s) => g a s
  | (Faulted m, s) => (Faulted m, s)
  | (NoFuel, s) => (NoFuel, s)
  end.

Lemma run_bind {A B} (p : prog A) (g : A -> prog B) s :
  run (bind p g) s = and_then (run p s) (fun a s' => run (g a) s').
Proof.
  revert s. induction p as [a|X f k IH|m|]; intros s; simpl; try done.
  destruct (f s) as [x s']. apply IH.
Qed.

Lemma run_bind_done {A B} (p : prog A) (g : A -> prog B) s a s' :
  run p s = (Done a, s') -> run (bind p g) s = run (g a) s'.
Proof. intros H. by rewrite run_bind, H. Qed.

Lemma run_rd {X} (f : S -> X) s : run (rd f) s = (Done (f s), s).
Proof. done. Qed.

Lemma run_upd (f : S -> S) s : run (upd f) s = (Done tt, f s).
Proof. done. Qed.

Lemma run_check b m s : b = true -> run (check b m) s = (Done tt, s).
Proof. by intros ->. Qed.

Lemma bind_assoc {A B C} (p : prog A) (g : A -> prog B) (h : B -> prog C) s :
  run (bind (bind p g) h) s = run (bind p (fun a => bind (g a) h)) s.
Proof.
  rewrite !run_bind. destruct (run p s) as [[a|m|] s']; simpl; [|done..].
  by rewrite run_bind.
Qed.

(** A round that asks for another and changes nothing is repeated until the fuel is used up. *)
Lemma loop_spins {I O} fuel (body : I -> prog (I + O)) i s :
  run (body i) s = (Done (inl i), s) -> run (loop fuel body i) s = (NoFuel, s).
Proof.
  intros H. induction fuel as [|n IH]; simpl; [done|]. by rewrite (run_bind_done _ _ _ _ _ H).
Qed.

(** ** Concurrent semantics: a pool of threads and a schedule *)

(** One atomic access of one thread; a finished thread stays as it is. *)
Definition step {A} (p : prog A) (s : S) : prog A * S :=
  match p with
  | Act f k => let (x, s') := f s in (k x, s')
  | _ => (p, s)
  end.

Definition pool_step {A} (i : nat) (c : list (prog A) * S) : list (prog A) * S :=
  match c.1 !! i with
  | Some p => let (p', s') := step p c.2 in (<[i := p']> c.1, s')
  | None => c
  end.

(** Run the threads in the order the schedule names them. *)
Fixpoint exec {A} (sched : list nat) (c : list (prog A) * S) : list (prog A) * S :=
  match sched with
  | [] => c
  | i :: r => exec r (pool_step i c)
  end.

(** A thread that has ended takes no more steps. *)
Lemma exec_ended {A} n i (c : list (prog A) * S) :
  (exists a, c.1 !! i = Some (Ret a)) -> exec (replicate n i) c = c.
Proof.
  intros [a Ha]. induction n as [|n IH]; simpl; [done|]. unfold pool_step. rewrite Ha. simpl.
  rewrite list_insert_id by done. by destruct c.
Qed.

Lemma exec_app {A} l1 l2 (c : list (prog A) * S) : exec (l1 ++ l2) c = exec l2 (exec l1 c).
Proof. revert c. induction l1; intros c; simpl; auto. Qed.

(** The result of a thread, when it has finished. *)
Definition outcome {A} (p : prog A) : option (result A) :=
  match p with
  | Ret a => Some (Done a)
  | Fault m => Some (Faulted m)
  | Stuck => Some NoFuel
  | Act _ _ => None
  end.

(** ** Rely-guarantee reasoning *)

(** [rg R G p Q s]: whatever R-transitions other threads make between the atomic
    accesses of [p], every access of [p] is a G-transition, no check of [p]
    fails, and if [p] returns then [Q] holds. *)
Fixpoint rg {A} (R G : S -> S -> Prop) (p : prog A) (Q : A -> S -> Prop) (s : S) : Prop :=
  forall s', R s s' ->
  match p with
  | Ret a => Q a s'
  | Act f k => G s' (f s').2 /\ rg R G (k (f s').1) Q (f s').2
  | Fault _ => False
  | Stuck => True
  end.

Section rely_guarantee.
Context (R G : S -> S -> Prop) (R_refl : reflexive S R) (R_trans : transitive S R).

Lemma rg_stable {A} (p : prog A) Q s s' : R s s' -> rg R G p Q s -> rg R G p Q s'.
Proof.
  intros HR Hp. destruct p; simpl in *; intros t Ht; exact (Hp t (R_trans _ _ _ HR Ht)).
Qed.

Lemma rg_mono {A} (p : prog A) (Q Q' : A -> S -> Prop) s :
  (forall a s', Q a s' -> Q' a s') -> rg R G p Q s -> rg R G p Q' s.
Proof.
  intros HQ. revert s. induction p as [a|X f k IH|m|]; intros s Hp; simpl in *;
    intros t Ht; specialize (Hp t Ht); try done; [by apply HQ|].
  destruct Hp as [? ?]. split; [done|]. by apply IH.
Qed.

Lemma rg_bind {A B} (p : prog A) (g : A -> prog B) (Q : A -> S -> Prop) (Q' : B -> S -> Prop) s :
  rg R G p Q s -> (forall a s', Q a s' -> rg R G (g a) Q' s') -> rg R G (bind p g) Q' s.
Proof.
  intros Hp Hg. revert s Hp. induction p as [a|X f k IH|m|]; intros s Hp.
  - simpl in Hp. apply Hg. apply Hp. apply R_refl.
  - simpl in *. intros s' Hs. destruct (Hp s' Hs) as [H1 H2]. split; [done|].
    by apply IH.
  - simpl in Hp. destruct (Hp s (R_refl s)).
  - done.
Qed.

(** The rules for the primitives: the postcondition must be stable. *)
Lemma rg_ret {A} (a : A) (Q : A -> S -> Prop) s :
  (forall s', R s s' -> Q a s') -> rg R G (Ret a) Q s.
Proof. done. Qed.

Lemma rg_act {X} (f : S -> X * S) (Q : X -> S -> Prop) s :
  (forall s', R s s' -> G s' (f s').2 /\ forall t, R (f s').2 t -> Q (f s').1 t) ->
  rg R G (act f) Q s.
Proof. done. Qed.

Lemma rg_rd {X} (f : S -> X) (Q : X -> S -> Prop) s :
  (forall s', G s' s') ->
  (forall s', R s s' -> forall t, R s' t -> Q (f s') t) -> rg R G (rd f) Q s.
Proof. intros HG HQ s' Hs; simpl. split; [apply HG|]. intros t Ht. by eapply HQ. Qed.

(** The loop rule: an invariant that every round re-establishes. *)
Lemma rg_loop {I O} (Inv : I -> S -> Prop) (Q : O -> S -> Prop) fuel (body : I -> prog (I + O)) :
  (forall i s, Inv i s ->
     rg R G (body i) (fun r s' => match r with inl j => Inv j s' | inr o => forall t, R s' t -> Q o t end) s) ->
  forall i s, Inv i s -> rg R G (loop fuel body i) Q s.
Proof.
  intros Hb. induction fuel as [|n IH]; intros i s Hi; [done|]. simpl.
  eapply rg_bind; [by apply Hb|]. intros [j|o] t; simpl; [apply IH|done].
Qed.

(** What a finished thread satisfies. *)
Lemma rg_outcome {A} (p : prog A) (Q : A -> S -> Prop) s r :
  rg R G p Q s -> outcome p = Some r ->
  match r with Done a => Q a s | Faulted _ => False | NoFuel => True end.
Proof.
  destruct p as [a|X f k|m|]; simpl; intros H [= <-]; try done.
  - apply H, R_refl.
  - by apply (H s), R_refl.
Qed.
End rely_guarantee.

(** Soundness: if every step of a thread is a transition that every other thread
    relies on, the judgement of every thread survives every schedule. *)
Section soundness.
Context (R G : nat -> S -> S -> Prop).
Context (R_refl : forall i, reflexive S (R i)) (R_trans : forall i, transitive S (R i)).
Context (G_R : forall i j s s', i <> j -> G i s s' -> R j s s').
Context {A : Type} (Q : nat -> A -> S -> Prop).

Definition pool_rg (ts : list (prog A)) (s : S) : Prop :=
  forall j p, ts !! j = Some p -> rg (R j) (G j) p (Q j) s.

Lemma insert_rg i ts p' s s' :
  i < length ts -> G i s s' -> rg (R i) (G i) p' (Q i) s' ->
  pool_rg ts s -> pool_rg (<[i := p']> ts) s'.
Proof.
  intros Hi HG Hp' H j p. destruct (decide (i = j)) as [<-|].
  - rewrite list_lookup_insert_eq by done. by intros [= <-].
  - rewrite list_lookup_insert_ne by done. intros Hj.
    eapply rg_stable; [apply R_trans|by eapply G_R|eauto].
Qed.

Lemma pool_step_rg i ts s :
  pool_rg ts s -> let c := pool_step i (ts, s) in
  pool_rg c.1 c.2 /\ (c.2 = s \/ G i s c.2).
Proof.
  intros H. unfold pool_step; simpl. destruct (ts !! i) as [p|] eqn:Hi; simpl; [|auto].
  pose proof (H i p Hi) as Hp. pose proof (lookup_lt_Some _ _ _ Hi) as Hl.
  assert (pool_rg (<[i := p]> ts) s) as Hsame by (by rewrite list_insert_id).
  destruct p as [a|X f k|m|]; simpl in *; auto.
  destruct (Hp s (R_refl i s)) as [HG Hk]. destruct (f s) as [x s'] eqn:E; simpl in *.
  split; [|by right]. by apply (insert_rg i ts (k x) s s').
Qed.

(** A transition of some thread. *)
Definition any_step (s s' : S) : Prop := exists i, G i s s'.

Lemma exec_rg sched ts s :
  pool_rg ts s -> let c := exec sched (ts, s) in
  pool_rg c.1 c.2 /\ rtc any_step s c.2.
Proof.
  revert ts s. induction sched as [|i r IH]; intros ts s H; simpl; [split; [done|apply rtc_refl]|].
  pose proof (pool_step_rg i ts s H) as Hs.
  destruct (pool_step i (ts, s)) as [ts' s']. simpl in Hs. destruct Hs as (H1 & H2).
  destruct (IH ts' s' H1) as [H3 H4]. split; [done|].
  destruct H2 as [->|H2]; [done|]. eapply rtc_l; [by exists i|done].
Qed.
End soundness.

End prog.

Arguments prog S A : clear implicits.
Arguments Ret {S A} a.
Arguments Act {S A X} f k.
Arguments Fault {S A} msg.
Arguments Stuck {S A}.

(** ** Auxiliary state

    [observe obs p] runs [p] on a store paired with an auxiliary (ghost) component
    that [obs] updates from the store before and after each access.  The program
    itself cannot read it, and erasing it gives back the original execution. *)
Section observe.
Context {S Gh : Type} (obs : S -> S -> Gh -> Gh).

Fixpoint observe {A} (p : prog S A) : prog (S * Gh) A :=
  match p with
  | Ret a => Ret a
  | Act f k =>
      Act (fun sg => let (x, s') := f sg.1 in (x, (s', obs sg.1 s' sg.2)))
          (fun x => observe (k x))
  | Fault m => Fault m
  | Stuck => Stuck
  end.

Lemma observe_bind {A B} (p : prog S A) (g : A -> prog S B) (R G : S * Gh -> S * Gh -> Prop) Q sg :
  rg R G (bind (observe p) (fun a => observe (g a))) Q sg -> rg R G (observe (bind p g)) Q sg.
Proof.
  revert sg. induction p as [a|X f k IH|m|]; intros sg; simpl; try done.
  intros H s' Hs. destruct (H s' Hs) as [H1 H2]. split; [done|]. by apply IH.
Qed.

Lemma step_observe {A} (p : prog S A) sg :
  (step (observe p) sg).1 = observe (step p sg.1).1 /\
  (step (observe p) sg).2.1 = (step p sg.1).2.
Proof. destruct p; simpl; try done. by destruct (f sg.1). Qed.

Lemma exec_observe {A} sched (ts : list (prog S A)) sg :
  (exec sched (observe <$> ts, sg)).1 = observe <$> (exec sched (ts, sg.1)).1 /\
  (exec sched (observe <$> ts, sg)).2.1 = (exec sched (ts, sg.1)).2.
Proof.
  revert ts sg. induction sched as [|i r IH]; intros ts sg; simpl; [done|].
  unfold pool_step; cbn [fst snd]. rewrite list_lookup_fmap.
  destruct (ts !! i) as [p|]; simpl; [|apply IH].
  destruct (step_observe p sg) as [E1 E2].
  destruct (step (observe p) sg) as [p' sg'], (step p sg.1) as [q s'] eqn:E. simpl in *.
  rewrite E1, <- E2, <- list_fmap_insert. apply IH.
Qed.
End observe.

(** The auxiliary state is only ever changed through [obs]. *)
Lemma pool_step_ghost {S Gh A} (obs : S -> S -> Gh -> Gh) i (ts : list (prog S A)) sg :
  let c := pool_step i (observe obs <$> ts, sg) in
  c.2 = sg \/ c.2.2 = obs sg.1 c.2.1 sg.2.
Proof.
  unfold pool_step; cbn [fst snd]. rewrite list_lookup_fmap.
  destruct (ts !! i) as [p|]; simpl; [|by left].
  destruct p as [a|X f k|m|]; simpl; [by left| |by left|by left].
  destruct (f sg.1). by right.
Qed.

(** Each thread may be observed in its own way. *)
Section observe_each.
Context {S Gh A : Type} (obs : nat -> S -> S -> Gh -> Gh).

Definition observe_each (ts : list (prog S A)) : list (prog (S * Gh) A) :=
  imap (fun j => observe (obs j)) ts.

Lemma observe_each_lookup ts j : observe_each ts !! j = observe (obs j) <$> ts !! j.
Proof. unfold observe_each. apply (list_lookup_imap (fun j => observe (obs j))). Qed.

Lemma observe_each_insert ts i p : <[i := observe (obs i) p]> (observe_each ts) = observe_each (<[i := p]> ts).
Proof.
  apply list_eq. intros j. rewrite observe_each_lookup. destruct (decide (i = j)) as [<-|Hne].
  - destruct (decide (i < length ts)%nat) as [Hl|Hl].
    + rewrite !list_lookup_insert_eq; [done|done|]. unfold observe_each. by rewrite length_imap.
    + rewrite !list_insert_ge, observe_each_lookup; [done|lia|]. unfold observe_each. rewrite length_imap. lia.
  - by rewrite !list_lookup_insert_ne, observe_each_lookup.
Qed.

Lemma pool_step_each i ts sg :
  let c := pool_step i (observe_each ts, sg) in
  c.1 = observe_each (pool_step i (ts, sg.1)).1 /\ c.2.1 = (pool_step i (ts, sg.1)).2 /\ (c.2 = sg \/ c.2.2 = obs i sg.1 c.2.1 sg.2).
Proof.
  unfold pool_step; cbn [fst snd]. rewrite observe_each_lookup. destruct (ts !! i) as [p|]; simpl; [|auto].
  destruct (step_observe (obs i) p sg) as [E1 E2].
  assert ((step (observe (obs i) p) sg).2 = sg \/
          (step (observe (obs i) p) sg).2.2 = obs i sg.1 (step (observe (obs i) p) sg).2.1 sg.2) as H.
  { destruct p as [a|X h k'|m|]; simpl; [by left| |by left|by left]. destruct (h sg.1). by right. }
  destruct (step (observe (obs i) p) sg) as [p' sg'], (step p sg.1) as [q s']. simpl in *.
  rewrite E1. split; [|done]. apply observe_each_insert.
Qed.

Lemma exec_observe_each sched ts sg :
  (exec sched (observe_each ts, sg)).1 = observe_each (exec sched (ts, sg.1)).1 /\
  (exec sched (observe_each ts, sg)).2.1 = (exec sched (ts, sg.1)).2.
Proof.
  revert ts sg. induction sched as [|i r IH]; intros ts sg; simpl; [done|].
  destruct (pool_step_each i ts sg) as (E1 & E2 & _).
  destruct (pool_step i (observe_each ts, sg)) as [ts' sg'], (pool_step i (ts, sg.1)) as [q s']. simpl in *.
  subst. apply IH.
Qed.

Lemma exec_each_bound (f : Gh -> nat) sched ts sg :
  (forall j s s' g, (f (obs j s s' g) <= f g + 1)%nat) ->
  (f (exec sched (observe_each ts, sg)).2.2 <= f sg.2 + length sched)%nat.
Proof.
  intros Hf. revert ts sg. induction sched as [|i r IH]; intros ts sg; simpl; [lia|].
  destruct (pool_step_each i ts sg) as (E1 & _ & E3).
  destruct (pool_step i (observe_each ts, sg)) as [ts' sg']. simpl in *. subst ts'.
  specialize (IH (pool_step i (ts, sg.1)).1 sg'). destruct E3 as [-> |E3]; [lia|].
  pose proof (Hf i sg.1 sg'.1 sg.2) as H. rewrite <- E3 in H. lia.
Qed.
End observe_each.

(** ** Triples under interference

    [triple P p Q]: started in a [P] state, [p] run against any R-interference with
    the auxiliary state [obs] keeps, makes only G-transitions, passes its checks and
    ends in [Q].  Assertions are required stable where the rules need it. *)
Section triple.
Context {S Gh : Type} (obs : S -> S -> Gh -> Gh).
Context (R G : S * Gh -> S * Gh -> Prop).
Context (R_refl : reflexive _ R) (R_trans : transitive _ R).

Definition stable (P : S * Gh -> Prop) : Prop := forall s s', P s -> R s s' -> P s'.

Definition triple {A} (P : S * Gh -> Prop) (p : prog S A) (Q : A -> S * Gh -> Prop) : Prop :=
  forall s, P s -> rg R G (observe obs p) Q s.

Lemma triple_conseq {A} (P P' : S * Gh -> Prop) (p : prog S A) (Q Q' : A -> S * Gh -> Prop) :
  triple P p Q -> (forall s, P' s -> P s) -> (forall a s, Q a s -> Q' a s) -> triple P' p Q'.
Proof. intros H HP HQ s Hs. eapply rg_mono; [apply HQ|]. by apply H, HP. Qed.

Lemma triple_ret {A} (a : A) P (Q : A -> S * Gh -> Prop) :
  stable P -> (forall s, P s -> Q a s) -> triple P (Ret a) Q.
Proof. intros HP HQ s Hs s' HR. eapply HQ, HP; eauto. Qed.

Lemma triple_bind {A B} (p : prog S A) (g : A -> prog S B) P Q Q' :
  triple P p Q -> (forall a, triple (Q a) (g a) Q') -> triple P (bind p g) Q'.
Proof.
  intros Hp Hg s Hs. apply observe_bind. eapply (rg_bind R G R_refl); [by apply Hp|].
  intros a s' Ha. by apply Hg.
Qed.

Lemma triple_act {X} (f : S -> X * S) P (Q : X -> S * Gh -> Prop) :
  stable P -> (forall x, stable (Q x)) ->
  (forall s, P s -> let t := ((f s.1).2, obs s.1 (f s.1).2 s.2) in G s t /\ Q (f s.1).1 t) ->
  triple P (act f) Q.
Proof.
  intros HP HQ H s Hs. simpl. intros s' HR. specialize (H s' (HP _ _ Hs HR)).
  destruct (f s'.1) as [x w']. simpl in *. destruct H as [HG Hx].
  split; [done|]. intros t Ht. by eapply HQ.
Qed.

(** What neither the environment nor the program's own accesses can falsify. *)
Lemma triple_frame {A} (F : S * Gh -> Prop) (p : prog S A) P Q :
  stable F -> (forall s s', F s -> G s s' -> F s') ->
  triple P p Q -> triple (fun s => P s /\ F s) p (fun a s => Q a s /\ F s).
Proof.
  intros HR HG H s [Hs HF]. specialize (H s Hs). clear Hs. revert s HF H.
  induction p as [a|X f k IH|msg|]; intros s HF H s' HRs; specialize (H s' HRs); try done.
  - split; [done|by eapply HR].
  - destruct H as [HGs Hk]. split; [done|]. apply IH; [|done]. eapply HG; [|done]. by eapply HR.
Qed.

(** A triple, followed by what needs its postcondition and the frame, under a guarantee
    that allows more. *)
Lemma triple_then {A B} (G' : S * Gh -> S * Gh -> Prop) (F : S * Gh -> Prop) (p : prog S A)
    (k : A -> prog S B) P Q Q' :
  (forall s s', G s s' -> G' s s') -> stable F -> (forall s s', F s -> G s s' -> F s') ->
  triple P p Q ->
  (forall a s, Q a s /\ F s -> rg R G' (observe obs (k a)) Q' s) ->
  forall s, P s /\ F s -> rg R G' (observe obs (bind p k)) Q' s.
Proof.
  intros HG HR HF Hp Hk s Hs.
  pose proof (triple_frame F p P Q HR HF Hp s Hs) as H. clear Hs Hp. apply observe_bind.
  eapply (rg_bind R G' R_refl); [|exact Hk].
  revert s H. induction p as [a|X f k' IH|msg|]; intros s H s' Hs; specialize (H s' Hs); try done.
  destruct H as [H1 H2]. split; [by apply HG|]. by apply IH.
Qed.

(** [for] with an invariant on the elements already visited. *)
Lemma triple_for_list {E I} (Inv : list E -> I -> S * Gh -> Prop) (l : list E)
    (body : E -> I -> prog S I) i :
  (forall i, stable (Inv l i)) ->
  (forall pre x post i, l = pre ++ x :: post -> triple (Inv pre i) (body x i) (Inv (pre ++ [x]))) ->
  triple (Inv [] i) (for_list l body i) (Inv l).
Proof.
  intros Hst Hb.
  assert (forall post pre i, l = pre ++ post -> triple (Inv pre i) (for_list post body i) (Inv l)) as Hg.
  { induction post as [|x post IH]; intros pre j El; simpl.
    - rewrite app_nil_r in El. subst pre. by apply triple_ret.
    - eapply triple_bind; [by apply (Hb pre x post)|]. intros k. apply IH.
      by rewrite El, <- app_assoc. }
  by apply (Hg l []).
Qed.

Lemma triple_loop {I O} (Inv : I -> S * Gh -> Prop) (Q : O -> S * Gh -> Prop) fuel
    (body : I -> prog S (I + O)) i :
  (forall o, stable (Q o)) ->
  (forall i, triple (Inv i) (body i) (fun r s => match r with inl j => Inv j s | inr o => Q o s end)) ->
  triple (Inv i) (loop fuel body i) Q.
Proof.
  intros Hst Hb. revert i. induction fuel as [|n IH]; intros i s Hs; [done|]. revert s Hs.
  change (triple (Inv i) (loop (Datatypes.S n) body i) Q). simpl.
  eapply triple_bind; [apply Hb|]. intros [j|o]; [apply IH|]. by apply triple_ret.
Qed.

Lemma triple_check (b : bool) msg P :
  stable P -> (forall s, P s -> b = true) -> triple P (check b msg) (fun _ => P).
Proof.
  intros HP Hb s Hs. rewrite (Hb s Hs). intros s' HR. by apply (HP s).
Qed.
End triple.

(** The auxiliary state after a whole schedule: a counter that each access moves by
    at most one is bounded by the schedule's length. *)
Lemma exec_ghost_bound {S Gh A} (obs : S -> S -> Gh -> Gh) (f : S * Gh -> nat) sched (ts : list (prog S A)) sg :
  (forall s s' g, (f (s', obs s s' g) <= f (s, g) + 1)%nat) ->
  (f (exec sched (observe obs <$> ts, sg)).2 <= f sg + length sched)%nat.
Proof.
  intros Hf. revert ts sg. induction sched as [|i r IH]; intros ts sg; simpl; [lia|].
  unfold pool_step; cbn [fst snd]. rewrite list_lookup_fmap.
  destruct (ts !! i) as [p|]; simpl; [|specialize (IH ts sg); lia].
  destruct (step_observe obs p sg) as [E1 E2].
  assert (f (step (observe obs p) sg).2 <= f sg + 1)%nat as H1.
  { destruct p as [a|X h k|m|]; simpl; try lia. destruct sg as [s g]. simpl.
    destruct (h s) as [x s']. apply Hf. }
  destruct (step (observe obs p) sg) as [p' sg']. simpl in *.
  rewrite E1, <- list_fmap_insert. specialize (IH (<[i:=(step p sg.1).1]> ts) sg'). lia.
Qed.

(** ** Programs on a part of the store *)

Class Lens (S T : Type) := {
  get : T -> S;
  put : S -> T -> T;
  get_put : forall s t, get (put s t) = s;
  put_get : forall t, put (get t) t = t;
  put_put : forall s s' t, put s (put s' t) = put s t
}.

Section zoom.
Context {S T : Type} `{Lens S T}.

Fixpoint zoom {A} (p : prog S A) : prog T A :=
  match p with
  | Ret a => Ret a
  | Act f k => Act (fun t => let (x, s') := f (get t) in (x, put s' t)) (fun x => zoom (k x))
  | Fault m => Fault m
  | Stuck => Stuck
  end.

Lemma run_zoom {A} (p : prog S A) t :
  run (zoom p) t = ((run p (get t)).1, put (run p (get t)).2 t).
Proof.
  revert t. induction p as [a|X f k IH|m|]; intros t; simpl; try by rewrite put_get.
  destruct (f (get t)) as [x s']. rewrite IH, get_put, put_put. done.
Qed.

(** Zooming goes through sequential composition. *)
Lemma triple_zoom_bind {Gh A B} (obs : T -> T -> Gh -> Gh) R G P (p : prog S A) (g : A -> prog S B) Q :
  triple obs R G P (bind (zoom p) (fun a => zoom (g a))) Q -> triple obs R G P (zoom (bind p g)) Q.
Proof.
  intros Hp s Hs. specialize (Hp s Hs). clear Hs. revert s Hp.
  induction p as [a|X f k IH|m|]; intros s Hp; simpl in *; try done.
  intros s' HR. specialize (Hp s' HR). destruct Hp as [HG Hk]. split; [done|]. by apply IH.
Qed.
End zoom.

Declare Scope prog_scope.
Delimit Scope prog_scope with prog.
Notation "'let!' x ':=' c 'in' k" := (bind c (fun x => k))
  (at level 10, x pattern, c at level 100, k at level 200,
   format "'[v' 'let!'  x  ':='  c  'in' '/' k ']'") : prog_scope.
Notation "c ';;;' k" := (bind c (fun _ => k))
  (at level 100, k at level 200, right associativity,
   format "'[v' c  ';;;' '/' k ']'") : prog_scope.

(** Evaluate a sequential run step by step: push [run] through [bind] and
    compute the atomic accesses. *)
Ltac run_step := rewrite ?run_bind; cbn [and_then run bind act rd upd check].
