(* ===== verification/Status.v ===== *)
(** * Slice and Status (include/slice.h, include/status.h, src/util/status.cc)

    A [Slice] is a pointer and a length: [data_] is the memory from the pointer
    on, of which [size_] bytes belong to the slice.  A [Status] is a code and an
    optional heap buffer holding a 4-byte length and the message.  An [assert]
    that fails is [None].  [memcmp] is known by its sign only. *)
From Stdlib Require Import ZArith Lia Ascii String.
From stdpp Require Import base list strings pretty.
From S2P Require Import Prelude Bytes.
#[local] Open Scope Z_scope.

(** ** Slice *)

Record Slice := MkSlice { data_ : bytes; size_ : nat }.

Definition Slice_default : Slice := MkSlice (lit "") 0.
Definition Slice_of_range (d : bytes) (n : nat) : Slice := MkSlice d n.
Definition Slice_of_string (s : bytes) : Slice := MkSlice s (length s).
Definition Slice_of_cstr (s : bytes) : Slice := MkSlice s (length (c_str s)).

Definition Slice_empty (s : Slice) : bool := bool_decide (size_ s = 0%nat).

(** [operator[]]: asserts that the index is in range. *)
Definition Slice_at (s : Slice) (n : nat) : option byte :=
  if decide (n < size_ s)%nat then data_ s !! n else None.

Definition Slice_clear (s : Slice) : Slice := MkSlice (lit "") 0.

Definition Slice_remove_prefix (s : Slice) (n : nat) : option Slice :=
  if decide (n <= size_ s)%nat then Some (MkSlice (drop n (data_ s)) (size_ s - n)) else None.

Definition Slice_remove_suffix (s : Slice) (n : nat) : option Slice :=
  if decide (n <= size_ s)%nat then Some (MkSlice (data_ s) (size_ s - n)) else None.

(** [copy(dest, dest_size, count)] and [copy(dest, dest_size)]: the new contents of [dest]. *)
Definition Slice_copy_count (s : Slice) (dest : bytes) (dest_size count : nat) : option bytes :=
  if decide (count <= size_ s)%nat then
    if decide (count <= dest_size)%nat then Some (bwrite 0 (take count (data_ s)) dest) else None
  else None.

Definition Slice_copy (s : Slice) (dest : bytes) (dest_size : nat) : option bytes :=
  if decide (size_ s <= dest_size)%nat then Some (bwrite 0 (take (size_ s) (data_ s)) dest)
  else None.

Definition Slice_starts_with (s x : Slice) : bool :=
  bool_decide (size_ x <= size_ s)%nat && (memcmp (data_ s) (data_ x) (size_ x) =? 0).

(** [memcmp_with_index]: the sign, and the index the loop stopped at. *)
Fixpoint memcmp_with_index_from (b1 b2 : bytes) (n : nat) (i : nat) : Z * nat :=
  match n with
  | O => (0, i)
  | S n' =>
      let byte1 := byte_val (default NUL (b1 !! i)) in
      let byte2 := byte_val (default NUL (b2 !! i)) in
      if byte1 =? byte2 then memcmp_with_index_from b1 b2 n' (S i)
      else (if byte1 <? byte2 then -1 else 1, i)
  end.

Definition Slice_memcmp_with_index (b1 b2 : bytes) (n : nat) : Z * nat :=
  memcmp_with_index_from b1 b2 n 0.

Definition Slice_eq (x y : Slice) : bool :=
  bool_decide (size_ x = size_ y) && (memcmp (data_ x) (data_ y) (size_ x) =? 0).

Definition Slice_ne (x y : Slice) : bool := negb (Slice_eq x y).

(** The tie-break on the sizes that the four comparison functions share. *)
Definition size_order (x y : Slice) (r : Z) : Z :=
  if bool_decide (size_ x < size_ y)%nat then -1
  else if bool_decide (size_ y < size_ x)%nat then 1 else r.

Definition Slice_compare (s b : Slice) : Z :=
  let min_len := Nat.min (size_ s) (size_ b) in
  let r := memcmp (data_ s) (data_ b) min_len in
  if r =? 0 then size_order s b r else r.

Definition Slice_compare_with_index (s b : Slice) : Z * nat :=
  let min_len := Nat.min (size_ s) (size_ b) in
  let '(r, index) := Slice_memcmp_with_index (data_ s) (data_ b) min_len in
  (if r =? 0 then size_order s b r else r, index).

Definition Slice_compare_len (s b : Slice) (len : nat) : Z :=
  let min_len := Nat.min (size_ s) (size_ b) in
  let r := memcmp (data_ s) (data_ b) (Nat.min min_len len) in
  if (r =? 0) && bool_decide (min_len < len)%nat then size_order s b r else r.

Definition Slice_compare_with_index_len (s b : Slice) (len : nat) : Z * nat :=
  let min_len := Nat.min (size_ s) (size_ b) in
  let '(r, index) := Slice_memcmp_with_index (data_ s) (data_ b) (Nat.min min_len len) in
  (if (r =? 0) && bool_decide (min_len < len)%nat then size_order s b r else r, index).

(** The bytes a slice denotes, and when its pointer covers them. *)
Definition contents (s : Slice) : bytes := take (size_ s) (data_ s).
Definition slice_wf (s : Slice) : Prop := (size_ s <= length (data_ s))%nat.

(** ** Status *)

Inductive Code :=
| kOk | kNotFound | kCorruption | kNotSupported | kInvalidArgument | kIOError
| kMergeInProgress | kIncomplete | kShutdownInProgress | kTimedOut | kAborted
| kBusy | kOutOfMemory | kKeyAlreadyExists | kUnableToMerge | kMwCASFailure.

#[global] Instance Code_eq_dec : EqDecision Code.
Proof. solve_decision. Defined.

Definition code_val (c : Code) : Z :=
  match c with
  | kOk => 0 | kNotFound => 1 | kCorruption => 2 | kNotSupported => 3
  | kInvalidArgument => 4 | kIOError => 5 | kMergeInProgress => 6
  | kIncomplete => 7 | kShutdownInProgress => 8 | kTimedOut => 9 | kAborted => 10
  | kBusy => 11 | kOutOfMemory => 12 | kKeyAlreadyExists => 13
  | kUnableToMerge => 14 | kMwCASFailure => 15
  end.

Record Status := MkStatus { code_ : Code; state_ : option bytes }.

Definition Status_OK : Status := MkStatus kOk None.
(** [explicit Status(Code)]. *)
Definition Status_code (c : Code) : Status := MkStatus c None.

(** [Status(Code, msg, msg2)]: the buffer is laid out by four [memcpy]s. *)
Definition Status_msg (c : Code) (msg msg2 : Slice) : option Status :=
  if decide (c = kOk) then None else
  let len1 := u32 (Z.of_nat (size_ msg)) in
  let len2 := u32 (Z.of_nat (size_ msg2)) in
  let size := u32 (len1 + (if len2 =? 0 then 0 else u32 (2 + len2))) in
  let result := replicate (Z.to_nat (u32 (size + 4))) NUL in
  let result := bwrite 0 (le_bytes 4 size) result in
  let result := bwrite 4 (take (Z.to_nat len1) (data_ msg)) result in
  let result :=
    if len2 =? 0 then result
    else bwrite (6 + Z.to_nat len1) (take (Z.to_nat len2) (data_ msg2))
           (bwrite (5 + Z.to_nat len1) (lit " ") (bwrite (4 + Z.to_nat len1) (lit ":") result)) in
  Some (MkStatus c (Some result)).

Definition Status_CopyState (state : bytes) : bytes :=
  let size := le_val (bread 0 4 state) in
  let result := replicate (Z.to_nat (u32 (size + 4))) NUL in
  bwrite 0 (bread 0 (Z.to_nat (u32 (size + 4))) state) result.

(** The copy constructor and assignment from a status other than [*this]. *)
Definition Status_copy (s : Status) : Status :=
  MkStatus (code_ s) (match state_ s with None => None | Some b => Some (Status_CopyState b) end).

Definition Status_eq (s rhs : Status) : bool := bool_decide (code_ s = code_ rhs).
Definition Status_ne (s rhs : Status) : bool := negb (Status_eq s rhs).
Definition Status_ok (s : Status) : bool := bool_decide (code_ s = kOk).

(** The predicates [IsNotFound], [IsCorruption], ...: one code each. *)
Definition Status_is (c : Code) (s : Status) : bool := bool_decide (code_ s = c).

(** The static factories: [NotFound(msg, msg2)], [NotFound()], ... *)
Definition Status_make (c : Code) (msgs : option (Slice * Slice)) : option Status :=
  match msgs with
  | None => Some (Status_code c)
  | Some (msg, msg2) => Status_msg c msg msg2
  end.

(** The prefix [ToString] prints for a code other than [kOk]. *)
Definition Status_type (c : Code) : bytes :=
  match c with
  | kNotFound => lit "NotFound: "
  | kCorruption => lit "Corruption: "
  | kNotSupported => lit "Not implemented: "
  | kInvalidArgument => lit "Invalid argument: "
  | kIOError => lit "IO error: "
  | kMergeInProgress => lit "Merge in progress: "
  | kUnableToMerge => lit "Cannot merge: "
  | kIncomplete => lit "Result incomplete: "
  | kShutdownInProgress => lit "Shutdown in progress: "
  | kAborted => lit "Operation aborted: "
  | kBusy => lit "Resource busy: "
  | _ => take 29 (lit ("Unknown code(" +:+ pretty (code_val c) +:+ "): "))
  end.

Definition Status_ToString (s : Status) : bytes :=
  match code_ s with
  | kOk => lit "OK"
  | c =>
      Status_type c ++
      match state_ s with
      | None => []
      | Some st => bread 4 (Z.to_nat (le_val (bread 0 4 st))) st
      end
  end.

(** The text a status built from [msg] and [msg2] is meant to carry. *)
Definition joined (msg msg2 : Slice) : bytes :=
  if decide (size_ msg2 = 0%nat) then contents msg
  else contents msg ++ lit ": " ++ contents msg2.

(** ** Slice comparison is the lexicographic order on contents *)

Lemma contents_length s : slice_wf s -> length (contents s) = size_ s.
Proof. unfold slice_wf, contents. intros. rewrite length_take. lia. Qed.

Lemma contents_take s n : (n <= size_ s)%nat -> take n (contents s) = take n (data_ s).
Proof. intros. unfold contents. rewrite take_take. f_equal. lia. Qed.

(** [memcmp] on the two buffers is [bytes_cmp] on prefixes of the contents. *)
Lemma memcmp_contents s b n :
  (n <= size_ s)%nat -> (n <= size_ b)%nat ->
  memcmp (data_ s) (data_ b) n = sgn_of (bytes_cmp (take n (contents s)) (take n (contents b))).
Proof. intros. unfold memcmp. by rewrite !contents_take. Qed.

Lemma size_order_compare s b :
  size_order s b 0 = sgn_of (Nat.compare (size_ s) (size_ b)).
Proof.
  unfold size_order. repeat case_bool_decide;
  destruct (Nat.compare_spec (size_ s) (size_ b)); simpl; lia.
Qed.

(** The common shape of [compare] and [compare(b, len)]: a [memcmp] of the first
    [n] bytes, then the sizes if all [m] bytes wanted from both were compared. *)
Lemma compare_shape s b m :
  slice_wf s -> slice_wf b ->
  let n := Nat.min (Nat.min (size_ s) (size_ b)) m in
  let r := memcmp (data_ s) (data_ b) n in
  (if (r =? 0) && bool_decide (Nat.min (size_ s) (size_ b) < m)%nat
   then size_order s b r else r) =
  sgn_of (bytes_cmp (take m (contents s)) (take m (contents b))).
Proof.
  intros Hs Hb n r. unfold r, n.
  rewrite memcmp_contents by lia.
  pose proof (contents_length s Hs) as Ls. pose proof (contents_length b Hb) as Lb.
  set (N := Nat.min _ m).
  assert (forall x : bytes, take N x = take N (take m x)) as HN.
  { intros x. rewrite take_take. f_equal. lia. }
  destruct (decide (bytes_cmp (take N (contents s)) (take N (contents b)) = Eq)) as [E|E].
  - rewrite E; simpl.
    assert (bytes_cmp (take m (contents s)) (take m (contents b)) =
            Nat.compare (length (take m (contents s))) (length (take m (contents b)))) as ->.
    { apply bytes_cmp_take_eq. cbv zeta. rewrite !length_take, Ls, Lb.
      rewrite !take_take. rewrite <- E. f_equal; f_equal; lia. }
    rewrite !length_take, Ls, Lb. rewrite size_order_compare.
    case_bool_decide.
    + destruct (Nat.compare_spec (size_ s) (size_ b)), (Nat.compare_spec (m `min` size_ s) (m `min` size_ b)); simpl; lia.
    + rewrite !Nat.min_l by lia. by rewrite Nat.compare_refl.
  - destruct (sgn_of (bytes_cmp (take N (contents s)) (take N (contents b))) =? 0) eqn:Z0; zbool.
    { by apply sgn_of_0 in Z0. }
    simpl. f_equal. symmetry.
    rewrite (bytes_cmp_take_ne N); rewrite <- ?HN, ?length_take, ?Ls, ?Lb; done || lia.
Qed.

Lemma Slice_compare_lexicographic s b :
  slice_wf s -> slice_wf b ->
  Slice_compare s b = sgn_of (bytes_cmp (contents s) (contents b)).
Proof.
  intros Hs Hb. pose proof (compare_shape s b (S (size_ s + size_ b)) Hs Hb) as H.
  cbv zeta in H. rewrite (Nat.min_l (Nat.min _ _)) in H by lia.
  rewrite bool_decide_eq_true_2, andb_true_r in H by lia.
  unfold Slice_compare. rewrite H.
  by rewrite !take_ge by (rewrite contents_length; auto; lia).
Qed.

(** The index loop computes the sign [memcmp] has and the least mismatch. *)
Lemma memcmp_with_index_from_spec b1 b2 n i :
  (i + n <= length b1)%nat -> (i + n <= length b2)%nat ->
  let '(r, j) := memcmp_with_index_from b1 b2 n i in
  r = memcmp (drop i b1) (drop i b2) n /\ (i <= j <= i + n)%nat /\
  (forall k, (i <= k < j)%nat -> b1 !! k = b2 !! k) /\
  (r = 0 -> j = (i + n)%nat) /\ (r <> 0 -> b1 !! j <> b2 !! j).
Proof.
  revert i. induction n as [|n IH]; intros i H1 H2; simpl.
  - split_and!; simpl; try done; intros; lia.
  - destruct (lookup_lt_is_Some_2 b1 i ltac:(lia)) as [x Hx].
    destruct (lookup_lt_is_Some_2 b2 i ltac:(lia)) as [y Hy].
    rewrite Hx, Hy. unfold memcmp in *. simpl.
    rewrite (drop_S _ _ _ Hx), (drop_S _ _ _ Hy). simpl.
    destruct (Z.compare_spec (byte_val x) (byte_val y)) as [E|E|E].
    + rewrite (proj2 (Z.eqb_eq _ _) E). specialize (IH (S i) ltac:(lia) ltac:(lia)).
      destruct (memcmp_with_index_from b1 b2 n (S i)) as [r j].
      destruct IH as (-> & ? & Hp & Hz & Hn). split_and!; try done; try lia.
      intros k Hk. destruct (decide (k = i)) as [->|]; [|apply Hp; lia].
      apply byte_val_inj in E. congruence.
    + rewrite (proj2 (Z.eqb_neq _ _)), (proj2 (Z.ltb_lt _ _)) by lia. simpl.
      split_and!; try done; try lia; intros; try lia. rewrite Hx, Hy. intros [= ->]. lia.
    + rewrite (proj2 (Z.eqb_neq _ _)), (proj2 (Z.ltb_ge _ _)) by lia. simpl.
      split_and!; try done; try lia; intros; try lia. rewrite Hx, Hy. intros [= ->]. lia.
Qed.

(** ** The message buffer of a status *)

(** The buffer is the 4-byte length followed by the joined message. *)
Definition encode_state (msg : bytes) : bytes :=
  le_bytes 4 (Z.of_nat (length msg)) ++ msg.

Lemma joined_length msg msg2 :
  slice_wf msg -> slice_wf msg2 ->
  Z.of_nat (length (joined msg msg2)) =
  Z.of_nat (size_ msg) + (if (size_ msg2 =? 0)%nat then 0 else 2 + Z.of_nat (size_ msg2)).
Proof.
  intros H1 H2. unfold joined.
  destruct (Nat.eqb_spec (size_ msg2) 0) as [E|E].
  - rewrite decide_True by done. rewrite contents_length by done. lia.
  - rewrite decide_False by done. rewrite !length_app, !contents_length by done. simpl. lia.
Qed.

Lemma Status_msg_state c msg msg2 :
  c <> kOk -> slice_wf msg -> slice_wf msg2 ->
  Z.of_nat (size_ msg) + Z.of_nat (size_ msg2) + 6 < 2 ^ 32 ->
  Status_msg c msg msg2 = Some (MkStatus c (Some (encode_state (joined msg msg2)))).
Proof.
  intros Hc H1 H2 Hov. unfold Status_msg. rewrite decide_False by done.
  pose proof (joined_length msg msg2 H1 H2) as HJ.
  pose proof (contents_length msg H1) as L1. pose proof (contents_length msg2 H2) as L2.
  rewrite (u32_id (Z.of_nat (size_ msg))), (u32_id (Z.of_nat (size_ msg2))) by (unfold fits; lia).
  assert (forall n, (Z.of_nat n =? 0) = (n =? 0)%nat) as Hz.
  { intros n. destruct (Nat.eqb_spec n 0); zcase; lia || done. }
  rewrite Hz. f_equal. f_equal. f_equal. unfold encode_state. rewrite HJ.
  fold (contents msg) (contents msg2).
  destruct (Nat.eqb_spec (size_ msg2) 0) as [E|E].
  - unfold joined. rewrite decide_True by done.
    rewrite (u32_id (_ + 0)), u32_id, !Nat2Z.id by (unfold fits; lia).
    set (h := le_bytes 4 _). assert (length h = 4%nat) as L4 by apply length_le_bytes.
    fold (contents msg). change (replicate ?n NUL) with ([] ++ replicate n NUL).
    rewrite (bwrite_fill 0 [] h _ (size_ msg)) by (simpl; lia).
    rewrite (bwrite_fill 4 h (contents msg) _ 0) by lia. by rewrite app_nil_r.
  - unfold joined. rewrite decide_False by done.
    rewrite (u32_id (2 + _)) by (unfold fits; lia).
    rewrite (u32_id (_ + (2 + _))) by (unfold fits; lia).
    rewrite u32_id, !Nat2Z.id by (unfold fits; lia).
    set (h := le_bytes 4 _). assert (length h = 4%nat) as L4 by apply length_le_bytes.
    fold (contents msg) (contents msg2).
    change (replicate ?n NUL) with ([] ++ replicate n NUL).
    rewrite (bwrite_fill 0 [] h _ (size_ msg + (2 + size_ msg2))) by (simpl; lia).
    rewrite (bwrite_fill 4 h (contents msg) _ (2 + size_ msg2)) by lia.
    rewrite (bwrite_fill _ _ (lit ":") _ (1 + size_ msg2)) by (rewrite ?length_app; cbn [length lit list_ascii_of_string]; lia).
    rewrite (bwrite_fill _ _ (lit " ") _ (size_ msg2)) by (rewrite ?length_app; cbn [length lit list_ascii_of_string]; lia).
    rewrite (bwrite_fill _ _ (contents msg2) _ 0) by (rewrite ?length_app; cbn [length lit list_ascii_of_string]; lia).
    simpl. by rewrite app_nil_r, <- !app_assoc.
Qed.

Lemma encode_state_length msg : length (encode_state msg) = (4 + length msg)%nat.
Proof. unfold encode_state. by rewrite length_app, length_le_bytes. Qed.

(** Reading back the length and the message, as [ToString] and [CopyState] do. *)
Lemma encode_state_size msg :
  Z.of_nat (length msg) < 2 ^ 32 ->
  le_val (bread 0 4 (encode_state msg)) = Z.of_nat (length msg).
Proof.
  intros H. unfold encode_state. rewrite bread_app_l by (by rewrite length_le_bytes).
  apply le_val_bytes_fits. unfold fits. lia.
Qed.

Lemma CopyState_encode msg :
  Z.of_nat (length msg) + 4 < 2 ^ 32 ->
  Status_CopyState (encode_state msg) = encode_state msg.
Proof.
  intros H. unfold Status_CopyState.
  rewrite encode_state_size, u32_id by (unfold fits; lia).
  pose proof (encode_state_length msg) as L.
  replace (Z.to_nat _) with (length (encode_state msg)) by lia.
  unfold bread. rewrite drop_0, take_ge by done.
  change (replicate ?n NUL) with ([] ++ replicate n NUL).
  rewrite (bwrite_fill 0 [] _ _ 0) by (simpl; lia). simpl. by rewrite app_nil_r.
Qed.

Lemma ToString_encode c msg :
  c <> kOk -> Z.of_nat (length msg) < 2 ^ 32 ->
  Status_ToString (MkStatus c (Some (encode_state msg))) = Status_type c ++ msg.
Proof.
  intros Hc Hl. unfold Status_ToString. cbn [code_ state_].
  rewrite encode_state_size, Nat2Z.id by done. unfold encode_state.
  rewrite bread_app_r by (rewrite ?length_le_bytes; done). by destruct c.
Qed.

(** C40.  A status built from an error code and two messages, together shorter than 4 GB less
    6 bytes, and then copied any number of times, prints the prefix of its code and the
    messages joined by a colon and a space (or the first alone when the second is
    empty), keeps its code and is not OK. Four error codes that the class defines have
    no prefix of their own in the source and print as an unknown code with its number. *)
Theorem Status_msg_roundtrip c msg msg2 n :
  c <> kOk -> slice_wf msg -> slice_wf msg2 ->
  Z.of_nat (size_ msg) + Z.of_nat (size_ msg2) + 6 < 2 ^ 32 ->
  exists st, Status_msg c msg msg2 = Some st /\
    let st' := Nat.iter n Status_copy st in
    Status_ToString st' = Status_type c ++ joined msg msg2 /\
    code_ st' = c /\ Status_ok st' = false /\ Status_eq st' st = true.
Proof.
  intros Hc H1 H2 Hov. eexists; split; [by apply Status_msg_state|].
  pose proof (joined_length msg msg2 H1 H2) as HJ.
  assert (Z.of_nat (length (joined msg msg2)) + 4 < 2 ^ 32) as Hl.
  { rewrite HJ. destruct (size_ msg2 =? 0)%nat; lia. }
  set (st := MkStatus _ _).
  assert (Nat.iter n Status_copy st = st) as ->.
  { induction n as [|n IH]; [done|]. simpl. rewrite IH. unfold Status_copy. simpl.
    by rewrite CopyState_encode. }
  split_and!; [apply ToString_encode; lia || done|done| |].
  - unfold Status_ok. by rewrite bool_decide_eq_false_2.
  - unfold Status_eq. by rewrite bool_decide_eq_true_2.
Qed.

Example Status_msg_roundtrip_witness :
  exists st, Status_msg kIOError (Slice_of_cstr (lit "cannot map")) (Slice_of_cstr (lit "EACCES")) = Some st /\
    Status_ToString (Nat.iter 3 Status_copy st) = lit "IO error: cannot map: EACCES".
Proof.
  destruct (Status_msg_roundtrip kIOError (Slice_of_cstr (lit "cannot map"))
    (Slice_of_cstr (lit "EACCES")) 3) as (st & H1 & H2 & _).
  - discriminate.
  - vm_compute. lia.
  - vm_compute. lia.
  - vm_compute. reflexivity.
  - exists st. split; [exact H1|]. rewrite H2. vm_compute. reflexivity.
Defined.

(** The three-way comparisons of slices agree with each other and with the lexicographic
    order of the contents, and the reported index is that of the first byte that
    differs. *)
Theorem Slice_compare_correct s b len :
  slice_wf s -> slice_wf b ->
  let n := Nat.min (Nat.min (size_ s) (size_ b)) len in
  let '(r, index) := Slice_compare_with_index_len s b len in
  r = sgn_of (bytes_cmp (take len (contents s)) (take len (contents b))) /\
  r = Slice_compare_len s b len /\
  (Slice_compare_with_index s b).1 = Slice_compare s b /\
  Slice_compare s b = sgn_of (bytes_cmp (contents s) (contents b)) /\
  (index <= n)%nat /\
  (forall k, (k < index)%nat -> contents s !! k = contents b !! k) /\
  ((index < n)%nat -> contents s !! index <> contents b !! index).
Proof.
  intros Hs Hb n. unfold slice_wf in *.
  assert (forall k (x : Slice), (k < size_ x)%nat -> contents x !! k = data_ x !! k) as Hlk.
  { intros k x Hk. unfold contents. by rewrite lookup_take_lt. }
  pose proof (memcmp_with_index_from_spec (data_ s) (data_ b)
    (Nat.min (size_ s) (size_ b)) 0 ltac:(lia) ltac:(lia)) as Hall.
  pose proof (memcmp_with_index_from_spec (data_ s) (data_ b) n 0 ltac:(lia) ltac:(lia)) as Hn.
  unfold Slice_compare_with_index_len, Slice_compare_with_index, Slice_memcmp_with_index.
  fold n. destruct (memcmp_with_index_from _ _ (Nat.min (size_ s) (size_ b)) 0) as [ra ja].
  destruct (memcmp_with_index_from _ _ n 0) as [r j].
  rewrite !drop_0 in *. destruct Hall as (-> & _). destruct Hn as (-> & ? & Hp & Hz & Hne).
  pose proof (compare_shape s b len Hs Hb) as Hshape. cbv zeta in Hshape. fold n in Hshape.
  split_and!.
  - exact Hshape.
  - done.
  - done.
  - by apply Slice_compare_lexicographic.
  - lia.
  - intros k Hk. rewrite !Hlk by lia. apply Hp. lia.
  - intros Hj. rewrite !Hlk by lia. apply Hne. intros E. specialize (Hz E). lia.
Qed.

Example Slice_compare_correct_witness :
  Slice_compare_with_index_len (Slice_of_cstr (lit "abcd")) (Slice_of_cstr (lit "abxd")) 10 = (-1, 2%nat) /\
  Slice_compare (Slice_of_cstr (lit "abcd")) (Slice_of_cstr (lit "abxd")) = -1.
Proof.
  pose proof (Slice_compare_correct (Slice_of_cstr (lit "abcd")) (Slice_of_cstr (lit "abxd")) 10
    ltac:(vm_compute; lia) ltac:(vm_compute; lia)) as H.
  vm_compute in H. vm_compute. tauto.
Defined.
