(* ===== verification/Hash.v ===== *)
(** * Hashing and random numbers (src/util/hash.h, src/util/random_number_generator.h)

    The integer mixers used to spread thread ids over the epoch table, the
    xorshift generator behind the back-off of the linked list, and the FNV hash of
    the scrambled Zipfian generator.  Arithmetic is on 32- and 64-bit words. *)
From Stdlib Require Import ZArith Lia.
From stdpp Require Import base list.
From S2P Require Import Prelude.
#[local] Open Scope Z_scope.
#[local] Open Scope machine_scope.

(** ** Murmur3 finalisers *)

Definition Murmur3_32 (h : Z) : Z :=
  let h := h .^ (h .>> 16) in
  let h := u32 (h * 0x85ebca6b) in
  let h := h .^ (h .>> 13) in
  let h := u32 (h * 0xc2b2ae35) in
  h .^ (h .>> 16).

(** The copy of the 32-bit finaliser in epoch.cc. *)
Definition Murmur3 (h : Z) : Z :=
  let h := h .^ (h .>> 16) in
  let h := u32 (h * 0x85ebca6b) in
  let h := h .^ (h .>> 13) in
  let h := u32 (h * 0xc2b2ae35) in
  h .^ (h .>> 16).

Definition Murmur3_64 (h : Z) : Z :=
  let h := h .^ (h .>> 33) in
  let h := u64 (h * 0xff51afd7ed558ccd) in
  let h := h .^ (h .>> 33) in
  let h := u64 (h * 0xc4ceb9fe1a85ec53) in
  h .^ (h .>> 33).

(** ** RandomNumberGenerator *)

Record RandomNumberGenerator := MkRng { max_ : Z; x_ : Z; y_ : Z; z_ : Z; w_ : Z }.

(** [rd] is what [std::random_device] returned, used when the seed is 0. *)
Definition RandomNumberGenerator_new (rd seed max : Z) : RandomNumberGenerator :=
  MkRng max (if seed =? 0 then rd .& 0x0FFFFFFF else seed) 362436069 521288629 88675123.

Definition Rng_Generate (g : RandomNumberGenerator) : Z * RandomNumberGenerator :=
  let t := x_ g .^ u32 (Z.shiftl (x_ g) 11) in
  let w' := (w_ g .^ (w_ g .>> 19)) .^ (t .^ (t .>> 8)) in
  (if 0 <? max_ g then w' mod max_ g else w',
   MkRng (max_ g) (y_ g) (z_ g) (w_ g) w').

Definition Rng_Generate_max (g : RandomNumberGenerator) (max : Z) : Z * RandomNumberGenerator :=
  let '(r, g') := Rng_Generate g in (r mod max, g').

(** ** ScrambledZipfRandomNumberGenerator::FnvHash64

    The hash is a signed 64-bit word; [std::abs] of the least one is undefined. *)
Fixpoint fnv_rounds (n : nat) (val hashval : Z) : Z :=
  match n with
  | O => hashval
  | S m =>
      let octet := val .& 0x00ff in
      fnv_rounds m (val .>> 8) (signed 64 ((hashval .^ octet) * 1099511628211))
  end.

Definition FnvHash64 (val : Z) : option Z :=
  let h := fnv_rounds 8 val (signed 64 0xCBF29CE484222325) in
  if h =? - 2 ^ 63 then None else Some (Z.abs h).

(** ** Injectivity of the mixing steps *)

(** A right xorshift is injective: the difference would be its own shift. *)
Lemma xorshift_r_0 z k : 0 <= z -> 0 < k -> z .^ (z .>> k) = 0 -> z = 0.
Proof.
  intros Hz Hk H. apply Z.lxor_eq in H. rewrite Z.shiftr_div_pow2 in H by lia.
  destruct (Z.eq_dec z 0) as [|Hn]; [done|].
  assert (z / 2 ^ k < z); [|lia].
  apply Z.div_lt; [lia|]. pose proof (Z.pow_gt_lin_r 2 k). lia.
Qed.

Lemma lxor_nonneg_fits w x y : 0 <= w -> fits w x -> fits w y -> 0 <= x .^ y.
Proof. intros Hw Hx Hy. apply (fits_lxor w x y); auto. Qed.

Lemma xorshift_r_inj w k x y :
  0 <= w -> 0 < k -> fits w x -> fits w y ->
  x .^ (x .>> k) = y .^ (y .>> k) -> x = y.
Proof.
  intros Hw Hk Hx Hy H. apply Z.lxor_eq, (xorshift_r_0 _ k); [by eapply lxor_nonneg_fits|done|].
  rewrite Z.shiftr_lxor. apply (f_equal (Z.lxor (y .^ (y .>> k)))) in H.
  rewrite Z.lxor_nilpotent in H. rewrite <- H.
  bitwise i Hi. rewrite !Z.lxor_spec.
  destruct (Z.testbit x i), (Z.testbit y i), (Z.testbit (x .>> k) i), (Z.testbit (y .>> k) i); done.
Qed.

(** A left xorshift on w bits is injective: iterating [z = z << k] clears z. *)
Lemma xorshift_l_0 z : fits 32 z -> z .^ u32 (Z.shiftl z 11) = 0 -> z = 0.
Proof.
  intros Hf H. apply Z.lxor_eq in H. unfold u32 in H. rewrite Z.shiftl_mul_pow2 in H by lia.
  assert (z = (z * 2 ^ 33) mod 2 ^ 32) as E.
  { rewrite H at 1. rewrite H at 1. rewrite Zmult_mod_idemp_l.
    rewrite H at 1. rewrite <- Z.mul_assoc, Zmult_mod_idemp_l. f_equal. lia. }
  rewrite E. replace (z * 2 ^ 33) with ((z * 2) * 2 ^ 32) by lia. by apply Z_mod_mult.
Qed.

(** Multiplying by an odd constant is injective: [c * c' = 1] modulo 2^w. *)
Lemma mul_inj w c c' x y :
  (c * c') mod 2 ^ w = 1 -> fits w x -> fits w y ->
  (x * c) mod 2 ^ w = (y * c) mod 2 ^ w -> x = y.
Proof.
  intros Hc Hx Hy H.
  assert (forall z, fits w z -> ((z * c) mod 2 ^ w * c') mod 2 ^ w = z) as Hinv.
  { intros z Hz. rewrite Zmult_mod_idemp_l, <- Z.mul_assoc, <- Zmult_mod_idemp_r, Hc, Z.mul_1_r.
    by apply Z.mod_small. }
  rewrite <- (Hinv x Hx), <- (Hinv y Hy). by rewrite H.
Qed.

#[local] Hint Extern 1 (0 <= _) => lia : machine.
#[local] Hint Extern 1 (0 < _) => lia : machine.

Lemma Murmur3_64_inj x y : fits 64 x -> fits 64 y -> Murmur3_64 x = Murmur3_64 y -> x = y.
Proof.
  intros Hx Hy. unfold Murmur3_64. intros H.
  apply (xorshift_r_inj 64 33) in H; [|auto 6 with machine..].
  apply (mul_inj 64 _ 0x9cb4b2f8129337db) in H; [|vm_compute; reflexivity|auto 6 with machine..].
  apply (xorshift_r_inj 64 33) in H; [|auto 6 with machine..].
  apply (mul_inj 64 _ 0x4f74430c22a54005) in H; [|vm_compute; reflexivity|auto 6 with machine..].
  by apply (xorshift_r_inj 64 33) in H; [|auto 6 with machine..].
Qed.

Lemma Murmur3_32_inj x y : fits 32 x -> fits 32 y -> Murmur3_32 x = Murmur3_32 y -> x = y.
Proof.
  intros Hx Hy. unfold Murmur3_32. intros H.
  apply (xorshift_r_inj 32 16) in H; [|auto 6 with machine..].
  apply (mul_inj 32 _ 0x7ed1b41d) in H; [|vm_compute; reflexivity|auto 6 with machine..].
  apply (xorshift_r_inj 32 13) in H; [|auto 6 with machine..].
  apply (mul_inj 32 _ 0xa5cb9243) in H; [|vm_compute; reflexivity|auto 6 with machine..].
  by apply (xorshift_r_inj 32 16) in H; [|auto 6 with machine..].
Qed.

Lemma Murmur3_64_fits h : fits 64 h -> fits 64 (Murmur3_64 h).
Proof. intros. unfold Murmur3_64. auto 10 with machine. Qed.

Lemma Murmur3_32_fits h : fits 32 h -> fits 32 (Murmur3_32 h).
Proof. intros. unfold Murmur3_32. auto 10 with machine. Qed.

(** The 32- and 64-bit Murmur3 finalisers are injective on machine words and stay within
    them, and the copy in epoch.cc is the same function: distinct thread ids start
    probing from distinct hashes. *)
Theorem Murmur3_injective x y :
  (fits 64 x -> fits 64 y -> fits 64 (Murmur3_64 x) /\ (Murmur3_64 x = Murmur3_64 y -> x = y)) /\
  (fits 32 x -> fits 32 y -> fits 32 (Murmur3_32 x) /\ (Murmur3_32 x = Murmur3_32 y -> x = y)) /\
  Murmur3 x = Murmur3_32 x.
Proof.
  split_and!; [| |done]; intros Hx Hy; split;
    auto using Murmur3_64_fits, Murmur3_32_fits, Murmur3_64_inj, Murmur3_32_inj.
Qed.

(** ** The generator's state is 32-bit, never all zero, and its step is injective *)

Definition rng_wf (g : RandomNumberGenerator) : Prop :=
  fits 32 (max_ g) /\ fits 32 (x_ g) /\ fits 32 (y_ g) /\ fits 32 (z_ g) /\ fits 32 (w_ g).

Definition rng_nonzero (g : RandomNumberGenerator) : Prop :=
  ~ (x_ g = 0 /\ y_ g = 0 /\ z_ g = 0 /\ w_ g = 0).

Lemma lxor_cancel_l a b c : a .^ b = a .^ c -> b = c.
Proof.
  intros H. apply (f_equal (Z.lxor a)) in H.
  by rewrite <- !Z.lxor_assoc, Z.lxor_nilpotent, !Z.lxor_0_l in H.
Qed.

Lemma xorshift_l_inj x y :
  fits 32 x -> fits 32 y ->
  x .^ u32 (Z.shiftl x 11) = y .^ u32 (Z.shiftl y 11) -> x = y.
Proof.
  intros Hx Hy H. apply Z.lxor_eq, xorshift_l_0; [by apply fits_lxor|].
  assert (u32 (Z.shiftl (x .^ y) 11) = u32 (Z.shiftl x 11) .^ u32 (Z.shiftl y 11)) as ->.
  { unfold u32. rewrite Z.shiftl_lxor. bitwise i Hi. rewrite Z.lxor_spec.
    destruct (Z.lt_ge_cases i 32).
    - by rewrite !Z.mod_pow2_bits_low, Z.lxor_spec.
    - by rewrite !Z.mod_pow2_bits_high. }
  apply (f_equal (Z.lxor (y .^ u32 (Z.shiftl y 11)))) in H.
  rewrite Z.lxor_nilpotent in H. rewrite <- H. bitwise i Hi. rewrite !Z.lxor_spec.
  destruct (Z.testbit x i), (Z.testbit y i), (Z.testbit (u32 (Z.shiftl x 11)) i),
    (Z.testbit (u32 (Z.shiftl y 11)) i); done.
Qed.

Lemma Rng_step_wf g : rng_wf g -> rng_wf (Rng_Generate g).2.
Proof.
  intros (Hm & Hx & Hy & Hz & Hw). unfold rng_wf; simpl. split_and!; try done.
  auto 12 with machine.
Qed.

(** The new word determines the discarded one. *)
Lemma Rng_step_inj g h :
  rng_wf g -> rng_wf h -> max_ g = max_ h -> (Rng_Generate g).2 = (Rng_Generate h).2 -> g = h.
Proof.
  intros (_ & Hx & _ & _ & Hw) (_ & Hx' & _ & _ & Hw') Hm.
  destruct g as [m x y z w], h as [m' x' y' z' w']; simpl in *.
  intros [= _ -> -> -> H]. subst m'.
  set (t := x .^ _) in H. set (t' := x' .^ u32 (Z.shiftl x' 11)) in H.
  assert (t .^ (t .>> 8) = t' .^ (t' .>> 8)) as Ht.
  { by apply lxor_cancel_l in H. }
  apply (xorshift_r_inj 32 8) in Ht; [|unfold t, t'; auto 8 with machine..].
  apply xorshift_l_inj in Ht; [|done..]. by subst x'.
Qed.

Lemma Rng_step_nonzero g : rng_wf g -> rng_nonzero g -> rng_nonzero (Rng_Generate g).2.
Proof.
  intros Hg Hn Hz. apply Hn. destruct Hz as (Hy & Hz & Hw & Hw').
  assert (g = MkRng (max_ g) 0 0 0 0) as ->; [|done].
  apply Rng_step_inj; [done| |done|].
  - destruct Hg as (Hm & _). unfold rng_wf, fits; simpl. split_and!; try apply Hm; lia.
  - destruct g as [m x y z w]; simpl in *. subst y z w. by rewrite Hw'.
Qed.

(** From any seed and after any number of draws the generator's state is four 32-bit
    words that are not all zero, its step can be undone, and a bounded draw is below its
    bound. *)
Theorem Rng_correct rd seed max n k :
  fits 32 rd -> fits 32 seed -> fits 32 max -> 0 < k ->
  let g := Nat.iter n (fun g => (Rng_Generate g).2) (RandomNumberGenerator_new rd seed max) in
  rng_wf g /\ rng_nonzero g /\
  (forall h, rng_wf h -> max_ h = max_ g -> (Rng_Generate h).2 = (Rng_Generate g).2 -> h = g) /\
  0 <= (Rng_Generate_max g k).1 < k /\ (0 < max -> 0 <= (Rng_Generate g).1 < max).
Proof.
  intros Hrd Hs Hm Hk g.
  assert (rng_wf g /\ rng_nonzero g /\ max_ g = max) as (Hwf & Hnz & Hmax).
  { unfold g. clear g. induction n as [|n (IHw & IHn & IHm)].
    - split_and!; [|by intros (_ & ? & _)|done].
      unfold rng_wf, RandomNumberGenerator_new; simpl.
      split_and!; try done; try (unfold fits; lia).
      destruct (seed =? 0); [|done]. apply testbit_fits; [lia|apply Z.land_nonneg; lia|].
      intros i Hi. rewrite Z.land_spec, (fits_testbit 32 rd) by (done || lia). done.
    - simpl. split_and!; [by apply Rng_step_wf|by apply Rng_step_nonzero|done]. }
  split_and!; try done.
  - intros h Hh Hmx E. by apply Rng_step_inj.
  - unfold Rng_Generate_max. destruct (Rng_Generate g). simpl. by apply Z.mod_pos_bound.
  - unfold Rng_Generate_max. destruct (Rng_Generate g). simpl. by apply Z.mod_pos_bound.
  - intros Hp. unfold Rng_Generate; cbn [fst]. rewrite Hmax, (proj2 (Z.ltb_lt _ _)) by done.
    by apply Z.mod_pos_bound.
Qed.

Example Rng_correct_witness :
  let g := Nat.iter 3 (fun g => (Rng_Generate g).2) (RandomNumberGenerator_new 0 7 500) in
  rng_nonzero g /\ 0 <= (Rng_Generate_max g 500).1 < 500.
Proof.
  pose proof (Rng_correct 0 7 500 3 500 ltac:(unfold fits; lia) ltac:(unfold fits; lia)
    ltac:(unfold fits; lia) ltac:(lia)) as H.
  cbv zeta in *. destruct H as (_ & Hn & _ & Hb & _). split; assumption.
Defined.
