(* ===== verification/Library.v ===== *)
(** * Library set-up and thread-local state
    (src/common/allocator_internal.{h,cc}, environment_internal.{h,cc}, pmwcas_internal.cc)

    [Allocator] and [Environment] are process-wide singletons set by [InitLibrary].
    [Thread] keeps a registry of the thread-local variables the library
    initialises, so that they can be reset when the resource they point to goes
    away.  A TLS variable is named by its thread and by the function-local
    declaration it comes from; a registry access holds [registryMutex_], so each
    operation is one transition. *)
From Stdlib Require Import ZArith Lia.
From stdpp Require Import base list gmap strings.
From S2P Require Import Prelude Bytes Status.
#[local] Open Scope Z_scope.

(** ** The singletons *)

(** What a caller-supplied create function returns: a status and the object. *)
Abbreviation creator := (Status * Z)%type (only parsing).

Record Singletons := MkSingletons { allocator_ : option Z; environment_ : option Z }.

Definition corruption (msg : string) : Status :=
  default (Status_code kCorruption) (Status_msg kCorruption (Slice_of_cstr (lit msg)) Slice_default).

Definition Allocator_Initialize (create : creator) (w : Singletons) : Status * Singletons :=
  match allocator_ w with
  | Some _ => (corruption "Allocator has already been initialized.", w)
  | None =>
      let '(s, allocator) := create in
      if Status_ok s then (Status_OK, MkSingletons (Some allocator) (environment_ w)) else (s, w)
  end.

Definition Environment_Initialize (create : creator) (w : Singletons) : Status * Singletons :=
  match environment_ w with
  | Some _ => (corruption "Environment has already been initialized.", w)
  | None =>
      let '(s, environment) := create in
      if Status_ok s then (Status_OK, MkSingletons (allocator_ w) (Some environment)) else (s, w)
  end.

Definition Allocator_Get (w : Singletons) : option Z := allocator_ w.
Definition Environment_Get (w : Singletons) : option Z := environment_ w.
Definition Allocator_Uninitialize (w : Singletons) : Singletons := MkSingletons None (environment_ w).
Definition Environment_Uninitialize (w : Singletons) : Singletons := MkSingletons (allocator_ w) None.

Definition InitLibrary_allocator (create_allocator : creator) (w : Singletons) : Status * Singletons :=
  Allocator_Initialize create_allocator w.

Definition InitLibrary (create_allocator create_environment : creator) (w : Singletons)
    : Status * Singletons :=
  let '(s, w1) := Allocator_Initialize create_allocator w in
  if Status_ok s then Environment_Initialize create_environment w1 else (s, w1).

Definition UninitLibrary (w : Singletons) : Singletons :=
  Allocator_Uninitialize (Environment_Uninitialize w).

(** ** Thread: the registry of thread-local variables *)

(** The thread-local pointers of the library: [tls] of
    [MinEpochTable::GetEntryForThread] and [tls_part] of
    [DescriptorPool::AllocateDescriptor]. *)
Inductive tls_name := tls_entry | tls_part.

#[global] Instance tls_name_eq_dec : EqDecision tls_name.
Proof. solve_decision. Defined.

#[global] Instance tls_name_countable : Countable tls_name.
Proof.
  refine (inj_countable' (fun n => match n with tls_entry => true | tls_part => false end)
    (fun b => if b : bool then tls_entry else tls_part) _). by intros [].
Defined.

(** A TLS pointer: null, entry [i] of the table of epoch manager [m], or a partition. *)
Inductive tls_value := tls_null | tls_ptr_entry (m : Z) (i : nat) | tls_ptr_part (p : Z).

#[global] Instance tls_value_eq_dec : EqDecision tls_value.
Proof. solve_decision. Defined.

Abbreviation tls_var := (Z * tls_name)%type (only parsing).
Abbreviation TlsList := (list (tls_var * tls_value)) (only parsing).

Record Threads := MkThreads {
  tls : gmap tls_var tls_value;   (* a variable never written holds null *)
  registry_ : gmap Z TlsList
}.

Definition tls_get (w : Threads) (v : tls_var) : tls_value := default tls_null (tls w !! v).
Definition tls_set (v : tls_var) (x : tls_value) (w : Threads) : Threads :=
  MkThreads (<[v := x]> (tls w)) (registry_ w).

(** [*entry.first = entry.second] for every entry of a list. *)
Definition reset_list (l : TlsList) (t : gmap tls_var tls_value) : gmap tls_var tls_value :=
  foldl (fun t e => <[e.1 := e.2]> t) t l.

Definition Thread_RegisterTls (id : Z) (ptr : tls_var) (val : tls_value) (w : Threads) : Threads :=
  MkThreads (tls w) (<[id := default [] (registry_ w !! id) ++ [(ptr, val)]]> (registry_ w)).

Definition Thread_ClearTls (id : Z) (destroy : bool) (w : Threads) : Threads :=
  match registry_ w !! id with
  | None => w
  | Some l =>
      MkThreads (reset_list l (tls w))
        (if destroy then delete id (registry_ w) else <[id := []]> (registry_ w))
  end.

Definition Thread_ClearRegistry (destroy : bool) (w : Threads) : Threads :=
  MkThreads
    (foldl (fun t r => reset_list r.2 t) (tls w) (map_to_list (registry_ w)))
    (if destroy then ∅ else (fun _ => []) <$> registry_ w).

Definition Thread_join (id : Z) (w : Threads) : Threads := Thread_ClearTls id false w.
Definition Thread_destroy (id : Z) (w : Threads) : Threads := Thread_ClearTls id true w.

(** ** The registry covers every variable that is not null

    [RegisterTls] is called with the default null right after a variable is set, so
    the registry holds an entry for every variable a dangling pointer could hide
    in, always with the default null. *)
Definition registered (w : Threads) (v : tls_var) : Prop :=
  exists id l, registry_ w !! id = Some l /\ (v, tls_null) ∈ l.

Definition registry_wf (w : Threads) : Prop :=
  (forall id l v x, registry_ w !! id = Some l -> (v, x) ∈ l -> x = tls_null /\ v.1 = id) /\
  (forall v, tls_get w v <> tls_null -> registered w v).

Lemma reset_list_lookup l t v :
  (forall x, (v, x) ∈ l -> x = tls_null) ->
  default tls_null (reset_list l t !! v) =
    if decide (v ∈ l.*1) then tls_null else default tls_null (t !! v).
Proof.
  revert t. induction l as [|[u x] l IH]; intros t H; simpl; [done|].
  rewrite IH by (intros y Hy; apply H; by right). clear IH.
  destruct (decide (v ∈ l.*1)) as [|Hn]; [by rewrite decide_True by set_solver|].
  destruct (decide (u = v)) as [->|Hne].
  - rewrite decide_True by set_solver. rewrite lookup_insert_eq. simpl. apply H. by left.
  - rewrite decide_False by set_solver. by rewrite lookup_insert_ne.
Qed.

Lemma reset_lists_null (ls : list (Z * TlsList)) t v :
  (forall r x, r ∈ ls -> (v, x) ∈ r.2 -> x = tls_null) ->
  default tls_null (t !! v) = tls_null \/ (exists r, r ∈ ls /\ v ∈ r.2.*1) ->
  default tls_null (foldl (fun t r => reset_list r.2 t) t ls !! v) = tls_null.
Proof.
  revert t. induction ls as [|r ls IH]; intros t H Hv; simpl.
  - destruct Hv as [Hv|(r & Hr & _)]; [done|]. by apply elem_of_nil in Hr.
  - apply IH; [intros; eapply H; [by right|done]|].
    rewrite reset_list_lookup by (intros; eapply H; [by left|done]).
    case_decide; [by left|].
    destruct Hv as [Hv|(r' & [->|Hr']%elem_of_cons & Hv)]; [by left|done|right; eauto].
Qed.

Lemma registered_in_list w v :
  registered w v <-> exists r, r ∈ map_to_list (registry_ w) /\ (v, tls_null) ∈ r.2.
Proof.
  unfold registered. split.
  - intros (id & l & Hl & Hv). exists (id, l). by rewrite elem_of_map_to_list.
  - intros ([id l] & Hl & Hv). exists id, l. by rewrite elem_of_map_to_list in Hl.
Qed.

Lemma ClearRegistry_null w v destroy :
  registry_wf w -> tls_get (Thread_ClearRegistry destroy w) v = tls_null.
Proof.
  intros [H1 H2]. unfold tls_get, Thread_ClearRegistry; simpl.
  apply reset_lists_null.
  - intros [id l] x Hr Hx. apply elem_of_map_to_list in Hr. by eapply H1.
  - destruct (decide (tls_get w v = tls_null)) as [E|E]; [by left|right].
    apply H2, registered_in_list in E as (r & Hr & Hv). exists r. split; [done|].
    apply list_elem_of_fmap. by exists (v, tls_null).
Qed.

Lemma ClearTls_get w id destroy v :
  registry_wf w ->
  tls_get (Thread_ClearTls id destroy w) v =
    if decide (v.1 = id) then tls_null else tls_get w v.
Proof.
  intros [H1 H2]. unfold Thread_ClearTls. destruct (registry_ w !! id) as [l|] eqn:Hl.
  - unfold tls_get at 1; simpl. rewrite reset_list_lookup by (intros; by eapply H1).
    fold (tls_get w v). destruct (decide (v ∈ l.*1)) as [Hin|Hn].
    + apply list_elem_of_fmap in Hin as ([u x] & -> & Hin).
      destruct (H1 _ _ _ _ Hl Hin) as [_ E]. by rewrite decide_True.
    + case_decide as Hid; [|done]. destruct (decide (tls_get w v = tls_null)) as [|E]; [done|].
      apply H2 in E as (id' & l' & Hl' & Hv).
      destruct (H1 _ _ _ _ Hl' Hv) as [_ E']. subst id'. rewrite Hid, Hl in Hl'.
      simplify_eq. destruct Hn. apply list_elem_of_fmap. by exists (v, tls_null).
  - case_decide as Hid; [|done]. destruct (decide (tls_get w v = tls_null)) as [|E]; [done|].
    apply H2 in E as (id' & l' & Hl' & Hv). destruct (H1 _ _ _ _ Hl' Hv) as [_ E']. congruence.
Qed.

Lemma registry_wf_insert w id l :
  (forall v x, (v, x) ∈ l -> x = tls_null /\ v.1 = id) ->
  (forall v x, (v, x) ∈ default [] (registry_ w !! id) -> (v, x) ∈ l) ->
  forall t, (forall v, default tls_null (t !! v) <> tls_null ->
               tls_get w v <> tls_null \/ (v, tls_null) ∈ l) ->
  registry_wf w -> registry_wf (MkThreads t (<[id := l]> (registry_ w))).
Proof.
  intros Hl Hsub t Ht [H1 H2]. split; simpl.
  - intros id' l' v x. destruct (decide (id = id')) as [<-|].
    + rewrite lookup_insert_eq. intros [= <-]. apply Hl.
    + rewrite lookup_insert_ne by done. apply H1.
  - intros v Hv. unfold registered; simpl. destruct (Ht v Hv) as [Hg|Hin].
    + destruct (H2 v Hg) as (id' & l' & Hl' & Hv'). exists id'.
      destruct (decide (id = id')) as [<-|].
      * exists l. rewrite lookup_insert_eq. split; [done|]. apply Hsub. by rewrite Hl'.
      * exists l'. by rewrite lookup_insert_ne.
    + exists id, l. by rewrite lookup_insert_eq.
Qed.


(** A caller's destructor leaves a thread's registry empty; clearing keeps the invariant. *)
Lemma clear_wf w t reg :
  (forall id l, reg !! id = Some l -> exists l', registry_ w !! id = Some l' /\ (l = l' \/ l = [])) ->
  (forall v, default tls_null (t !! v) <> tls_null ->
     exists id l, reg !! id = Some l /\ (v, tls_null) ∈ l) ->
  registry_wf w -> registry_wf (MkThreads t reg).
Proof.
  intros Hr Ht [H1 H2]. split; simpl.
  - intros id l v x Hl Hx. destruct (Hr id l Hl) as (l' & Hl' & [->| ->]); [by eapply H1|].
    by apply elem_of_nil in Hx.
  - intros v Hv. destruct (Ht v Hv) as (id & l & ? & ?). by exists id, l.
Qed.

(** Setting and registering a TLS variable keeps every non-null variable registered;
    clearing the registry nulls the TLS variables of all threads, and joining or
    destroying a thread nulls that thread's variables and no others. *)
Theorem Thread_registry_correct w id (n : tls_name) x destroy :
  registry_wf w ->
  registry_wf (Thread_RegisterTls id (id, n) tls_null (tls_set (id, n) x w)) /\
  (forall v, tls_get (Thread_ClearRegistry destroy w) v = tls_null) /\
  (forall v, tls_get (Thread_ClearTls id destroy w) v =
     if decide (v.1 = id) then tls_null else tls_get w v) /\
  registry_wf (Thread_ClearRegistry destroy w) /\
  registry_wf (Thread_ClearTls id destroy w).
Proof.
  intros Hw. pose proof Hw as [H1 H2]. refine (conj _ (conj _ (conj _ (conj _ _)))).
  - apply (registry_wf_insert w); [| |intros v Hv|done].
    + intros v y [Hv|Hv]%elem_of_app; [|apply list_elem_of_singleton in Hv; by inversion Hv].
      change (registry_ (tls_set (id, n) x w)) with (registry_ w) in Hv.
      destruct (registry_ w !! id) as [l|] eqn:E; simpl in Hv; [exact (H1 _ _ _ _ E Hv)|].
      by apply elem_of_nil in Hv.
    + intros v y Hv. apply elem_of_app. by left.
    + simpl in Hv. destruct (decide (v = (id, n))) as [->|Hne].
      * right. apply elem_of_app. right. by apply list_elem_of_singleton.
      * left. by rewrite lookup_insert_ne in Hv.
  - intros v. by apply ClearRegistry_null.
  - intros v. by apply ClearTls_get.
  - apply (clear_wf w); [|intros v Hv; by pose proof (ClearRegistry_null w v destroy Hw)|done].
    intros i l. destruct destroy; simpl; [by rewrite lookup_empty|].
    rewrite lookup_fmap. destruct (registry_ w !! i); simpl; intros [= <-]. eauto.
  - pose proof (ClearTls_get w id destroy) as Hg. unfold Thread_ClearTls in *.
    destruct (registry_ w !! id) as [l0|] eqn:E; [|done].
    apply (clear_wf w); [| |done].
    + intros i l. destruct (decide (i = id)) as [->|]; destruct destroy;
        rewrite ?lookup_delete_eq, ?lookup_delete_ne, ?lookup_insert_eq, ?lookup_insert_ne
          by done; intros [=]; subst; eauto.
    + intros v Hv. pose proof (Hg v Hw) as Hgv. unfold tls_get in Hgv at 1; simpl in Hgv.
      case_decide as Hid; [by rewrite Hgv in Hv|]. rewrite Hgv in Hv.
      destruct (H2 v Hv) as (i & l & Hl & Hin). exists i, l. split; [|done].
      assert (i <> id) by (intros ->; by destruct (H1 _ _ _ _ Hl Hin)).
      destruct destroy; by rewrite ?lookup_delete_ne, ?lookup_insert_ne.
Qed.

Example Thread_registry_correct_witness :
  let w := Thread_RegisterTls 7 (7, tls_part) tls_null
             (tls_set (7, tls_part) (tls_ptr_part 3) (MkThreads ∅ ∅)) in
  tls_get (Thread_ClearTls 7 false w) (7, tls_part) = tls_null /\
  tls_get w (7, tls_part) = tls_ptr_part 3.
Proof.
  intros w. split; [|reflexivity].
  assert (registry_wf (MkThreads ∅ ∅)) as H0.
  { split; [intros id l v x; simpl; by rewrite lookup_empty|].
    intros v Hv. by destruct Hv. }
  assert (registry_wf w) as Hw
    by exact (proj1 (Thread_registry_correct _ 7 tls_part (tls_ptr_part 3) false H0)).
  rewrite (proj1 (proj2 (proj2 (Thread_registry_correct w 7 tls_part tls_null false Hw)))).
  reflexivity.
Defined.

(** C39.  InitLibrary succeeds exactly when neither singleton exists and both create functions
    succeed; from nothing, with an allocator, it installs it and keeps it even when the
    environment cannot be created; with an allocator installed it is refused with a
    Corruption status and changes nothing; UninitLibrary clears both. *)
Theorem InitLibrary_correct sa a se e w :
  (forall s' w', InitLibrary (sa, a) (se, e) w = (s', w') ->
     Status_ok s' = true <->
       allocator_ w = None /\ environment_ w = None /\ Status_ok sa = true /\ Status_ok se = true) /\
  (allocator_ w = None -> environment_ w = None -> Status_ok sa = true ->
     (InitLibrary (sa, a) (se, e) w).2 =
       MkSingletons (Some a) (if Status_ok se then Some e else None)) /\
  (is_Some (allocator_ w) -> InitLibrary (sa, a) (se, e) w =
     (corruption "Allocator has already been initialized.", w)) /\
  UninitLibrary (InitLibrary (sa, a) (se, e) w).2 = MkSingletons None None.
Proof.
  unfold InitLibrary, Allocator_Initialize, Environment_Initialize. destruct w as [[al|] en]; simpl.
  - split; [intros s' w' [= <- <-]; split; [done|by intros [? _]]|].
    split; [done|]. by split.
  - destruct (Status_ok sa) eqn:Ea; rewrite ?Ea; simpl;
      [destruct en as [en|]; [|destruct (Status_ok se) eqn:Ee; rewrite ?Ee]|]; simpl;
      (split; [intros s' w' [= <- <-]; split; intros H; destruct_and?; congruence || done|]);
      (split; [by try intros ?|split; [by intros [y Hy]|done]]).
Qed.

Example InitLibrary_correct_witness :
  let failing := Status_code kIOError in
  (InitLibrary (Status_OK, 7) (failing, 9) (MkSingletons None None)).2 = MkSingletons (Some 7) None /\
  InitLibrary (Status_OK, 7) (Status_OK, 9) (MkSingletons (Some 7) None) =
    (corruption "Allocator has already been initialized.", MkSingletons (Some 7) None).
Proof.
  intros failing. split.
  - by apply (proj1 (proj2 (InitLibrary_correct Status_OK 7 failing 9 (MkSingletons None None)))).
  - apply (proj1 (proj2 (proj2 (InitLibrary_correct Status_OK 7 Status_OK 9 (MkSingletons (Some 7) None))))).
    by exists 7.
Defined.
