(* ===== verification/Epoch.v ===== *)
(** * Epoch-based protection (src/common/epoch.{h,cc})

    An [EpochManager] keeps a counter of epochs and a table with one entry per
    thread.  A thread entering a protected region copies the counter into its
    entry; the minimum over the entries bounds the epochs whose garbage may be
    reclaimed.  Every function is a [prog] whose atomic accesses are the loads,
    stores and read-modify-writes of the source, so threads interleave between
    them; memory is sequentially consistent.

    The pointer a thread keeps to its entry is the variable [tls], local to the
    function [GetEntryForThread]: one per thread, shared by every manager. *)
From Stdlib Require Import ZArith Lia.
From stdpp Require Import base list gmap strings relations.
From S2P Require Import Prelude Bytes Prog Status Hash Library.
#[local] Open Scope Z_scope.
#[local] Open Scope machine_scope.
#[local] Open Scope prog_scope.

(** ** State *)

Record Entry := MkEntry {
  protected_epoch : Z;
  last_unprotected_epoch : Z;
  thread_id : Z
}.

Definition Entry_new : Entry := MkEntry 0 0 0.

Definition set_protected_epoch (x : Z) (e : Entry) : Entry :=
  MkEntry x (last_unprotected_epoch e) (thread_id e).
Definition set_last_unprotected_epoch (x : Z) (e : Entry) : Entry :=
  MkEntry (protected_epoch e) x (thread_id e).
Definition set_thread_id (x : Z) (e : Entry) : Entry :=
  MkEntry (protected_epoch e) (last_unprotected_epoch e) x.

(** [table_] is [None] for the null pointer. *)
Record MinEpochTable := MkTable { table_ : option (list Entry); table_size_ : Z }.

Definition MinEpochTable_new : MinEpochTable := MkTable None 0.

Record EpochManager := MkEpochManager {
  current_epoch_ : Z;
  safe_to_reclaim_epoch_ : Z;
  epoch_table_ : option MinEpochTable
}.

Definition EpochManager_new : EpochManager := MkEpochManager 1 0 None.

(** The managers by address, and the threads' TLS. *)
Record EpochWorld := MkEpochWorld { managers : gmap Z EpochManager; threads : Threads }.

Definition mgr (w : EpochWorld) (m : Z) : EpochManager := default EpochManager_new (managers w !! m).
Definition set_mgr (m : Z) (x : EpochManager) (w : EpochWorld) : EpochWorld :=
  MkEpochWorld (<[m := x]> (managers w)) (threads w).
Definition set_threads (t : Threads) (w : EpochWorld) : EpochWorld := MkEpochWorld (managers w) t.

Definition set_current (x : Z) (e : EpochManager) : EpochManager :=
  MkEpochManager x (safe_to_reclaim_epoch_ e) (epoch_table_ e).
Definition set_safe (x : Z) (e : EpochManager) : EpochManager :=
  MkEpochManager (current_epoch_ e) x (epoch_table_ e).
Definition set_table (x : option MinEpochTable) (e : EpochManager) : EpochManager :=
  MkEpochManager (current_epoch_ e) (safe_to_reclaim_epoch_ e) x.

(** The entries of manager [m]; empty when its table is not there. *)
Definition entries (w : EpochWorld) (m : Z) : list Entry :=
  match epoch_table_ (mgr w m) with Some t => default [] (table_ t) | None => [] end.

Definition set_entries (l : list Entry) (e : EpochManager) : EpochManager :=
  match epoch_table_ e with
  | Some t => set_table (Some (MkTable (Some l) (table_size_ t))) e
  | None => e
  end.

(** ** Atomic accesses

    An access through a dangling pointer is a fault. *)

Definition entry_rmw {X} (m : Z) (i : nat) (f : Entry -> X * Entry) : prog EpochWorld X :=
  let! r := act (fun w =>
    match entries w m !! i with
    | Some e => let (x, e') := f e in
                (Some x, set_mgr m (set_entries (<[i := e']> (entries w m)) (mgr w m)) w)
    | None => (None, w)
    end) in
  match r with Some x => Ret x | None => Fault "access to a missing epoch table entry" end.

Definition entry_load {X} (m : Z) (i : nat) (f : Entry -> X) : prog EpochWorld X :=
  let! r := rd (fun w => option_map f (entries w m !! i)) in
  match r with Some x => Ret x | None => Fault "access to a missing epoch table entry" end.

Definition entry_store (m : Z) (i : nat) (f : Entry -> Entry) : prog EpochWorld unit :=
  entry_rmw m i (fun e => (tt, f e)).

(** [thread_id.compare_exchange_strong(expected, desired)]. *)
Definition entry_cas_thread_id (m : Z) (i : nat) (expected desired : Z) : prog EpochWorld bool :=
  entry_rmw m i (fun e => if thread_id e =? expected then (true, set_thread_id desired e) else (false, e)).

(** [epoch_table_->f()]. *)
Definition deref_table (m : Z) : prog EpochWorld MinEpochTable :=
  let! t := rd (fun w => epoch_table_ (mgr w m)) in
  match t with Some t => Ret t | None => Fault "null epoch_table_" end.

(** ** MinEpochTable *)

Definition kDefaultSize : Z := 128.

(** IS_POWER_OF_TWO. *)
Definition IS_POWER_OF_TWO (x : Z) : bool := negb (x =? 0) && (x .& (u64 (x - 1)) =? 0).

Definition MinEpochTable_Initialize (size : Z) (t : MinEpochTable) : Status * MinEpochTable :=
  match table_ t with
  | Some _ => (Status_OK, t)
  | None =>
      if negb (IS_POWER_OF_TWO size)
      then (default (Status_code kInvalidArgument)
              (Status_msg kInvalidArgument (Slice_of_cstr (lit "size not a power of two")) Slice_default), t)
      else (Status_OK, MkTable (Some (replicate (Z.to_nat size) Entry_new)) size)
  end.

Definition MinEpochTable_Uninitialize (t : MinEpochTable) : Status * MinEpochTable :=
  match table_ t with
  | None => (Status_OK, t)
  | Some _ => (Status_OK, MkTable None 0)
  end.

Section thread.
(** The calling thread, [Environment::Get()->GetThreadId()], and the bound on the
    rounds of [for(;;)] in [ReserveEntry]. *)
Context (me : Z) (fuel : nat).

Definition ReclaimOldEntries (m : Z) : prog EpochWorld unit := Ret tt.
Definition ReleaseEntryForThread (m : Z) : prog EpochWorld unit := Ret tt.

(** One probe of the table: [Some] index once an entry has been locked. *)
Definition ReserveEntry_probe (m start_index thread_id' size : Z) (i : nat) (got : option nat)
    : prog EpochWorld (option nat) :=
  match got with
  | Some _ => Ret got
  | None =>
      let indexToTest := Z.to_nat ((u64 (start_index + Z.of_nat i)) .& (u64 (size - 1))) in
      let! owner := entry_load m indexToTest thread_id in
      if owner =? 0
      then let! success := entry_cas_thread_id m indexToTest 0 thread_id' in
           if success then Ret (Some indexToTest) else Ret None
      else Ret None
  end.

Definition ReserveEntry (m start_index thread_id' : Z) : prog EpochWorld nat :=
  let! t := deref_table m in
  loop fuel (fun _ : unit =>
    let! got := for_list (seq 0 (Z.to_nat (table_size_ t)))
                  (ReserveEntry_probe m start_index thread_id' (table_size_ t)) None in
    match got with
    | Some i => Ret (inr i)
    | None => ReclaimOldEntries m ;;; Ret (inl tt)
    end) tt.

Definition ReserveEntryForThread (m : Z) : prog EpochWorld nat :=
  ReserveEntry m (Murmur3_64 me) me.

(** The returned pointer: the manager and the index of the entry. *)
Definition GetEntryForThread (m : Z) : prog EpochWorld (Z * nat) :=
  let! tls := rd (fun w => tls_get (threads w) (me, tls_entry)) in
  match tls with
  | tls_ptr_entry m' i => Ret (m', i)
  | tls_ptr_part _ => Fault "tls holds an Entry pointer"
  | tls_null =>
      let! reserved := ReserveEntryForThread m in
      upd (fun w => set_threads (tls_set (me, tls_entry) (tls_ptr_entry m reserved) (threads w)) w) ;;;
      upd (fun w => set_threads (Thread_RegisterTls me (me, tls_entry) tls_null (threads w)) w) ;;;
      Ret (m, reserved)
  end.

Definition MinEpochTable_Protect (m current_epoch : Z) : prog EpochWorld Status :=
  let! (m', i) := GetEntryForThread m in
  entry_store m' i (set_last_unprotected_epoch 0) ;;;
  entry_store m' i (set_protected_epoch current_epoch) ;;;
  Ret Status_OK.

Definition MinEpochTable_Unprotect (m currentEpoch : Z) : prog EpochWorld Status :=
  let! (m', i) := GetEntryForThread m in
  let! owner := entry_load m' i thread_id in
  check (owner =? me) "DCHECK(entry->thread_id.load() == Environment::Get()->GetThreadId())" ;;;
  entry_store m' i (set_last_unprotected_epoch currentEpoch) ;;;
  entry_store m' i (set_protected_epoch 0) ;;;
  Ret Status_OK.

Definition MinEpochTable_IsProtected (m : Z) : prog EpochWorld bool :=
  let! (m', i) := GetEntryForThread m in
  let! p := entry_load m' i protected_epoch in
  Ret (negb (p =? 0)).

(** The minimum of the snapshot and the protected epochs, less one. *)
Definition MinEpochTable_ComputeNewSafeToReclaimEpoch (m current_epoch : Z) : prog EpochWorld Z :=
  let! t := deref_table m in
  let! oldest_call := for_list (seq 0 (Z.to_nat (table_size_ t))) (fun i oldest_call =>
    let! entryEpoch := entry_load m i protected_epoch in
    Ret (if negb (entryEpoch =? 0) && (entryEpoch <? oldest_call) then entryEpoch else oldest_call))
    current_epoch in
  Ret (u64 (oldest_call - 1)).

(** ** EpochManager *)

Definition EpochManager_Initialize (m : Z) : prog EpochWorld Status :=
  act (fun w =>
    match epoch_table_ (mgr w m) with
    | Some _ => (Status_OK, w)
    | None =>
        let '(s, t) := MinEpochTable_Initialize kDefaultSize MinEpochTable_new in
        if Status_ok s then (Status_OK, set_mgr m (MkEpochManager 1 0 (Some t)) w) else (s, w)
    end).

Definition EpochManager_Uninitialize (m : Z) : prog EpochWorld Status :=
  act (fun w =>
    match epoch_table_ (mgr w m) with
    | None => (Status_OK, w)
    | Some t => ((MinEpochTable_Uninitialize t).1, set_mgr m (MkEpochManager 1 0 None) w)
    end).

Definition Protect (m : Z) : prog EpochWorld Status :=
  let! e := rd (fun w => current_epoch_ (mgr w m)) in
  deref_table m ;;;
  MinEpochTable_Protect m e.

Definition Unprotect (m : Z) : prog EpochWorld Status :=
  let! e := rd (fun w => current_epoch_ (mgr w m)) in
  deref_table m ;;;
  MinEpochTable_Unprotect m e.

Definition GetCurrentEpoch (m : Z) : prog EpochWorld Z :=
  rd (fun w => current_epoch_ (mgr w m)).

Definition IsSafeToReclaim (m epoch : Z) : prog EpochWorld bool :=
  rd (fun w => epoch <=? safe_to_reclaim_epoch_ (mgr w m)).

Definition IsProtected (m : Z) : prog EpochWorld bool :=
  deref_table m ;;; MinEpochTable_IsProtected m.

Definition ComputeNewSafeToReclaimEpoch (m currentEpoch : Z) : prog EpochWorld unit :=
  let! e := MinEpochTable_ComputeNewSafeToReclaimEpoch m currentEpoch in
  upd (fun w => set_mgr m (set_safe e (mgr w m)) w).

Definition BumpCurrentEpoch (m : Z) : prog EpochWorld unit :=
  let! newEpoch := act (fun w =>
    let e := current_epoch_ (mgr w m) in (e, set_mgr m (set_current (u64 (e + 1)) (mgr w m)) w)) in
  ComputeNewSafeToReclaimEpoch m newEpoch.

(** ** EpochGuard *)

Record EpochGuard := MkEpochGuard { epoch_manager_ : option Z; unprotect_at_exit_ : bool }.

Definition EpochGuard_new (m : Z) : prog EpochWorld EpochGuard :=
  Protect m ;;; Ret (MkEpochGuard (Some m) true).

Definition EpochGuard_attach (m : Z) (protect : bool) : prog EpochWorld EpochGuard :=
  (if protect then Protect m ;;; Ret tt else Ret tt) ;;; Ret (MkEpochGuard (Some m) protect).

Definition EpochGuard_delete (g : EpochGuard) : prog EpochWorld unit :=
  match epoch_manager_ g with
  | Some m => if unprotect_at_exit_ g then Unprotect m ;;; Ret tt else Ret tt
  | None => Ret tt
  end.

Definition EpochGuard_Release (g : EpochGuard) : option Z * EpochGuard :=
  (epoch_manager_ g, MkEpochGuard None (unprotect_at_exit_ g)).
End thread.

(** ** Clients

    A thread using manager [m]: any sequence of the public operations. *)
Inductive epoch_op :=
| OpProtect | OpUnprotect | OpIsProtected | OpGetCurrentEpoch
| OpIsSafeToReclaim (epoch : Z) | OpBumpCurrentEpoch.

Definition epoch_op_run (me : Z) (fuel : nat) (m : Z) (o : epoch_op) : prog EpochWorld unit :=
  match o with
  | OpProtect => Protect me fuel m ;;; Ret tt
  | OpUnprotect => Unprotect me fuel m ;;; Ret tt
  | OpIsProtected => IsProtected me fuel m ;;; Ret tt
  | OpGetCurrentEpoch => GetCurrentEpoch m ;;; Ret tt
  | OpIsSafeToReclaim e => IsSafeToReclaim m e ;;; Ret tt
  | OpBumpCurrentEpoch => BumpCurrentEpoch m
  end.

Fixpoint epoch_client (me : Z) (fuel : nat) (m : Z) (ops : list epoch_op) : prog EpochWorld unit :=
  match ops with
  | [] => Ret tt
  | o :: r => epoch_op_run me fuel m o ;;; epoch_client me fuel m r
  end.

(** The protected epoch of entry [i]; 0 for an unprotected or missing entry. *)
Definition prot (w : EpochWorld) (m : Z) (i : nat) : Z :=
  from_option protected_epoch 0 (entries w m !! i).

(** ** The protocol, under any interleaving *)

(** Auxiliary state: how often the epoch was bumped, and the current epoch at the
    moment each entry took its present value. *)
Record Gh := MkGh { gn : nat; gc : nat -> Z }.

Section protocol.
Context (m : Z) (sz : nat) (sz_fits : Z.of_nat sz < 2 ^ 64).

Definition cur (w : EpochWorld) : Z := current_epoch_ (mgr w m).
Definition safe (w : EpochWorld) : Z := safe_to_reclaim_epoch_ (mgr w m).

Definition epoch_obs (w w' : EpochWorld) (g : Gh) : Gh :=
  MkGh (if cur w =? cur w' then gn g else S (gn g))
    (fun i => if prot w m i =? prot w' m i then gc g i else cur w).

(** The table of [m] is in place. *)
Definition table_wf (w : EpochWorld) : Prop :=
  epoch_table_ (mgr w m) = Some (MkTable (Some (entries w m)) (Z.of_nat sz)) /\
  length (entries w m) = sz.

(** Every thread's TLS pointer is null or points to an entry it locked. *)
Definition tls_wf (w : EpochWorld) : Prop :=
  forall t, t <> 0 ->
    tls_get (threads w) (t, tls_entry) = tls_null \/
    exists i e, tls_get (threads w) (t, tls_entry) = tls_ptr_entry m i /\
                entries w m !! i = Some e /\ thread_id e = t.

(** No entry protects an epoch later than the one it was entered in, and nothing
    from that epoch on is reclaimable. *)
Definition epochs_wf (w : EpochWorld) (g : Gh) : Prop :=
  0 <= safe w < Z.of_nat (gn g) /\
  forall i, prot w m i <> 0 ->
    1 <= prot w m i <= gc g i /\ gc g i <= Z.of_nat (gn g) /\ safe w < gc g i.

(** The counter has not wrapped. *)
Definition unwrapped (g : Gh) : Prop := Z.of_nat (gn g) < 2 ^ 64.

Definition inv (s : EpochWorld * Gh) : Prop :=
  table_wf s.1 /\ tls_wf s.1 /\ cur s.1 = u64 (Z.of_nat (gn s.2)) /\
  (unwrapped s.2 -> epochs_wf s.1 s.2).

(** What any thread may do, as thread [t] sees it. *)
Definition evolves (s s' : EpochWorld * Gh) : Prop :=
  inv s' /\ (gn s.2 <= gn s'.2)%nat /\
  (forall i, prot s'.1 m i <> 0 ->
     (prot s.1 m i = prot s'.1 m i /\ gc s.2 i = gc s'.2 i) \/
     (unwrapped s'.2 -> Z.of_nat (gn s.2) <= gc s'.2 i)).

Definition own_kept (t : Z) (s s' : EpochWorld * Gh) : Prop :=
  tls_get (threads s'.1) (t, tls_entry) = tls_get (threads s.1) (t, tls_entry) /\
  forall i e, entries s.1 m !! i = Some e -> thread_id e = t -> entries s'.1 m !! i = Some e.

Definition epoch_R (t : Z) (s s' : EpochWorld * Gh) : Prop :=
  inv s -> evolves s s' /\ own_kept t s s'.

Definition epoch_G (t : Z) (s s' : EpochWorld * Gh) : Prop :=
  inv s -> evolves s s' /\ forall t', t' <> t -> t' <> 0 -> own_kept t' s s'.

Lemma epoch_R_refl t : reflexive _ (epoch_R t).
Proof.
  intros s Hs. split; [|by split]. split; [done|]. split; [done|]. intros; by left.
Qed.

Lemma epoch_R_trans t : transitive _ (epoch_R t).
Proof.
  intros s1 s2 s3 H12 H23 Hi. destruct (H12 Hi) as [(Hi2 & Hn & He) (Ht & Ho)].
  destruct (H23 Hi2) as [(Hi3 & Hn' & He') (Ht' & Ho')].
  split; [split; [done|split; [lia|]]|split; [congruence|eauto]].
  intros i Hp. destruct (He' i Hp) as [[E1 E2]|H]; [|right; intros Hu; specialize (H Hu); lia].
  rewrite <- E1, <- E2. assert (prot s2.1 m i <> 0) as Hp2 by congruence.
  destruct (He i Hp2) as [H|H]; [by left|right]. intros Hu. apply H.
  unfold unwrapped in *. lia.
Qed.

Lemma epoch_G_R t t' s s' : t <> t' -> t' <> 0 -> epoch_G t s s' -> epoch_R t' s s'.
Proof. intros Hne H0 H Hi. destruct (H Hi) as [He Ho]. split; [done|]. by apply Ho. Qed.

Lemma mgr_set_mgr x w : mgr (set_mgr m x w) m = x.
Proof. unfold mgr, set_mgr; simpl. by rewrite lookup_insert_eq. Qed.
Lemma mgr_set_mgr_ne x w o : o <> m -> mgr (set_mgr m x w) o = mgr w o.
Proof. intros Ho. unfold mgr, set_mgr; simpl. by rewrite lookup_insert_ne. Qed.

(** The new state after an access that keeps the manager, or changes its entries. *)
Definition write_entries (l : list Entry) (w : EpochWorld) : EpochWorld :=
  set_mgr m (set_entries l (mgr w m)) w.

Lemma write_entries_spec l w :
  table_wf w -> length l = sz ->
  entries (write_entries l w) m = l /\ table_wf (write_entries l w) /\
  cur (write_entries l w) = cur w /\ safe (write_entries l w) = safe w.
Proof.
  intros [Ht Hl] Hl'. unfold write_entries.
  assert (entries (set_mgr m (set_entries l (mgr w m)) w) m = l) as He.
  { unfold entries. rewrite mgr_set_mgr. unfold set_entries. by rewrite Ht. }
  unfold table_wf, cur, safe. rewrite He, mgr_set_mgr. unfold set_entries. by rewrite Ht.
Qed.

Lemma prot_insert w w' i e e' k :
  entries w m !! i = Some e -> entries w' m = <[i := e']> (entries w m) ->
  prot w' m k = if decide (k = i) then protected_epoch e' else prot w m k.
Proof.
  intros Hi He. unfold prot. rewrite He. apply lookup_lt_Some in Hi as Hlt.
  destruct (decide (k = i)) as [->|]; [by rewrite list_lookup_insert_eq|].
  by rewrite list_lookup_insert_ne.
Qed.

(** An access that changes nothing. *)
Lemma obs_same w g : inv (w, g) -> inv (w, epoch_obs w w g) /\ evolves (w, g) (w, epoch_obs w w g).
Proof.
  intros Hi. assert (inv (w, epoch_obs w w g)) as Hi'.
  { destruct Hi as (? & ? & Hc & He). unfold inv, epoch_obs, unwrapped; simpl in *.
    rewrite Z.eqb_refl. split_and!; try done. intros Hu. destruct (He Hu) as [? Hp].
    split; [done|]. intros i Hne. simpl. rewrite Z.eqb_refl. by apply Hp. }
  split; [done|]. split; [done|]. simpl. rewrite Z.eqb_refl. split; [lia|].
  intros i Hp. left. by rewrite Z.eqb_refl.
Qed.

(** An access to one entry by the thread that locked it or is locking it. *)
Lemma entry_step w g i e e' :
  inv (w, g) -> entries w m !! i = Some e ->
  thread_id e' = thread_id e \/ thread_id e = 0 ->
  protected_epoch e' = protected_epoch e \/ protected_epoch e' = 0 \/
    (unwrapped g -> 1 <= protected_epoch e' <= Z.of_nat (gn g)) ->
  let w' := write_entries (<[i := e']> (entries w m)) w in
  evolves (w, g) (w', epoch_obs w w' g) /\
  (forall t, t <> 0 -> t <> thread_id e \/ e' = e -> own_kept t (w, g) (w', epoch_obs w w' g)).
Proof.
  intros (Ht & Htls & Hc & He) Hi Hid Hpe w'. simpl in *.
  destruct (write_entries_spec (<[i := e']> (entries w m)) w Ht) as (Ew & Ht' & Ec & Es).
  { rewrite length_insert. apply Ht. }
  fold w' in Ew, Ht', Ec, Es. assert (threads w' = threads w) as Eth by done. clearbody w'.
  apply lookup_lt_Some in Hi as Hlt.
  pose proof (fun k => prot_insert w w' i e e' k Hi Ew) as Hp.
  assert (forall k, prot w' m k <> 0 ->
     (prot w m k = prot w' m k) \/ k = i /\ protected_epoch e' <> protected_epoch e) as Hnew.
  { intros k. rewrite Hp. case_decide as Hk; [|by left]. subst k. intros Hne.
    unfold prot. rewrite Hi. simpl. destruct (decide (protected_epoch e' = protected_epoch e)); auto. }
  assert (prot w m i = protected_epoch e) as Hpi by (unfold prot; by rewrite Hi).
  split; [split; [|split]|].
  - unfold inv; cbn [fst snd]. split; [done|]. split; [|split].
    + intros t Ht0. simpl. rewrite Eth. destruct (Htls t Ht0) as [H|(k & x & H1 & H2 & H3)]; [by left|right].
      destruct (decide (k = i)) as [->|Hk].
      * exists i, e'. rewrite Ew, list_lookup_insert_eq by done. split_and!; [done..|].
        simplify_eq. destruct Hid; congruence.
      * exists k, x. rewrite Ew, list_lookup_insert_ne by done. done.
    + unfold epoch_obs. by rewrite Ec, Z.eqb_refl.
    + unfold epoch_obs. rewrite Ec, Z.eqb_refl. unfold unwrapped; simpl. intros Hu. destruct (He Hu) as [Hs Hk].
      unfold epochs_wf; simpl. rewrite Es. split; [done|]. intros k Hne.
      destruct (Hnew k Hne) as [E|[-> Hd]].
      * rewrite <- E, Z.eqb_refl. apply Hk. congruence.
      * rewrite Hp, decide_True in Hne |- * by done. rewrite Hpi.
        replace (protected_epoch e =? protected_epoch e') with false by (symmetry; apply Z.eqb_neq; congruence).
        destruct Hpe as [?|[?|Hpe]]; [congruence|done|]. specialize (Hpe Hu).
        rewrite Hc, u64_id by (unfold fits, unwrapped in *; lia). lia.
  - simpl. rewrite Ec, Z.eqb_refl. lia.
  - intros k Hne. simpl in *. destruct (Hnew k Hne) as [E|[-> Hd]]; [left; by rewrite E, Z.eqb_refl|right].
    rewrite Hpi, Hp, decide_True by done.
    replace (protected_epoch e =? protected_epoch e') with false by (symmetry; apply Z.eqb_neq; congruence).
    rewrite Hc. unfold unwrapped; simpl. rewrite Ec, Z.eqb_refl. intros Hu. rewrite u64_id; [done|].
    unfold fits. lia.
  - intros t Ht0 Hne. split; simpl; [by rewrite Eth|]. intros k x Hk Hx. rewrite Ew.
    destruct (decide (k = i)) as [->|]; [|by rewrite list_lookup_insert_ne].
    simplify_eq. rewrite list_lookup_insert_eq by done. by destruct Hne as [?|<-].
Qed.

(** An access to the TLS variable of thread [t]. *)
Lemma threads_step w g th t :
  inv (w, g) ->
  (forall t', t' <> t -> tls_get th (t', tls_entry) = tls_get (threads w) (t', tls_entry)) ->
  tls_get th (t, tls_entry) = tls_get (threads w) (t, tls_entry) \/
    (exists i e, tls_get th (t, tls_entry) = tls_ptr_entry m i /\
                 entries w m !! i = Some e /\ thread_id e = t) ->
  let w' := set_threads th w in
  evolves (w, g) (w', epoch_obs w w' g) /\
  (forall t', t' <> t -> own_kept t' (w, g) (w', epoch_obs w w' g)).
Proof.
  intros Hi Hth Ht w'.
  destruct (obs_same w g Hi) as [Hi' (_ & Hn & He)].
  split; [|intros t' Hne; split; [by apply Hth|done]].
  split; [|by split].
  destruct Hi' as (Hw & Htls & Hc & Hep). split; [done|]. split; [|done].
  intros t' Ht0. simpl. destruct (decide (t' = t)) as [->|Hne].
  - destruct Ht as [->|?]; [by apply Htls|by right].
  - rewrite Hth by done. by apply Htls.
Qed.

Lemma set_mgr_same f w g :
  (forall e, epoch_table_ (f e) = epoch_table_ e) -> inv (w, g) ->
  let w' := set_mgr m (f (mgr w m)) w in
  table_wf w' /\ tls_wf w' /\ entries w' m = entries w m /\ (forall i, prot w' m i = prot w m i).
Proof.
  intros Hf (Ht & Htls & _). simpl in *.
  assert (entries (set_mgr m (f (mgr w m)) w) m = entries w m) as He.
  { unfold entries. by rewrite mgr_set_mgr, Hf. }
  unfold table_wf, tls_wf, prot. rewrite He, mgr_set_mgr, Hf. done.
Qed.

(** [current_epoch_.fetch_add(1)]. *)
Lemma bump_step w g t :
  inv (w, g) ->
  let w' := set_mgr m (set_current (u64 (cur w + 1)) (mgr w m)) w in
  epoch_G t (w, g) (w', epoch_obs w w' g) /\ gn (epoch_obs w w' g) = S (gn g).
Proof.
  intros Hi w'. pose proof Hi as (_ & _ & Hc & He). simpl in *.
  destruct (set_mgr_same (set_current (u64 (cur w + 1))) w g ltac:(done) Hi) as (Ht & Htls & Een & Hp).
  fold w' in Ht, Htls, Een, Hp.
  assert (cur w' = u64 (cur w + 1)) as Ec by (unfold cur, w'; by rewrite mgr_set_mgr).
  assert (safe w' = safe w) as Es by (unfold safe, w'; by rewrite mgr_set_mgr).
  assert (threads w' = threads w) as Eth by done. clearbody w'.
  assert ((cur w =? cur w') = false) as Hne.
  { apply Z.eqb_neq. rewrite Ec, Hc. unfold u64. intros E.
    pose proof (Z.mod_pos_bound (Z.of_nat (gn g)) (2 ^ 64) ltac:(lia)) as Hb.
    destruct (decide (Z.of_nat (gn g) mod 2 ^ 64 = 2 ^ 64 - 1)) as [E'|E'].
    - rewrite E' in E. vm_compute in E. done.
    - rewrite (Z.mod_small (_ + 1)) in E; lia. }
  assert (gn (epoch_obs w w' g) = S (gn g)) as Hgn by (simpl; by rewrite Hne).
  split; [|done]. intros _. split; [split; [|split]|].
  - split; [done|]. split; [done|]. cbn [fst snd]. rewrite Hgn. split.
    + rewrite Ec, Hc. unfold u64. rewrite Nat2Z.inj_succ, Z.add_mod_idemp_l by lia. done.
    + intros Hu. unfold unwrapped in Hu. rewrite Hgn in Hu. destruct He as [Hs Hk]; [unfold unwrapped; lia|].
      unfold epochs_wf. rewrite Hgn, Es. split; [lia|]. intros i. simpl. rewrite Hp, Z.eqb_refl.
      intros Hi0. specialize (Hk i Hi0). lia.
  - cbn [fst snd]. rewrite Hgn. lia.
  - intros i Hi0. left. simpl. by rewrite Hp, Z.eqb_refl.
  - intros t' Hne' H0. split; simpl; [by rewrite Eth|]. by rewrite Een.
Qed.

(** What a scanner that has passed the first [n] entries knows of its minimum [o]. *)
Definition scanned (o : Z) (n : nat) (s : EpochWorld * Gh) : Prop :=
  inv s /\ (unwrapped s.2 ->
    1 <= o /\ o < Z.of_nat (gn s.2) /\ forall k, (k < n)%nat -> prot s.1 m k <> 0 -> o <= gc s.2 k).

(** [safe_to_reclaim_epoch_.store]. *)
Lemma safe_step w g t o :
  scanned o sz (w, g) ->
  let w' := set_mgr m (set_safe (u64 (o - 1)) (mgr w m)) w in
  epoch_G t (w, g) (w', epoch_obs w w' g).
Proof.
  intros [Hi Ho] w' _. destruct (set_mgr_same (set_safe (u64 (o - 1))) w g ltac:(done) Hi)
    as (Ht & Htls & Een & Hp). fold w' in Ht, Htls, Een, Hp.
  assert (cur w' = cur w) as Ec by (unfold cur, w'; by rewrite mgr_set_mgr).
  assert (safe w' = u64 (o - 1)) as Es by (unfold safe, w'; by rewrite mgr_set_mgr).
  assert (threads w' = threads w) as Eth by done. clearbody w'.
  destruct Hi as ([_ Hlen] & _ & Hc & He). simpl in *.
  unfold epoch_obs. rewrite Ec, Z.eqb_refl. split; [split; [|split]|].
  - split; [done|]. split; [done|]. cbn [fst snd gn]. split; [congruence|].
    intros Hu. unfold unwrapped in Hu. simpl in Hu. destruct (He Hu) as [Hs Hk].
    destruct (Ho Hu) as (Ho1 & Ho2 & Ho3). unfold epochs_wf; cbn [gn gc].
    rewrite Es, u64_id by (unfold fits; lia). split; [lia|].
    intros i. rewrite Hp, Z.eqb_refl. intros Hi0. specialize (Hk i Hi0).
    assert (i < sz)%nat as Hlt.
    { rewrite <- Hlen. unfold prot in Hi0. destruct (entries w m !! i) eqn:E; [|done].
      by apply lookup_lt_Some in E. }
    specialize (Ho3 i Hlt Hi0). lia.
  - done.
  - intros i Hi0. left. cbn [fst snd gc] in *. by rewrite Hp, Z.eqb_refl.
  - intros t' Hne H0. split; simpl; [by rewrite Eth|]. by rewrite Een.
Qed.

(** ** Triples of the operations *)

Section triples.
Context (me : Z) (me_nonzero : me <> 0) (fuel : nat).

Abbreviation etriple := (triple epoch_obs (epoch_R me) (epoch_G me)).
Abbreviation estable := (stable (epoch_R me)).

#[local] Hint Resolve epoch_R_refl epoch_R_trans : core.

(** Thread [me] holds entry [i]. *)
Definition own (i : nat) (s : EpochWorld * Gh) : Prop :=
  inv s /\ exists e, entries s.1 m !! i = Some e /\ thread_id e = me.

(** A snapshot of the current epoch. *)
Definition snapshot (x : Z) (s : EpochWorld * Gh) : Prop :=
  inv s /\ (unwrapped s.2 -> 1 <= x <= Z.of_nat (gn s.2)).

Lemma inv_stable : estable inv.
Proof. intros s s' Hi HR. apply HR, Hi. Qed.

Lemma own_stable i : estable (own i).
Proof.
  intros s s' [Hi (e & He & Ht)] HR. destruct (HR Hi) as [[Hi' _] [_ Ho]].
  split; [done|]. exists e. eauto.
Qed.

Lemma unwrapped_evolves s s' : evolves s s' -> unwrapped s'.2 -> unwrapped s.2.
Proof. intros (_ & Hn & _). unfold unwrapped. lia. Qed.

Lemma snapshot_stable x : estable (snapshot x).
Proof.
  intros s s' [Hi Hx] HR. destruct (HR Hi) as [He _]. split; [apply He|].
  intros Hu. specialize (Hx (unwrapped_evolves _ _ He Hu)). destruct He as (_ & Hn & _). lia.
Qed.

Lemma snapshot_G x s s' : snapshot x s -> epoch_G me s s' -> snapshot x s'.
Proof.
  intros [Hi Hx] HG. destruct (HG Hi) as [He _]. split; [apply He|]. intros Hu.
  specialize (Hx (unwrapped_evolves _ _ He Hu)). destruct He as (_ & Hn & _). lia.
Qed.

Lemma scanned_stable o n : estable (scanned o n).
Proof.
  intros s s' [Hi Ho] HR. destruct (HR Hi) as [He _]. split; [apply He|]. intros Hu.
  destruct (Ho (unwrapped_evolves _ _ He Hu)) as (H1 & H2 & H3). destruct He as (_ & Hn & He).
  split; [done|]. split; [lia|]. intros k Hk Hp.
  destruct (He k Hp) as [[E1 E2]|H]; [|specialize (H Hu); lia].
  rewrite <- E2. apply H3; [done|congruence].
Qed.

Lemma and_stable (P Q : EpochWorld * Gh -> Prop) :
  estable P -> estable Q -> estable (fun s => P s /\ Q s).
Proof. intros HP HQ s s' [H1 H2] HR. split; [by eapply HP|by eapply HQ]. Qed.

Lemma pure_stable (P : Prop) : estable (fun _ => P).
Proof. intros s s' H _. exact H. Qed.

#[local] Hint Resolve inv_stable own_stable snapshot_stable scanned_stable and_stable pure_stable : core.

Lemma same_G w g : inv (w, g) -> epoch_G me (w, g) (w, epoch_obs w w g).
Proof. intros Hi _. destruct (obs_same w g Hi) as [_ He]. split; [done|]. intros; by split. Qed.

Lemma same_R w g : inv (w, g) -> epoch_R me (w, g) (w, epoch_obs w w g).
Proof. intros Hi _. destruct (obs_same w g Hi) as [_ He]. by split. Qed.

(** A load: what holds of the value now goes on holding. *)
Lemma triple_rd {X} (f : EpochWorld -> X) P (Q : X -> EpochWorld * Gh -> Prop) :
  estable P -> (forall x, estable (Q x)) -> (forall s, P s -> inv s /\ Q (f s.1) s) ->
  etriple P (rd f) Q.
Proof.
  intros HP HQ H. apply triple_act; [done..|]. intros [w g] Hs. simpl.
  destruct (H _ Hs) as [Hi Hq]. split; [by apply same_G|].
  eapply HQ; [exact Hq|]. by apply same_R.
Qed.

Lemma triple_deref P :
  estable P -> (forall s, P s -> inv s) ->
  etriple P (deref_table m) (fun t s => table_size_ t = Z.of_nat sz /\ P s).
Proof.
  intros HP Hi. eapply triple_bind; [done|eapply (triple_rd _ P
    (fun x s => P s /\ exists t, x = Some t /\ table_size_ t = Z.of_nat sz))|]; [done| | |].
  - intros x. apply and_stable; [done|]. apply pure_stable.
  - intros s Hs. specialize (Hi s Hs). split; [done|]. split; [done|].
    destruct Hi as ([Ht _] & _). rewrite Ht. eexists. split; [done|]. done.
  - intros [t|]; [apply triple_ret|].
    + apply and_stable; [done|]. apply pure_stable.
    + intros s [Hs (t' & [= <-] & E)]. done.
    + intros s [_ (t & [=] & _)].
Qed.

Lemma triple_entry_load {X} i (f : Entry -> X) P (Q : X -> EpochWorld * Gh -> Prop) :
  estable P -> (forall x, estable (Q x)) ->
  (forall s, P s -> inv s /\ exists e, entries s.1 m !! i = Some e /\ Q (f e) s) ->
  etriple P (entry_load m i f) Q.
Proof.
  intros HP HQ H. eapply triple_bind; [done|eapply (triple_rd _ P
    (fun x s => exists y, x = Some y /\ Q y s))|]; [done| | |].
  - intros x s s' (y & -> & Hy) HR. exists y. split; [done|]. by eapply HQ.
  - intros s Hs. destruct (H s Hs) as [Hi (e & He & Hq)]. split; [done|].
    exists (f e). by rewrite He.
  - intros [y|]; [apply triple_ret|].
    + intros s s' (z & [= <-] & Hz) HR. exists y. split; [done|]. by eapply HQ.
    + by intros s (z & [= <-] & Hz).
    + by intros s (z & [=] & Hz).
Qed.

Lemma triple_entry_rmw {X} i (f : Entry -> X * Entry) P (Q : X -> EpochWorld * Gh -> Prop) :
  estable P -> (forall x, estable (Q x)) ->
  (forall w g, P (w, g) -> inv (w, g) /\ exists e, entries w m !! i = Some e /\
     (thread_id e = me \/ thread_id e = 0 \/ (f e).2 = e) /\
     (thread_id (f e).2 = thread_id e \/ thread_id e = 0) /\
     (protected_epoch (f e).2 = protected_epoch e \/ protected_epoch (f e).2 = 0 \/
        (unwrapped g -> 1 <= protected_epoch (f e).2 <= Z.of_nat (gn g))) /\
     let w' := write_entries (<[i := (f e).2]> (entries w m)) w in
     (inv (w', epoch_obs w w' g) -> Q (f e).1 (w', epoch_obs w w' g))) ->
  etriple P (entry_rmw m i f) Q.
Proof.
  intros HP HQ H. eapply triple_bind; [done|eapply (triple_act _ _ _ _ P
    (fun x s => exists y, x = Some y /\ Q y s))|]; [done| | |].
  - intros x s s' (y & -> & Hy) HR. exists y. split; [done|]. by eapply HQ.
  - intros [w g] Hs. destruct (H w g Hs) as (Hi & e & He & Hme & Hid & Hpe & Hq). cbn [fst snd].
    rewrite He. destruct (f e) as [x e']. cbn [fst snd] in *.
    destruct (entry_step w g i e e' Hi He Hid Hpe) as [Hev Hown].
    fold (write_entries (<[i := e']> (entries w m)) w). split.
    + intros _. split; [done|]. intros t' Hne H0. apply Hown; [done|].
      destruct Hme as [?|[?|?]]; [left; congruence..|by right].
    + exists x. split; [done|]. apply Hq, Hev.
  - intros [y|]; [apply triple_ret|].
    + intros s s' (z & [= <-] & Hz) HR. exists y. split; [done|]. by eapply HQ.
    + by intros s (z & [= <-] & Hz).
    + by intros s (z & [=] & Hz).
Qed.

(** The probe index stays inside the table. *)
Lemma probe_in_range a : (0 < sz)%nat -> (Z.to_nat (u64 a .& u64 (Z.of_nat sz - 1)) < sz)%nat.
Proof.
  intros H. rewrite (u64_id (Z.of_nat sz - 1)) by (unfold fits; lia).
  pose proof (u64_fits a) as [Ha _].
  pose proof (land_range_r (u64 a) (Z.of_nat sz - 1) Ha ltac:(lia)). lia.
Qed.

Lemma own_entry i s : inv s -> (i < sz)%nat -> exists e, entries s.1 m !! i = Some e.
Proof.
  intros ([_ Hl] & _) Hi. destruct (entries s.1 m !! i) eqn:E; [eauto|].
  apply lookup_ge_None in E. lia.
Qed.

Definition got_own (got : option nat) (s : EpochWorld * Gh) : Prop :=
  match got with Some i => own i s | None => inv s end.

Lemma got_own_stable got : estable (got_own got).
Proof. destruct got; [apply own_stable|apply inv_stable]. Qed.

Lemma got_own_inv got s : got_own got s -> inv s.
Proof. destruct got; simpl; [by intros [? _]|done]. Qed.
#[local] Hint Resolve got_own_stable : core.

Lemma triple_probe start i got :
  (i < sz)%nat ->
  etriple (got_own got) (ReserveEntry_probe m start me (Z.of_nat sz) i got) got_own.
Proof.
  intros Hi. unfold ReserveEntry_probe. destruct got as [j|]; [by apply triple_ret|]. cbv zeta.
  set (ix := Z.to_nat _). assert (ix < sz)%nat as Hix by (apply probe_in_range; lia).
  eapply triple_bind; [done|apply (triple_entry_load _ _ inv (fun _ => inv)); auto|].
  { intros s Hs. split; [done|]. destruct (own_entry ix s Hs Hix) as (e & He). eauto. }
  intros owner. destruct (owner =? 0); [|by apply triple_ret].
  eapply triple_bind; [done|apply (triple_entry_rmw _ _ inv
    (fun b s => if b : bool then own ix s else inv s)); [auto|intros []; auto|]|].
  - intros w g Hs. split; [done|]. destruct (own_entry ix _ Hs Hix) as (e & He).
    exists e. split; [done|]. destruct (Z.eqb_spec (thread_id e) 0) as [E|E]; simpl.
    + split_and!; auto. intros Hi'. split; [done|]. exists (set_thread_id me e).
      split; [|done]. simpl. destruct Hs as ([Ht Hl] & _).
      destruct (write_entries_spec (<[ix := set_thread_id me e]> (entries w m)) w) as [-> _];
        [done|by rewrite length_insert|]. apply list_lookup_insert_eq. simpl in *. lia.
    + split_and!; auto.
  - intros [|]; by apply triple_ret.
Qed.

Lemma triple_ReserveEntry start : etriple inv (ReserveEntry fuel m start me) own.
Proof.
  eapply triple_bind; [done|apply triple_deref; auto|]. intros t s [Ht Hs]. revert s Hs.
  change (etriple inv (loop fuel (fun _ : unit =>
    let! got := for_list (seq 0 (Z.to_nat (table_size_ t)))
                  (ReserveEntry_probe m start me (table_size_ t)) None in
    match got with
    | Some i => Ret (inr i)
    | None => ReclaimOldEntries m ;;; Ret (inl tt)
    end) tt) own).
  rewrite Ht, Nat2Z.id. apply triple_loop with (Inv := fun _ : unit => inv); [done|auto|].
  intros _. eapply triple_bind; [done| |].
  - match goal with |- triple _ _ _ _ ?p ?q => change (etriple (got_own None) p q) end.
    apply triple_for_list with (Inv := fun _ => got_own); [done|auto|].
    intros pre x post got E. apply triple_probe. apply (f_equal (fun l => l !! length pre)) in E.
    rewrite lookup_app_r, Nat.sub_diag in E by lia. apply lookup_seq in E. simpl in *. lia.
  - intros [i|]; by apply triple_ret.
Qed.

(** The pointer a thread works through is its own entry of [m]. *)
Definition my_entry (p : Z * nat) (s : EpochWorld * Gh) : Prop := p.1 = m /\ own p.2 s.

Lemma my_entry_stable p : estable (my_entry p).
Proof. apply and_stable; auto. Qed.
#[local] Hint Resolve my_entry_stable : core.

Lemma triple_upd_threads f P (Q : EpochWorld * Gh -> Prop) :
  estable P -> estable Q ->
  (forall w g, P (w, g) -> inv (w, g) /\
     (forall t', t' <> me -> tls_get (f (threads w)) (t', tls_entry) = tls_get (threads w) (t', tls_entry)) /\
     (tls_get (f (threads w)) (me, tls_entry) = tls_get (threads w) (me, tls_entry) \/
      exists i e, tls_get (f (threads w)) (me, tls_entry) = tls_ptr_entry m i /\
                  entries w m !! i = Some e /\ thread_id e = me) /\
     forall g', inv (set_threads (f (threads w)) w, g') -> Q (set_threads (f (threads w)) w, g')) ->
  etriple P (upd (fun w => set_threads (f (threads w)) w)) (fun _ => Q).
Proof.
  intros HP HQ H. apply triple_act; [done..|]. intros [w g] Hs.
  destruct (H w g Hs) as (Hi & Hother & Hme & Hq). cbn [fst snd].
  destruct (threads_step w g (f (threads w)) me Hi Hother Hme) as [Hev Hown].
  split; [|apply Hq, Hev]. intros _. split; [done|]. intros. by apply Hown.
Qed.

(** What a thread finds in its TLS variable. *)
Definition tls_read (x : tls_value) (s : EpochWorld * Gh) : Prop :=
  inv s /\ (x = tls_null \/ exists i, x = tls_ptr_entry m i /\ own i s).

Lemma tls_read_stable x : estable (tls_read x).
Proof.
  intros s s' [Hi H] HR. split; [by eapply inv_stable|].
  destruct H as [|(i & ? & Ho)]; [by left|right]. exists i. split; [done|]. by eapply own_stable.
Qed.
#[local] Hint Resolve tls_read_stable : core.

Lemma triple_GetEntryForThread : etriple inv (GetEntryForThread me fuel m) my_entry.
Proof.
  eapply triple_bind; [done|apply (triple_rd _ inv tls_read); auto|].
  { intros s Hs. split; [done|]. split; [done|]. pose proof Hs as (_ & Htls & _).
    destruct (Htls me me_nonzero) as [E|(i & e & E & H1 & H2)]; [by left|right].
    exists i. split; [done|]. split; [done|]. eauto. }
  intros [|m' i|p].
  - eapply (triple_conseq _ _ _ inv); [|by intros s [? _]|done].
    eapply triple_bind; [done|apply triple_ReserveEntry|]. intros i.
    eapply triple_bind; [done|apply (triple_upd_threads _ (own i) (own i)); auto|].
    { intros w g [Hi (e & He & Ht)]. split; [done|]. split; [|split].
      - intros t' Hne. unfold tls_get, tls_set; simpl. rewrite lookup_insert_ne; [done|congruence].
      - right. exists i, e. unfold tls_get, tls_set; simpl. by rewrite lookup_insert_eq.
      - intros g' Hi'. split; [done|]. by exists e. }
    intros []; eapply triple_bind; [done|apply (triple_upd_threads _ (own i) (own i)); auto|].
    { intros w g [Hi (e & He & Ht)]. split; [done|]. split; [done|]. split; [by left|].
      intros g' Hi'. split; [done|]. by exists e. }
    intros []; by apply triple_ret.
  - apply triple_ret; [auto|]. intros s (_ & H).
    destruct H as [E|(k & E & Ho)]; [discriminate E|]. by inversion E; subst.
  - intros s (_ & H). destruct H as [E|(k & E & _)]; discriminate E.
Qed.

(** A store to one's own entry. *)
Lemma triple_own_store i f P (Q : EpochWorld * Gh -> Prop) :
  estable P -> estable Q ->
  (forall s, P s -> own i s) ->
  (forall e, thread_id (f e) = thread_id e) ->
  (forall w g e, P (w, g) -> entries w m !! i = Some e ->
     protected_epoch (f e) = protected_epoch e \/ protected_epoch (f e) = 0 \/
     (unwrapped g -> 1 <= protected_epoch (f e) <= Z.of_nat (gn g))) ->
  (forall s, own i s -> Q s) ->
  etriple P (entry_store m i f) (fun _ => Q).
Proof.
  intros HP HQ Hown Hid Hpe HPQ. apply triple_entry_rmw; [done..|]. intros w g Hs.
  destruct (Hown _ Hs) as [Hi (e & He & Ht)]. split; [done|]. exists e. cbn [fst snd].
  split_and!; [done|by left|by left|by apply (Hpe w g)|].
  intros Hi'. apply HPQ. split; [done|]. exists (f e). rewrite Hid. split; [|done].
  destruct Hi as ([Htab Hl] & _). cbn [fst snd] in *.
  destruct (write_entries_spec (<[i := f e]> (entries w m)) w) as [-> _];
    [done|by rewrite length_insert|]. apply list_lookup_insert_eq. by eapply lookup_lt_Some.
Qed.

Lemma triple_Protect : etriple inv (Protect me fuel m) (fun _ => inv).
Proof.
  eapply triple_bind; [done|apply (triple_rd _ inv snapshot); auto|].
  { intros s Hs. split; [done|]. split; [done|]. destruct Hs as (_ & _ & Hc & He). intros Hu.
    specialize (He Hu) as [Hs _]. unfold cur in Hc. rewrite Hc, u64_id; unfold fits, unwrapped in *; lia. }
  intros x. eapply triple_bind; [done|apply (triple_deref (snapshot x)); auto; by intros s []|].
  intros t. eapply (triple_conseq _ _ _ (fun s => inv s /\ snapshot x s));
    [|by intros s [_ Hx]; split; [apply Hx|]|intros ? ? H; exact H].
  eapply triple_bind; [done|apply (triple_frame _ _ _ (snapshot x)); [auto| |]|].
  - apply snapshot_G.
  - apply triple_GetEntryForThread.
  - intros [m' i]. eapply (triple_conseq _ _ _ (fun s => m' = m /\ own i s /\ snapshot x s));
      [|by intros s [[E Ho] Hx]|intros ? ? H; exact H].
    enough (etriple (fun s => own i s /\ snapshot x s)
      (entry_store m i (set_last_unprotected_epoch 0) ;;;
       entry_store m i (set_protected_epoch x) ;;; Ret Status_OK) (fun _ => inv)) as Ht
      by (intros s (-> & Hs); exact (Ht s Hs)).
    eapply triple_bind; [done|apply (triple_frame _ _ _ (snapshot x) _ (own i) (fun _ => own i)); [auto| |]|intros []].
    + apply snapshot_G.
    + apply (triple_own_store _ _ (own i) (own i)); auto.
    + eapply triple_bind; [done|apply (triple_own_store _ _ _ inv); auto|intros []; by apply triple_ret].
      * by intros s [? ?].
      * intros w g e [_ [_ Hx]] _. right; right. exact Hx.
      * by intros s [? _].
Qed.

Lemma triple_with_entry {A} (body : nat -> prog EpochWorld A) Q :
  (forall i, etriple (own i) (body i) Q) ->
  etriple inv (let! (_, i) := GetEntryForThread me fuel m in body i) Q.
Proof.
  intros Hb. eapply triple_bind; [done|apply triple_GetEntryForThread|].
  intros [m' i]. eapply triple_conseq; [apply (Hb i)|by intros s [_ ?]|done].
Qed.

Lemma triple_Unprotect : etriple inv (Unprotect me fuel m) (fun _ => inv).
Proof.
  eapply triple_bind; [done|apply (triple_rd _ inv (fun _ => inv)); auto|].
  intros x. eapply triple_bind; [done|apply (triple_deref inv); auto|]. intros t.
  eapply (triple_conseq _ _ _ inv); [|by intros s []|intros ? ? H; exact H].
  eapply triple_bind; [done|apply triple_GetEntryForThread|]. intros [m' i].
  enough (etriple (own i) (let! owner := entry_load m i thread_id in
    check (owner =? me) "DCHECK(entry->thread_id.load() == Environment::Get()->GetThreadId())" ;;;
    entry_store m i (set_last_unprotected_epoch x) ;;;
    entry_store m i (set_protected_epoch 0) ;;; Ret Status_OK) (fun _ => inv)) as Ht.
  { intros s [E Hs]. simpl in E. subst m'. exact (Ht s Hs). }
  eapply triple_bind; [done|apply (triple_entry_load _ _ (own i)
    (fun o s => own i s /\ o = me)); auto|intros owner].
  { intros s Ho. split; [apply Ho|]. destruct (Ho) as [_ (e & He & Hid)]. exists e. auto. }
  eapply triple_bind; [done|apply (triple_check _ _ _ _ _ (fun s => own i s /\ owner = me)); auto|intros []].
  { intros s [_ ->]. by apply Z.eqb_refl. }
  eapply (triple_conseq _ _ _ (own i)); [|by intros s []|intros ? ? H; exact H].
  eapply triple_bind; [done|apply (triple_own_store _ _ (own i) (own i)); auto|intros []].
  eapply triple_bind; [done|apply (triple_own_store _ _ (own i) inv); auto|intros []; by apply triple_ret].
  by intros s [? _].
Qed.

Lemma triple_IsProtected : etriple inv (IsProtected me fuel m) (fun _ => inv).
Proof.
  eapply triple_bind; [done|apply (triple_deref inv); auto|]. intros t.
  eapply (triple_conseq _ _ _ inv); [|by intros s []|intros ? ? H; exact H].
  eapply triple_bind; [done|apply triple_GetEntryForThread|]. intros [m' i].
  enough (etriple (own i) (let! p := entry_load m i protected_epoch in Ret (negb (p =? 0)))
    (fun _ => inv)) as Ht.
  { intros s [E Hs]. simpl in E. subst m'. exact (Ht s Hs). }
  eapply triple_bind; [done|apply (triple_entry_load _ _ (own i) (fun _ => inv)); auto|].
  { intros s Ho. split; [apply Ho|]. destruct (Ho) as [Hi (e & He & Hid)]. exists e. auto. }
  intros p. by apply triple_ret.
Qed.

(** One step of the scan. *)
Lemma triple_scan i o :
  (i < sz)%nat ->
  etriple (scanned o i) (let! entryEpoch := entry_load m i protected_epoch in
    Ret (if negb (entryEpoch =? 0) && (entryEpoch <? o) then entryEpoch else o))
    (fun o' => scanned o' (S i)).
Proof.
  intros Hi. set (pick p := if negb (p =? 0) && (p <? o) then p else o).
  eapply triple_bind; [done|apply (triple_entry_load _ _ (scanned o i)
    (fun p => scanned (pick p) (S i))); auto|intros p; by apply triple_ret].
  intros s [Hs Ho]. split; [done|]. destruct (own_entry i s Hs Hi) as (e & He). exists e.
  split; [done|]. split; [done|]. intros Hu. destruct (Ho Hu) as (H1 & H2 & H3).
  destruct Hs as (_ & _ & _ & Hw). destruct (Hw Hu) as [_ Hp]. specialize (Hp i).
  assert (prot s.1 m i = protected_epoch e) as Hpi by (unfold prot; by rewrite He).
  rewrite Hpi in Hp. unfold pick.
  destruct (Z.eqb_spec (protected_epoch e) 0) as [E|E]; cbn [negb andb].
  - split; [done|]. split; [done|]. intros k Hk Hkp. apply H3; [|done].
    destruct (decide (k = i)) as [->|]; [congruence|lia].
  - specialize (Hp E). destruct (Z.ltb_spec (protected_epoch e) o).
    + split; [lia|]. split; [lia|]. intros k Hk Hkp.
      destruct (decide (k = i)) as [->|]; [lia|]. specialize (H3 k ltac:(lia) Hkp). lia.
    + split; [done|]. split; [done|]. intros k Hk Hkp.
      destruct (decide (k = i)) as [->|]; [lia|]. apply H3; [lia|done].
Qed.

Lemma triple_BumpCurrentEpoch : etriple inv (BumpCurrentEpoch m) (fun _ => inv).
Proof.
  eapply triple_bind; [done|apply (triple_act _ _ _ _ inv (fun o => scanned o 0)); auto|].
  { intros [w g] Hs. cbn [fst snd]. destruct (bump_step w g me Hs) as [HG Hn].
    split; [done|]. destruct (HG Hs) as [[Hi' _] _]. split; [done|]. cbn [fst snd].
    fold (cur w). rewrite Hn. unfold unwrapped. rewrite Hn. intros Hu.
    destruct Hs as (_ & _ & Hc & He). cbn [fst snd] in *.
    destruct He as [Hs _]; [unfold unwrapped; lia|].
    rewrite Hc, u64_id by (unfold fits; lia). split; [lia|]. split; [lia|]. intros; lia. }
  intros o. eapply triple_bind; [done| |].
  - eapply triple_bind; [done|apply (triple_deref (scanned o 0)); auto; by intros s []|].
    intros t. enough (table_size_ t = Z.of_nat sz ->
      etriple (scanned o 0) (let! oldest_call := for_list (seq 0 (Z.to_nat (table_size_ t)))
        (fun i oldest_call => let! entryEpoch := entry_load m i protected_epoch in
          Ret (if negb (entryEpoch =? 0) && (entryEpoch <? oldest_call) then entryEpoch else oldest_call)) o in
        Ret (u64 (oldest_call - 1))) (fun r s => exists o', r = u64 (o' - 1) /\ scanned o' sz s)) as Ht.
    { intros s [E Hs]. exact (Ht E s Hs). }
    intros ->. rewrite Nat2Z.id. eapply triple_bind; [done| |].
    + apply (triple_for_list _ _ _ (epoch_R_refl me) (fun pre o => scanned o (length pre))); [auto|].
      intros pre i post o' E. rewrite length_app, Nat.add_1_r.
      assert (i = length pre /\ i < sz)%nat as [-> Hi].
      { apply (f_equal (fun l => l !! length pre)) in E.
        rewrite lookup_app_r, Nat.sub_diag in E by lia. apply lookup_seq in E. simpl in *. lia. }
      by apply triple_scan.
    + intros o'. apply triple_ret; [auto|]. intros s Hs. rewrite length_seq in Hs. eauto.
  - intros r. apply triple_act; [|auto|].
    + intros s s' (o' & -> & Hs) HR. exists o'. split; [done|]. by eapply scanned_stable.
    + intros [w g] (o' & -> & Hs). pose proof (safe_step w g me o' Hs) as HG.
      split; [done|]. destruct Hs as [Hi _]. apply (HG Hi).
Qed.

Lemma triple_op o : etriple inv (epoch_op_run me fuel m o) (fun _ => inv).
Proof.
  destruct o; unfold epoch_op_run; [| | | | |apply triple_BumpCurrentEpoch];
    (eapply triple_bind; [done| |intros x; apply triple_ret; [apply inv_stable|intros s Hs; exact Hs]]).
  - apply triple_Protect.
  - apply triple_Unprotect.
  - apply triple_IsProtected.
  - apply (triple_rd _ inv (fun _ => inv)); auto.
  - apply (triple_rd _ inv (fun _ => inv)); auto.
Qed.

Lemma triple_client ops : etriple inv (epoch_client me fuel m ops) (fun _ => inv).
Proof.
  induction ops as [|o r IH]; simpl; [by apply triple_ret|].
  eapply triple_bind; [done|apply triple_op|]. by intros [].
Qed.
End triples.

(** ** Pools of clients *)

Section pool.
Context (fuel : nat) (cs : list (Z * list epoch_op)).
Context (Hnd : NoDup cs.*1) (H0 : 0 ∉ cs.*1).

Definition epoch_pool : list (prog EpochWorld unit) :=
  (fun c => epoch_client c.1 fuel m c.2) <$> cs.

Definition pool_R (j : nat) : EpochWorld * Gh -> EpochWorld * Gh -> Prop :=
  match cs !! j with Some c => epoch_R c.1 | None => fun _ _ => True end.
Definition pool_G (j : nat) : EpochWorld * Gh -> EpochWorld * Gh -> Prop :=
  match cs !! j with Some c => epoch_G c.1 | None => eq end.

Lemma pool_id_nonzero j c : cs !! j = Some c -> c.1 <> 0.
Proof.
  intros Hj E. apply H0. rewrite <- E. apply list_elem_of_fmap. exists c.
  split; [done|]. by eapply list_elem_of_lookup_2.
Qed.

Lemma pool_G_R i j s s' : i <> j -> pool_G i s s' -> pool_R j s s'.
Proof.
  unfold pool_G, pool_R. intros Hne. destruct (cs !! j) as [c|] eqn:Ej; [|done].
  destruct (cs !! i) as [d|] eqn:Ei; [|intros <-; apply epoch_R_refl].
  apply epoch_G_R; [|by eapply pool_id_nonzero]. intros E. apply Hne.
  eapply (NoDup_lookup cs.*1); [done|..]; rewrite list_lookup_fmap.
  - rewrite Ei. done.
  - by rewrite Ej, E.
Qed.

Definition epoch_run_at (s0 : EpochWorld * Gh) (sched : list nat) :=
  exec sched (observe epoch_obs <$> epoch_pool, s0).

Lemma pool_sound s0 sched :
  inv s0 -> pool_rg pool_R pool_G (fun _ _ => inv) (epoch_run_at s0 sched).1 (epoch_run_at s0 sched).2 /\
  inv (epoch_run_at s0 sched).2.
Proof.
  intros Hi.
  destruct (exec_rg pool_R pool_G) with (Q := fun (_ : nat) (_ : unit) => inv)
    (sched := sched) (ts := observe epoch_obs <$> epoch_pool) (s := s0) as [Hp Hs].
  - intros j. unfold pool_R. destruct (cs !! j); [apply epoch_R_refl|done].
  - intros j. unfold pool_R. destruct (cs !! j); [apply epoch_R_trans|done].
  - apply pool_G_R.
  - intros j p. rewrite list_lookup_fmap. unfold epoch_pool. rewrite list_lookup_fmap.
    destruct (cs !! j) as [c|] eqn:Ej; simpl; intros [= <-].
    unfold pool_R, pool_G. rewrite Ej. apply triple_client; [by eapply pool_id_nonzero|done].
  - split; [done|]. clear Hp. unfold epoch_run_at.
    induction Hs as [s|s s' s'' [i Hst] _ IH]; [done|]. apply IH. unfold pool_G in Hst.
    destruct (cs !! i); [apply (Hst Hi)|by subst].
Qed.

(** While entry [i] keeps its value, so does the epoch it was entered in. *)
Lemma gc_kept s0 sched i k1 n p :
  (forall k, (k1 <= k <= k1 + n)%nat -> prot (epoch_run_at s0 (take k sched)).2.1 m i = p) ->
  gc (epoch_run_at s0 (take (k1 + n) sched)).2.2 i = gc (epoch_run_at s0 (take k1 sched)).2.2 i.
Proof.
  induction n as [|n IH]; intros H; [by rewrite Nat.add_0_r|].
  rewrite <- IH by (intros k Hk; apply H; lia). clear IH.
  pose proof (H (k1 + n)%nat ltac:(lia)) as E1. pose proof (H (k1 + S n)%nat ltac:(lia)) as E2.
  clear H. rewrite Nat.add_succ_r in *.
  destruct (sched !! (k1 + n)%nat) as [j|] eqn:Ej.
  - rewrite (take_S_r _ _ _ Ej) in *. unfold epoch_run_at in *. rewrite exec_app in *. simpl in *.
    destruct (exec_observe epoch_obs (take (k1 + n) sched) epoch_pool s0) as [Ets _].
    destruct (exec (take (k1 + n) sched) (observe epoch_obs <$> epoch_pool, s0)) as [ts s].
    simpl in Ets. subst ts. pose proof (pool_step_ghost epoch_obs j
      (exec (take (k1 + n) sched) (epoch_pool, s0.1)).1 s) as [E|E]; [by rewrite E|].
    simpl in E. rewrite E. simpl. simpl in E1. by rewrite E1, E2, Z.eqb_refl.
  - apply lookup_ge_None in Ej. by rewrite !take_ge by lia.
Qed.
End pool.
End protocol.

(** A manager that has just been initialised. *)
Definition epoch_start (m : Z) (w : EpochWorld) : Prop :=
  epoch_table_ (mgr w m) = None /\ forall t, tls_get (threads w) (t, tls_entry) = tls_null.

Definition initialized (m : Z) (w : EpochWorld) : EpochWorld := (run (EpochManager_Initialize m) w).2.

Definition gh0 : Gh := MkGh 1 (fun _ => 1).

Lemma IS_POWER_OF_TWO_128 : IS_POWER_OF_TWO kDefaultSize = true.
Proof. reflexivity. Qed.

Lemma initialized_mgr m w :
  epoch_table_ (mgr w m) = None ->
  initialized m w = set_mgr m (MkEpochManager 1 0 (Some (MkTable (Some (replicate 128 Entry_new)) 128))) w.
Proof. intros E. unfold initialized. simpl. by rewrite E. Qed.

Lemma initialized_inv m w : epoch_start m w -> inv m 128 (initialized m w, gh0).
Proof.
  intros [E Htls]. rewrite initialized_mgr by done.
  assert (entries (set_mgr m (MkEpochManager 1 0 (Some (MkTable (Some (replicate 128 Entry_new)) 128))) w) m
          = replicate 128 Entry_new) as He by (unfold entries; by rewrite mgr_set_mgr).
  unfold inv, table_wf, cur; cbn [fst snd]. rewrite He, mgr_set_mgr.
  split; [done|]. split; [intros t _; left; apply Htls|]. split; [done|]. intros _.
  unfold epochs_wf, safe, prot. rewrite He, mgr_set_mgr. split; [simpl; lia|].
  intros i. destruct (replicate 128 Entry_new !! i) eqn:Ei; [|done].
  apply lookup_replicate in Ei as [-> _]. done.
Qed.

(** The clients' execution from a fresh manager. *)
Definition epoch_exec (m : Z) (fuel : nat) (cs : list (Z * list epoch_op)) (w : EpochWorld) (sched : list nat) :=
  exec sched (epoch_pool m fuel cs, initialized m w).

Lemma epoch_exec_run_at m fuel cs w sched :
  (epoch_run_at m fuel cs (initialized m w, gh0) sched).1 =
    observe (epoch_obs m) <$> (epoch_exec m fuel cs w sched).1 /\
  (epoch_run_at m fuel cs (initialized m w, gh0) sched).2.1 = (epoch_exec m fuel cs w sched).2.
Proof. apply exec_observe. Qed.

Lemma gn_bound m fuel cs w sched :
  (gn (epoch_run_at m fuel cs (initialized m w, gh0) sched).2.2 <= 1 + length sched)%nat.
Proof.
  apply (exec_ghost_bound (epoch_obs m) (fun s => gn s.2) sched _ (_, gh0)).
  intros s s' g. simpl. destruct (cur m s =? cur m s'); lia.
Qed.

(** C19.  Under every interleaving of threads that protect, unprotect, query and bump one
    epoch manager, as long as a table entry keeps the nonzero epoch a thread published
    in it, no epoch from the one that was current then onwards becomes safe to reclaim. *)
Theorem epoch_protection m fuel w cs sched k1 k2 i p e :
  epoch_start m w -> NoDup cs.*1 -> 0 ∉ cs.*1 -> Z.of_nat (length sched) < 2 ^ 64 - 1 ->
  let at_ k := (epoch_exec m fuel cs w (take k sched)).2 in
  (k1 <= k2)%nat -> p <> 0 -> (forall k, (k1 <= k <= k2)%nat -> prot (at_ k) m i = p) ->
  current_epoch_ (mgr (at_ k1) m) <= e ->
  run (IsSafeToReclaim m e) (at_ k2) = (Done false, at_ k2).
Proof.
  intros Hst Hnd H0 Hlen at_ Hk Hp Hprot He. unfold IsSafeToReclaim. rewrite run_rd.
  set (E k := epoch_run_at m fuel cs (initialized m w, gh0) (take k sched)).
  assert (forall k, (E k).2.1 = at_ k) as HE by (intros k; apply epoch_exec_run_at).
  assert (forall k, inv m 128 (E k).2) as Hinv.
  { intros k. apply pool_sound; [lia|done|done|]. by apply initialized_inv. }
  assert (forall k, unwrapped (E k).2.2) as Hu.
  { intros k. unfold unwrapped. pose proof (gn_bound m fuel cs w (take k sched)) as Hb.
    fold (E k) in Hb. rewrite length_take in Hb. lia. }
  assert (gc (E k2).2.2 i = gc (E k1).2.2 i) as Hgc.
  { replace k2 with (k1 + (k2 - k1))%nat by lia. apply gc_kept with (p := p) (sz := 128%nat); try done.
    intros k Hk'. fold (E k). rewrite HE. apply Hprot. lia. }
  destruct (Hinv k1) as (_ & _ & Hc1 & Hw1). destruct (Hw1 (Hu k1)) as [_ Hg1].
  destruct (Hinv k2) as (_ & _ & _ & Hw2). destruct (Hw2 (Hu k2)) as [_ Hg2].
  specialize (Hg1 i). specialize (Hg2 i). rewrite HE, (Hprot k1) in Hg1 by lia.
  rewrite HE, (Hprot k2) in Hg2 by lia. rewrite HE in Hc1.
  specialize (Hg1 Hp). specialize (Hg2 Hp). unfold cur in Hc1. unfold safe in Hg2.
  rewrite u64_id in Hc1 by (pose proof (Hu k1); unfold unwrapped, fits in *; lia).
  do 2 f_equal. apply Z.leb_gt. lia.
Qed.

(** C20.  From a fresh manager, no interleaving of any number of threads that each protect,
    unprotect, query and bump it in any order of their own stops one of them: no DCHECK
    fails, no missing table is dereferenced and no entry outside the table is accessed. *)
Theorem epoch_no_fault m fuel w cs sched j pr msg :
  epoch_start m w -> NoDup cs.*1 -> 0 ∉ cs.*1 ->
  (epoch_exec m fuel cs w sched).1 !! j = Some pr -> outcome pr <> Some (Faulted msg).
Proof.
  intros Hst Hnd H0 Hj Ho.
  destruct (pool_sound m 128 ltac:(lia) fuel cs Hnd H0 (initialized m w, gh0) sched) as [Hp _];
    [by apply initialized_inv|].
  destruct (epoch_exec_run_at m fuel cs w sched) as [E _]. rewrite E in Hp.
  specialize (Hp j (observe (epoch_obs m) pr)). rewrite list_lookup_fmap, Hj in Hp.
  specialize (Hp eq_refl). destruct pr as [a|X f k|msg'|]; simplify_eq. simpl in Hp.
  eapply Hp. unfold pool_R. destruct (cs !! j); [apply epoch_R_refl|done].
Qed.

Example epoch_protection_witness :
  let w := MkEpochWorld ∅ (MkThreads ∅ ∅) in
  let cs := [(5, [OpProtect]); (9, [OpBumpCurrentEpoch; OpBumpCurrentEpoch])] in
  let sched := replicate 12 0%nat ++ replicate 266 1%nat in
  (run (IsSafeToReclaim 100 1) (epoch_exec 100 1 cs w (take 278 sched)).2).1 = Done false.
Proof.
  intros w cs sched.
  rewrite (epoch_protection 100 1 w cs sched 12 278 117 1 1); [done|..].
  - split; [done|]. intros t. reflexivity.
  - apply (bool_decide_unpack _). by vm_compute.
  - apply (bool_decide_unpack _). by vm_compute.
  - done.
  - lia.
  - done.
  - intros k Hk.
    assert (Forall (fun k => prot (epoch_exec 100 1 cs w (take k sched)).2 100 117 = 1) (seq 12 267)) as HF
      by (apply (bool_decide_unpack _); by vm_compute).
    rewrite Forall_forall in HF. apply HF, elem_of_seq. lia.
  - by vm_compute.
Defined.

Example epoch_no_fault_witness :
  let w := MkEpochWorld ∅ (MkThreads ∅ ∅) in
  let cs := [(5, [OpProtect; OpUnprotect]); (9, [OpBumpCurrentEpoch])] in
  exists pr, (epoch_exec 100 1 cs w (replicate 40 0%nat)).1 !! 0%nat = Some pr /\
    outcome pr <> Some (Faulted "").
Proof.
  intros w cs. exists (Ret tt).
  assert ((epoch_exec 100 1 cs w (replicate 40 0%nat)).1 !! 0%nat = Some (Ret tt)) as E by (by vm_compute).
  split; [exact E|].
  apply (epoch_no_fault 100 1 w cs (replicate 40 0%nat) 0%nat _ ""); [| | |exact E].
  - split; [done|]. intros t. reflexivity.
  - apply (bool_decide_unpack _). by vm_compute.
  - apply (bool_decide_unpack _). by vm_compute.
Defined.

(** ** Reserving an entry *)

Section reserve.
Context (m : Z) (n : nat) (Hn : (n < 64)%nat) (start id : Z) (w : EpochWorld).
Let sz : nat := (2 ^ n)%nat.
Context (Hw : table_wf m sz w).

Definition probe_slot (i : nat) : nat :=
  Z.to_nat (u64 (start + Z.of_nat i) .& u64 (Z.of_nat sz - 1)).

Lemma sz_pow : Z.of_nat sz = 2 ^ Z.of_nat n.
Proof. unfold sz. rewrite Nat2Z.inj_pow. done. Qed.

Lemma sz_bound : 0 < Z.of_nat sz < 2 ^ 64.
Proof. rewrite sz_pow. split; [lia|]. apply Z.pow_lt_mono_r; lia. Qed.

Lemma probe_slot_mod i : Z.of_nat (probe_slot i) = (start + Z.of_nat i) mod Z.of_nat sz.
Proof.
  pose proof sz_bound. unfold probe_slot.
  rewrite (u64_id (Z.of_nat sz - 1)) by (unfold fits; lia). rewrite sz_pow.
  replace (2 ^ Z.of_nat n - 1) with (Z.ones (Z.of_nat n)) by (rewrite Z.ones_equiv; lia).
  rewrite Z.land_ones by lia. pose proof (Z.mod_pos_bound (u64 (start + Z.of_nat i)) (2 ^ Z.of_nat n) ltac:(lia)).
  rewrite Z2Nat.id by lia. unfold u64.
  rewrite <- Znumtheory.Zmod_div_mod; [done|lia|lia|].
  exists (2 ^ (64 - Z.of_nat n)). rewrite <- Z.pow_add_r by lia. f_equal. lia.
Qed.

Lemma probe_slot_lt i : (probe_slot i < sz)%nat.
Proof.
  pose proof sz_bound. pose proof (probe_slot_mod i).
  pose proof (Z.mod_pos_bound (start + Z.of_nat i) (Z.of_nat sz)). lia.
Qed.

(** The probes of one round visit every slot. *)
Lemma probe_slot_surj s : (s < sz)%nat -> exists i, (i < sz)%nat /\ probe_slot i = s.
Proof.
  intros Hs. pose proof sz_bound.
  pose proof (Z.mod_pos_bound (Z.of_nat s - start) (Z.of_nat sz) ltac:(lia)) as Hb.
  exists (Z.to_nat ((Z.of_nat s - start) mod Z.of_nat sz)). split; [lia|].
  apply Nat2Z.inj. rewrite probe_slot_mod, Z2Nat.id, Zplus_mod_idemp_r by lia.
  replace (start + (Z.of_nat s - start)) with (Z.of_nat s) by lia. apply Z.mod_small. lia.
Qed.

Lemma slot_entry i : exists e, entries w m !! probe_slot i = Some e.
Proof.
  destruct Hw as [_ Hl]. destruct (entries w m !! probe_slot i) eqn:E; [eauto|].
  apply lookup_ge_None in E. pose proof (probe_slot_lt i). lia.
Qed.

Lemma run_probe i :
  run (ReserveEntry_probe m start id (Z.of_nat sz) i None) w =
    match entries w m !! probe_slot i with
    | Some e => if thread_id e =? 0
                then (Done (Some (probe_slot i)),
                      write_entries m (<[probe_slot i := set_thread_id id e]> (entries w m)) w)
                else (Done None, w)
    | None => (Faulted "access to a missing epoch table entry", w)
    end.
Proof.
  unfold ReserveEntry_probe. cbv zeta. fold (probe_slot i).
  destruct (slot_entry i) as [e He]. rewrite He. simpl. rewrite He. simpl.
  destruct (thread_id e =? 0) eqn:E; simpl; [|done]. rewrite He, E. simpl. done.
Qed.

Lemma run_probe_got l x w' :
  run (for_list l (ReserveEntry_probe m start id (Z.of_nat sz)) (Some x)) w' = (Done (Some x), w').
Proof. induction l as [|i l IH]; [done|]. simpl. apply IH. Qed.

Lemma run_probes l :
  (exists i e, i ∈ l /\ entries w m !! probe_slot i = Some e /\ thread_id e = 0 /\
    run (for_list l (ReserveEntry_probe m start id (Z.of_nat sz)) None) w =
      (Done (Some (probe_slot i)), write_entries m (<[probe_slot i := set_thread_id id e]> (entries w m)) w)) \/
  (run (for_list l (ReserveEntry_probe m start id (Z.of_nat sz)) None) w = (Done None, w) /\
   forall i e, i ∈ l -> entries w m !! probe_slot i = Some e -> thread_id e <> 0).
Proof.
  induction l as [|i l IH].
  { right. split; [done|]. intros i e Hi. by apply elem_of_nil in Hi. }
  cbn [for_list]. rewrite run_bind, run_probe. destruct (slot_entry i) as [e He]. rewrite He.
  destruct (Z.eqb_spec (thread_id e) 0) as [E|E]; cbn [and_then].
  - left. exists i, e. rewrite run_probe_got. split; [by left|]. done.
  - destruct IH as [(j & x & Hj & IH)|[IH1 IH2]].
    + left. exists j, x. split; [by right|]. exact IH.
    + right. split; [done|]. intros j x [->|Hj]%elem_of_cons Hx; [congruence|eauto].
Qed.
End reserve.

(** C22.  Reserving an entry probes every slot of a power-of-two table: it locks a free one in
    a single round when there is one, and spins for ever when the table is full,
    changing nothing. *)
Theorem ReserveEntry_correct m n start id w fuel :
  (n < 64)%nat -> table_wf m (2 ^ n) w ->
  ((exists e, e ∈ entries w m /\ thread_id e = 0) ->
   exists i e, entries w m !! i = Some e /\ thread_id e = 0 /\
     run (ReserveEntry (S fuel) m start id) w =
       (Done i, write_entries m (<[i := set_thread_id id e]> (entries w m)) w)) /\
  ((forall e, e ∈ entries w m -> thread_id e <> 0) ->
   run (ReserveEntry fuel m start id) w = (NoFuel, w)).
Proof.
  intros Hn Hw. pose proof Hw as [Ht Hl].
  assert (forall f, run (ReserveEntry f m start id) w = run (loop f (fun _ : unit =>
    let! got := for_list (seq 0 (2 ^ n)) (ReserveEntry_probe m start id (Z.of_nat (2 ^ n))) None in
    match got with
    | Some i => Ret (inr i)
    | None => ReclaimOldEntries m ;;; Ret (inl tt)
    end) tt) w) as Hrun.
  { intros f. unfold ReserveEntry, deref_table. rewrite run_bind, run_bind, run_rd. simpl.
    rewrite Ht. simpl. by rewrite Nat2Z.id. }
  pose proof (run_probes m n Hn start id w Hw (seq 0 (2 ^ n))) as Hp.
  split.
  - intros (e & [s Hs]%list_elem_of_lookup_1 & He). rewrite Hrun. cbn [loop].
    rewrite run_bind, run_bind. destruct Hp as [(i & x & _ & Hx & Hx0 & ->)|[_ Hno]].
    + eauto.
    + destruct (probe_slot_surj n Hn start s) as (i & Hi & Hsi);
        [rewrite <- Hl; by eapply lookup_lt_Some|].
      destruct (Hno i e); [apply elem_of_seq; lia|by rewrite Hsi|done].
  - intros Hall. rewrite Hrun. clear Hrun. destruct Hp as [(i & x & _ & Hx & Hx0 & _)|[Hp _]].
    + destruct (Hall x); [by eapply list_elem_of_lookup_2|done].
    + induction fuel as [|f IH]; [done|]. cbn [loop]. rewrite run_bind, run_bind, Hp. simpl. apply IH.
Qed.

Example ReserveEntry_correct_witness :
  let w := initialized 100 (MkEpochWorld ∅ (MkThreads ∅ ∅)) in
  exists i e, entries w 100 !! i = Some e /\ thread_id e = 0 /\
    run (ReserveEntry 1 100 77 5) w =
      (Done i, write_entries 100 (<[i := set_thread_id 5 e]> (entries w 100)) w).
Proof.
  intros w. apply (ReserveEntry_correct 100 7 77 5 w 0).
  - lia.
  - split; reflexivity.
  - exists Entry_new. split; [|done]. apply (list_elem_of_lookup_2 _ 0). reflexivity.
Defined.

(** ** One thread, one manager: the effect of each operation *)

Lemma write_entries_twice m l l' w :
  is_Some (epoch_table_ (mgr w m)) ->
  write_entries m l' (write_entries m l w) = write_entries m l' w.
Proof.
  intros [t Ht]. unfold write_entries. rewrite mgr_set_mgr. unfold set_mgr; simpl.
  rewrite insert_insert_eq. do 2 f_equal. unfold set_entries. by rewrite Ht.
Qed.

Lemma run_entry_rmw {X} m i (f : Entry -> X * Entry) w e :
  entries w m !! i = Some e ->
  run (entry_rmw m i f) w =
    (Done (f e).1, write_entries m (<[i := (f e).2]> (entries w m)) w).
Proof.
  intros He. unfold entry_rmw. rewrite run_bind. simpl. rewrite He.
  by destruct (f e).
Qed.

Section sequential.
Context (me : Z) (fuel : nat) (m : Z) (sz i : nat).

(** Thread [me] holds entry [i] of [m] in world [w], with contents [e]. *)
Definition holds (e : Entry) (w : EpochWorld) : Prop :=
  table_wf m sz w /\ entries w m !! i = Some e /\ thread_id e = me /\
  tls_get (threads w) (me, tls_entry) = tls_ptr_entry m i.

Definition put_entry (e : Entry) (w : EpochWorld) : EpochWorld :=
  write_entries m (<[i := e]> (entries w m)) w.

Lemma put_entry_holds e e' w :
  holds e w -> thread_id e' = me ->
  holds e' (put_entry e' w) /\ cur m (put_entry e' w) = cur m w /\
  forall e'', put_entry e'' (put_entry e' w) = put_entry e'' w.
Proof.
  intros ([Ht Hl] & He & Hid & Htls) Hid'.
  destruct (write_entries_spec m sz (<[i := e']> (entries w m)) w) as (Ew & Hw & Hc & _);
    [done|by rewrite length_insert|]. unfold put_entry. split_and!.
  - split; [done|]. rewrite Ew. split; [|done].
    apply list_lookup_insert_eq. by eapply lookup_lt_Some.
  - done.
  - intros e''. rewrite Ew, list_insert_insert_eq. apply write_entries_twice. by rewrite Ht.
Qed.

Lemma run_entry_store f e w :
  holds e w -> run (entry_store m i f) w = (Done tt, put_entry (f e) w).
Proof. intros (_ & He & _). unfold entry_store. by rewrite (run_entry_rmw _ _ _ _ e He). Qed.

Lemma run_GetEntry {A} (k : Z * nat -> prog EpochWorld A) e w :
  holds e w -> run (bind (GetEntryForThread me fuel m) k) w = run (k (m, i)) w.
Proof.
  intros (_ & _ & _ & Ht). apply run_bind_done. unfold GetEntryForThread.
  rewrite run_bind, run_rd. cbn [and_then]. by rewrite Ht.
Qed.

Lemma run_deref_table {A} (k : MinEpochTable -> prog EpochWorld A) e w :
  holds e w ->
  run (bind (deref_table m) k) w = run (k (MkTable (Some (entries w m)) (Z.of_nat sz))) w.
Proof.
  intros ([Ht _] & _). apply run_bind_done. unfold deref_table.
  rewrite run_bind, run_rd. cbn [and_then]. by rewrite Ht.
Qed.

Lemma run_Protect e w :
  holds e w -> run (Protect me fuel m) w = (Done Status_OK, put_entry (MkEntry (cur m w) 0 me) w).
Proof.
  intros Hh. unfold Protect. rewrite run_bind, run_rd. cbn [and_then].
  rewrite (run_deref_table _ e) by done. unfold MinEpochTable_Protect.
  rewrite (run_GetEntry _ e) by done. rewrite run_bind, (run_entry_store _ e) by done. cbn [and_then].
  assert (thread_id e = me) as Hid by apply Hh.
  destruct (put_entry_holds e (set_last_unprotected_epoch 0 e) w Hh Hid) as (Hh' & _ & Hpp).
  rewrite run_bind, (run_entry_store _ _ _ Hh'), Hpp. cbn [and_then run]. unfold cur.
  by rewrite <- Hid.
Qed.

Lemma run_Unprotect e w :
  holds e w -> run (Unprotect me fuel m) w = (Done Status_OK, put_entry (MkEntry 0 (cur m w) me) w).
Proof.
  intros Hh. unfold Unprotect. rewrite run_bind, run_rd. cbn [and_then].
  rewrite (run_deref_table _ e) by done. unfold MinEpochTable_Unprotect.
  rewrite (run_GetEntry _ e) by done. assert (thread_id e = me) as Hid by apply Hh.
  unfold entry_load. rewrite !run_bind, run_rd. cbn [and_then].
  replace (entries w m !! i) with (Some e) by (symmetry; apply Hh). cbn [option_map and_then run].
  rewrite Hid, Z.eqb_refl. cbn [check bind]. rewrite run_bind, (run_entry_store _ e) by done. cbn [and_then].
  destruct (put_entry_holds e (set_last_unprotected_epoch (current_epoch_ (mgr w m)) e) w Hh Hid)
    as (Hh' & _ & Hpp).
  rewrite run_bind, (run_entry_store _ _ _ Hh'), Hpp. cbn [and_then run]. unfold cur. by rewrite <- Hid.
Qed.

(** The entry answers for whichever manager is asked, since the TLS pointer is shared. *)
Lemma run_IsProtected_via m' sz' e w :
  holds e w -> table_wf m' sz' w -> run (IsProtected me fuel m') w = (Done (negb (protected_epoch e =? 0)), w).
Proof.
  intros (_ & He & _ & Ht) [Hw _]. unfold IsProtected.
  assert (forall A (k : MinEpochTable -> prog EpochWorld A), run (bind (deref_table m') k) w
    = run (k (MkTable (Some (entries w m')) (Z.of_nat sz'))) w) as Hd.
  { intros A k. apply run_bind_done. unfold deref_table. rewrite run_bind, run_rd. cbn [and_then]. by rewrite Hw. }
  rewrite Hd. unfold MinEpochTable_IsProtected.
  assert (run (GetEntryForThread me fuel m') w = (Done (m, i), w)) as Hg.
  { unfold GetEntryForThread. rewrite run_bind, run_rd. cbn [and_then]. by rewrite Ht. }
  rewrite run_bind, Hg. cbn [and_then]. unfold entry_load. rewrite !run_bind, run_rd. cbn [and_then].
  by rewrite He.
Qed.

Lemma run_IsProtected e w :
  holds e w -> run (IsProtected me fuel m) w = (Done (negb (protected_epoch e =? 0)), w).
Proof. intros Hh. apply (run_IsProtected_via m sz); [done|apply Hh]. Qed.
End sequential.

(** Alone, a bump advances the epoch and stores some safe epoch, nothing else. *)
Lemma run_scan m sz w l o :
  table_wf m sz w -> (forall i, i ∈ l -> (i < sz)%nat) ->
  exists o', run (for_list l (fun i oldest_call =>
    let! entryEpoch := entry_load m i protected_epoch in
    Ret (if negb (entryEpoch =? 0) && (entryEpoch <? oldest_call) then entryEpoch else oldest_call)) o) w
    = (Done o', w).
Proof.
  intros [Ht Hl]. revert o. induction l as [|i l IH]; intros o Hin; [by exists o|].
  cbn [for_list]. unfold entry_load. setoid_rewrite run_bind. rewrite !run_bind, run_rd. cbn [and_then].
  destruct (entries w m !! i) as [e|] eqn:E.
  - cbn [option_map and_then run bind]. apply IH. intros j Hj. apply Hin. by right.
  - apply lookup_ge_None in E. specialize (Hin i ltac:(by left)). lia.
Qed.

Lemma run_BumpCurrentEpoch m sz w :
  table_wf m sz w ->
  exists s, let w' := set_mgr m (set_safe s (set_current (u64 (cur m w + 1)) (mgr w m))) w in
    run (BumpCurrentEpoch m) w = (Done tt, w') /\ table_wf m sz w'.
Proof.
  intros Hw. pose proof Hw as [Ht Hl].
  set (w1 := set_mgr m (set_current (u64 (cur m w + 1)) (mgr w m)) w).
  assert (table_wf m sz w1) as Hw1.
  { assert (entries w1 m = entries w m) as He by (unfold entries, w1; by rewrite mgr_set_mgr).
    unfold table_wf. rewrite He. unfold w1. rewrite mgr_set_mgr. done. }
  destruct (run_scan m sz w1 (seq 0 sz) (cur m w) Hw1) as [o Ho].
  { intros i Hi. apply elem_of_seq in Hi. lia. }
  exists (u64 (o - 1)). cbv zeta.
  unfold BumpCurrentEpoch, ComputeNewSafeToReclaimEpoch, MinEpochTable_ComputeNewSafeToReclaimEpoch,
    deref_table. rewrite run_bind. cbn [act run]. fold (cur m w). fold w1. cbn [and_then].
  rewrite !run_bind, run_rd. destruct Hw1 as [Ht1 Hl1]. rewrite Ht1. cbn [and_then run table_size_].
  rewrite Nat2Z.id, run_bind, Ho. cbn [and_then run upd act].
  assert (set_mgr m (set_safe (u64 (o - 1)) (mgr w1 m)) w1 =
          set_mgr m (set_safe (u64 (o - 1)) (set_current (u64 (cur m w + 1)) (mgr w m))) w) as E.
  { unfold w1. rewrite mgr_set_mgr. unfold set_mgr; simpl. by rewrite insert_insert_eq. }
  rewrite E. split; [done|].
  assert (forall x y, entries (set_mgr m (set_safe x (set_current y (mgr w m))) w) m = entries w m) as He
    by (intros x y; unfold entries; by rewrite mgr_set_mgr).
  unfold table_wf. rewrite He, mgr_set_mgr. done.
Qed.

(** C23.  For a thread that holds an entry: Protect publishes the current epoch, IsProtected
    then answers true, Unprotect clears the entry and records the epoch, and the guard
    classes do exactly this bracketing, attach and release included. *)
Theorem Protect_Unprotect_correct me fuel m sz i e w :
  holds me m sz i e w -> cur m w <> 0 ->
  let w1 := put_entry m i (MkEntry (cur m w) 0 me) w in
  let w2 := put_entry m i (MkEntry 0 (cur m w) me) w in
  run (Protect me fuel m) w = (Done Status_OK, w1) /\
  run (IsProtected me fuel m) w1 = (Done true, w1) /\
  run (Unprotect me fuel m) w1 = (Done Status_OK, w2) /\
  run (IsProtected me fuel m) w2 = (Done false, w2) /\
  run (let! g := EpochGuard_new me fuel m in EpochGuard_delete me fuel g) w = (Done tt, w2) /\
  run (let! g := EpochGuard_attach me fuel m false in EpochGuard_delete me fuel g) w1 = (Done tt, w1) /\
  run (let! g := EpochGuard_new me fuel m in
       EpochGuard_delete me fuel (EpochGuard_Release g).2) w = (Done tt, w1).
Proof.
  intros Hh Hc w1 w2.
  destruct (put_entry_holds me m sz i e (MkEntry (cur m w) 0 me) w Hh eq_refl) as (H1 & Hc1 & Hp1).
  destruct (put_entry_holds me m sz i e (MkEntry 0 (cur m w) me) w Hh eq_refl) as (H2 & _ & _).
  pose proof (run_Protect me fuel m sz i e w Hh) as R1.
  pose proof (run_Unprotect me fuel m sz i _ w1 H1) as R2. fold w1 in Hc1, Hp1, H1. rewrite Hc1, Hp1 in R2.
  split_and!; [done| |done| | | |].
  - rewrite (run_IsProtected me fuel m sz i _ w1 H1). simpl. by rewrite (proj2 (Z.eqb_neq _ _) Hc).
  - by rewrite (run_IsProtected me fuel m sz i _ w2 H2).
  - unfold EpochGuard_new, EpochGuard_delete. rewrite !run_bind, R1. cbn [and_then run epoch_manager_ unprotect_at_exit_].
    fold w1. by rewrite run_bind, R2.
  - done.
  - unfold EpochGuard_new. rewrite !run_bind, R1. done.
Qed.

Example Protect_Unprotect_correct_witness :
  let w := (run (Unprotect 5 1 100) (initialized 100 (MkEpochWorld ∅ (MkThreads ∅ ∅)))).2 in
  run (Protect 5 1 100) w = (Done Status_OK, put_entry 100 117 (MkEntry 1 0 5) w).
Proof.
  intros w. apply (Protect_Unprotect_correct 5 1 100 128 117 (MkEntry 0 1 5) w).
  - repeat split.
  - by vm_compute.
Defined.

(** C24.  The TLS pointer to a table entry is shared by all managers: a thread that used one
    manager and then protects itself through another is reported protected while the
    second manager, whose table stays empty, lets the current epoch be reclaimed. *)
Theorem shared_tls_defeats_second_manager :
  let w0 := initialized 200 (initialized 100 (MkEpochWorld ∅ (MkThreads ∅ ∅))) in
  let scenario :=
    Protect 5 1 100 ;;;          (* thread 5 enters a region of manager 100 ... *)
    Unprotect 5 1 100 ;;;        (* ... and leaves it *)
    Protect 5 1 200 ;;;          (* then it enters a region of manager 200 *)
    let! e := GetCurrentEpoch 200 in
    BumpCurrentEpoch 200 ;;;     (* another thread retires garbage of epoch [e] *)
    BumpCurrentEpoch 200 ;;;
    let! protected := IsProtected 5 1 200 in
    let! reclaimable := IsSafeToReclaim 200 e in
    Ret (protected, reclaimable) in
  (run scenario w0).1 = Done (true, true) /\
  Forall (fun e => protected_epoch e = 0) (entries (run scenario w0).2 200).
Proof. split; [by vm_compute|]. apply (bool_decide_unpack _). by vm_compute. Qed.
