(* ===== verification/Garbage.v ===== *)
(** * Garbage lists (src/common/garbage_list.h, garbage_list_unsafe.h)

    A ring of removed items, each stamped with the epoch of its removal.  Pushing
    an item reuses the next slot whose occupant, if any, is safe to reclaim, and
    calls the occupant's destroy callback.  [GarbageListUnsafe] is for one thread;
    [GarbageList] locks a slot by writing [invalid_epoch] with a compare-and-swap.

    The lists live in a world with the epoch managers and the state [C] of the
    client whose objects they destroy; a callback is a number, and [call] says
    what invoking it does. *)
From Stdlib Require Import ZArith Lia.
From stdpp Require Import base list gmap strings.
From S2P Require Import Prelude Bytes Prog Status Library Epoch.
#[local] Open Scope Z_scope.
#[local] Open Scope machine_scope.
#[local] Open Scope prog_scope.

(** ** State *)

(** Null pointers are 0. *)
Record Item := MkItem {
  removal_epoch : Z;
  destroy_callback : Z;
  destroy_callback_context : Z;
  removed_item : Z
}.

Definition Item_new : Item := MkItem 0 0 0 0.

Definition set_removal_epoch (x : Z) (it : Item) : Item :=
  MkItem x (destroy_callback it) (destroy_callback_context it) (removed_item it).
Definition set_destroy_callback (x : Z) (it : Item) : Item :=
  MkItem (removal_epoch it) x (destroy_callback_context it) (removed_item it).
Definition set_destroy_callback_context (x : Z) (it : Item) : Item :=
  MkItem (removal_epoch it) (destroy_callback it) x (removed_item it).
Definition set_removed_item (x : Z) (it : Item) : Item :=
  MkItem (removal_epoch it) (destroy_callback it) (destroy_callback_context it) x.

(** Both classes have the same fields. *)
Record GarbageList := MkGarbageList {
  gl_epoch_manager_ : option Z;
  tail_ : Z;
  item_count_ : Z;
  items_ : list Item
}.

Definition GarbageList_new : GarbageList := MkGarbageList None 0 0 [].

Definition set_tail (x : Z) (g : GarbageList) : GarbageList :=
  MkGarbageList (gl_epoch_manager_ g) x (item_count_ g) (items_ g).
Definition set_items (x : list Item) (g : GarbageList) : GarbageList :=
  MkGarbageList (gl_epoch_manager_ g) (tail_ g) (item_count_ g) x.

(** [~0llu]. *)
Definition invalid_epoch : Z := 2 ^ 64 - 1.

Section world.
Context {C : Type}.

Record GarbageWorld := MkGW { lists : gmap Z GarbageList; epochs : EpochWorld; client : C }.

Definition glist (w : GarbageWorld) (g : Z) : GarbageList := default GarbageList_new (lists w !! g).
Definition set_glist (g : Z) (x : GarbageList) (w : GarbageWorld) : GarbageWorld :=
  MkGW (<[g := x]> (lists w)) (epochs w) (client w).
Definition set_epochs (x : EpochWorld) (w : GarbageWorld) : GarbageWorld :=
  MkGW (lists w) x (client w).
Definition set_client (x : C) (w : GarbageWorld) : GarbageWorld :=
  MkGW (lists w) (epochs w) x.

#[export] Instance epochs_lens : Lens EpochWorld GarbageWorld.
Proof. by refine {| get := epochs; put := set_epochs |}; intros; destruct t. Defined.
#[export] Instance client_lens : Lens C GarbageWorld.
Proof. by refine {| get := client; put := set_client |}; intros; destruct t. Defined.

(** ** Accesses *)

Definition gl_read {X} (g : Z) (f : GarbageList -> X) : prog GarbageWorld X :=
  rd (fun w => f (glist w g)).
Definition gl_write (g : Z) (f : GarbageList -> GarbageList) : prog GarbageWorld unit :=
  upd (fun w => set_glist g (f (glist w g)) w).

(** [items_[slot]]. *)
Definition item_rmw {X} (g : Z) (slot : nat) (f : Item -> X * Item) : prog GarbageWorld X :=
  let! r := act (fun w =>
    match items_ (glist w g) !! slot with
    | Some it => let (x, it') := f it in
                 (Some x, set_glist g (set_items (<[slot := it']> (items_ (glist w g))) (glist w g)) w)
    | None => (None, w)
    end) in
  match r with Some x => Ret x | None => Fault "items_ index out of range" end.

Definition item_load {X} (g : Z) (slot : nat) (f : Item -> X) : prog GarbageWorld X :=
  let! r := rd (fun w => option_map f (items_ (glist w g) !! slot)) in
  match r with Some x => Ret x | None => Fault "items_ index out of range" end.

Definition item_store (g : Z) (slot : nat) (f : Item -> Item) : prog GarbageWorld unit :=
  item_rmw g slot (fun it => (tt, f it)).

(** [CompareExchange64(&item.removal_epoch, desired, expected)] returns the old value. *)
Definition item_cas (g : Z) (slot : nat) (desired expected : Z) : prog GarbageWorld Z :=
  item_rmw g slot (fun it =>
    (removal_epoch it, if removal_epoch it =? expected then set_removal_epoch desired it else it)).

Definition gl_epoch (g : Z) : prog GarbageWorld Z :=
  let! m := gl_read g gl_epoch_manager_ in
  match m with Some m => Ret m | None => Fault "null epoch_manager_" end.

(** ** Operations *)

Section operations.
Context (call : Z -> Z -> Z -> prog C unit) (fuel : nat).

(** [item.destroy_callback(item.destroy_callback_context, item.removed_item)] *)
Definition destroy_item (g : Z) (slot : nat) : prog GarbageWorld unit :=
  let! it := item_load g slot (fun it => it) in
  zoom (call (destroy_callback it) (destroy_callback_context it) (removed_item it)).

(** The two classes share the text of [Initialize] and [Uninitialize]. *)
Definition GarbageList_Initialize (g : Z) (epoch_manager : option Z) (item_count : Z)
    : prog GarbageWorld Status :=
  act (fun w =>
    let invalid msg := default (Status_code kInvalidArgument)
      (Status_msg kInvalidArgument (Slice_of_cstr (lit msg)) Slice_default) in
    match gl_epoch_manager_ (glist w g) with
    | Some _ => (Status_OK, w)
    | None =>
        match epoch_manager with
        | None => (invalid "Null pointer", w)
        | Some m =>
            if (item_count =? 0) || negb (IS_POWER_OF_TWO item_count)
            then (invalid "items not a power of two", w)
            else (Status_OK, set_glist g
                    (MkGarbageList (Some m) 0 item_count (replicate (Z.to_nat item_count) Item_new)) w)
        end
    end).

Definition GarbageList_Uninitialize (g : Z) : prog GarbageWorld Status :=
  let! m := gl_read g gl_epoch_manager_ in
  match m with
  | None => Ret Status_OK
  | Some _ =>
      let! n := gl_read g item_count_ in
      for_list (seq 0 (Z.to_nat n)) (fun i (_ : unit) =>
        let! removed := item_load g i removed_item in
        if removed =? 0 then Ret tt
        else destroy_item g i ;;;
             item_store g i (set_removed_item 0) ;;;
             item_store g i (set_removal_epoch 0)) tt ;;;
      gl_write g (fun _ => GarbageList_new) ;;;
      Ret Status_OK
  end.

Definition GarbageListUnsafe_Initialize := GarbageList_Initialize.
Definition GarbageListUnsafe_Uninitialize := GarbageList_Uninitialize.

(** Storing the new item once the slot is ours. *)
Definition populate (g : Z) (slot : nat) (removed callback context epoch : Z) : prog GarbageWorld unit :=
  item_store g slot (set_destroy_callback callback) ;;;
  item_store g slot (set_destroy_callback_context context) ;;;
  item_store g slot (set_removed_item removed) ;;;
  item_store g slot (set_removal_epoch epoch).

(** Freeing the occupant of a locked slot; [false] when it is not yet safe, after
    the mangled epoch has been put back. *)
Definition reclaim (g : Z) (m : Z) (slot : nat) (priorItemEpoch : Z) : prog GarbageWorld bool :=
  if priorItemEpoch =? 0 then Ret true
  else let! safe := zoom (IsSafeToReclaim m priorItemEpoch) in
       if safe then destroy_item g slot ;;; Ret true
       else item_store g slot (set_removal_epoch priorItemEpoch) ;;; Ret false.

(** Everytime we work through 25% of the capacity, roll the epoch over. *)
Definition roll_over (m slot item_count : Z) : prog GarbageWorld unit :=
  if (slot .<< 2) .& (u64 (item_count - 1)) =? 0 then zoom (BumpCurrentEpoch m) else Ret tt.

(** One round of the [for(;;)] of each [Push]: [inl] for [continue]. *)
Definition GarbageListUnsafe_try (g m removal removed callback context : Z)
    : prog GarbageWorld (unit + Status) :=
  let! t := act (fun w => let t := tail_ (glist w g) in
                          (t, set_glist g (set_tail (signed 64 (t + 1)) (glist w g)) w)) in
  let! n := gl_read g item_count_ in
  let slot := u64 t .& u64 (n - 1) in
  roll_over m slot n ;;;
  let! prior := item_load g (Z.to_nat slot) removal_epoch in
  check (negb (prior =? invalid_epoch)) "invalid priorItemEpoch" ;;;
  item_store g (Z.to_nat slot) (set_removal_epoch invalid_epoch) ;;;
  let! ok := reclaim g m (Z.to_nat slot) prior in
  if ok then populate g (Z.to_nat slot) removed callback context removal ;;; Ret (inr Status_OK)
  else Ret (inl tt).

Definition GarbageListUnsafe_Push (g removed callback context : Z) : prog GarbageWorld Status :=
  let! m := gl_epoch g in
  let! removal := zoom (GetCurrentEpoch m) in
  loop fuel (fun _ : unit => GarbageListUnsafe_try g m removal removed callback context) tt.

Definition GarbageList_try (g m removal removed callback context : Z)
    : prog GarbageWorld (unit + Status) :=
  let! t := act (fun w => let t := tail_ (glist w g) in
                          (t, set_glist g (set_tail (signed 64 (t + 1)) (glist w g)) w)) in
  let! n := gl_read g item_count_ in
  let slot := u64 (t - 1) .& u64 (n - 1) in
  roll_over m slot n ;;;
  let! prior := item_load g (Z.to_nat slot) removal_epoch in
  if prior =? invalid_epoch then Ret (inl tt)
  else
    let! result := item_cas g (Z.to_nat slot) invalid_epoch prior in
    if negb (result =? prior) then Ret (inl tt)
    else
      let! ok := reclaim g m (Z.to_nat slot) prior in
      if ok then populate g (Z.to_nat slot) removed callback context removal ;;; Ret (inr Status_OK)
      else Ret (inl tt).

Definition GarbageList_Push (g removed callback context : Z) : prog GarbageWorld Status :=
  let! m := gl_epoch g in
  let! removal := zoom (GetCurrentEpoch m) in
  loop fuel (fun _ : unit => GarbageList_try g m removal removed callback context) tt.

(** Clearing a locked slot whose occupant has been destroyed. *)
Definition reset_item (g : Z) (slot : nat) : prog GarbageWorld unit :=
  populate g slot 0 0 0 0.

(** One slot of the scan of [Scavenge]; only the unsafe class counts. *)
(** The counter is an [int32_t]. *)
Definition GarbageListUnsafe_Scavenge_slot (g m : Z) (slot : nat) (scavenged : Z) : prog GarbageWorld Z :=
  let! prior := item_load g slot removal_epoch in
  if (prior =? 0) || (prior =? invalid_epoch) then Ret scavenged
  else
    item_store g slot (set_removal_epoch invalid_epoch) ;;;
    let! ok := reclaim g m slot prior in
    if ok then reset_item g slot ;;; Ret (signed 32 (scavenged + 1)) else Ret scavenged.

Definition GarbageListUnsafe_Scavenge (g : Z) : prog GarbageWorld Z :=
  let! m := gl_epoch g in
  let! n := gl_read g item_count_ in
  for_list (seq 0 (Z.to_nat n)) (GarbageListUnsafe_Scavenge_slot g m) 0.

Definition GarbageList_Scavenge_slot (g m : Z) (slot : nat) (scavenged : Z) : prog GarbageWorld Z :=
  let! prior := item_load g slot removal_epoch in
  if (prior =? 0) || (prior =? invalid_epoch) then Ret scavenged
  else
    let! result := item_cas g slot invalid_epoch prior in
    if negb (result =? prior) then Ret scavenged
    else
      let! ok := reclaim g m slot prior in
      if ok then reset_item g slot ;;; Ret scavenged else Ret scavenged.

Definition GarbageList_Scavenge (g : Z) : prog GarbageWorld Z :=
  let! m := gl_epoch g in
  let! n := gl_read g item_count_ in
  for_list (seq 0 (Z.to_nat n)) (GarbageList_Scavenge_slot g m) 0.

Definition GarbageList_GetEpoch (g : Z) : prog GarbageWorld (option Z) := gl_read g gl_epoch_manager_.
End operations.
End world.

Arguments GarbageWorld C : clear implicits.

(** ** Sequential behaviour *)

Section spec.
Context {C : Type} (call : Z -> Z -> Z -> prog C unit) (callf : Z -> Z -> Z -> C -> C).
(** The callback of an occupant returns, on client state [c]. *)
Definition call_runs (it : Item) (c : C) : Prop :=
  run (call (destroy_callback it) (destroy_callback_context it) (removed_item it)) c =
    (Done tt, callf (destroy_callback it) (destroy_callback_context it) (removed_item it) c).
Context (L : gmap Z GarbageList) (g m : Z).

(** A world whose list [g] is [G]. *)
Definition W (G : GarbageList) (e : EpochWorld) (c : C) : GarbageWorld C := MkGW (<[g := G]> L) e c.

Lemma W_intro (w : GarbageWorld C) G :
  lists w !! g = Some G -> L = lists w -> w = W G (epochs w) (client w).
Proof.
  intros H HL. unfold W. rewrite HL, insert_id by done. by destruct w.
Qed.

Lemma glist_W G e c : glist (W G e c) g = G.
Proof. unfold glist, W; simpl. by rewrite lookup_insert_eq. Qed.

Lemma set_glist_W G G' e c : set_glist g G' (W G e c) = W G' e c.
Proof. unfold set_glist, W; simpl. by rewrite insert_insert_eq. Qed.

Lemma run_gl_read {X} (f : GarbageList -> X) G e c : run (gl_read g f) (W G e c) = (Done (f G), W G e c).
Proof. unfold gl_read. by rewrite run_rd, glist_W. Qed.

Lemma run_item_load {X} s (f : Item -> X) G e c it :
  items_ G !! s = Some it -> run (item_load g s f) (W G e c) = (Done (f it), W G e c).
Proof. intros H. unfold item_load. rewrite run_bind, run_rd, glist_W, H. done. Qed.

Lemma run_item_rmw {X} s (f : Item -> X * Item) G e c it :
  items_ G !! s = Some it ->
  run (item_rmw g s f) (W G e c) = (Done (f it).1, W (set_items (<[s := (f it).2]> (items_ G)) G) e c).
Proof.
  intros H. unfold item_rmw. rewrite run_bind. simpl. rewrite glist_W, H.
  destruct (f it) as [x it']. simpl. by rewrite set_glist_W.
Qed.

Lemma run_item_store s f G e c it :
  items_ G !! s = Some it ->
  run (item_store g s f) (W G e c) = (Done tt, W (set_items (<[s := f it]> (items_ G)) G) e c).
Proof. intros H. unfold item_store. by rewrite (run_item_rmw _ _ _ _ _ it). Qed.

Lemma run_zoom_epochs {A} (p : prog EpochWorld A) G e c :
  run (zoom p) (W G e c) = ((run p e).1, W G (run p e).2 c).
Proof. by rewrite run_zoom. Qed.

Lemma run_destroy s G e c it :
  items_ G !! s = Some it -> call_runs it c ->
  run (destroy_item call g s) (W G e c) =
    (Done tt, W G e (callf (destroy_callback it) (destroy_callback_context it) (removed_item it) c)).
Proof.
  intros H Hc. unfold destroy_item. rewrite run_bind, (run_item_load _ _ _ _ _ it) by done. cbn [and_then].
  rewrite run_zoom. change (get (W G e c)) with c. by rewrite Hc.
Qed.

Lemma lookup_set_items s it G :
  (s < length (items_ G))%nat -> items_ (set_items (<[s := it]> (items_ G)) G) !! s = Some it.
Proof. apply list_lookup_insert_eq. Qed.

Lemma set_items_twice s it it' G :
  set_items (<[s := it']> (items_ (set_items (<[s := it]> (items_ G)) G))) (set_items (<[s := it]> (items_ G)) G)
  = set_items (<[s := it']> (items_ G)) G.
Proof. unfold set_items; simpl. by rewrite list_insert_insert_eq. Qed.

Lemma set_items_id s it G : items_ G !! s = Some it -> set_items (<[s := it]> (items_ G)) G = G.
Proof. intros H. unfold set_items. rewrite list_insert_id by done. by destruct G. Qed.

(** Consecutive stores to one slot. *)
Lemma run_item_store_then {A} s f G e c it (k : unit -> prog (GarbageWorld C) A) :
  (s < length (items_ G))%nat ->
  run (bind (item_store g s f) k) (W (set_items (<[s := it]> (items_ G)) G) e c) =
  run (k tt) (W (set_items (<[s := f it]> (items_ G)) G) e c).
Proof.
  intros H. rewrite run_bind, (run_item_store _ _ _ _ _ it) by (by apply lookup_set_items).
  by rewrite set_items_twice.
Qed.

Lemma run_populate s r cb ctx ep G e c it :
  (s < length (items_ G))%nat ->
  run (populate g s r cb ctx ep) (W (set_items (<[s := it]> (items_ G)) G) e c) =
    (Done tt, W (set_items (<[s := MkItem ep cb ctx r]> (items_ G)) G) e c).
Proof.
  intros H. unfold populate. rewrite !run_item_store_then by done.
  rewrite (run_item_store _ _ _ _ _ (MkItem (removal_epoch it) cb ctx r)) by (by apply lookup_set_items).
  by rewrite set_items_twice.
Qed.

Definition safe_of (e : EpochWorld) : Z := safe_to_reclaim_epoch_ (mgr e m).

(** Whether an occupant may be freed, and what freeing does to the client. *)
Definition reclaimable (e : EpochWorld) (it : Item) : bool :=
  (removal_epoch it =? 0) || (removal_epoch it <=? safe_of e).
Definition freed (it : Item) (c : C) : C :=
  if removal_epoch it =? 0 then c
  else callf (destroy_callback it) (destroy_callback_context it) (removed_item it) c.

Lemma run_reclaim s G e c it :
  items_ G !! s = Some it -> (removal_epoch it <> 0 -> call_runs it c) ->
  run (reclaim call g m s (removal_epoch it))
    (W (set_items (<[s := set_removal_epoch invalid_epoch it]> (items_ G)) G) e c) =
  if reclaimable e it
  then (Done true, W (set_items (<[s := set_removal_epoch invalid_epoch it]> (items_ G)) G) e (freed it c))
  else (Done false, W G e c).
Proof.
  intros H Hc. pose proof (lookup_lt_Some _ _ _ H) as Hs. unfold reclaim, reclaimable, freed.
  destruct (Z.eqb_spec (removal_epoch it) 0) as [|E0]; [done|]. rewrite run_bind, run_zoom_epochs.
  cbn [run IsSafeToReclaim rd act and_then fst snd]. fold (safe_of e). cbn [orb].
  destruct (removal_epoch it <=? safe_of e).
  - rewrite run_bind, (run_destroy _ _ _ _ (set_removal_epoch invalid_epoch it)); [done| |by apply Hc].
    by apply lookup_set_items.
  - rewrite run_item_store_then by done. cbn [run]. do 3 f_equal.
    by apply set_items_id; rewrite H; destruct it.
Qed.

(** The list is in service: a power-of-two ring, no slot locked, its epoch manager live. *)
Definition ring_wf (k sz : nat) (G : GarbageList) (e : EpochWorld) : Prop :=
  gl_epoch_manager_ G = Some m /\ (k < 62)%nat /\ item_count_ G = 2 ^ Z.of_nat k /\
  length (items_ G) = (2 ^ k)%nat /\
  (forall s it, items_ G !! s = Some it -> removal_epoch it <> invalid_epoch) /\
  table_wf m sz e.

Lemma run_gl_epoch k sz G e c :
  ring_wf k sz G e -> run (gl_epoch g) (W G e c) = (Done m, W G e c).
Proof. intros (H & _). unfold gl_epoch. rewrite run_bind, run_gl_read. cbn [and_then]. by rewrite H. Qed.

(** [x & (2^k - 1)], on the signed tail. *)
Lemma slot_mod k x : (k < 62)%nat -> u64 x .& u64 (2 ^ Z.of_nat k - 1) = x mod 2 ^ Z.of_nat k.
Proof.
  intros Hk. pose proof (Z.pow_pos_nonneg 2 (Z.of_nat k) ltac:(lia) ltac:(lia)).
  assert (2 ^ Z.of_nat k < 2 ^ 64) by (apply Z.pow_lt_mono_r; lia).
  rewrite (u64_id (2 ^ Z.of_nat k - 1)) by (unfold fits; lia).
  replace (2 ^ Z.of_nat k - 1) with (Z.ones (Z.of_nat k)) by (rewrite Z.ones_equiv; lia).
  rewrite Z.land_ones by lia. unfold u64. symmetry. apply Znumtheory.Zmod_div_mod; [lia|lia|].
  exists (2 ^ (64 - Z.of_nat k)). rewrite <- Z.pow_add_r by lia. f_equal. lia.
Qed.

Lemma signed_mod k z : (k < 62)%nat -> signed 64 z mod 2 ^ Z.of_nat k = z mod 2 ^ Z.of_nat k.
Proof.
  intros Hk. unfold signed.
  assert (z mod 2 ^ 64 mod 2 ^ Z.of_nat k = z mod 2 ^ Z.of_nat k) as E.
  { symmetry. apply Znumtheory.Zmod_div_mod; [lia|lia|].
    exists (2 ^ (64 - Z.of_nat k)). rewrite <- Z.pow_add_r by lia. f_equal. lia. }
  destruct (z mod 2 ^ 64 <? 2 ^ (64 - 1)); [done|].
  replace (2 ^ 64) with (2 ^ (64 - Z.of_nat k) * 2 ^ Z.of_nat k) at 2
    by (rewrite <- Z.pow_add_r by lia; f_equal; lia).
  rewrite <- E. by rewrite Zminus_mod, Z_mod_mult, Z.sub_0_r, Z.mod_mod by lia.
Qed.

(** Pushing may roll the epoch over, once in each round; the protection tables and the
    other managers do not change. *)
Definition rolled_many (sz : nat) (e e' : EpochWorld) : Prop :=
  threads e' = threads e /\ entries e' m = entries e m /\ table_wf m sz e' /\
  (forall o, o <> m -> mgr e' o = mgr e o).
Definition rolled (sz : nat) (e e' : EpochWorld) : Prop :=
  rolled_many sz e e' /\ (cur m e' = cur m e \/ cur m e' = u64 (cur m e + 1)).

Lemma run_roll_over sz slot n e :
  table_wf m sz e ->
  exists e', rolled sz e e' /\ forall G c, run (roll_over m slot n) (W G e c) = (Done tt, W G e' c).
Proof.
  intros He. unfold roll_over. destruct ((slot .<< 2) .& u64 (n - 1) =? 0); [|exists e; split; [split; [done|by left]|done]].
  destruct (run_BumpCurrentEpoch m sz e He) as (s & Hr & Ht).
  eexists. split; [|intros G c; by rewrite run_zoom_epochs, Hr].
  split; [split; [done|]; split; [|split; [exact Ht|]]|].
  - unfold entries. cbn [snd]. by rewrite mgr_set_mgr.
  - intros o Ho. cbn [snd]. by apply mgr_set_mgr_ne.
  - right. unfold cur. cbn [snd]. by rewrite mgr_set_mgr.
Qed.

(** The slot the [t]-th push tries, in either class. *)
Definition slot_at (k : nat) (d t : Z) : nat := Z.to_nat ((t - d) mod 2 ^ Z.of_nat k).

Lemma slot_at_lt k d t : (slot_at k d t < 2 ^ k)%nat.
Proof.
  unfold slot_at. pose proof (Z.mod_pos_bound (t - d) (2 ^ Z.of_nat k) ltac:(lia)).
  apply Nat2Z.inj_lt. rewrite Nat2Z.inj_pow, Z2Nat.id by lia. simpl. lia.
Qed.

(** One round of the [for(;;)] of [Push]: the next slot is taken, with its occupant
    freed, when that is allowed; otherwise only the tail and the epoch move. *)
Definition push_round (k sz : nat) (d removal : Z) (new : Item)
    (body : unit -> prog (GarbageWorld C) (unit + Status)) : Prop :=
  forall G e it, ring_wf k sz G e -> items_ G !! slot_at k d (tail_ G) = Some it ->
  let G1 := set_tail (signed 64 (tail_ G + 1)) G in
  exists e', rolled sz e e' /\ forall c, (removal_epoch it <> 0 -> call_runs it c) ->
    run (body tt) (W G e c) =
    if reclaimable e' it
    then (Done (inr Status_OK), W (set_items (<[slot_at k d (tail_ G) := new]> (items_ G)) G1) e' (freed it c))
    else (Done (inl tt), W G1 e' c).

Lemma tail_rmw G e c :
  run (act (fun w => let t := tail_ (glist w g) in
                     (t, set_glist g (set_tail (signed 64 (t + 1)) (glist w g)) w))) (W G e c)
  = (Done (tail_ G), W (set_tail (signed 64 (tail_ G + 1)) G) e c).
Proof. cbn [act run]. by rewrite glist_W, set_glist_W. Qed.

Lemma ring_wf_tail k sz G e t : ring_wf k sz G e -> ring_wf k sz (set_tail t G) e.
Proof. done. Qed.

Lemma unsafe_round k sz removal r cb ctx :
  push_round k sz 0 removal (MkItem removal cb ctx r)
    (fun _ => GarbageListUnsafe_try call g m removal r cb ctx).
Proof.
  intros G e it Hw Hit G1. pose proof Hw as (_ & Hk & Hn & Hlen & Hinv & Ht).
  pose proof (lookup_lt_Some _ _ _ Hit) as Hs.
  destruct (run_roll_over sz ((tail_ G - 0) mod 2 ^ Z.of_nat k) (2 ^ Z.of_nat k) e Ht) as (e' & Ht' & Hr).
  exists e'. split; [done|]. intros c Hc.
  unfold GarbageListUnsafe_try, GarbageList_try.
  rewrite run_bind, tail_rmw. cbn [and_then]. fold G1. rewrite run_bind, run_gl_read. cbn [and_then].
  change (item_count_ G1) with (item_count_ G). rewrite Hn, slot_mod by done.
  replace (tail_ G mod 2 ^ Z.of_nat k) with ((tail_ G - 0) mod 2 ^ Z.of_nat k) by (f_equal; lia).
  rewrite run_bind, Hr. cbn [and_then]. fold (slot_at k 0 (tail_ G)).
  rewrite run_bind, (run_item_load _ _ _ _ _ it) by done. cbn [and_then].
  replace (removal_epoch it =? invalid_epoch) with false
    by (symmetry; apply Z.eqb_neq; by eapply Hinv). cbn [negb check bind].
  rewrite run_bind, (run_item_store _ _ _ _ _ it) by done. cbn [and_then].
  rewrite run_bind, run_reclaim by done.
  destruct (reclaimable e' it); cbn [and_then]; [|done].
  by rewrite run_bind, run_populate.
Qed.

Lemma safe_round k sz removal r cb ctx :
  push_round k sz 1 removal (MkItem removal cb ctx r)
    (fun _ => GarbageList_try call g m removal r cb ctx).
Proof.
  intros G e it Hw Hit G1. pose proof Hw as (_ & Hk & Hn & Hlen & Hinv & Ht).
  pose proof (lookup_lt_Some _ _ _ Hit) as Hs.
  destruct (run_roll_over sz ((tail_ G - 1) mod 2 ^ Z.of_nat k) (2 ^ Z.of_nat k) e Ht) as (e' & Ht' & Hr).
  exists e'. split; [done|]. intros c Hc.
  unfold GarbageListUnsafe_try, GarbageList_try.
  rewrite run_bind, tail_rmw. cbn [and_then]. fold G1. rewrite run_bind, run_gl_read. cbn [and_then].
  change (item_count_ G1) with (item_count_ G). rewrite Hn, slot_mod by done.
  rewrite run_bind, Hr. cbn [and_then]. fold (slot_at k 1 (tail_ G)).
  rewrite run_bind, (run_item_load _ _ _ _ _ it) by done. cbn [and_then].
  replace (removal_epoch it =? invalid_epoch) with false
    by (symmetry; apply Z.eqb_neq; by eapply Hinv).
  unfold item_cas. rewrite run_bind, (run_item_rmw _ _ _ _ _ it) by done. cbn [and_then fst snd].
  rewrite Z.eqb_refl. cbn [negb]. rewrite run_bind, run_reclaim by done.
  destruct (reclaimable e' it); cbn [and_then]; [|done].
  by rewrite run_bind, run_populate.
Qed.

(** What a push leaves: one slot replaced, its occupant freed if it had one. *)
Definition pushed (k sz : nat) (new : Item) (G : GarbageList) (e : EpochWorld) (c : C)
    (r : result Status * GarbageWorld C) : Prop :=
  exists s it e' t, items_ G !! s = Some it /\ reclaimable e' it = true /\ rolled_many sz e e' /\
    r = (Done Status_OK, W (set_items (<[s := new]> (items_ G)) (set_tail t G)) e' (freed it c)).

Lemma push_loop k sz d removal new body j :
  (0 < j -> forall it c, call_runs it c)%nat ->
  push_round k sz d removal new body ->
  forall fuel G e c it, ring_wf k sz G e ->
  items_ G !! slot_at k d (tail_ G + Z.of_nat j) = Some it -> removal_epoch it = 0 -> (j < fuel)%nat ->
  pushed k sz new G e c (run (loop fuel body tt) (W G e c)).
Proof.
  intros Hcall Hr. induction j as [|j IH]; intros fuel G e c it Hw Hit H0 Hf;
    (destruct fuel as [|fuel]; [lia|]); cbn [loop]; rewrite run_bind; pose proof Hw as (Hm & Hk & Hn & Hlen & Hinv & _).
  - rewrite Z.add_0_r in Hit. destruct (Hr G e it Hw Hit) as (e' & Ht & R). rewrite R by done.
    assert (reclaimable e' it = true) as Hc by (unfold reclaimable; by rewrite H0).
    rewrite Hc. cbn [and_then run]. exists (slot_at k d (tail_ G)), it, e', (signed 64 (tail_ G + 1)). destruct Ht. done.
  - destruct (items_ G !! slot_at k d (tail_ G)) as [it'|] eqn:E.
    2: { apply lookup_ge_None in E. pose proof (slot_at_lt k d (tail_ G)). lia. }
    destruct (Hr G e it' Hw E) as (e' & Ht & R). rewrite R by (intros _; apply Hcall; lia).
    destruct (reclaimable e' it') eqn:Hc; cbn [and_then run].
    + exists (slot_at k d (tail_ G)), it', e', (signed 64 (tail_ G + 1)). destruct Ht. done.
    + destruct (IH ltac:(intros _; apply Hcall; lia) fuel (set_tail (signed 64 (tail_ G + 1)) G) e' c it)
        as (s & x & e2 & t & H1 & H2 & H3 & H4).
      * destruct Ht as [(_ & _ & Ht & _) _]. by split_and!.
      * unfold slot_at in *. cbn [tail_ set_tail items_].
        replace ((signed 64 (tail_ G + 1) + Z.of_nat j - d) mod 2 ^ Z.of_nat k)
          with ((tail_ G + Z.of_nat (S j) - d) mod 2 ^ Z.of_nat k); [done|].
        replace (signed 64 (tail_ G + 1) + Z.of_nat j - d)
          with (signed 64 (tail_ G + 1) + (Z.of_nat j - d)) by lia.
        rewrite Z.add_mod, signed_mod, <- Z.add_mod by lia. f_equal. lia.
      * done.
      * lia.
      * exists s, x, e2, t. destruct Ht as [(E1 & E2 & _ & E6) _], H3 as (E3 & E4 & E5 & E7).
        split; [done|]. split; [done|]. split; [|done].
        split; [congruence|]. split; [congruence|]. split; [done|]. intros o Ho. by rewrite E7, E6.
Qed.

(** When the next slot is free, one round is enough and no callback is needed. *)
Lemma push_next_free k sz d removal new body fuel G e it :
  push_round k sz d removal new body -> ring_wf k sz G e ->
  items_ G !! slot_at k d (tail_ G) = Some it -> removal_epoch it = 0 -> (0 < fuel)%nat ->
  exists e', rolled sz e e' /\ forall c, run (loop fuel body tt) (W G e c) =
    (Done Status_OK, W (set_items (<[slot_at k d (tail_ G) := new]> (items_ G))
                          (set_tail (signed 64 (tail_ G + 1)) G)) e' c).
Proof.
  intros Hr Hw Hit H0 Hf. destruct fuel as [|fuel]; [lia|].
  destruct (Hr G e it Hw Hit) as (e' & Ht & R). exists e'. split; [done|]. intros c.
  cbn [loop]. rewrite run_bind, R by done.
  assert (reclaimable e' it = true) as -> by (unfold reclaimable; by rewrite H0).
  unfold freed. by rewrite H0.
Qed.

Lemma push_finds_free k sz d removal new body fuel G e c :
  (forall it c, call_runs it c) -> push_round k sz d removal new body -> ring_wf k sz G e ->
  (exists it, it ∈ items_ G /\ removal_epoch it = 0) -> (2 ^ k <= fuel)%nat ->
  pushed k sz new G e c (run (loop fuel body tt) (W G e c)).
Proof.
  intros Hcall Hr Hw (it & [s Hs]%list_elem_of_lookup_1 & H0) Hf.
  pose proof Hw as (_ & Hk & _ & Hlen & _). pose proof (lookup_lt_Some _ _ _ Hs) as Hlt.
  pose proof (Z.mod_pos_bound (Z.of_nat s - tail_ G + d) (2 ^ Z.of_nat k) ltac:(lia)) as Hb.
  set (j := Z.to_nat ((Z.of_nat s - tail_ G + d) mod 2 ^ Z.of_nat k)).
  assert (Z.of_nat (2 ^ k) = 2 ^ Z.of_nat k) as Hp by (by rewrite Nat2Z.inj_pow).
  apply (push_loop k sz d removal new body j (fun _ => Hcall) Hr fuel G e c it Hw).
  - unfold slot_at, j. rewrite Z2Nat.id by lia.
    replace (tail_ G + (Z.of_nat s - tail_ G + d) mod 2 ^ Z.of_nat k - d)
      with (tail_ G - d + (Z.of_nat s - tail_ G + d) mod 2 ^ Z.of_nat k) by lia.
    rewrite Zplus_mod_idemp_r.
    replace (tail_ G - d + (Z.of_nat s - tail_ G + d)) with (Z.of_nat s) by lia.
    rewrite Z.mod_small, Nat2Z.id by lia. done.
  - done.
  - unfold j. lia.
Qed.

Lemma run_push_prefix k sz G e c {A} (body : Z -> Z -> prog (GarbageWorld C) A) :
  ring_wf k sz G e ->
  run (let! m := gl_epoch g in let! removal := zoom (GetCurrentEpoch m) in body m removal) (W G e c) =
  run (body m (cur m e)) (W G e c).
Proof.
  intros Hw. rewrite run_bind, (run_gl_epoch k sz) by done. cbn [and_then].
  by rewrite run_bind, run_zoom_epochs.
Qed.
(** ** Scavenging and tearing down *)

(** A live item whose epoch is safe. *)
Definition scavengeable (e : EpochWorld) (it : Item) : bool :=
  negb (removal_epoch it =? 0) && (removal_epoch it <=? safe_of e).

Definition scavenged_item (e : EpochWorld) (it : Item) : Item :=
  if scavengeable e it then Item_new else it.
Definition scavenged_client (e : EpochWorld) (c : C) (it : Item) : C :=
  if scavengeable e it then freed it c else c.

Lemma scavengeable_reclaimable e it :
  scavengeable e it = negb (removal_epoch it =? 0) && reclaimable e it.
Proof. unfold scavengeable, reclaimable. by destruct (removal_epoch it =? 0). Qed.

Lemma run_unsafe_slot slot n G e c it :
  items_ G !! slot = Some it -> removal_epoch it <> invalid_epoch ->
  (removal_epoch it <> 0 -> call_runs it c) ->
  run (GarbageListUnsafe_Scavenge_slot call g m slot n) (W G e c) =
    (Done (if scavengeable e it then signed 32 (n + 1) else n),
     W (set_items (<[slot := scavenged_item e it]> (items_ G)) G) e (scavenged_client e c it)).
Proof.
  intros Hit Hinv Hc. pose proof (lookup_lt_Some _ _ _ Hit) as Hs.
  unfold GarbageListUnsafe_Scavenge_slot, scavenged_item, scavenged_client.
  rewrite run_bind, (run_item_load _ _ _ _ _ it) by done. cbn [and_then].
  rewrite (proj2 (Z.eqb_neq _ _) Hinv), orb_false_r, scavengeable_reclaimable.
  destruct (removal_epoch it =? 0) eqn:E0; cbn [negb andb]; [by rewrite set_items_id|].
  rewrite run_bind, (run_item_store _ _ _ _ _ it) by done. cbn [and_then].
  rewrite run_bind, run_reclaim by done.
  destruct (reclaimable e it); cbn [and_then]; [|by rewrite set_items_id].
  unfold reset_item. by rewrite run_bind, run_populate.
Qed.

Lemma run_safe_slot slot n G e c it :
  items_ G !! slot = Some it -> removal_epoch it <> invalid_epoch ->
  (removal_epoch it <> 0 -> call_runs it c) ->
  run (GarbageList_Scavenge_slot call g m slot n) (W G e c) =
    (Done n,
     W (set_items (<[slot := scavenged_item e it]> (items_ G)) G) e (scavenged_client e c it)).
Proof.
  intros Hit Hinv Hc. pose proof (lookup_lt_Some _ _ _ Hit) as Hs.
  unfold GarbageList_Scavenge_slot, scavenged_item, scavenged_client.
  rewrite run_bind, (run_item_load _ _ _ _ _ it) by done. cbn [and_then].
  rewrite (proj2 (Z.eqb_neq _ _) Hinv), orb_false_r, scavengeable_reclaimable.
  destruct (removal_epoch it =? 0) eqn:E0; cbn [negb andb]; [by rewrite set_items_id|].
  unfold item_cas. rewrite run_bind, (run_item_rmw _ _ _ _ _ it) by done. cbn [and_then fst snd].
  rewrite Z.eqb_refl. cbn [negb]. rewrite run_bind, run_reclaim by done.
  destruct (reclaimable e it); cbn [and_then]; [|by rewrite set_items_id].
  unfold reset_item. by rewrite run_bind, run_populate.
Qed.

Lemma insert_middle {X} (pre : list X) x y post :
  <[length pre := y]> (pre ++ x :: post) = (pre ++ [y]) ++ post.
Proof. rewrite insert_app_r_alt, Nat.sub_diag by lia. simpl. by rewrite <- app_assoc. Qed.

(** A loop over the slots that treats each item by itself. *)
Lemma run_slots {I} (body : nat -> I -> prog (GarbageWorld C) I) (fi : Item -> Item) (fc : C -> Item -> C)
    (acc : I -> Item -> I) G e :
  (forall s i G' c it, items_ G' !! s = Some it -> it ∈ items_ G ->
     run (body s i) (W G' e c) = (Done (acc i it), W (set_items (<[s := fi it]> (items_ G')) G') e (fc c it))) ->
  forall post pre i c, (forall it, it ∈ post -> it ∈ items_ G) ->
  run (for_list (seq (length pre) (length post)) body i) (W (set_items (pre ++ post) G) e c) =
    (Done (foldl acc i post), W (set_items (pre ++ (fi <$> post)) G) e (foldl fc c post)).
Proof.
  intros Hb. induction post as [|it post IH]; intros pre i c Hin; [done|].
  cbn [length seq for_list]. rewrite run_bind, (Hb _ _ _ _ it).
  2: { simpl. by rewrite lookup_app_r, Nat.sub_diag by lia. }
  2: { apply Hin. by left. }
  cbn [and_then]. simpl items_. rewrite insert_middle.
  specialize (IH (pre ++ [fi it]) (acc i it) (fc c it)).
  rewrite length_app, Nat.add_1_r in IH.
  change (set_items ((pre ++ [fi it]) ++ post) (set_items (pre ++ it :: post) G))
    with (set_items ((pre ++ [fi it]) ++ post) G).
  rewrite IH by (intros x Hx; apply Hin; by right). simpl. by rewrite <- app_assoc.
Qed.

Lemma ring_count k sz G e : ring_wf k sz G e -> Z.to_nat (item_count_ G) = length (items_ G).
Proof.
  intros (_ & Hk & -> & -> & _). apply Nat2Z.inj. rewrite Nat2Z.inj_pow, Z2Nat.id by lia. done.
Qed.

Lemma run_all_slots {I} (body : nat -> I -> prog (GarbageWorld C) I) fi fc acc k sz G e c i :
  ring_wf k sz G e ->
  (forall s i G' c it, items_ G' !! s = Some it -> it ∈ items_ G ->
     run (body s i) (W G' e c) = (Done (acc i it), W (set_items (<[s := fi it]> (items_ G')) G') e (fc c it))) ->
  run (let! n := gl_read g item_count_ in for_list (seq 0 (Z.to_nat n)) body i) (W G e c) =
    (Done (foldl acc i (items_ G)), W (set_items (fi <$> items_ G) G) e (foldl fc c (items_ G))).
Proof.
  intros Hw Hb. rewrite run_bind, run_gl_read. cbn [and_then]. rewrite (ring_count k sz G e) by done.
  pose proof (run_slots body fi fc acc G e Hb (items_ G) [] i c ltac:(done)) as H.
  simpl in H. replace (set_items (items_ G) G) with G in H by (by destruct G). exact H.
Qed.

Definition count_scavengeable (e : EpochWorld) (n : Z) (it : Item) : Z :=
  if scavengeable e it then signed 32 (n + 1) else n.

(** How many items a scavenge destroys. *)
Definition scavenged_count (e : EpochWorld) (its : list Item) : nat := length (filter (fun it => scavengeable e it = true) its).

Lemma signed_32_S x : signed 32 (signed 32 x + 1) = signed 32 (x + 1).
Proof.
  assert ((signed 32 x + 1) mod 2 ^ 32 = (x + 1) mod 2 ^ 32) as E; [|by unfold signed at 1; rewrite E].
  unfold signed. cbv zeta. destruct (x mod 2 ^ 32 <? 2 ^ (32 - 1)).
  - by rewrite Zplus_mod_idemp_l.
  - replace (x mod 2 ^ 32 - 2 ^ 32 + 1) with (x mod 2 ^ 32 + 1 + (-1) * 2 ^ 32) by lia. by rewrite Z_mod_plus_full, Zplus_mod_idemp_l.
Qed.

Lemma count_wraps e its : forall n,
  foldl (count_scavengeable e) (signed 32 n) its = signed 32 (n + Z.of_nat (scavenged_count e its)).
Proof.
  induction its as [|it its IH]; intros n; cbn [foldl]; [by rewrite Z.add_0_r|].
  unfold count_scavengeable at 2, scavenged_count. destruct (scavengeable e it) eqn:Es.
  - rewrite signed_32_S, IH, filter_cons_True by done. cbn [length]. unfold scavenged_count. f_equal. lia.
  - rewrite IH, filter_cons_False by (by rewrite Es). done.
Qed.

Lemma ring_item k sz G e it : ring_wf k sz G e -> it ∈ items_ G -> removal_epoch it <> invalid_epoch.
Proof. intros (_ & _ & _ & _ & H & _) [s Hs]%list_elem_of_lookup_1. by eapply H. Qed.

(** [Uninitialize] destroys whatever is still there. *)
Definition torn_down (c : C) (it : Item) : C :=
  if removed_item it =? 0 then c
  else callf (destroy_callback it) (destroy_callback_context it) (removed_item it) c.
Definition torn_item (it : Item) : Item :=
  if removed_item it =? 0 then it else set_removal_epoch 0 (set_removed_item 0 it).

Lemma run_Uninitialize k sz G e c :
  (forall it c, call_runs it c) -> ring_wf k sz G e ->
  run (GarbageList_Uninitialize call g) (W G e c) =
    (Done Status_OK, W GarbageList_new e (foldl torn_down c (items_ G))).
Proof.
  intros Hcall Hw. unfold GarbageList_Uninitialize. rewrite run_bind, run_gl_read. cbn [and_then].
  pose proof Hw as (-> & _). rewrite <- bind_assoc, run_bind.
  rewrite (run_all_slots _ torn_item torn_down (fun i _ => i) k sz) by
    (done || (intros s [] G' c' it Hit _; pose proof (lookup_lt_Some _ _ _ Hit) as Hs;
     rewrite run_bind, (run_item_load _ _ _ _ _ it) by done; cbn [and_then];
     unfold torn_item, torn_down; destruct (removed_item it =? 0); [by rewrite set_items_id|];
     rewrite run_bind, (run_destroy _ _ _ _ it) by done; cbn [and_then];
     rewrite run_bind, (run_item_store _ _ _ _ _ it) by done; cbn [and_then];
     rewrite (run_item_store _ _ _ _ _ (set_removed_item 0 it)) by (by apply lookup_set_items);
     by rewrite set_items_twice)).
  cbn [and_then]. rewrite run_bind. cbn [gl_write upd act run]. rewrite set_glist_W. done.
Qed.
End spec.

(** C25.  Pushing onto either garbage list, when a slot is free, returns within one pass over
    the ring: exactly one slot now holds the item with the epoch current at the call,
    and that slot's old occupant, if it had one, was destroyed once and only because its
    epoch was safe; the ring stays well formed. *)
Theorem Push_correct {C} (call : Z -> Z -> Z -> prog C unit) callf L g m k sz G e c fuel removed cb ctx :
  (forall it c, call_runs call callf it c) ->
  ring_wf m k sz G e -> (exists it, it ∈ items_ G /\ removal_epoch it = 0) -> (2 ^ k <= fuel)%nat ->
  let new := MkItem (cur m e) cb ctx removed in
  pushed callf L g m k sz new G e c (run (GarbageListUnsafe_Push call fuel g removed cb ctx) (W L g G e c)) /\
  pushed callf L g m k sz new G e c (run (GarbageList_Push call fuel g removed cb ctx) (W L g G e c)) /\
  (cur m e <> invalid_epoch -> forall s t e', table_wf m sz e' ->
     ring_wf m k sz (set_items (<[s := new]> (items_ G)) (set_tail t G)) e').
Proof.
  intros Hcall Hw Hfree Hf new. split; [|split].
  - unfold GarbageListUnsafe_Push. rewrite (run_push_prefix _ _ _ k sz) by done.
    apply push_finds_free with (call := call) (d := 0) (removal := cur m e) (e := e); [done|by apply unsafe_round|done..].
  - unfold GarbageList_Push. rewrite (run_push_prefix _ _ _ k sz) by done.
    apply push_finds_free with (call := call) (d := 1) (removal := cur m e) (e := e); [done|by apply safe_round|done..].
  - intros Hc s t e' He'. destruct Hw as (H1 & H2 & H3 & H4 & H5 & _). split_and!; try done.
    + simpl. by rewrite length_insert.
    + intros s' it. simpl. destruct (decide (s = s')) as [<-|].
      * intros Hl. pose proof (lookup_lt_Some _ _ _ Hl) as Hlt. rewrite length_insert in Hlt.
        rewrite list_lookup_insert_eq in Hl by done. by simplify_eq.
      * rewrite list_lookup_insert_ne by done. apply H5.
Qed.

(** C26.  Scavenging destroys exactly the live items whose epoch is safe, each once and in
    slot order, and empties their slots; the single-threaded list returns their number,
    wrapped to a signed 32-bit integer, while the concurrent one always returns 0;
    Uninitialize destroys every remaining object once and resets the list. *)
Theorem Scavenge_correct {C} (call : Z -> Z -> Z -> prog C unit) callf L g m k sz G e c :
  (forall it c, call_runs call callf it c) ->
  ring_wf m k sz G e ->
  let w' := W L g (set_items (scavenged_item m e <$> items_ G) G) e
              (foldl (scavenged_client callf m e) c (items_ G)) in
  run (GarbageListUnsafe_Scavenge call g) (W L g G e c) =
    (Done (signed 32 (Z.of_nat (scavenged_count m e (items_ G)))), w') /\
  run (GarbageList_Scavenge call g) (W L g G e c) = (Done 0, w') /\
  run (GarbageList_Uninitialize call g) (W L g G e c) =
    (Done Status_OK, W L g GarbageList_new e (foldl (torn_down callf) c (items_ G))).
Proof.
  intros Hcall Hw w'. split; [|split].
  - unfold GarbageListUnsafe_Scavenge. rewrite run_bind, (run_gl_epoch _ _ _ k sz) by done. cbn [and_then].
    pose proof (count_wraps m e (items_ G) 0) as Hn. change (signed 32 0) with 0 in Hn. rewrite Z.add_0_l in Hn. rewrite <- Hn.
    apply (run_all_slots L g m _ (scavenged_item m e) _ _ k sz); [done|].
    intros s i G' c' it Hit Hin. apply run_unsafe_slot; [done|by eapply ring_item|done].
  - unfold GarbageList_Scavenge. rewrite run_bind, (run_gl_epoch _ _ _ k sz) by done. cbn [and_then].
    rewrite (run_all_slots L g m _ (scavenged_item m e) (scavenged_client callf m e) (fun n _ => n) k sz);
      [|done|].
    + unfold w'. do 2 f_equal. by induction (items_ G).
    + intros s i G' c' it Hit Hin. apply run_safe_slot; [done|by eapply ring_item|done].
  - by apply run_Uninitialize with (k := k) (sz := sz) (m := m).
Qed.

(** A client that records the objects it is told to destroy. *)
Definition log_call (f ctx it : Z) : prog (list Z) unit := upd (fun l => it :: l).

Lemma ring_4_wf e :
  table_wf 100 128 e ->
  ring_wf 100 2 128 (MkGarbageList (Some 100) 0 4 [MkItem 1 7 0 11; Item_new; Item_new; Item_new]) e.
Proof.
  intros He. split_and!; try done; [lia|].
  intros s it Hs. destruct s as [|[|[|[|s]]]]; simpl in Hs; by simplify_eq.
Qed.

Example Push_correct_witness :
  let e := initialized 100 (MkEpochWorld ∅ (MkThreads ∅ ∅)) in
  let G := MkGarbageList (Some 100) 0 4 [MkItem 1 7 0 11; Item_new; Item_new; Item_new] in
  pushed (fun _ _ it l => it :: l) ∅ 5 100 2 128 (MkItem 1 7 0 12) G e []
    (run (GarbageList_Push log_call 4 5 12 7 0) (W ∅ 5 G e [])).
Proof.
  intros e G. apply (Push_correct log_call (fun _ _ it l => it :: l) ∅ 5 100 2 128 G e [] 4 12 7 0).
  - done.
  - apply ring_4_wf. by split.
  - exists Item_new. split; [|done]. apply (list_elem_of_lookup_2 _ 1). reflexivity.
  - simpl. lia.
Defined.

Example Scavenge_correct_witness :
  let e := set_mgr 100 (set_safe 3 (set_current 5 (mgr (initialized 100 (MkEpochWorld ∅ (MkThreads ∅ ∅))) 100)))
             (initialized 100 (MkEpochWorld ∅ (MkThreads ∅ ∅))) in
  let G := MkGarbageList (Some 100) 0 4 [MkItem 1 7 0 11; Item_new; Item_new; Item_new] in
  run (GarbageListUnsafe_Scavenge log_call 5) (W ∅ 5 G e []) =
    (Done 1, W ∅ 5 (MkGarbageList (Some 100) 0 4 [Item_new; Item_new; Item_new; Item_new]) e [11]).
Proof.
  intros e G.
  rewrite (proj1 (Scavenge_correct log_call (fun _ _ it l => it :: l) ∅ 5 100 2 128 G e []
    (fun _ _ => eq_refl) (ring_4_wf e ltac:(by split)))).
  vm_compute. reflexivity.
Defined.
