(* ===== verification/Reclaim.v ===== *)
(** * Reclamation under any schedule (src/common/garbage_list.h, epoch.h, epoch.cc)

    Threads protect and unprotect themselves, bump the epoch, push removed objects onto a
    thread-safe garbage list and scavenge it.  Every object is destroyed at most once, and
    none while a thread is protected since before its removal. *)
From Stdlib Require Import ZArith Lia.
From stdpp Require Import base list gmap strings relations.
From S2P Require Import Prelude Bytes Prog Status Library Epoch Garbage.
#[local] Open Scope Z_scope.
#[local] Open Scope prog_scope.

(** ** The ring and its auxiliary state *)

(** The client of the list records the objects that have been unlinked from its data
    structure, and those it has been told to destroy. *)
Record Objects := MkObjects { unlinked : list Z; destroyed : list Z }.

#[export] Instance Objects_eq_dec : EqDecision Objects.
Proof. solve_decision. Defined.

Abbreviation LogWorld := (GarbageWorld Objects).

Definition destroy_log (callback context x : Z) : prog Objects unit :=
  upd (fun c => MkObjects (unlinked c) (x :: destroyed c)).

(** Next to the epochs' auxiliary state: the thread that has locked a slot and the epoch
    it replaced; the object a slot holds and its removal epoch; the removal epochs of the
    destroyed objects; the largest epoch that has ever been safe; and for each unlinked
    object how often the epoch had been bumped when it was unlinked. *)
Record RGh := MkRGh {
  eg : Gh;
  locks : nat -> option (Z * Z);
  held : nat -> option (Z * Z);
  dead : Z -> Z -> Prop;
  top : Z;
  cut : Z -> option nat
}.

#[export] Instance Item_eq_dec : EqDecision Item.
Proof. solve_decision. Defined.

Lemma no_cons (l : list Z) x : l <> x :: l.
Proof. intros E. apply (f_equal length) in E. simpl in E. lia. Qed.

Section ring.
Context (m : Z) (sz : nat) (g : Z) (k : Z).

Definition slots (w : LogWorld) : list Item := items_ (glist w g).
Definition gone (w : LogWorld) : list Z := destroyed (client w).
Definition ep (w : LogWorld) (i : nat) : Z := from_option removal_epoch 0 (slots w !! i).
Definition obj (w : LogWorld) (i : nat) : Z := from_option removed_item 0 (slots w !! i).

(** What an access by thread [t] does to the auxiliary state. *)
Definition ring_obs (t : Z) (w w' : LogWorld) (r : RGh) : RGh :=
  MkRGh (epoch_obs m (epochs w) (epochs w') (eg r))
    (fun i => if ep w' i =? invalid_epoch
              then if ep w i =? invalid_epoch then locks r i else Some (t, ep w i)
              else None)
    (fun i => if ep w' i =? invalid_epoch
              then if decide (gone w' = gone w) then held r i
                   else match locks r i with
                        | Some (t', _) => if t' =? t then None else held r i
                        | None => held r i
                        end
              else if ep w i =? invalid_epoch
                   then if ep w' i =? 0 then None else Some (obj w' i, ep w' i)
                   else held r i)
    (fun x e => dead r x e \/
       (gone w' = x :: gone w /\ exists i p, locks r i = Some (t, p) /\ held r i = Some (x, e)))
    (Z.max (top r) (safe m (epochs w')))
    (fun x => match cut r x with
              | Some v => Some v
              | None => if decide (x ∈ unlinked (client w')) then Some (gn (eg r)) else None
              end).

(** The object [x] is or was in the list, with removal epoch [e]. *)
Definition has (r : RGh) (x e : Z) : Prop := (exists i, held r i = Some (x, e)) \/ dead r x e.

(** Fewer bumps than epochs: a removal epoch is neither 0 nor the lock's mark. *)
Definition bounded (r : RGh) : Prop := Z.of_nat (gn (eg r)) < invalid_epoch.

(** The object [x] was unlinked when the epoch had been bumped at most [e] times. *)
Definition unlinked_by (r : RGh) (x e : Z) : Prop := exists v, cut r x = Some v /\ Z.of_nat v <= e.

Record slots_ok (w : LogWorld) (r : RGh) : Prop := {
  so_lock i : ep w i = invalid_epoch <-> is_Some (locks r i);
  so_free i : ep w i <> invalid_epoch ->
    (ep w i = 0 /\ held r i = None) \/ (ep w i <> 0 /\ held r i = Some (obj w i, ep w i));
  so_locked i t p : locks r i = Some (t, p) ->
    p <> invalid_epoch /\ (held r i = None \/ (p <> 0 /\ held r i = Some (obj w i, p)));
  so_once i j x e e' : held r i = Some (x, e) -> held r j = Some (x, e') -> i = j;
  so_alive i x e : held r i = Some (x, e) -> x ∉ gone w;
  so_nodup : NoDup (gone w);
  so_dead x : x ∈ gone w -> exists e, dead r x e /\ e <= top r;
  so_gone x e : dead r x e -> x ∈ gone w;
  so_top : top r < Z.of_nat (gn (eg r));
  so_cut x v : cut r x = Some v -> (v <= gn (eg r))%nat;
  so_unlinked x : is_Some (cut r x) <-> x ∈ unlinked (client w);
  so_late x e : has r x e -> unlinked_by r x e
}.

Definition ring_shape (w : LogWorld) : Prop :=
  gl_epoch_manager_ (glist w g) = Some m /\ item_count_ (glist w g) = 2 ^ k /\
  length (slots w) = Z.to_nat (2 ^ k).

Definition rinv (s : LogWorld * RGh) : Prop :=
  inv m sz (epochs s.1, eg s.2) /\ ring_shape s.1 /\ (bounded s.2 -> slots_ok s.1 s.2).

(** No object is linked again. *)
Definition only_more (w w' : LogWorld) : Prop :=
  forall x, x ∈ unlinked (client w) -> x ∈ unlinked (client w').

Lemma cut_mono t w w' r x v : cut r x = Some v -> cut (ring_obs t w w' r) x = Some v.
Proof. simpl. by intros ->. Qed.

Lemma cut_new t w w' r x v :
  cut (ring_obs t w w' r) x = Some v -> cut r x = Some v \/ v = gn (eg r).
Proof. simpl. destruct (cut r x); [by left|]. case_decide; [|done]. intros [= <-]. by right. Qed.

Lemma cut_unlinked t w w' r x :
  slots_ok w r -> only_more w w' ->
  is_Some (cut (ring_obs t w w' r) x) <-> x ∈ unlinked (client w').
Proof.
  intros Hok Hm. pose proof (so_unlinked _ _ Hok x) as Hu. simpl. destruct (cut r x) as [v|].
  - split; [intros _; apply Hm, Hu; eauto|eauto].
  - case_decide; [by split; eauto|]. split; [by intros []|done].
Qed.

Lemma gn_obs_le t w w' r : (gn (eg r) <= gn (eg (ring_obs t w w' r)))%nat.
Proof. simpl. destruct (_ =? _); lia. Qed.

Lemma cut_below t w w' r x v :
  slots_ok w r -> cut (ring_obs t w w' r) x = Some v -> (v <= gn (eg (ring_obs t w w' r)))%nat.
Proof.
  intros Hok H. pose proof (gn_obs_le t w w' r). apply cut_new in H as [H| ->]; [|done].
  pose proof (so_cut _ _ Hok x v H). lia.
Qed.

Lemma late_mono t w w' r x e : unlinked_by r x e -> unlinked_by (ring_obs t w w' r) x e.
Proof. intros (v & Hv & He). exists v. split; [by apply cut_mono|done]. Qed.

(** The objects that each thread pushes. *)
Context (own_objs : Z -> Z -> Prop).

(** What other threads leave alone, as thread [t] sees it. *)
Definition kept (t : Z) (s s' : LogWorld * RGh) : Prop :=
  (forall i p, locks s'.2 i = Some (t, p) <-> locks s.2 i = Some (t, p)) /\
  (forall i p, locks s.2 i = Some (t, p) -> slots s'.1 !! i = slots s.1 !! i /\ held s'.2 i = held s.2 i) /\
  (forall x e, own_objs t x -> has s'.2 x e -> has s.2 x e).

Definition ring_R (t : Z) (s s' : LogWorld * RGh) : Prop :=
  rinv s -> rinv s' /\ epoch_R m sz t (epochs s.1, eg s.2) (epochs s'.1, eg s'.2) /\
  (bounded s'.2 -> kept t s s' /\ top s.2 <= top s'.2) /\
  forall x v, cut s.2 x = Some v -> cut s'.2 x = Some v.

Definition ring_G (t : Z) (s s' : LogWorld * RGh) : Prop :=
  rinv s -> rinv s' /\ epoch_G m sz t (epochs s.1, eg s.2) (epochs s'.1, eg s'.2) /\
  (bounded s'.2 -> top s.2 <= top s'.2 /\
     (forall x e, has s'.2 x e -> has s.2 x e \/ own_objs t x) /\
     (forall t', t' <> t -> (forall i p, locks s'.2 i = Some (t', p) <-> locks s.2 i = Some (t', p)) /\
        forall i p, locks s.2 i = Some (t', p) -> slots s'.1 !! i = slots s.1 !! i /\ held s'.2 i = held s.2 i)) /\
  forall x v, (cut s.2 x = Some v -> cut s'.2 x = Some v) /\
    (cut s'.2 x = Some v -> cut s.2 x = Some v \/ v = gn (eg s.2)).

Lemma epoch_R_gn t s s' : epoch_R m sz t s s' -> inv m sz s -> (gn s.2 <= gn s'.2)%nat.
Proof. intros H Hi. destruct (H Hi) as [(_ & Hn & _) _]. exact Hn. Qed.

Lemma ring_R_bounded t s s' : ring_R t s s' -> rinv s -> bounded s'.2 -> bounded s.2.
Proof.
  intros H Hi Hb. destruct (H Hi) as (_ & HR & _). apply epoch_R_gn in HR; [|apply Hi].
  unfold bounded in *. simpl in HR. lia.
Qed.

Lemma kept_refl t s : kept t s s.
Proof. by split_and!. Qed.

Lemma ring_R_refl t : reflexive _ (ring_R t).
Proof. intros s Hi. split_and!; [done|apply epoch_R_refl| |done]. intros _. split; [apply kept_refl|lia]. Qed.

Lemma ring_R_trans t : transitive _ (ring_R t).
Proof.
  intros s1 s2 s3 H12 H23 Hi. destruct (H12 Hi) as (Hi2 & E12 & K12 & C12).
  destruct (H23 Hi2) as (Hi3 & E23 & K23 & C23). split_and!; [done|by eapply epoch_R_trans| |by auto].
  intros Hb. pose proof (ring_R_bounded t s2 s3 H23 Hi2 Hb) as Hb2.
  destruct (K12 Hb2) as [(L1 & S1 & X1) T1], (K23 Hb) as [(L2 & S2 & X2) T2].
  split; [|lia]. split_and!.
  - intros i p. by rewrite L2.
  - intros i p Hl. destruct (S1 i p Hl) as [E1 F1]. destruct (S2 i p) as [E2 F2]; [by apply L1|].
    split; congruence.
  - auto.
Qed.

Lemma ring_G_R t t' s s' :
  t <> t' -> t' <> 0 -> (forall x, own_objs t x -> own_objs t' x -> False) ->
  ring_G t s s' -> ring_R t' s s'.
Proof.
  intros Hne H0 Hx HG Hi. destruct (HG Hi) as (Hi' & HE & HK & HC).
  split_and!; [done|by eapply epoch_G_R| |intros x v; apply HC].
  intros Hb. destruct (HK Hb) as (Ht & Hh & Hl). destruct (Hl t' ltac:(congruence)) as [L S].
  split; [|done]. split_and!; [done..|]. intros x e Ho Hhas. destruct (Hh x e Hhas) as [?|?]; [done|].
  by destruct (Hx x).
Qed.

(** ** Writing a slot *)

Definition set_slot (i : nat) (it : Item) (w : LogWorld) : LogWorld :=
  set_glist g (set_items (<[i := it]> (slots w)) (glist w g)) w.

Lemma slots_set_slot i it w : slots (set_slot i it w) = <[i := it]> (slots w).
Proof. unfold slots, set_slot, glist, set_glist. simpl. by rewrite lookup_insert_eq. Qed.

Lemma set_slot_shape i it w : ring_shape w -> ring_shape (set_slot i it w).
Proof.
  intros (H1 & H2 & H3). unfold ring_shape. rewrite slots_set_slot, length_insert.
  unfold set_slot, glist, set_glist in *. simpl. rewrite lookup_insert_eq. done.
Qed.

Lemma ep_set_slot i it w j : is_Some (slots w !! i) ->
  ep (set_slot i it w) j = if decide (j = i) then removal_epoch it else ep w j.
Proof.
  intros Hi. unfold ep. rewrite slots_set_slot. case_decide as E; [subst j|by rewrite list_lookup_insert_ne].
  rewrite list_lookup_insert_eq; [done|by apply lookup_lt_is_Some_1].
Qed.

Lemma obj_set_slot i it w j : is_Some (slots w !! i) ->
  obj (set_slot i it w) j = if decide (j = i) then removed_item it else obj w j.
Proof.
  intros Hi. unfold obj. rewrite slots_set_slot. case_decide as E; [subst j|by rewrite list_lookup_insert_ne].
  rewrite list_lookup_insert_eq; [done|by apply lookup_lt_is_Some_1].
Qed.

Lemma bounded_same r r' : gn (eg r') = gn (eg r) -> bounded r' <-> bounded r.
Proof. unfold bounded. by intros ->. Qed.

(** The auxiliary state after a write to slot [i]. *)
Lemma obs_other t i it w r j :
  slots_ok w r -> is_Some (slots w !! i) -> j <> i ->
  let r' := ring_obs t w (set_slot i it w) r in locks r' j = locks r j /\ held r' j = held r j.
Proof.
  intros Hok Hi Hj. cbn [ring_obs locks held]. rewrite ep_set_slot, decide_False by done.
  destruct (Z.eqb_spec (ep w j) invalid_epoch) as [E|E].
  - split; [done|]. by rewrite decide_True.
  - split; [|done]. destruct (locks r j) eqn:El; [|done]. destruct E. apply (so_lock _ _ Hok). by rewrite El.
Qed.

Lemma obs_slot t i it w r :
  is_Some (slots w !! i) ->
  let r' := ring_obs t w (set_slot i it w) r in
  locks r' i = (if removal_epoch it =? invalid_epoch
                then if ep w i =? invalid_epoch then locks r i else Some (t, ep w i) else None) /\
  held r' i = (if removal_epoch it =? invalid_epoch then held r i
               else if ep w i =? invalid_epoch
                    then if removal_epoch it =? 0 then None else Some (removed_item it, removal_epoch it)
                    else held r i).
Proof.
  intros Hi. cbn [ring_obs locks held]. rewrite ep_set_slot, obj_set_slot, !decide_True by done.
  done.
Qed.

Lemma obs_dead t i it w r x e : dead (ring_obs t w (set_slot i it w) r) x e <-> dead r x e.
Proof.
  simpl. split; [|by left]. intros [?|[E _]]; [done|].
  destruct (no_cons _ _ E).
Qed.

(** What a thread may do to a slot: lock it; write to it while it is empty; free it or fill
    it with an object that has never been there; and put back the epoch of its occupant. *)
Definition may_write (t : Z) (r : RGh) (i : nat) (it it' : Item) : Prop :=
  (removal_epoch it <> invalid_epoch /\ it' = set_removal_epoch invalid_epoch it) \/
  ((exists p, locks r i = Some (t, p)) /\ removal_epoch it = invalid_epoch /\
   ((held r i = None /\ (removal_epoch it' = invalid_epoch \/ removal_epoch it' = 0 \/
       (own_objs t (removed_item it') /\
        unlinked_by r (removed_item it') (removal_epoch it') /\
        forall e, ~ has r (removed_item it') e))) \/
    (exists p, locks r i = Some (t, p) /\ held r i = Some (removed_item it, p) /\ it' = set_removal_epoch p it))).

Lemma gn_same e gh : gn (epoch_obs m e e gh) = gn gh.
Proof. simpl. by rewrite Z.eqb_refl. Qed.

Lemma safe_below (w : LogWorld) r : inv m sz (epochs w, eg r) -> bounded r -> safe m (epochs w) < Z.of_nat (gn (eg r)).
Proof.
  intros (_ & _ & _ & He) Hb. destruct He as [[_ H] _]; [|exact H].
  unfold unwrapped, bounded, invalid_epoch in *. simpl. lia.
Qed.

(** The written slot, afterwards. *)
Lemma written_slot t i it it' w r :
  slots_ok w r -> slots w !! i = Some it -> may_write t r i it it' ->
  let w' := set_slot i it' w in let r' := ring_obs t w w' r in
  (ep w' i = invalid_epoch <-> is_Some (locks r' i)) /\
  (ep w' i <> invalid_epoch ->
    (ep w' i = 0 /\ held r' i = None) \/ (ep w' i <> 0 /\ held r' i = Some (obj w' i, ep w' i))) /\
  (forall u p, locks r' i = Some (u, p) ->
    p <> invalid_epoch /\ (held r' i = None \/ (p <> 0 /\ held r' i = Some (obj w' i, p)))) /\
  (forall x e, held r' i = Some (x, e) -> held r i = Some (x, e) \/
     (own_objs t x /\ unlinked_by r x e /\ forall e', ~ has r x e')).
Proof.
  intros Hok Hi Hw w' r'. assert (is_Some (slots w !! i)) as Hsi by eauto.
  assert (ep w i = removal_epoch it /\ obj w i = removed_item it) as [Ee Eo] by (unfold ep, obj; by rewrite Hi).
  destruct (obs_slot t i it' w r Hsi) as [Hl Hh]. fold w' r' in Hl, Hh. rewrite Ee in Hl, Hh.
  unfold w' at 1 2 3 4 5 6 7. rewrite !ep_set_slot, !obj_set_slot, !decide_True by done. clearbody w' r'.
  pose proof (so_free w r Hok i) as Hfree. pose proof (so_locked w r Hok i) as Hlocked.
  rewrite Ee, Eo in Hfree. rewrite Eo in Hlocked.
  destruct Hw as [[Hn ->]|((p & Hp) & Hinv & Hw)].
  - cbn [removal_epoch removed_item set_removal_epoch] in *. rewrite Z.eqb_refl in Hl, Hh.
    rewrite (proj2 (Z.eqb_neq _ _) Hn) in Hl. rewrite Hl, Hh. split_and!; [by eauto|done| |by left].
    intros u p [= <- <-]. split; [done|]. destruct (Hfree Hn) as [[-> ->]|[H ->]]; auto.
  - destruct (Hlocked t p Hp) as [Hpi Hheld]. rewrite Hinv, Z.eqb_refl in Hl, Hh.
    destruct Hw as [[Hnone Hw]|(p' & Hp' & Hsome & ->)].
    + rewrite Hnone in Hh. destruct (Z.eqb_spec (removal_epoch it') invalid_epoch) as [E|E].
      * rewrite Hl, Hh, Hp. split_and!; [by eauto|done| |done]. intros u q [= <- <-]. auto.
      * rewrite Hl, Hh. destruct (Z.eqb_spec (removal_epoch it') 0) as [E0|E0].
        -- split_and!; [|auto|done|done]. split; [done|]. by intros [? ?].
        -- split_and!; [|auto|done|]; [split; [done|]; by intros [? ?]|].
           intros x e [= <- <-]. right. destruct Hw as [?|[?|?]]; done.
    + rewrite Hp in Hp'. injection Hp' as <-. cbn [removal_epoch removed_item set_removal_epoch] in *.
      rewrite (proj2 (Z.eqb_neq _ _) Hpi) in Hl, Hh. rewrite Hl, Hh.
      destruct Hheld as [?|[Hp0 _]]; [congruence|]. rewrite (proj2 (Z.eqb_neq _ _) Hp0).
      split_and!; [split; [done|by intros [? ?]]|auto|done|].
      intros x e [= <- <-]. by left.
Qed.

(** The auxiliary facts survive a write. *)
Lemma slots_ok_write t i it it' w r :
  slots_ok w r -> inv m sz (epochs w, eg r) -> bounded r -> slots w !! i = Some it -> may_write t r i it it' ->
  slots_ok (set_slot i it' w) (ring_obs t w (set_slot i it' w) r).
Proof.
  intros Hok Hinv Hb Hi Hw. assert (is_Some (slots w !! i)) as Hsi by eauto.
  destruct (written_slot t i it it' w r Hok Hi Hw) as (N1 & N2 & N3 & N4).
  set (w' := set_slot i it' w) in *. set (r' := ring_obs t w w' r) in *.
  pose proof (fun j Hj => obs_other t i it' w r j Hok Hsi Hj) as Hoth. fold w' r' in Hoth. cbv zeta in Hoth.
  assert (forall j, j <> i -> ep w' j = ep w j /\ obj w' j = obj w j) as Hsame.
  { intros j Hj. unfold w'. by rewrite ep_set_slot, obj_set_slot, !decide_False. }
  pose proof (fun x e => obs_dead t i it' w r x e) as Hd. fold w' r' in Hd.
  assert (gone w' = gone w) as Ec by done. assert (epochs w' = epochs w) as Ew by done.
  assert (only_more w w') as Hmore by (by intros ?). clearbody w'.
  assert (forall j x e, held r' j = Some (x, e) -> held r j = Some (x, e) \/ forall e', ~ has r x e') as Hold.
  { intros j x e. destruct (decide (j = i)) as [->|Hj]; [|destruct (Hoth j Hj) as [_ ->]; by left].
    intros H. destruct (N4 x e H) as [?|(_ & _ & ?)]; auto. }
  split.
  - intros j. destruct (decide (j = i)) as [->|Hj]; [done|]. destruct (Hoth j Hj) as [-> _], (Hsame j Hj) as [-> _].
    apply (so_lock _ _ Hok).
  - intros j. destruct (decide (j = i)) as [->|Hj]; [done|]. destruct (Hoth j Hj) as [_ ->], (Hsame j Hj) as [-> ->].
    apply (so_free _ _ Hok).
  - intros j. destruct (decide (j = i)) as [->|Hj]; [done|]. destruct (Hoth j Hj) as [-> ->], (Hsame j Hj) as [_ ->].
    apply (so_locked _ _ Hok).
  - intros j j' x e e' H1 H2. destruct (decide (j = j')) as [|Hne]; [done|exfalso].
    destruct (Hold _ _ _ H1) as [H1'|Hn], (Hold _ _ _ H2) as [H2'|Hn'].
    + apply Hne. by eapply (so_once _ _ Hok).
    + apply (Hn' e). left. eauto.
    + apply (Hn e'). left. eauto.
    + destruct (decide (j = i)) as [->|Hj]; [|destruct (Hoth j Hj) as [_ E]; rewrite E in H1; apply (Hn e); left; eauto].
      destruct (Hoth j' ltac:(congruence)) as [_ E]. rewrite E in H2. apply (Hn e'). left. eauto.
  - intros j x e H. rewrite Ec. destruct (Hold _ _ _ H) as [H'|Hn]; [by eapply (so_alive _ _ Hok)|].
    intros Hx. destruct (so_dead _ _ Hok x Hx) as (e' & He' & _). apply (Hn e'). by right.
  - rewrite Ec. apply (so_nodup _ _ Hok).
  - intros x. rewrite Ec. intros Hx. destruct (so_dead _ _ Hok x Hx) as (e & He & Ht). exists e.
    split; [by apply Hd|]. simpl. lia.
  - intros x e H. rewrite Ec. apply (so_gone _ _ Hok x e). by apply Hd.
  - unfold r', ring_obs. cbn [top eg]. rewrite Ew, gn_same. pose proof (so_top _ _ Hok).
    pose proof (safe_below w r Hinv Hb). lia.
  - intros x v. by apply cut_below.
  - intros x. by apply cut_unlinked.
  - intros x e [[j H]|H%Hd]; apply late_mono; [|apply (so_late _ _ Hok); by right].
    destruct (decide (j = i)) as [->|Hj].
    + destruct (N4 x e H) as [H'|(_ & ? & _)]; [|done]. apply (so_late _ _ Hok). left. eauto.
    + destruct (Hoth j Hj) as [_ E]. rewrite E in H. apply (so_late _ _ Hok). left. eauto.
Qed.

(** A write to a slot is a step of its thread. *)
Lemma slot_step t i it it' w r :
  rinv (w, r) -> slots w !! i = Some it -> (bounded r -> may_write t r i it it') ->
  let s' := (set_slot i it' w, ring_obs t w (set_slot i it' w) r) in
  ring_G t (w, r) s' /\ rinv s' /\ (bounded s'.2 <-> bounded r).
Proof.
  intros (Hinv & Hsh & Hok) Hi Hw s'. cbn [fst snd] in *.
  assert (bounded s'.2 <-> bounded r) as Hbb by (apply bounded_same; apply gn_same).
  destruct (obs_same m sz (epochs w) (eg r) Hinv) as [Hinv' Hev].
  assert (rinv s') as Hi'.
  { split_and!; [exact Hinv'|by apply set_slot_shape|]. intros Hb%Hbb. eapply slots_ok_write; eauto. }
  split; [|done]. intros _. split_and!; [done| | |].
  - intros _. split; [exact Hev|]. intros t' _ _. by split.
  - intros Hb%Hbb. specialize (Hok Hb). specialize (Hw Hb). assert (is_Some (slots w !! i)) as Hsi by eauto.
    destruct (written_slot t i it it' w r Hok Hi Hw) as (_ & _ & N3 & N4).
    pose proof (fun j Hj => obs_other t i it' w r j Hok Hsi Hj) as Hoth. cbv zeta in Hoth.
    split_and!; [simpl; lia| |].
    + intros x e [[j Hj]|Hd]; [|left; right; by apply (obs_dead t i it' w r)].
      destruct (decide (j = i)) as [->|Hne].
      * destruct (N4 x e Hj) as [H|(H1 & _)]; [left; left; eauto|auto].
      * destruct (Hoth j Hne) as [_ E]. unfold s' in Hj. cbn [snd] in Hj. rewrite E in Hj. left. left. eauto.
    + intros t' Hne. assert (forall p, locks r i <> Some (t', p)) as Hmine.
      { intros p Hp. destruct Hw as [[Hn _]|((q & Hq) & _)]; [|congruence].
        apply Hn. replace (removal_epoch it) with (ep w i) by (unfold ep; by rewrite Hi).
        apply (so_lock _ _ Hok). by rewrite Hp. }
      split.
      * intros j p. destruct (decide (j = i)) as [->|Hj]; [|unfold s'; cbn [snd]; by destruct (Hoth j Hj) as [-> _]].
        split; [|by intros ?%Hmine]. intros Hp. exfalso.
        destruct (obs_slot t i it' w r Hsi) as [Hl _]. unfold s' in Hp. cbn [snd] in Hp. rewrite Hl in Hp.
        destruct (_ =? _); [|done]. destruct (_ =? _); [by eapply Hmine|congruence].
      * intros j p Hp. assert (j <> i) as Hj by (intros ->; by eapply Hmine).
        unfold s'. cbn [fst snd]. rewrite slots_set_slot, list_lookup_insert_ne by done. split; [done|apply Hoth; done].
  - intros x v. split; [apply cut_mono|apply cut_new].
Qed.

(** ** Other accesses *)

Lemma bounded_back t (w w' : LogWorld) r :
  inv m sz (epochs w, eg r) ->
  epoch_G m sz t (epochs w, eg r) (epochs w', eg (ring_obs t w w' r)) ->
  bounded (ring_obs t w w' r) -> bounded r.
Proof.
  intros Hi HG. destruct (HG Hi) as [(_ & Hn & _) _]. unfold bounded in *. simpl in *. lia.
Qed.

(** The slots stay as they are: reads, the tail, the epoch manager. *)
Lemma obs_quiet t w w' r i :
  slots_ok w r -> slots w' = slots w -> gone w' = gone w ->
  locks (ring_obs t w w' r) i = locks r i /\ held (ring_obs t w w' r) i = held r i.
Proof.
  intros Hok Hs Hc. cbn [ring_obs locks held]. assert (ep w' i = ep w i) as -> by (unfold ep; by rewrite Hs).
  destruct (Z.eqb_spec (ep w i) invalid_epoch) as [E|E]; [by rewrite decide_True|].
  split; [|done]. destruct (locks r i) eqn:El; [|done]. destruct E. apply (so_lock _ _ Hok). by rewrite El.
Qed.

Lemma quiet_step t w w' r :
  rinv (w, r) -> slots w' = slots w -> gone w' = gone w -> only_more w w' -> ring_shape w' ->
  epoch_G m sz t (epochs w, eg r) (epochs w', eg (ring_obs t w w' r)) ->
  let s' := (w', ring_obs t w w' r) in ring_G t (w, r) s' /\ rinv s'.
Proof.
  intros (Hinv & Hsh & Hok) Hs Hc Hmore Hsh' HG s'. cbn [fst snd] in *.
  destruct (HG Hinv) as [(Hinv' & Hn & Hp) Hown]. pose proof (bounded_back t w w' r Hinv HG) as Hbb.
  assert (forall i, ep w' i = ep w i /\ obj w' i = obj w i) as Heo by (intros i; unfold ep, obj; by rewrite Hs).
  assert (rinv s') as Hi'.
  { split_and!; [done|done|]. intros Hb. specialize (Hok (Hbb Hb)).
    pose proof (fun i => obs_quiet t w w' r i Hok Hs Hc) as Hq.
    assert (forall x e, dead (ring_obs t w w' r) x e <-> dead r x e) as Hd.
    { intros x e. simpl. split; [|by left]. intros [?|[E _]]; [done|]. rewrite Hc in E.
      destruct (no_cons _ _ E). }
    unfold s'. cbn [fst snd]. split.
    - intros i. destruct (Heo i) as [-> _], (Hq i) as [-> _]. apply (so_lock _ _ Hok).
    - intros i. destruct (Heo i) as [-> ->], (Hq i) as [_ ->]. apply (so_free _ _ Hok).
    - intros i u p. destruct (Heo i) as [_ ->], (Hq i) as [-> ->]. apply (so_locked _ _ Hok).
    - intros i j x e e'. destruct (Hq i) as [_ ->], (Hq j) as [_ ->]. apply (so_once _ _ Hok).
    - intros i x e. destruct (Hq i) as [_ ->]. rewrite Hc. apply (so_alive _ _ Hok).
    - rewrite Hc. apply (so_nodup _ _ Hok).
    - intros x. rewrite Hc. intros Hx. destruct (so_dead _ _ Hok x Hx) as (e & He & Ht). exists e.
      split; [by apply Hd|]. simpl. lia.
    - intros x e. rewrite Hd, Hc. apply (so_gone _ _ Hok).
    - pose proof (so_top _ _ Hok). pose proof (safe_below w' (ring_obs t w w' r) Hinv' Hb). simpl in *. lia.
    - intros x v. by apply cut_below.
    - intros x. by apply cut_unlinked.
    - intros x e H. apply late_mono, (so_late _ _ Hok). destruct H as [[i H]|H%Hd]; [left; exists i|by right].
      by destruct (Hq i) as [_ <-]. }
  split; [|done]. intros _. split_and!; [done|done| |intros x v; split; [apply cut_mono|apply cut_new]].
  intros Hb. specialize (Hok (Hbb Hb)). pose proof (fun i => obs_quiet t w w' r i Hok Hs Hc) as Hq.
  unfold s'. cbn [fst snd]. split_and!; [simpl; lia| |].
  - intros x e [[i Hi]|Hd]; left; [left; exists i; by destruct (Hq i) as [_ <-]|].
    destruct Hd as [Hd|[E _]]; [by right|]. rewrite Hc in E. destruct (no_cons _ _ E).
  - intros t' _. split.
    + intros i p. by destruct (Hq i) as [-> _].
    + intros i p _. rewrite Hs. split; [done|apply Hq].
Qed.

(** Destroying the occupant of the only slot the thread has locked. *)
Definition may_destroy (t : Z) (r : RGh) (i : nat) (x e : Z) : Prop :=
  (exists p, locks r i = Some (t, p)) /\ held r i = Some (x, e) /\ e <= top r /\
  forall j p, locks r j = Some (t, p) -> j = i.

Definition log_object (x : Z) (w : LogWorld) : LogWorld := set_client (MkObjects (unlinked (client w)) (x :: gone w)) w.

Lemma obs_destroy t i x e w r :
  slots_ok w r -> may_destroy t r i x e ->
  let r' := ring_obs t w (log_object x w) r in
  (forall j, locks r' j = locks r j /\ held r' j = if decide (j = i) then None else held r j) /\
  (forall y e', dead r' y e' <-> dead r y e' \/ (y = x /\ e' = e)).
Proof.
  intros Hok ((p & Hp) & Hh & He & Honly) r'.
  assert (gone (log_object x w) <> gone w) as Hne.
  { intros E. by destruct (no_cons (gone w) x). }
  split.
  - intros j. cbn [r' ring_obs locks held]. change (ep (log_object x w) j) with (ep w j).
    rewrite (decide_False (P := gone (log_object x w) = gone w)) by done.
    destruct (Z.eqb_spec (ep w j) invalid_epoch) as [E|E].
    + split; [done|]. destruct (locks r j) as [[t' q]|] eqn:Ej.
      * destruct (Z.eqb_spec t' t) as [->|Hne']; [by rewrite decide_True by (by eapply Honly)|].
        rewrite decide_False; [done|]. intros ->. congruence.
      * apply (so_lock _ _ Hok) in E. rewrite Ej in E. by destruct E.
    + assert (locks r j = None) as Ej.
      { destruct (locks r j) eqn:Ej; [|done]. destruct E. apply (so_lock _ _ Hok). by rewrite Ej. }
      split; [done|]. rewrite decide_False; [done|]. intros ->. congruence.
  - intros y e'. simpl. split.
    + intros [?|[E (j & q & Hj & Hhj)]]; [by left|right]. injection E as ->.
      rewrite (Honly j q Hj), Hh in Hhj. by injection Hhj as ->.
    + intros [?|[-> ->]]; [by left|right]. split; [done|]. eauto.
Qed.

Lemma slots_ok_destroy t i x e w r :
  slots_ok w r -> inv m sz (epochs w, eg r) -> bounded r -> may_destroy t r i x e ->
  slots_ok (log_object x w) (ring_obs t w (log_object x w) r).
Proof.
  intros Hok Hinv Hb Hd. destruct (obs_destroy t i x e w r Hok Hd) as [Hj Hdead].
  destruct Hd as ((p & Hp) & Hh & He & Honly). set (r' := ring_obs t w (log_object x w) r) in *.
  assert (gn (eg r') = gn (eg r)) as Hgn by apply gn_same.
  assert (top r' = Z.max (top r) (safe m (epochs w))) as Htop by done.
  assert (only_more w (log_object x w)) as Hmore by (by intros ?).
  pose proof (fun y v => cut_below t w (log_object x w) r y v Hok) as Hcut. fold r' in Hcut.
  pose proof (fun y => cut_unlinked t w (log_object x w) r y Hok Hmore) as Hun. fold r' in Hun.
  pose proof (fun y e' => late_mono t w (log_object x w) r y e') as Hlate. fold r' in Hlate. clearbody r'.
  assert (forall j y e', held r' j = Some (y, e') -> held r j = Some (y, e') /\ j <> i) as Hsub.
  { intros j y e'. destruct (Hj j) as [_ ->]. case_decide; [done|auto]. }
  split.
  - intros j. destruct (Hj j) as [-> _]. apply (so_lock _ _ Hok).
  - intros j Hne. destruct (Hj j) as [_ ->]. rewrite decide_False; [by apply (so_free _ _ Hok)|].
    intros ->. apply Hne, (so_lock _ _ Hok). by rewrite Hp.
  - intros j u q. destruct (Hj j) as [-> ->]. intros Hq. destruct (so_locked _ _ Hok j u q Hq) as [H1 H2].
    split; [done|]. case_decide; [by left|done].
  - intros j j' y e1 e2 H1%Hsub H2%Hsub. eapply (so_once _ _ Hok); [apply H1|apply H2].
  - intros j y e' [H1 Hne]%Hsub. simpl. intros [->|Hy]%elem_of_cons.
    + apply Hne. by eapply (so_once _ _ Hok).
    + by eapply (so_alive _ _ Hok).
  - simpl. apply NoDup_cons. split; [by eapply (so_alive _ _ Hok)|apply (so_nodup _ _ Hok)].
  - intros y. simpl. intros [->|Hy]%elem_of_cons.
    + exists e. split; [apply Hdead; auto|]. lia.
    + destruct (so_dead _ _ Hok y Hy) as (e' & H1 & H2). exists e'. split; [apply Hdead; auto|]. lia.
  - intros y e' [H|[-> _]]%Hdead; simpl; [right; by eapply (so_gone _ _ Hok)|left].
  - pose proof (so_top _ _ Hok). pose proof (safe_below w r Hinv Hb). lia.
  - done.
  - done.
  - intros y e' [[j H%Hsub]|[H|[-> ->]]%Hdead]; apply Hlate, (so_late _ _ Hok); [|by right|]; left; [|eauto].
    exists j. apply H.
Qed.

Lemma destroy_step t x w r :
  rinv (w, r) -> (bounded r -> exists i e, may_destroy t r i x e) ->
  let s' := (log_object x w, ring_obs t w (log_object x w) r) in
  ring_G t (w, r) s' /\ rinv s' /\ (bounded s'.2 <-> bounded r).
Proof.
  intros (Hinv & Hsh & Hok) Hd s'. cbn [fst snd] in *.
  assert (bounded s'.2 <-> bounded r) as Hbb by (apply bounded_same; apply gn_same).
  destruct (obs_same m sz (epochs w) (eg r) Hinv) as [Hinv' Hev].
  assert (rinv s') as Hi'.
  { split_and!; [exact Hinv'|exact Hsh|]. intros Hb%Hbb. destruct (Hd Hb) as (i & e & Hd').
    apply (slots_ok_destroy t i x e); auto. }
  split; [|done]. intros _. split_and!; [done| | |].
  - intros _. split; [exact Hev|]. intros t' _ _. by split.
  - intros Hb%Hbb. destruct (Hd Hb) as (i & e & Hd'). destruct (obs_destroy t i x e w r (Hok Hb) Hd') as [Hj Hdead].
    destruct Hd' as ((p & Hp) & Hh & He & _). unfold s'. cbn [fst snd]. split_and!; [simpl; lia| |].
    + intros y e' [[j H]|[H|[-> ->]]%Hdead]; left; [|by right|left; eauto].
      destruct (Hj j) as [_ E]. rewrite E in H. case_decide; [done|]. left. eauto.
    + intros t' Hne. split.
      * intros j q. by destruct (Hj j) as [-> _].
      * intros j q Hq. split; [done|]. destruct (Hj j) as [_ ->]. rewrite decide_False; [done|]. intros ->. congruence.
  - intros y v. split; [apply cut_mono|apply cut_new].
Qed.

(** ** Triples of one thread *)

Section thread.
Context (t : Z) (t_nonzero : t <> 0) (fuel : nat).

Abbreviation rtriple := (triple (ring_obs t) (ring_R t) (ring_G t)).

(** The part of the rely that assertions about the ring depend on. *)
Definition ring_keep (s s' : LogWorld * RGh) : Prop :=
  rinv s' /\ (gn (eg s.2) <= gn (eg s'.2))%nat /\ (bounded s'.2 -> kept t s s' /\ top s.2 <= top s'.2) /\
  forall x v, cut s.2 x = Some v -> cut s'.2 x = Some v.

(** Facts that hold as long as the epochs have not run out. *)
Definition once (phi : LogWorld * RGh -> Prop) (s : LogWorld * RGh) : Prop :=
  rinv s /\ (bounded s.2 -> phi s).

Definition keeps (phi : LogWorld * RGh -> Prop) : Prop :=
  forall s s', rinv s -> ring_keep s s' -> bounded s'.2 -> phi s -> phi s'.

Lemma ring_R_keep s s' : rinv s -> ring_R t s s' -> ring_keep s s'.
Proof.
  intros Hi H. destruct (H Hi) as (H1 & H2 & H3 & H4). split_and!; [done| |done|done].
  apply epoch_R_gn in H2; [done|apply Hi].
Qed.

Lemma keep_bounded s s' : ring_keep s s' -> bounded s'.2 -> bounded s.2.
Proof. intros (_ & Hn & _). unfold bounded. lia. Qed.

Lemma once_stable phi : keeps phi -> stable (ring_R t) (once phi).
Proof.
  intros Hk s s' [Hi Hphi] HR. pose proof (ring_R_keep s s' Hi HR) as HK. split; [apply HK|].
  intros Hb. apply (Hk s s'); auto. apply Hphi. by eapply keep_bounded.
Qed.

Lemma pi_once_stable (P : Prop) phi : keeps phi -> stable (ring_R t) (fun s => P /\ once phi s).
Proof. intros Hk s s' [HP Hs] HR. split; [done|]. by eapply once_stable. Qed.

Lemma keeps_and phi psi : keeps phi -> keeps psi -> keeps (fun s => phi s /\ psi s).
Proof. intros H1 H2 s s' Hi HK Hb [? ?]. split; [by eapply H1|by eapply H2]. Qed.

Lemma keeps_pure (P : Prop) : keeps (fun _ => P).
Proof. by intros s s' _ _ _. Qed.

Lemma keeps_top lo : keeps (fun s => lo <= top s.2).
Proof. intros s s' _ (_ & _ & H & _) Hb Hlo. destruct (H Hb) as [_ ?]. lia. Qed.

Lemma keeps_late x e : keeps (fun s => unlinked_by s.2 x e).
Proof. intros s s' _ (_ & _ & _ & H) _ (v & Hv & He). exists v. auto. Qed.

Lemma keeps_gn lo : keeps (fun s => lo <= Z.of_nat (gn (eg s.2))).
Proof. intros s s' _ (_ & H & _) _ Hlo. lia. Qed.

(** What the thread has locked. *)
Definition no_lock (s : LogWorld * RGh) : Prop := forall i p, locks s.2 i <> Some (t, p).
Definition lock_on (i : nat) (p : Z) (Psi : Item -> option (Z * Z) -> Prop) (s : LogWorld * RGh) : Prop :=
  locks s.2 i = Some (t, p) /\ (forall j q, locks s.2 j = Some (t, q) -> j = i) /\
  exists it, slots s.1 !! i = Some it /\ Psi it (held s.2 i).

(** Objects of the thread that have never been in the list. *)
Definition absent (xs : list Z) (s : LogWorld * RGh) : Prop :=
  forall x, x ∈ xs -> own_objs t x /\ forall e, ~ has s.2 x e.

Lemma keeps_no_lock : keeps no_lock.
Proof. intros s s' _ (_ & _ & H & _) Hb Hn i p Hp. destruct (H Hb) as [(L & _) _]. by apply (Hn i p), L. Qed.

Lemma keeps_lock_on i p Psi : keeps (lock_on i p Psi).
Proof.
  intros s s' _ (_ & _ & H & _) Hb (Hl & Ho & it & Hit & HPsi). destruct (H Hb) as [(L & S & _) _].
  destruct (S i p Hl) as [E1 E2]. split_and!; [by apply L|intros j q Hq; by apply (Ho j q), L|].
  exists it. by rewrite E1, E2.
Qed.

Lemma keeps_absent xs : keeps (absent xs).
Proof.
  intros s s' _ (_ & Hn & H & _) Hb Ha x Hx. destruct (Ha x Hx) as (Ho & Hno). destruct (H Hb) as [(_ & _ & X) _].
  split; [done|]. intros e He. by apply (Hno e), X.
Qed.

#[local] Hint Resolve ring_R_refl once_stable pi_once_stable keeps_and keeps_pure keeps_top keeps_gn keeps_late keeps_no_lock
  keeps_lock_on keeps_absent : core.

(** *** Accesses *)

Lemma quiet_keep w w' r :
  rinv (w, r) -> slots w' = slots w -> gone w' = gone w -> only_more w w' -> ring_shape w' ->
  epoch_G m sz t (epochs w, eg r) (epochs w', eg (ring_obs t w w' r)) ->
  ring_keep (w, r) (w', ring_obs t w w' r).
Proof.
  intros Hi Hs Hc Hmore Hsh HG. destruct (quiet_step t w w' r Hi Hs Hc Hmore Hsh HG) as [HG' Hi'].
  pose proof Hi as (Hinv & _ & Hok). destruct (HG Hinv) as [(_ & Hn & _) _].
  split_and!; [done|done| |by intros; apply cut_mono]. intros Hb. specialize (Hok (bounded_back t w w' r Hinv HG Hb)).
  destruct (HG' Hi) as (_ & _ & K & _). destruct (K Hb) as (Ht & _ & _). split; [|done].
  pose proof (fun i => obs_quiet t w w' r i Hok Hs Hc) as Hq. split_and!.
  - intros i p. cbn [snd]. by destruct (Hq i) as [-> _].
  - intros i p _. cbn [fst snd]. rewrite Hs. split; [done|apply Hq].
  - intros x e _ [[i H]|[H|[E _]]]; cbn [snd] in *.
    + left. exists i. by destruct (Hq i) as [_ <-].
    + by right.
    + rewrite Hc in E. destruct (no_cons _ _ E).
Qed.

Lemma same_epoch_G w r : rinv (w, r) -> epoch_G m sz t (epochs w, eg r) (epochs w, eg (ring_obs t w w r)).
Proof.
  intros (Hinv & _) _. destruct (obs_same m sz (epochs w) (eg r) Hinv) as [_ Hev]. split; [exact Hev|].
  intros t' _ _. by split.
Qed.

(** An access that leaves the slots alone. *)
Lemma r_quiet {X} (f : LogWorld -> X * LogWorld) phi (pi : X -> Prop) (psi : X -> LogWorld * RGh -> Prop) :
  keeps phi -> (forall x, keeps (psi x)) ->
  (forall w, slots (f w).2 = slots w /\ gone (f w).2 = gone w /\ only_more w (f w).2 /\ epochs (f w).2 = epochs w /\
     (ring_shape w -> ring_shape (f w).2 /\ pi (f w).1)) ->
  (forall w r, rinv (w, r) -> bounded r -> let s' := ((f w).2, ring_obs t w (f w).2 r) in phi s' -> psi (f w).1 s') ->
  rtriple (once phi) (act f) (fun x s => pi x /\ once (psi x) s).
Proof.
  intros Hk Hk' Hf Hpsi. apply triple_act; [auto|auto|]. intros [w r] [Hi Hphi]. cbn [fst snd].
  destruct (Hf w) as (Hs & Hc & Hmore & He & Hsh). pose proof Hi as (_ & Hsh0 & _). destruct (Hsh Hsh0) as [Hsh' Hpi].
  assert (epoch_G m sz t (epochs w, eg r) (epochs (f w).2, eg (ring_obs t w (f w).2 r))) as HG.
  { simpl. rewrite He. by apply same_epoch_G. }
  destruct (quiet_step t w (f w).2 r Hi Hs Hc Hmore Hsh' HG) as [HG' Hi'].
  pose proof (quiet_keep w (f w).2 r Hi Hs Hc Hmore Hsh' HG) as HK.
  split; [done|]. split; [done|]. split; [done|]. intros Hb.
  pose proof (keep_bounded _ _ HK Hb) as Hb0. apply (Hpsi w r Hi Hb0). apply (Hk (w, r)); auto.
Qed.

Lemma r_rd {X} (f : LogWorld -> X) phi (pi : X -> Prop) (psi : X -> LogWorld * RGh -> Prop) :
  keeps phi -> (forall x, keeps (psi x)) ->
  (forall w, ring_shape w -> pi (f w)) ->
  (forall w r, rinv (w, r) -> bounded r -> phi (w, ring_obs t w w r) -> psi (f w) (w, ring_obs t w w r)) ->
  rtriple (once phi) (rd f) (fun x s => pi x /\ once (psi x) s).
Proof. intros Hk Hk' Hpi Hpsi. apply r_quiet; [done|done| |done]. intros w. simpl. split_and!; [done|done|by intros ?|done|]. intros Hsh. split; auto. Qed.

(** Code of the epoch manager. *)
Lemma r_epoch {A} (p : prog EpochWorld A) (Q : A -> EpochWorld * Gh -> Prop) phi :
  keeps phi ->
  triple (epoch_obs m) (epoch_R m sz t) (epoch_G m sz t) (inv m sz) p Q ->
  rtriple (once phi) (zoom p) (fun _ => once phi).
Proof.
  intros Hk Hp [w r] Hs. pose proof Hs as [(Hinv & _) _]. specialize (Hp (epochs w, eg r) Hinv). clear Hinv.
  revert w r Hs Hp. induction p as [a|X f k' IH|msg|]; intros w r Hs Hp [w' r'] HR.
  - by eapply once_stable.
  - pose proof (once_stable phi Hk _ _ Hs HR) as Hs'. pose proof Hs as [Hi _]. destruct (HR Hi) as (Hi' & HE & _).
    destruct (Hp _ HE) as [HG Hrg]. cbn [fst snd] in *.
    pose proof (IH (f (epochs w')).1 (set_epochs (f (epochs w')).2 w') (ring_obs t w' (set_epochs (f (epochs w')).2 w') r')) as IH'.
    assert (epoch_G m sz t (epochs w', eg r') (epochs (set_epochs (f (epochs w')).2 w'),
      eg (ring_obs t w' (set_epochs (f (epochs w')).2 w') r'))) as HG1.
    { simpl in HG |- *. destruct (f (epochs w')). exact HG. }
    pose proof Hi' as (_ & Hsh & _).
    destruct (quiet_step t w' (set_epochs (f (epochs w')).2 w') r' Hi' eq_refl eq_refl (fun _ H => H) Hsh HG1) as [HG' Hi''].
    pose proof (quiet_keep w' (set_epochs (f (epochs w')).2 w') r' Hi' eq_refl eq_refl (fun _ H => H) Hsh HG1) as HK.
    assert (once phi (set_epochs (f (epochs w')).2 w', ring_obs t w' (set_epochs (f (epochs w')).2 w') r')) as Hs''.
    { split; [done|]. intros Hb. apply (Hk (w', r')); [done..|]. apply Hs'. by eapply keep_bounded. }
    simpl in Hrg |- *. destruct (f (epochs w')) as [x e']. simpl in *. split; [exact HG'|]. by apply IH'.
  - destruct Hs as [Hi _]. destruct (HR Hi) as (_ & HE & _). by destruct (Hp _ HE).
  - done.
Qed.

(** Reading and writing a slot. *)
Lemma shape_slot w i : ring_shape w -> (i < Z.to_nat (2 ^ k))%nat -> exists it, slots w !! i = Some it.
Proof. intros (_ & _ & Hl) Hi. apply lookup_lt_is_Some. by rewrite Hl. Qed.

Lemma r_item_load {X} i (f : Item -> X) phi (psi : X -> LogWorld * RGh -> Prop) :
  (i < Z.to_nat (2 ^ k))%nat -> keeps phi -> (forall x, keeps (psi x)) ->
  (forall w r it, rinv (w, r) -> bounded r -> slots w !! i = Some it ->
     phi (w, ring_obs t w w r) -> psi (f it) (w, ring_obs t w w r)) ->
  rtriple (once phi) (item_load g i f) (fun x => once (psi x)).
Proof.
  intros Hi Hk Hk' H. unfold item_load. eapply triple_bind; [done| |].
  - apply (r_rd (fun w => option_map f (items_ (glist w g) !! i)) phi is_Some
      (fun x s => exists y, x = Some y /\ psi y s)); [done| | |].
    + intros x s s' Hs HK Hb (y & -> & Hy). exists y. split; [done|]. by eapply Hk'.
    + intros w Hsh. destruct (shape_slot w i Hsh Hi) as [it Hit]. unfold slots in Hit. rewrite Hit. eauto.
    + intros w r Hs Hb Hphi. pose proof Hs as (_ & Hsh & _). destruct (shape_slot w i Hsh Hi) as [it Hit].
      exists (f it). unfold slots in Hit. rewrite Hit. split; [done|]. by eapply H.
  - intros x s [[y ->] [Hs Hpsi]]. revert s Hs Hpsi.
    assert (rtriple (once (psi y)) (Ret y) (fun x => once (psi x))) as Ht by (apply triple_ret; auto).
    intros s Hs Hpsi. apply Ht. split; [done|]. intros Hb. by destruct (Hpsi Hb) as (? & [= <-] & ?).
Qed.

Lemma r_item_rmw {X} i (f : Item -> X * Item) phi (psi : X -> LogWorld * RGh -> Prop) :
  (i < Z.to_nat (2 ^ k))%nat -> keeps phi -> (forall x, keeps (psi x)) ->
  (forall w r it, rinv (w, r) -> bounded r -> phi (w, r) -> slots w !! i = Some it ->
     let s' := (set_slot i (f it).2 w, ring_obs t w (set_slot i (f it).2 w) r) in
     ((f it).2 = it /\ (phi s' -> psi (f it).1 s')) \/ (may_write t r i it (f it).2 /\ psi (f it).1 s')) ->
  rtriple (once phi) (item_rmw g i f) (fun x => once (psi x)).
Proof.
  intros Hi Hk Hk' H. unfold item_rmw. eapply triple_bind; [done| |].
  - apply (triple_act _ _ _ _ (once phi) (fun x s => is_Some x /\ once (fun s => exists y, x = Some y /\ psi y s) s)); [auto| |].
    + intros x. apply pi_once_stable. intros s s' Hs HK Hb (y & -> & Hy). exists y. split; [done|]. by eapply Hk'.
    + intros [w r] [Hs Hphi]. cbn [fst snd]. pose proof Hs as (Hinv & Hsh & Hok).
      destruct (shape_slot w i Hsh Hi) as [it Hit]. fold (slots w). rewrite Hit.
      specialize (H w r it Hs). destruct (f it) as [x it'] eqn:Ef. cbn [fst snd] in *. fold (set_slot i it' w).
      destruct (decide (it' = it)) as [->|Hne].
      * assert (slots (set_slot i it w) = slots w) as E by (rewrite slots_set_slot; by apply list_insert_id).
        assert (epoch_G m sz t (epochs w, eg r) (epochs (set_slot i it w), eg (ring_obs t w (set_slot i it w) r))) as HG
          by exact (same_epoch_G w r Hs).
        pose proof (set_slot_shape i it w Hsh) as Hsh'.
        destruct (quiet_step t w (set_slot i it w) r Hs E eq_refl (fun _ H => H) Hsh' HG) as [HG' Hi'].
        pose proof (quiet_keep w (set_slot i it w) r Hs E eq_refl (fun _ H => H) Hsh' HG) as HK.
        split; [done|]. split; [eauto|]. split; [done|]. intros Hb. pose proof (keep_bounded _ _ HK Hb) as Hb0.
        exists x. split; [done|]. destruct (H Hb0 (Hphi Hb0) Hit) as [[_ H']|[_ H']]; [|done].
        apply H', (Hk (w, r)); auto.
      * assert (bounded r -> may_write t r i it it' /\ psi x (set_slot i it' w, ring_obs t w (set_slot i it' w) r)) as H'.
        { intros Hb. destruct (H Hb (Hphi Hb) Hit) as [[? _]|?]; done. }
        destruct (slot_step t i it it' w r Hs Hit (fun Hb => proj1 (H' Hb))) as (HG & Hi' & Hbb).
        split; [done|]. split; [eauto|]. split; [done|]. intros Hb. exists x. split; [done|]. by apply H', Hbb.
  - intros x s [[y ->] [Hs Hpsi]].
    assert (rtriple (once (psi y)) (Ret y) (fun x => once (psi x))) as Ht by (apply triple_ret; auto).
    apply Ht. split; [done|]. intros Hb. by destruct (Hpsi Hb) as (? & [= <-] & ?).
Qed.

(** *** Locking, destroying and filling a slot *)

Definition idle (xs : list Z) (s : LogWorld * RGh) : Prop := no_lock s /\ absent xs s.
Definition busy (i : nat) (p : Z) (Psi : Item -> option (Z * Z) -> Prop) (xs : list Z) (s : LogWorld * RGh) : Prop :=
  lock_on i p Psi s /\ absent xs s.

(** A locked slot with its occupant, if it has one; and one without. *)
Definition occupied (p : Z) (it : Item) (h : option (Z * Z)) : Prop :=
  removal_epoch it = invalid_epoch /\ ((p = 0 /\ h = None) \/ (p <> 0 /\ h = Some (removed_item it, p))).
Definition vacant (it : Item) (h : option (Z * Z)) : Prop := removal_epoch it = invalid_epoch /\ h = None.
Definition vacant_for (x : Z) (it : Item) (h : option (Z * Z)) : Prop := vacant it h /\ removed_item it = x.

Lemma keeps_idle xs : keeps (idle xs).
Proof. apply keeps_and; auto. Qed.
Lemma keeps_busy i p Psi xs : keeps (busy i p Psi xs).
Proof. apply keeps_and; auto. Qed.
#[local] Hint Resolve keeps_idle keeps_busy : core.

Section write.
Context (w : LogWorld) (r : RGh) (i : nat) (it it' : Item).
Context (Hs : rinv (w, r)) (Hb : bounded r) (Hi : slots w !! i = Some it).
Let s' : LogWorld * RGh := (set_slot i it' w, ring_obs t w (set_slot i it' w) r).

Lemma write_ok : slots_ok w r.
Proof. by apply Hs. Qed.

Lemma write_other j : j <> i -> locks s'.2 j = locks r j /\ held s'.2 j = held r j.
Proof. intros Hj. apply (obs_other t i it' w r j write_ok); eauto. Qed.

Lemma write_here :
  locks s'.2 i = (if removal_epoch it' =? invalid_epoch
                  then if removal_epoch it =? invalid_epoch then locks r i else Some (t, removal_epoch it) else None) /\
  held s'.2 i = (if removal_epoch it' =? invalid_epoch then held r i
                 else if removal_epoch it =? invalid_epoch
                      then if removal_epoch it' =? 0 then None else Some (removed_item it', removal_epoch it')
                      else held r i).
Proof.
  replace (removal_epoch it) with (ep w i) by (unfold ep; by rewrite Hi). apply obs_slot. eauto.
Qed.

Lemma write_absent xs :
  absent xs (w, r) -> (forall y e, held s'.2 i = Some (y, e) -> held r i = Some (y, e) \/ y ∉ xs) -> absent xs s'.
Proof.
  intros Ha Hn x Hx. destruct (Ha x Hx) as (Ho & Hno). split; [done|].
  intros e [[j Hj]|Hd]; [|apply (Hno e); right; by apply (obs_dead t i it' w r)].
  destruct (decide (j = i)) as [->|Hne].
  - destruct (Hn x e Hj) as [H|H]; [|done]. apply (Hno e). left. eauto.
  - destruct (write_other j Hne) as [_ E]. rewrite E in Hj. apply (Hno e). left. eauto.
Qed.

Lemma write_slot : slots s'.1 !! i = Some it'.
Proof. unfold s'. cbn [fst]. rewrite slots_set_slot. apply list_lookup_insert_eq. by eapply lookup_lt_Some. Qed.

(** Taking the lock. *)
Lemma write_lock xs :
  removal_epoch it <> invalid_epoch -> it' = set_removal_epoch invalid_epoch it -> idle xs (w, r) ->
  may_write t r i it it' /\ busy i (removal_epoch it) (occupied (removal_epoch it)) xs s'.
Proof.
  intros Hne E [Hn Ha]. destruct write_here as [Hl Hh].
  assert (removal_epoch it' = invalid_epoch) as Ei by (by rewrite E).
  rewrite Ei, Z.eqb_refl in Hl, Hh. rewrite (proj2 (Z.eqb_neq _ _) Hne) in Hl.
  split; [by left|]. split; [split_and!|].
  - exact Hl.
  - intros j q Hj. destruct (decide (j = i)) as [|Hj']; [done|]. destruct (write_other j Hj') as [E' _].
    rewrite E' in Hj. by apply Hn in Hj.
  - exists it'. split; [apply write_slot|]. rewrite Hh. split; [done|].
    destruct (so_free w r write_ok i) as [[H1 H2]|[H1 H2]];
      (replace (ep w i) with (removal_epoch it) in * by (unfold ep; by rewrite Hi)); [done|by left|right].
    split; [done|]. rewrite H2. rewrite E. unfold obj. by rewrite Hi.
  - apply write_absent; [done|]. intros y e. rewrite Hh. auto.
Qed.

(** Writing to the slot while it is locked. *)
Lemma write_locked p (Psi Psi' : Item -> option (Z * Z) -> Prop) xs :
  (forall h, Psi it h -> vacant it h) -> removal_epoch it' = invalid_epoch -> (forall h, Psi it h -> Psi' it' h) ->
  busy i p Psi xs (w, r) -> may_write t r i it it' /\ busy i p Psi' xs s'.
Proof.
  intros Hv Ei HPsi [(Hp & Ho & it0 & Hit0 & H0) Ha]. cbn [fst snd] in *. rewrite Hi in Hit0. injection Hit0 as <-.
  destruct (Hv _ H0) as [Ev En]. destruct write_here as [Hl Hh]. rewrite Ei, Ev, Z.eqb_refl in Hl, Hh.
  split; [right; split; [eauto|]; split; [done|]; left; auto|]. split; [split_and!|].
  - by rewrite Hl.
  - intros j q Hj. destruct (decide (j = i)) as [|Hj']; [done|]. destruct (write_other j Hj') as [E' _].
    rewrite E' in Hj. by eapply Ho.
  - exists it'. split; [apply write_slot|]. rewrite Hh. auto.
  - apply write_absent; [done|]. intros y e. rewrite Hh. auto.
Qed.

(** Unlocking the slot. *)
Lemma write_unlock xs p Psi :
  may_write t r i it it' -> removal_epoch it' <> invalid_epoch -> busy i p Psi xs (w, r) -> no_lock s'.
Proof.
  intros _ Hne [(Hp & Ho & _) _] j q Hj. destruct write_here as [Hl _]. rewrite (proj2 (Z.eqb_neq _ _) Hne) in Hl.
  destruct (decide (j = i)) as [->|Hj']; [congruence|]. destruct (write_other j Hj') as [E' _].
  rewrite E' in Hj. by apply Hj', (Ho j q).
Qed.
End write.

Section slot.
Context (i : nat) (Hi : (i < Z.to_nat (2 ^ k))%nat).

Lemma t_lock prior xs : prior <> invalid_epoch ->
  rtriple (once (idle xs)) (item_cas g i invalid_epoch prior)
    (fun v => once (fun s => if v =? prior then busy i prior (occupied prior) xs s else idle xs s)).
Proof.
  intros Hp. apply r_item_rmw; [done|auto| |].
  - intros v. destruct (v =? prior); auto.
  - intros w r it Hs Hb Hidle Hit. cbn [fst snd]. destruct (Z.eqb_spec (removal_epoch it) prior) as [E|E].
    + right. rewrite <- E. apply write_lock; [done..| |done|done]. by rewrite E.
    + left. auto.
Qed.

(** A store to a vacant slot that keeps it locked. *)
Lemma t_store_vacant f p xs (Psi Psi' : Item -> option (Z * Z) -> Prop) :
  (forall it h, Psi it h -> vacant it h) -> (forall it h, Psi it h -> Psi' (f it) h) ->
  (forall it, removal_epoch (f it) = removal_epoch it) ->
  rtriple (once (busy i p Psi xs)) (item_store g i f) (fun _ => once (busy i p Psi' xs)).
Proof.
  intros Hv HPsi He. apply r_item_rmw; [done|auto|auto|].
  intros w r it Hs Hb Hbusy Hit. right. cbn [fst snd].
  assert (removal_epoch it = invalid_epoch) as Ei.
  { destruct Hbusy as [(_ & _ & it0 & Hit0 & H0) _]. cbn [fst snd] in Hit0. rewrite Hit in Hit0. injection Hit0 as <-.
    by destruct (Hv _ _ H0). }
  apply (write_locked w r i it (f it) Hs Hb Hit p Psi Psi' xs); [apply Hv|by rewrite He|apply HPsi|done].
Qed.

(** Putting the epoch back. *)
Lemma t_restore p xs : p <> 0 ->
  rtriple (once (busy i p (occupied p) xs)) (item_store g i (set_removal_epoch p)) (fun _ => once (idle xs)).
Proof.
  intros Hp0. apply r_item_rmw; [done|auto|auto|]. intros w r it Hs Hb Hbusy Hit. right. cbn [fst snd].
  pose proof Hbusy as [(Hl & _ & it0 & Hit0 & [Ei Hocc]) Ha]. cbn [fst snd] in *. rewrite Hit in Hit0. injection Hit0 as <-.
  destruct Hocc as [[? _]|[_ Hh]]; [done|].
  destruct (so_locked w r (write_ok w r Hs Hb) i t p Hl) as [Hpi _].
  assert (may_write t r i it (set_removal_epoch p it)) as Hw.
  { right. split; [eauto|]. split; [done|]. right. eauto. }
  split; [done|]. split.
  - by apply (write_unlock w r i it _ Hs Hb Hit xs p (occupied p)).
  - apply (write_absent w r i it _ Hs Hb Hit); [done|]. intros y e.
    destruct (write_here w r i it (set_removal_epoch p it) Hit) as [_ ->]. cbn [removal_epoch set_removal_epoch removed_item].
    rewrite (proj2 (Z.eqb_neq _ _) Hpi), Ei, Z.eqb_refl, (proj2 (Z.eqb_neq _ _) Hp0), Hh. auto.
Qed.

(** Freeing a vacant slot, and filling it. *)
Lemma t_free p xs (Psi : Item -> option (Z * Z) -> Prop) :
  (forall it h, Psi it h -> vacant it h) ->
  rtriple (once (busy i p Psi xs)) (item_store g i (set_removal_epoch 0)) (fun _ => once (idle xs)).
Proof.
  intros Hv. apply r_item_rmw; [done|auto|auto|]. intros w r it Hs Hb Hbusy Hit. right. cbn [fst snd].
  pose proof Hbusy as [(Hl & _ & it0 & Hit0 & H0) Ha]. cbn [fst snd] in *. rewrite Hit in Hit0. injection Hit0 as <-.
  destruct (Hv _ _ H0) as [Ei Hh].
  assert (may_write t r i it (set_removal_epoch 0 it)) as Hw.
  { right. split; [eauto|]. split; [done|]. left. auto. }
  split; [done|]. split.
  - by apply (write_unlock w r i it _ Hs Hb Hit xs p Psi).
  - apply (write_absent w r i it _ Hs Hb Hit); [done|]. intros y e.
    destruct (write_here w r i it (set_removal_epoch 0 it) Hit) as [_ ->]. cbn [removal_epoch set_removal_epoch].
    change (0 =? invalid_epoch) with false. rewrite Ei, Z.eqb_refl. done.
Qed.

Lemma t_fill p x v xs : x ∉ xs ->
  rtriple (once (fun s => busy i p (vacant_for x) (x :: xs) s /\ (0 < v < invalid_epoch /\ unlinked_by s.2 x v)))
    (item_store g i (set_removal_epoch v)) (fun _ => once (idle xs)).
Proof.
  intros Hx. apply r_item_rmw; [done|auto 6|auto|]. intros w r it Hs Hb [Hbusy [Hv Hlow]] Hit. right. cbn [fst snd].
  pose proof Hbusy as [(Hl & _ & it0 & Hit0 & [[Ei Hh] Ex]) Ha]. cbn [fst snd] in *. rewrite Hit in Hit0. injection Hit0 as <-.
  assert (may_write t r i it (set_removal_epoch v it)) as Hw.
  { right. split; [eauto|]. split; [done|]. left. split; [done|]. right. right. cbn [removed_item removal_epoch set_removal_epoch].
    rewrite Ex. destruct (Ha x) as (H1 & H3); [by left|]. done. }
  split; [done|]. split.
  - apply (write_unlock w r i it _ Hs Hb Hit (x :: xs) p (vacant_for x)); [done| |done]. simpl. lia.
  - apply (write_absent w r i it _ Hs Hb Hit).
    + intros y Hy. apply Ha. by right.
    + intros y e. destruct (write_here w r i it (set_removal_epoch v it) Hit) as [_ ->].
      cbn [removal_epoch set_removal_epoch removed_item]. rewrite (proj2 (Z.eqb_neq v _)), Ei, Z.eqb_refl, (proj2 (Z.eqb_neq v 0)) by lia.
      intros [= <- _]. right. by rewrite Ex.
Qed.

(** Destroying the occupant. *)
Lemma t_destroy p xs : p <> 0 ->
  rtriple (once (fun s => busy i p (occupied p) xs s /\ p <= top s.2)) (destroy_item destroy_log g i)
    (fun _ => once (busy i p vacant xs)).
Proof.
  intros Hp0. unfold destroy_item. eapply triple_bind; [done| |].
  - apply (r_item_load i (fun it => it) _ (fun it s => busy i p (fun it0 h => it0 = it /\ occupied p it h) xs s /\ p <= top s.2));
      [done|auto|auto|]. intros w r it Hs Hb Hit [[(Hl & Ho & it0 & Hit0 & H0) Ha] Ht]. cbn [fst snd] in *.
    rewrite Hit in Hit0. injection Hit0 as <-. split; [|done]. split; [|done]. split_and!; [done..|]. exists it. done.
  - intros it. apply (triple_act _ _ _ _ (once (fun s => busy i p (fun it0 h => it0 = it /\ occupied p it h) xs s /\ p <= top s.2))
      (fun _ => once (busy i p vacant xs))); [auto|auto|]. intros [w r] [Hs H]. cbn [fst snd].
    assert (bounded r -> exists j e, may_destroy t r j (removed_item it) e /\ (j = i /\ e = p) ) as Hd.
    { intros Hb. destruct (H Hb) as [[(Hl & Ho & it0 & Hit0 & -> & [Ei Hocc]) Ha] Ht]. cbn [fst snd] in *.
      exists i, p. split; [|done]. destruct Hocc as [[? _]|[_ Hh]]; [done|]. split_and!; eauto. }
    destruct (destroy_step t (removed_item it) w r Hs) as (HG & Hs' & Hbb).
    { intros Hb. destruct (Hd Hb) as (j & e & ? & _). eauto. }
    enough (once (busy i p vacant xs) (log_object (removed_item it) w, ring_obs t w (log_object (removed_item it) w) r))
      as E by exact (conj HG E). split; [exact Hs'|]. intros Hb%Hbb. destruct (H Hb) as [[(Hl & Ho & it0 & Hit0 & -> & [Ei Hocc]) Ha] Ht].
    destruct (Hd Hb) as (? & ? & Hd' & -> & ->). pose proof Hs as (_ & _ & Hok).
    destruct (obs_destroy t i (removed_item it) p w r (Hok Hb) Hd') as [Hj Hdead]. cbn [fst snd] in *. split; [split_and!|].
    + destruct (Hj i) as [E _]. cbn [snd]. by rewrite E.
    + intros j q Hq. destruct (Hj j) as [E _]. apply (Ho j q). cbn [snd] in Hq. by rewrite E in Hq.
    + exists it. split; [done|]. split; [done|]. destruct (Hj i) as [_ E]. rewrite decide_True in E by done. exact E.
    + intros x Hx. destruct (Ha x Hx) as (H1 & H3). split; [done|]. intros e [[j Hh]|Hdd].
      * destruct (Hj j) as [_ E]. cbn [snd] in Hh. rewrite E in Hh.
        destruct (decide (j = i)); [done|]. apply (H3 e). left. eauto.
      * apply Hdead in Hdd as [Hdd|[-> ->]]; [apply (H3 e); by right|].
        apply (H3 p). left. exists i. by destruct Hd' as (_ & ? & _).
Qed.
End slot.
End thread.
End ring.
