(* ===== verification/Collector.v ===== *)
(** * The garbage list and its epoch manager under any schedule

    The operations of the thread-safe [GarbageList] (src/common/garbage_list.h) as steps of
    the protocol of [Reclaim], and pools of threads that unlink objects, push them,
    scavenge, and use the epoch manager (src/common/epoch.cc) meanwhile. *)
From Stdlib Require Import ZArith Lia.
From stdpp Require Import base list gmap strings relations.
From S2P Require Import Prelude Bytes Prog Status Library Epoch Garbage Reclaim.
#[local] Open Scope Z_scope.
#[local] Open Scope machine_scope.
#[local] Open Scope prog_scope.

(** ** Clients

    A thread that uses list [g] and its epoch manager [m]: it operates the epoch manager,
    retires objects (unlinks them from the data structure, then pushes them), and scavenges. *)
Definition unlink_now (x : Z) (w : LogWorld) : LogWorld :=
  set_client (MkObjects (x :: unlinked (client w)) (destroyed (client w))) w.
Definition unlink (x : Z) : prog LogWorld unit := upd (unlink_now x).

Inductive collector_op :=
| COp (o : epoch_op) | CRetire (x callback context : Z) | CScavenge.

Definition collector_op_run (me : Z) (fuel : nat) (m g : Z) (o : collector_op) : prog LogWorld unit :=
  match o with
  | COp o => zoom (epoch_op_run me fuel m o)
  | CRetire x callback context =>
      unlink x ;;; GarbageList_Push destroy_log fuel g x callback context ;;; Ret tt
  | CScavenge => GarbageList_Scavenge destroy_log g ;;; Ret tt
  end.

Fixpoint collector_client (me : Z) (fuel : nat) (m g : Z) (ops : list collector_op) : prog LogWorld unit :=
  match ops with
  | [] => Ret tt
  | o :: r => collector_op_run me fuel m g o ;;; collector_client me fuel m g r
  end.

(** The objects it retires. *)
Definition retired_by (o : collector_op) : list Z := if o is CRetire x _ _ then [x] else [].
Definition retired (ops : list collector_op) : list Z := ops ≫= retired_by.

(** The parts of a list of lists without duplicates. *)
Lemma NoDup_bind_elem {A B} (l : list A) (f : A -> list B) i a :
  NoDup (l ≫= f) -> l !! i = Some a -> NoDup (f a).
Proof.
  intros Hnd Hi. apply list_elem_of_split_length in Hi as (l1 & l2 & -> & _).
  rewrite bind_app in Hnd. apply NoDup_app in Hnd as (_ & _ & Hnd). simpl in Hnd.
  by apply NoDup_app in Hnd as (? & _ & _).
Qed.

Lemma NoDup_bind_inj {A B} (l : list A) (f : A -> list B) i j a b x :
  NoDup (l ≫= f) -> l !! i = Some a -> l !! j = Some b -> x ∈ f a -> x ∈ f b -> i = j.
Proof.
  revert i j. induction l as [|c l IH]; [done|]. intros i j Hnd. simpl in Hnd.
  apply NoDup_app in Hnd as (_ & Hdis & Hnd).
  assert (forall n d, l !! n = Some d -> x ∈ f c -> x ∈ f d -> False) as Hno.
  { intros n d Hd Hc Hx. apply (Hdis x Hc). apply list_elem_of_bind. exists d. split; [done|].
    by eapply list_elem_of_lookup_2. }
  destruct i as [|i], j as [|j]; simpl; intros Hi Hj Ha Hb; [done|..].
  - injection Hi as <-. by destruct (Hno j b).
  - injection Hj as <-. by destruct (Hno i a).
  - f_equal. by eapply IH.
Qed.

(** ** One thread, under interference *)

Section thread.
Context (m : Z) (sz : nat) (sz_fits : Z.of_nat sz < 2 ^ 64) (g k : Z) (k_fits : 0 <= k < 64).
Context (own_objs : Z -> Z -> Prop) (t : Z) (t_nonzero : t <> 0) (fuel : nat).

Abbreviation obs := (ring_obs m g t).
Abbreviation R := (ring_R m sz g k own_objs t).
Abbreviation G := (ring_G m sz g k own_objs t).
Abbreviation rtriple := (triple obs R G).
Abbreviation once := (Reclaim.once m sz g k).
Abbreviation keeps := (Reclaim.keeps m sz g k own_objs t).
Abbreviation idle := (Reclaim.idle own_objs t).
Abbreviation busy := (Reclaim.busy g own_objs t).

#[local] Hint Resolve ring_R_refl ring_R_trans once_stable pi_once_stable keeps_and keeps_pure keeps_top keeps_gn
  keeps_late keeps_no_lock keeps_lock_on keeps_absent keeps_idle keeps_busy : core.

(** *** Facts that no step of the protocol changes *)

Lemma once_with (phi psi : LogWorld * RGh -> Prop) s :
  once (fun s => phi s /\ psi s) s <-> once phi s /\ once psi s.
Proof. unfold Reclaim.once. tauto. Qed.

(** [late x e]: the epoch [e] has been read since [x] was unlinked. *)
Definition late (x e : Z) (s : LogWorld * RGh) : Prop := 0 < e < invalid_epoch /\ unlinked_by s.2 x e.

Lemma keeps_late_epoch x e : keeps (late x e).
Proof. apply keeps_and; auto. Qed.
#[local] Hint Resolve keeps_late_epoch : core.

Lemma late_G x e s s' : once (late x e) s -> G s s' -> once (late x e) s'.
Proof.
  intros [Hi Hl] HG. destruct (HG Hi) as (Hi' & HE & _ & HC). split; [done|]. intros Hb.
  destruct Hl as [He (v & Hv & Hle)].
  - destruct Hi as [Hi _]. destruct (HE Hi) as [(_ & Hn & _) _]. unfold bounded in *. simpl in Hn. lia.
  - split; [done|]. exists v. split; [by apply HC|done].
Qed.

Lemma with_late {A} x e (p : prog LogWorld A) phi psi :
  rtriple (once phi) p (fun a => once (psi a)) ->
  rtriple (once (fun s => phi s /\ late x e s)) p (fun a => once (fun s => psi a s /\ late x e s)).
Proof.
  intros Hp. eapply triple_conseq; [apply (triple_frame obs R G (once (late x e)) p (once phi) (fun a => once (psi a)))| |].
  - by apply once_stable.
  - by apply late_G.
  - exact Hp.
  - intros s. apply once_with.
  - intros a s. apply once_with.
Qed.

(** *** One slot *)

Section slot.
Context (i : nat) (Hi : (i < Z.to_nat (2 ^ k))%nat).

Lemma t_IsSafe prior p Psi xs :
  rtriple (once (busy i p Psi xs)) (zoom (IsSafeToReclaim m prior))
    (fun b => once (fun s => busy i p Psi xs s /\ (b = true -> prior <= top s.2))).
Proof.
  eapply triple_conseq; [apply (r_quiet m sz g k own_objs t (fun w => (prior <=? safe m (epochs w), set_epochs (epochs w) w))
    (busy i p Psi xs) (fun _ => True) (fun b s => busy i p Psi xs s /\ (b = true -> prior <= top s.2)))| |].
  - auto.
  - intros b. apply keeps_and; [auto|]. intros s s' Hs HK Hb H E. by apply (keeps_top m sz g k own_objs t prior s s'), H.
  - intros w. split_and!; [done|done|by intros ?|done|]. intros Hsh. by split.
  - intros w r Hs Hb. cbv zeta. intros Hbusy. split; [done|]. cbn [fst snd top ring_obs set_epochs epochs].
    intros ?%Z.leb_le. lia.
  - done.
  - by intros b s [_ ?].
Qed.

Lemma t_reclaim prior xs :
  rtriple (once (busy i prior (occupied prior) xs)) (reclaim destroy_log g m i prior)
    (fun b => once (fun s => if b then busy i prior vacant xs s else idle xs s)).
Proof.
  unfold reclaim. destruct (Z.eqb_spec prior 0) as [->|Hp].
  - apply triple_ret; [auto|]. intros s [Hs H]. split; [done|]. intros Hb.
    destruct (H Hb) as [(Hl & Ho & it & Hit & Ei & Hocc) Ha]. split; [|done]. split_and!; [done..|].
    exists it. split; [done|]. split; [done|]. by destruct Hocc as [[_ ?]|[? _]].
  - eapply triple_bind; [auto|apply t_IsSafe|]. intros [|]; (eapply triple_bind; [auto| |]).
    + eapply triple_conseq; [by apply (t_destroy m sz g k own_objs t i Hi prior xs)| |by intros a s H; exact H].
      intros s [Hs H]. split; [done|]. intros Hb. destruct (H Hb) as [? E]. split; [done|by apply E].
    + intros []. apply triple_ret; auto.
    + eapply triple_conseq; [by apply (t_restore m sz g k own_objs t i Hi prior xs)| |by intros a s H; exact H].
      intros s [Hs H]. split; [done|]. intros Hb. by destruct (H Hb).
    + intros []. apply triple_ret; auto.
Qed.

(** The stores that prepare a vacant slot for its next object. *)
Lemma t_prepare x cb ctx (pre : (Item -> option (Z * Z) -> Prop) -> LogWorld * RGh -> Prop)
    (rest : prog LogWorld unit) Q :
  (forall f Psi Psi', (forall it h, Psi it h -> vacant it h) -> (forall it h, Psi it h -> Psi' (f it) h) ->
     (forall it, removal_epoch (f it) = removal_epoch it) ->
     rtriple (pre Psi) (item_store g i f) (fun _ => pre Psi')) ->
  rtriple (pre (vacant_for x)) rest Q ->
  rtriple (pre vacant)
    (item_store g i (set_destroy_callback cb) ;;; item_store g i (set_destroy_callback_context ctx) ;;;
     item_store g i (set_removed_item x) ;;; rest) Q.
Proof.
  intros Hst Hr.
  eapply triple_bind; [auto|by apply (Hst _ vacant vacant)|]. intros [].
  eapply triple_bind; [auto|by apply (Hst _ vacant vacant)|]. intros [].
  eapply triple_bind; [auto|by apply (Hst _ vacant (vacant_for x))|]. by intros [].
Qed.

Lemma t_fill_slot x cb ctx v p xs : x ∉ xs ->
  rtriple (once (fun s => busy i p vacant (x :: xs) s /\ late x v s)) (populate g i x cb ctx v)
    (fun _ => once (idle xs)).
Proof.
  intros Hx. apply (t_prepare x cb ctx (fun Psi => once (fun s => busy i p Psi (x :: xs) s /\ late x v s))).
  - intros f Psi Psi' H1 H2 H3. apply with_late. by apply (t_store_vacant m sz g k own_objs t i Hi f p (x :: xs) Psi Psi').
  - by apply (t_fill m sz g k own_objs t i Hi p x v xs).
Qed.

Lemma t_reset p xs :
  rtriple (once (busy i p vacant xs)) (reset_item g i) (fun _ => once (idle xs)).
Proof.
  apply (t_prepare 0 0 0 (fun Psi => once (busy i p Psi xs))).
  - intros f Psi Psi' H1 H2 H3. by apply (t_store_vacant m sz g k own_objs t i Hi f p xs Psi Psi').
  - apply (t_free m sz g k own_objs t i Hi p xs (vacant_for 0)). by intros it h [? _].
Qed.

(** Locking a slot that was seen with epoch [prior], then freeing its occupant; in the
    context [wrap] of other facts. *)
Lemma t_take (wrap : (LogWorld * RGh -> Prop) -> LogWorld * RGh -> Prop) prior xs :
  prior <> invalid_epoch ->
  (forall A (p : prog LogWorld A) phi psi, rtriple (once phi) p (fun a => once (psi a)) ->
     rtriple (wrap phi) p (fun a => wrap (psi a))) ->
  forall {A} (no : prog LogWorld A) (yes : bool -> prog LogWorld A) Q,
  rtriple (wrap (idle xs)) no Q ->
  (forall b, rtriple (wrap (fun s => if b : bool then busy i prior vacant xs s else idle xs s)) (yes b) Q) ->
  rtriple (wrap (idle xs))
    (let! result := item_cas g i invalid_epoch prior in
     if negb (result =? prior) then no else let! ok := reclaim destroy_log g m i prior in yes ok) Q.
Proof.
  intros Hp Hw A no yes Q Hno Hyes.
  eapply triple_bind; [auto|by apply Hw, (t_lock m sz g k own_objs t i Hi prior xs)|]. intros v. cbv beta.
  destruct (v =? prior); cbn [negb]; [|exact Hno].
  eapply triple_bind; [auto|apply Hw, t_reclaim|exact Hyes].
Qed.
End slot.

(** *** The operations *)

Lemma t_deref phi : keeps phi ->
  rtriple (once phi) (gl_epoch g) (fun m' s => m' = m /\ once phi s).
Proof.
  intros Hk. unfold gl_epoch. eapply triple_bind; [auto| |].
  - apply (r_rd m sz g k own_objs t (fun w => gl_epoch_manager_ (glist w g)) phi (fun x => x = Some m) (fun _ => phi)); [auto|auto| |auto].
    by intros w (H & _).
  - intros x s [-> Hs]. revert s Hs. apply triple_ret; [auto|]. by intros s Hs.
Qed.

Lemma t_count phi : keeps phi ->
  rtriple (once phi) (gl_read g item_count_) (fun n s => n = 2 ^ k /\ once phi s).
Proof.
  intros Hk. apply (r_rd m sz g k own_objs t (fun w => item_count_ (glist w g)) phi (fun x => x = 2 ^ k) (fun _ => phi)); [auto|auto| |auto].
  by intros w (_ & H & _).
Qed.

Lemma t_epoch {A} (p : prog EpochWorld A) Q phi : keeps phi ->
  triple (epoch_obs m) (epoch_R m sz t) (epoch_G m sz t) (inv m sz) p Q ->
  rtriple (once phi) (zoom p) (fun _ => once phi).
Proof. by apply r_epoch. Qed.

Lemma t_roll_over slot n phi : keeps phi ->
  rtriple (once phi) (roll_over m slot n) (fun _ => once phi).
Proof.
  intros Hk. unfold roll_over. case_match; [|apply triple_ret; auto].
  eapply t_epoch; [done|]. by apply triple_BumpCurrentEpoch.
Qed.

(** The slot that [Push] tries is inside the ring. *)
Lemma slot_in_ring a : (Z.to_nat (u64 a .& u64 (2 ^ k - 1)) < Z.to_nat (2 ^ k))%nat.
Proof.
  assert (0 < 2 ^ k <= 2 ^ 63) as Hk by (split; [lia|apply Z.pow_le_mono_r; lia]).
  rewrite (u64_id (2 ^ k - 1)) by (unfold fits; lia). pose proof (u64_fits a) as [Ha _].
  pose proof (land_range_r (u64 a) (2 ^ k - 1) Ha ltac:(lia)). lia.
Qed.

Lemma t_try removal x cb ctx xs : x ∉ xs ->
  rtriple (once (fun s => idle (x :: xs) s /\ late x removal s)) (GarbageList_try destroy_log g m removal x cb ctx)
    (fun r s => match r with
                | inl _ => once (fun s => idle (x :: xs) s /\ late x removal s) s
                | inr _ => once (idle xs) s
                end).
Proof.
  intros Hx. unfold GarbageList_try. set (start := fun s => idle (x :: xs) s /\ late x removal s).
  assert (keeps start) as Hst by (apply keeps_and; auto).
  assert (forall r : unit + Status, stable R (fun s => match r with inl _ => once start s | inr _ => once (idle xs) s end)) as Hout
    by (intros [[]|st']; auto).
  eapply triple_bind; [auto|apply (r_quiet m sz g k own_objs t _ start (fun _ => True) (fun _ => start))|]; [auto|auto| |auto|].
  { intros w. split_and!; [|done|by intros ?|done|].
    - unfold slots, glist. simpl. by rewrite lookup_insert_eq.
    - intros (H1 & H2 & H3). split; [|done]. unfold ring_shape, slots, glist in *. simpl. rewrite lookup_insert_eq. done. }
  intros tl s [_ Hs]. revert s Hs. eapply triple_bind; [auto|by apply t_count|].
  intros n s [-> Hs]. revert s Hs. cbv zeta. set (i := Z.to_nat _).
  assert (i < Z.to_nat (2 ^ k))%nat as Hi by apply slot_in_ring. clearbody i.
  eapply triple_bind; [auto|by apply t_roll_over|]. intros [].
  eapply triple_bind; [auto|apply (r_item_load m sz g k own_objs t i removal_epoch start (fun _ => start)); auto|].
  intros prior. destruct (Z.eqb_spec prior invalid_epoch) as [|Hp]; [by apply triple_ret; auto|].
  apply (t_take i Hi (fun phi => once (fun s => phi s /\ late x removal s)) prior (x :: xs) Hp).
  - intros A p phi psi H. by apply with_late.
  - by apply triple_ret; auto.
  - intros [|]; [|by apply triple_ret; auto].
    eapply triple_bind; [auto|by apply (t_fill_slot i Hi x cb ctx removal prior xs)|].
    intros []. by apply triple_ret; auto.
Qed.

(** The object has been unlinked. *)
Definition was_unlinked (x : Z) (s : LogWorld * RGh) : Prop := is_Some (cut s.2 x).

Lemma keeps_was_unlinked x : keeps (was_unlinked x).
Proof. intros s s' _ (_ & _ & _ & H) _ [v Hv]. exists v. auto. Qed.
#[local] Hint Resolve keeps_was_unlinked : core.

Lemma t_read_epoch x xs :
  rtriple (once (fun s => idle xs s /\ was_unlinked x s)) (zoom (GetCurrentEpoch m))
    (fun v => once (fun s => idle xs s /\ late x v s)).
Proof.
  eapply triple_conseq; [apply (r_quiet m sz g k own_objs t (fun w => (cur m (epochs w), set_epochs (epochs w) w))
    (fun s => idle xs s /\ was_unlinked x s) (fun _ => True) (fun v s => idle xs s /\ late x v s))| |].
  - auto.
  - auto.
  - intros w. split_and!; [done|done|by intros ?|done|]. intros Hsh. by split.
  - intros w r Hs Hb. cbv zeta. intros [Hidle [v Hv]]. split; [done|]. cbn [fst snd] in *.
    destruct Hs as (Hinv & _ & Hok). destruct Hinv as (_ & _ & Hc & He). cbn [fst snd] in *.
    assert (unwrapped (eg r)) as Hu by (unfold unwrapped, bounded, invalid_epoch in *; lia).
    destruct (He Hu) as [Hsafe _]. rewrite Hc, u64_id by (unfold unwrapped, fits in *; lia).
    split; [unfold bounded in Hb; lia|]. exists v. split; [done|].
    apply cut_new in Hv as [Hv| ->]; [|done]. pose proof (so_cut _ _ _ (Hok Hb) x v Hv). lia.
  - done.
  - by intros v s [_ ?].
Qed.

Lemma t_Push x cb ctx xs : x ∉ xs ->
  rtriple (once (fun s => idle (x :: xs) s /\ was_unlinked x s)) (GarbageList_Push destroy_log fuel g x cb ctx)
    (fun _ => once (idle xs)).
Proof.
  intros Hx. unfold GarbageList_Push. eapply triple_bind; [auto|by apply t_deref; auto|].
  intros m' s [-> Hs]. revert s Hs. eapply triple_bind; [auto|apply t_read_epoch|]. intros removal.
  apply (triple_loop obs R G) with (Inv := fun _ : unit => once (fun s => idle (x :: xs) s /\ late x removal s))
    (Q := fun _ => once (idle xs)); [auto|auto|].
  intros []. eapply triple_conseq; [by apply (t_try removal x cb ctx xs)|auto|]. by intros [].
Qed.

Lemma t_Scavenge_slot i n xs : (i < Z.to_nat (2 ^ k))%nat ->
  rtriple (once (idle xs)) (GarbageList_Scavenge_slot destroy_log g m i n) (fun _ => once (idle xs)).
Proof.
  intros Hi. unfold GarbageList_Scavenge_slot.
  eapply triple_bind; [auto|apply (r_item_load m sz g k own_objs t i removal_epoch (idle xs) (fun _ => idle xs)); auto|].
  intros prior. destruct (_ =? 0); [by apply triple_ret; auto|].
  destruct (Z.eqb_spec prior invalid_epoch) as [|Hp]; [by apply triple_ret; auto|]. cbn [orb].
  apply (t_take i Hi once prior xs Hp); [done|by apply triple_ret; auto|].
  intros [|]; [|by apply triple_ret; auto].
  eapply triple_bind; [auto|by apply (t_reset i Hi prior xs)|]. intros []. by apply triple_ret; auto.
Qed.

Lemma t_Scavenge xs :
  rtriple (once (idle xs)) (GarbageList_Scavenge destroy_log g) (fun _ => once (idle xs)).
Proof.
  unfold GarbageList_Scavenge. eapply triple_bind; [auto|by apply t_deref; auto|].
  intros m' s [-> Hs]. revert s Hs. eapply triple_bind; [auto|by apply t_count; auto|].
  intros n s [-> Hs]. revert s Hs.
  apply (triple_for_list obs R G) with (Inv := fun (_ : list nat) (_ : Z) => once (idle xs)); [auto|auto|].
  intros pre i post n E. apply t_Scavenge_slot.
  apply (f_equal (fun l => l !! length pre)) in E. rewrite list_lookup_middle in E by done.
  apply lookup_seq in E. simpl in *. lia.
Qed.

(** *** Clients *)

Lemma t_unlink x xs :
  rtriple (once (idle xs)) (unlink x) (fun _ => once (fun s => idle xs s /\ was_unlinked x s)).
Proof.
  eapply triple_conseq; [apply (r_quiet m sz g k own_objs t (fun w => (tt, unlink_now x w)) (idle xs)
    (fun _ => True) (fun _ s => idle xs s /\ was_unlinked x s))| |].
  - auto.
  - auto.
  - intros w. split_and!; [done|done| |done|]; [intros y Hy; by right|]. intros Hsh. by split.
  - intros w r Hs Hb. cbv zeta. intros Hidle. split; [done|]. unfold was_unlinked. cbn [fst snd cut ring_obs].
    destruct (cut r x); [eauto|]. rewrite decide_True by (by left). eauto.
  - done.
  - by intros v s [_ ?].
Qed.

Lemma t_op o xs : NoDup (retired_by o ++ xs) ->
  rtriple (once (idle (retired_by o ++ xs))) (collector_op_run t fuel m g o) (fun _ => once (idle xs)).
Proof.
  destruct o as [e|x cb ctx|]; cbn [collector_op_run retired_by app]; intros Hnd.
  - eapply t_epoch; [auto|]. by apply triple_op.
  - apply NoDup_cons in Hnd as [Hx _]. eapply triple_bind; [auto|apply t_unlink|]. intros [].
    eapply triple_bind; [auto|by apply t_Push|]. intros st. by apply triple_ret; auto.
  - eapply triple_bind; [auto|apply t_Scavenge|]. intros n. by apply triple_ret; auto.
Qed.

Lemma t_client ops : NoDup (retired ops) ->
  rtriple (once (idle (retired ops))) (collector_client t fuel m g ops) (fun _ => once (idle [])).
Proof.
  induction ops as [|o ops IH]; cbn [collector_client]; intros Hnd; [by apply triple_ret; auto|].
  eapply triple_bind; [auto|by apply t_op|]. intros []. apply IH. by apply NoDup_app in Hnd as (_ & _ & ?).
Qed.
End thread.


(** ** Pools of clients *)

Section pool.
Context (m : Z) (sz : nat) (sz_fits : Z.of_nat sz < 2 ^ 64) (g k : Z) (k_fits : 0 <= k < 64) (fuel : nat).
Context (cs : list (Z * list collector_op)).
Context (Hnd : NoDup cs.*1) (H0 : 0 ∉ cs.*1) (Hobjs : NoDup (cs ≫= fun c => retired c.2)).

Definition collector_pool : list (prog LogWorld unit) :=
  (fun c => collector_client c.1 fuel m g c.2) <$> cs.

(** The objects of thread [t]. *)
Definition own_retired (t x : Z) : Prop := exists ops, (t, ops) ∈ cs /\ x ∈ retired ops.

Definition thread_id_of (j : nat) : Z := from_option fst 0 (cs !! j).
Definition pool_obs (j : nat) := ring_obs m g (thread_id_of j).
Definition collector_R (j : nat) : LogWorld * RGh -> LogWorld * RGh -> Prop :=
  if cs !! j is Some c then ring_R m sz g k own_retired c.1 else fun _ _ => True.
Definition collector_G (j : nat) : LogWorld * RGh -> LogWorld * RGh -> Prop :=
  if cs !! j is Some c then ring_G m sz g k own_retired c.1 else eq.

Lemma id_nonzero j c : cs !! j = Some c -> c.1 <> 0.
Proof.
  intros Hj E. apply H0. rewrite <- E. apply list_elem_of_fmap. exists c.
  split; [done|]. by eapply list_elem_of_lookup_2.
Qed.

Lemma id_inj i j c d : cs !! i = Some c -> cs !! j = Some d -> c.1 = d.1 -> i = j.
Proof.
  intros Hi Hj E. eapply (NoDup_lookup cs.*1); [done|..]; rewrite list_lookup_fmap.
  - by rewrite Hi.
  - by rewrite Hj, E.
Qed.

Lemma own_disjoint t t' x : t <> t' -> own_retired t x -> own_retired t' x -> False.
Proof.
  intros Hne (ops & Ho & Hx) (ops' & Ho' & Hx').
  apply list_elem_of_lookup_1 in Ho as [i Hi], Ho' as [j Hj].
  assert (i <> j) as Hij by (intros ->; congruence).
  apply Hij. by apply (NoDup_bind_inj cs (fun c => retired c.2) i j (t, ops) (t', ops') x).
Qed.

Lemma collector_G_R i j s s' : i <> j -> collector_G i s s' -> collector_R j s s'.
Proof.
  unfold collector_G, collector_R. intros Hne. destruct (cs !! j) as [c|] eqn:Ej; [|done].
  destruct (cs !! i) as [d|] eqn:Ei; [|intros <-; apply ring_R_refl].
  assert (d.1 <> c.1) as Hd by (intros E; apply Hne; by eapply id_inj).
  apply ring_G_R; [done|by eapply id_nonzero|]. intros x. by apply own_disjoint.
Qed.

Definition collector_at (s0 : LogWorld * RGh) (sched : list nat) :=
  exec sched (observe_each pool_obs collector_pool, s0).

(** Nothing has been locked, pushed or unlinked yet. *)
Definition fresh (s : LogWorld * RGh) : Prop :=
  rinv m sz g k s /\ (forall i, locks s.2 i = None) /\ (forall x e, ~ has s.2 x e).

Lemma pool_fresh s0 :
  fresh s0 ->
  pool_rg collector_R collector_G (fun _ _ => rinv m sz g k) (observe_each pool_obs collector_pool) s0.
Proof.
  intros (Hi & Hl & Hh) j p. rewrite observe_each_lookup. unfold collector_pool. rewrite list_lookup_fmap.
  destruct (cs !! j) as [c|] eqn:Ej; simpl; intros [= <-].
  unfold collector_R, collector_G, pool_obs, thread_id_of. rewrite Ej. simpl.
  eapply rg_mono; [|apply (t_client m sz sz_fits g k k_fits own_retired c.1)].
  - by intros _ s [? _].
  - by eapply id_nonzero.
  - by eapply (NoDup_bind_elem cs (fun c => retired c.2)).
  - split; [done|]. intros _. split.
    + intros i p E. by rewrite Hl in E.
    + intros x Hx. split; [|by intros e; apply Hh]. exists c.2. destruct c. split; [|done].
      by eapply list_elem_of_lookup_2.
Qed.

Lemma collector_R_refl j : reflexive _ (collector_R j).
Proof. unfold collector_R. destruct (cs !! j); [apply ring_R_refl|done]. Qed.

Lemma collector_R_trans j : transitive _ (collector_R j).
Proof. unfold collector_R. destruct (cs !! j); [apply ring_R_trans|done]. Qed.

(** At any time the threads respect the protocol. *)
Definition sound (ts : list (prog (LogWorld * RGh) unit)) (s : LogWorld * RGh) : Prop :=
  pool_rg collector_R collector_G (fun _ _ => rinv m sz g k) ts s /\ rinv m sz g k s.

Lemma sound_exec sched ts s :
  sound ts s -> let c := exec sched (ts, s) in sound c.1 c.2 /\ rtc (any_step collector_G) s c.2.
Proof.
  intros [Hp Hi]. destruct (exec_rg collector_R collector_G collector_R_refl collector_R_trans collector_G_R
    (fun (_ : nat) (_ : unit) => rinv m sz g k) sched ts s Hp) as [Hp' Hs].
  split; [|done]. split; [done|]. clear Hp Hp'. induction Hs as [s|s s' s'' [i Hst] _ IH]; [done|].
  apply IH. unfold collector_G in Hst. destruct (cs !! i); [apply (Hst Hi)|by subst].
Qed.

(** Objects unlinked during a period are cut after its start. *)
Definition cut_from (n : nat) (xs : list Z) (s : LogWorld * RGh) : Prop :=
  (n <= gn (eg s.2))%nat /\ forall x v, x ∉ xs -> cut s.2 x = Some v -> (n <= v)%nat.

Lemma cut_from_steps n xs s s' :
  rinv m sz g k s -> rtc (any_step collector_G) s s' -> cut_from n xs s -> cut_from n xs s'.
Proof.
  intros Hi Hs. induction Hs as [s|s s' s'' [i Hst] _ IH]; [done|]. intros [Hn Hc].
  unfold collector_G in Hst. destruct (cs !! i) as [c|]; [|subst; by apply IH].
  destruct (Hst Hi) as (Hi' & HE & _ & HC). apply IH; [done|]. split.
  - destruct Hi as [Hi _]. destruct (HE Hi) as [(_ & Hle & _) _]. simpl in Hle. lia.
  - intros x v Hx Hv. apply HC in Hv as [Hv| ->]; [by eapply Hc|done].
Qed.
End pool.

(** ** From a fresh manager and a fresh list *)

Definition collector_start (m g : Z) (w : LogWorld) : Prop :=
  epoch_start m (epochs w) /\ gl_epoch_manager_ (glist w g) = None /\ client w = MkObjects [] [].

(** Initialising the manager, then the list with [2 ^ k] slots. *)
Definition collector_init (m g k : Z) (w : LogWorld) : LogWorld :=
  (run (zoom (EpochManager_Initialize m) ;;; GarbageList_Initialize g (Some m) (2 ^ k)) w).2.

Lemma power_of_two k : 0 <= k < 64 -> IS_POWER_OF_TWO (2 ^ k) = true.
Proof.
  intros Hk. assert (0 < 2 ^ k <= 2 ^ 63) as H by (split; [lia|apply Z.pow_le_mono_r; lia]).
  unfold IS_POWER_OF_TWO. rewrite (proj2 (Z.eqb_neq _ _)) by lia. cbn [negb andb].
  rewrite u64_id by (unfold fits; lia). replace (2 ^ k - 1) with (Z.ones k) by (rewrite Z.ones_equiv; lia).
  rewrite Z.land_ones by lia. by rewrite Z.mod_same by lia.
Qed.

Lemma collector_init_eq m g k w : 0 <= k < 64 -> collector_start m g w ->
  collector_init m g k w =
    set_glist g (MkGarbageList (Some m) 0 (2 ^ k) (replicate (Z.to_nat (2 ^ k)) Item_new))
      (set_epochs (initialized m (epochs w)) w).
Proof.
  intros Hk (_ & Hg & _). unfold collector_init. rewrite run_bind, run_zoom.
  change (get w) with (epochs w). fold (initialized m (epochs w)).
  assert (exists st, (run (EpochManager_Initialize m) (epochs w)).1 = Done st) as [st ->].
  { unfold EpochManager_Initialize. simpl. by destruct (epoch_table_ (mgr (epochs w) m)); eauto. }
  simpl. change (glist (set_epochs (initialized m (epochs w)) w) g) with (glist w g). rewrite Hg, power_of_two by done.
  rewrite (proj2 (Z.eqb_neq _ _)) by lia. done.
Qed.

Definition ring_gh0 : RGh := MkRGh gh0 (fun _ => None) (fun _ => None) (fun _ _ => False) 0 (fun _ => None).

Lemma collector_init_fresh m g k w : 0 <= k < 64 -> collector_start m g w ->
  fresh m 128 g k (collector_init m g k w, ring_gh0).
Proof.
  intros Hk Hst. rewrite collector_init_eq by done. destruct Hst as (He & Hg & Hc).
  set (w' := set_glist g _ _). assert (slots g w' = replicate (Z.to_nat (2 ^ k)) Item_new) as Hs
    by (unfold slots, w', glist, set_glist; simpl; by rewrite lookup_insert_eq).
  assert (client w' = MkObjects [] []) as Hc' by exact Hc.
  assert (forall i, ep g w' i = 0) as Hep.
  { intros i. unfold ep. rewrite Hs. destruct (_ !! i) eqn:E; [|done]. by apply lookup_replicate in E as [-> _]. }
  split; [|split; [done|]].
  - split_and!.
    + cbn [fst snd]. apply (initialized_inv m (epochs w) He).
    + split_and!; [unfold w', glist, set_glist; simpl; by rewrite lookup_insert_eq..|].
      cbn [fst]. by rewrite Hs, length_replicate.
    + intros _. cbn [fst snd]. split; unfold gone; rewrite ?Hc'; simpl; try done.
      * intros i. rewrite Hep. split; [done|by intros []].
      * intros i _. left. by rewrite Hep.
      * constructor.
      * by intros x []%not_elem_of_nil.
      * intros x. split; [by intros []|by intros []%not_elem_of_nil].
      * by intros x e [[i Hi]|Hi].
  - by intros x e [[i Hi]|Hi].
Qed.

Section execution.
Context (m g k : Z) (fuel : nat) (w : LogWorld) (cs : list (Z * list collector_op)) (sched : list nat).

(** The pool's state after its first [n] accesses. *)
Definition collector_exec (n : nat) :=
  exec (take n sched) (collector_pool m g fuel cs, collector_init m g k w).

Context (Hk : 0 <= k < 64) (Hst : collector_start m g w) (Hnd : NoDup cs.*1) (H0 : 0 ∉ cs.*1).
Context (Hobjs : NoDup (cs ≫= fun c => retired c.2)).

Definition observed (n : nat) :=
  collector_at m g fuel cs (collector_init m g k w, ring_gh0) (take n sched).

Lemma observed_state n : (observed n).2.1 = (collector_exec n).2.
Proof. apply exec_observe_each. Qed.

Lemma observed_sound n : sound m 128 g k cs (observed n).1 (observed n).2.
Proof.
  apply sound_exec; [done|done|done|]. pose proof (collector_init_fresh m g k w Hk Hst) as Hf.
  split; [by apply pool_fresh|apply Hf].
Qed.

Lemma observed_bounded n : Z.of_nat (length sched) < 2 ^ 64 - 2 -> bounded (observed n).2.2.
Proof.
  intros Hlen. unfold bounded, invalid_epoch.
  pose proof (exec_each_bound (pool_obs m g cs) (fun r => gn (eg r)) (take n sched) (collector_pool m g fuel cs)
    (collector_init m g k w, ring_gh0)) as Hb. cbn [snd ring_gh0 eg gn gh0] in Hb.
  unfold observed, collector_at. rewrite length_take in Hb.
  specialize (Hb ltac:(intros j s s' r; simpl; destruct (_ =? _); lia)). lia.
Qed.

Lemma observed_ok n : Z.of_nat (length sched) < 2 ^ 64 - 2 -> slots_ok g (collector_exec n).2 (observed n).2.2.
Proof.
  intros Hlen. rewrite <- observed_state. destruct (observed_sound n) as [_ (_ & _ & Hok)].
  by apply Hok, observed_bounded.
Qed.

Lemma observed_step n :
  (observed (S n)).2 = (observed n).2 \/
  exists t, (observed (S n)).2.2 = ring_obs m g t (observed n).2.1 (observed (S n)).2.1 (observed n).2.2.
Proof.
  unfold observed, collector_at. destruct (sched !! n) as [j|] eqn:Ej.
  - rewrite (take_S_r _ _ _ Ej), exec_app. simpl.
    destruct (exec_observe_each (pool_obs m g cs) (take n sched) (collector_pool m g fuel cs)
      (collector_init m g k w, ring_gh0)) as [E _].
    destruct (exec (take n sched) (observe_each (pool_obs m g cs) _, _)) as [ts s]. simpl in E. subst ts.
    destruct (pool_step_each (pool_obs m g cs) j
      (exec (take n sched) (collector_pool m g fuel cs, collector_init m g k w)).1 s) as (_ & _ & [E|E]); [by left|].
    right. eexists. exact E.
  - apply lookup_ge_None in Ej. left. by rewrite !take_ge by lia.
Qed.

(** While entry [i] stays protected, no epoch from its entering epoch on becomes safe. *)
Lemma top_while_protected i p k1 n :
  Z.of_nat (length sched) < 2 ^ 64 - 2 -> p <> 0 ->
  (forall j, (k1 <= j <= k1 + n)%nat -> prot (epochs (collector_exec j).2) m i = p) ->
  gc (eg (observed (k1 + n)).2.2) i = gc (eg (observed k1).2.2) i /\
  top (observed (k1 + n)).2.2 < Z.of_nat (gn (eg (observed k1).2.2)).
Proof.
  intros Hlen Hp Hprot.
  assert (forall j, (k1 <= j <= k1 + n)%nat -> prot (epochs (observed j).2.1) m i = p) as Hp'.
  { intros j Hj. rewrite observed_state. by apply Hprot. }
  clear Hprot. induction n as [|n IH].
  - rewrite Nat.add_0_r. split; [done|]. apply (so_top _ _ _ (observed_ok k1 Hlen)).
  - destruct IH as [IHg IHt]; [intros j Hj; apply Hp'; lia|]. rewrite Nat.add_succ_r in *.
    destruct (observed_step (k1 + n)) as [->|[t E]]; [done|].
    pose proof (Hp' (k1 + n)%nat ltac:(lia)) as E1. pose proof (Hp' (S (k1 + n)) ltac:(lia)) as E2.
    assert (gc (eg (observed (S (k1 + n))).2.2) i = gc (eg (observed k1).2.2) i) as Eg.
    { rewrite E. cbn [eg ring_obs gc epoch_obs]. by rewrite E1, E2, Z.eqb_refl. }
    split; [done|].
    assert (forall n, unwrapped (eg (observed n).2.2)) as Hu.
    { intros n'. pose proof (observed_bounded n' Hlen). unfold unwrapped, bounded, invalid_epoch in *. lia. }
    destruct (observed_sound k1) as [_ [(_ & _ & _ & W1) _]]. destruct (W1 (Hu k1)) as [_ P1].
    destruct (observed_sound (S (k1 + n))) as [_ [(_ & _ & _ & W2) _]]. destruct (W2 (Hu _)) as [_ P2].
    specialize (P1 i). specialize (P2 i). cbn [fst snd] in P1, P2.
    rewrite (Hp' k1) in P1 by lia. rewrite E2 in P2. specialize (P1 Hp). specialize (P2 Hp).
    rewrite E. cbn [top ring_obs]. unfold safe in *. lia.
Qed.
End execution.

(** C4.  Under any schedule of such threads no check fails, no null manager is dereferenced,
    no slot outside the ring is touched, and no object is destroyed twice or before it
    was unlinked. *)
Theorem collector_safe m g k fuel w cs sched n :
  0 <= k < 64 -> collector_start m g w -> NoDup cs.*1 -> 0 ∉ cs.*1 -> NoDup (cs ≫= fun c => retired c.2) ->
  Z.of_nat (length sched) < 2 ^ 64 - 2 ->
  let c := collector_exec m g k fuel w cs sched n in
  (forall j pr msg, c.1 !! j = Some pr -> outcome pr <> Some (Faulted msg)) /\
  NoDup (destroyed (client c.2)) /\ (forall x, x ∈ destroyed (client c.2) -> x ∈ unlinked (client c.2)).
Proof.
  intros Hk Hst Hnd H0 Hobjs Hlen c.
  pose proof (observed_ok m g k fuel w cs sched Hk Hst Hnd H0 Hobjs n Hlen) as Hok. fold c in Hok.
  split; [|split; [apply (so_nodup _ _ _ Hok)|]].
  - intros j pr msg Hj Ho. destruct (observed_sound m g k fuel w cs sched Hk Hst Hnd H0 Hobjs n) as [Hp _].
    unfold observed, collector_at in Hp.
    rewrite (proj1 (exec_observe_each (pool_obs m g cs) (take n sched) _ _)) in Hp.
    specialize (Hp j (observe (pool_obs m g cs j) pr)). rewrite observe_each_lookup in Hp.
    change (exec (take n sched) (collector_pool m g fuel cs, (collector_init m g k w, ring_gh0).1)) with c in Hp.
    rewrite Hj in Hp. specialize (Hp eq_refl).
    destruct pr as [a|X f k'|msg'|]; simplify_eq. simpl in Hp. eapply Hp, collector_R_refl.
  - intros x (e & Hd & _)%(so_dead _ _ _ Hok). apply (so_unlinked _ _ _ Hok x).
    destruct (so_late _ _ _ Hok x e) as (v & Hv & _); [by right|eauto].
Qed.

(** C3.  Grace periods, under any schedule of threads that share a thread-safe garbage list
    and its epoch manager and retire, scavenge, protect and bump: while an epoch-table
    entry stays protected, no object is destroyed that was still linked when the period
    began. *)
Theorem no_destruction_while_protected m g k fuel w cs sched k1 k2 i p x :
  0 <= k < 64 -> collector_start m g w -> NoDup cs.*1 -> 0 ∉ cs.*1 -> NoDup (cs ≫= fun c => retired c.2) ->
  Z.of_nat (length sched) < 2 ^ 64 - 2 ->
  let at_ n := (collector_exec m g k fuel w cs sched n).2 in
  (k1 <= k2)%nat -> p <> 0 -> (forall n, (k1 <= n <= k2)%nat -> prot (epochs (at_ n)) m i = p) ->
  x ∉ unlinked (client (at_ k1)) -> x ∉ destroyed (client (at_ k2)).
Proof.
  intros Hk Hst Hnd H0 Hobjs Hlen at_ Hk12 Hp Hprot Hx Hd.
  set (O n := observed m g k fuel w cs sched n).
  pose proof (fun n => observed_ok m g k fuel w cs sched Hk Hst Hnd H0 Hobjs n Hlen) as Hok.
  destruct (so_dead _ _ _ (Hok k2) x Hd) as (e & Hde & He). fold (O k2) in *.
  destruct (so_late _ _ _ (Hok k2) x e) as (v & Hv & Hle); [by right|]. fold (O k2) in Hv.
  destruct (top_while_protected m g k fuel w cs sched Hk Hst Hnd H0 Hobjs i p k1 (k2 - k1) Hlen Hp) as [_ Ht].
  { intros n Hn. apply Hprot. lia. }
  replace (k1 + (k2 - k1))%nat with k2 in Ht by lia. fold (O k1) (O k2) in Ht.
  enough (cut_from (gn (eg (O k1).2.2)) (unlinked (client (at_ k1))) (O k2).2) as [_ Hc] by (specialize (Hc x v Hx Hv); lia).
  pose proof (observed_sound m g k fuel w cs sched Hk Hst Hnd H0 Hobjs k1) as Hs1. fold (O k1) in Hs1.
  destruct (sound_exec m 128 g k cs Hnd H0 Hobjs (take (k2 - k1) (drop k1 sched)) _ _ Hs1) as [_ Hrtc].
  assert ((exec (take (k2 - k1) (drop k1 sched)) ((O k1).1, (O k1).2)) = O k2) as E.
  { rewrite <- surjective_pairing. unfold O, observed, collector_at. rewrite <- exec_app. f_equal.
    rewrite <- (take_drop k1 (take k2 sched)), take_take, Nat.min_l, skipn_firstn_comm by lia. done. }
  rewrite E in Hrtc. destruct Hs1 as [_ Hi1]. apply (cut_from_steps m 128 g k cs _ _ _ _ Hi1 Hrtc).
  split; [done|]. intros y v' Hy Hv'. exfalso. apply Hy, (so_unlinked _ _ _ (Hok k1) y). eauto.
Qed.

(** *** Concrete runs *)

Definition fresh_world : LogWorld := MkGW ∅ (MkEpochWorld ∅ (MkThreads ∅ ∅)) (MkObjects [] []).

Lemma fresh_world_start : collector_start 100 5 fresh_world.
Proof. done. Qed.

Example collector_safe_witness :
  let cs := [(5, [CRetire 11 7 0; COp OpBumpCurrentEpoch]); (9, [CScavenge])] in
  let c := collector_exec 100 5 2 10 fresh_world cs (replicate 300 0%nat ++ replicate 60 1%nat) 360 in
  destroyed (client c.2) = [11] /\
  ((forall j pr msg, c.1 !! j = Some pr -> outcome pr <> Some (Faulted msg)) /\
   NoDup (destroyed (client c.2)) /\ (forall x, x ∈ destroyed (client c.2) -> x ∈ unlinked (client c.2))).
Proof.
  intros cs c. split; [by vm_compute|].
  apply (collector_safe 100 5 2 10 fresh_world cs (replicate 300 0%nat ++ replicate 60 1%nat) 360);
    [lia|apply fresh_world_start|apply (bool_decide_unpack _); by vm_compute..|by vm_compute].
Defined.

Example no_destruction_while_protected_witness :
  let cs := [(5, [COp OpProtect]); (9, [CRetire 11 7 0; COp OpBumpCurrentEpoch; CScavenge])] in
  let c := collector_exec 100 5 2 10 fresh_world cs (replicate 12 0%nat ++ replicate 320 1%nat) 332 in
  unlinked (client c.2) = [11] /\ outcome <$> (c.1 !! 1%nat) = Some (Some (Done tt)) /\ 11 ∉ destroyed (client c.2).
Proof.
  intros cs c. split; [by vm_compute|]. split; [by vm_compute|].
  apply (no_destruction_while_protected 100 5 2 10 fresh_world cs (replicate 12 0%nat ++ replicate 320 1%nat) 12 332 117 1 11);
    [lia|apply fresh_world_start|apply (bool_decide_unpack _); by vm_compute..|by vm_compute|lia|done| |].
  - intros n Hn.
    assert (Forall (fun n => prot (epochs (collector_exec 100 5 2 10 fresh_world cs
      (replicate 12 0%nat ++ replicate 320 1%nat) n).2) 100 117 = 1) (seq 12 321)) as HF
      by (apply (bool_decide_unpack _); by vm_compute).
    rewrite Forall_forall in HF. apply HF, elem_of_seq. lia.
  - apply (bool_decide_unpack _). by vm_compute.
Defined.
