(* ===== verification/Metrics.v ===== *)
(** * Per-thread statistics (src/mwcas/metrics.h, src/util/core_local.h)

    [CoreLocal] hands each thread one slot of an array with one slot per core;
    [MwCASMetrics] stores in the slot a pointer to the thread's seven counters.
    The slot index is a thread-local of the template's member function. *)
From Stdlib Require Import ZArith Lia.
From stdpp Require Import base list gmap strings.
From S2P Require Import Prelude Bytes Prog Status.
#[local] Open Scope Z_scope.
#[local] Open Scope prog_scope.

(** ** Counters *)

Record MwCASMetrics := MkMetrics {
  succeeded_update_count : Z;
  failed_update_count : Z;
  read_count : Z;
  descriptor_scavenge_count : Z;
  help_attempt_count : Z;
  bailed_help_count : Z;
  descriptor_alloc_count : Z
}.

Definition MwCASMetrics_new : MwCASMetrics := MkMetrics 0 0 0 0 0 0 0.

Definition metrics_zip (f : Z -> Z -> Z) (a b : MwCASMetrics) : MwCASMetrics :=
  MkMetrics (f (succeeded_update_count a) (succeeded_update_count b))
    (f (failed_update_count a) (failed_update_count b))
    (f (read_count a) (read_count b))
    (f (descriptor_scavenge_count a) (descriptor_scavenge_count b))
    (f (help_attempt_count a) (help_attempt_count b))
    (f (bailed_help_count a) (bailed_help_count b))
    (f (descriptor_alloc_count a) (descriptor_alloc_count b)).

Definition metrics_add (a b : MwCASMetrics) : MwCASMetrics := metrics_zip (fun x y => u64 (x + y)) a b.
Definition metrics_sub (a b : MwCASMetrics) : MwCASMetrics := metrics_zip (fun x y => u64 (x - y)) a b.

Definition GetUpdateAttemptCount (a : MwCASMetrics) : Z :=
  u64 (succeeded_update_count a + failed_update_count a).

Inductive counter :=
| SucceededUpdate | FailedUpdate | Read | DescriptorScavenge | HelpAttempt | BailedHelp | DescriptorAlloc.

Definition incr (k : counter) (a : MwCASMetrics) : MwCASMetrics :=
  let one k' := match k, k' with
    | SucceededUpdate, SucceededUpdate | FailedUpdate, FailedUpdate | Read, Read
    | DescriptorScavenge, DescriptorScavenge | HelpAttempt, HelpAttempt
    | BailedHelp, BailedHelp | DescriptorAlloc, DescriptorAlloc => 1
    | _, _ => 0
    end in
  metrics_add a (MkMetrics (one SucceededUpdate) (one FailedUpdate) (one Read) (one DescriptorScavenge)
    (one HelpAttempt) (one BailedHelp) (one DescriptorAlloc)).

(** ** State *)

(** [objects_] holds pointers (0 is null); [heap] the metrics objects by address. *)
Record MetricsWorld := MkMetricsWorld {
  enabled : bool;
  objects_ : option (list Z);
  core_count_ : Z;
  next_free_object_ : Z;
  core_idx : gmap Z Z;         (* the thread-local [idx], once [initialized] *)
  heap : gmap Z MwCASMetrics
}.

Definition metrics_off : MetricsWorld := MkMetricsWorld false None 0 0 ∅ ∅.

(** ** CoreLocal<MwCASMetrics*> *)

(** The array is sized in whole cache lines per core: 8 pointers each. *)
Definition objects_capacity (core_count : Z) : Z := core_count * 8.

(** [cores] is what [sysconf] reports. *)
Definition CoreLocal_Initialize (cores : Z) : prog MetricsWorld Status :=
  let! o := rd objects_ in
  check (negb (bool_decide (is_Some o))) "already initialized" ;;;
  check (negb (cores =? 0)) "invalid core count" ;;;
  upd (fun w => MkMetricsWorld (enabled w) (Some (replicate (Z.to_nat (objects_capacity cores)) 0))
                  cores (next_free_object_ w) (core_idx w) (heap w)) ;;;
  Ret Status_OK.

Definition CoreLocal_Uninitialize : prog MetricsWorld Status :=
  act (fun w =>
    match objects_ w with
    | None => (default (Status_code kCorruption)
                 (Status_msg kCorruption (Slice_of_cstr (lit "not initialized?")) Slice_default), w)
    | Some _ => (Status_OK, MkMetricsWorld (enabled w) None (core_count_ w) 0 (core_idx w) (heap w))
    end).

(** [value]: the address of the thread's object, as its index; none before the first
    call, and a null pointer when index 0 is taken of no array. *)
Definition my_value (me : Z) (w : MetricsWorld) : option Z :=
  match core_idx w !! me with
  | Some 0 => match objects_ w with Some _ => Some 0 | None => None end
  | i => i
  end.

(** The index of the thread's object.  The range check is made from the second
    call on only. *)
Definition MyObject (me : Z) : prog MetricsWorld Z :=
  let! i := rd (my_value me) in
  match i with
  | Some idx =>
      let! n := rd core_count_ in
      check (idx <=? n - 1) "invalid tls value" ;;;
      Ret idx
  | None =>
      let! obj_idx := act (fun w =>
        (next_free_object_ w,
         MkMetricsWorld (enabled w) (objects_ w) (core_count_ w) (u32 (next_free_object_ w + 1))
           (core_idx w) (heap w))) in
      upd (fun w => MkMetricsWorld (enabled w) (objects_ w) (core_count_ w) (next_free_object_ w)
                      (<[me := obj_idx]> (core_idx w)) (heap w)) ;;;
      Ret obj_idx
  end.

Definition NumberOfObjects : prog MetricsWorld Z := rd next_free_object_.

(** [*instance.GetObject(i)], and the store through the pointer. *)
Definition read_object (i : Z) : prog MetricsWorld Z :=
  let! p := rd (fun w => default [] (objects_ w) !! Z.to_nat i) in
  match p with Some p => Ret p | None => Fault "CoreLocal object out of bounds" end.

Definition write_object (i p : Z) : prog MetricsWorld unit :=
  let! n := rd (fun w => length (default [] (objects_ w))) in
  check (bool_decide (Z.to_nat i < n)%nat) "CoreLocal object out of bounds" ;;;
  upd (fun w => MkMetricsWorld (enabled w) ((fun l => <[Z.to_nat i := p]> l) <$> objects_ w)
                  (core_count_ w) (next_free_object_ w) (core_idx w) (heap w)).

(** ** MwCASMetrics *)

Definition MwCASMetrics_Initialize (cores : Z) : prog MetricsWorld Status :=
  let! e := rd enabled in
  (if e : bool then CoreLocal_Initialize cores ;;; Ret tt else Ret tt) ;;; Ret Status_OK.

Definition MwCASMetrics_Uninitialize : prog MetricsWorld Status :=
  let! e := rd enabled in
  if e : bool then CoreLocal_Uninitialize else Ret Status_OK.

(** [p] is the address the allocator returned, 0 for none. *)
Definition ThreadInitialize (me p : Z) : prog MetricsWorld Status :=
  let! e := rd enabled in
  if e : bool then
    if p =? 0 then Ret (Status_code kOutOfMemory)
    else
      upd (fun w => MkMetricsWorld (enabled w) (objects_ w) (core_count_ w) (next_free_object_ w)
                      (core_idx w) (<[p := MwCASMetrics_new]> (heap w))) ;;;
      let! i := MyObject me in
      write_object i p ;;;
      Ret Status_OK
  else Ret Status_OK.

Definition MyMetric (me : Z) : prog MetricsWorld Z :=
  let! e := rd enabled in
  check e "metrics is disabled" ;;;
  let! i := MyObject me in read_object i.

(** AddRead, AddSucceededUpdate, ...: one counter each. *)
Definition AddMetric (me : Z) (k : counter) : prog MetricsWorld unit :=
  let! e := rd enabled in
  if e : bool then
    let! p := MyMetric me in
    let! ok := act (fun w =>
      match heap w !! p with
      | Some a => (true, MkMetricsWorld (enabled w) (objects_ w) (core_count_ w) (next_free_object_ w)
                           (core_idx w) (<[p := incr k a]> (heap w)))
      | None => (false, w)
      end) in
    if ok : bool then Ret tt else Fault "invalid metrics pointer"
  else Ret tt.

Definition Metrics_Sum (sum : MwCASMetrics) : prog MetricsWorld MwCASMetrics :=
  let! n := NumberOfObjects in
  let! e := rd enabled in
  if e : bool then
    for_list (seq 0 (Z.to_nat n)) (fun i sum =>
      let! p := read_object (Z.of_nat i) in
      let! a := rd (fun w => heap w !! p) in
      match a with Some a => Ret (metrics_add sum a) | None => Fault "invalid metrics pointer" end) sum
  else Ret sum.

(** ** A thread that registered can count *)

(** Thread [me] owns slot [i] inside the checked range, whose object is live. *)
Definition metrics_ok (me : Z) (w : MetricsWorld) : Prop :=
  enabled w = false \/
  exists i p a, core_idx w !! me = Some i /\ 0 <= i < core_count_ w /\
    default [] (objects_ w) !! Z.to_nat i = Some p /\ heap w !! p = Some a.

Definition bump (me : Z) (k : counter) (w : MetricsWorld) : MetricsWorld :=
  if enabled w then
    match core_idx w !! me with
    | Some i =>
        match default [] (objects_ w) !! Z.to_nat i with
        | Some p => MkMetricsWorld (enabled w) (objects_ w) (core_count_ w) (next_free_object_ w)
                      (core_idx w) (alter (incr k) p (heap w))
        | None => w
        end
    | None => w
    end
  else w.

Lemma insert_alter_eq p k a (h : gmap Z MwCASMetrics) :
  h !! p = Some a -> <[p := incr k a]> h = alter (incr k) p h.
Proof.
  intros Ha. apply map_eq. intros q. destruct (decide (p = q)) as [<-|].
  - by rewrite lookup_insert_eq, lookup_alter_eq, Ha.
  - by rewrite lookup_insert_ne, lookup_alter_ne.
Qed.

Lemma my_value_ok me w i p :
  core_idx w !! me = Some i -> default [] (objects_ w) !! Z.to_nat i = Some p -> my_value me w = Some i.
Proof. intros Hi Hp. unfold my_value. rewrite Hi. destruct (objects_ w); [by destruct i|done]. Qed.

Lemma run_AddMetric me k w :
  metrics_ok me w -> run (AddMetric me k) w = (Done tt, bump me k w) /\ metrics_ok me (bump me k w).
Proof.
  unfold metrics_ok, bump. intros [E|(i & p & a & Hi & Hr & Hp & Ha)].
  - unfold AddMetric. rewrite run_bind, run_rd. cbn [and_then]. rewrite E. auto.
  - destruct (enabled w) eqn:E; [|unfold AddMetric; rewrite run_bind, run_rd; cbn [and_then]; rewrite E; auto].
    rewrite Hi, Hp. split.
    + unfold AddMetric. rewrite run_bind, run_rd. cbn [and_then]. rewrite E.
      unfold MyMetric. rewrite !run_bind, run_rd. cbn [and_then]. rewrite E. cbn [check bind].
      unfold MyObject. rewrite !run_bind, run_rd. cbn [and_then]. rewrite (my_value_ok me w i p Hi Hp).
      rewrite !run_bind, run_rd. cbn [and_then].
      replace (i <=? core_count_ w - 1) with true by (symmetry; apply Z.leb_le; lia).
      cbn [check bind run and_then]. unfold read_object. rewrite run_bind, run_rd. cbn [and_then].
      rewrite Hp. cbn [run and_then]. rewrite run_bind. cbn [act run]. rewrite Ha. cbn [and_then run].
      rewrite (insert_alter_eq p k a) by done. by rewrite E.
    + right. exists i, p, (incr k a). cbn. rewrite lookup_alter_eq, Ha. done.
Qed.

(** A thread that registers its metrics takes the next slot; it can count when the slot
    is below the number of cores, and otherwise registration succeeds but the first
    counter it touches fails a check. *)
Theorem metrics_per_core me p k w :
  enabled w = true -> is_Some (objects_ w) -> 0 < core_count_ w < 2 ^ 32 ->
  length (default [] (objects_ w)) = Z.to_nat (objects_capacity (core_count_ w)) ->
  core_idx w !! me = None -> 0 <= next_free_object_ w <= core_count_ w -> p <> 0 ->
  (run (ThreadInitialize me p) w).1 = Done Status_OK /\
  (run (ThreadInitialize me p ;;; AddMetric me k) w).1 =
    (if next_free_object_ w <? core_count_ w then Done tt else Faulted "invalid tls value") /\
  (next_free_object_ w < core_count_ w ->
   heap (run (ThreadInitialize me p ;;; AddMetric me k) w).2 !! p = Some (incr k MwCASMetrics_new)).
Proof.
  intros He [l Hl] Hc Hlen Hi Hn Hp. rewrite Hl in Hlen. simpl in Hlen.
  set (i := next_free_object_ w) in *.
  set (w1 := MkMetricsWorld true (Some (<[Z.to_nat i := p]> l)) (core_count_ w) (u32 (i + 1))
    (<[me := i]> (core_idx w)) (<[p := MwCASMetrics_new]> (heap w))).
  assert (run (ThreadInitialize me p) w = (Done Status_OK, w1)) as R.
  { unfold ThreadInitialize. rewrite run_bind, run_rd. cbn [and_then]. rewrite He.
    rewrite (proj2 (Z.eqb_neq _ _) Hp), run_bind. cbn [upd act run and_then].
    unfold MyObject. rewrite !run_bind, run_rd. cbn [and_then]. unfold my_value. cbn [core_idx]. rewrite Hi.
    cbn [bind act run and_then upd enabled objects_ core_count_ next_free_object_ core_idx heap].
    unfold write_object. rewrite !run_bind, run_rd. cbn [and_then objects_].
    rewrite Hl. cbn [default from_option].
    rewrite bool_decide_true by (change (default l None) with l; unfold objects_capacity in *; simpl; lia).
    cbn [check bind upd act run and_then enabled objects_ core_count_ next_free_object_ core_idx heap].
    unfold w1. by rewrite He. }
  split; [by rewrite R|].
  assert (forall k, run (AddMetric me k) w1 =
    if i <? core_count_ w then (Done tt, bump me k w1) else (Faulted "invalid tls value", w1)) as Radd.
  { intros k'. destruct (Z.ltb_spec i (core_count_ w)).
    - apply run_AddMetric. right. exists i, p, MwCASMetrics_new. cbn.
      rewrite !lookup_insert_eq. split_and!; [done|lia|lia| |done].
      apply list_lookup_insert_eq. unfold objects_capacity in *. lia.
    - unfold AddMetric. rewrite run_bind, run_rd. cbn [and_then w1 enabled]. unfold MyMetric.
      rewrite !run_bind, run_rd. cbn [and_then w1 enabled check bind]. unfold MyObject.
      rewrite !run_bind, run_rd. cbn [and_then].
      assert (my_value me w1 = Some i) as Hmv.
      { unfold my_value. cbn [w1 core_idx objects_]. rewrite lookup_insert_eq. by destruct i. }
      rewrite Hmv, !run_bind, run_rd. cbn [and_then w1 core_count_].
      replace (i <=? core_count_ w - 1) with false by (symmetry; apply Z.leb_gt; lia). done. }
  split.
  - rewrite run_bind, R. cbn [and_then]. rewrite Radd. by destruct (i <? core_count_ w).
  - intros Hlt. rewrite run_bind, R. cbn [and_then]. rewrite Radd.
    replace (i <? core_count_ w) with true by (symmetry; apply Z.ltb_lt; lia).
    unfold bump. cbn [w1 enabled core_idx objects_ heap snd]. rewrite lookup_insert_eq.
    change (default [] (Some (<[Z.to_nat i := p]> l))) with (<[Z.to_nat i := p]> l).
    rewrite list_lookup_insert_eq by (unfold objects_capacity in *; lia). cbn [heap]. by rewrite lookup_alter_eq, lookup_insert_eq.
Qed.

Example metrics_per_core_witness :
  let w := MkMetricsWorld true (Some (replicate 16 0)) 2 2 ∅ ∅ in
  (run (ThreadInitialize 7 64 ;;; AddMetric 7 Read) w).1 = Faulted "invalid tls value".
Proof.
  intros w. apply (metrics_per_core 7 64 Read w); done.
Defined.
