(* ===== verification/Memory.v ===== *)
(** * Shared and persistent memory (src/util/atomics.h, src/util/nvram.h)

    Memory is a map from addresses to scalar fields (a 64- or a 32-bit word each,
    at the address it has in the structures' layout), with a second map for what
    has reached persistent memory.  The atomic primitives are single accesses.
    [pmemobj_persist] of libpmemobj, and the callbacks applications pass to the
    library, are the [Platform] the model is parametric in. *)
From Stdlib Require Import ZArith Lia.
From stdpp Require Import base list gmap strings.
From S2P Require Import Prelude Bytes Prog Status Library Epoch Garbage Metrics.
#[local] Open Scope Z_scope.
#[local] Open Scope machine_scope.
#[local] Open Scope prog_scope.

(** ** State *)

Record Mem := MkMem { cells : gmap Z Z; pcells : gmap Z Z; metrics : MetricsWorld }.

Definition set_cells (c : gmap Z Z) (s : Mem) : Mem := MkMem c (pcells s) (metrics s).
Definition set_metrics (m : MetricsWorld) (s : Mem) : Mem := MkMem (cells s) (pcells s) m.

#[export] Instance metrics_lens : Lens MetricsWorld Mem.
Proof. by refine {| get := metrics; put := set_metrics |}; intros; destruct t. Defined.

(** A crash loses everything but persistent memory. *)
Definition crash (s : Mem) : Mem := MkMem (pcells s) (pcells s) metrics_off.

(** ** Accesses *)

Definition load (a : Z) : prog Mem Z :=
  let! r := rd (fun s => cells s !! a) in
  match r with Some v => Ret v | None => Fault "load from unmapped memory" end.

(** A read-modify-write of one word. *)
Definition rmw {X} (a : Z) (f : Z -> X * Z) : prog Mem X :=
  let! r := act (fun s =>
    match cells s !! a with
    | Some v => let (x, v') := f v in (Some x, set_cells (<[a := v']> (cells s)) s)
    | None => (None, s)
    end) in
  match r with Some x => Ret x | None => Fault "store to unmapped memory" end.

Definition store (a v : Z) : prog Mem unit := rmw a (fun _ => (tt, v)).

(** ** src/util/atomics.h *)

(** The previous value is returned in either case. *)
Definition CompareExchange64 (destination new_value comparand : Z) : prog Mem Z :=
  rmw destination (fun v => (v, if v =? comparand then new_value else v)).
Definition CompareExchange64Ptr := CompareExchange64.
Definition CompareExchange32 := CompareExchange64.

Definition FetchAdd64 (destination add_value : Z) : prog Mem Z :=
  rmw destination (fun v => (v, u64 (v + add_value))).
Definition Decrement64 (destination : Z) : prog Mem Z :=
  rmw destination (fun v => (u64 (v - 1), u64 (v - 1))).
Definition Decrement32 (destination : Z) : prog Mem Z :=
  rmw destination (fun v => (u32 (v - 1), u32 (v - 1))).

(** LdImm, LdAq and StRel: a load and a store, on aligned addresses. *)
Definition LdImm (source : Z) : prog Mem Z :=
  check (source .& 3 =? 0) "misaligned LdImm" ;;; load source.
Definition LdAq (source : Z) : prog Mem Z :=
  check (source .& 3 =? 0) "misaligned LdAq" ;;; load source.
Definition StRel (destination value : Z) : prog Mem unit :=
  check (destination .& 3 =? 0) "misaligned StRel" ;;; store destination value.

(** The barrier at address [b]: its constructor, and [CountAndWait], which spins
    until everyone has arrived. *)
Definition Barrier_new (b thread_count : Z) : prog Mem unit := store b thread_count.

Definition Barrier_CountAndWait (fuel : nat) (b : Z) : prog Mem unit :=
  Decrement64 b ;;;
  loop fuel (fun _ : unit =>
    let! wait_count := load b in
    if wait_count =? 0 then Ret (inr tt) else Ret (inl tt)) tt.

(** ** src/util/nvram.h *)

Definition kCacheLineSize : Z := 64.

(** The platform: what persisting a range does, and the user's callbacks, which
    are function pointers called with their arguments.  None of them touches the
    words the library works on other than through its own accesses. *)
Class Platform := {
  pmemobj_persist : Z -> Z -> Mem -> Mem;
  run_allocate_callback : Z -> Z -> Mem -> Z * Mem;
  run_free_callback : Z -> Z -> Z -> Mem -> Mem
}.

(** With PMDK: [pmdk_allocator->PersistPtr(data, bytes)]. *)
Definition NVRAM_Flush `{Platform} (bytes data : Z) : prog Mem unit :=
  upd (pmemobj_persist data bytes).

(** Without PMDK: the addresses handed to [_mm_clflush]. *)
Definition Flush_addresses (bytes data : Z) : list Z :=
  let ncachelines := (bytes + kCacheLineSize - 1) / kCacheLineSize in
  (fun i => data + Z.of_nat i * ncachelines) <$> seq 0 (Z.to_nat ncachelines).

Definition NVRAM_Flush_clflush (use_clflush : bool) (clflush : Z -> Mem -> Mem) (bytes data : Z)
    : prog Mem unit :=
  if use_clflush then
    check (negb (data =? 0)) "null data" ;;;
    for_list (Flush_addresses bytes data) (fun a (_ : unit) => upd (clflush a)) tt
  else Ret tt.

(** Writing back the cache lines that [data, data + bytes) touches: a platform. *)
Definition line (a : Z) : Z := a / kCacheLineSize.

Definition persist_lines (data bytes : Z) (s : Mem) : Mem :=
  MkMem (cells s)
    (filter (fun kv => line data <= line kv.1 <= line (data + bytes - 1)) (cells s) ∪ pcells s)
    (metrics s).

(** Flushes write back the cache lines of their range, and nothing else does. *)
Definition lines_platform : Platform := {|
  pmemobj_persist := persist_lines;
  run_allocate_callback := fun _ _ s => (0, s);
  run_free_callback := fun _ _ _ s => s
|}.

(** ** Sequential runs of the accesses *)

Lemma run_load a v s : cells s !! a = Some v -> run (load a) s = (Done v, s).
Proof. intros H. unfold load. by rewrite run_bind, run_rd, H. Qed.

Lemma run_rmw {X} a (f : Z -> X * Z) v s :
  cells s !! a = Some v -> run (rmw a f) s = (Done (f v).1, set_cells (<[a := (f v).2]> (cells s)) s).
Proof. intros H. unfold rmw. rewrite run_bind. simpl. rewrite H. by destruct (f v). Qed.

Lemma run_store a x v s :
  cells s !! a = Some v -> run (store a x) s = (Done tt, set_cells (<[a := x]> (cells s)) s).
Proof. intros H. unfold store. by rewrite (run_rmw _ _ v). Qed.

Lemma run_cas a new cmp v s :
  cells s !! a = Some v ->
  run (CompareExchange64 a new cmp) s =
    (Done v, set_cells (<[a := if v =? cmp then new else v]> (cells s)) s).
Proof. intros H. unfold CompareExchange64. by rewrite (run_rmw _ _ v). Qed.

Lemma set_cells_id s : set_cells (cells s) s = s.
Proof. by destruct s. Qed.

(** The atomic primitives return the previous value and update the word only as
    specified; the barrier lets the last of n threads through and keeps an earlier one
    spinning. *)
Theorem atomics_correct a v new cmp s :
  cells s !! a = Some v -> fits 64 v ->
  run (CompareExchange64 a new cmp) s =
    (Done v, if v =? cmp then set_cells (<[a := new]> (cells s)) s else s) /\
  (forall d, run (FetchAdd64 a d) s = (Done v, set_cells (<[a := u64 (v + d)]> (cells s)) s)) /\
  (forall n fuel, 0 < n < 2 ^ 64 ->
     run (Barrier_CountAndWait (S fuel) a) (set_cells (<[a := n]> (cells s)) s) =
       (if n =? 1 then Done tt else NoFuel, set_cells (<[a := n - 1]> (cells s)) s)) /\
  (a .& 3 = 0 -> run (LdAq a) s = (Done v, s) /\ run (LdImm a) s = (Done v, s) /\
                 run (StRel a new) s = (Done tt, set_cells (<[a := new]> (cells s)) s)).
Proof.
  intros Ha Hv. split; [|split; [|split]].
  - rewrite (run_cas a new cmp v) by done. destruct (v =? cmp); [done|].
    by rewrite insert_id, set_cells_id.
  - intros d. unfold FetchAdd64. by rewrite (run_rmw _ _ v).
  - intros n fuel Hn. unfold Barrier_CountAndWait, Decrement64.
    assert (cells (set_cells (<[a:=n]> (cells s)) s) !! a = Some n) as E by (simpl; by rewrite lookup_insert_eq).
    rewrite run_bind, (run_rmw _ _ n) by done. cbn [and_then fst snd set_cells cells].
    rewrite insert_insert_eq, u64_id by (unfold fits; lia).
    change (set_cells (<[a := n - 1]> (cells s)) (set_cells (<[a := n]> (cells s)) s))
      with (set_cells (<[a := n - 1]> (cells s)) s).
    set (s2 := set_cells _ s).
    assert (cells s2 !! a = Some (n - 1)) as E2 by (simpl; by rewrite lookup_insert_eq).
    clearbody s2.
    destruct (Z.eqb_spec n 1) as [->|Hne].
    + cbn [loop]. rewrite run_bind, run_bind, (run_load a _ _ E2). done.
    + generalize (S fuel) as f. induction f as [|f IH]; [done|].
      cbn [loop]. rewrite run_bind, run_bind, (run_load a _ _ E2). cbn [and_then].
      rewrite (proj2 (Z.eqb_neq _ _)) by lia. cbn [run and_then]. exact IH.
  - intros Hal. unfold LdAq, LdImm, StRel. rewrite Hal. cbn [Z.eqb check bind].
    rewrite (run_load a v), (run_store a new v) by done. done.
Qed.

Example atomics_correct_witness :
  let s := MkMem (<[8 := 3]> ∅) ∅ metrics_off in
  run (CompareExchange64 8 5 3) s = (Done 3, set_cells (<[8 := 5]> (cells s)) s).
Proof.
  intros s. apply (atomics_correct 8 3 5 3 s).
  - apply lookup_insert_eq.
  - unfold fits. lia.
Defined.

(** Without PMDK, flushing an aligned range of two to eight cache lines issues every
    clflush to the first line only. *)
Theorem clflush_misses_lines bytes data :
  64 < bytes <= 512 -> data mod kCacheLineSize = 0 ->
  (forall a, a ∈ Flush_addresses bytes data -> line a = line data) /\
  line (data + bytes - 1) <> line data.
Proof.
  unfold kCacheLineSize. intros Hb Hd. unfold line, Flush_addresses, kCacheLineSize.
  set (n := (bytes + 64 - 1) / 64).
  assert (2 <= n <= 8) as Hn by (subst n; split; [apply Z.div_le_lower_bound|apply Z.lt_succ_r, Z.div_lt_upper_bound]; lia).
  clearbody n. pose proof (Z.div_mod data 64 ltac:(lia)) as Ed. rewrite Hd in Ed. split.
  - intros a (i & -> & Hi)%list_elem_of_fmap. apply elem_of_seq in Hi.
    assert (0 <= Z.of_nat i * n < 64) as Hi' by nia.
    symmetry. apply Z.div_unique with (r := Z.of_nat i * n); [lia|]. lia.
  - assert (data / 64 + 1 <= (data + bytes - 1) / 64); [|lia].
    apply Z.div_le_lower_bound; lia.
Qed.

Example clflush_misses_lines_witness :
  (forall a, a ∈ Flush_addresses 256 4096 -> line a = line 4096) /\ line (4096 + 256 - 1) <> line 4096.
Proof. apply clflush_misses_lines; [lia|reflexivity]. Defined.
