(* ===== verification/Descriptor.v ===== *)
(** * Multi-word compare-and-swap (src/mwcas/mwcas.h, mwcas.cc: class Descriptor)

    A descriptor is a structure in shared memory listing up to [DESC_CAP] words
    with their expected and new values.  [MwCAS] installs a pointer to the
    descriptor in every word with a conditional CAS, decides the status, and then
    replaces the pointers by the final values; a thread that runs into a pointer
    helps the descriptor's operation along.

    Structures are laid out as in C++, so that a [WordDescriptor*] and the
    [Descriptor*] it belongs to are computed by the source's address arithmetic.
    The world is that of the garbage lists with shared memory as their client. *)
From Stdlib Require Import ZArith Lia.
From stdpp Require Import base list gmap strings sorting.
From S2P Require Import Prelude Bytes Prog Status Library Epoch Garbage Metrics Memory.
#[local] Open Scope Z_scope.
#[local] Open Scope machine_scope.
#[local] Open Scope prog_scope.

Abbreviation World := (GarbageWorld Mem).

(** Memory accesses in the world. *)
Definition ld (a : Z) : prog World Z := zoom (load a).
Definition st (a v : Z) : prog World unit := zoom (store a v).
Definition cas (a new cmp : Z) : prog World Z := zoom (CompareExchange64 a new cmp).
Definition metric (me : Z) (k : counter) : prog World unit := zoom (zoom (AddMetric me k) : prog Mem unit).

(** ** Constants and flags *)

Definition DESC_CAP : Z := 4.

Definition kMwCASFlag : Z := 2 ^ 63.
Definition kCondCASFlag : Z := 2 ^ 62.
Definition kDirtyFlag : Z := 2 ^ 61.

Definition kRecycleOnRecovery : Z := 1.
Definition kRecycleNever : Z := 2.
Definition kRecycleAlways : Z := 3.
Definition kRecycleOldOnSuccess : Z := 4.
Definition kRecycleNewOnFailure : Z := 5.
Definition kAllocNullAddress : Z := 0.
Definition kNewValueReserved : Z := 2 ^ 64 - 1.

Definition kStatusDirtyFlag : Z := 2 ^ 31.
Definition kStatusInvalid : Z := 0.
Definition kStatusFinished : Z := 1.
Definition kStatusSucceeded : Z := 2.
Definition kStatusFailed : Z := 3.
Definition kStatusUndecided : Z := 4.

Definition all_flags : Z := kMwCASFlag .| kCondCASFlag .| kDirtyFlag.

Definition IsMwCASDescriptorPtr (value : Z) : bool := has value kMwCASFlag.
Definition IsCondCASDescriptorPtr (value : Z) : bool := has value kCondCASFlag.
Definition IsDirtyPtr (value : Z) : bool := has value kDirtyFlag.
Definition IsCleanPtr (value : Z) : bool := (value .& (kCondCASFlag .| kMwCASFlag .| kDirtyFlag)) =? 0.
Definition CleanPtr (ptr : Z) : Z := clear ptr all_flags.
Definition SetFlags (value flags : Z) : Z := value .| flags.

Definition assert_valid_status (status : Z) : bool :=
  let s := clear status kStatusDirtyFlag in
  (s =? kStatusFinished) || (s =? kStatusFailed) || (s =? kStatusSucceeded) || (s =? kStatusUndecided).

(** ** Layout *)

Definition sizeof_Descriptor : Z := 256.
Definition sizeof_WordDescriptor : Z := 40.

(** Fields of a [Descriptor] at [d]. *)
Definition next_ptr_ (d : Z) : Z := d.
Definition owner_partition_ (d : Z) : Z := d + 8.
Definition status_ (d : Z) : Z := d + 16.
Definition count_ (d : Z) : Z := d + 20.
Definition free_callback_ (d : Z) : Z := d + 24.
Definition allocate_callback_ (d : Z) : Z := d + 32.
Definition words_ (d i : Z) : Z := d + 40 + sizeof_WordDescriptor * i.

(** Fields of a [WordDescriptor] at [w]. *)
Definition address_ (w : Z) : Z := w.
Definition old_value_ (w : Z) : Z := w + 8.
Definition new_value_ (w : Z) : Z := w + 16.
Definition status_address_ (w : Z) : Z := w + 24.
Definition recycle_policy_ (w : Z) : Z := w + 32.

(** Fields of a [DescriptorPartition] at [p]. *)
Definition sizeof_DescriptorPartition : Z := 64.
Definition free_list (p : Z) : Z := p.
Definition desc_pool (p : Z) : Z := p + 8.
Definition garbage_list (p : Z) : Z := p + 16.
Definition allocated_desc (p : Z) : Z := p + 24.

(** [WordDescriptor::GetDescriptor], from the contents of [status_address_]. *)
Definition GetDescriptor (status_address : Z) : Z := status_address - 16.

(** The callbacks' addresses: 0 is null. *)
Definition DefaultAllocateCallback : Z := 1.
Definition DefaultFreeCallback : Z := 2.
Definition FreeDescriptor_ptr : Z := 3.

Section platform.
Context `{Platform}.

Definition free_word (callback ptr : Z) : prog Mem unit := upd (run_free_callback callback 0 ptr).

(** ** Recycling: Initialize, DeallocateMemory, FreeDescriptor *)

(** [memset(words_, 0, ...)] in a debug build: every field of every word. *)
Definition word_fields (d : Z) : list Z :=
  concat ((fun i => let w := words_ d (Z.of_nat i) in
    [address_ w; old_value_ w; new_value_ w; status_address_ w; recycle_policy_ w]) <$> seq 0 (Z.to_nat DESC_CAP)).

Definition Descriptor_Initialize (d : Z) : prog Mem unit :=
  store (status_ d) kStatusFinished ;;;
  store (count_ d) 0 ;;;
  store (next_ptr_ d) 0 ;;;
  for_list (word_fields d) (fun a (_ : unit) => store a 0) tt.

Definition Descriptor_new (d partition : Z) : prog Mem unit :=
  store (owner_partition_ d) partition ;;;
  Descriptor_Initialize d.

(** [if(v != kNewValueReserved) free_callback_(nullptr, v)] *)
Definition recycle (d field : Z) : prog Mem unit :=
  let! v := load field in
  if v =? kNewValueReserved then Ret tt
  else let! f := load (free_callback_ d) in free_word f v.

Definition Deallocate_word (d i : Z) : prog Mem unit :=
  let word := words_ d i in
  let! status := load (status_ d) in
  let! policy := load (recycle_policy_ word) in
  if (policy =? kRecycleNever) || (policy =? kRecycleOnRecovery) then Ret tt
  else if policy =? kRecycleAlways then
    if status =? kStatusSucceeded then recycle d (old_value_ word)
    else
      check ((status =? kStatusFailed) || (status =? kStatusFinished))
        "incorrect status found on used/discarded descriptor" ;;;
      recycle d (new_value_ word)
  else if policy =? kRecycleOldOnSuccess then
    if status =? kStatusSucceeded then recycle d (old_value_ word) else Ret tt
  else if policy =? kRecycleNewOnFailure then
    if negb (status =? kStatusSucceeded) then recycle d (new_value_ word) else Ret tt
  else Fault "invalid recycle policy".

Definition DeallocateMemory (d : Z) : prog Mem unit :=
  let! n := load (count_ d) in
  for_list (seq 0 (Z.to_nat n)) (fun i (_ : unit) => Deallocate_word d (Z.of_nat i)) tt ;;;
  store (count_ d) 0.

Definition FreeDescriptor (context desc_to_free : Z) : prog Mem unit :=
  DeallocateMemory desc_to_free ;;;
  Descriptor_Initialize desc_to_free ;;;
  let! s := load (status_ desc_to_free) in
  check (s =? kStatusFinished) "invalid status" ;;;
  let! p := load (owner_partition_ desc_to_free) in
  let! head := load (free_list p) in
  store (next_ptr_ desc_to_free) head ;;;
  store (free_list p) desc_to_free.

(** The destroy callback of the descriptors' garbage lists. *)
Definition destroy (callback context object : Z) : prog Mem unit :=
  if callback =? FreeDescriptor_ptr then FreeDescriptor context object
  else Fault "unknown destroy callback".

(** ** Operations of a thread *)

Section thread.
Context (me : Z) (fuel : nat).

(** [owner_partition_->garbage_list] and its epoch manager. *)
Definition partition_garbage (d : Z) : prog World Z :=
  let! p := ld (owner_partition_ d) in ld (garbage_list p).

Definition dcheck_protected (d : Z) : prog World unit :=
  let! g := partition_garbage d in
  let! m := gl_epoch g in
  let! b := zoom (IsProtected me fuel m) in
  check b "DCHECK(owner_partition_->garbage_list->GetEpoch()->IsProtected())".

Definition GetNewValue (d index : Z) : prog World Z := ld (new_value_ (words_ d index)).
Definition GetNewValuePtr (d index : Z) : Z := new_value_ (words_ d index).

(** The position for a new word, or -2 for a duplicate address. *)
Definition GetInsertPosition (d addr : Z) : prog World Z :=
  check (addr mod 8 =? 0) "DCHECK(uint64_t(addr) % sizeof(uint64_t) == 0)" ;;;
  let! n := ld (count_ d) in
  check (n <? DESC_CAP) "too many words" ;;;
  for_list (rev (seq 0 (Z.to_nat n))) (fun i insertpos =>
    if insertpos =? -2 then Ret (-2) else
    let! a := ld (address_ (words_ d (Z.of_nat i))) in
    Ret (if negb (addr =? kAllocNullAddress) && (a =? addr) then -2 else insertpos)) n.

Definition AddEntry (d addr oldval newval recycle_policy : Z) : prog World Z :=
  dcheck_protected d ;;;
  check (IsCleanPtr oldval) "DCHECK(IsCleanPtr(oldval))" ;;;
  check (IsCleanPtr newval || (newval =? kNewValueReserved))
    "DCHECK(IsCleanPtr(newval) || newval == kNewValueReserved)" ;;;
  let! insertpos := GetInsertPosition d addr in
  check (0 <=? insertpos) "invalid insert position" ;;;
  let w := words_ d insertpos in
  st (address_ w) addr ;;;
  st (old_value_ w) oldval ;;;
  st (new_value_ w) newval ;;;
  st (status_address_ w) (status_ d) ;;;
  st (recycle_policy_ w) recycle_policy ;;;
  let! n := ld (count_ d) in
  st (count_ d) (u32 (n + 1)) ;;;
  Ret insertpos.

Definition ReserveAndAddEntry (d addr oldval recycle_policy : Z) : prog World Z :=
  AddEntry d addr oldval kNewValueReserved recycle_policy.

Definition AllocateAndAddEntry (d addr oldval size recycle_policy : Z) : prog World Z :=
  dcheck_protected d ;;;
  check (IsCleanPtr oldval) "DCHECK(IsCleanPtr(oldval))" ;;;
  let! insertpos := GetInsertPosition d addr in
  check (0 <=? insertpos) "invalid insert position" ;;;
  let w := words_ d insertpos in
  st (address_ w) addr ;;;
  st (old_value_ w) oldval ;;;
  let! f := ld (allocate_callback_ d) in
  let! p := zoom (act (run_allocate_callback f size) : prog Mem Z) in
  st (new_value_ w) p ;;;
  check (negb (p =? 0)) "allocation failed" ;;;
  st (status_address_ w) (status_ d) ;;;
  st (recycle_policy_ w) recycle_policy ;;;
  let! n := ld (count_ d) in
  st (count_ d) (u32 (n + 1)) ;;;
  Ret insertpos.

(** Flushes.  [PersistAddress] is given [&address_], the field's own address. *)
Definition PersistAddress (w : Z) : prog World unit := zoom (NVRAM_Flush 8 (address_ w)).
Definition PersistStatus (d : Z) : prog World unit := zoom (NVRAM_Flush 4 (status_ d)).
Definition PersistDescriptor (d : Z) : prog World unit := zoom (NVRAM_Flush sizeof_Descriptor d).

Definition ReadPersistStatus (d : Z) : prog World Z :=
  let! curr_status := ld (status_ d) in
  let stable_status := clear curr_status kStatusDirtyFlag in
  if has curr_status kStatusDirtyFlag then
    PersistStatus d ;;;
    cas (status_ d) stable_status curr_status ;;;
    Ret stable_status
  else Ret stable_status.

(** [*status_address == kStatusUndecided ? yes : *field] *)
Definition if_undecided (status_address yes field : Z) : prog World Z :=
  let! s := ld status_address in
  if s =? kStatusUndecided then Ret yes else ld field.

(** One attempt of [CondCAS]: [inl] for [goto retry]. *)
Definition CondCAS_try (d word_index dirty_flag : Z) : prog World (unit + Z) :=
  let w := words_ d word_index in
  let cond_descptr := SetFlags w kCondCASFlag in
  let! a := ld (address_ w) in
  let! old := ld (old_value_ w) in
  let! ret := cas a cond_descptr old in
  if IsCondCASDescriptorPtr ret then
    let wd := CleanPtr ret in
    let! wd_address := ld (address_ wd) in
    check (wd_address =? a) "wrong address" ;;;
    let! wd_status := ld (status_address_ wd) in
    let dptr := SetFlags (GetDescriptor wd_status) (kMwCASFlag .| dirty_flag) in
    let! desired := if_undecided wd_status dptr (old_value_ wd) in
    let! now := ld wd_address in
    if negb (now =? ret) then Ret (inl tt) else
    let! new := if_undecided wd_status dptr (old_value_ wd) in
    let! rval := cas wd_address new ret in
    if (rval =? ret) && (desired =? dptr) then Ret (inr dptr) else Ret (inl tt)
  else if ret =? old then
    let! new := if_undecided (status_ d) (SetFlags d (kMwCASFlag .| dirty_flag)) (old_value_ w) in
    cas a new cond_descptr ;;;
    Ret (inr ret)
  else Ret (inr ret).

Definition CondCAS (d word_index dirty_flag : Z) : prog World Z :=
  loop fuel (fun _ : unit => CondCAS_try d word_index dirty_flag) tt.

Definition Cleanup (d : Z) : prog World bool :=
  let! s := ld (status_ d) in
  check (negb (has s kStatusDirtyFlag)) "invalid status" ;;;
  let! s := ld (status_ d) in
  check ((s =? kStatusFailed) || (s =? kStatusSucceeded)) "invalid status" ;;;
  let! s := ld (status_ d) in
  let success := s =? kStatusSucceeded in
  metric me (if success then SucceededUpdate else FailedUpdate) ;;;
  let! g := partition_garbage d in
  let! s := GarbageListUnsafe_Push destroy fuel g d FreeDescriptor_ptr 0 in
  check (Status_ok s) "garbage list push() failed" ;;;
  dcheck_protected d ;;;
  Ret success.

Definition Abort (d : Z) : prog World Status :=
  let! s := ld (status_ d) in
  check (s =? kStatusFinished) "cannot abort under current status" ;;;
  st (status_ d) kStatusFailed ;;;
  let! g := partition_garbage d in
  let! s := GarbageListUnsafe_Push destroy fuel g d FreeDescriptor_ptr 0 in
  check (Status_ok s) "garbage list push() failed" ;;;
  Ret s.

(** ** The volatile variant *)

(** Phase 1 for one word, given what helping another descriptor does. *)
Definition Volatile_install (help : Z -> prog World unit) (d i my_status : Z) : prog World Z :=
  if negb (my_status =? kStatusSucceeded) then Ret my_status else
  let wd := words_ d i in
  let! a := ld (address_ wd) in
  if a =? kAllocNullAddress then Ret my_status else
  loop fuel (fun _ : unit =>
    let! rval := CondCAS d i 0 in
    let! old := ld (old_value_ wd) in
    if (rval =? old) || (rval =? SetFlags d kMwCASFlag) then Ret (inr my_status)
    else if IsMwCASDescriptorPtr rval then
      help (CleanPtr rval) ;;; metric me HelpAttempt ;;; Ret (inl tt)
    else Ret (inr kStatusFailed)) tt.

(** Phase 2 for one word. *)
Definition Volatile_finish (d i : Z) (succeeded : bool) : prog World unit :=
  let wd := words_ d i in
  let! a := ld (address_ wd) in
  if a =? kAllocNullAddress then Ret tt else
  let! v := ld (if succeeded then new_value_ wd else old_value_ wd) in
  cas a v (SetFlags d kMwCASFlag) ;;; Ret tt.

(** [for(uint32_t i = 0; i < count_; i++)] *)
Definition for_words {I} (d : Z) (body : Z -> I -> prog World I) (i0 : I) : prog World I :=
  let! n := ld (count_ d) in
  for_list (seq 0 (Z.to_nat n)) (fun i => body (Z.of_nat i)) i0.

Fixpoint VolatileMwCAS (depth : nat) (d calldepth : Z) : prog World bool :=
  match depth with
  | O => Stuck
  | S depth' =>
      dcheck_protected d ;;;
      let! s := ld (status_ d) in
      if negb (s =? kStatusUndecided) then
        if 0 <? calldepth then
          metric me BailedHelp ;;;
          let! s := ld (status_ d) in Ret (s =? kStatusSucceeded)
        else Cleanup d
      else
        let help other := VolatileMwCAS depth' other (calldepth + 1) ;;; Ret tt in
        let! my_status := for_words d (Volatile_install help d) kStatusSucceeded in
        cas (status_ d) my_status kStatusUndecided ;;;
        let! s := ld (status_ d) in
        let succeeded := s =? kStatusSucceeded in
        for_words d (fun i (_ : unit) => Volatile_finish d i succeeded) tt ;;;
        if calldepth =? 0 then Cleanup d else Ret succeeded
  end.

Definition VolatileMwCASWithFailure (depth : nat) (d calldepth : Z) (complete_descriptor_install : bool)
    : prog World bool :=
  dcheck_protected d ;;;
  let! s := ld (status_ d) in
  if negb (s =? kStatusUndecided) then
    if 0 <? calldepth then
      metric me BailedHelp ;;;
      let! s := ld (status_ d) in Ret (s =? kStatusSucceeded)
    else Cleanup d
  else
    let help other := VolatileMwCAS depth other (calldepth + 1) ;;; Ret tt in
    let! my_status := for_words d (Volatile_install help d) kStatusSucceeded in
    if negb complete_descriptor_install then Ret false else
    cas (status_ d) my_status kStatusUndecided ;;;
    Ret false.

(** ** The persistent variant *)

(** [std::sort(words_, words_ + count_)] by address, in one step: the descriptor is
    not yet visible when its owner sorts it, and sorted when a helper does. *)
Definition read_word (d : Z) (c : gmap Z Z) (i : nat) : option (list Z) :=
  let w := words_ d (Z.of_nat i) in
  mapM (fun a => c !! a) [address_ w; old_value_ w; new_value_ w; status_address_ w; recycle_policy_ w].

Definition write_word (d : Z) (c : gmap Z Z) (i : nat) (fields : list Z) : gmap Z Z :=
  let w := words_ d (Z.of_nat i) in
  foldl (fun c av => <[av.1 := av.2]> c) c
    (zip [address_ w; old_value_ w; new_value_ w; status_address_ w; recycle_policy_ w] fields).

Definition word_le (x y : list Z) : Prop := default 0 (x !! 0%nat) <= default 0 (y !! 0%nat).
#[export] Instance word_le_dec x y : Decision (word_le x y).
Proof. unfold word_le. apply _. Defined.

Definition sort_words (d : Z) (n : nat) (c : gmap Z Z) : option (gmap Z Z) :=
  ws ← mapM (read_word d c) (seq 0 n);
  Some (foldl (fun c iw => write_word d c iw.1 iw.2) c (zip (seq 0 n) (merge_sort word_le ws))).

Definition sort_by_address (d : Z) : prog World unit :=
  let! n := ld (count_ d) in
  let! ok := zoom (act (fun s =>
    match sort_words d (Z.to_nat n) (cells s) with
    | Some c => (true, set_cells c s)
    | None => (false, s)
    end) : prog Mem bool) in
  check ok "sort of unmapped words".

Definition Persistent_install (help : Z -> prog World unit) (skip_null : bool) (d i my_status : Z)
    : prog World Z :=
  if negb (my_status =? kStatusSucceeded) then Ret my_status else
  let wd := words_ d i in
  let! a := ld (address_ wd) in
  if skip_null && (a =? kAllocNullAddress) then Ret my_status else
  loop fuel (fun _ : unit =>
    let! rval := CondCAS d i kDirtyFlag in
    let! old := ld (old_value_ wd) in
    if (rval =? old) || (CleanPtr rval =? d) then Ret (inr my_status)
    else if has rval kDirtyFlag then Ret (inl tt)
    else if IsMwCASDescriptorPtr rval then
      (if has rval kDirtyFlag
       then PersistAddress wd ;;;
            let! a := ld (address_ wd) in
            cas a (clear rval kDirtyFlag) rval ;;; Ret tt
       else Ret tt) ;;;
      help (CleanPtr rval) ;;; metric me HelpAttempt ;;; Ret (inl tt)
    else Ret (inr kStatusFailed)) tt.

Definition Persistent_persist_target (skip_null : bool) (d i : Z) : prog World unit :=
  let descptr := SetFlags d (kMwCASFlag .| kDirtyFlag) in
  let wd := words_ d i in
  let! a := ld (address_ wd) in
  if skip_null && (a =? kAllocNullAddress) then Ret tt else
  let! val := ld a in
  if val =? descptr then
    PersistAddress wd ;;;
    let! a := ld (address_ wd) in
    cas a (clear descptr kDirtyFlag) descptr ;;; Ret tt
  else Ret tt.

Definition Persistent_finish (d i : Z) (succeeded : bool) : prog World unit :=
  let descptr := SetFlags d (kMwCASFlag .| kDirtyFlag) in
  let wd := words_ d i in
  let! a := ld (address_ wd) in
  if a =? kAllocNullAddress then Ret tt else
  let! v := ld (if succeeded then new_value_ wd else old_value_ wd) in
  let val := v .| kDirtyFlag in
  let clean_descptr := clear descptr kDirtyFlag in
  let! r := cas a val descptr in
  (if clean_descptr =? r then cas a val clean_descptr ;;; Ret tt else Ret tt) ;;;
  PersistAddress wd ;;;
  check (has val kDirtyFlag) "invalid final value" ;;;
  cas a (clear val kDirtyFlag) val ;;; Ret tt.

(** The preamble: persist a new descriptor, and read a clean status. *)
Definition Persistent_enter (d calldepth : Z) : prog World Z :=
  dcheck_protected d ;;;
  (if calldepth =? 0
   then let! s := ld (status_ d) in
        check (s =? kStatusUndecided) "invalid status" ;;; PersistDescriptor d
   else Ret tt) ;;;
  let! status := ld (status_ d) in
  if has status kStatusDirtyFlag then
    PersistStatus d ;;;
    cas (status_ d) (clear status kStatusDirtyFlag) status ;;;
    Ret (clear status kStatusDirtyFlag)
  else Ret status.

(** Persisting the targets and switching to the final state. *)
Definition Persistent_decide (skip_null : bool) (d my_status : Z) : prog World unit :=
  if my_status =? kStatusSucceeded
  then for_words d (fun i (_ : unit) => Persistent_persist_target skip_null d i) tt
  else Ret tt.

Definition Persistent_switch (d my_status : Z) : prog World unit :=
  cas (status_ d) (my_status .| kStatusDirtyFlag) kStatusUndecided ;;;
  let! s := ld (status_ d) in
  check (negb (clear s kStatusDirtyFlag =? kStatusUndecided)) "invalid status" ;;;
  PersistStatus d ;;;
  let! s := ld (status_ d) in
  st (status_ d) (clear s kStatusDirtyFlag).

Fixpoint PersistentMwCAS (depth : nat) (d calldepth : Z) : prog World bool :=
  match depth with
  | O => Stuck
  | S depth' =>
      let! status := Persistent_enter d calldepth in
      if negb (status =? kStatusUndecided) then
        if 0 <? calldepth then metric me BailedHelp ;;; Ret (status =? kStatusSucceeded)
        else Cleanup d
      else
        sort_by_address d ;;;
        let help other := PersistentMwCAS depth' other (calldepth + 1) ;;; Ret tt in
        let! my_status := for_words d (Persistent_install help true d) kStatusSucceeded in
        Persistent_decide true d my_status ;;;
        Persistent_switch d my_status ;;;
        let! s := ld (status_ d) in
        let succeeded := s =? kStatusSucceeded in
        for_words d (fun i (_ : unit) => Persistent_finish d i succeeded) tt ;;;
        if calldepth =? 0 then Cleanup d else Ret succeeded
  end.

Definition PersistentMwCASWithFailure (depth : nat) (d calldepth : Z) (complete_descriptor_install : bool)
    : prog World bool :=
  let! status := Persistent_enter d calldepth in
  if negb (status =? kStatusUndecided) then
    if 0 <? calldepth then metric me BailedHelp ;;; Ret (status =? kStatusSucceeded)
    else Cleanup d
  else
    let help other := PersistentMwCAS depth other (calldepth + 1) ;;; Ret tt in
    let! my_status := for_words d (Persistent_install help false d) kStatusSucceeded in
    Persistent_decide false d my_status ;;;
    if negb complete_descriptor_install then Ret false else
    Persistent_switch d my_status ;;;
    Ret false.

(** ** Entry points *)

Definition start_MwCAS (d : Z) : prog World unit :=
  let! s := ld (status_ d) in
  check (s =? kStatusFinished) "status of descriptor is not kStatusFinished" ;;;
  st (status_ d) kStatusUndecided.

Definition MwCAS (pmem : bool) (depth : nat) (d : Z) : prog World bool :=
  start_MwCAS d ;;;
  if pmem then PersistentMwCAS depth d 0 else VolatileMwCAS depth d 0.

Definition MwCASWithFailure (pmem : bool) (depth : nat) (d calldepth : Z) (complete : bool)
    : prog World bool :=
  start_MwCAS d ;;;
  if pmem then PersistentMwCASWithFailure depth d calldepth complete
  else VolatileMwCASWithFailure depth d calldepth complete.
End thread.
End platform.
