(* ===== verification/MwCAS.v ===== *)
(** * The multi-word compare-and-swap is one (src/mwcas/mwcas.cc, run alone)

    With no other thread at work, both variants of [MwCAS] compare every listed
    word with its expected value and either replace all of them or none, leave no
    flag behind, decide the descriptor's status and retire the descriptor.  Flushes
    only touch persistent memory, so evaluation is stated up to it. *)
From Stdlib Require Import ZArith Lia.
From stdpp Require Import base list gmap strings sorting.
From S2P Require Import Prelude Bytes Prog Status Library Epoch Garbage Metrics Memory Descriptor.
#[local] Open Scope Z_scope.
#[local] Open Scope machine_scope.
#[local] Open Scope prog_scope.

(** ** Flags *)

Lemma has_pow2 x k : 0 <= k -> has x (2 ^ k) = Z.testbit x k.
Proof.
  intros Hk. unfold has. destruct (Z.testbit x k) eqn:E.
  - apply negb_true_iff, Z.eqb_neq. intros H.
    assert (Z.testbit (x .& 2 ^ k) k = false) as H' by (by rewrite H, Z.bits_0).
    rewrite Z.land_spec, E, Z.pow2_bits_true in H' by done. done.
  - apply negb_false_iff, Z.eqb_eq. bitwise i Hi. rewrite Z.land_spec, Z.bits_0, Z.pow2_bits_eqb by done.
    destruct (Z.eqb_spec k i) as [->|]; [by rewrite E|apply andb_false_r].
Qed.

Lemma all_flags_bits i : 0 <= i -> Z.testbit all_flags i = (61 <=? i) && (i <=? 63).
Proof.
  intros Hi. unfold all_flags, kMwCASFlag, kCondCASFlag, kDirtyFlag.
  rewrite !Z.lor_spec, !Z.pow2_bits_eqb by lia.
  repeat zcase; try reflexivity; lia.
Qed.

(** A word without flags: below 2^61. *)
Definition plain (v : Z) : Prop := fits 61 v.

Lemma plain_bit v i : plain v -> 61 <= i -> Z.testbit v i = false.
Proof. intros H Hi. by apply (fits_testbit 61). Qed.

Lemma IsCleanPtr_plain v : fits 64 v -> IsCleanPtr v = true <-> plain v.
Proof.
  intros Hv. unfold IsCleanPtr. rewrite Z.eqb_eq. split.
  - intros H. apply testbit_fits; [lia|apply Hv|]. intros i Hi.
    destruct (Z.le_gt_cases 64 i); [by apply (fits_testbit 64)|].
    assert (Z.testbit (v .& all_flags) i = false) as E.
    { replace all_flags with (kCondCASFlag .| kMwCASFlag .| kDirtyFlag) by reflexivity. by rewrite H, Z.bits_0. }
    rewrite Z.land_spec, all_flags_bits in E by lia.
    replace ((61 <=? i) && (i <=? 63)) with true in E by (symmetry; apply andb_true_iff; lia).
    by rewrite andb_true_r in E.
  - intros H. replace (kCondCASFlag .| kMwCASFlag .| kDirtyFlag) with all_flags by reflexivity.
    bitwise i Hi. rewrite Z.land_spec, all_flags_bits, Z.bits_0 by done.
    destruct (Z.leb_spec 61 i); [|by rewrite andb_false_r]. by rewrite (plain_bit v) by done.
Qed.

Section plain_flags.
Context (v : Z) (Hv : plain v).

Lemma plain_not_flag k : 61 <= k -> has v (2 ^ k) = false.
Proof. intros Hk. rewrite has_pow2 by lia. by apply plain_bit. Qed.

Lemma plain_CleanPtr : CleanPtr v = v.
Proof.
  unfold CleanPtr, clear. bitwise i Hi. rewrite Z.ldiff_spec, all_flags_bits by done.
  destruct (Z.leb_spec 61 i); [by rewrite plain_bit by done|]. by rewrite andb_true_r.
Qed.

Lemma CleanPtr_set f : (forall i, 0 <= i -> Z.testbit f i = true -> 61 <= i <= 63) -> CleanPtr (v .| f) = v.
Proof.
  intros Hf. unfold CleanPtr, clear. bitwise i Hi. rewrite Z.ldiff_spec, Z.lor_spec, all_flags_bits by done.
  destruct (Z.leb_spec 61 i).
  - rewrite plain_bit by done. destruct (Z.leb_spec i 63); [by rewrite andb_false_r|].
    destruct (Z.testbit f i) eqn:E; [apply Hf in E; lia|done].
  - destruct (Z.testbit f i) eqn:E; [apply Hf in E; lia|]. by rewrite orb_false_r, andb_true_r.
Qed.

Lemma set_testbit f i : 61 <= i -> Z.testbit (v .| f) i = Z.testbit f i.
Proof. intros Hi. by rewrite Z.lor_spec, plain_bit. Qed.

Lemma set_clear_dirty f :
  0 <= f -> clear (v .| f) kDirtyFlag = v .| clear f kDirtyFlag.
Proof.
  intros Hf. unfold clear. bitwise i Hi. rewrite Z.ldiff_spec, !Z.lor_spec, Z.ldiff_spec.
  unfold kDirtyFlag. rewrite Z.pow2_bits_eqb by lia. destruct (Z.eqb_spec 61 i) as [<-|].
  - by rewrite plain_bit, !andb_false_r by (done || lia).
  - by rewrite !andb_true_r.
Qed.
End plain_flags.

(** The pointers a descriptor at [d] puts into words. *)
Definition mwcas_ptr (d f : Z) : Z := SetFlags d (kMwCASFlag .| f).

Section pointers.
Context (d : Z) (Hd : plain d).

Lemma mwcas_ptr_bit f i : 61 <= i -> Z.testbit (mwcas_ptr d f) i = (63 =? i) || Z.testbit f i.
Proof.
  intros Hi. unfold mwcas_ptr, SetFlags. rewrite (set_testbit d Hd) by done.
  rewrite Z.lor_spec. unfold kMwCASFlag. by rewrite Z.pow2_bits_eqb by lia.
Qed.

Lemma mwcas_ptr_not_plain f v : plain v -> mwcas_ptr d f <> v.
Proof.
  intros Hv E. assert (Z.testbit v 63 = true) as H by (rewrite <- E; by rewrite mwcas_ptr_bit by lia).
  by rewrite plain_bit in H.
Qed.

Lemma mwcas_ptr_dirty_ne : mwcas_ptr d kDirtyFlag <> mwcas_ptr d 0.
Proof.
  intros E. apply (f_equal (fun z => Z.testbit z 61)) in E.
  rewrite !mwcas_ptr_bit in E by lia. done.
Qed.

Lemma mwcas_ptr_clear : clear (mwcas_ptr d kDirtyFlag) kDirtyFlag = mwcas_ptr d 0.
Proof. unfold mwcas_ptr, SetFlags. rewrite set_clear_dirty by done. reflexivity. Qed.

Lemma mwcas_ptr_0 : mwcas_ptr d 0 = SetFlags d kMwCASFlag.
Proof. done. Qed.

Lemma CleanPtr_mwcas f : f = 0 \/ f = kDirtyFlag -> CleanPtr (mwcas_ptr d f) = d.
Proof.
  intros Hf. apply CleanPtr_set; [done|]. intros i Hi. rewrite Z.lor_spec. unfold kMwCASFlag, kDirtyFlag in *.
  rewrite Z.pow2_bits_eqb by lia. destruct Hf as [-> | ->]; rewrite ?Z.bits_0, ?Z.pow2_bits_eqb by lia;
    repeat zcase; simpl; try done; lia.
Qed.
End pointers.

Lemma dirty_bit v : has (v .| kDirtyFlag) kDirtyFlag = true.
Proof. unfold kDirtyFlag. rewrite has_pow2, Z.lor_spec, Z.pow2_bits_true by lia. apply orb_true_r. Qed.

Lemma dirty_clear v : plain v -> clear (v .| kDirtyFlag) kDirtyFlag = v.
Proof. intros H. rewrite set_clear_dirty by done. apply Z.lor_0_r. Qed.

Lemma dirty_not_plain v w : plain w -> v .| kDirtyFlag <> w.
Proof.
  intros H E. pose proof (dirty_bit v) as Hb. rewrite E in Hb.
  unfold kDirtyFlag in Hb. by rewrite plain_not_flag in Hb.
Qed.

Lemma dirty_ne_mwcas d v f : plain d -> plain v -> mwcas_ptr d f <> v .| kDirtyFlag.
Proof.
  intros Hd Hv E. apply (f_equal (fun z => Z.testbit z 63)) in E.
  rewrite mwcas_ptr_bit, (set_testbit v Hv) in E by (done || lia). done.
Qed.

(** ** Evaluation up to persistent memory *)

(** A world without its persistent image. *)
Definition St (l : gmap Z GarbageList) (e : EpochWorld) (c : gmap Z Z) (mm : MetricsWorld) : World :=
  MkGW l e (MkMem c ∅ mm).

Definition volatile (w : World) : World :=
  St (lists w) (epochs w) (cells (client w)) (metrics (client w)).

Definition ev {A} (p : prog World A) (w : World) (x : A) (w' : World) : Prop :=
  forall w0, volatile w0 = w -> exists w1, run p w0 = (Done x, w1) /\ volatile w1 = w'.

(** Persisting changes persistent memory only, and the application's free callback none
    of the library's words. *)
Class PlatformLaws `{Platform} := {
  persist_cells a n s : cells (pmemobj_persist a n s) = cells s;
  persist_metrics a n s : metrics (pmemobj_persist a n s) = metrics s;
  free_cells f ctx v s : cells (run_free_callback f ctx v s) = cells s
}.

Section rules.
Context (l : gmap Z GarbageList) (e : EpochWorld) (c : gmap Z Z) (mm : MetricsWorld).

Lemma ev_ret {A} (a : A) w : ev (Ret a) w a w.
Proof. intros w0 <-. by exists w0. Qed.

Lemma ev_bind {A B} (p : prog World A) (k : A -> prog World B) w x w1 y w2 :
  ev p w x w1 -> ev (k x) w1 y w2 -> ev (bind p k) w y w2.
Proof.
  intros Hp Hk w0 H0. destruct (Hp w0 H0) as (w0' & R & H1).
  destruct (Hk w0' H1) as (w0'' & R' & H2). exists w0''. split; [|done].
  by rewrite run_bind, R.
Qed.

Lemma ev_zoom {A} (p : prog Mem A) x c' mm' :
  (forall pc, exists pc', run p (MkMem c pc mm) = (Done x, MkMem c' pc' mm')) ->
  ev (zoom p) (St l e c mm) x (St l e c' mm').
Proof.
  intros Hp w0 H0. destruct w0 as [l0 e0 [c0 pc0 m0]]. unfold volatile, St in H0. simpl in H0.
  injection H0 as -> -> -> ->. destruct (Hp pc0) as [pc' R]. rewrite run_zoom. simpl. rewrite R.
  by eexists.
Qed.

Lemma ev_ld a v : c !! a = Some v -> ev (ld a) (St l e c mm) v (St l e c mm).
Proof. intros H. apply ev_zoom. intros pc. exists pc. by rewrite (run_load a v). Qed.

Lemma ev_st a v : is_Some (c !! a) -> ev (st a v) (St l e c mm) tt (St l e (<[a := v]> c) mm).
Proof. intros [u H]. apply ev_zoom. intros pc. exists pc. by rewrite (run_store a v u). Qed.

Lemma ev_cas_ok a new v : c !! a = Some v -> ev (cas a new v) (St l e c mm) v (St l e (<[a := new]> c) mm).
Proof.
  intros H. apply ev_zoom. intros pc. exists pc. rewrite (run_cas a new v v) by done. by rewrite Z.eqb_refl.
Qed.

Lemma ev_cas_fail a new cmp v :
  c !! a = Some v -> v <> cmp -> ev (cas a new cmp) (St l e c mm) v (St l e c mm).
Proof.
  intros H Hne. apply ev_zoom. intros pc. exists pc. rewrite (run_cas a new cmp v) by done.
  rewrite (proj2 (Z.eqb_neq _ _) Hne). simpl. by rewrite insert_id.
Qed.

Lemma ev_check (b : bool) msg w : b = true -> ev (check b msg) w tt w.
Proof. intros -> w0 <-. by exists w0. Qed.

Lemma ev_flush `{PlatformLaws} a n : ev (zoom (NVRAM_Flush n a)) (St l e c mm) tt (St l e c mm).
Proof.
  apply ev_zoom. intros pc. exists (pcells (pmemobj_persist a n (MkMem c pc mm))).
  unfold NVRAM_Flush. rewrite run_upd. do 2 f_equal.
  pose proof (persist_cells a n (MkMem c pc mm)) as E1. pose proof (persist_metrics a n (MkMem c pc mm)) as E2.
  destruct (pmemobj_persist a n (MkMem c pc mm)). simpl in *. by subst.
Qed.

Lemma ev_metric me k : metrics_ok me mm -> ev (metric me k) (St l e c mm) tt (St l e c (bump me k mm)).
Proof.
  intros H. apply ev_zoom. intros pc. exists pc. rewrite run_zoom.
  change (get (MkMem c pc mm)) with mm. destruct (run_AddMetric me k mm H) as [-> _]. done.
Qed.

Lemma ev_zoom_epochs {A} (p : prog EpochWorld A) x e' :
  run p e = (Done x, e') -> ev (zoom p) (St l e c mm) x (St l e' c mm).
Proof.
  intros Hp w0 H0. destruct w0 as [l0 e0 [c0 pc0 m0]]. unfold volatile, St in H0. simpl in H0.
  injection H0 as -> -> -> ->. rewrite run_zoom. simpl. rewrite Hp. by eexists.
Qed.

Lemma ev_gl_read {X} g G (f : GarbageList -> X) :
  l !! g = Some G -> ev (gl_read g f) (St l e c mm) (f G) (St l e c mm).
Proof.
  intros H w0 H0. exists w0. unfold gl_read. rewrite run_rd. split; [|done].
  unfold glist. replace (lists w0) with l by (by destruct w0; unfold volatile, St in H0; simplify_eq).
  by rewrite H.
Qed.
End rules.

(** ** Words of a descriptor *)

Record wrec := MkW { wa : Z; wo : Z; wn : Z; wp : Z }.

Section descriptor.
Context {HP : Platform} {HL : PlatformLaws} (me : Z) (fuel : nat) (fuel_pos : (0 < fuel)%nat).
Context (l : gmap Z GarbageList) (e : EpochWorld) (mm : MetricsWorld).
Context (d part g : Z) (ws : list wrec).

(** The descriptor and its words are at sane, disjoint addresses. *)
Record layout_ok : Prop := {
  lay_d : 0 < d /\ d + 256 <= 2 ^ 61;
  lay_n : (length ws <= 4)%nat;
  lay_part : ~ (d <= garbage_list part < d + 256);
  lay_target x : x ∈ ws -> wa x <> 0 -> ~ (d <= wa x < d + 256) /\ wa x <> garbage_list part;
  lay_plain x : x ∈ ws -> plain (wo x) /\ plain (wn x);
  lay_nodup : NoDup (filter (fun a => a <> 0) (wa <$> ws))
}.
Context (Hlay : layout_ok).

Definition word_at (c : gmap Z Z) (i : nat) (x : wrec) : Prop :=
  let w := words_ d (Z.of_nat i) in
  c !! address_ w = Some (wa x) /\ c !! old_value_ w = Some (wo x) /\
  c !! new_value_ w = Some (wn x) /\ c !! status_address_ w = Some (status_ d) /\
  c !! recycle_policy_ w = Some (wp x).

(** What no phase changes. *)
Definition frame (c : gmap Z Z) : Prop :=
  (forall i x, ws !! i = Some x -> word_at c i x) /\
  c !! count_ d = Some (Z.of_nat (length ws)) /\
  c !! owner_partition_ d = Some part /\ c !! garbage_list part = Some g.

Lemma word_range i x : ws !! i = Some x -> 0 <= Z.of_nat i < 4.
Proof. intros Hi. apply lookup_lt_Some in Hi. destruct Hlay as [_ Hn _ _ _ _]. lia. Qed.

Lemma d_plain : plain d.
Proof. destruct Hlay as [Hd _ _ _ _ _]. unfold plain, fits. lia. Qed.

Ltac layout := unfold status_, count_, owner_partition_, garbage_list, words_, address_, old_value_,
  new_value_, status_address_, recycle_policy_, sizeof_WordDescriptor in *; lia.

Lemma frame_insert c a v :
  frame c -> (exists x, x ∈ ws /\ wa x = a /\ a <> 0) \/ a = status_ d -> frame (<[a := v]> c).
Proof.
  intros (Hw & Hc & Ho & Hg) Ha. pose proof Hlay as [Hd Hn Hp Ht _ _].
  assert (a = status_ d \/ ~ (d <= a < d + 256) /\ a <> garbage_list part) as Ha'.
  { destruct Ha as [(x & Hx & <- & H0)|]; [right; by apply Ht|by left]. }
  assert (forall b, b <> a -> (<[a := v]> c) !! b = c !! b) as Hne by (intros; by apply lookup_insert_ne).
  split; [|split; [|split]].
  - intros i x Hi. destruct (Hw i x Hi) as (H1 & H2 & H3 & H4 & H5). pose proof (word_range i x Hi).
    unfold word_at. rewrite !Hne by layout. done.
  - rewrite Hne by layout. done.
  - rewrite Hne by layout. done.
  - rewrite Hne by layout. done.
Qed.

(** Updating the target of one word, and of every word of a list. *)
Definition upd_target (h : wrec -> Z -> Z) (c : gmap Z Z) (x : wrec) : gmap Z Z :=
  if wa x =? 0 then c else alter (h x) (wa x) c.
Definition upd_all (h : wrec -> Z -> Z) (xs : list wrec) (c : gmap Z Z) : gmap Z Z :=
  foldl (upd_target h) c xs.

Definition targets_nodup (xs : list wrec) : Prop := NoDup (filter (fun a => a <> 0) (wa <$> xs)).

Lemma targets_nodup_cons x xs :
  targets_nodup (x :: xs) -> wa x <> 0 -> forall y, y ∈ xs -> wa y <> wa x.
Proof.
  unfold targets_nodup. rewrite fmap_cons. intros Hnd Hx y Hy E.
  rewrite filter_cons_True in Hnd by done. apply NoDup_cons in Hnd as [Hn _]. apply Hn.
  apply list_elem_of_filter. split; [done|]. rewrite <- E. by apply list_elem_of_fmap_2.
Qed.

Lemma targets_nodup_tail x xs : targets_nodup (x :: xs) -> targets_nodup xs.
Proof.
  unfold targets_nodup. rewrite fmap_cons. destruct (decide (wa x <> 0)).
  - rewrite filter_cons_True by done. by intros [_ ?]%NoDup_cons.
  - by rewrite filter_cons_False.
Qed.

Lemma targets_nodup_app xs ys : targets_nodup (xs ++ ys) -> targets_nodup xs.
Proof. unfold targets_nodup. rewrite fmap_app, filter_app. by intros [? _]%NoDup_app. Qed.

Lemma upd_all_other h xs c a : (forall x, x ∈ xs -> wa x <> 0 -> wa x <> a) -> upd_all h xs c !! a = c !! a.
Proof.
  revert c. induction xs as [|x xs IH]; intros c Ha; [done|]. simpl.
  rewrite IH by (intros y Hy; apply Ha; by right). unfold upd_target.
  destruct (Z.eqb_spec (wa x) 0); [done|]. apply lookup_alter_ne. apply Ha; [by left|done].
Qed.

Lemma upd_all_target h xs c x :
  targets_nodup xs -> x ∈ xs -> wa x <> 0 -> upd_all h xs c !! wa x = h x <$> c !! wa x.
Proof.
  revert c. induction xs as [|y xs IH]; intros c Hnd Hx H0; [by apply elem_of_nil in Hx|]. simpl.
  apply elem_of_cons in Hx as [->|Hx].
  - rewrite upd_all_other.
    + unfold upd_target. rewrite (proj2 (Z.eqb_neq _ _) H0). by rewrite lookup_alter_eq.
    + intros z Hz _. by eapply targets_nodup_cons.
  - rewrite IH by (done || by eapply targets_nodup_tail). unfold upd_target.
    destruct (Z.eqb_spec (wa y) 0); [done|]. rewrite lookup_alter_ne; [done|].
    intros E. by apply (targets_nodup_cons y xs Hnd ltac:(done) x Hx).
Qed.

Lemma frame_upd_all h xs c : xs ⊆ ws -> frame c -> frame (upd_all h xs c).
Proof.
  intros Hsub. revert c. induction xs as [|x xs IH]; intros c Hf; [done|]. simpl. apply IH; [set_solver|].
  unfold upd_target. destruct (Z.eqb_spec (wa x) 0); [done|].
  destruct (c !! wa x) as [v|] eqn:E.
  - replace (alter (h x) (wa x) c) with (<[wa x := h x v]> c).
    + apply frame_insert; [done|]. left. exists x. split; [set_solver|done].
    + apply map_eq. intros a. destruct (decide (a = wa x)) as [->|].
      * by rewrite lookup_insert_eq, lookup_alter_eq, E.
      * by rewrite lookup_insert_ne, lookup_alter_ne by done.
  - rewrite alter_id; [done|]. intros v Hv. congruence.
Qed.

(** A loop over the words whose body updates one target at a time. *)
Lemma ev_words {I} (body : Z -> I -> prog World I) (h : wrec -> Z -> Z) (i0 : I) (ok : wrec -> gmap Z Z -> Prop) :
  (forall i x c, ws !! i = Some x -> frame c -> ok x c ->
     ev (body (Z.of_nat i) i0) (St l e c mm) i0 (St l e (upd_target h c x) mm)) ->
  forall xs pre c, pre ++ xs = ws -> frame c ->
  (forall x ys zs, xs = ys ++ x :: zs -> ok x (upd_all h ys c)) ->
  ev (for_list (seq (length pre) (length xs)) (fun i => body (Z.of_nat i)) i0) (St l e c mm) i0
    (St l e (upd_all h xs c) mm).
Proof.
  intros Hb. induction xs as [|x xs IH]; intros pre c E Hf Hok; [apply ev_ret|].
  cbn [length seq for_list]. assert (ws !! length pre = Some x) as Hx.
  { rewrite <- E. rewrite lookup_app_r, Nat.sub_diag by lia. done. }
  eapply ev_bind; [apply (Hb _ x); [done..|by apply (Hok x [] xs)]|].
  specialize (IH (pre ++ [x]) (upd_target h c x)). rewrite length_app, Nat.add_1_r in IH.
  apply IH.
  - by rewrite <- app_assoc.
  - apply (frame_upd_all h [x] c); [|done]. intros y ->%list_elem_of_singleton.
    by eapply list_elem_of_lookup_2.
  - intros y ys zs Ey. apply (Hok y (x :: ys) zs). by rewrite Ey.
Qed.

Lemma ev_for_words {I} (body : Z -> I -> prog World I) (h : wrec -> Z -> Z) (i0 : I)
    (ok : wrec -> gmap Z Z -> Prop) c :
  (forall i x c, ws !! i = Some x -> frame c -> ok x c ->
     ev (body (Z.of_nat i) i0) (St l e c mm) i0 (St l e (upd_target h c x) mm)) ->
  frame c -> (forall x ys zs, ws = ys ++ x :: zs -> ok x (upd_all h ys c)) ->
  ev (for_words d body i0) (St l e c mm) i0 (St l e (upd_all h ws c) mm).
Proof.
  intros Hb Hf Hok. unfold for_words. eapply ev_bind; [apply ev_ld, Hf|].
  rewrite Nat2Z.id. by apply (ev_words body h i0 ok Hb ws []).
Qed.

(** ** Phase 1: installing the descriptor *)

Lemma ev_loop_once {I O} (body : I -> prog World (I + O)) i w o w' :
  ev (body i) w (inr o) w' -> ev (loop fuel body i) w o w'.
Proof.
  intros H. destruct fuel as [|n]; [lia|]. cbn [loop]. eapply ev_bind; [exact H|]. apply ev_ret.
Qed.

Lemma target_ne c x : frame c -> x ∈ ws -> wa x <> 0 -> wa x <> status_ d.
Proof. intros _ Hx H0 E. pose proof Hlay as [_ _ _ Ht _ _]. destruct (Ht x Hx H0) as [Hn _]. layout. Qed.

Lemma ev_CondCAS f i x c v :
  frame c -> ws !! i = Some x -> wa x <> 0 -> c !! status_ d = Some kStatusUndecided ->
  c !! wa x = Some v -> plain v ->
  ev (CondCAS fuel d (Z.of_nat i) f) (St l e c mm) v
     (St l e (if v =? wo x then <[wa x := mwcas_ptr d f]> c else c) mm).
Proof.
  intros Hf Hi H0 Hs Hv Hp. pose proof Hf as (Hw & _). destruct (Hw i x Hi) as (Ha & Ho & _).
  assert (x ∈ ws) as Hx by (by eapply list_elem_of_lookup_2).
  pose proof (target_ne c x Hf Hx H0) as Hne.
  assert (IsCondCASDescriptorPtr v = false) as Hc by (by apply plain_not_flag).
  apply ev_loop_once. unfold CondCAS_try. cbv zeta.
  eapply ev_bind; [by apply ev_ld|]. eapply ev_bind; [by apply ev_ld|].
  destruct (Z.eqb_spec v (wo x)) as [->|Hvo].
  - eapply ev_bind; [by apply ev_cas_ok|]. rewrite Hc, Z.eqb_refl. unfold if_undecided.
    eapply ev_bind.
    { eapply ev_bind; [apply ev_ld; by rewrite lookup_insert_ne|]. rewrite Z.eqb_refl. apply ev_ret. }
    eapply ev_bind; [apply ev_cas_ok; apply lookup_insert_eq|]. rewrite insert_insert_eq. apply ev_ret.
  - eapply ev_bind; [by apply ev_cas_fail|]. rewrite Hc, (proj2 (Z.eqb_neq _ _) Hvo). apply ev_ret.
Qed.

(** What makes the word go along, and what installing does to it. *)
Definition matches (c : gmap Z Z) (x : wrec) : Prop := wa x = 0 \/ c !! wa x = Some (wo x).
#[local] Instance matches_dec c x : Decision (matches c x).
Proof. unfold matches. apply _. Defined.

Definition ready (c : gmap Z Z) (x : wrec) : Prop :=
  c !! status_ d = Some kStatusUndecided /\
  (wa x <> 0 -> exists v, c !! wa x = Some v /\ plain v /\ v <> d).

Definition install_spec (f : Z) (install : Z -> Z -> prog World Z) : Prop :=
  (forall i w, ev (install i kStatusFailed) w kStatusFailed w) /\
  forall i x c, ws !! i = Some x -> frame c -> ready c x ->
    (matches c x -> ev (install (Z.of_nat i) kStatusSucceeded) (St l e c mm) kStatusSucceeded
                       (St l e (upd_target (fun _ _ => mwcas_ptr d f) c x) mm)) /\
    (~ matches c x -> ev (install (Z.of_nat i) kStatusSucceeded) (St l e c mm) kStatusFailed (St l e c mm)).

Lemma upd_target_const c x v w :
  wa x <> 0 -> c !! wa x = Some v -> upd_target (fun _ _ => w) c x = <[wa x := w]> c.
Proof.
  intros H0 Hv. unfold upd_target. rewrite (proj2 (Z.eqb_neq _ _) H0). apply map_eq. intros a.
  destruct (decide (a = wa x)) as [->|].
  - by rewrite lookup_alter_eq, lookup_insert_eq, Hv.
  - by rewrite lookup_alter_ne, lookup_insert_ne by done.
Qed.

Lemma Persistent_install_spec help :
  install_spec kDirtyFlag (Persistent_install me fuel help true d).
Proof.
  split; [intros; apply ev_ret|].
  intros i x c Hi Hf [Hs Hv]. pose proof Hf as (Hw & _). destruct (Hw i x Hi) as (Ha & Ho & _).
  assert (x ∈ ws) as Hx by (by eapply list_elem_of_lookup_2).
  unfold Persistent_install. cbv zeta. split; intros Hm; cbn [Z.eqb negb];
    change (negb (kStatusSucceeded =? kStatusSucceeded)) with false; cbv iota;
    (eapply ev_bind; [by apply ev_ld|]); cbn [andb].
  - destruct (Z.eqb_spec (wa x) kAllocNullAddress) as [E0|H0]; [unfold upd_target; rewrite E0; apply ev_ret|].
    destruct (Hv H0) as (v & Hcv & Hp & Hd). destruct Hm as [|Hm]; [done|].
    rewrite (upd_target_const c x v) by done. rewrite Hm in Hcv. injection Hcv as <-.
    apply ev_loop_once. eapply ev_bind; [by apply (ev_CondCAS kDirtyFlag i x c (wo x))|].
    rewrite Z.eqb_refl. eapply ev_bind.
    { apply ev_ld. assert (frame (<[wa x := mwcas_ptr d kDirtyFlag]> c)) as Hf'
        by (apply frame_insert; [done|left; by exists x]). by apply Hf'. }
    rewrite Z.eqb_refl. apply ev_ret.
  - destruct (Z.eqb_spec (wa x) kAllocNullAddress) as [E0|H0]; [by destruct Hm; left|].
    destruct (Hv H0) as (v & Hcv & Hp & Hd).
    assert (v <> wo x) as Hne by (intros ->; by destruct Hm; right).
    apply ev_loop_once. eapply ev_bind; [by apply (ev_CondCAS kDirtyFlag i x c v)|].
    rewrite (proj2 (Z.eqb_neq _ _) Hne). eapply ev_bind; [by apply ev_ld|].
    rewrite (proj2 (Z.eqb_neq _ _) Hne), plain_CleanPtr, (proj2 (Z.eqb_neq _ _) Hd) by done. cbn [orb].
    unfold IsMwCASDescriptorPtr, kDirtyFlag, kMwCASFlag.
    rewrite !plain_not_flag by (done || lia). apply ev_ret.
Qed.

Lemma Volatile_install_spec help :
  install_spec 0 (Volatile_install me fuel help d).
Proof.
  split; [intros; apply ev_ret|].
  intros i x c Hi Hf [Hs Hv]. pose proof Hf as (Hw & _). destruct (Hw i x Hi) as (Ha & Ho & _).
  assert (x ∈ ws) as Hx by (by eapply list_elem_of_lookup_2).
  unfold Volatile_install. cbv zeta. split; intros Hm;
    change (negb (kStatusSucceeded =? kStatusSucceeded)) with false; cbv iota;
    (eapply ev_bind; [by apply ev_ld|]).
  - destruct (Z.eqb_spec (wa x) kAllocNullAddress) as [E0|H0]; [unfold upd_target; rewrite E0; apply ev_ret|].
    destruct (Hv H0) as (v & Hcv & Hp & Hd). destruct Hm as [|Hm]; [done|].
    rewrite (upd_target_const c x v) by done. rewrite Hm in Hcv. injection Hcv as <-.
    apply ev_loop_once. eapply ev_bind; [by apply (ev_CondCAS 0 i x c (wo x))|].
    rewrite Z.eqb_refl. eapply ev_bind.
    { apply ev_ld. assert (frame (<[wa x := mwcas_ptr d 0]> c)) as Hf'
        by (apply frame_insert; [done|left; by exists x]). by apply Hf'. }
    rewrite Z.eqb_refl. apply ev_ret.
  - destruct (Z.eqb_spec (wa x) kAllocNullAddress) as [E0|H0]; [by destruct Hm; left|].
    destruct (Hv H0) as (v & Hcv & Hp & Hd).
    assert (v <> wo x) as Hne by (intros ->; by destruct Hm; right).
    apply ev_loop_once. eapply ev_bind; [by apply (ev_CondCAS 0 i x c v)|].
    rewrite (proj2 (Z.eqb_neq _ _) Hne). eapply ev_bind; [by apply ev_ld|].
    rewrite (proj2 (Z.eqb_neq _ _) Hne).
    rewrite (proj2 (Z.eqb_neq v (SetFlags d kMwCASFlag)))
      by (rewrite <- mwcas_ptr_0; intros E; by apply (mwcas_ptr_not_plain d d_plain 0 v)).
    cbn [orb]. unfold IsMwCASDescriptorPtr, kMwCASFlag. rewrite plain_not_flag by (done || lia). apply ev_ret.
Qed.

Lemma first_mismatch c xs :
  Forall (matches c) xs \/
  exists ys x zs, xs = ys ++ x :: zs /\ Forall (matches c) ys /\ ~ matches c x.
Proof.
  induction xs as [|x xs IH]; [by left|]. destruct (decide (matches c x)) as [Hx|Hx].
  - destruct IH as [IH|(ys & y & zs & -> & Hys & Hy)]; [left; by constructor|right].
    exists (x :: ys), y, zs. split; [done|]. split; [by constructor|done].
  - right. exists [], x, xs. done.
Qed.

Lemma nodup_before ys x zs :
  targets_nodup (ys ++ x :: zs) -> wa x <> 0 -> forall y, y ∈ ys -> wa y <> 0 -> wa y <> wa x.
Proof.
  unfold targets_nodup. rewrite fmap_app, filter_app, fmap_cons. intros Hnd Hx y Hy H0 E.
  apply NoDup_app in Hnd as (_ & Hdis & _). apply (Hdis (wa y)).
  - apply list_elem_of_filter. split; [done|]. by apply list_elem_of_fmap_2.
  - rewrite filter_cons_True by done. rewrite E. by left.
Qed.

(** Installing in the words before [x] changes neither the status nor [x]'s target. *)
Lemma upd_before h ys x zs c :
  ws = ys ++ x :: zs -> frame c ->
  upd_all h ys c !! status_ d = c !! status_ d /\
  (wa x <> 0 -> upd_all h ys c !! wa x = c !! wa x).
Proof.
  intros E Hf. pose proof (lay_nodup Hlay) as Hnd. rewrite E in Hnd. split.
  - apply upd_all_other. intros y Hy H0. apply (target_ne c); [done| |done].
    rewrite E. apply elem_of_app. by left.
  - intros H0. apply upd_all_other. intros y Hy Hy0. by apply (nodup_before ys x zs).
Qed.

Lemma ready_before h ys x zs c : ws = ys ++ x :: zs -> frame c -> ready c x -> ready (upd_all h ys c) x.
Proof.
  intros E Hf [Hs Hv]. destruct (upd_before h ys x zs c E Hf) as [E1 E2]. split; [by rewrite E1|].
  intros H0. rewrite E2 by done. by apply Hv.
Qed.

Lemma matches_before h ys x zs c : ws = ys ++ x :: zs -> frame c -> matches (upd_all h ys c) x <-> matches c x.
Proof.
  intros E Hf. destruct (upd_before h ys x zs c E Hf) as [_ E2]. unfold matches.
  destruct (decide (wa x = 0)); [tauto|]. by rewrite E2.
Qed.

Lemma ev_for_list_app {I} (l1 l2 : list nat) (body : nat -> I -> prog World I) i w j w1 k w2 :
  ev (for_list l1 body i) w j w1 -> ev (for_list l2 body j) w1 k w2 ->
  ev (for_list (l1 ++ l2) body i) w k w2.
Proof.
  intros H1 H2 w0 E. destruct (H1 w0 E) as (w0' & R1 & E1). destruct (H2 w0' E1) as (w0'' & R2 & E2).
  exists w0''. split; [|done]. clear - R1 R2. revert i w0 R1.
  induction l1 as [|x l1 IH]; intros i w0 R1; simpl in *; [by simplify_eq|].
  rewrite run_bind in *. destruct (run (body x i) w0) as [[a|msg|] s']; simpl in *; try discriminate.
  by apply IH.
Qed.

Lemma ev_const {I} (body : nat -> I -> prog World I) (i : I) w xs :
  (forall n, n ∈ xs -> ev (body n i) w i w) -> ev (for_list xs body i) w i w.
Proof.
  induction xs as [|x xs IH]; intros H; [apply ev_ret|]. simpl.
  eapply ev_bind; [apply H; by left|]. apply IH. intros n Hn. apply H. by right.
Qed.

(** Phase 1: install everywhere, or stop at the first word that differs. *)
Lemma ev_phase1 f install c :
  install_spec f install -> frame c -> (forall x, x ∈ ws -> ready c x) ->
  exists ys zs status, ws = ys ++ zs /\ Forall (matches c) ys /\
    ((zs = [] /\ status = kStatusSucceeded) \/ (~ Forall (matches c) ws /\ status = kStatusFailed)) /\
    ev (for_words d install kStatusSucceeded) (St l e c mm) status
       (St l e (upd_all (fun _ _ => mwcas_ptr d f) ys c) mm).
Proof.
  intros Hin Hf Hr. set (h := fun (_ : wrec) (_ : Z) => mwcas_ptr d f).
  assert (forall ys zs, ws = ys ++ zs -> Forall (matches c) ys ->
    ev (for_list (seq 0 (length ys)) (fun i => install (Z.of_nat i)) kStatusSucceeded) (St l e c mm)
       kStatusSucceeded (St l e (upd_all h ys c) mm)) as Hpre.
  { intros ys. induction ys as [|y ys IH] using rev_ind; intros zs E HF; [apply ev_ret|].
    apply Forall_app in HF as [HF Hy]. rewrite Forall_singleton in Hy. rewrite <- app_assoc in E. simpl in E.
    rewrite length_app, Nat.add_1_r, seq_S. simpl. eapply ev_for_list_app; [by apply (IH (y :: zs))|].
    cbn [for_list]. eapply ev_bind; [|apply ev_ret]. unfold upd_all. rewrite foldl_app. simpl.
    assert (ws !! length ys = Some y) as Hi by (by rewrite E, lookup_app_r, Nat.sub_diag by lia).
    assert (frame (upd_all h ys c)) as Hf'.
    { apply frame_upd_all; [|done]. rewrite E. set_solver. }
    destruct (proj2 Hin (length ys) y (upd_all h ys c) Hi Hf') as (H1 & _).
    - apply (ready_before h ys y zs); [done..|]. apply Hr. rewrite E. set_solver.
    - apply H1, (matches_before h ys y zs c E Hf), Hy. }
  destruct (first_mismatch c ws) as [Hall|(ys & x & zs & E & HF & Hx)].
  - exists ws, [], kStatusSucceeded. rewrite app_nil_r. split; [done|]. split; [done|]. split; [by left|].
    unfold for_words. eapply ev_bind; [apply ev_ld, Hf|]. rewrite Nat2Z.id. apply (Hpre ws []); [by rewrite app_nil_r|done].
  - exists ys, (x :: zs), kStatusFailed. split; [done|]. split; [done|]. split.
    { right. split; [|done]. intros Hall. apply Hx. rewrite Forall_forall in Hall. apply Hall. rewrite E. set_solver. }
    unfold for_words. eapply ev_bind; [apply ev_ld, Hf|]. rewrite Nat2Z.id.
    assert (length ws = (length ys + S (length zs))%nat) as -> by (rewrite E, length_app; done).
    rewrite seq_app. eapply ev_for_list_app; [by apply (Hpre ys (x :: zs))|].
    assert (frame (upd_all h ys c)) as Hf'.
    { apply frame_upd_all; [|done]. rewrite E. set_solver. }
    cbn [seq for_list plus]. eapply ev_bind.
    + destruct (proj2 Hin (length ys) x (upd_all h ys c)) as (_ & H2); [|done| |].
      * by rewrite E, lookup_app_r, Nat.sub_diag by lia.
      * apply (ready_before h ys x zs); [done..|]. apply Hr. rewrite E. set_solver.
      * apply H2. by rewrite (matches_before h ys x zs c E Hf).
    + apply ev_const. intros n _. apply Hin.
Qed.

(** ** Phase 2: persisting, switching the status, and the final values *)

Lemma ev_persist c a n : ev (zoom (NVRAM_Flush n a)) (St l e c mm) tt (St l e c mm).
Proof. apply (@ev_flush l e c mm HP HL). Qed.

Lemma ev_persist_target i x c :
  ws !! i = Some x -> frame c -> (wa x <> 0 -> c !! wa x = Some (mwcas_ptr d kDirtyFlag)) ->
  ev (Persistent_persist_target true d (Z.of_nat i)) (St l e c mm) tt
     (St l e (upd_target (fun _ _ => mwcas_ptr d 0) c x) mm).
Proof.
  intros Hi Hf Hv. pose proof Hf as (Hw & _). destruct (Hw i x Hi) as (Ha & _).
  unfold Persistent_persist_target. cbv zeta. eapply ev_bind; [by apply ev_ld|]. cbn [andb].
  destruct (Z.eqb_spec (wa x) kAllocNullAddress) as [E0|H0]; [unfold upd_target; rewrite E0; apply ev_ret|].
  specialize (Hv H0). eapply ev_bind; [by apply ev_ld|].
  fold (mwcas_ptr d kDirtyFlag). rewrite Z.eqb_refl, (upd_target_const c x (mwcas_ptr d kDirtyFlag)) by done.
  eapply ev_bind; [apply ev_persist|]. eapply ev_bind; [by apply ev_ld|].
  rewrite (mwcas_ptr_clear d d_plain). eapply ev_bind; [by apply ev_cas_ok|]. apply ev_ret.
Qed.

Lemma ev_switch c my_status :
  my_status = kStatusSucceeded \/ my_status = kStatusFailed ->
  c !! status_ d = Some kStatusUndecided ->
  ev (Persistent_switch d my_status) (St l e c mm) tt (St l e (<[status_ d := my_status]> c) mm).
Proof.
  intros Hm Hs. unfold Persistent_switch. eapply ev_bind; [by apply ev_cas_ok|].
  eapply ev_bind; [apply ev_ld, lookup_insert_eq|].
  eapply ev_bind; [apply ev_check; by destruct Hm as [-> | ->]|].
  eapply ev_bind; [apply ev_persist|]. eapply ev_bind; [apply ev_ld, lookup_insert_eq|].
  replace (clear (my_status .| kStatusDirtyFlag) kStatusDirtyFlag) with my_status by (by destruct Hm as [-> | ->]).
  rewrite <- (insert_insert_eq c (status_ d) my_status (my_status .| kStatusDirtyFlag)).
  apply ev_st. rewrite lookup_insert_eq. by eexists.
Qed.

(** The final value goes into the words that point here, and into no other. *)
Definition final (succeeded : bool) (x : wrec) : Z := if succeeded then wn x else wo x.
Definition finished (succeeded : bool) (x : wrec) (v : Z) : Z :=
  if bool_decide (v = mwcas_ptr d 0 \/ v = mwcas_ptr d kDirtyFlag) then final succeeded x else v.

Lemma final_plain s x : x ∈ ws -> plain (final s x).
Proof. intros Hx. destruct (lay_plain Hlay x Hx). by destruct s. Qed.

Lemma final_field s i x c :
  ws !! i = Some x -> frame c ->
  c !! (if s : bool then new_value_ (words_ d (Z.of_nat i)) else old_value_ (words_ d (Z.of_nat i)))
    = Some (final s x).
Proof. intros Hi (Hw & _). destruct (Hw i x Hi) as (_ & Ho & Hn & _). by destruct s. Qed.

Lemma upd_target_value c x v w :
  wa x <> 0 -> c !! wa x = Some v -> forall h, h x v = w -> upd_target h c x = <[wa x := w]> c.
Proof.
  intros H0 Hv h <-. unfold upd_target. rewrite (proj2 (Z.eqb_neq _ _) H0). apply map_eq. intros a.
  destruct (decide (a = wa x)) as [->|].
  - by rewrite lookup_alter_eq, lookup_insert_eq, Hv.
  - by rewrite lookup_alter_ne, lookup_insert_ne by done.
Qed.

(** A word's content when the final phase reaches it. *)
Definition settled (c : gmap Z Z) (x : wrec) : Prop :=
  wa x <> 0 -> exists v, c !! wa x = Some v /\
    (v = mwcas_ptr d 0 \/ v = mwcas_ptr d kDirtyFlag \/ plain v).

Lemma ev_Volatile_finish s i x c :
  ws !! i = Some x -> frame c ->
  (wa x <> 0 -> exists v, c !! wa x = Some v /\ (v = mwcas_ptr d 0 \/ plain v)) ->
  ev (Volatile_finish d (Z.of_nat i) s) (St l e c mm) tt (St l e (upd_target (finished s) c x) mm).
Proof.
  intros Hi Hf Hv. pose proof Hf as (Hw & _). destruct (Hw i x Hi) as (Ha & _).
  unfold Volatile_finish. cbv zeta. eapply ev_bind; [by apply ev_ld|].
  destruct (Z.eqb_spec (wa x) kAllocNullAddress) as [E0|H0]; [unfold upd_target; rewrite E0; apply ev_ret|].
  destruct (Hv H0) as (v & Hcv & Hsv). eapply ev_bind; [by apply ev_ld, final_field|].
  rewrite <- mwcas_ptr_0. destruct Hsv as [->|Hp].
  - rewrite (upd_target_value c x (mwcas_ptr d 0) (final s x)); [|done..|].
    + eapply ev_bind; [by apply ev_cas_ok|apply ev_ret].
    + unfold finished. by rewrite bool_decide_true by (by left).
  - rewrite (upd_target_value c x v v); [|done..|].
    + rewrite insert_id by done. eapply ev_bind; [apply (ev_cas_fail _ _ _ _ _ _ _ v); [done|]|apply ev_ret].
      intros E. by apply (mwcas_ptr_not_plain d d_plain 0 v).
    + unfold finished. rewrite bool_decide_false; [done|].
      intros [E|E]; symmetry in E; by apply (mwcas_ptr_not_plain d d_plain _ v) in E.
Qed.

Lemma ev_Persistent_finish s i x c :
  ws !! i = Some x -> frame c -> settled c x ->
  ev (Persistent_finish d (Z.of_nat i) s) (St l e c mm) tt (St l e (upd_target (finished s) c x) mm).
Proof.
  intros Hi Hf Hv. pose proof Hf as (Hw & _). destruct (Hw i x Hi) as (Ha & _).
  assert (x ∈ ws) as Hx by (by eapply list_elem_of_lookup_2). pose proof (final_plain s x Hx) as Hfp.
  unfold Persistent_finish. cbv zeta. eapply ev_bind; [by apply ev_ld|].
  destruct (Z.eqb_spec (wa x) kAllocNullAddress) as [E0|H0]; [unfold upd_target; rewrite E0; apply ev_ret|].
  destruct (Hv H0) as (v & Hcv & Hsv). eapply ev_bind; [by apply ev_ld, final_field|].
  fold (mwcas_ptr d kDirtyFlag). rewrite (mwcas_ptr_clear d d_plain), (dirty_clear _ Hfp).
  set (val := final s x .| kDirtyFlag).
  assert (ev (PersistAddress (words_ d (Z.of_nat i)) ;;; check (has val kDirtyFlag) "invalid final value" ;;;
            cas (wa x) (final s x) val ;;; Ret tt) (St l e (<[wa x := val]> c) mm) tt
          (St l e (<[wa x := final s x]> c) mm)) as Htail.
  { eapply ev_bind; [apply ev_persist|]. eapply ev_bind; [apply ev_check, dirty_bit|].
    eapply ev_bind; [apply ev_cas_ok, lookup_insert_eq|]. rewrite insert_insert_eq. apply ev_ret. }
  destruct Hsv as [->|[->|Hp]].
  - rewrite (upd_target_value c x (mwcas_ptr d 0) (final s x)); [|done..|].
    + eapply ev_bind; [apply (ev_cas_fail _ _ _ _ _ _ _ (mwcas_ptr d 0)); [done|]|].
      { intros E. exact (mwcas_ptr_dirty_ne d d_plain (eq_sym E)). }
      rewrite Z.eqb_refl. eapply ev_bind; [|exact Htail].
      eapply ev_bind; [by apply ev_cas_ok|apply ev_ret].
    + unfold finished. by rewrite bool_decide_true by (by left).
  - rewrite (upd_target_value c x (mwcas_ptr d kDirtyFlag) (final s x)); [|done..|].
    + eapply ev_bind; [by apply ev_cas_ok|].
      rewrite (proj2 (Z.eqb_neq (mwcas_ptr d 0) (mwcas_ptr d kDirtyFlag)))
        by (intros E; exact (mwcas_ptr_dirty_ne d d_plain (eq_sym E))).
      eapply ev_bind; [apply ev_ret|exact Htail].
    + unfold finished. by rewrite bool_decide_true by (by right).
  - rewrite (upd_target_value c x v v); [|done..|].
    + rewrite insert_id by done. eapply ev_bind; [apply (ev_cas_fail _ _ _ _ _ _ _ v); [done|]|].
      { intros E. by apply (mwcas_ptr_not_plain d d_plain kDirtyFlag v). }
      rewrite (proj2 (Z.eqb_neq (mwcas_ptr d 0) v)) by (exact (mwcas_ptr_not_plain d d_plain 0 v Hp)).
      eapply ev_bind; [apply ev_ret|]. eapply ev_bind; [apply ev_persist|].
      eapply ev_bind; [apply ev_check, dirty_bit|].
      eapply ev_bind; [apply (ev_cas_fail _ _ _ _ _ _ _ v); [done|]|apply ev_ret].
      intros E. symmetry in E. by apply (dirty_not_plain (final s x) v Hp).
    + unfold finished. rewrite bool_decide_false; [done|].
      intros [E|E]; symmetry in E; by apply (mwcas_ptr_not_plain d d_plain _ v) in E.
Qed.

(** ** The phases together *)

(** What the operation makes of the cells: all words replaced, or none. *)
Record outcome_cells (success : bool) (c c' : gmap Z Z) : Prop := {
  oc_target x : x ∈ ws -> wa x <> 0 -> c' !! wa x = if success then Some (wn x) else c !! wa x;
  oc_status : c' !! status_ d = Some (if success then kStatusSucceeded else kStatusFailed);
  oc_other a : a <> status_ d -> (forall x, x ∈ ws -> wa x <> 0 -> wa x <> a) -> c' !! a = c !! a;
  oc_frame : frame c'
}.

Lemma status_not_target x : x ∈ ws -> wa x <> 0 -> wa x <> status_ d.
Proof. intros Hx H0 E. destruct (lay_target Hlay x Hx H0) as [Hn _]. layout. Qed.

Lemma upd_all_status h xs c : xs ⊆ ws -> upd_all h xs c !! status_ d = c !! status_ d.
Proof. intros Hs. apply upd_all_other. intros x Hx H0. apply status_not_target; [by apply Hs|done]. Qed.

Lemma upd_all_outside h xs c a :
  xs ⊆ ws -> (forall x, x ∈ ws -> wa x <> 0 -> wa x <> a) -> upd_all h xs c !! a = c !! a.
Proof. intros Hs Ha. apply upd_all_other. intros x Hx. apply Ha. by apply Hs. Qed.

Definition finish_cells (success : bool) (c : gmap Z Z) : gmap Z Z :=
  upd_all (finished success) ws
    (<[status_ d := if success then kStatusSucceeded else kStatusFailed]> c).

(** The target values before the final phase, and what it makes of them. *)
Lemma finish_outcome success c c1 :
  frame c -> frame c1 ->
  (forall a, a <> status_ d -> (forall x, x ∈ ws -> wa x <> 0 -> wa x <> a) -> c1 !! a = c !! a) ->
  (forall x, x ∈ ws -> wa x <> 0 -> exists v, c1 !! wa x = Some v /\
     Some (finished success x v) = if success then Some (wn x) else c !! wa x) ->
  outcome_cells success c (finish_cells success c1).
Proof.
  intros Hf Hf1 Hout Hv. set (st := if success then kStatusSucceeded else kStatusFailed).
  assert (frame (<[status_ d := st]> c1)) as Hf2 by (apply frame_insert; [done|by right]).
  split.
  - intros x Hx H0. destruct (Hv x Hx H0) as (v & Hcv & Hfin). unfold finish_cells.
    rewrite upd_all_target by (done || apply (lay_nodup Hlay)).
    rewrite lookup_insert_ne by (symmetry; by apply status_not_target). by rewrite Hcv.
  - unfold finish_cells. rewrite upd_all_status by done. apply lookup_insert_eq.
  - intros a Ha Hn. unfold finish_cells. rewrite upd_all_outside by done.
    rewrite lookup_insert_ne by done. by apply Hout.
  - by apply frame_upd_all.
Qed.

Lemma not_matching_after ys zs x :
  ws = ys ++ zs -> x ∈ zs -> wa x <> 0 -> forall y, y ∈ ys -> wa y <> 0 -> wa y <> wa x.
Proof.
  intros E Hx H0 y Hy Hy0. apply list_elem_of_split in Hx as (a & b & ->).
  pose proof (lay_nodup Hlay) as Hnd. rewrite E, app_assoc in Hnd.
  apply (nodup_before (ys ++ a) x b); [exact Hnd|done| |done]. apply elem_of_app. by left.
Qed.

Lemma failed_targets f ys zs c x :
  f = 0 \/ f = kDirtyFlag ->
  frame c -> (forall x, x ∈ ws -> ready c x) -> ws = ys ++ zs -> Forall (matches c) ys ->
  x ∈ ws -> wa x <> 0 ->
  exists v, upd_all (fun _ _ => mwcas_ptr d f) ys c !! wa x = Some v /\
    (v = mwcas_ptr d f \/ plain v) /\ Some (finished false x v) = c !! wa x.
Proof.
  intros Hfl Hf Hr E HF Hx H0. destruct (Hr x Hx) as [_ Hv]. destruct (Hv H0) as (v & Hcv & Hp & _).
  pose proof Hx as Hx'. rewrite E in Hx'. apply elem_of_app in Hx' as [Hy|Hz].
  - exists (mwcas_ptr d f). rewrite upd_all_target; [|by apply (targets_nodup_app ys zs); rewrite <- E; apply (lay_nodup Hlay)|done..].
    rewrite Hcv. split; [done|]. split; [by left|]. unfold finished.
    rewrite bool_decide_true by (destruct Hfl as [-> | ->]; auto).
    rewrite Forall_forall in HF. destruct (HF x Hy) as [|Hm]; [done|]. by rewrite <- Hcv, Hm.
  - exists v. rewrite upd_all_other by (by apply (not_matching_after ys zs)). split; [done|].
    split; [by right|]. unfold finished. rewrite bool_decide_false; [done|].
    intros [Ev|Ev]; symmetry in Ev; by apply (mwcas_ptr_not_plain d d_plain _ v) in Ev.
Qed.

Definition all_match (c : gmap Z Z) : bool := bool_decide (Forall (matches c) ws).

Lemma all_ws : forall ys : list wrec, ws = ys ++ [] -> ys = ws.
Proof. intros ys E. by rewrite app_nil_r in E. Qed.

Lemma ev_Persistent_body help c :
  frame c -> (forall x, x ∈ ws -> ready c x) -> c !! status_ d = Some kStatusUndecided ->
  exists c', outcome_cells (all_match c) c c' /\
  forall A (k : bool -> prog World A) y w', (ev (k (all_match c)) (St l e c' mm) y w' ->
   ev (let! my_status := for_words d (Persistent_install me fuel help true d) kStatusSucceeded in
       Persistent_decide true d my_status ;;;
       Persistent_switch d my_status ;;;
       let! s := ld (status_ d) in
       for_words d (fun i (_ : unit) => Persistent_finish d i (s =? kStatusSucceeded)) tt ;;;
       k (s =? kStatusSucceeded)) (St l e c mm) y w').
Proof.
  intros Hf Hr Hs. destruct (ev_phase1 _ _ c (Persistent_install_spec help) Hf Hr)
    as (ys & zs & status & E & HF & Hcase & Hev).
  set (c1 := upd_all (fun _ _ => mwcas_ptr d kDirtyFlag) ys c) in *.
  assert (ys ⊆ ws) as Hsub by (rewrite E; set_solver).
  assert (frame c1) as Hf1 by (by apply frame_upd_all).
  assert (c1 !! status_ d = Some kStatusUndecided) as Hs1 by (by unfold c1; rewrite upd_all_status).
  (* the state when the status is switched *)
  assert (exists c2, ev (Persistent_decide true d status) (St l e c1 mm) tt (St l e c2 mm) /\ frame c2 /\
    c2 !! status_ d = Some kStatusUndecided /\ status = (if all_match c then kStatusSucceeded else kStatusFailed) /\
    (forall x, x ∈ ws -> settled c2 x) /\ outcome_cells (all_match c) c (finish_cells (all_match c) c2))
    as (c2 & Hdec & Hf2 & Hs2 & Est & Hset & Hoc).
  { unfold Persistent_decide, all_match. destruct Hcase as [[-> ->]|[Hn ->]].
    - apply all_ws in E as ->. rewrite bool_decide_true by done.
      exists (upd_all (fun _ _ => mwcas_ptr d 0) ws c1).
      assert (forall x, x ∈ ws -> wa x <> 0 -> c1 !! wa x = Some (mwcas_ptr d kDirtyFlag)) as Hc1.
      { intros x Hx H0. unfold c1. rewrite upd_all_target by (done || apply (lay_nodup Hlay)).
        destruct (Hr x Hx) as [_ Hv]. by destruct (Hv H0) as (v & -> & _). }
      assert (forall x, x ∈ ws -> wa x <> 0 ->
        upd_all (fun _ _ => mwcas_ptr d 0) ws c1 !! wa x = Some (mwcas_ptr d 0)) as Hc2.
      { intros x Hx H0. rewrite upd_all_target by (done || apply (lay_nodup Hlay)). by rewrite Hc1. }
      split_and!; [|by apply frame_upd_all|by rewrite upd_all_status|done| |].
      + apply ev_for_words with (ok := fun x c => wa x <> 0 -> c !! wa x = Some (mwcas_ptr d kDirtyFlag));
          [intros; by apply ev_persist_target|done|].
        intros x xs xs' Ex H0. rewrite (proj2 (upd_before _ xs x xs' c1 Ex Hf1)) by done.
        apply Hc1; [rewrite Ex; set_solver|done].
      + intros x Hx H0. rewrite Hc2 by done. eauto.
      + apply finish_outcome; [done|by apply frame_upd_all| |].
        * intros a Ha Hn. unfold c1. by rewrite !upd_all_outside.
        * intros x Hx H0. exists (mwcas_ptr d 0). split; [by apply Hc2|].
          unfold finished. by rewrite bool_decide_true by (by left).
    - rewrite bool_decide_false by done. exists c1.
      change (kStatusFailed =? kStatusSucceeded) with false. cbv iota.
      split_and!; [apply ev_ret|done|done|done| |].
      + intros x Hx H0. destruct (failed_targets kDirtyFlag ys zs c x) as (v & Hv & Hcases & _); auto.
        exists v. split; [done|]. destruct Hcases; auto.
      + apply finish_outcome; [done|done| |].
        * intros a Ha Hn'. unfold c1. by rewrite !upd_all_outside.
        * intros x Hx H0. destruct (failed_targets kDirtyFlag ys zs c x) as (v & Hv & _ & Hfin); eauto. }
  exists (finish_cells (all_match c) c2). split; [done|]. intros A k y w' Hk.
  eapply ev_bind; [exact Hev|]. eapply ev_bind; [exact Hdec|].
  eapply ev_bind; [apply ev_switch; [rewrite Est; destruct (all_match c); auto|done]|].
  eapply ev_bind; [apply ev_ld, lookup_insert_eq|].
  replace (status =? kStatusSucceeded) with (all_match c) by (by rewrite Est; destruct (all_match c)).
  eapply ev_bind; [|exact Hk]. rewrite Est.
  apply ev_for_words with (ok := fun x c => settled c x); [intros; by apply ev_Persistent_finish|
    apply frame_insert; [done|by right]|].
  intros x xs xs' Ex H0.
  rewrite (proj2 (upd_before _ xs x xs' _ Ex (frame_insert c2 _ _ Hf2 (or_intror eq_refl)))) by done.
  assert (x ∈ ws) as Hx by (rewrite Ex; set_solver).
  rewrite lookup_insert_ne by (symmetry; by apply status_not_target). by apply Hset.
Qed.

Lemma ev_Volatile_body help c :
  frame c -> (forall x, x ∈ ws -> ready c x) -> c !! status_ d = Some kStatusUndecided ->
  exists c', outcome_cells (all_match c) c c' /\
  forall A (k : bool -> prog World A) y w', (ev (k (all_match c)) (St l e c' mm) y w' ->
   ev (let! my_status := for_words d (Volatile_install me fuel help d) kStatusSucceeded in
       cas (status_ d) my_status kStatusUndecided ;;;
       let! s := ld (status_ d) in
       for_words d (fun i (_ : unit) => Volatile_finish d i (s =? kStatusSucceeded)) tt ;;;
       k (s =? kStatusSucceeded)) (St l e c mm) y w').
Proof.
  intros Hf Hr Hs. destruct (ev_phase1 _ _ c (Volatile_install_spec help) Hf Hr)
    as (ys & zs & status & E & HF & Hcase & Hev).
  set (c1 := upd_all (fun _ _ => mwcas_ptr d 0) ys c) in *.
  assert (ys ⊆ ws) as Hsub by (rewrite E; set_solver).
  assert (frame c1) as Hf1 by (by apply frame_upd_all).
  assert (c1 !! status_ d = Some kStatusUndecided) as Hs1 by (by unfold c1; rewrite upd_all_status).
  assert (status = (if all_match c then kStatusSucceeded else kStatusFailed) /\
    (forall x, x ∈ ws -> wa x <> 0 -> exists v, c1 !! wa x = Some v /\ (v = mwcas_ptr d 0 \/ plain v)) /\
    outcome_cells (all_match c) c (finish_cells (all_match c) c1)) as (Est & Hset & Hoc).
  { unfold all_match. destruct Hcase as [[-> ->]|[Hn ->]].
    - apply all_ws in E as ->. rewrite bool_decide_true by done.
      assert (forall x, x ∈ ws -> wa x <> 0 -> c1 !! wa x = Some (mwcas_ptr d 0)) as Hc1.
      { intros x Hx H0. unfold c1. rewrite upd_all_target by (done || apply (lay_nodup Hlay)).
        destruct (Hr x Hx) as [_ Hv]. by destruct (Hv H0) as (v & -> & _). }
      split_and!; [done|intros; eauto|]. apply finish_outcome; [done|done| |].
      + intros a Ha Hn. unfold c1. by rewrite upd_all_outside.
      + intros x Hx H0. exists (mwcas_ptr d 0). split; [by apply Hc1|].
        unfold finished. by rewrite bool_decide_true by (by left).
    - rewrite bool_decide_false by done. split_and!; [done| |].
      + intros x Hx H0. destruct (failed_targets 0 ys zs c x) as (v & Hv & Hcases & _); eauto.
      + apply finish_outcome; [done|done| |].
        * intros a Ha Hn'. unfold c1. by rewrite !upd_all_outside.
        * intros x Hx H0. destruct (failed_targets 0 ys zs c x) as (v & Hv & _ & Hfin); eauto. }
  exists (finish_cells (all_match c) c1). split; [done|]. intros A k y w' Hk.
  eapply ev_bind; [exact Hev|]. eapply ev_bind; [by apply ev_cas_ok|].
  eapply ev_bind; [apply ev_ld, lookup_insert_eq|].
  replace (status =? kStatusSucceeded) with (all_match c) by (by rewrite Est; destruct (all_match c)).
  eapply ev_bind; [|exact Hk]. rewrite Est.
  apply ev_for_words with (ok := fun x c => wa x <> 0 -> exists v, c !! wa x = Some v /\ (v = mwcas_ptr d 0 \/ plain v));
    [intros; by apply ev_Volatile_finish|apply frame_insert; [done|by right]|].
  intros x xs xs' Ex H0.
  rewrite (proj2 (upd_before _ xs x xs' _ Ex (frame_insert c1 _ _ Hf1 (or_intror eq_refl)))) by done.
  assert (x ∈ ws) as Hx by (rewrite Ex; set_solver).
  rewrite lookup_insert_ne by (symmetry; by apply status_not_target). by apply Hset.
Qed.
End descriptor.

(** ** Sorting the words *)

Section sorting.
Context (d : Z) (d_pos : 0 < d).

Definition fields (x : wrec) : list Z := [wa x; wo x; wn x; status_ d; wp x].

Lemma read_word_at c i x : word_at d c i x -> read_word d c i = Some (fields x).
Proof. intros (H1 & H2 & H3 & H4 & H5). unfold read_word, mapM. by rewrite H1, H2, H3, H4, H5. Qed.

Ltac offsets := unfold words_, address_, old_value_, new_value_, status_address_, recycle_policy_,
  sizeof_WordDescriptor in *; lia.

Lemma write_word_spec c i x :
  word_at d (write_word d c i (fields x)) i x /\
  forall a, ~ (words_ d (Z.of_nat i) <= a < words_ d (Z.of_nat i) + 40) -> write_word d c i (fields x) !! a = c !! a.
Proof.
  unfold write_word, fields. cbn [zip zip_with foldl fst snd]. split.
  - unfold word_at. cbv zeta. split_and!;
      repeat (rewrite lookup_insert_eq || rewrite lookup_insert_ne by offsets); done.
  - intros a Ha. rewrite !lookup_insert_ne by offsets. done.
Qed.

Lemma word_at_ext c c' i x :
  (forall a, words_ d (Z.of_nat i) <= a < words_ d (Z.of_nat i) + 40 -> c' !! a = c !! a) ->
  word_at d c i x -> word_at d c' i x.
Proof. intros Ha (H1 & H2 & H3 & H4 & H5). unfold word_at. by rewrite !Ha by offsets. Qed.

Lemma write_words_spec xs : forall k c,
  let c' := foldl (fun c iw => write_word d c iw.1 iw.2) c (zip (seq k (length xs)) (fields <$> xs)) in
  (forall i x, xs !! i = Some x -> word_at d c' (k + i) x) /\
  (forall a, ~ (words_ d (Z.of_nat k) <= a < words_ d (Z.of_nat (k + length xs))) -> c' !! a = c !! a).
Proof.
  induction xs as [|x xs IH]; intros k c; [by split|]. cbn [length seq fmap list_fmap zip zip_with foldl fst snd].
  destruct (IH (S k) (write_word d c k (fields x))) as [H1 H2].
  destruct (write_word_spec c k x) as [Hx Hout]. split.
  - intros [|i] y Hi; simpl in Hi.
    + injection Hi as <-. rewrite Nat.add_0_r. eapply word_at_ext; [|exact Hx].
      intros a Ha. apply H2. offsets.
    + rewrite Nat.add_succ_r. by apply (H1 i y).
  - intros a Ha. rewrite H2 by offsets. apply Hout. offsets.
Qed.

Lemma sort_words_spec c ws :
  (forall i x, ws !! i = Some x -> word_at d c i x) ->
  exists c' ws', sort_words d (length ws) c = Some c' /\ ws' ≡ₚ ws /\
    (forall i x, ws' !! i = Some x -> word_at d c' i x) /\
    (forall a, ~ (words_ d 0 <= a < words_ d (Z.of_nat (length ws))) -> c' !! a = c !! a).
Proof.
  intros Hw. assert (mapM (read_word d c) (seq 0 (length ws)) = Some (fields <$> ws)) as Hr.
  { apply mapM_Some_2, Forall2_same_length_lookup_2; [by rewrite length_fmap, length_seq|].
    intros i n y Hn Hy. apply lookup_seq in Hn as [-> _]. rewrite list_lookup_fmap in Hy.
    destruct (ws !! i) as [x|] eqn:Ex; simpl in Hy; [|done]. injection Hy as <-.
    by apply read_word_at, Hw. }
  destruct (Permutation_map_inv fields ws (l1 := merge_sort word_le (fields <$> ws))) as (ws' & E & Hp).
  { apply merge_sort_Permutation. }
  exists (foldl (fun c iw => write_word d c iw.1 iw.2) c (zip (seq 0 (length ws')) (fields <$> ws'))), ws'.
  destruct (write_words_spec ws' 0 c) as [H1 H2]. split_and!.
  - unfold sort_words. rewrite Hr. simpl. rewrite E, (Permutation_length Hp). done.
  - by symmetry.
  - exact H1.
  - rewrite (Permutation_length Hp). exact H2.
Qed.
End sorting.

(** ** The whole operation *)

(** Thread [me] is protected, by the manager whose table its TLS pointer is in; the next
    slot of garbage list [g], of manager [m], is free; the thread is registered with the
    metrics. *)
Record able (me m g : Z) (k sz i : nat) (G : GarbageList) (en : Entry)
    (l : gmap Z GarbageList) (e : EpochWorld) (mm : MetricsWorld) : Prop := {
  able_list : l !! g = Some G;
  able_ring : ring_wf m k sz G e;
  able_free : exists it, items_ G !! slot_at k 0 (tail_ G) = Some it /\ removal_epoch it = 0;
  able_holds : exists o so, holds me o so i en e;
  able_prot : protected_epoch en <> 0;
  able_metrics : metrics_ok me mm
}.

Section whole.
Context {HP : Platform} {HL : PlatformLaws} (me : Z) (fuel : nat) (fuel_pos : (0 < fuel)%nat).
Context (m g : Z) (k sz i : nat) (G : GarbageList) (en : Entry).
Context (l : gmap Z GarbageList) (e : EpochWorld) (mm : MetricsWorld).
Context (Hable : able me m g k sz i G en l e mm) (d part : Z).

Definition retired : GarbageList :=
  set_items (<[slot_at k 0 (tail_ G) := MkItem (cur m e) FreeDescriptor_ptr 0 d]> (items_ G))
    (set_tail (signed 64 (tail_ G + 1)) G).

Definition owned (c : gmap Z Z) : Prop :=
  c !! owner_partition_ d = Some part /\ c !! garbage_list part = Some g.

Lemma ev_partition_garbage l' e' c mm' :
  owned c -> ev (partition_garbage d) (St l' e' c mm') g (St l' e' c mm').
Proof.
  intros [Ho Hg]. unfold partition_garbage. eapply ev_bind; [by apply ev_ld|]. by apply ev_ld.
Qed.

Lemma ev_gl_epoch l' G' e' c mm' :
  l' !! g = Some G' -> gl_epoch_manager_ G' = Some m -> ev (gl_epoch g) (St l' e' c mm') m (St l' e' c mm').
Proof.
  intros Hl Hm. unfold gl_epoch. eapply ev_bind; [by apply (ev_gl_read _ _ _ _ g G')|].
  rewrite Hm. apply ev_ret.
Qed.

Lemma ev_dcheck l' G' e' c mm' :
  owned c -> l' !! g = Some G' -> gl_epoch_manager_ G' = Some m -> table_wf m sz e' ->
  (exists o so, holds me o so i en e') ->
  ev (dcheck_protected me fuel d) (St l' e' c mm') tt (St l' e' c mm').
Proof.
  intros Ho Hl Hm Ht (o & so & Hh). unfold dcheck_protected. eapply ev_bind; [by apply ev_partition_garbage|].
  eapply ev_bind; [by apply (ev_gl_epoch l' G')|].
  eapply ev_bind; [by apply ev_zoom_epochs, (run_IsProtected_via me fuel o so i m sz en)|].
  apply ev_check. by rewrite (proj2 (Z.eqb_neq _ _) (able_prot _ _ _ _ _ _ _ _ _ _ _ Hable)).
Qed.

Lemma ev_dcheck_start c : owned c -> ev (dcheck_protected me fuel d) (St l e c mm) tt (St l e c mm).
Proof.
  intros Ho. destruct Hable as [Hl Hr _ Hh _ _]. apply (ev_dcheck l G); [done|done|apply Hr|apply Hr|done].
Qed.

(** A roll-over keeps the thread's entry, whichever table it is in. *)
Lemma holds_rolled o so e' : rolled m sz e e' -> holds me o so i en e -> holds me o so i en e'.
Proof.
  intros [(Ht & He & Hw & Hm) _] (H1 & H2 & H3 & H4). destruct (decide (o = m)) as [->|Ho].
  - destruct H1 as [H1a H1b], Hw as [Hw1 Hw2]. assert (so = sz) as -> by (rewrite <- H1b, <- He; done).
    split; [done|]. rewrite He, Ht. done.
  - split; [|unfold entries; rewrite Ht, Hm by done; done]. unfold table_wf, entries in *. by rewrite Hm.
Qed.

Lemma ev_retire c mm' :
  exists e', rolled m sz e e' /\
    ev (GarbageListUnsafe_Push destroy fuel g d FreeDescriptor_ptr 0) (St l e c mm') Status_OK
       (St (<[g := retired]> l) e' c mm').
Proof.
  destruct Hable as [Hl Hr (it & Hit & H0) _ _ _].
  pose (callf := fun (_ _ _ : Z) (s : Mem) => s).
  destruct (push_next_free destroy callf l g m k sz 0 (cur m e) (MkItem (cur m e) FreeDescriptor_ptr 0 d)
    (fun _ => GarbageListUnsafe_try destroy g m (cur m e) d FreeDescriptor_ptr 0) fuel G e it)
    as (e' & He' & R); [apply unsafe_round|done..|].
  exists e'. split; [done|].
  intros [l0 e0 [c0 pc0 m0]] E. unfold volatile, St in E. simpl in E. simplify_eq.
  assert (MkGW l e (MkMem c pc0 mm') = W l g G e (MkMem c pc0 mm')) as -> by (unfold W; by rewrite insert_id).
  eexists. split; [unfold GarbageListUnsafe_Push; by rewrite (run_push_prefix l g m k sz), R by done|done].
Qed.

Lemma ev_Cleanup c (success : bool) :
  owned c -> c !! status_ d = Some (if success then kStatusSucceeded else kStatusFailed) ->
  exists e', rolled m sz e e' /\
    ev (Cleanup me fuel d) (St l e c mm) success
       (St (<[g := retired]> l) e' c (bump me (if success then SucceededUpdate else FailedUpdate) mm)).
Proof.
  intros Ho Hs. set (k' := if success then SucceededUpdate else FailedUpdate).
  destruct (ev_retire c (bump me k' mm)) as (e' & He' & Hp). exists e'. split; [done|].
  assert (((if success then kStatusSucceeded else kStatusFailed) =? kStatusSucceeded) = success) as Es
    by (by destruct success).
  unfold Cleanup. eapply ev_bind; [by apply ev_ld|].
  eapply ev_bind; [apply ev_check; by destruct success|].
  eapply ev_bind; [by apply ev_ld|].
  eapply ev_bind; [apply ev_check; by destruct success|].
  eapply ev_bind; [by apply ev_ld|]. cbv zeta. rewrite Es.
  eapply ev_bind; [apply ev_metric, (able_metrics _ _ _ _ _ _ _ _ _ _ _ Hable)|].
  eapply ev_bind; [by apply ev_partition_garbage|].
  eapply ev_bind; [exact Hp|]. eapply ev_bind; [by apply ev_check|].
  eapply ev_bind; [|apply ev_ret]. apply (ev_dcheck _ retired); [done|apply lookup_insert_eq| | |].
  - apply (able_ring _ _ _ _ _ _ _ _ _ _ _ Hable).
  - apply He'.
  - destruct (able_holds _ _ _ _ _ _ _ _ _ _ _ Hable) as (o & so & Hh). exists o, so. by apply holds_rolled.
Qed.

Lemma layout_ok_perm ws ws' : ws' ≡ₚ ws -> layout_ok d part ws -> layout_ok d part ws'.
Proof.
  intros Hp [H1 H2 H3 H4 H5 H6]. split; try done.
  - by rewrite (Permutation_length Hp).
  - intros x Hx. apply H4. by rewrite <- Hp.
  - intros x Hx. apply H5. by rewrite <- Hp.
  - by rewrite Hp.
Qed.

Lemma all_match_perm ws ws' c c' :
  ws' ≡ₚ ws -> (forall x, x ∈ ws -> wa x <> 0 -> c' !! wa x = c !! wa x) ->
  all_match ws' c' = all_match ws c.
Proof.
  intros Hp Hc. unfold all_match. apply bool_decide_ext. rewrite Hp, !Forall_forall.
  unfold matches. split; intros H x Hx; (destruct (H x Hx) as [|E]; [by left|]);
    (destruct (decide (wa x = 0)); [by left|]); right; rewrite <- E; [symmetry|]; by apply Hc.
Qed.

(** The words of the descriptor are sorted; nothing else changes. *)
Lemma ev_sort ws c :
  layout_ok d part ws -> frame d part g ws c ->
  exists ws' c', ws' ≡ₚ ws /\ frame d part g ws' c' /\
    (forall a, ~ (d + 40 <= a < d + 256) -> c' !! a = c !! a) /\
    ev (sort_by_address d) (St l e c mm) tt (St l e c' mm).
Proof.
  intros Hlay (Hw & Hc & Ho & Hg). destruct (lay_d _ _ _ Hlay) as [Hd _].
  destruct (sort_words_spec d c ws Hw) as (c' & ws' & Hs & Hp & Hw' & Hout).
  assert (forall a, ~ (d + 40 <= a < d + 256) -> c' !! a = c !! a) as Hout'.
  { intros a Ha. apply Hout. pose proof (lay_n _ _ _ Hlay).
    unfold words_, sizeof_WordDescriptor. lia. }
  exists ws', c'. split; [done|]. split; [|split; [done|]].
  - split; [done|]. rewrite (Permutation_length Hp). pose proof (lay_part _ _ _ Hlay).
    rewrite !Hout'; [done| | |]; unfold count_, owner_partition_; lia.
  - unfold sort_by_address. eapply ev_bind; [by apply ev_ld|].
    eapply (ev_bind _ _ _ true); [|by apply ev_check].
    apply ev_zoom. intros pc. exists pc. simpl. by rewrite Nat2Z.id, Hs.
Qed.

(** What [MwCAS] leaves in the cells. *)
Record mwcas_cells (ws : list wrec) (success : bool) (c c' : gmap Z Z) : Prop := {
  mc_target x : x ∈ ws -> wa x <> 0 -> c' !! wa x = if success then Some (wn x) else c !! wa x;
  mc_status : c' !! status_ d = Some (if success then kStatusSucceeded else kStatusFailed);
  mc_other a : ~ (d <= a < d + 256) -> (forall x, x ∈ ws -> wa x <> 0 -> wa x <> a) -> c' !! a = c !! a
}.

Lemma outcome_mwcas ws ws' success c c1 c' :
  ws' ≡ₚ ws -> layout_ok d part ws -> (forall a, ~ (d <= a < d + 256) -> c1 !! a = c !! a) ->
  outcome_cells d part g ws' success c1 c' -> mwcas_cells ws success c c'.
Proof.
  intros Hp Hlay Hout [Ht Hs Ho _]. split; [|done|].
  - intros x Hx H0. rewrite Ht by (done || by rewrite Hp). destruct success; [done|].
    apply Hout, (lay_target _ _ _ Hlay x Hx H0).
  - intros a Ha Hn. rewrite Ho; [by apply Hout| |].
    + intros ->. unfold status_ in Ha. lia.
    + intros x Hx. apply Hn. by rewrite <- Hp.
Qed.

Lemma frame_owned ws c : frame d part g ws c -> owned c.
Proof. intros (_ & _ & ? & ?). by split. Qed.

Lemma ready_change ws (c c' : gmap Z Z) :
  layout_ok d part ws -> (forall a, ~ (d <= a < d + 256) -> c' !! a = c !! a) ->
  c' !! status_ d = Some kStatusUndecided ->
  (forall x, x ∈ ws -> wa x <> 0 -> exists v, c !! wa x = Some v /\ plain v /\ v <> d) ->
  forall x, x ∈ ws -> ready d c' x.
Proof.
  intros Hlay Hout Hs Hr x Hx. split; [done|]. intros H0. rewrite Hout by apply (lay_target _ _ _ Hlay x Hx H0).
  by apply Hr.
Qed.


Lemma Cleanup_after ws b c c' :
  outcome_cells d part g ws b c c' -> exists e', rolled m sz e e' /\
    ev (Cleanup me fuel d) (St l e c' mm) b
       (St (<[g := retired]> l) e' c' (bump me (if b then SucceededUpdate else FailedUpdate) mm)).
Proof. intros Hoc. apply ev_Cleanup; [by eapply frame_owned, oc_frame|by eapply oc_status]. Qed.

Lemma ev_VolatileMwCAS depth ws c :
  layout_ok d part ws -> frame d part g ws c -> c !! status_ d = Some kStatusUndecided ->
  (forall x, x ∈ ws -> ready d c x) ->
  exists c' e', rolled m sz e e' /\ outcome_cells d part g ws (all_match ws c) c c' /\
    ev (VolatileMwCAS me fuel (S depth) d 0) (St l e c mm) (all_match ws c)
       (St (<[g := retired]> l) e' c' (bump me (if all_match ws c then SucceededUpdate else FailedUpdate) mm)).
Proof.
  intros Hlay Hf Hs Hr. pose (help other := VolatileMwCAS me fuel depth other (0 + 1) ;;; Ret tt).
  destruct (ev_Volatile_body me fuel fuel_pos l e mm d part g ws Hlay help c Hf Hr Hs) as (c' & Hoc & Hbody).
  destruct (Cleanup_after ws _ c c' Hoc) as (e' & He' & Hev). exists c', e'. split; [done|]. split; [done|].
  cbn [VolatileMwCAS]. eapply ev_bind; [by eapply ev_dcheck_start, frame_owned|].
  eapply ev_bind; [by apply ev_ld|]. by apply (Hbody _ (fun _ => Cleanup me fuel d)).
Qed.

Lemma ev_PersistentMwCAS depth ws c :
  layout_ok d part ws -> frame d part g ws c -> c !! status_ d = Some kStatusUndecided ->
  (forall x, x ∈ ws -> ready d c x) ->
  exists ws' c1 c' e', ws' ≡ₚ ws /\ (forall a, ~ (d <= a < d + 256) -> c1 !! a = c !! a) /\
    rolled m sz e e' /\ outcome_cells d part g ws' (all_match ws c) c1 c' /\
    ev (PersistentMwCAS me fuel (S depth) d 0) (St l e c mm) (all_match ws c)
       (St (<[g := retired]> l) e' c' (bump me (if all_match ws c then SucceededUpdate else FailedUpdate) mm)).
Proof.
  intros Hlay Hf Hs Hr. pose (help other := PersistentMwCAS me fuel depth other (0 + 1) ;;; Ret tt).
  destruct (ev_sort ws c Hlay Hf) as (ws' & c1 & Hp & Hf1 & Hout1 & Hsort).
  assert (forall a, ~ (d <= a < d + 256) -> c1 !! a = c !! a) as Hout by (intros a Ha; apply Hout1; lia).
  assert (c1 !! status_ d = Some kStatusUndecided) as Hs1 by (rewrite Hout1; [done|unfold status_; lia]).
  assert (forall x, x ∈ ws -> ready d c1 x) as Hr1.
  { apply (ready_change ws c); [done..|]. intros x Hx. apply Hr, Hx. }
  assert (all_match ws' c1 = all_match ws c) as Hm.
  { apply all_match_perm; [done|]. intros x Hx H0. apply Hout, (lay_target _ _ _ Hlay x Hx H0). }
  destruct (ev_Persistent_body me fuel fuel_pos l e mm d part g ws' (layout_ok_perm ws ws' Hp Hlay) help c1 Hf1)
    as (c' & Hoc & Hbody); [intros x Hx; apply Hr1; by rewrite <- Hp|done|]. rewrite Hm in *.
  destruct (Cleanup_after ws' _ c1 c' Hoc) as (e' & He' & Hev).
  exists ws', c1, c', e'. do 4 (split; [done|]). cbn [PersistentMwCAS].
  eapply (ev_bind _ _ _ kStatusUndecided).
  { unfold Persistent_enter. eapply ev_bind; [by eapply ev_dcheck_start, frame_owned|].
    eapply ev_bind; [eapply ev_bind; [by apply ev_ld|]; eapply ev_bind; [by apply ev_check|];
      apply (@ev_flush _ _ _ _ HP HL)|].
    eapply ev_bind; [by apply ev_ld|]. apply ev_ret. }
  eapply ev_bind; [exact Hsort|]. by apply (Hbody _ (fun _ => Cleanup me fuel d)).
Qed.

(** The operation on a fresh descriptor, in both variants. *)
Lemma ev_MwCAS pm depth ws c :
  layout_ok d part ws -> frame d part g ws c -> c !! status_ d = Some kStatusFinished ->
  (forall x, x ∈ ws -> wa x <> 0 -> exists v, c !! wa x = Some v /\ plain v /\ v <> d) ->
  exists c' e', rolled m sz e e' /\ mwcas_cells ws (all_match ws c) c c' /\
    ev (MwCAS me fuel pm (S depth) d) (St l e c mm) (all_match ws c)
       (St (<[g := retired]> l) e' c' (bump me (if all_match ws c then SucceededUpdate else FailedUpdate) mm)).
Proof.
  intros Hlay Hf Hs Hv. set (c0 := <[status_ d := kStatusUndecided]> c).
  assert (forall a, ~ (d <= a < d + 256) -> c0 !! a = c !! a) as Hout.
  { intros a Ha. apply lookup_insert_ne. unfold status_. lia. }
  assert (frame d part g ws c0) as Hf0 by (apply (frame_insert fuel fuel_pos d part g ws Hlay); [done|by right]).
  assert (c0 !! status_ d = Some kStatusUndecided) as Hs0 by apply lookup_insert_eq.
  pose proof (ready_change ws c c0 Hlay Hout Hs0 Hv) as Hr.
  assert (all_match ws c0 = all_match ws c) as Hm.
  { apply all_match_perm; [done|]. intros x Hx H0. apply Hout, (lay_target _ _ _ Hlay x Hx H0). }
  destruct pm.
  - destruct (ev_PersistentMwCAS depth ws c0 Hlay Hf0 Hs0 Hr) as (ws' & c1 & c' & e' & Hp & Ho1 & He' & Hoc & Hev).
    rewrite Hm in *. exists c', e'. split; [done|]. split.
    { apply (outcome_mwcas ws ws' _ c c1); [done..| |done]. intros a Ha. by rewrite Ho1, Hout. }
    unfold MwCAS, start_MwCAS. eapply ev_bind; [|exact Hev].
    eapply ev_bind; [by apply ev_ld|]. eapply ev_bind; [by apply ev_check|]. by apply ev_st.
  - destruct (ev_VolatileMwCAS depth ws c0 Hlay Hf0 Hs0 Hr) as (c' & e' & He' & Hoc & Hev).
    rewrite Hm in *. exists c', e'. split; [done|]. split.
    { by apply (outcome_mwcas ws ws _ c c0). }
    unfold MwCAS, start_MwCAS. eapply ev_bind; [|exact Hev].
    eapply ev_bind; [by apply ev_ld|]. eapply ev_bind; [by apply ev_check|]. by apply ev_st.
Qed.
End whole.

(** C1.  With no other thread at work, both variants of the multi-word CAS, on a prepared
    descriptor of any words, return true exactly when every target holds its expected
    value, and then replace all of them, or else leave all of them as they were; no flag
    stays behind, the status is decided, the descriptor is retired to the garbage list,
    one counter is bumped, and nothing outside the descriptor and the targets changes. *)
Theorem MwCAS_sequential `{PlatformLaws} me fuel pm depth m g k sz i G en d part ws w :
  (0 < fuel)%nat -> able me m g k sz i G en (lists w) (epochs w) (metrics (client w)) ->
  layout_ok d part ws -> frame d part g ws (cells (client w)) ->
  cells (client w) !! status_ d = Some kStatusFinished ->
  (forall x, x ∈ ws -> wa x <> 0 -> exists v, cells (client w) !! wa x = Some v /\ plain v /\ v <> d) ->
  let success := all_match ws (cells (client w)) in
  exists w', run (MwCAS me fuel pm (S depth) d) w = (Done success, w') /\
    mwcas_cells d ws success (cells (client w)) (cells (client w')) /\
    lists w' = <[g := retired m k G (epochs w) d]> (lists w) /\
    rolled m sz (epochs w) (epochs w') /\
    metrics (client w') = bump me (if success then SucceededUpdate else FailedUpdate) (metrics (client w)).
Proof.
  intros Hf Ha Hlay Hfr Hs Hv success.
  destruct (ev_MwCAS me fuel Hf m g k sz i G en _ _ _ Ha d part pm depth ws _ Hlay Hfr Hs Hv)
    as (c' & e' & He' & Hc & Hev).
  destruct (Hev w eq_refl) as (w' & R & E). exists w'. split; [exact R|].
  destruct w' as [l' e2 [c2 pc2 m2]]. unfold volatile, St in E. simpl in E. simplify_eq. done.
Qed.

(** The reference: all comparisons and all stores at once. *)
Definition atomic_mwcas (ws : list wrec) (c : gmap Z Z) : bool * gmap Z Z :=
  if all_match ws c then (true, upd_all (fun x _ => wn x) ws c) else (false, c).

(** *** A concrete operation: two words, a thread protected by manager 100 *)

#[export] Instance plain_platform : Platform := {|
  pmemobj_persist := fun _ _ s => s;
  run_allocate_callback := fun _ _ s => (0, s);
  run_free_callback := fun _ _ _ s => s
|}.
#[export] Instance plain_platform_laws : PlatformLaws.
Proof. by split. Qed.

Definition sample_words : list wrec := [MkW 8200 7 8 kRecycleNever; MkW 8192 5 6 kRecycleNever].
Definition sample_cells (d part g status : Z) (ws : list wrec) : gmap Z Z :=
  list_to_map ([(status_ d, status); (count_ d, Z.of_nat (length ws)); (owner_partition_ d, part);
    (garbage_list part, g)] ++
    concat (imap (fun n x => let w := words_ d (Z.of_nat n) in
      [(address_ w, wa x); (old_value_ w, wo x); (new_value_ w, wn x);
       (status_address_ w, status_ d); (recycle_policy_ w, wp x); (wa x, wo x)]) ws)).
Definition sample_epochs : EpochWorld :=
  (run (Protect 5 1 100) (initialized 100 (MkEpochWorld ∅ (MkThreads ∅ ∅)))).2.
Definition sample_ring : GarbageList :=
  MkGarbageList (Some 100) 1 4 [MkItem 1 7 0 11; Item_new; Item_new; Item_new].
Definition sample_world : World :=
  MkGW {[ 16 := sample_ring ]} sample_epochs
    (MkMem (sample_cells 1024 4096 16 kStatusFinished sample_words) ∅ metrics_off).

Lemma sample_able : able 5 100 16 2 128 117 sample_ring (MkEntry 1 0 5) {[ 16 := sample_ring ]} sample_epochs metrics_off.
Proof.
  split.
  - by vm_compute.
  - by apply (ring_wf_tail 100 2 128 _ _ 1 (ring_4_wf sample_epochs ltac:(by vm_compute))).
  - exists Item_new. by vm_compute.
  - exists 100, 128%nat. by vm_compute.
  - done.
  - by left.
Qed.

Lemma sample_layout : layout_ok 1024 4096 sample_words.
Proof.
  split.
  - done.
  - simpl. lia.
  - unfold garbage_list. lia.
  - intros x [->|[->|[]%elem_of_nil]%elem_of_cons]%elem_of_cons _; vm_compute; naive_solver.
  - intros x [->|[->|[]%elem_of_nil]%elem_of_cons]%elem_of_cons; unfold plain, fits; simpl; lia.
  - apply (bool_decide_unpack _). by vm_compute.
Qed.
Lemma sample_frame : frame 1024 4096 16 sample_words (cells (client sample_world)).
Proof. split; [|by vm_compute]. intros [|[|n]] x Hx; simplify_eq/=; by vm_compute. Qed.
Lemma sample_targets x : x ∈ sample_words -> wa x <> 0 ->
  exists v, cells (client sample_world) !! wa x = Some v /\ plain v /\ v <> 1024.
Proof. intros [->|[->|[]%elem_of_nil]%elem_of_cons]%elem_of_cons _; [exists 7|exists 5]; by vm_compute. Qed.

Example MwCAS_sequential_witness :
  (exists w', run (MwCAS 5 1 true 1 1024) sample_world = (Done true, w') /\
     cells (client w') !! 8192 = Some 6 /\ cells (client w') !! 8200 = Some 8) /\
  exists w', run (MwCAS 5 1 false 1 1024) sample_world = (Done true, w') /\
     cells (client w') !! 8192 = Some 6 /\ cells (client w') !! 8200 = Some 8.
Proof.
  assert (forall pm, exists w', run (MwCAS 5 1 pm 1 1024) sample_world = (Done true, w') /\
     cells (client w') !! 8192 = Some 6 /\ cells (client w') !! 8200 = Some 8) as H.
  { intros pm. destruct (MwCAS_sequential 5 1 pm 0 100 16 2 128 117 sample_ring (MkEntry 1 0 5) 1024 4096
      sample_words sample_world ltac:(lia) sample_able sample_layout sample_frame ltac:(by vm_compute) sample_targets) as (w' & R & Hc & _).
    assert (all_match sample_words (cells (client sample_world)) = true) as E by (by vm_compute).
    rewrite E in *. exists w'. split; [exact R|]. split.
    - apply (mc_target 1024 sample_words true _ _ Hc (MkW 8192 5 6 kRecycleNever)); [right; left|done].
    - apply (mc_target 1024 sample_words true _ _ Hc (MkW 8200 7 8 kRecycleNever)); [left|done]. }
  split; apply H.
Defined.
