(* ===== verification/Entries.v ===== *)
(** * Filling and recycling descriptors (src/mwcas/mwcas.cc)

    The specifications of [AddEntry] and its insert position, and of what happens to
    a descriptor and the memory it names when the garbage list frees it. *)
From Stdlib Require Import ZArith Lia.
From stdpp Require Import base list gmap strings.
From S2P Require Import Prelude Bytes Prog Status Library Epoch Garbage Metrics Memory Descriptor MwCAS.
#[local] Open Scope Z_scope.
#[local] Open Scope machine_scope.
#[local] Open Scope prog_scope.

(** A program that stops with a message. *)
Definition fails {A} (p : prog World A) (w : World) (msg : string) : Prop :=
  forall w0, volatile w0 = w -> (run p w0).1 = Faulted msg.

Lemma fails_bind {A B} (p : prog World A) (k : A -> prog World B) w x w1 msg :
  ev p w x w1 -> fails (k x) w1 msg -> fails (bind p k) w msg.
Proof. intros Hp Hk w0 H0. destruct (Hp w0 H0) as (w0' & R & H1). rewrite run_bind, R. by apply Hk. Qed.

Lemma fails_check (b : bool) msg w : b = false -> fails (check b msg) w msg.
Proof. by intros ->. Qed.

Lemma fails_first {A B} (p : prog World A) (k : A -> prog World B) w msg :
  fails p w msg -> fails (bind p k) w msg.
Proof.
  intros Hp w0 H0. rewrite run_bind. specialize (Hp w0 H0).
  destruct (run p w0) as [[a|m|] s]; simpl in *; congruence.
Qed.

(** A loop whose body only reads. *)
Lemma ev_for_pure {I} (f : nat -> I -> I) (body : nat -> I -> prog World I) xs i w :
  (forall n i, n ∈ xs -> ev (body n i) w (f n i) w) ->
  ev (for_list xs body i) w (foldl (fun i n => f n i) i xs) w.
Proof.
  revert i. induction xs as [|x xs IH]; intros i H; [apply ev_ret|]. simpl.
  eapply ev_bind; [apply H; by left|]. apply IH. intros n j Hn. apply H. by right.
Qed.

Section entries.
Context {HP : Platform} {HL : PlatformLaws} (me : Z) (fuel : nat).
Context (m g : Z) (k sz i : nat) (G : GarbageList) (en : Entry).
Context (l : gmap Z GarbageList) (e : EpochWorld) (mm : MetricsWorld).
Context (Hable : able me m g k sz i G en l e mm) (d part : Z) (ws : list wrec) (c : gmap Z Z).
Context (Hd : 0 < d) (Hpart : ~ (d <= garbage_list part < d + 256)) (Hn : (length ws <= 4)%nat).
Context (Hf : frame d part g ws c).

(** The address is already listed; null addresses may be listed many times. *)
Definition duplicate (addr : Z) : bool := negb (addr =? 0) && bool_decide (addr ∈ wa <$> ws).

Definition insert_position (addr : Z) (n : nat) (pos : Z) : Z :=
  if pos =? -2 then -2
  else if negb (addr =? 0) && bool_decide (wa <$> ws !! n = Some addr) then -2 else pos.

Lemma insert_position_fold addr xs pos :
  0 <= pos ->
  foldl (fun i n => insert_position addr n i) pos xs =
    if negb (addr =? 0) && existsb (fun n => bool_decide (wa <$> ws !! n = Some addr)) xs then -2 else pos.
Proof.
  intros Hpos. assert (forall xs, foldl (fun i n => insert_position addr n i) (-2) xs = -2) as Hfix.
  { intros ys. by induction ys. }
  induction xs as [|x xs IH]; [simpl; by rewrite andb_false_r|].
  simpl. unfold insert_position at 2. rewrite (proj2 (Z.eqb_neq pos (-2))) by lia.
  destruct (addr =? 0); simpl in *; [by rewrite IH|].
  destruct (bool_decide (wa <$> ws !! x = Some addr)); simpl; [apply Hfix|by rewrite IH].
Qed.

Lemma ev_GetInsertPosition addr :
  addr mod 8 = 0 -> (length ws < 4)%nat ->
  ev (GetInsertPosition d addr) (St l e c mm) (if duplicate addr then -2 else Z.of_nat (length ws)) (St l e c mm).
Proof.
  intros Ha Hlt. pose proof Hf as (Hw & Hc & _). unfold GetInsertPosition.
  eapply ev_bind; [apply ev_check; by rewrite Ha|].
  eapply ev_bind; [by apply ev_ld|].
  eapply ev_bind; [apply ev_check, Z.ltb_lt; unfold DESC_CAP; lia|].
  rewrite Nat2Z.id.
  replace (if duplicate addr then -2 else Z.of_nat (length ws)) with
    (foldl (fun i n => insert_position addr n i) (Z.of_nat (length ws)) (rev (seq 0 (length ws)))).
  - apply ev_for_pure. intros n pos Hin. apply list_elem_of_In, in_rev, in_seq in Hin.
    unfold insert_position. destruct (pos =? -2); [apply ev_ret|].
    destruct (lookup_lt_is_Some_2 ws n) as [x Hx]; [lia|]. destruct (Hw n x Hx) as (Hwa & _).
    eapply ev_bind; [by apply ev_ld|]. rewrite Hx. simpl.
    replace (wa x =? addr) with (bool_decide (Some (wa x) = Some addr)); [apply ev_ret|].
    destruct (Z.eqb_spec (wa x) addr) as [->|Hne]; [by apply bool_decide_true|apply bool_decide_false].
    by intros [=].
  - rewrite insert_position_fold by lia. unfold duplicate. destruct (addr =? 0); simpl; [done|].
    apply (f_equal (fun b : bool => if b then -2 else Z.of_nat (length ws))), eq_bool_prop_intro.
    rewrite bool_decide_spec. unfold Is_true. split.
    + destruct (existsb _ _) eqn:E; [|done]. intros _. apply existsb_exists in E as (n & _ & E).
      apply bool_decide_eq_true, fmap_Some in E as (x & Hx & ->).
      apply list_elem_of_fmap_2. by eapply list_elem_of_lookup_2.
    + intros (x & -> & [n Hx]%list_elem_of_lookup_1)%list_elem_of_fmap.
      replace (existsb _ _) with true; [done|]. symmetry. apply existsb_exists. exists n. split.
      * apply in_rev. rewrite rev_involutive. apply in_seq. apply lookup_lt_Some in Hx. lia.
      * apply bool_decide_eq_true. by rewrite Hx.
Qed.

Lemma fails_GetInsertPosition addr :
  addr mod 8 = 0 -> length ws = 4%nat -> fails (GetInsertPosition d addr) (St l e c mm) "too many words".
Proof.
  intros Ha Hlt. pose proof Hf as (_ & Hc & _). unfold GetInsertPosition.
  eapply fails_bind; [apply ev_check; by rewrite Ha|]. eapply fails_bind; [by apply ev_ld|].
  apply fails_first, fails_check. by rewrite Hlt.
Qed.

(** The words beyond the listed ones are mapped. *)
Definition slots_mapped : Prop := forall a, a ∈ word_fields d -> is_Some (c !! a).

Lemma word_field_mapped n :
  slots_mapped -> (n < 4)%nat -> let w := words_ d (Z.of_nat n) in
  is_Some (c !! address_ w) /\ is_Some (c !! old_value_ w) /\ is_Some (c !! new_value_ w) /\
  is_Some (c !! status_address_ w) /\ is_Some (c !! recycle_policy_ w).
Proof.
  intros Hm Hlt w. assert (forall a, a ∈ [address_ w; old_value_ w; new_value_ w; status_address_ w; recycle_policy_ w] ->
    is_Some (c !! a)) as H.
  { intros a Ha. apply Hm. apply list_elem_of_In, in_concat. eexists. split; [|by apply list_elem_of_In].
    apply list_elem_of_In, list_elem_of_fmap. exists n. split; [done|]. apply elem_of_seq. change (Z.to_nat DESC_CAP) with 4%nat. lia. }
  split_and!; apply H; set_solver.
Qed.

Definition fresh (x : wrec) : list (Z * Z) :=
  let w := words_ d (Z.of_nat (length ws)) in
  [(address_ w, wa x); (old_value_ w, wo x); (new_value_ w, wn x); (status_address_ w, status_ d);
   (recycle_policy_ w, wp x); (count_ d, Z.of_nat (S (length ws)))].
Definition added (x : wrec) : gmap Z Z := foldl (fun c av => <[av.1 := av.2]> c) c (fresh x).

Ltac offsets := unfold count_, owner_partition_, garbage_list, words_, address_, old_value_, new_value_,
  status_address_, recycle_policy_, sizeof_WordDescriptor in *; lia.

Lemma added_spec x :
  (length ws < 4)%nat ->
  frame d part g (ws ++ [x]) (added x) /\ (forall a, ~ (d <= a < d + 256) -> added x !! a = c !! a) /\
  added x !! status_ d = c !! status_ d.
Proof.
  intros Hlt. pose proof Hf as (Hw & Hc & Ho & Hg). unfold added, fresh. cbv zeta. cbn [foldl fst snd].
  split; [split; [|split; [|split]]|split].
  - intros n y Hy. unfold word_at. destruct (decide (n = length ws)) as [->|Hne].
    + rewrite lookup_app_r, Nat.sub_diag in Hy by lia. injection Hy as <-. cbv zeta.
      split_and!; repeat (rewrite lookup_insert_eq || rewrite lookup_insert_ne by offsets); done.
    + assert (ws !! n = Some y) as Hy'.
      { destruct (decide (n < length ws)%nat); [by rewrite lookup_app_l in Hy|].
        apply lookup_lt_Some in Hy. rewrite length_app in Hy. simpl in Hy. lia. }
      pose proof (lookup_lt_Some _ _ _ Hy'). destruct (Hw n y Hy') as (H1 & H2 & H3 & H4 & H5).
      rewrite !lookup_insert_ne by offsets. done.
  - rewrite lookup_insert_eq, length_app. simpl. do 2 f_equal. lia.
  - rewrite !lookup_insert_ne by offsets. done.
  - rewrite !lookup_insert_ne by offsets. done.
  - intros a Ha. rewrite !lookup_insert_ne by offsets. done.
  - rewrite !lookup_insert_ne by (unfold status_; offsets). done.
Qed.

Lemma ev_AddEntry addr old new policy :
  addr mod 8 = 0 -> IsCleanPtr old = true -> IsCleanPtr new || (new =? kNewValueReserved) = true ->
  slots_mapped -> (length ws < 4)%nat -> duplicate addr = false ->
  ev (AddEntry me fuel d addr old new policy) (St l e c mm) (Z.of_nat (length ws))
     (St l e (added (MkW addr old new policy)) mm).
Proof.
  intros Ha Ho Hnew Hm Hlt Hdup. pose proof Hf as (_ & Hc & Hown).
  destruct (word_field_mapped (length ws) Hm Hlt) as (M1 & M2 & M3 & M4 & M5).
  unfold AddEntry. eapply ev_bind; [by eapply ev_dcheck_start|].
  eapply ev_bind; [by apply ev_check|]. eapply ev_bind; [by apply ev_check|].
  eapply ev_bind; [by apply ev_GetInsertPosition|]. rewrite Hdup.
  eapply ev_bind; [apply ev_check, Z.leb_le; lia|]. cbv zeta.
  eapply ev_bind; [by apply ev_st|].
  eapply ev_bind; [apply ev_st; rewrite !lookup_insert_ne by offsets; done|].
  eapply ev_bind; [apply ev_st; rewrite !lookup_insert_ne by offsets; done|].
  eapply ev_bind; [apply ev_st; rewrite !lookup_insert_ne by offsets; done|].
  eapply ev_bind; [apply ev_st; rewrite !lookup_insert_ne by offsets; done|].
  eapply ev_bind; [apply ev_ld; rewrite !lookup_insert_ne by offsets; exact Hc|].
  rewrite u32_id by (unfold fits; lia).
  eapply ev_bind; [apply ev_st; rewrite !lookup_insert_ne by offsets; by eexists|].
  replace (Z.of_nat (length ws) + 1) with (Z.of_nat (S (length ws))) by lia. apply ev_ret.
Qed.

Lemma fails_AddEntry addr old new policy :
  addr mod 8 = 0 -> IsCleanPtr old = true -> IsCleanPtr new || (new =? kNewValueReserved) = true ->
  (length ws = 4%nat -> fails (AddEntry me fuel d addr old new policy) (St l e c mm) "too many words") /\
  ((length ws < 4)%nat -> duplicate addr = true ->
   fails (AddEntry me fuel d addr old new policy) (St l e c mm) "invalid insert position").
Proof.
  intros Ha Ho Hnew. pose proof Hf as (_ & Hc & Hown). unfold AddEntry. split; intros Hlt;
    [|intros Hdup]; (eapply fails_bind; [by eapply ev_dcheck_start|]);
    (eapply fails_bind; [by apply ev_check|]); (eapply fails_bind; [by apply ev_check|]).
  - by apply fails_first, fails_GetInsertPosition.
  - eapply fails_bind; [by apply ev_GetInsertPosition|]. rewrite Hdup. by apply fails_first, fails_check.
Qed.
End entries.

(** C27.  Adding an entry to a descriptor appends it as the last word and returns its position
    when there is room and the address is new or null; a duplicate address and a full
    descriptor stop with their messages; nothing outside the descriptor changes. *)
Theorem AddEntry_correct `{PlatformLaws} me fuel m g k sz i G en d part ws w addr old new policy :
  let c := cells (client w) in
  able me m g k sz i G en (lists w) (epochs w) (metrics (client w)) ->
  0 < d -> ~ (d <= garbage_list part < d + 256) -> (length ws <= 4)%nat ->
  frame d part g ws c -> slots_mapped d c ->
  addr mod 8 = 0 -> IsCleanPtr old = true -> IsCleanPtr new || (new =? kNewValueReserved) = true ->
  let r := run (AddEntry me fuel d addr old new policy) w in
  if (length ws <? 4)%nat then
    if duplicate ws addr then r.1 = Faulted "invalid insert position"
    else r.1 = Done (Z.of_nat (length ws)) /\
      frame d part g (ws ++ [MkW addr old new policy]) (cells (client r.2)) /\
      (forall a, ~ (d <= a < d + 256) -> cells (client r.2) !! a = c !! a) /\
      cells (client r.2) !! status_ d = c !! status_ d /\
      lists r.2 = lists w /\ epochs r.2 = epochs w /\ metrics (client r.2) = metrics (client w)
  else r.1 = Faulted "too many words".
Proof.
  intros c Ha Hd Hp Hn Hf Hm Haddr Ho Hnew r. destruct (Nat.ltb_spec (length ws) 4) as [Hlt|Hge].
  - destruct (duplicate ws addr) eqn:Hdup.
    + eapply (fails_AddEntry me fuel m g k sz i G en _ _ _ Ha d part ws c Hn Hf addr old new policy); done.
    + destruct (ev_AddEntry me fuel m g k sz i G en _ _ _ Ha d part ws c Hd Hp Hn Hf addr old new policy
        Haddr Ho Hnew Hm Hlt Hdup w eq_refl) as (w' & R & E).
      unfold r. rewrite R. cbn [fst snd].
      destruct w' as [l' e' [c' pc' m']]. unfold volatile, St in E. simpl in E. simplify_eq.
      destruct (added_spec g d part ws c Hp Hn Hf (MkW addr old new policy) Hlt) as (H1 & H2 & H3). done.
  - eapply (fails_AddEntry me fuel m g k sz i G en _ _ _ Ha d part ws c Hn Hf addr old new policy); [done..|lia|done].
Qed.

(** *** The sample descriptor takes a third word and refuses a duplicate *)

Definition roomy_world : World :=
  MkGW {[ 16 := sample_ring ]} sample_epochs
    (MkMem (sample_cells 1024 4096 16 kStatusFinished sample_words ∪
            list_to_map ((fun a => (a, 0)) <$> word_fields 1024)) ∅ metrics_off).

Lemma roomy_frame : frame 1024 4096 16 sample_words (cells (client roomy_world)).
Proof. split; [|by vm_compute]. intros [|[|n]] x Hx; [injection Hx as <-; by vm_compute..|done]. Qed.

Lemma roomy_slots : slots_mapped 1024 (cells (client roomy_world)).
Proof.
  assert (forallb (fun a => match cells (client roomy_world) !! a with Some _ => true | None => false end)
    (word_fields 1024) = true) as H by (by vm_compute).
  intros a Ha%list_elem_of_In. eapply forallb_forall in H; [|exact Ha].
  destruct (cells (client roomy_world) !! a); [by eexists|done].
Qed.

Example AddEntry_correct_witness :
  (run (AddEntry 5 1 1024 8208 9 10 kRecycleAlways) roomy_world).1 = Done 2 /\
  (run (AddEntry 5 1 1024 8192 9 10 kRecycleAlways) roomy_world).1 = Faulted "invalid insert position".
Proof.
  split.
  - apply (AddEntry_correct 5 1 100 16 2 128 117 sample_ring (MkEntry 1 0 5) 1024 4096 sample_words roomy_world
      8208 9 10 kRecycleAlways sample_able); try done; [unfold garbage_list; lia|simpl; lia| | ];
      [apply roomy_frame|apply roomy_slots].
  - apply (AddEntry_correct 5 1 100 16 2 128 117 sample_ring (MkEntry 1 0 5) 1024 4096 sample_words roomy_world
      8192 9 10 kRecycleAlways sample_able); try done; [unfold garbage_list; lia|simpl; lia| | ];
      [apply roomy_frame|apply roomy_slots].
Defined.

(** ** Recycling *)

(** A success gives back old values, anything else new ones, as the policy asks;
    a reserved value is never given back. *)
Definition frees_old (policy : Z) : bool := (policy =? kRecycleAlways) || (policy =? kRecycleOldOnSuccess).
Definition frees_new (policy : Z) : bool := (policy =? kRecycleAlways) || (policy =? kRecycleNewOnFailure).
Definition recycled (status : Z) (x : wrec) : list Z :=
  filter (fun v => v <> kNewValueReserved)
    (if status =? kStatusSucceeded then (if frees_old (wp x) then [wo x] else [])
     else if frees_new (wp x) then [wn x] else []).

Section recycling.
Context {HP : Platform} {HL : PlatformLaws} (d f : Z).

Definition free_all (vs : list Z) (s : Mem) : Mem := foldl (fun s v => run_free_callback f 0 v s) s vs.

Lemma free_all_cells vs s : cells (free_all vs s) = cells s.
Proof. revert s. induction vs as [|v vs IH]; intros s; [done|]. simpl. by rewrite IH, free_cells. Qed.

Lemma run_recycle field v s :
  cells s !! field = Some v -> cells s !! free_callback_ d = Some f ->
  run (recycle d field) s = (Done tt, free_all (filter (fun v => v <> kNewValueReserved) [v]) s).
Proof.
  intros Hv Hf. unfold recycle. rewrite run_bind, (run_load _ v) by done. cbn [and_then].
  rewrite filter_cons, filter_nil. destruct (Z.eqb_spec v kNewValueReserved) as [E|E].
  - by rewrite decide_False by (intros H; by apply H).
  - rewrite decide_True by done. by rewrite run_bind, (run_load _ f) by done.
Qed.

Definition recyclable (status : Z) (x : wrec) : Prop :=
  1 <= wp x <= 5 /\ (status = kStatusSucceeded \/ status = kStatusFailed \/ status = kStatusFinished).

Lemma run_Deallocate_word i x status s :
  word_at d (cells s) i x -> cells s !! status_ d = Some status -> cells s !! free_callback_ d = Some f ->
  recyclable status x ->
  run (Deallocate_word d (Z.of_nat i)) s = (Done tt, free_all (recycled status x) s).
Proof.
  intros (_ & Ho & Hn & _ & Hp) Hs Hf [Hpol Hst]. unfold Deallocate_word. cbv zeta.
  rewrite run_bind, (run_load _ status) by done. cbn [and_then].
  rewrite run_bind, (run_load _ (wp x)) by done. cbn [and_then].
  unfold recycled, frees_old, frees_new.
  assert (wp x = 1 \/ wp x = 2 \/ wp x = 3 \/ wp x = 4 \/ wp x = 5) as Hcase by lia.
  destruct Hst as [E|[E|E]]; rewrite E; destruct Hcase as [E'|[E'|[E'|[E'|E']]]]; rewrite E';
    try done; first [apply (run_recycle _ (wo x)) | apply (run_recycle _ (wn x))]; done.
Qed.

Lemma run_dealloc_loop status xs : forall k s,
  (forall i x, xs !! i = Some x -> word_at d (cells s) (k + i) x) -> cells s !! status_ d = Some status ->
  cells s !! free_callback_ d = Some f -> (forall x, x ∈ xs -> recyclable status x) ->
  run (for_list (seq k (length xs)) (fun i (_ : unit) => Deallocate_word d (Z.of_nat i)) tt) s =
    (Done tt, free_all (xs ≫= recycled status) s).
Proof.
  induction xs as [|x xs IH]; intros k s Hw Hs Hf Hr; [done|]. cbn [length seq for_list].
  rewrite run_bind, (run_Deallocate_word k x status); [|by rewrite <- (Nat.add_0_r k); apply Hw|done|done|by apply Hr; left].
  cbn [and_then]. rewrite IH.
  - simpl. unfold free_all. by rewrite foldl_app.
  - intros i y Hy. rewrite free_all_cells. replace (S k + i)%nat with (k + S i)%nat by lia. by apply Hw.
  - by rewrite free_all_cells.
  - by rewrite free_all_cells.
  - intros y Hy. apply Hr. by right.
Qed.

(** Stores to mapped words only change those words. *)
Lemma run_stores v as' : forall s,
  (forall a, a ∈ as' -> is_Some (cells s !! a)) ->
  run (for_list as' (fun a (_ : unit) => store a v) tt) s =
    (Done tt, set_cells (foldl (fun c a => <[a := v]> c) (cells s) as') s).
Proof.
  induction as' as [|a as' IH]; intros s Hm; [by destruct s|]. cbn [for_list].
  destruct (Hm a) as [u Hu]; [by left|]. rewrite run_bind, (run_store a v u) by done. cbn [and_then].
  rewrite IH; [done|]. intros b Hb. simpl. destruct (decide (a = b)) as [->|].
  - rewrite lookup_insert_eq. by eexists.
  - rewrite lookup_insert_ne by done. apply Hm. by right.
Qed.

Lemma foldl_insert_lookup v as' : forall (c : gmap Z Z) a,
  foldl (fun c a => <[a := v]> c) c as' !! a = if decide (a ∈ as') then Some v else c !! a.
Proof.
  induction as' as [|b as' IH]; intros c a; [done|]. simpl. rewrite IH.
  destruct (decide (a ∈ as')); [by rewrite decide_True by by right|].
  destruct (decide (a = b)) as [->|].
  - rewrite lookup_insert_eq, decide_True; [done|by left].
  - rewrite lookup_insert_ne, decide_False; [done| |done]. by intros [->|?]%elem_of_cons.
Qed.

Lemma word_fields_range a : a ∈ word_fields d -> d + 40 <= a < d + 256.
Proof.
  intros Ha. apply list_elem_of_In, in_concat in Ha as (xs & Hxs & Ha%list_elem_of_In).
  apply list_elem_of_In, list_elem_of_fmap in Hxs as (i & -> & Hi%elem_of_seq).
  change (Z.to_nat DESC_CAP) with 4%nat in Hi. revert Ha. rewrite !elem_of_cons, elem_of_nil.
  unfold address_, old_value_, new_value_, status_address_, recycle_policy_, words_, sizeof_WordDescriptor. lia.
Qed.

Lemma run_store_then {A} a v (k : unit -> prog Mem A) s :
  is_Some (cells s !! a) -> run (bind (store a v) k) s = run (k tt) (set_cells (<[a := v]> (cells s)) s).
Proof. intros [u Hu]. by rewrite run_bind, (run_store a v u). Qed.

Lemma run_load_then {A} a v (k : Z -> prog Mem A) s :
  cells s !! a = Some v -> run (bind (load a) k) s = run (k v) s.
Proof. intros H. by rewrite run_bind, (run_load a v). Qed.

(** The cells of a descriptor that is back on its partition's free list. *)
Record freed_cells (part head : Z) (c c' : gmap Z Z) : Prop := {
  fc_list : c' !! free_list part = Some d;
  fc_next : c' !! next_ptr_ d = Some head;
  fc_status : c' !! status_ d = Some kStatusFinished;
  fc_count : c' !! count_ d = Some 0;
  fc_words a : a ∈ word_fields d -> c' !! a = Some 0;
  fc_other a : a ∉ word_fields d -> a ∉ [free_list part; next_ptr_ d; status_ d; count_ d] -> c' !! a = c !! a
}.

Ltac offs := unfold free_list, next_ptr_, status_, count_, owner_partition_, free_callback_ in *; lia.

(** What [Initialize] makes of the cells. *)
Definition zeroed (c : gmap Z Z) : gmap Z Z :=
  foldl (fun c a => <[a := 0]> c)
    (<[next_ptr_ d := 0]> (<[count_ d := 0]> (<[status_ d := kStatusFinished]> c))) (word_fields d).

Definition header : list Z := [next_ptr_ d; status_ d; count_ d; owner_partition_ d; free_callback_ d].

Lemma word_field_not_header a : a ∈ word_fields d -> a ∉ header.
Proof. intros Ha%word_fields_range. unfold header. rewrite !elem_of_cons, elem_of_nil. offs. Qed.

Lemma zeroed_spec c a :
  zeroed c !! a =
    if decide (a ∈ word_fields d) then Some 0
    else if decide (a = next_ptr_ d) then Some 0
    else if decide (a = count_ d) then Some 0
    else if decide (a = status_ d) then Some kStatusFinished else c !! a.
Proof.
  unfold zeroed. rewrite foldl_insert_lookup. destruct (decide (a ∈ word_fields d)); [done|].
  repeat match goal with
  | |- context [decide (a = ?b)] => destruct (decide (a = b)) as [->|]
  end; repeat (rewrite lookup_insert_eq || rewrite lookup_insert_ne by (done || offs)); done.
Qed.

Lemma zeroed_header c a : a ∈ header -> a <> owner_partition_ d -> a <> free_callback_ d ->
  zeroed c !! a = Some (if decide (a = status_ d) then kStatusFinished else 0).
Proof.
  intros Ha H1 H2. rewrite zeroed_spec, decide_False by (intros Hw; by eapply word_field_not_header).
  unfold header in Ha. rewrite !elem_of_cons, elem_of_nil in Ha.
  repeat case_decide; try done; unfold next_ptr_, count_, status_ in *; naive_solver lia.
Qed.

Lemma zeroed_other c a : a ∉ word_fields d -> a ∉ [next_ptr_ d; status_ d; count_ d] -> zeroed c !! a = c !! a.
Proof. intros H Hn. rewrite zeroed_spec. rewrite !elem_of_cons, elem_of_nil in Hn. repeat case_decide; tauto. Qed.

Lemma run_Initialize s :
  is_Some (cells s !! next_ptr_ d) -> is_Some (cells s !! status_ d) -> is_Some (cells s !! count_ d) ->
  (forall a, a ∈ word_fields d -> is_Some (cells s !! a)) ->
  run (Descriptor_Initialize d) s = (Done tt, set_cells (zeroed (cells s)) s).
Proof.
  intros Hn Hs Hc Hw. unfold Descriptor_Initialize. rewrite !run_store_then; cbn [set_cells cells];
    [|by rewrite !lookup_insert_ne by offs|by rewrite lookup_insert_ne by offs|done].
  rewrite run_stores; [done|]. intros a Ha. pose proof (word_field_not_header a Ha) as Hh.
  cbn. rewrite !lookup_insert_ne by (intros <-; apply Hh; unfold header; set_solver). by apply Hw.
Qed.

Lemma run_FreeDescriptor part head status ws ctx s :
  let c := cells s in
  (forall i x, ws !! i = Some x -> word_at d c i x) -> c !! count_ d = Some (Z.of_nat (length ws)) ->
  c !! status_ d = Some status -> c !! owner_partition_ d = Some part -> c !! free_callback_ d = Some f ->
  (forall x, x ∈ ws -> recyclable status x) -> (forall a, a ∈ word_fields d -> is_Some (c !! a)) ->
  is_Some (c !! next_ptr_ d) -> c !! free_list part = Some head -> ~ (d <= free_list part < d + 256) ->
  exists c', freed_cells part head c c' /\
    run (FreeDescriptor ctx d) s = (Done tt, set_cells c' (free_all (ws ≫= recycled status) s)).
Proof.
  intros c Hw Hc Hs Ho Hf Hr Hm Hnx Hhead Hout.
  set (s1 := free_all (ws ≫= recycled status) s).
  assert (cells s1 = c) as Hc1 by apply free_all_cells.
  set (c1 := <[count_ d := 0]> c).
  assert (free_list part ∉ word_fields d) as Hfw by (intros H%word_fields_range; lia).
  assert (owner_partition_ d ∉ word_fields d) as How by (intros H%word_fields_range; offs).
  assert (forall a, a <> count_ d -> c1 !! a = c !! a) as H1 by (intros; by apply lookup_insert_ne).
  exists (<[free_list part := d]> (<[next_ptr_ d := head]> (zeroed c1))). split.
  - split.
    + apply lookup_insert_eq.
    + rewrite lookup_insert_ne by offs. apply lookup_insert_eq.
    + rewrite !lookup_insert_ne by offs. rewrite zeroed_header; [by rewrite decide_True|set_solver|offs|offs].
    + rewrite !lookup_insert_ne by offs. rewrite zeroed_header; [|set_solver|offs|offs].
      rewrite decide_False; [done|offs].
    + intros a Ha. pose proof (word_field_not_header a Ha) as Hh. unfold header in Hh.
      rewrite !lookup_insert_ne by set_solver. by rewrite zeroed_spec, decide_True.
    + intros a Ha Hn. rewrite !lookup_insert_ne by set_solver. rewrite zeroed_other by set_solver.
      apply H1. set_solver.
  - unfold FreeDescriptor, DeallocateMemory. rewrite run_bind, (run_load_then _ (Z.of_nat (length ws))) by done.
    rewrite run_bind, Nat2Z.id, (run_dealloc_loop status ws 0) by done. cbn [and_then]. fold s1.
    rewrite (run_store _ _ (Z.of_nat (length ws))) by (by rewrite Hc1). cbn [and_then]. rewrite Hc1. fold c1.
    rewrite run_bind, run_Initialize; cbn [set_cells cells];
      [|rewrite H1 by offs; done|rewrite H1 by offs; by eexists|unfold c1; rewrite lookup_insert_eq; by eexists
       |intros a Ha; rewrite H1 by (intros ->; by apply (word_field_not_header _ Ha); set_solver); by apply Hm].
    cbn [and_then]. change (set_cells (zeroed c1) (set_cells c1 s1)) with (set_cells (zeroed c1) s1).
    rewrite (run_load_then _ kStatusFinished) by
      (cbn; rewrite zeroed_header; [by rewrite decide_True|set_solver|offs|offs]).
    change (kStatusFinished =? kStatusFinished) with true. cbn [check bind].
    rewrite (run_load_then _ part) by (cbn; rewrite zeroed_other by (done || unfold owner_partition_; rewrite !elem_of_cons, elem_of_nil; offs); by rewrite H1 by offs).
    assert (zeroed c1 !! free_list part = Some head) as Hhead'.
    { rewrite zeroed_other; [by rewrite H1 by offs|done|]. rewrite !elem_of_cons, elem_of_nil. offs. }
    rewrite (run_load_then _ head) by done.
    rewrite run_store_then; cbn [set_cells cells].
    2: { rewrite zeroed_header; [by eexists|set_solver|offs|offs]. }
    rewrite (run_store _ _ head); cbn [set_cells cells]; [done|]. by rewrite lookup_insert_ne by offs.
Qed.
End recycling.

(** C28.  Freeing a descriptor calls its free callback, in word order, on the old values after
    a success and the new values otherwise, exactly as each word's recycle policy asks
    and never on a reserved value, then clears the descriptor and pushes it on its
    partition's free list. *)
Theorem FreeDescriptor_correct `{PlatformLaws} d f part head status ws ctx s :
  let c := cells s in
  (forall i x, ws !! i = Some x -> word_at d c i x) -> c !! count_ d = Some (Z.of_nat (length ws)) ->
  c !! status_ d = Some status -> c !! owner_partition_ d = Some part -> c !! free_callback_ d = Some f ->
  (forall x, x ∈ ws -> recyclable status x) -> (forall a, a ∈ word_fields d -> is_Some (c !! a)) ->
  is_Some (c !! next_ptr_ d) -> c !! free_list part = Some head -> ~ (d <= free_list part < d + 256) ->
  exists c', freed_cells d part head c c' /\
    run (FreeDescriptor ctx d) s = (Done tt, set_cells c' (free_all f (ws ≫= recycled status) s)).
Proof. apply run_FreeDescriptor. Qed.

(** A platform whose free callback leaves a trace in persistent memory. *)
Definition trace_platform : Platform := {|
  pmemobj_persist := fun _ _ s => s;
  run_allocate_callback := fun _ _ s => (0, s);
  run_free_callback := fun f _ v s => MkMem (cells s) (<[v := f]> (pcells s)) (metrics s)
|}.
Lemma trace_platform_laws : @PlatformLaws trace_platform.
Proof. by split. Qed.

Definition used_words : list wrec := [MkW 8200 7 8 kRecycleAlways; MkW 8192 5 6 kRecycleNewOnFailure].
Definition used_mem : Mem :=
  MkMem (list_to_map [(free_callback_ 1024, 2); (next_ptr_ 1024, 0); (free_list 4096, 2048)] ∪
         sample_cells 1024 4096 16 kStatusSucceeded used_words ∪
         list_to_map ((fun a => (a, 0)) <$> word_fields 1024)) ∅ metrics_off.

Lemma used_words_at : forall i x, used_words !! i = Some x -> word_at 1024 (cells used_mem) i x.
Proof. intros [|[|n]] x Hx; [injection Hx as <-; by vm_compute..|done]. Qed.

Lemma used_slots : forall a, a ∈ word_fields 1024 -> is_Some (cells used_mem !! a).
Proof.
  assert (forallb (fun a => match cells used_mem !! a with Some _ => true | None => false end)
    (word_fields 1024) = true) as H by (by vm_compute).
  intros a Ha%list_elem_of_In. eapply forallb_forall in H; [|exact Ha].
  destruct (cells used_mem !! a); [by eexists|done].
Qed.

Example FreeDescriptor_correct_witness :
  exists c', freed_cells 1024 4096 2048 (cells used_mem) c' /\
    run (@FreeDescriptor trace_platform 0 1024) used_mem = (Done tt, MkMem c' {[ 7 := 2 ]} metrics_off).
Proof.
  destruct (@FreeDescriptor_correct trace_platform trace_platform_laws 1024 2 4096 2048 kStatusSucceeded
    used_words 0 used_mem used_words_at) as (c' & Hc & R);
    [by vm_compute..| |exact used_slots|by vm_compute; eexists|by vm_compute|unfold free_list; lia|].
  - intros x [->|[->|[]%elem_of_nil]%elem_of_cons]%elem_of_cons; (split; [vm_compute; by split|by left]).
  - exists c'. split; [exact Hc|exact R].
Defined.
