(* ===== verification/Target.v ===== *)
(** * Reading words that a multi-word CAS may own (src/mwcas/mwcas.h: MwcTargetField)

    A read that finds a pointer to a descriptor completes the conditional CAS or
    helps the operation, and tries again.  The persistent variants also flush a
    dirty value before returning it. *)
From Stdlib Require Import ZArith Lia.
From stdpp Require Import base list gmap strings.
From S2P Require Import Prelude Bytes Prog Status Library Epoch Garbage Metrics Memory Descriptor MwCAS.
#[local] Open Scope Z_scope.
#[local] Open Scope machine_scope.
#[local] Open Scope prog_scope.

Definition kDescriptorMask : Z := kMwCASFlag .| kCondCASFlag.

Section platform.
Context `{Platform} (me : Z) (fuel depth : nat).

(** Completing the conditional CAS whose descriptor [val] points to. *)
Definition complete_CondCAS (checked : bool) (a val dirty : Z) : prog World unit :=
  let wd := CleanPtr val in
  let! sa := ld (status_address_ wd) in
  let dptr := SetFlags (GetDescriptor sa) (kMwCASFlag .| dirty) in
  let! wa := ld (address_ wd) in
  check (negb checked || (a =? wa)) "wrong addresses" ;;;
  let! new := if_undecided sa dptr (old_value_ wd) in
  cas wa new val ;;;
  Ret tt.

(** One pass after [retry:]; [inl] for [goto retry]. *)
Definition GetValueVolatile_try (a : Z) : prog World (unit + Z) :=
  let! val := ld a in
  if has val kCondCASFlag then complete_CondCAS true a val 0 ;;; Ret (inl tt)
  else if has val kMwCASFlag then
    let desc := CleanPtr val in
    check (negb (desc =? 0)) "invalid descriptor pointer" ;;;
    VolatileMwCAS me fuel depth desc 1 ;;;
    Ret (inl tt)
  else Ret (inr val).

Definition PersistValue (a : Z) : prog World unit := zoom (NVRAM_Flush 8 a).

Definition GetValuePersistent_try (a : Z) : prog World (unit + Z) :=
  let! val := ld a in
  if has val kCondCASFlag then
    check (negb (has val kDirtyFlag)) "dirty flag set on CondCAS descriptor" ;;;
    complete_CondCAS false a val kDirtyFlag ;;;
    Ret (inl tt)
  else
    (if has val kDirtyFlag
     then PersistValue a ;;; cas a (clear val kDirtyFlag) val ;;; Ret tt
     else Ret tt) ;;;
    let val := clear val kDirtyFlag in
    check (negb (has val kDirtyFlag)) "dirty flag set on return value" ;;;
    if has val kMwCASFlag then
      let desc := CleanPtr val in
      check (negb (desc =? 0)) "invalid descriptor pointer" ;;;
      PersistentMwCAS me fuel depth desc 1 ;;;
      Ret (inl tt)
    else
      check (IsCleanPtr val) "dirty flag set on return value" ;;;
      Ret (inr val).

Definition GetValueProtectedVolatile (a : Z) : prog World Z :=
  metric me Read ;;; loop fuel (fun _ : unit => GetValueVolatile_try a) tt.
Definition GetValueProtectedPersistent (a : Z) : prog World Z :=
  metric me Read ;;; loop fuel (fun _ : unit => GetValuePersistent_try a) tt.

(** [EpochGuard guard(epoch, !epoch->IsProtected())] around a read. *)
Definition guarded {A} (m : Z) (p : prog World A) : prog World A :=
  let! b := zoom (IsProtected me fuel m) in
  let! g := zoom (EpochGuard_attach me fuel m (negb b)) in
  let! v := p in
  zoom (EpochGuard_delete me fuel g) ;;;
  Ret v.

Definition GetValueVolatile (a m : Z) : prog World Z :=
  metric me Read ;;; guarded m (loop fuel (fun _ : unit => GetValueVolatile_try a) tt).
Definition GetValuePersistent (a m : Z) : prog World Z :=
  metric me Read ;;; guarded m (loop fuel (fun _ : unit => GetValuePersistent_try a) tt).

Definition GetValue (pmem : bool) (a m : Z) : prog World Z :=
  if pmem then GetValuePersistent a m else GetValueVolatile a m.
Definition GetValueProtected (pmem : bool) (a : Z) : prog World Z :=
  if pmem then GetValueProtectedPersistent a else GetValueProtectedVolatile a.
End platform.

(** ** Reading a word that no operation owns *)

Section spec.
Context {HP : Platform} {HL : PlatformLaws} (me : Z) (fuel depth : nat) (fuel_pos : (0 < fuel)%nat).
Context (l : gmap Z GarbageList) (e : EpochWorld) (c : gmap Z Z) (mm : MetricsWorld).
Context (Hmm : metrics_ok me mm).

(** A plain value, possibly not yet persistent. *)
Definition marked (dirty : bool) (v : Z) : Z := if dirty then v .| kDirtyFlag else v.

Lemma ev_Volatile_try a v mm' :
  plain v -> c !! a = Some v -> ev (GetValueVolatile_try me fuel depth a) (St l e c mm') (inr v) (St l e c mm').
Proof.
  intros Hp Hv. unfold GetValueVolatile_try. eapply ev_bind; [by apply ev_ld|].
  unfold kCondCASFlag, kMwCASFlag. rewrite !plain_not_flag by (done || lia). apply ev_ret.
Qed.

Lemma marked_cond dirty v : plain v -> has (marked dirty v) kCondCASFlag = false.
Proof.
  intros Hp. destruct dirty; [|by apply plain_not_flag]. unfold marked, kCondCASFlag, kDirtyFlag.
  rewrite has_pow2, (set_testbit v Hp), Z.pow2_bits_false by lia. done.
Qed.

Lemma marked_clear dirty v : plain v -> clear (marked dirty v) kDirtyFlag = v.
Proof.
  intros Hp. destruct dirty; [by apply dirty_clear|]. unfold marked, clear, kDirtyFlag. bitwise i Hi.
  rewrite Z.ldiff_spec, Z.pow2_bits_eqb by lia. destruct (Z.eqb_spec 61 i) as [<-|]; [|by rewrite andb_true_r].
  by rewrite plain_bit.
Qed.

Lemma marked_has dirty v : plain v -> has (marked dirty v) kDirtyFlag = dirty.
Proof. intros Hp. destruct dirty; [apply dirty_bit|]. unfold kDirtyFlag. by apply plain_not_flag. Qed.

Lemma ev_Persistent_try dirty a v mm' :
  plain v -> c !! a = Some (marked dirty v) ->
  ev (GetValuePersistent_try me fuel depth a) (St l e c mm') (inr v) (St l e (<[a := v]> c) mm').
Proof.
  intros Hp Hv. unfold GetValuePersistent_try. eapply ev_bind; [by apply ev_ld|].
  rewrite marked_cond, marked_has, marked_clear by done.
  eapply (ev_bind _ _ _ tt (St l e (<[a := v]> c) mm')).
  { destruct dirty; [|rewrite insert_id by done; apply ev_ret].
    eapply ev_bind; [apply (@ev_flush _ _ _ _ HP HL)|]. eapply ev_bind; [by apply ev_cas_ok|]. apply ev_ret. }
  cbv zeta. unfold kMwCASFlag, kDirtyFlag. rewrite !plain_not_flag by (done || lia).
  eapply ev_bind; [by apply ev_check|].
  eapply ev_bind; [apply ev_check; apply IsCleanPtr_plain; [unfold plain, fits in *; lia|done]|]. apply ev_ret.
Qed.

Lemma ev_try (pmem dirty : bool) a v mm' :
  plain v -> c !! a = Some (marked dirty v) -> (dirty = true -> pmem = true) ->
  ev (loop fuel (fun _ : unit => (if pmem then GetValuePersistent_try me fuel depth a
                                  else GetValueVolatile_try me fuel depth a)) tt)
     (St l e c mm') v (St l e (<[a := v]> c) mm').
Proof.
  intros Hp Hv Hd. apply ev_loop_once; [done|]. destruct pmem; [by apply (ev_Persistent_try dirty)|].
  destruct dirty; [by specialize (Hd eq_refl)|]. rewrite insert_id by done. by apply ev_Volatile_try.
Qed.

Lemma ev_GetValueProtected (pmem dirty : bool) a v :
  plain v -> c !! a = Some (marked dirty v) -> (dirty = true -> pmem = true) ->
  ev (GetValueProtected me fuel depth pmem a) (St l e c mm) v (St l e (<[a := v]> c) (bump me Read mm)).
Proof.
  intros Hp Hv Hd. pose proof (ev_try pmem dirty a v (bump me Read mm) Hp Hv Hd) as H.
  unfold GetValueProtected, GetValueProtectedPersistent, GetValueProtectedVolatile.
  destruct pmem; (eapply ev_bind; [by apply ev_metric|]); exact H.
Qed.
End spec.

(** The table entry after a read that had to protect itself. *)
Definition after_read (m : Z) (i : nat) (me : Z) (en : Entry) (e : EpochWorld) : EpochWorld :=
  if protected_epoch en =? 0 then put_entry m i (MkEntry 0 (cur m e) me) e else e.

Lemma ev_guarded {A} me fuel m sz i en (p : prog World A) l e c mm x c' mm' :
  holds me m sz i en e ->
  (forall e', ev p (St l e' c mm) x (St l e' c' mm')) ->
  ev (guarded me fuel m p) (St l e c mm) x (St l (after_read m i me en e) c' mm').
Proof.
  intros Hh Hp. pose proof Hh as Hh0.
  destruct (put_entry_holds me m sz i en (MkEntry (cur m e) 0 me) e Hh eq_refl) as (H1 & Hc1 & Hp1).
  pose proof (run_Protect me fuel m sz i en e Hh) as R1.
  pose proof (run_Unprotect me fuel m sz i _ _ H1) as R2. rewrite Hc1, Hp1 in R2.
  unfold guarded, after_read. eapply ev_bind; [apply ev_zoom_epochs, (run_IsProtected me fuel m sz i en), Hh|].
  destruct (protected_epoch en =? 0); cbn [negb].
  - eapply ev_bind.
    { apply (ev_zoom_epochs _ _ _ _ _ (MkEpochGuard (Some m) true)). unfold EpochGuard_attach.
      rewrite !run_bind, R1. done. }
    eapply ev_bind; [apply Hp|]. eapply ev_bind; [|apply ev_ret].
    apply ev_zoom_epochs. unfold EpochGuard_delete. cbn [unprotect_at_exit_ epoch_manager_].
    rewrite run_bind, R2. done.
  - eapply ev_bind; [by apply (ev_zoom_epochs _ _ _ _ _ (MkEpochGuard (Some m) false))|].
    eapply ev_bind; [apply Hp|]. eapply ev_bind; [|apply ev_ret]. by apply ev_zoom_epochs.
Qed.

(** C30.  Reading a word that no operation owns returns its value, counts the read, and makes
    a dirty persistent value clean; the guarded read protects the thread only when it
    was not protected and leaves a protected thread's entry alone. *)
Theorem GetValue_correct `{PlatformLaws} me fuel depth (pmem dirty : bool) m sz i en a v w :
  (0 < fuel)%nat -> metrics_ok me (metrics (client w)) -> plain v ->
  cells (client w) !! a = Some (marked dirty v) -> (dirty = true -> pmem = true) ->
  (exists w', run (GetValueProtected me fuel depth pmem a) w = (Done v, w') /\
     volatile w' = St (lists w) (epochs w) (<[a := v]> (cells (client w))) (bump me Read (metrics (client w)))) /\
  (holds me m sz i en (epochs w) ->
   exists w', run (GetValue me fuel depth pmem a m) w = (Done v, w') /\
     volatile w' = St (lists w) (after_read m i me en (epochs w)) (<[a := v]> (cells (client w)))
                      (bump me Read (metrics (client w)))).
Proof.
  intros Hf Hm Hp Hv Hd. split.
  - by apply (ev_GetValueProtected me fuel depth Hf _ _ _ _ Hm pmem dirty a v Hp Hv Hd w).
  - intros Hh.
    assert (ev (GetValue me fuel depth pmem a m) (volatile w) v
      (St (lists w) (after_read m i me en (epochs w)) (<[a := v]> (cells (client w))) (bump me Read (metrics (client w))))) as E;
      [|by apply (E w)].
    assert (forall e', ev (loop fuel (fun _ : unit => (if pmem then GetValuePersistent_try me fuel depth a
                                  else GetValueVolatile_try me fuel depth a)) tt)
      (St (lists w) e' (cells (client w)) (bump me Read (metrics (client w)))) v
      (St (lists w) e' (<[a := v]> (cells (client w))) (bump me Read (metrics (client w))))) as Htry
      by (intros e'; by apply (ev_try me fuel depth Hf _ _ _ pmem dirty)).
    unfold GetValue, GetValuePersistent, GetValueVolatile.
    destruct pmem; (eapply ev_bind; [by apply ev_metric|]); by apply (ev_guarded _ _ _ sz).
Qed.

Example GetValue_correct_witness :
  let w := MkGW {[ 16 := sample_ring ]} sample_epochs (MkMem {[ 8192 := marked true 5 ]} ∅ metrics_off) in
  exists w', run (GetValue 5 1 0 true 8192 100) w = (Done 5, w') /\ cells (client w') !! 8192 = Some 5.
Proof.
  intros w. destruct (proj2 (GetValue_correct 5 1 0 true true 100 128 117 (MkEntry 1 0 5) 8192 5 w
    ltac:(lia) ltac:(by left) ltac:(unfold plain, fits; lia) ltac:(by vm_compute) ltac:(done))) as (w' & R & E).
  - by vm_compute.
  - exists w'. split; [exact R|]. apply (f_equal (fun w => cells (client w) !! 8192)) in E. exact E.
Defined.
