(* ===== verification/Pool.v ===== *)
(** * Descriptor pools and recovery (src/mwcas/mwcas.{h,cc}: DescriptorPartition, DescriptorPool)

    A pool is an array of descriptors dealt out to partitions, each with a free
    list and a garbage list.  A thread takes a partition the first time it
    allocates.  After a crash [Recovery] rolls every unfinished operation forward
    or back from what persistent memory holds.

    Addresses that malloc, new, the library's allocator and libpmemobj return are
    arguments. *)
From Stdlib Require Import ZArith Lia.
From stdpp Require Import base list gmap strings.
From S2P Require Import Prelude Bytes Prog Status Library Epoch Garbage Metrics Memory Descriptor MwCAS.
#[local] Open Scope Z_scope.
#[local] Open Scope machine_scope.
#[local] Open Scope prog_scope.

(** Fields of a [DescriptorPool] at [p]; its epoch manager is the object at [epoch_]. *)
Definition pool_size_ (p : Z) : Z := p.
Definition desc_per_partition_ (p : Z) : Z := p + 4.
Definition descriptors_ (p : Z) : Z := p + 8.
Definition partition_count_ (p : Z) : Z := p + 16.
Definition partition_table_ (p : Z) : Z := p + 24.
Definition next_partition_ (p : Z) : Z := p + 32.
Definition epoch_ (p : Z) : Z := p + 40.
Definition pmdk_pool_ (p : Z) : Z := p + 64.

(** Raw memory becoming an object: the cell is mapped and initialised. *)
Definition construct (a v : Z) : prog World unit :=
  zoom (upd (fun s => set_cells (<[a := v]> (cells s)) s) : prog Mem unit).

Definition GetDescPerPartition (p : Z) : prog World Z := ld (desc_per_partition_ p).
Definition DescriptorPool_GetEpoch (p : Z) : Z := epoch_ p.
Definition DescriptorPool_GetDescriptor (p : Z) : prog World Z := ld (descriptors_ p).

(** ** Sizes *)

(** [while (requested > size) size *= 2], on 32 bits: [None] when it spins. *)
Fixpoint round_pool_size (fuel : nat) (requested size : Z) : option Z :=
  if size <? requested then
    match fuel with
    | O => None
    | S n => round_pool_size n requested (u32 (size * 2))
    end
  else Some size.

(** [for(exp = 1; exp < 10; exp++)]: [n] rounds are left. *)
Fixpoint round_partition_count (n : nat) (requested count : Z) : Z :=
  match n with
  | O => count
  | S n' => if requested <=? count then count else round_partition_count n' requested (u32 (count * 2))
  end.

(** ** DescriptorPartition *)

(** [g] is the new garbage list. *)
Definition DescriptorPartition_new (part epoch pool g : Z) : prog World unit :=
  construct (desc_pool part) pool ;;;
  construct (allocated_desc part) 0 ;;;
  construct (free_list part) 0 ;;;
  construct (garbage_list part) g ;;;
  gl_write g (fun _ => GarbageList_new) ;;;
  let! n := GetDescPerPartition pool in
  let! s := GarbageListUnsafe_Initialize g (Some epoch) n in
  check (Status_ok s) "garbage list initialization failure".

Section platform.
Context `{Platform} (me : Z) (fuel : nat).

Definition DescriptorPartition_delete (part : Z) : prog World unit :=
  let! g := ld (garbage_list part) in
  GarbageListUnsafe_Uninitialize destroy g ;;; Ret tt.

(** ** DescriptorPool *)

(** What the environment hands out: the cores, the partition table, the garbage
    lists, the descriptor array and libpmemobj's pool. *)
Record pool_env := MkPoolEnv {
  env_cores : Z; env_table : Z; env_garbage : nat -> Z; env_descriptors : Z; env_pmdk_pool : Z
}.

(** Every field of a descriptor. *)
Definition descriptor_fields (d : Z) : list Z :=
  [next_ptr_ d; owner_partition_ d; status_ d; count_ d; free_callback_ d; allocate_callback_ d]
  ++ word_fields d.

Definition InitDescriptors (p : Z) : prog World unit :=
  let! descs := ld (descriptors_ p) in
  check (negb (descs =? 0)) "null descriptor pool" ;;;
  let! size := ld (pool_size_ p) in
  for_list (seq 0 (Z.to_nat size)) (fun i (_ : unit) =>
    for_list (descriptor_fields (descs + sizeof_Descriptor * Z.of_nat i))
      (fun a (_ : unit) => construct a 0) tt) tt ;;;
  let! nparts := ld (partition_count_ p) in
  check (nparts <? size) "provided pool size is less than partition count" ;;;
  let! per := ld (desc_per_partition_ p) in
  let! table := ld (partition_table_ p) in
  for_list (seq 0 (Z.to_nat nparts)) (fun i (_ : unit) =>
    let part := table + sizeof_DescriptorPartition * Z.of_nat i in
    for_list (seq 0 (Z.to_nat per)) (fun k (_ : unit) =>
      let desc := descs + sizeof_Descriptor * (Z.of_nat i * per + Z.of_nat k) in
      zoom (Descriptor_new desc part) ;;;
      let! head := ld (free_list part) in
      st (next_ptr_ desc) head ;;;
      st (free_list part) desc) tt) tt.

(** [MwCASMetrics::enabled = enable_stats] *)
Definition set_enabled (b : bool) : prog World unit :=
  zoom (zoom (upd (fun w => MkMetricsWorld b (objects_ w) (core_count_ w) (next_free_object_ w)
                      (core_idx w) (heap w))) : prog Mem unit).
Definition metrics_initialize (cores : Z) : prog World Status :=
  zoom (zoom (MwCASMetrics_Initialize cores) : prog Mem Status).

Definition new_partitions (p : Z) (e : pool_env) : prog World unit :=
  let! nparts := ld (partition_count_ p) in
  for_list (seq 0 (Z.to_nat nparts)) (fun i (_ : unit) =>
    DescriptorPartition_new (env_table e + sizeof_DescriptorPartition * Z.of_nat i)
      (epoch_ p) p (env_garbage e i)) tt.

Definition DescriptorPool_new (p requested_pool_size requested_partition_count : Z) (enable_stats : bool)
    (e : pool_env) : prog World unit :=
  for_list [pool_size_ p; desc_per_partition_ p; partition_count_ p; partition_table_ p;
            next_partition_ p; descriptors_ p; pmdk_pool_ p] (fun a (_ : unit) => construct a 0) tt ;;;
  zoom (upd (fun w => set_mgr (epoch_ p) EpochManager_new w)) ;;;
  set_enabled enable_stats ;;;
  (if enable_stats
   then let! s := metrics_initialize (env_cores e) in
        check (Status_ok s) "failed initializing metric objects"
   else Ret tt) ;;;
  let! s := zoom (EpochManager_Initialize (epoch_ p)) in
  check (Status_ok s) "epoch initialization failure" ;;;
  match round_pool_size 32 requested_pool_size 1 with
  | None => Stuck
  | Some size =>
      st (pool_size_ p) size ;;;
      let count := round_partition_count 9 requested_partition_count 1 in
      st (partition_count_ p) count ;;;
      st (desc_per_partition_ p) (size / count) ;;;
      check (0 <? size / count) "descriptor per partition is 0" ;;;
      st (partition_table_ p) (env_table e) ;;;
      check (negb (env_table e =? 0)) "out of memory" ;;;
      new_partitions p e ;;;
      check (0 <? size) "invalid pool size" ;;;
      st (descriptors_ p) (env_descriptors e) ;;;
      check (negb (env_descriptors e =? 0)) "out of memory" ;;;
      st (pmdk_pool_ p) (env_pmdk_pool e) ;;;
      InitDescriptors p
  end.

(** [MwCASMetrics::Uninitialize()] is all the destructor does. *)
Definition DescriptorPool_delete : prog World unit :=
  zoom (zoom MwCASMetrics_Uninitialize : prog Mem Status) ;;; Ret tt.

(** The calling thread's partition, assigned round-robin on first use. *)
Definition my_partition (p : Z) : prog World Z :=
  let! t := zoom (rd (fun w => tls_get (threads w) (me, tls_part))) in
  match t with
  | tls_ptr_part part => Ret part
  | tls_ptr_entry _ _ => Fault "tls_part holds a partition pointer"
  | tls_null =>
      let! n := zoom (rmw (next_partition_ p) (fun v => (v, u32 (v + 1)))) in
      let! count := ld (partition_count_ p) in
      check (negb (count =? 0)) "division by zero" ;;;
      let! table := ld (partition_table_ p) in
      let part := table + sizeof_DescriptorPartition * (n mod count) in
      zoom (upd (fun w => set_threads (tls_set (me, tls_part) (tls_ptr_part part) (threads w)) w)) ;;;
      zoom (upd (fun w => set_threads (Thread_RegisterTls me (me, tls_part) tls_null (threads w)) w)) ;;;
      Ret part
  end.

(** One round of [while(!desc)]. *)
Definition scavenge_round (part : Z) : prog World Z :=
  let! g := ld (garbage_list part) in
  let! m := gl_epoch g in
  zoom (BumpCurrentEpoch m) ;;;
  let! scavenged := GarbageListUnsafe_Scavenge destroy g in
  let! n := ld (allocated_desc part) in
  st (allocated_desc part) (u32 (n - scavenged)) ;;;
  let! desc := ld (free_list part) in
  check ((0 <? scavenged) || (desc =? 0)) "scavenged but still not descriptor" ;;;
  metric me DescriptorScavenge ;;;
  Ret desc.

Definition AllocateDescriptor (p ac fc : Z) : prog World Z :=
  let! part := my_partition p in
  let! desc := ld (free_list part) in
  let! desc := loop fuel (fun desc =>
    if desc =? 0 then let! desc := scavenge_round part in Ret (inl desc) else Ret (inr desc)) desc in
  let! next := ld (next_ptr_ desc) in
  st (free_list part) next ;;;
  metric me DescriptorAlloc ;;;
  check (negb (desc =? 0)) "null descriptor pointer" ;;;
  st (allocate_callback_ desc) (if ac =? 0 then DefaultAllocateCallback else ac) ;;;
  st (free_callback_ desc) (if fc =? 0 then DefaultFreeCallback else fc) ;;;
  Ret desc.

Definition AllocateDescriptor_default (p : Z) : prog World Z := AllocateDescriptor p 0 0.

(** ** Recovery *)

(** Loops over the words of a descriptor that skip null addresses. *)
Definition for_targets (d : Z) (body : Z -> Z -> prog World unit) : prog World unit :=
  for_words d (fun w (_ : unit) =>
    let! a := ld (address_ (words_ d w)) in
    if a =? kAllocNullAddress then Ret tt else body w a) tt.

(** The pool may be mapped elsewhere than before the crash. *)
Definition relocate_words (adjust_offset d : Z) : prog World unit :=
  for_targets d (fun w a => st (address_ (words_ d w)) (u64 (a + adjust_offset))).

Definition roll_back_word (adjust_offset d w a : Z) : prog World unit :=
  let! v := ld a in
  let val := u64 (CleanPtr v + adjust_offset) in
  if (val =? d) || (val =? words_ d w) then
    let! old := ld (old_value_ (words_ d w)) in
    st a old ;;;
    PersistAddress (words_ d w)
  else Ret tt.

Definition roll_forward_word (adjust_offset d w a : Z) : prog World unit :=
  let! v := ld a in
  let val := u64 (CleanPtr v + adjust_offset) in
  check (negb (val =? words_ d w)) "invalid field value" ;;;
  if val =? d then
    let! new := ld (new_value_ (words_ d w)) in
    st a new ;;;
    PersistAddress (words_ d w)
  else Ret tt.

Definition check_word (d w a : Z) : prog World unit :=
  let! v := ld a in
  check (negb (clear v kDirtyFlag =? d .| kMwCASFlag)) "invalid word value" ;;;
  check (negb (clear v kDirtyFlag =? d .| kCondCASFlag)) "invalid word value".

(** One descriptor of the scan; [false] leaves the loop. *)
Definition recover_descriptor (adjust_offset i d : Z) : prog World bool :=
  let! s := ld (status_ d) in
  if s =? kStatusInvalid then
    check (i =? 0) "corrupted descriptor pool/data area" ;;; Ret false
  else
    let! s := ld (status_ d) in
    check (assert_valid_status s) "invalid status" ;;;
    relocate_words adjust_offset d ;;;
    let! s := ld (status_ d) in
    let status := clear s kStatusDirtyFlag in
    if status =? kStatusFinished then Ret true
    else
      (if (status =? kStatusUndecided) || (status =? kStatusFailed)
       then for_targets d (roll_back_word adjust_offset d)
       else
         check (status =? kStatusSucceeded) "invalid status" ;;;
         for_targets d (roll_forward_word adjust_offset d)) ;;;
      for_targets d (check_word d) ;;;
      Ret true.

Definition Recovery (p : Z) (enable_stats : bool) (e : pool_env) : prog World unit :=
  set_enabled enable_stats ;;;
  let! s := metrics_initialize (env_cores e) in
  check (Status_ok s) "failed initializing metric objects" ;;;
  zoom (upd (fun w => set_mgr (epoch_ p) EpochManager_new w)) ;;;
  let! s := zoom (EpochManager_Initialize (epoch_ p)) in
  check (Status_ok s) "epoch initialization failure" ;;;
  let! nparts := ld (partition_count_ p) in
  check (0 <? nparts) "invalid partition count" ;;;
  st (partition_table_ p) (env_table e) ;;;
  check (negb (env_table e =? 0)) "out of memory" ;;;
  new_partitions p e ;;;
  let! descs := ld (descriptors_ p) in
  check (negb (descs =? 0)) "invalid descriptor array pointer" ;;;
  let! size := ld (pool_size_ p) in
  check (0 <? size) "invalid pool size" ;;;
  let! old_pmdk_pool := ld (pmdk_pool_ p) in
  let adjust_offset := u64 (env_pmdk_pool e - old_pmdk_pool) in
  let descs := u64 (descs + adjust_offset) in
  st (descriptors_ p) descs ;;;
  let! s0 := ld (status_ descs) in
  (if negb (s0 =? kStatusInvalid) then
     for_list (seq 0 (Z.to_nat size)) (fun i (go : bool) =>
       if go then recover_descriptor adjust_offset (Z.of_nat i) (descs + sizeof_Descriptor * Z.of_nat i)
       else Ret false) true ;;; Ret tt
   else Ret tt) ;;;
  st (pmdk_pool_ p) (env_pmdk_pool e) ;;;
  InitDescriptors p.
End platform.

(** ** Sizes *)

Lemma round_pool_size_pow n : forall requested j,
  0 <= j <= 31 -> requested <= 2 ^ 31 -> (31 - j < Z.of_nat n)%Z -> (j = 0 \/ 2 ^ (j - 1) < requested) ->
  exists k, round_pool_size n requested (2 ^ j) = Some (2 ^ k) /\ 0 <= k <= 31 /\ requested <= 2 ^ k /\
    (k = 0 \/ 2 ^ (k - 1) < requested).
Proof.
  induction n as [|n IH]; intros requested j Hj Hr Hn Hlow; [lia|]. cbn [round_pool_size].
  destruct (Z.ltb_spec (2 ^ j) requested) as [Hlt|Hge]; [|by exists j].
  assert (j < 31) as Hj31 by (apply (Z.pow_lt_mono_r_iff 2); lia).
  rewrite (Z.mul_comm (2 ^ j)), <- Z.pow_succ_r by lia.
  rewrite u32_id by (split; [lia|apply Z.pow_lt_mono_r; lia]).
  apply IH; [lia|lia|lia|]. right. by replace (Z.succ j - 1) with j by lia.
Qed.

Lemma round_pool_size_spins n : forall requested size,
  2 ^ 31 < requested -> (size = 0 \/ exists j, 0 <= j <= 31 /\ size = 2 ^ j) ->
  round_pool_size n requested size = None.
Proof.
  induction n as [|n IH]; intros requested size Hr Hs; cbn [round_pool_size];
    (assert (size <= 2 ^ 31) as Hle by (destruct Hs as [->|(j & Hj & ->)]; [lia|apply Z.pow_le_mono_r; lia]));
    rewrite (proj2 (Z.ltb_lt _ _)) by lia; [done|].
  apply IH; [done|]. destruct Hs as [->|(j & Hj & ->)]; [by left|].
  destruct (decide (j = 31)) as [->|]; [by left|]. right. exists (j + 1). split; [lia|].
  rewrite Z.pow_add_r, u32_id by (lia || (split; [lia|]; change (2 ^ j * 2) with (2 ^ j * 2 ^ 1);
    rewrite <- Z.pow_add_r by lia; apply Z.pow_lt_mono_r; lia)). done.
Qed.

Lemma round_partition_count_pow n : forall requested j,
  0 <= j -> j + Z.of_nat n <= 9 -> (j = 0 \/ 2 ^ (j - 1) < requested) ->
  exists k, round_partition_count n requested (2 ^ j) = 2 ^ k /\ j <= k <= j + Z.of_nat n /\
    (requested <= 2 ^ k \/ k = j + Z.of_nat n) /\ (k = 0 \/ 2 ^ (k - 1) < requested).
Proof.
  induction n as [|n IH]; intros requested j Hj Hn Hlow; cbn [round_partition_count].
  - exists j. split; [done|]. split; [lia|]. split; [right; lia|done].
  - destruct (Z.leb_spec requested (2 ^ j)) as [Hle|Hgt].
    + exists j. split; [done|]. split; [lia|]. split; [by left|done].
    + rewrite (Z.mul_comm (2 ^ j)), <- Z.pow_succ_r by lia.
      rewrite u32_id by (split; [lia|apply Z.pow_lt_mono_r; lia]).
      destruct (IH requested (Z.succ j)) as (k & -> & Hk & Hreq & Hlow'); [lia|lia| |].
      { right. by replace (Z.succ j - 1) with j by lia. }
      exists k. split; [done|]. split; [lia|]. split; [|done]. destruct Hreq; [by left|right; lia].
Qed.

(** C32.  The pool size is rounded to the least power of two that covers the request, up to
    2^31, and the rounding loop never ends above it; the partition count is the least
    power of two that covers the request, capped at 512. *)
Theorem pool_sizes requested parts :
  0 <= requested < 2 ^ 32 ->
  (requested <= 2 ^ 31 ->
   exists k, round_pool_size 32 requested 1 = Some (2 ^ k) /\ 0 <= k <= 31 /\ requested <= 2 ^ k /\
     (k = 0 \/ 2 ^ (k - 1) < requested)) /\
  (2 ^ 31 < requested -> forall fuel, round_pool_size fuel requested 1 = None) /\
  exists k, round_partition_count 9 parts 1 = 2 ^ k /\ 0 <= k <= 9 /\
    (parts <= 2 ^ k \/ k = 9) /\ (k = 0 \/ 2 ^ (k - 1) < parts).
Proof.
  intros Hr. split; [|split].
  - intros Hle. apply (round_pool_size_pow 32 requested 0); [lia|done|lia|by left].
  - intros Hgt fuel. apply round_pool_size_spins; [done|]. right. by exists 0.
  - destruct (round_partition_count_pow 9 parts 0) as (k & E & Hk & H); [lia|lia|by left|].
    exists k. split; [exact E|]. split; [lia|exact H].
Qed.

Example pool_sizes_witness :
  (exists k, round_pool_size 32 1000 1 = Some (2 ^ k) /\ 0 <= k <= 31 /\ 1000 <= 2 ^ k /\
     (k = 0 \/ 2 ^ (k - 1) < 1000)) /\
  round_pool_size 100 (2 ^ 31 + 1) 1 = None.
Proof.
  split.
  - apply (pool_sizes 1000 600); lia.
  - apply (pool_sizes (2 ^ 31 + 1) 600); lia.
Defined.

(** ** Taking a descriptor *)

(** The thread's partition, and what choosing it changes. *)
Inductive picks (p me : Z) (e : EpochWorld) (c : gmap Z Z) : Z -> EpochWorld -> gmap Z Z -> Prop :=
| picks_own part :
    tls_get (threads e) (me, tls_part) = tls_ptr_part part -> picks p me e c part e c
| picks_next n count table :
    tls_get (threads e) (me, tls_part) = tls_null ->
    c !! next_partition_ p = Some n -> c !! partition_count_ p = Some count -> count <> 0 ->
    c !! partition_table_ p = Some table ->
    picks p me e c (table + sizeof_DescriptorPartition * (n mod count))
      (set_threads (Thread_RegisterTls me (me, tls_part) tls_null
         (tls_set (me, tls_part) (tls_ptr_part (table + sizeof_DescriptorPartition * (n mod count))) (threads e))) e)
      (<[next_partition_ p := u32 (n + 1)]> c).

Section allocation.
Context {HP : Platform} {HL : PlatformLaws} (me : Z) (fuel : nat) (fuel_pos : (0 < fuel)%nat).
Context (l : gmap Z GarbageList) (mm : MetricsWorld).

Lemma ev_my_partition p e c part e' c' :
  picks p me e c part e' c' -> ev (my_partition me p) (St l e c mm) part (St l e' c' mm).
Proof.
  intros Hp. unfold my_partition. eapply ev_bind; [by apply (ev_zoom_epochs l e c mm (rd _)), run_rd|].
  destruct Hp as [part Ht|n count table Ht Hn Hc H0 Htab]; rewrite Ht; [apply ev_ret|].
  eapply (ev_bind _ _ _ n (St l e (<[next_partition_ p := u32 (n + 1)]> c) mm)).
  { apply ev_zoom. intros pc. exists pc. by rewrite (run_rmw _ _ n). }
  eapply ev_bind; [apply ev_ld; rewrite lookup_insert_ne; [exact Hc|unfold next_partition_, partition_count_; lia]|].
  eapply ev_bind; [apply ev_check, negb_true_iff; by apply Z.eqb_neq|].
  eapply ev_bind; [apply ev_ld; rewrite lookup_insert_ne; [exact Htab|unfold next_partition_, partition_table_; lia]|].
  cbv zeta. eapply ev_bind; [apply ev_zoom_epochs, run_upd|]. eapply ev_bind; [apply ev_zoom_epochs, run_upd|].
  apply ev_ret.
Qed.

Definition taken (part desc next ac fc : Z) (c : gmap Z Z) : gmap Z Z :=
  <[free_callback_ desc := if fc =? 0 then DefaultFreeCallback else fc]>
    (<[allocate_callback_ desc := if ac =? 0 then DefaultAllocateCallback else ac]>
       (<[free_list part := next]> c)).

Lemma ev_AllocateDescriptor p ac fc e c part e' c' desc next :
  metrics_ok me mm -> picks p me e c part e' c' ->
  c' !! free_list part = Some desc -> desc <> 0 -> c' !! next_ptr_ desc = Some next ->
  is_Some (c' !! allocate_callback_ desc) -> is_Some (c' !! free_callback_ desc) ->
  ev (AllocateDescriptor me fuel p ac fc) (St l e c mm) desc
     (St l e' (taken part desc next ac fc c') (bump me DescriptorAlloc mm)).
Proof.
  intros Hm Hp Hd H0 Hn Ha Hf. unfold AllocateDescriptor, taken.
  assert (forall a b v (m : gmap Z Z), is_Some (m !! b) -> is_Some (<[a := v]> m !! b)) as Hins.
  { intros a b v m Hb. destruct (decide (a = b)) as [->|]; [rewrite lookup_insert_eq; by eexists|by rewrite lookup_insert_ne]. }
  eapply ev_bind; [by apply ev_my_partition|]. eapply ev_bind; [by apply ev_ld|].
  eapply ev_bind.
  { apply ev_loop_once; [done|]. rewrite (proj2 (Z.eqb_neq _ _) H0). apply ev_ret. }
  eapply ev_bind; [by apply ev_ld|]. eapply ev_bind; [apply ev_st; by eexists|].
  eapply ev_bind; [by apply ev_metric|].
  eapply ev_bind; [apply ev_check, negb_true_iff; by apply Z.eqb_neq|].
  eapply ev_bind; [apply ev_st; by apply Hins|].
  eapply ev_bind; [apply ev_st; by do 2 apply Hins|]. apply ev_ret.
Qed.
End allocation.

(** C31.  A thread that allocates for the first time is given the next partition round-robin
    and registers it; every allocation from a non-empty free list pops its head,
    installs the callbacks or their defaults, and keeps the thread's partition. *)
Theorem AllocateDescriptor_correct `{PlatformLaws} me fuel p ac fc part e' c' desc next w :
  (0 < fuel)%nat -> metrics_ok me (metrics (client w)) ->
  picks p me (epochs w) (cells (client w)) part e' c' ->
  c' !! free_list part = Some desc -> desc <> 0 -> c' !! next_ptr_ desc = Some next ->
  is_Some (c' !! allocate_callback_ desc) -> is_Some (c' !! free_callback_ desc) ->
  exists w', run (AllocateDescriptor me fuel p ac fc) w = (Done desc, w') /\
    volatile w' = St (lists w) e' (taken part desc next ac fc c') (bump me DescriptorAlloc (metrics (client w))) /\
    tls_get (threads (epochs w')) (me, tls_part) = tls_ptr_part part /\
    picks p me (epochs w') (cells (client w')) part (epochs w') (cells (client w')).
Proof.
  intros Hf Hm Hp Hd H0' Hn Ha Hfc.
  destruct (ev_AllocateDescriptor me fuel Hf (lists w) (metrics (client w)) p ac fc (epochs w) (cells (client w))
    part e' c' desc next Hm Hp Hd H0' Hn Ha Hfc w eq_refl) as (w' & R & E).
  exists w'. split; [done|]. split; [done|].
  assert (epochs w' = e') as -> by (by apply (f_equal epochs) in E).
  assert (tls_get (threads e') (me, tls_part) = tls_ptr_part part) as Ht.
  { destruct Hp as [|n count table]; [done|]. unfold tls_get, set_threads, Thread_RegisterTls, tls_set. cbn.
    by rewrite lookup_insert_eq. }
  split; [done|]. by apply picks_own.
Qed.

(** Thread 5 takes its first descriptor from a pool at 512 whose next partition is the
    second of two. *)
Definition pool_cells : gmap Z Z :=
  list_to_map [(partition_count_ 512, 2); (partition_table_ 512, 4096); (next_partition_ 512, 3);
    (free_list 4096, 0); (free_list 4160, 1280); (next_ptr_ 1280, 1024);
    (allocate_callback_ 1280, 0); (free_callback_ 1280, 0)].

Example AllocateDescriptor_correct_witness :
  let w := MkGW ∅ sample_epochs (MkMem pool_cells ∅ metrics_off) in
  exists w', run (AllocateDescriptor 5 1 512 0 0) w = (Done 1280, w') /\
    tls_get (threads (epochs w')) (5, tls_part) = tls_ptr_part 4160.
Proof.
  intros w.
  destruct (AllocateDescriptor_correct 5 1 512 0 0 4160
    (set_threads (Thread_RegisterTls 5 (5, tls_part) tls_null
       (tls_set (5, tls_part) (tls_ptr_part 4160) (threads sample_epochs))) sample_epochs)
    (<[next_partition_ 512 := 4]> pool_cells) 1280 1024 w) as (w' & R & _ & Ht & _).
  - lia.
  - by left.
  - apply (picks_next 512 5 sample_epochs pool_cells 3 2 4096); by vm_compute.
  - by vm_compute.
  - done.
  - by vm_compute.
  - vm_compute. by eexists.
  - vm_compute. by eexists.
  - exists w'. split; [exact R|exact Ht].
Defined.
