(* ===== verification/DList.v ===== *)
(** * Doubly linked lists (src/double-linked-list/doubly_linked_list.{h,cc})

    Two lock-free lists with sentinels: [CASDList] with single-word CAS, deletion marks
    and repair of the backward pointers (Sundell and Tsigas), and [MwCASDList], whose
    updates are multi-word CAS operations.  [pmem] selects the PMEM build.  Nodes and
    the list object are cells at their C++ offsets. *)
From Stdlib Require Import ZArith Lia.
From stdpp Require Import base list gmap strings.
From S2P Require Import Prelude Bytes Prog Status Hash Library Epoch Garbage Metrics Memory Descriptor MwCAS Target Pool.
#[local] Open Scope Z_scope.
#[local] Open Scope machine_scope.
#[local] Open Scope prog_scope.

(** ** Layout *)

(** A [DListNode] at [n]: a cache line, then the payload. *)
Definition sizeof_DListNode : Z := 64.
Definition node_prev (n : Z) : Z := n.
Definition node_next (n : Z) : Z := n + 8.
Definition node_payload_size (n : Z) : Z := n + 16.
Definition GetPayload (n : Z) : Z := n + sizeof_DListNode.

Definition kSyncUnknown : Z := 0.
Definition kSyncMwCAS : Z := 1.
Definition kSyncCAS : Z := 2.

(** An [IDList] at [L], after its virtual table. *)
Definition list_head (L : Z) : Z := L + 8.
Definition list_tail (L : Z) : Z := L + 72.
Definition sync_method_ (L : Z) : Z := L + 136.

(** [CASDList::rng]. *)
Definition list_rng (L : Z) : list Z := [L + 140; L + 144; L + 148; L + 152; L + 156].
(** [MwCASDList::descriptor_pool_]. *)
Definition descriptor_pool_ (L : Z) : Z := L + 144.

Definition kNodeDeleted : Z := 2 ^ 60.

(** A new object's field. *)
Definition mem_construct (a v : Z) : prog Mem unit := upd (fun s => set_cells (<[a := v]> (cells s)) s).

Definition DListNode_new (n p nx size : Z) : prog Mem unit :=
  mem_construct (node_prev n) p ;;;
  mem_construct (node_next n) nx ;;;
  mem_construct (node_payload_size n) size.

(** [IDList::NewNode]; [node] is what the allocator returned. *)
Definition NewNode (node p nx payload_size : Z) : prog Mem Z :=
  check (negb (node =? 0)) "constructing at a null address" ;;;
  DListNode_new node p nx payload_size ;;;
  Ret node.

Definition IDList_new (L sync : Z) : prog Mem unit :=
  DListNode_new (list_head L) 0 (list_tail L) 0 ;;;
  DListNode_new (list_tail L) (list_head L) 0 0 ;;;
  mem_construct (sync_method_ L) sync.

Definition GetSyncMethod (L : Z) : prog Mem Z := load (sync_method_ L).

Section platform.
Context `{Platform} (pmem : bool) (fuel : nat).

(** In a PMEM build only. *)
Definition when_pmem (p : prog Mem unit) : prog Mem unit := if pmem then p else Ret tt.
Definition set_dirty (v : Z) : Z := if pmem then v .| kDirtyFlag else v.
Definition not_dirty (v : Z) (msg : string) : prog Mem unit :=
  when_pmem (check (negb (has v kDirtyFlag)) msg).

(** [~kDirtyFlag] applied in place. *)
Definition clean_link (a : Z) : prog Mem unit :=
  let! v := load a in store a (clear v kDirtyFlag).

Definition SingleThreadSanityCheck (L : Z) : prog Mem unit :=
  let head := list_head L in
  let tail := list_tail L in
  let! v := load (node_prev head) in
  check (v =? 0) "head.prev doesn't point to null" ;;;
  let! v := load (node_next head) in
  check (negb (v =? 0)) "head.next is null" ;;;
  let! v := load (node_prev tail) in
  check (negb (v =? 0)) "tail.prev is null" ;;;
  let! v := load (node_next tail) in
  check (v =? 0) "tail.next doesn't point to null" ;;;
  when_pmem (clean_link (node_next head)) ;;;
  let! node := load (node_next head) in
  loop fuel (fun '(prev, node) =>
    when_pmem (clean_link (node_next node) ;;; clean_link (node_prev node)) ;;;
    check (negb (node =? 0)) "null dlist node" ;;;
    let! v := load (node_next prev) in
    check (v =? node) "node.prev doesn't match prev.next" ;;;
    let! v := load (node_prev node) in
    check (v =? prev) "node.prev doesn't match prev.next" ;;;
    let! node' := load (node_next node) in
    if node' =? 0 then Ret (inr tt) else
    let! v := load (node_next node') in
    if v =? tail then Ret (inr tt) else Ret (inl (node, node'))) (head, node).

(** ** CASDList *)

(** [CASDList::CASDList]; [rdtsc] is the clock's reading, [rd] what [std::random_device]
    would give for a zero seed. *)
Definition CASDList_new (L rdtsc rd : Z) : prog Mem unit :=
  IDList_new L kSyncCAS ;;;
  let g := RandomNumberGenerator_new rd (u32 rdtsc) 500 in
  for_list (zip (list_rng L) [max_ g; x_ g; y_ g; z_ g; w_ g])
    (fun '(a, v) (_ : unit) => mem_construct a v) tt.

Definition marked_deleted (v : Z) : bool := has v kNodeDeleted.

(** [backoff]: a draw from the list's generator, then that many turns of nothing. *)
Definition backoff (L : Z) : prog Mem unit :=
  let! v := for_list (list_rng L) (fun a vs => let! v := load a in Ret (vs ++ [v])) [] in
  match v with
  | [mx; x; y; z; w] =>
      let g := (Rng_Generate_max (MkRng mx x y z w) 500).2 in
      store (L + 144) (x_ g) ;;; store (L + 148) (y_ g) ;;; store (L + 152) (z_ g) ;;; store (L + 156) (w_ g)
  | _ => Ret tt
  end.

Definition MarkNodePointer (L a : Z) : prog Mem unit :=
  let flags := set_dirty kNodeDeleted in
  loop fuel (fun _ : unit =>
    let! node_ptr := load a in
    check (negb (a =? node_next (list_head L))) "cannot mark head node's next pointer" ;;;
    if marked_deleted node_ptr then Ret (inr tt) else
    let! r := CompareExchange64Ptr a (node_ptr .| flags) node_ptr in
    if node_ptr =? r then Ret (inr tt) else Ret (inl tt)) tt.

Definition ReadPersist (a : Z) : prog Mem Z :=
  let! node_ptr := load a in
  if pmem then
    (if has node_ptr kDirtyFlag
     then NVRAM_Flush 8 a ;;; CompareExchange64Ptr a (clear node_ptr kDirtyFlag) node_ptr ;;; Ret tt
     else Ret tt) ;;;
    Ret (clear node_ptr kDirtyFlag)
  else Ret node_ptr.

Definition DereferenceNodePointer (a : Z) : prog Mem Z :=
  let! ret := ReadPersist a in Ret (clear ret kNodeDeleted).

Definition MarkedNext (node : Z) : prog Mem bool :=
  let! v := load (node_next node) in Ret (marked_deleted v).
Definition MarkedPrev (node : Z) : prog Mem bool :=
  let! v := load (node_prev node) in Ret (marked_deleted v).

(** One turn of the loop of [GetNext], at a node other than the tail. *)
Definition CAS_GetNext_try (L node : Z) : prog Mem (Z + Z) :=
  check (negb (node =? 0)) "null current node" ;;;
  let! next := DereferenceNodePointer (node_next node) in
  check (negb (next =? 0)) "null next pointer in list" ;;;
  not_dirty next "dirty pointer" ;;;
  let! next_next := ReadPersist (node_next next) in
  let! unlinked :=
    (if marked_deleted next_next then
       let! my_next := ReadPersist (node_next node) in
       if negb (my_next =? next .| kNodeDeleted) then
         MarkNodePointer L (node_prev next) ;;;
         CompareExchange64Ptr (node_next node) (clear (set_dirty next_next) kNodeDeleted) next ;;;
         Ret true
       else Ret false
     else Ret false) in
  if unlinked : bool then Ret (inl node)
  else if marked_deleted next_next then Ret (inl next) else Ret (inr next).

Definition CAS_GetNext (L node : Z) : prog Mem Z :=
  loop fuel (fun node => if node =? list_tail L then Ret (inr 0) else CAS_GetNext_try L node) node.

(** One turn of the loop of [CorrectPrev], on [prev] and [last_link]. *)
Definition CorrectPrev_try (L node : Z) (st : Z * Z) : prog Mem (Z * Z + Z) :=
  let '(prev, last_link) := st in
  let! link1 := ReadPersist (node_prev node) in
  if marked_deleted link1 then Ret (inr prev) else
  let prev_cleared := clear prev kNodeDeleted in
  let! prev_next := ReadPersist (node_next prev_cleared) in
  if marked_deleted prev_next then
    if negb (last_link =? 0) then
      MarkNodePointer L (node_prev prev_cleared) ;;;
      CompareExchange64Ptr (node_next last_link) (set_dirty (clear prev_next kNodeDeleted)) prev ;;;
      Ret (inl (last_link, 0))
    else
      let! prev_next := ReadPersist (node_prev prev_cleared) in
      check (negb (prev_next =? 0)) "invalid prev pointer" ;;;
      Ret (inl (prev_next, last_link))
  else
    check (negb (marked_deleted prev_next)) "invalid next field in predecessor" ;;;
    if negb (prev_next =? node) then Ret (inl (prev_next, prev_cleared)) else
    let p := set_dirty (clear prev kNodeDeleted) in
    let! r := CompareExchange64Ptr (node_prev node) p link1 in
    if link1 =? r then
      let! prev_cleared_prev := ReadPersist (node_prev prev_cleared) in
      if marked_deleted prev_cleared_prev then Ret (inl (prev, last_link)) else Ret (inr prev)
    else backoff L ;;; Ret (inl (prev, last_link)).

Definition CorrectPrev (L prev node : Z) : prog Mem Z :=
  check (negb (marked_deleted node)) "node has deleted mark" ;;;
  not_dirty node "dirty node pointer" ;;;
  let! prev := loop fuel (CorrectPrev_try L node) (prev, 0) in
  not_dirty prev "dirty prev pointer" ;;;
  Ret prev.

Definition CAS_GetPrev (L node : Z) : prog Mem Z :=
  loop fuel (fun node =>
    if node =? list_head L then Ret (inr 0) else
    check (negb (node =? 0)) "null current node" ;;;
    let! prev := DereferenceNodePointer (node_prev node) in
    check (negb (prev =? 0)) "null prev pointer in list" ;;;
    not_dirty prev "dirty pointer" ;;;
    let! prev_next := ReadPersist (node_next prev) in
    let! next := ReadPersist (node_next node) in
    if (prev_next =? node) && negb (marked_deleted next) then Ret (inr prev)
    else if marked_deleted next then let! node := CAS_GetNext L node in Ret (inl node)
    else CorrectPrev L prev node ;;; Ret (inl node)) node.

Definition flush_payload (node : Z) : prog Mem unit :=
  when_pmem (let! n := load (node_payload_size node) in NVRAM_Flush n (GetPayload node)).
Definition flush_links (node : Z) : prog Mem unit := when_pmem (NVRAM_Flush 16 (node_prev node)).

(** Marking [node]'s backward pointer, once its forward pointer is marked. *)
Definition mark_prev (node : Z) : prog Mem Z :=
  loop fuel (fun _ : unit =>
    let! v := ReadPersist (node_prev node) in
    if marked_deleted v then Ret (inr v) else
    let! r := CompareExchange64Ptr (node_prev node) (set_dirty (v .| kNodeDeleted)) v in
    if v =? r then Ret (inr v) else Ret (inl tt)) tt.

Definition CAS_Delete (L node : Z) : prog Mem Status :=
  not_dirty node "dirty node pointer" ;;;
  if (node =? list_head L) || (node =? list_tail L) then
    let! v := load (node_next node) in
    check (negb (marked_deleted v)) "invalid next pointer" ;;;
    let! v := load (node_prev node) in
    check (negb (marked_deleted v)) "invalid next pointer" ;;;
    Ret Status_OK
  else
    loop fuel (fun _ : unit =>
      let! next := ReadPersist (node_next node) in
      if marked_deleted next then Ret (inr Status_OK) else
      let! r := CompareExchange64Ptr (node_next node) (set_dirty (next .| kNodeDeleted)) next in
      if r =? next then
        let! prev := mark_prev node in
        check (negb (prev =? 0)) "invalid node_prev pointer" ;;;
        let! v := load (node_next (list_head L)) in
        check (negb (marked_deleted v)) "invalid next pointer" ;;;
        CorrectPrev L (clear prev kNodeDeleted) next ;;;
        Ret (inr Status_OK)
      else Ret (inl tt)) tt.

(** One turn of the loop of [InsertBefore]; [inr] when [node] is installed. *)
Definition CAS_InsertBefore_try (L node next : Z) : prog Mem (Z + Z * Z) :=
  let! prev := DereferenceNodePointer (node_prev next) in
  let! next_next := ReadPersist (node_next next) in
  if marked_deleted next_next then
    let! next := CAS_GetNext L next in
    not_dirty next "dirty next pointer" ;;;
    let! prev := CorrectPrev L prev next in
    not_dirty prev "dirty prev pointer" ;;;
    Ret (inl next)
  else
    store (node_prev node) (clear prev kNodeDeleted) ;;;
    store (node_next node) (clear next kNodeDeleted) ;;;
    flush_links node ;;;
    let expected := clear next kNodeDeleted in
    let! r := CompareExchange64Ptr (node_next prev) node expected in
    if expected =? r then Ret (inr (prev, next))
    else CorrectPrev L prev next ;;; backoff L ;;; Ret (inl next).

(** One turn of the loop of [InsertAfter]: the old successor, or [None] when [prev] is
    deleted. *)
Definition CAS_InsertAfter_try (L prev node : Z) (_ : unit) : prog Mem (unit + option Z) :=
  let! prev_next := ReadPersist (node_next prev) in
  store (node_prev node) (clear prev kNodeDeleted) ;;;
  store (node_next node) (clear prev_next kNodeDeleted) ;;;
  flush_links node ;;;
  let expected := clear prev_next kNodeDeleted in
  let! r := CompareExchange64Ptr (node_next prev) node expected in
  if expected =? r then Ret (inr (Some prev_next))
  else if marked_deleted prev_next then Ret (inr None)
  else backoff L ;;; Ret (inl tt).

(** The two insertions call each other; [depth] bounds the calls. *)
Fixpoint CAS_InsertBefore (depth : nat) (L next node : Z) : prog Mem Status :=
  check (negb (marked_deleted next)) "invalid next pointer state" ;;;
  not_dirty node "dirty node pointer" ;;;
  not_dirty next "dirty next pointer" ;;;
  if next =? list_head L then
    match depth with O => Stuck | S depth => CAS_InsertAfter depth L next node end
  else
    flush_payload node ;;;
    let! r := loop fuel (CAS_InsertBefore_try L node) next in
    let '(prev, next) := r in
    check (negb (prev =? 0)) "invalid prev pointer" ;;;
    CorrectPrev L prev next ;;;
    Ret Status_OK
with CAS_InsertAfter (depth : nat) (L prev node : Z) : prog Mem Status :=
  check (negb (marked_deleted prev)) "invalid prev pointer state" ;;;
  not_dirty node "dirty node pointer" ;;;
  not_dirty prev "dirty next pointer" ;;;
  if prev =? list_tail L then
    match depth with O => Stuck | S depth => CAS_InsertBefore depth L prev node end
  else
    flush_payload node ;;;
    let! r := loop fuel (CAS_InsertAfter_try L prev node) tt in
    match r with
    | None =>
        CAS_Delete L node ;;;
        match depth with O => Stuck | S depth => CAS_InsertBefore depth L prev node end
    | Some prev_next =>
        check (negb (prev_next =? 0)) "invalid prev_next pointer" ;;;
        CorrectPrev L prev prev_next ;;;
        Ret Status_OK
    end.
End platform.

(** ** MwCASDList *)

Section mwcas_list.
Context `{Platform} (me : Z) (fuel depth : nat) (pmem : bool).

Definition world_mem {A} (p : prog Mem A) : prog World A := zoom p.
Definition marked (v : Z) : bool := marked_deleted v.

Definition MwCASDList_new (L pool : Z) : prog World unit :=
  world_mem (IDList_new L kSyncMwCAS ;;; mem_construct (descriptor_pool_ L) pool).

Definition MwCASDList_GetEpoch (L : Z) : prog World Z :=
  let! p := ld (descriptor_pool_ L) in Ret (DescriptorPool_GetEpoch p).

Definition ResolveNodePointer (L a : Z) (already_protected : bool) : prog World Z :=
  if already_protected then GetValueProtected me fuel depth pmem a
  else let! m := MwCASDList_GetEpoch L in GetValue me fuel depth pmem a m.

Definition Mw_GetNext (L node : Z) (already_protected : bool) : prog World Z :=
  let node := clear node kNodeDeleted in
  let! next := ResolveNodePointer L (node_next node) already_protected in
  Ret (clear next kNodeDeleted).

Definition Mw_GetPrev (L node : Z) (already_protected : bool) : prog World Z :=
  let node := clear node kNodeDeleted in
  let! prev := ResolveNodePointer L (node_prev node) already_protected in
  Ret (clear prev kNodeDeleted).

(** [EpochGuard guard(GetEpoch(), protect)] around a body. *)
Definition with_guard {A} (L : Z) (protect : bool) (p : prog World A) : prog World A :=
  let! m := MwCASDList_GetEpoch L in
  let! g := zoom (EpochGuard_attach me fuel m protect) in
  let! v := p in
  zoom (EpochGuard_delete me fuel g) ;;;
  Ret v.

(** A new descriptor from the list's pool. *)
Definition new_descriptor (L : Z) : prog World Z :=
  let! p := ld (descriptor_pool_ L) in AllocateDescriptor_default me fuel p.
Definition add_entry (d addr oldval newval : Z) : prog World unit :=
  AddEntry me fuel d addr oldval newval kRecycleNever ;;; Ret tt.

(** [node] gets its links, before anyone can see it. *)
Definition set_links (node prev next : Z) : prog World unit :=
  st (node_next node) next ;;;
  st (node_prev node) prev ;;;
  world_mem (flush_links pmem node).

Definition Mw_InsertBefore_try (L node next : Z) : prog World (Z + Status) :=
  check (negb (marked next)) "invalid prev pointer" ;;;
  let! prev := ResolveNodePointer L (node_prev next) true in
  let! next_next := ResolveNodePointer L (node_next next) true in
  if marked prev || marked next_next then
    let! next := Mw_GetNext L next true in Ret (inl next)
  else
    let! prev_next := ResolveNodePointer L (node_next prev) true in
    if marked prev_next then Ret (inl next) else
    set_links node prev next ;;;
    check (IsCleanPtr prev) "prev is not normal value" ;;;
    check (IsCleanPtr next) "next is not normal value" ;;;
    let! desc := new_descriptor L in
    check (negb (desc =? 0)) "null MwCAS descriptor" ;;;
    let! p := ld (node_prev node) in
    let! n := ld (node_next node) in
    add_entry desc (node_next p) n node ;;;
    let! p := ld (node_prev node) in
    add_entry desc (node_prev next) p node ;;;
    let! ok := MwCAS me fuel pmem depth desc in
    if ok : bool then Ret (inr Status_OK) else Ret (inl next).

Definition Mw_InsertAfter_try (L node prev : Z) : prog World (Z + Status) :=
  check (negb (marked prev)) "invalid prev pointer" ;;;
  let! next := ResolveNodePointer L (node_next prev) true in
  if marked next then
    let! prev := Mw_GetPrev L prev true in Ret (inl prev)
  else
    let! next_next := ResolveNodePointer L (node_next next) true in
    if marked next_next then Ret (inl prev) else
    check (negb (marked next)) "deleted prev node" ;;;
    check (IsCleanPtr prev) "next is not normal value" ;;;
    check (IsCleanPtr next) "next is not normal value" ;;;
    st (node_prev node) prev ;;;
    st (node_next node) next ;;;
    world_mem (flush_links pmem node) ;;;
    let! desc := new_descriptor L in
    check (negb (desc =? 0)) "null descriptor pointer" ;;;
    let! n := ld (node_next node) in
    add_entry desc (node_next prev) n node ;;;
    let! n := ld (node_next node) in
    let! p := ld (node_prev node) in
    add_entry desc (node_prev n) p node ;;;
    let! ok := MwCAS me fuel pmem depth desc in
    if ok : bool then Ret (inr Status_OK) else Ret (inl prev).

Definition Mw_InsertBefore_loop (L next node : Z) (already_protected : bool) : prog World Status :=
  with_guard L (negb already_protected)
    (world_mem (flush_payload pmem node) ;;; loop fuel (Mw_InsertBefore_try L node) next).
Definition Mw_InsertAfter_loop (L prev node : Z) (already_protected : bool) : prog World Status :=
  with_guard L (negb already_protected)
    (world_mem (flush_payload pmem node) ;;; loop fuel (Mw_InsertAfter_try L node) prev).

(** The sentinels differ, so each insertion calls the other at most once. *)
Definition Mw_InsertBefore (L next node : Z) (already_protected : bool) : prog World Status :=
  if next =? list_head L then Mw_InsertAfter_loop L next node already_protected
  else Mw_InsertBefore_loop L next node already_protected.
Definition Mw_InsertAfter (L prev node : Z) (already_protected : bool) : prog World Status :=
  if prev =? list_tail L then Mw_InsertBefore_loop L prev node already_protected
  else Mw_InsertAfter_loop L prev node already_protected.

(** One turn of [while((node->next & kNodeDeleted) == 0)]. *)
Definition Mw_Delete_try (L node : Z) (_ : unit) : prog World (unit + Status) :=
  let! v := ld (node_next node) in
  if marked v then Ret (inr Status_OK) else
  if (node =? list_head L) || (node =? list_tail L) then
    let! v := ld (node_next node) in
    check (negb (marked v)) "invalid next pointer" ;;;
    let! v := ld (node_prev node) in
    check (negb (marked v)) "invalid next pointer" ;;;
    Ret (inr Status_OK)
  else
    let! prev := ResolveNodePointer L (node_prev node) true in
    let! next := ResolveNodePointer L (node_next node) true in
    let! v := ld (node_next prev) in
    if negb (v =? node) then Ret (inl tt) else
    let! v := ld (node_prev next) in
    if negb (v =? node) then Ret (inl tt) else
    let! desc := new_descriptor L in
    check (negb (desc =? 0)) "null MwCAS descriptor" ;;;
    add_entry desc (node_next prev) node next ;;;
    add_entry desc (node_prev next) node prev ;;;
    add_entry desc (node_next node) next (next .| kNodeDeleted) ;;;
    let! ok := MwCAS me fuel pmem depth desc in
    if ok : bool then Ret (inr Status_OK) else Ret (inl tt).

Definition Mw_Delete (L node : Z) (already_protected : bool) : prog World Status :=
  with_guard L (negb already_protected) (loop fuel (Mw_Delete_try L node) tt).

(** ** DListCursor, over either list *)

Record DListCursor := MkCursor { list_ : Z; current_node_ : Z; unprot : bool }.

Definition list_GetNext (L node : Z) (already_protected : bool) : prog World Z :=
  let! s := world_mem (GetSyncMethod L) in
  if s =? kSyncMwCAS then Mw_GetNext L node already_protected
  else world_mem (CAS_GetNext pmem fuel L node).
Definition list_GetPrev (L node : Z) (already_protected : bool) : prog World Z :=
  let! s := world_mem (GetSyncMethod L) in
  if s =? kSyncMwCAS then Mw_GetPrev L node already_protected
  else world_mem (CAS_GetPrev pmem fuel L node).

(** For a [CASDList] the constructor leaves [unprot] unset and nothing looks at it. *)
Definition DListCursor_new (L : Z) : prog World DListCursor :=
  let! s := world_mem (GetSyncMethod L) in
  if s =? kSyncMwCAS then
    let! m := MwCASDList_GetEpoch L in
    let! b := zoom (IsProtected me fuel m) in
    (if negb b then zoom (Protect me fuel m) ;;; Ret tt else Ret tt) ;;;
    Ret (MkCursor L (list_head L) (negb b))
  else Ret (MkCursor L (list_head L) false).

Definition DListCursor_delete (k : DListCursor) : prog World unit :=
  if unprot k then
    let! s := world_mem (GetSyncMethod (list_ k)) in
    if s =? kSyncMwCAS then
      let! m := MwCASDList_GetEpoch (list_ k) in zoom (Unprotect me fuel m) ;;; Ret tt
    else Ret tt
  else Ret tt.

Definition DListCursor_Reset (k : DListCursor) : DListCursor :=
  MkCursor (list_ k) (list_head (list_ k)) (unprot k).
Definition DListCursor_Next (k : DListCursor) : prog World (Z * DListCursor) :=
  let! n := list_GetNext (list_ k) (current_node_ k) true in
  Ret (n, MkCursor (list_ k) n (unprot k)).
Definition DListCursor_Prev (k : DListCursor) : prog World (Z * DListCursor) :=
  let! n := list_GetPrev (list_ k) (current_node_ k) true in
  Ret (n, MkCursor (list_ k) n (unprot k)).
End mwcas_list.
