(* ===== verification/Chain.v ===== *)
(** * Chains of list nodes

    The pairs of neighbours in a list of nodes between its sentinels, what insertion and
    deletion do to these pairs, and what a chain says of the link fields; for both lists of
    DList.v. *)
From Stdlib Require Import ZArith Lia.
From stdpp Require Import base list gmap.
From S2P Require Import Prelude DList.
#[local] Open Scope Z_scope.
#[local] Open Scope machine_scope.

Definition adjacent (xs : list Z) (a b : Z) : Prop := exists ys zs, xs = ys ++ a :: b :: zs.

Definition links (c : gmap Z Z) (xs : list Z) : Prop :=
  forall a b, adjacent xs a b -> c !! node_next a = Some b /\ c !! node_prev b = Some a.

Definition whole_list (L : Z) (mid : list Z) : list Z := list_head L :: mid ++ [list_tail L].

(** The neighbours of the place between [mid1] and [mid2]. *)
Definition before (L : Z) (mid1 : list Z) : Z := default (list_head L) (last mid1).

Definition after (L : Z) (mid2 : list Z) : Z := default (list_tail L) (head mid2).

Ltac node_cells := unfold node_prev, node_next in *; lia.

Lemma in_list_next xs a : a ∈ xs -> (exists b, adjacent xs a b) \/ exists ys, xs = ys ++ [a].
Proof.
  intros (ys & zs & ->)%list_elem_of_split. destruct zs as [|b zs]; [right; by exists ys|left].
  by exists b, ys, zs.
Qed.

Lemma in_list_prev xs b : b ∈ xs -> (exists a, adjacent xs a b) \/ exists zs, xs = b :: zs.
Proof.
  intros (ys & zs & ->)%list_elem_of_split. destruct ys as [|a ys _] using rev_ind; [right; by exists zs|left].
  exists a, ys, zs. by rewrite <- app_assoc.
Qed.

Lemma adjacent_in xs a b : adjacent xs a b -> a ∈ xs /\ b ∈ xs.
Proof. intros (ys & zs & ->). split; apply elem_of_app; right; [left|right; left]. Qed.

(** Neighbours by position, and after an insertion. *)
Lemma adjacent_lookup xs a b : adjacent xs a b <-> exists n, xs !! n = Some a /\ xs !! S n = Some b.
Proof.
  split.
  - intros (ys & zs & ->). exists (length ys). rewrite !lookup_app_r by lia.
    by rewrite Nat.sub_diag, Nat.sub_succ_l, Nat.sub_diag by lia.
  - intros (n & Ha & Hb). exists (take n xs), (drop (S (S n)) xs).
    by rewrite <- (drop_S _ _ _ Hb), <- (drop_S _ _ _ Ha), take_drop.
Qed.

Lemma adjacent_insert ys zs prev next node a b :
  adjacent (ys ++ prev :: node :: next :: zs) a b ->
  (a = prev /\ b = node) \/ (a = node /\ b = next) \/
  (adjacent (ys ++ [prev]) a b \/ adjacent (next :: zs) a b).
Proof.
  intros (n & Ha & Hb)%adjacent_lookup.
  destruct (decide (S n <= length ys)%nat) as [Hn|Hn].
  - right; right; left. apply adjacent_lookup. exists n.
    change (prev :: node :: next :: zs) with ([prev] ++ node :: next :: zs) in Ha, Hb. rewrite app_assoc in Ha, Hb.
    rewrite lookup_app_l in Ha, Hb by (rewrite length_app; simpl; lia). done.
  - rewrite lookup_app_r in Ha, Hb by lia.
    destruct (n - length ys)%nat as [|[|n']] eqn:E; replace (S n - length ys)%nat with (S (n - length ys)) in Hb by lia;
      rewrite E in Hb; simpl in Ha, Hb; [left; by simplify_eq|right; left; by simplify_eq|].
    right; right; right. apply adjacent_lookup. by exists n'.
Qed.

Lemma adjacent_app_l xs ys a b : adjacent xs a b -> adjacent (xs ++ ys) a b.
Proof. intros (us & vs & ->). exists us, (vs ++ ys). by rewrite <- app_assoc. Qed.

Lemma adjacent_app_r xs ys a b : adjacent ys a b -> adjacent (xs ++ ys) a b.
Proof. intros (us & vs & ->). exists (xs ++ us), vs. by rewrite <- app_assoc. Qed.

(** In a list without repetition the left neighbour of a pair's first is unlike ... *)
Lemma adjacent_left_ne ys prev a b : NoDup (ys ++ [prev]) -> adjacent (ys ++ [prev]) a b -> a <> prev.
Proof.
  intros Hnd (us & vs & E) ->. rewrite E in Hnd. destruct vs as [|v vs _] using rev_ind.
  - replace (us ++ [prev; b]) with ((us ++ [prev]) ++ [b]) in * by (by rewrite <- app_assoc).
    apply app_inj_tail in E as [_ <-]. apply NoDup_app in Hnd as (_ & H & _).
    apply (H prev); [set_solver|left].
  - replace (us ++ prev :: b :: vs ++ [v]) with ((us ++ prev :: b :: vs) ++ [v]) in * by (by rewrite <- app_assoc).
    apply app_inj_tail in E as [_ <-]. apply NoDup_app in Hnd as (_ & H & _).
    apply (H prev); [set_solver|left].
Qed.

Lemma adjacent_right_ne next zs a b : NoDup (next :: zs) -> adjacent (next :: zs) a b -> b <> next.
Proof.
  intros [Hn _]%NoDup_cons (us & vs & E) ->. destruct us as [|u us]; simplify_eq/=; apply Hn; set_solver.
Qed.

Lemma adjacent_insert_nodup ys zs prev next node a b :
  NoDup (ys ++ prev :: next :: zs) -> adjacent (ys ++ prev :: node :: next :: zs) a b ->
  (a = prev /\ b = node) \/ (a = node /\ b = next) \/
  (adjacent (ys ++ prev :: next :: zs) a b /\ a <> prev /\ b <> next).
Proof.
  intros Hnd Hadj. replace (ys ++ prev :: next :: zs) with ((ys ++ [prev]) ++ next :: zs) in * by (by rewrite <- app_assoc).
  apply NoDup_app in Hnd as (Hnd1 & Hdis & Hnd2).
  destruct (adjacent_insert ys zs prev next node a b Hadj) as [?|[?|[Hab|Hab]]]; [by left|by right; left|right; right..].
  - split; [by apply adjacent_app_l|]. split; [by eapply adjacent_left_ne|].
    intros ->. apply (Hdis next); [by apply (adjacent_in _ _ _ Hab)|left].
  - split; [by apply adjacent_app_r|]. split; [|by eapply adjacent_right_ne].
    intros ->. apply (Hdis prev); [set_solver|by apply (adjacent_in _ _ _ Hab)].
Qed.

Lemma adjacent_join ys zs prev next a b :
  adjacent (ys ++ prev :: next :: zs) a b ->
  (a = prev /\ b = next) \/ adjacent (ys ++ [prev]) a b \/ adjacent (next :: zs) a b.
Proof.
  intros (n & Ha & Hb)%adjacent_lookup. destruct (decide (S n <= length ys)%nat) as [Hn|Hn].
  - right; left. apply adjacent_lookup. exists n.
    change (prev :: next :: zs) with ([prev] ++ next :: zs) in Ha, Hb. rewrite app_assoc in Ha, Hb.
    rewrite lookup_app_l in Ha, Hb by (rewrite length_app; simpl; lia). done.
  - rewrite lookup_app_r in Ha, Hb by lia.
    destruct (n - length ys)%nat as [|n'] eqn:E; replace (S n - length ys)%nat with (S (n - length ys)) in Hb by lia;
      rewrite E in Hb; simpl in Ha, Hb; [left; by simplify_eq|].
    right; right. apply adjacent_lookup. by exists n'.
Qed.

Lemma adjacent_join_nodup ys zs prev next a b :
  NoDup (ys ++ prev :: next :: zs) -> adjacent (ys ++ prev :: next :: zs) a b ->
  (a = prev /\ b = next) \/ (a <> prev /\ b <> next /\ (adjacent (ys ++ [prev]) a b \/ adjacent (next :: zs) a b)).
Proof.
  intros Hnd Hadj. replace (ys ++ prev :: next :: zs) with ((ys ++ [prev]) ++ next :: zs) in Hnd by (by rewrite <- app_assoc).
  apply NoDup_app in Hnd as (Hnd1 & Hdis & Hnd2).
  destruct (adjacent_join ys zs prev next a b Hadj) as [?|[Hab|Hab]]; [by left|right; split_and!; auto..].
  - by eapply adjacent_left_ne.
  - intros ->. apply (Hdis next); [by apply (adjacent_in _ _ _ Hab)|left].
  - intros ->. apply (Hdis prev); [set_solver|by apply (adjacent_in _ _ _ Hab)].
  - by eapply adjacent_right_ne.
Qed.

Lemma next_not_prev : node_next <> node_prev.
Proof. intros E. apply (f_equal (fun f => f 0)) in E. done. Qed.

Lemma ends_in L mid : list_head L ∈ whole_list L mid /\ list_tail L ∈ whole_list L mid.
Proof.
  split; [left|]. apply elem_of_cons. right. apply elem_of_app. right. left.
Qed.

(** The sentinels are at the ends. *)
Lemma ends_apart L mid ys zs prev next :
  NoDup (whole_list L mid) -> whole_list L mid = ys ++ prev :: next :: zs -> list_head L <> next /\ list_tail L <> prev.
Proof.
  intros Hnd E. rewrite E in Hnd. unfold whole_list in E. split; intros Eq.
  - destruct ys as [|y ys]; simplify_eq/=; apply NoDup_cons in Hnd as [Hnd _]; apply Hnd; set_solver.
  - destruct zs as [|z zs _] using rev_ind.
    + replace (ys ++ [prev; next]) with ((ys ++ [prev]) ++ [next]) in * by (by rewrite <- app_assoc).
      rewrite app_comm_cons in E. apply app_inj_tail in E as [_ E]. subst.
      apply NoDup_app in Hnd as (_ & Hdis & _). apply (Hdis (list_tail L)); [set_solver|left].
    + replace (ys ++ prev :: next :: zs ++ [z]) with ((ys ++ prev :: next :: zs) ++ [z]) in * by (by rewrite <- app_assoc).
      rewrite app_comm_cons in E. apply app_inj_tail in E as [_ E]. subst.
      apply NoDup_app in Hnd as (_ & Hdis & _). apply (Hdis (list_tail L)); [set_solver|left].
Qed.

Lemma split_place L mid1 mid2 node :
  exists ys zs, whole_list L (mid1 ++ mid2) = ys ++ before L mid1 :: after L mid2 :: zs /\
    whole_list L (mid1 ++ node :: mid2) = ys ++ before L mid1 :: node :: after L mid2 :: zs.
Proof.
  assert (exists ys, list_head L :: mid1 = ys ++ [before L mid1]) as [ys Hys].
  { unfold before. destruct mid1 as [|x mid1 _] using rev_ind; [by exists []|].
    exists (list_head L :: mid1). by rewrite last_snoc. }
  assert (exists zs, mid2 ++ [list_tail L] = after L mid2 :: zs) as [zs Hzs]
    by (destruct mid2 as [|y mid2]; [by exists []|by exists (mid2 ++ [list_tail L])]).
  assert (forall X, list_head L :: mid1 ++ X = ys ++ before L mid1 :: X) as HX
    by (intros X; by rewrite app_comm_cons, Hys, <- app_assoc).
  exists ys, zs. unfold whole_list. rewrite <- !app_assoc. cbn [app]. by rewrite !HX, Hzs.
Qed.

(** ** Link fields *)

(** Linking [node] in between two neighbours. *)
Lemma links_inserted c c' ys zs prev next node :
  NoDup (ys ++ prev :: next :: zs) -> links c (ys ++ prev :: next :: zs) ->
  c' !! node_next prev = Some node -> c' !! node_prev node = Some prev ->
  c' !! node_next node = Some next -> c' !! node_prev next = Some node ->
  (forall x f, x ∈ ys ++ prev :: next :: zs -> f = node_prev \/ f = node_next ->
    ~ (x = prev /\ f = node_next) -> ~ (x = next /\ f = node_prev) -> c' !! f x = c !! f x) ->
  links c' (ys ++ prev :: node :: next :: zs).
Proof.
  intros Hnd Hl H1 H2 H3 H4 Hsame. pose proof next_not_prev as Hnp.
  intros a b [[-> ->]|[[-> ->]|(Hab & Ha & Hb)]]%adjacent_insert_nodup; [done|done| |done].
  destruct (Hl a b Hab), (adjacent_in _ _ _ Hab). by rewrite !Hsame by (auto; naive_solver).
Qed.

(** Unlinking it. *)
Lemma links_deleted c c' ys zs prev next node :
  NoDup (ys ++ prev :: next :: zs) -> links c (ys ++ prev :: node :: next :: zs) ->
  c' !! node_next prev = Some next -> c' !! node_prev next = Some prev ->
  (forall x f, x ∈ ys ++ prev :: next :: zs -> f = node_prev \/ f = node_next ->
    ~ (x = prev /\ f = node_next) -> ~ (x = next /\ f = node_prev) -> c' !! f x = c !! f x) ->
  links c' (ys ++ prev :: next :: zs).
Proof.
  intros Hnd Hl H1 H2 Hsame. pose proof next_not_prev as Hnp. intros a b Hab. destruct (adjacent_in _ _ _ Hab) as [Ha Hb].
  destruct (adjacent_join_nodup _ _ _ _ _ _ Hnd Hab) as [[-> ->]|(Na & Nb & Hor)]; [done|].
  rewrite !Hsame by (auto; naive_solver). apply Hl.
  replace (ys ++ prev :: node :: next :: zs) with ((ys ++ [prev]) ++ [node] ++ next :: zs) by (by rewrite <- app_assoc).
  destruct Hor; [by apply adjacent_app_l|by apply adjacent_app_r, adjacent_app_r].
Qed.
