(* ===== verification/CasList.v ===== *)
(** * The list on single-word CAS (CASDList)

    What [CASDList] does for one thread: the code, in the volatile and the PMEM build,
    against a list of nodes.  In the PMEM build a link field may carry the dirty flag; the
    rules below work on the memory without the flags and keep where they may be. *)
From Stdlib Require Import ZArith Lia.
From stdpp Require Import base list gmap strings.
From S2P Require Import Prelude Bytes Prog Status Hash Library Epoch Garbage Metrics Memory Descriptor MwCAS Target Pool DList Chain.
#[local] Open Scope Z_scope.
#[local] Open Scope machine_scope.
#[local] Open Scope prog_scope.

(** ** Flags *)

Lemma dirty_clean v : fits 61 v -> has v kDirtyFlag = false /\ clear v kDirtyFlag = v.
Proof.
  intros Hv. assert (Z.testbit v 61 = false) as Hb by (apply (fits_testbit 61); [done|lia]). unfold kDirtyFlag. split.
  - by rewrite has_pow2.
  - unfold clear. bitwise j Hj. rewrite Z.ldiff_spec, Z.pow2_bits_eqb by lia.
    destruct (Z.eqb_spec 61 j) as [<-|]; [by rewrite Hb|by rewrite andb_true_r].
Qed.

Lemma dirty_set v : fits 61 v -> has (v .| kDirtyFlag) kDirtyFlag = true /\ clear (v .| kDirtyFlag) kDirtyFlag = v.
Proof.
  intros Hv. assert (Z.testbit v 61 = false) as Hb by (apply (fits_testbit 61); [done|lia]). unfold kDirtyFlag. split.
  - rewrite has_pow2, Z.lor_spec, Z.pow2_bits_true by done. by rewrite orb_true_r.
  - unfold clear. bitwise j Hj. rewrite Z.ldiff_spec, Z.lor_spec, Z.pow2_bits_eqb by lia.
    destruct (Z.eqb_spec 61 j) as [<-|]; [by rewrite Hb|by rewrite orb_false_r, andb_true_r].
Qed.

Lemma dirty_marked v : marked_deleted (v .| kDirtyFlag) = marked_deleted v.
Proof.
  unfold marked_deleted, kNodeDeleted, kDirtyFlag. rewrite !has_pow2, Z.lor_spec, Z.pow2_bits_false by lia. by rewrite orb_false_r.
Qed.

Lemma unmarked v : fits 60 v -> marked_deleted v = false /\ clear v kNodeDeleted = v.
Proof.
  intros Hv. assert (Z.testbit v 60 = false) as Hb by (apply (fits_testbit 60); [done|lia]). unfold marked_deleted, kNodeDeleted. split.
  - by rewrite has_pow2.
  - unfold clear. bitwise j Hj. rewrite Z.ldiff_spec, Z.pow2_bits_eqb by lia.
    destruct (Z.eqb_spec 60 j) as [<-|]; [by rewrite Hb|by rewrite andb_true_r].
Qed.

Lemma mark_set v : fits 60 v ->
  marked_deleted (v .| kNodeDeleted) = true /\ clear (v .| kNodeDeleted) kNodeDeleted = v /\ fits 61 (v .| kNodeDeleted).
Proof.
  intros Hv. assert (Z.testbit v 60 = false) as Hb by (apply (fits_testbit 60); [done|lia]).
  unfold marked_deleted, kNodeDeleted. split_and!.
  - rewrite has_pow2, Z.lor_spec, Z.pow2_bits_true by done. by rewrite orb_true_r.
  - unfold clear. bitwise j Hj. rewrite Z.ldiff_spec, Z.lor_spec, Z.pow2_bits_eqb by lia.
    destruct (Z.eqb_spec 60 j) as [<-|]; [by rewrite Hb|by rewrite orb_false_r, andb_true_r].
  - apply fits_lor; unfold fits in *; lia.
Qed.

Lemma fits_60_61 v : fits 60 v -> fits 61 v.
Proof. unfold fits. lia. Qed.
#[local] Hint Resolve fits_60_61 : core.

(** ** Memory without the flags *)

(** The nodes: they have their addresses to themselves, and none overlaps the list's other
    fields. *)
Definition apart (a b : Z) : Prop := a + 64 <= b \/ b + 64 <= a.

Record nodes (L : Z) (U : list Z) : Prop := {
  nd_addr a : a ∈ list_head L :: list_tail L :: U -> 0 < a /\ a + 64 <= 2 ^ 60;
  nd_apart a b : a ∈ list_head L :: list_tail L :: U -> b ∈ list_head L :: list_tail L :: U -> a = b \/ apart a b;
  nd_list a : a ∈ U -> a + 64 <= L + 8 \/ L + 160 <= a
}.

Section rules.
Context `{PlatformLaws} (pmem : bool) (fuel : nat) (L : Z) (U : list Z) (HU : nodes L U).
Notation W := (list_head L :: list_tail L :: U).

Definition link (a : Z) : Prop := exists n, n ∈ W /\ (a = node_next n \/ a = node_prev n).

(** [c] is [h] but for the dirty flags, which are in link fields of [D] at most; the
    generator's fields hold anything. *)
Definition shows (D : Z -> Prop) (a v w : Z) : Prop := w = v \/ pmem = true /\ D a /\ link a /\ w = v .| kDirtyFlag.

Record sim (c h : gmap Z Z) (D : Z -> Prop) : Prop := {
  sim_rng a : a ∈ list_rng L -> is_Some (c !! a);
  sim_some a v : a ∉ list_rng L -> h !! a = Some v -> exists w, c !! a = Some w /\ shows D a v w;
  sim_none a : a ∉ list_rng L -> h !! a = None -> c !! a = None
}.

(** [q] alone returns [x] and leads from [h] to [h']. *)
Definition evh {A} (q : prog Mem A) (h : gmap Z Z) (D : Z -> Prop) (x : A) (h' : gmap Z Z) (D' : Z -> Prop) : Prop :=
  forall s, sim (cells s) h D -> exists s', run q s = (Done x, s') /\ sim (cells s') h' D'.

Definition anywhere : Z -> Prop := fun _ => True.
Definition cleaned (a : Z) (D : Z -> Prop) : Z -> Prop := fun b => D b /\ b <> a.
Definition dirtied (a : Z) (D : Z -> Prop) : Z -> Prop := fun b => D b \/ b = a.

Lemma sim_mono c h (D D' : Z -> Prop) : (forall a, D a -> D' a) -> sim c h D -> sim c h D'.
Proof.
  intros HD [H1 H2 H3]. split; [done| |done]. intros a v Ha Hv. destruct (H2 a v Ha Hv) as (w & E & [?|(?&?&?&?)]); exists w;
    (split; [done|]); [by left|right; auto].
Qed.

(** A write of [v], which may be dirty where [D'] says so. *)
Lemma sim_write c h (D D' : Z -> Prop) a v w : a ∉ list_rng L -> sim c h D -> shows D' a v w -> (forall b, b <> a -> D b -> D' b) ->
  sim (<[a := w]> c) (<[a := v]> h) D'.
Proof.
  intros Ha [H1 H2 H3] Hw HD. split.
  - intros b Hb. rewrite lookup_insert_ne by (by intros ->). auto.
  - intros b x Hb. destruct (decide (b = a)) as [->|Hne].
    + rewrite !lookup_insert_eq. intros [= <-]. by exists w.
    + rewrite !lookup_insert_ne by done. intros Hx. destruct (H2 b x Hb Hx) as (y & E & [?|(?&?&?&?)]); exists y;
        (split; [done|]); [by left|right; auto].
  - intros b Hb. destruct (decide (b = a)) as [->|Hne]; [by rewrite lookup_insert_eq|]. rewrite !lookup_insert_ne by done. auto.
Qed.

Lemma sim_id c h (D : Z -> Prop) a v : c !! a = Some v -> h !! a = Some v -> sim c h D -> sim c h (cleaned a D).
Proof.
  intros Hc Hh [H1 H2 H3]. split; [done| |done]. intros b x Hb Hx. destruct (decide (b = a)) as [->|Hne].
  - rewrite Hh in Hx. injection Hx as <-. exists v. split; [done|by left].
  - destruct (H2 b x Hb Hx) as (w & E & [?|(?&?&?&?)]); exists w; (split; [done|]); [by left|right]. done.
Qed.

Lemma evh_ret {A} (x : A) h D : evh (Ret x) h D x h D.
Proof. intros s Hs. by exists s. Qed.

Lemma evh_bind {A B} (q : prog Mem A) (r : A -> prog Mem B) h D x h1 D1 y h2 D2 :
  evh q h D x h1 D1 -> evh (r x) h1 D1 y h2 D2 -> evh (bind q r) h D y h2 D2.
Proof.
  intros Hq Hr s Hs. destruct (Hq s Hs) as (s1 & E1 & Hs1). destruct (Hr s1 Hs1) as (s2 & E2 & Hs2).
  exists s2. by rewrite run_bind, E1.
Qed.

Lemma evh_weaken {A} (q : prog Mem A) h (D : Z -> Prop) x h' (D' D'' : Z -> Prop) :
  (forall a, D' a -> D'' a) -> evh q h D x h' D' -> evh q h D x h' D''.
Proof. intros HD Hq s Hs. destruct (Hq s Hs) as (s' & E & Hs'). exists s'. split; [done|by eapply sim_mono]. Qed.

Lemma evh_check (b : bool) msg h D : b = true -> evh (check b msg) h D tt h D.
Proof. intros Hb s Hs. exists s. by rewrite run_check. Qed.

Lemma evh_loop_done {I O} n (body : I -> prog Mem (I + O)) i h D x h' D' :
  (0 < n)%nat -> evh (body i) h D (inr x) h' D' -> evh (loop n body i) h D x h' D'.
Proof. destruct n as [|n]; [lia|]. intros _ Hb. cbn [loop]. eapply evh_bind; [exact Hb|apply evh_ret]. Qed.

Lemma evh_loop_more {I O} n (body : I -> prog Mem (I + O)) i j h D h1 D1 x h' D' :
  (0 < n)%nat -> evh (body i) h D (inl j) h1 D1 -> evh (loop (pred n) body j) h1 D1 x h' D' -> evh (loop n body i) h D x h' D'.
Proof. destruct n as [|n]; [lia|]. intros _ Hb Hl. cbn [loop]. by eapply evh_bind. Qed.

Lemma evh_loop_unfold {I O} n (body : I -> prog Mem (I + O)) i h D x h' D' : (0 < n)%nat ->
  evh (let! r := body i in match r with inl j => loop (pred n) body j | inr o => Ret o end) h D x h' D' -> evh (loop n body i) h D x h' D'.
Proof. by destruct n as [|n]; [lia|]. Qed.

Lemma evh_flush h D bytes data : evh (NVRAM_Flush bytes data) h D tt h D.
Proof. intros s Hs. eexists. split; [done|]. by rewrite persist_cells. Qed.

(** A plain load may show the flag. *)
Lemma evh_load {B} (r : Z -> prog Mem B) h D a v y h' D' : a ∉ list_rng L -> h !! a = Some v ->
  (forall w, w = v \/ pmem = true /\ w = v .| kDirtyFlag -> evh (r w) h D y h' D') -> evh (bind (load a) r) h D y h' D'.
Proof.
  intros Ha Hv Hr s Hs. destruct (sim_some _ _ _ Hs a v Ha Hv) as (w & E & Hw).
  destruct (Hr w) with (s := s) as (s' & E' & Hs'); [destruct Hw as [?|(?&?&?&?)]; auto|done|].
  exists s'. by rewrite run_bind, (run_load _ _ _ E).
Qed.

Lemma evh_construct h D a v : a ∉ list_rng L -> evh (mem_construct a v) h D tt (<[a := v]> h) D.
Proof. intros Ha s Hs. eexists. split; [done|]. eapply sim_write; eauto. by left. Qed.

Lemma evh_store h D a v : a ∉ list_rng L -> is_Some (h !! a) -> evh (store a v) h D tt (<[a := v]> h) D.
Proof.
  intros Ha [v0 Hv] s Hs. destruct (sim_some _ _ _ Hs a v0 Ha Hv) as (w & E & _). eexists. split; [by eapply run_store|].
  eapply sim_write; eauto. by left.
Qed.

(** A CAS whose comparand the word held when it was read, without the flag. *)
Lemma evh_cas h D a new cmp : a ∉ list_rng L -> h !! a = Some cmp -> ~ D a ->
  evh (CompareExchange64Ptr a new cmp) h D cmp (<[a := new]> h) D.
Proof.
  intros Ha Hv Hd s Hs. destruct (sim_some _ _ _ Hs a cmp Ha Hv) as (w & E & [->|(?&?&?)]); [|done].
  eexists. split; [unfold CompareExchange64Ptr; rewrite (run_cas _ _ _ _ _ E), Z.eqb_refl; done|].
  eapply sim_write; eauto. by left.
Qed.

Lemma evh_cas_dirty h (D : Z -> Prop) a new cmp : a ∉ list_rng L -> link a -> h !! a = Some cmp -> ~ D a ->
  evh (CompareExchange64Ptr a (set_dirty pmem new) cmp) h D cmp (<[a := new]> h) (dirtied a D).
Proof.
  intros Ha Hl Hv Hd s Hs. destruct (sim_some _ _ _ Hs a cmp Ha Hv) as (w & E & [->|(?&?&?)]); [|done].
  eexists. split; [unfold CompareExchange64Ptr; rewrite (run_cas _ _ _ _ _ E), Z.eqb_refl; done|].
  eapply sim_write; eauto; [|by left]. unfold shows, set_dirty. destruct pmem; [right|by left].
  split_and!; try done. by right.
Qed.

(** A CAS on a word that may carry the flag, and then fails. *)
Lemma evh_cas_try {B} (r : Z -> prog Mem B) h D a new cmp y h' D' : a ∉ list_rng L -> h !! a = Some cmp ->
  evh (r cmp) (<[a := new]> h) (cleaned a D) y h' D' ->
  (forall w, D a -> w <> cmp -> evh (r w) h D y h' D') ->
  evh (bind (CompareExchange64Ptr a new cmp) r) h D y h' D'.
Proof.
  intros Ha Hv Hhit Hmiss s Hs. destruct (sim_some _ _ _ Hs a cmp Ha Hv) as (w & E & Hw).
  rewrite run_bind. unfold CompareExchange64Ptr. rewrite (run_cas _ _ _ _ _ E). cbn [and_then].
  destruct (Z.eqb_spec w cmp) as [->|Hne].
  - apply Hhit. cbn [cells set_cells]. eapply sim_write; [done| |by left|].
    + exact (sim_id _ _ _ _ _ E Hv Hs).
    + done.
  - apply Hmiss; [|done|]; [by destruct Hw as [?|(?&?&?&?)]|]. cbn [cells set_cells]. by rewrite insert_id.
Qed.

(** A persisting read: what is read is clean now. *)
Lemma evh_read h D a v : a ∉ list_rng L -> h !! a = Some v -> fits 61 v ->
  evh (ReadPersist pmem a) h D v h (cleaned a D).
Proof.
  intros Ha Hv Hf s Hs. destruct (sim_some _ _ _ Hs a v Ha Hv) as (w & E & Hw). unfold ReadPersist.
  rewrite run_bind, (run_load _ _ _ E). cbn [and_then]. destruct pmem eqn:Ep.
  2: { destruct Hw as [->|(?&?&?&?)]; [|congruence]. exists s. split; [done|by eapply sim_id]. }
  destruct Hw as [->|(_&_&_&->)].
  - destruct (dirty_clean v Hf) as [-> ->]. exists s. split; [done|by eapply sim_id].
  - destruct (dirty_set v Hf) as [-> ->]. rewrite !run_bind. unfold NVRAM_Flush. rewrite run_upd. cbn [and_then].
    rewrite run_bind. unfold CompareExchange64Ptr. rewrite (run_cas a v (v .| kDirtyFlag) (v .| kDirtyFlag)) by (by rewrite persist_cells).
    cbn [and_then run]. rewrite Z.eqb_refl. eexists. split; [done|]. cbn [cells set_cells]. rewrite persist_cells.
    rewrite <- (insert_id h a v) by done. eapply sim_write; [done|exact Hs|by left|]. intros b Hb HD. done.
Qed.

Lemma evh_deref h D a v : a ∉ list_rng L -> h !! a = Some v -> fits 60 v ->
  evh (DereferenceNodePointer pmem a) h D v h (cleaned a D).
Proof.
  intros Ha Hv Hf. unfold DereferenceNodePointer. eapply evh_bind; [apply evh_read; eauto|].
  rewrite (proj2 (unmarked v Hf)). apply evh_ret.
Qed.

(** ** Nodes and their fields *)

Lemma node_fits a : a ∈ W -> fits 60 a /\ (a =? 0) = false.
Proof. intros Ha%(nd_addr _ _ HU). split; [unfold fits; lia|apply Z.eqb_neq; lia]. Qed.

Lemma node_rng a i : a ∈ W -> 0 <= i < 64 -> a + i ∉ list_rng L.
Proof.
  intros Ha Hi. unfold list_rng. rewrite !elem_of_cons, elem_of_nil. rewrite !elem_of_cons in Ha.
  destruct Ha as [->|[->|Ha%(nd_list _ _ HU)]]; unfold list_head, list_tail; lia.
Qed.

Lemma next_rng a : a ∈ W -> node_next a ∉ list_rng L.
Proof. intros Ha. by apply (node_rng a 8). Qed.
Lemma prev_rng a : a ∈ W -> node_prev a ∉ list_rng L.
Proof. intros Ha. pose proof (node_rng a 0 Ha) as Hr. rewrite Z.add_0_r in Hr. by apply Hr. Qed.

Lemma link_next a : a ∈ W -> link (node_next a).
Proof. intros Ha. exists a. auto. Qed.
Lemma link_prev a : a ∈ W -> link (node_prev a).
Proof. intros Ha. exists a. auto. Qed.

(** Two nodes with a common cell are one. *)
Lemma nodes_apart a b : a ∈ W -> b ∈ W -> a <> b -> apart a b.
Proof. intros Ha Hb Hne. by destruct (nd_apart _ _ HU a b Ha Hb). Qed.
Hint Resolve next_rng prev_rng link_next link_prev : core.

(** Lookups in memory that has just been written, the writes to cells apart. *)
Ltac cells_lookup :=
  repeat (rewrite lookup_insert_eq || rewrite lookup_insert_ne by (unfold apart, node_payload_size in *; node_cells)); try done.

Lemma evh_not_dirty v msg h D : fits 60 v -> evh (not_dirty pmem v msg) h D tt h D.
Proof.
  intros Hv. unfold not_dirty, when_pmem. destruct pmem; [|apply evh_ret].
  apply evh_check. by rewrite (proj1 (dirty_clean v (fits_60_61 _ Hv))).
Qed.

Lemma evh_flush_links node h D : evh (flush_links pmem node) h D tt h D.
Proof. unfold flush_links, when_pmem. destruct pmem; [apply evh_flush|apply evh_ret]. Qed.

Lemma evh_flush_payload node h D : node ∈ W -> is_Some (h !! node_payload_size node) -> evh (flush_payload pmem node) h D tt h D.
Proof.
  intros Hn [v Hv]. unfold flush_payload, when_pmem. destruct pmem; [|apply evh_ret].
  eapply evh_load; [by apply (node_rng node 16)|exact Hv|]. intros w _. apply evh_flush.
Qed.

(** The generator's fields may be read and written at will. *)
Lemma evh_rng_loads {B} l : forall vs (r : list Z -> prog Mem B) h D y h' D', (forall a, a ∈ l -> a ∈ list_rng L) ->
  (forall ws, length ws = length l -> evh (r (vs ++ ws)) h D y h' D') ->
  evh (bind (for_list l (fun a vs => let! v := load a in Ret (vs ++ [v])) vs) r) h D y h' D'.
Proof.
  induction l as [|a l IH]; intros vs r h D y h' D' Hl Hr; cbn [for_list].
  - specialize (Hr [] eq_refl). by rewrite app_nil_r in Hr.
  - intros s Hs. destruct (sim_rng _ _ _ Hs a) as [v Hv]; [apply Hl; left|].
    rewrite bind_assoc, bind_assoc, run_bind, (run_load _ _ _ Hv). cbn [and_then bind].
    refine (IH (vs ++ [v]) r h D y h' D' _ _ s Hs); [intros b Hb; apply Hl; by right|].
    intros ws Hw. rewrite <- app_assoc. apply Hr. cbn. by rewrite Hw.
Qed.

Lemma evh_rng_store a v h D : a ∈ list_rng L -> evh (store a v) h D tt h D.
Proof.
  intros Ha s Hs. destruct (sim_rng _ _ _ Hs a Ha) as [w Hw]. eexists. split; [by eapply run_store|].
  destruct Hs as [H1 H2 H3]. split; cbn [cells set_cells].
  - intros b Hb. destruct (decide (b = a)) as [->|]; [rewrite lookup_insert_eq; by eexists|rewrite lookup_insert_ne by done; auto].
  - intros b x Hb. rewrite lookup_insert_ne by (by intros ->). auto.
  - intros b Hb. rewrite lookup_insert_ne by (by intros ->). auto.
Qed.

Lemma evh_backoff h D : evh (backoff L) h D tt h D.
Proof.
  unfold backoff. apply evh_rng_loads; [done|]. intros [|mx [|x [|y [|z [|w [|]]]]]] Hw; try done. cbn [app].
  unfold list_rng. repeat (eapply evh_bind; [apply evh_rng_store; set_solver|]). apply evh_rng_store. set_solver.
Qed.

(** ** Turns of [CorrectPrev] *)

Definition after_reads (node prev : Z) (D : Z -> Prop) : Z -> Prop := cleaned (node_next prev) (cleaned (node_prev node) D).

(** The predecessor is found: the backward pointer is set to it. *)
Lemma evh_correct_done h D node prev ll link1 pp : node ∈ W -> prev ∈ W -> node <> prev ->
  h !! node_prev node = Some link1 -> fits 60 link1 -> h !! node_next prev = Some node ->
  h !! node_prev prev = Some pp -> fits 60 pp ->
  evh (CorrectPrev_try pmem fuel L node (prev, ll)) h D (inr prev) (<[node_prev node := prev]> h)
    (cleaned (node_prev prev) (dirtied (node_prev node) (after_reads node prev D))).
Proof.
  intros Hn Hp Hne E1 F1 E2 E3 F3. destruct (node_fits _ Hn) as [Fn _], (node_fits _ Hp) as [Fp _]. pose proof (nodes_apart _ _ Hn Hp Hne) as Hap.
  unfold CorrectPrev_try. eapply evh_bind; [apply evh_read; eauto|]. rewrite (proj1 (unmarked _ F1)), (proj2 (unmarked _ Fp)).
  eapply evh_bind; [apply evh_read; eauto|]. rewrite (proj1 (unmarked _ Fn)). eapply evh_bind; [by apply evh_check|].
  rewrite Z.eqb_refl. cbn [negb]. eapply evh_bind; [apply evh_cas_dirty; eauto; unfold cleaned; node_cells|].
  rewrite Z.eqb_refl. eapply evh_bind; [apply (evh_read _ _ _ pp); eauto; by cells_lookup|].
  rewrite (proj1 (unmarked _ F3)). apply evh_ret.
Qed.

(** It is further on. *)
Lemma evh_correct_skip h D node prev ll link1 x : prev ∈ W -> node ∈ W ->
  h !! node_prev node = Some link1 -> fits 60 link1 -> h !! node_next prev = Some x -> fits 60 x -> x <> node ->
  evh (CorrectPrev_try pmem fuel L node (prev, ll)) h D (inl (x, prev)) h (after_reads node prev D).
Proof.
  intros Hp Hn E1 F1 E2 F2 Hx. destruct (node_fits _ Hp) as [Fp _].
  unfold CorrectPrev_try. eapply evh_bind; [apply evh_read; eauto|]. rewrite (proj1 (unmarked _ F1)), (proj2 (unmarked _ Fp)).
  eapply evh_bind; [apply evh_read; eauto|]. rewrite (proj1 (unmarked _ F2)). eapply evh_bind; [by apply evh_check|].
  rewrite (proj2 (Z.eqb_neq _ _)) by done. apply evh_ret.
Qed.

(** It is deleted: it is unlinked from the node before. *)
Lemma evh_correct_unlink h D node prev ll link1 x back : (0 < fuel)%nat -> prev ∈ W -> node ∈ W -> ll ∈ W -> prev <> list_head L -> prev <> ll ->
  h !! node_prev node = Some link1 -> fits 60 link1 -> h !! node_next prev = Some (x .| kNodeDeleted) -> fits 60 x ->
  h !! node_prev prev = Some (back .| kNodeDeleted) -> fits 60 back ->
  h !! node_next ll = Some prev -> ~ D (node_next ll) ->
  evh (CorrectPrev_try pmem fuel L node (prev, ll)) h D (inl (ll, 0)) (<[node_next ll := x]> h)
    (dirtied (node_next ll) (after_reads node prev D)).
Proof.
  intros Hf Hp Hn Hl Hh Hpl E1 F1 E2 F2 E3 F3 E4 Hd. destruct (node_fits _ Hp) as [Fp _], (mark_set _ F2) as (M1 & M2 & M3), (mark_set _ F3) as (M4 & M5 & M6).
  pose proof (nodes_apart prev (list_head L) Hp ltac:(set_solver) Hh) as Hap.
  unfold CorrectPrev_try. eapply evh_bind; [apply evh_read; eauto|]. rewrite (proj1 (unmarked _ F1)), (proj2 (unmarked _ Fp)).
  eapply evh_bind; [by apply evh_read; eauto|]. rewrite M1. rewrite (proj2 (node_fits _ Hl)). cbn [negb].
  eapply evh_bind.
  { unfold MarkNodePointer. apply evh_loop_done; [done|]. eapply evh_load; [by apply prev_rng|exact E3|].
    intros w Hw. eapply evh_bind; [apply evh_check|].
    - rewrite (proj2 (Z.eqb_neq _ _)); [done|]. unfold apart in Hap. node_cells.
    - assert (marked_deleted w = true) as -> by (by destruct Hw as [->|[_ ->]]; rewrite ?dirty_marked). apply evh_ret. }
  rewrite M2. eapply evh_bind; [apply evh_cas_dirty; eauto; by intros [[? _] _]|]. apply evh_ret.
Qed.

Lemma evh_assoc {A B C} (q : prog Mem A) (r : A -> prog Mem B) (k : B -> prog Mem C) h D x h' D' :
  evh (bind q (fun a => bind (r a) k)) h D x h' D' -> evh (bind (bind q r) k) h D x h' D'.
Proof. intros Hq s Hs. rewrite bind_assoc. by apply Hq. Qed.

Lemma evh_anywhere {A} (q : prog Mem A) h D x h' D' : evh q h D x h' D' -> evh q h D x h' anywhere.
Proof. by apply evh_weaken. Qed.

Lemma evh_CorrectPrev prev node p h D h' D' : node ∈ W -> p ∈ W ->
  evh (loop fuel (CorrectPrev_try pmem fuel L node) (prev, 0)) h D p h' D' -> evh (CorrectPrev pmem fuel L prev node) h D p h' D'.
Proof.
  intros Hn Hp Hl. destruct (node_fits _ Hn) as [Fn _], (node_fits _ Hp) as [Fp _]. unfold CorrectPrev.
  eapply evh_bind; [apply evh_check; by rewrite (proj1 (unmarked _ Fn))|]. eapply evh_bind; [by apply evh_not_dirty|].
  eapply evh_bind; [exact Hl|]. eapply evh_bind; [by apply evh_not_dirty|]. apply evh_ret.
Qed.

(** ** [CorrectPrev] where it is called *)

Section place.
Context (prev node next pp : Z) (fuel_enough : (2 < fuel)%nat).
Context (Hp : prev ∈ W) (Hm : node ∈ W) (Hn : next ∈ W) (Npm : prev <> node) (Npn : prev <> next) (Nmn : node <> next) (Fpp : fits 60 pp).
Let Fp := proj1 (node_fits prev Hp).
Let Fm := proj1 (node_fits node Hm).
Let Fn := proj1 (node_fits next Hn).
Let Apm := nodes_apart prev node Hp Hm Npm.
Let Apn := nodes_apart prev next Hp Hn Npn.
Let Amn := nodes_apart node next Hm Hn Nmn.

(** [node] was linked into the forward chain. *)
Lemma evh_correct_inserted h D : h !! node_prev next = Some prev -> h !! node_next prev = Some node ->
  h !! node_next node = Some next -> h !! node_prev node = Some prev ->
  evh (CorrectPrev pmem fuel L prev next) h D node (<[node_prev next := node]> h) anywhere.
Proof.
  intros E1 E2 E3 E4. apply evh_CorrectPrev; [done..|].
  eapply evh_loop_more; [lia|eapply evh_correct_skip; eauto|]. apply evh_loop_done; [lia|]. eapply evh_anywhere, evh_correct_done; eauto.
Qed.

(** Nothing to correct: the word that may carry the flag is clean now. *)
Lemma evh_correct_same h D : h !! node_prev next = Some prev -> h !! node_next prev = Some next -> h !! node_prev prev = Some pp ->
  evh (CorrectPrev pmem fuel L prev next) h D prev h (fun a => a <> node_next prev).
Proof.
  intros E1 E2 E3. apply evh_CorrectPrev; [done..|].
  apply evh_loop_done; [lia|]. rewrite <- (insert_id h (node_prev next) prev) at 2 by done.
  eapply evh_weaken; [|eapply evh_correct_done; eauto]. unfold cleaned, dirtied, after_reads, apart in *.
  intros a [[[? ?]|?] ?]; node_cells.
Qed.

(** [node] was marked: it is unlinked. *)
Lemma evh_correct_deleted h D : node <> list_head L -> h !! node_prev next = Some node -> h !! node_next prev = Some node ->
  h !! node_next node = Some (next .| kNodeDeleted) -> h !! node_prev node = Some (prev .| kNodeDeleted) -> h !! node_prev prev = Some pp ->
  evh (CorrectPrev pmem fuel L prev next) h D prev (<[node_prev next := prev]> (<[node_next prev := next]> h)) anywhere.
Proof.
  intros Nh E1 E2 E3 E4 E5. apply evh_CorrectPrev; [done..|].
  eapply evh_loop_more; [lia|eapply evh_correct_skip; eauto|]. eapply evh_loop_more; [lia|eapply evh_correct_unlink; eauto; [lia|by intros [_ ?]]|].
  apply evh_loop_done; [lia|]. eapply evh_anywhere, (evh_correct_done _ _ _ _ _ node pp); eauto; unfold apart in *; by cells_lookup.
Qed.

(** ** Insertion *)

Definition set_links_of (h : gmap Z Z) : gmap Z Z := <[node_next node := next]> (<[node_prev node := prev]> h).
Definition inserted_cells (h : gmap Z Z) : gmap Z Z := <[node_prev next := node]> (<[node_next prev := node]> (set_links_of h)).

(** The place, and the node with its link fields. *)
Record spot (h : gmap Z Z) : Prop := {
  sp_back : h !! node_prev next = Some prev;
  sp_forth : h !! node_next prev = Some next;
  sp_pp : h !! node_prev prev = Some pp;
  sp_nn : exists nn, h !! node_next next = Some nn /\ fits 60 nn;
  sp_node_prev : is_Some (h !! node_prev node);
  sp_node_next : is_Some (h !! node_next node)
}.

Lemma spot_set_links h : spot h -> spot (set_links_of h).
Proof. intros [? ? ? (nn & ? & ?) ? ?]. unfold set_links_of, apart in *. split; [..|exists nn; split; [|done]| |]; by cells_lookup. Qed.

Lemma set_links_twice h : set_links_of (set_links_of h) = set_links_of h.
Proof. unfold set_links_of. rewrite (insert_id _ (node_prev node) prev); [|by cells_lookup]. by rewrite insert_insert_eq. Qed.

(** One turn; if the forward pointer of [prev] still carries the flag the CAS fails and
    [CorrectPrev] cleans it. *)
Lemma evh_before_turn {B} (k : Z + Z * Z -> prog Mem B) h D y h' D' : spot h ->
  evh (k (inr (prev, next))) (<[node_next prev := node]> (set_links_of h)) anywhere y h' D' ->
  (D (node_next prev) -> evh (k (inl next)) (set_links_of h) (fun a => a <> node_next prev) y h' D') ->
  evh (bind (CAS_InsertBefore_try pmem fuel L node next) k) h D y h' D'.
Proof.
  intros Hsp Hhit Hmiss. pose proof (spot_set_links h Hsp) as [T1 T2 T3 _ _ _]. destruct Hsp as [E1 E2 E3 (nn & E4 & Fnn) S1 S2].
  unfold CAS_InsertBefore_try.
  apply evh_assoc. eapply evh_bind; [apply evh_deref; eauto|]. apply evh_assoc. eapply evh_bind; [apply evh_read; eauto|].
  rewrite (proj1 (unmarked _ Fnn)), (proj2 (unmarked _ Fp)), (proj2 (unmarked _ Fn)).
  apply evh_assoc. eapply evh_bind; [apply evh_store; eauto|].
  apply evh_assoc. eapply evh_bind; [apply evh_store; [auto|by cells_lookup]|]. apply evh_assoc. eapply evh_bind; [apply evh_flush_links|].
  fold (set_links_of h). apply evh_assoc.
  eapply evh_cas_try; [auto|exact T2| |].
  - rewrite Z.eqb_refl. cbn [bind]. intros s Hs. apply Hhit. by eapply sim_mono.
  - intros w Hd Hw. rewrite (proj2 (Z.eqb_neq _ _)) by congruence. apply evh_assoc.
    eapply evh_bind; [by apply evh_correct_same|].
    apply evh_assoc. eapply evh_bind; [apply evh_backoff|]. cbn [bind]. apply Hmiss. apply Hd.
Qed.

Lemma evh_before_loop h : spot h -> evh (loop fuel (CAS_InsertBefore_try pmem fuel L node) next) h anywhere (prev, next)
  (<[node_next prev := node]> (set_links_of h)) anywhere.
Proof.
  intros Hsp. apply evh_loop_unfold; [lia|]. apply evh_before_turn; [done|apply evh_ret|]. intros _.
  apply evh_loop_unfold; [lia|]. apply evh_before_turn; [by apply spot_set_links|rewrite set_links_twice; apply evh_ret|done].
Qed.

Lemma evh_linked_in h : spot h ->
  evh (CorrectPrev pmem fuel L prev next) (<[node_next prev := node]> (set_links_of h)) anywhere node (inserted_cells h) anywhere.
Proof.
  intros [T1 T2 T3 _ _ _]. apply evh_correct_inserted; unfold set_links_of, apart in *; by cells_lookup.
Qed.

Lemma evh_InsertBefore depth h : next <> list_head L -> is_Some (h !! node_payload_size node) -> spot h ->
  evh (CAS_InsertBefore pmem fuel depth L next node) h anywhere Status_OK (inserted_cells h) anywhere.
Proof.
  intros Nh Hps Hsp. destruct depth; cbn [CAS_InsertBefore]; rewrite (proj1 (unmarked _ Fn)), (proj2 (Z.eqb_neq _ _) Nh);
    (eapply evh_bind; [by apply evh_check|]); do 2 (eapply evh_bind; [by apply evh_not_dirty|]);
    (eapply evh_bind; [by apply evh_flush_payload|]); (eapply evh_bind; [by apply evh_before_loop|]); cbv beta iota;
    (eapply evh_bind; [apply evh_check; by rewrite (proj2 (node_fits prev Hp))|]);
    (eapply evh_bind; [by apply evh_linked_in|]); apply evh_ret.
Qed.

Lemma evh_InsertAfter depth h : prev <> list_tail L -> is_Some (h !! node_payload_size node) -> spot h ->
  evh (CAS_InsertAfter pmem fuel depth L prev node) h anywhere Status_OK (inserted_cells h) anywhere.
Proof.
  intros Nt Hps Hsp. pose proof (spot_set_links h Hsp) as [_ T2 _ _ _ _]. destruct (Hsp) as [E1 E2 E3 (nn & E4 & Fnn) S1 S2].
  assert (evh (loop fuel (CAS_InsertAfter_try pmem L prev node) tt) h anywhere (Some next)
    (<[node_next prev := node]> (set_links_of h)) anywhere) as Hloop.
  { apply evh_loop_done; [lia|]. unfold CAS_InsertAfter_try. eapply evh_bind; [by apply evh_read; eauto|].
    rewrite (proj2 (unmarked _ Fp)), (proj2 (unmarked _ Fn)). eapply evh_bind; [apply evh_store; eauto|].
    eapply evh_bind; [apply evh_store; [auto|by cells_lookup]|]. eapply evh_bind; [apply evh_flush_links|]. fold (set_links_of h).
    eapply evh_bind; [apply evh_cas; [auto|exact T2|by intros [_ ?]]|]. rewrite Z.eqb_refl. eapply evh_anywhere, evh_ret. }
  destruct depth; cbn [CAS_InsertAfter]; rewrite (proj1 (unmarked _ Fp)), (proj2 (Z.eqb_neq _ _) Nt);
    (eapply evh_bind; [by apply evh_check|]); do 2 (eapply evh_bind; [by apply evh_not_dirty|]);
    (eapply evh_bind; [by apply evh_flush_payload|]); (eapply evh_bind; [exact Hloop|]); cbv beta iota;
    (eapply evh_bind; [apply evh_check; by rewrite (proj2 (node_fits next Hn))|]);
    (eapply evh_bind; [by apply evh_linked_in|]); apply evh_ret.
Qed.

(** ** Deletion *)

Definition marked_cells (h : gmap Z Z) : gmap Z Z := <[node_prev node := prev .| kNodeDeleted]> (<[node_next node := next .| kNodeDeleted]> h).
Definition deleted_cells (h : gmap Z Z) : gmap Z Z := <[node_prev next := prev]> (<[node_next prev := next]> (marked_cells h)).

Record between (h : gmap Z Z) : Prop := {
  bt_back : h !! node_prev next = Some node;
  bt_forth : h !! node_next prev = Some node;
  bt_next : h !! node_next node = Some next;
  bt_prev : h !! node_prev node = Some prev;
  bt_pp : h !! node_prev prev = Some pp;
  bt_first : exists a, h !! node_next (list_head L) = Some a /\ fits 60 a
}.

Lemma evh_mark_prev h D : h !! node_prev node = Some prev ->
  evh (mark_prev pmem fuel node) h D prev (<[node_prev node := prev .| kNodeDeleted]> h) (dirtied (node_prev node) (cleaned (node_prev node) D)).
Proof.
  intros E. unfold mark_prev. apply evh_loop_done; [lia|]. eapply evh_bind; [by apply evh_read; eauto|]. rewrite (proj1 (unmarked _ Fp)).
  eapply evh_bind; [apply evh_cas_dirty; eauto; by intros [_ ?]|]. rewrite Z.eqb_refl. apply evh_ret.
Qed.

Lemma evh_Delete h : node <> list_head L -> node <> list_tail L -> between h ->
  evh (CAS_Delete pmem fuel L node) h anywhere Status_OK (deleted_cells h) anywhere.
Proof.
  intros Nh Nt [E1 E2 E3 E4 E5 (a & E6 & Fa)]. pose proof (nodes_apart node (list_head L) Hm ltac:(set_solver) Nh) as Ah.
  unfold CAS_Delete. eapply evh_bind; [by apply evh_not_dirty|]. rewrite (proj2 (Z.eqb_neq _ _) Nh), (proj2 (Z.eqb_neq _ _) Nt). cbn [orb].
  apply evh_loop_done; [lia|]. eapply evh_bind; [by apply evh_read; eauto|]. rewrite (proj1 (unmarked _ Fn)).
  eapply evh_bind; [apply evh_cas_dirty; eauto; by intros [_ ?]|]. rewrite Z.eqb_refl.
  eapply evh_bind; [apply evh_mark_prev; by cells_lookup|]. fold (marked_cells h). rewrite (proj2 (unmarked _ Fp)).
  eapply evh_bind; [apply evh_check; by rewrite (proj2 (node_fits prev Hp))|].
  eapply evh_load; [apply next_rng; set_solver|unfold marked_cells, apart in *; cells_lookup; exact E6|]. intros w Hw.
  eapply evh_bind.
  { apply evh_check. apply negb_true_iff. destruct (unmarked _ Fa) as [Ma _]. by destruct Hw as [->|[_ ->]]; rewrite ?dirty_marked. }
  eapply evh_bind; [|apply evh_ret]. intros s Hs. eapply evh_correct_deleted; [done|..|by eapply sim_mono];
    unfold marked_cells, apart in *; by cells_lookup.
Qed.
End place.

(** A node that is deleted already is left as it is, and so are the sentinels. *)
Lemma evh_Delete_gone node h x : (0 < fuel)%nat -> node ∈ W -> node <> list_head L -> node <> list_tail L ->
  h !! node_next node = Some (x .| kNodeDeleted) -> fits 60 x ->
  evh (CAS_Delete pmem fuel L node) h anywhere Status_OK h anywhere.
Proof.
  intros Hf Hm Nh Nt E Fx. destruct (node_fits _ Hm) as [Fm _], (mark_set _ Fx) as (M1 & _ & M3).
  unfold CAS_Delete. eapply evh_bind; [by apply evh_not_dirty|]. rewrite (proj2 (Z.eqb_neq _ _) Nh), (proj2 (Z.eqb_neq _ _) Nt). cbn [orb].
  apply evh_loop_done; [done|]. eapply evh_bind; [by apply evh_read; eauto|]. rewrite M1. eapply evh_anywhere, evh_ret.
Qed.

Lemma evh_Delete_sentinel node h a b : node = list_head L \/ node = list_tail L ->
  h !! node_next node = Some a -> fits 60 a -> h !! node_prev node = Some b -> fits 60 b ->
  evh (CAS_Delete pmem fuel L node) h anywhere Status_OK h anywhere.
Proof.
  intros Hs Ea Fa Eb Fb. assert (node ∈ W) as Hm by (destruct Hs as [-> | ->]; set_solver). destruct (node_fits _ Hm) as [Fm _].
  assert (forall v w, fits 60 v -> w = v \/ pmem = true /\ w = v .| kDirtyFlag -> negb (marked_deleted w) = true) as Hun.
  { intros v w Fv Hw. apply negb_true_iff. destruct (unmarked _ Fv) as [Mv _]. by destruct Hw as [->|[_ ->]]; rewrite ?dirty_marked. }
  unfold CAS_Delete. eapply evh_bind; [by apply evh_not_dirty|].
  assert ((node =? list_head L) || (node =? list_tail L) = true) as -> by (destruct Hs as [-> | ->]; rewrite Z.eqb_refl, ?orb_true_r; done).
  eapply evh_load; [by apply next_rng|exact Ea|]. intros w Hw. eapply evh_bind; [apply evh_check; by apply (Hun a)|].
  eapply evh_load; [by apply prev_rng|exact Eb|]. intros w' Hw'. eapply evh_bind; [apply evh_check; by apply (Hun b)|]. apply evh_ret.
Qed.

(** ** The neighbours *)

Lemma evh_GetNext_end h D : (0 < fuel)%nat -> evh (CAS_GetNext pmem fuel L (list_tail L)) h D 0 h D.
Proof. intros Hf. apply evh_loop_done; [done|]. rewrite Z.eqb_refl. apply evh_ret. Qed.

Lemma evh_GetNext a b x h : (0 < fuel)%nat -> a ∈ W -> b ∈ W -> a <> list_tail L ->
  h !! node_next a = Some b -> h !! node_next b = Some x -> fits 60 x ->
  evh (CAS_GetNext pmem fuel L a) h anywhere b h anywhere.
Proof.
  intros Hf Ha Hb Nt E1 E2 Fx. destruct (node_fits _ Ha) as [_ Na], (node_fits _ Hb) as [Fb Nb].
  apply evh_loop_done; [done|]. rewrite (proj2 (Z.eqb_neq _ _) Nt). unfold CAS_GetNext_try. eapply evh_bind; [apply evh_check; by rewrite Na|].
  eapply evh_bind; [by apply evh_deref; eauto|]. eapply evh_bind; [apply evh_check; by rewrite Nb|].
  eapply evh_bind; [by apply evh_not_dirty|]. eapply evh_bind; [apply evh_read; eauto|]. rewrite (proj1 (unmarked _ Fx)).
  eapply evh_bind; [apply evh_ret|]. eapply evh_anywhere, evh_ret.
Qed.

Lemma evh_GetPrev_end h D : (0 < fuel)%nat -> evh (CAS_GetPrev pmem fuel L (list_head L)) h D 0 h D.
Proof. intros Hf. apply evh_loop_done; [done|]. rewrite Z.eqb_refl. apply evh_ret. Qed.

Lemma evh_GetPrev a b x h : (0 < fuel)%nat -> a ∈ W -> b ∈ W -> b <> list_head L ->
  h !! node_prev b = Some a -> h !! node_next a = Some b -> h !! node_next b = Some x -> fits 60 x ->
  evh (CAS_GetPrev pmem fuel L b) h anywhere a h anywhere.
Proof.
  intros Hf Ha Hb Nh E1 E2 E3 Fx. destruct (node_fits _ Ha) as [Fa Na], (node_fits _ Hb) as [Fb Nb].
  apply evh_loop_done; [done|]. rewrite (proj2 (Z.eqb_neq _ _) Nh). eapply evh_bind; [apply evh_check; by rewrite Nb|].
  eapply evh_bind; [by apply evh_deref; eauto|]. eapply evh_bind; [apply evh_check; by rewrite Na|].
  eapply evh_bind; [by apply evh_not_dirty|]. eapply evh_bind; [apply evh_read; eauto|]. eapply evh_bind; [apply evh_read; eauto|].
  rewrite Z.eqb_refl, (proj1 (unmarked _ Fx)). eapply evh_anywhere, evh_ret.
Qed.

(** From a deleted node the trail of its successors at the time of deletion is followed:
    [gs] lists the deleted nodes with these, the first deleted first. *)
Fixpoint landing (gs : list (Z * Z)) (a : Z) : Z :=
  match gs with [] => a | (n, s) :: r => if a =? n then landing r s else landing r a end.

Lemma landing_stays gs a : a ∉ gs.*1 -> landing gs a = a.
Proof.
  induction gs as [|[n s] gs IH]; intros Ha; cbn in *; [done|]. apply not_elem_of_cons in Ha as [Hn Ha].
  rewrite (proj2 (Z.eqb_neq _ _) Hn). auto.
Qed.

Lemma in_names (gs : list (Z * Z)) n s : (n, s) ∈ gs -> n ∈ gs.*1.
Proof. intros Hin. apply list_elem_of_fmap. by exists (n, s). Qed.

Lemma later_in (l1 : list (Z * Z)) x l2 a : a ∈ l2.*1 -> a ∈ (l1 ++ x :: l2).*1.
Proof. intros Ha. rewrite fmap_app. apply elem_of_app. right. by right. Qed.

Lemma landing_from l1 n s l2 : NoDup (l1 ++ (n, s) :: l2).*1 -> landing (l1 ++ (n, s) :: l2) n = landing l2 s.
Proof.
  induction l1 as [|[n' s'] l1 IH]; intros Hnd; cbn in *; [by rewrite Z.eqb_refl|]. apply NoDup_cons in Hnd as [Hn Hnd].
  rewrite (proj2 (Z.eqb_neq _ _)); [by apply IH|]. intros ->. apply Hn. rewrite fmap_app. apply elem_of_app. right. left.
Qed.

Lemma evh_deref_marked h D a v : a ∉ list_rng L -> h !! a = Some (v .| kNodeDeleted) -> fits 60 v ->
  evh (DereferenceNodePointer pmem a) h D v h (cleaned a D).
Proof.
  intros Ha Hv Hf. destruct (mark_set _ Hf) as (_ & M2 & M3). unfold DereferenceNodePointer. eapply evh_bind; [by apply evh_read|].
  rewrite M2. apply evh_ret.
Qed.

(** What memory says of the deleted nodes, [stay] being the nodes of the list. *)
Record trail (stay : list Z) (gs : list (Z * Z)) (h : gmap Z Z) : Prop := {
  tr_nodup : NoDup gs.*1;
  tr_known a : a ∈ stay ++ gs.*1 -> a ∈ W;
  tr_apart a : a ∈ stay -> a ∉ gs.*1;
  tr_stay a : a ∈ stay -> exists v, h !! node_next a = Some v /\ fits 60 v;
  tr_gone n s : (n, s) ∈ gs -> h !! node_next n = Some (s .| kNodeDeleted) /\ n <> list_tail L /\ n <> list_head L /\
    exists b, h !! node_prev n = Some (b .| kNodeDeleted) /\ b ∈ W /\ exists v, h !! node_next b = Some v /\ fits 61 v;
  tr_leads l1 n s l2 : gs = l1 ++ (n, s) :: l2 -> s ∈ stay \/ s ∈ l2.*1
}.

(** One turn of [GetNext] at a deleted node. *)
Lemma evh_GetNext_step n s x h : n ∈ W -> s ∈ W -> h !! node_next n = Some (s .| kNodeDeleted) -> h !! node_next s = Some x -> fits 61 x ->
  evh (CAS_GetNext_try pmem fuel L n) h anywhere (if marked_deleted x then inl s else inr s) h anywhere.
Proof.
  intros Hn Hs E1 E2 Fx. destruct (node_fits _ Hn) as [_ Nn], (node_fits _ Hs) as [Fs Ns], (mark_set _ (proj1 (node_fits _ Hs))) as (_ & _ & M3).
  unfold CAS_GetNext_try. eapply evh_bind; [apply evh_check; by rewrite Nn|]. eapply evh_bind; [apply evh_deref_marked; eauto|].
  eapply evh_bind; [apply evh_check; by rewrite Ns|]. eapply evh_bind; [by apply evh_not_dirty|].
  eapply evh_bind; [apply evh_read; eauto|]. destruct (marked_deleted x).
  - eapply (evh_bind _ _ _ _ false); [|eapply evh_anywhere, evh_ret]. eapply evh_bind; [apply evh_read; eauto|]. rewrite Z.eqb_refl. apply evh_ret.
  - eapply evh_bind; [apply evh_ret|]. eapply evh_anywhere, evh_ret.
Qed.

Lemma evh_GetNext_trail stay gs h : trail stay gs h -> forall f l1 n s l2, gs = l1 ++ (n, s) :: l2 -> (length l2 < f)%nat ->
  landing l2 s ∈ stay /\
  evh (loop f (fun node => if node =? list_tail L then Ret (inr 0) else CAS_GetNext_try pmem fuel L node) n) h anywhere (landing l2 s) h anywhere.
Proof.
  intros [Hnd Hk Hap Hst Hg Hl]. induction f as [|f IH]; intros l1 n s l2 E Hf; [lia|].
  assert ((n, s) ∈ gs) as Hin by (rewrite E; set_solver). destruct (Hg n s Hin) as (E1 & Nt & _ & _).
  assert (n ∈ W) as Hn by (apply Hk, elem_of_app; right; by eapply in_names).
  assert (s ∈ W) as Hs by (apply Hk, elem_of_app; destruct (Hl _ _ _ _ E); [by left|right; rewrite E; by apply later_in]).
  destruct (Hl _ _ _ _ E) as [Hstay|Hlater].
  - rewrite landing_stays by (intros Hx; apply (Hap s Hstay); rewrite E; by apply later_in).
    split; [done|]. destruct (Hst s Hstay) as (x & Ex & Fx). apply evh_loop_done; [lia|]. rewrite (proj2 (Z.eqb_neq _ _) Nt).
    pose proof (evh_GetNext_step n s x h Hn Hs E1 Ex (fits_60_61 _ Fx)) as Ht. by rewrite (proj1 (unmarked _ Fx)) in Ht.
  - apply list_elem_of_fmap in Hlater as ([s' s2] & Es & Hs2). cbn in Es. subst s'. apply list_elem_of_split in Hs2 as (m1 & m2 & Em).
    assert (NoDup l2.*1) as Hnd2.
    { rewrite E in Hnd. rewrite fmap_app in Hnd. apply NoDup_app in Hnd as (_ & _ & Hnd). cbn in Hnd. by apply NoDup_cons in Hnd as [_ Hnd]. }
    assert (landing l2 s = landing m2 s2) as Ela by (rewrite Em in Hnd2 |- *; by apply landing_from).
    assert ((s, s2) ∈ gs) as Hin2 by (rewrite E, Em; set_solver). destruct (Hg s s2 Hin2) as (E2 & _).
    assert (s2 ∈ W) as Hs2.
    { apply Hk, elem_of_app. destruct (Hl (l1 ++ (n, s) :: m1) s s2 m2) as [?|?]; [by rewrite E, Em, <- app_assoc|by left|right].
      rewrite E, Em. by apply later_in, later_in. }
    destruct (IH (l1 ++ (n, s) :: m1) s s2 m2) as [I1 I2]; [by rewrite E, Em, <- app_assoc|rewrite Em, length_app in Hf; cbn in Hf; lia|].
    rewrite Ela. split; [done|]. destruct (mark_set _ (proj1 (node_fits _ Hs2))) as (M1 & _ & M3).
    cbn [loop]. rewrite (proj2 (Z.eqb_neq _ _) Nt). eapply evh_bind.
    { pose proof (evh_GetNext_step n s _ h Hn Hs E1 E2 M3) as Ht. rewrite M1 in Ht. exact Ht. }
    exact I2.
Qed.

Lemma evh_GetNext_gone stay gs h a : trail stay gs h -> a ∈ gs.*1 -> (length gs <= fuel)%nat ->
  landing gs a ∈ stay /\ evh (CAS_GetNext pmem fuel L a) h anywhere (landing gs a) h anywhere.
Proof.
  intros Ht ([n s] & Ea & Hin)%list_elem_of_fmap Hf. cbn in Ea. subst n. apply list_elem_of_split in Hin as (l1 & l2 & E).
  pose proof (tr_nodup _ _ _ Ht) as Hnd. rewrite E in Hnd. pose proof (landing_from l1 a s l2 Hnd) as El. rewrite <- E in El. rewrite El.
  apply (evh_GetNext_trail stay gs h Ht fuel l1 a s l2 E). rewrite E, length_app in Hf. cbn in Hf. lia.
Qed.

Lemma evh_GetPrev_gone stay gs h b a x : (1 < fuel)%nat -> trail stay gs h -> b ∈ gs.*1 -> (length gs <= fuel)%nat ->
  landing gs b <> list_head L -> a ∈ W -> h !! node_prev (landing gs b) = Some a -> h !! node_next a = Some (landing gs b) ->
  h !! node_next (landing gs b) = Some x -> fits 60 x ->
  evh (CAS_GetPrev pmem fuel L b) h anywhere a h anywhere.
Proof.
  intros Hf2 Ht Hb Hf Nh Ha E1 E2 E3 Fx. destruct (evh_GetNext_gone stay gs h b Ht Hb Hf) as [Hstay Hnext].
  assert (landing gs b ∈ W) as Hl by (apply (tr_known _ _ _ Ht), elem_of_app; by left).
  assert (b ∈ W) as HbW by (apply (tr_known _ _ _ Ht), elem_of_app; by right).
  pose proof Hb as ([n s] & Eb & Hin)%list_elem_of_fmap. cbn in Eb. subst n.
  destruct (tr_gone _ _ _ Ht b s Hin) as (G1 & _ & Nbh & p & G2 & Hp & v & G3 & Fv).
  assert (s ∈ W) as Hs.
  { pose proof Hin as (l1 & l2 & E)%list_elem_of_split. apply (tr_known _ _ _ Ht), elem_of_app.
    destruct (tr_leads _ _ _ Ht l1 b s l2 E); [by left|right]. rewrite E. by apply later_in. }
  destruct (mark_set _ (proj1 (node_fits _ Hs))) as (M1 & _ & M3), (node_fits _ Hp) as [Fp Np], (node_fits _ HbW) as [_ Nb].
  eapply evh_loop_more; [lia| |].
  - rewrite (proj2 (Z.eqb_neq _ _) Nbh). eapply evh_bind; [apply evh_check; by rewrite Nb|].
    eapply evh_bind; [by apply evh_deref_marked; eauto|]. eapply evh_bind; [apply evh_check; by rewrite Np|].
    eapply evh_bind; [by apply evh_not_dirty|]. eapply evh_bind; [apply evh_read; eauto|]. eapply evh_bind; [apply evh_read; eauto|].
    rewrite M1, andb_false_r. eapply evh_bind; [|apply evh_ret]. intros q Hq. by apply Hnext, (sim_mono _ _ _ _ (fun _ _ => I) Hq).
  - apply evh_loop_done; [lia|]. rewrite (proj2 (Z.eqb_neq _ _) Nh).
    destruct (node_fits _ Ha) as [Fa Na], (node_fits _ Hl) as [_ Nl]. eapply evh_bind; [apply evh_check; by rewrite Nl|].
    eapply evh_bind; [by apply evh_deref; eauto|]. eapply evh_bind; [apply evh_check; by rewrite Na|].
    eapply evh_bind; [by apply evh_not_dirty|]. eapply evh_bind; [apply evh_read; eauto; apply fits_60_61; by apply node_fits|].
    eapply evh_bind; [apply evh_read; eauto|]. rewrite Z.eqb_refl, (proj1 (unmarked _ Fx)). eapply evh_anywhere, evh_ret.
Qed.
End rules.

(** ** The list as its clients see it *)

(** The nodes in the list, in order; those made and not yet inserted; and the deleted ones,
    each with its successor when it was deleted, the first deleted first. *)
Record contents := Contents { linked : list Z; loose : list Z; gone : list (Z * Z) }.

Inductive list_op :=
| MakeNode (node prev next payload_size : Z)
| InsertBefore (next node : Z)
| InsertAfter (prev node : Z)
| Delete (node : Z)
| GetNext (node : Z)
| GetPrev (node : Z).

Inductive answer := Node (a : Z) | Code (s : Status).

Definition run_list_op `{Platform} (pmem : bool) (fuel depth : nat) (L : Z) (o : list_op) : prog Mem answer :=
  match o with
  | MakeNode n p x size => let! a := NewNode n p x size in Ret (Node a)
  | InsertBefore next node => let! s := CAS_InsertBefore pmem fuel depth L next node in Ret (Code s)
  | InsertAfter prev node => let! s := CAS_InsertAfter pmem fuel depth L prev node in Ret (Code s)
  | Delete node => let! s := CAS_Delete pmem fuel L node in Ret (Code s)
  | GetNext node => let! a := CAS_GetNext pmem fuel L node in Ret (Node a)
  | GetPrev node => let! a := CAS_GetPrev pmem fuel L node in Ret (Node a)
  end.

Fixpoint run_list_ops `{Platform} (pmem : bool) (fuel depth : nat) (L : Z) (os : list list_op) : prog Mem (list answer) :=
  match os with
  | [] => Ret []
  | o :: os => let! a := run_list_op pmem fuel depth L o in let! r := run_list_ops pmem fuel depth L os in Ret (a :: r)
  end.

(** The specification: at the end of the list when [x] is not found. *)
Fixpoint put_before (x n : Z) (xs : list Z) : list Z :=
  match xs with [] => [n] | a :: r => if a =? x then n :: a :: r else a :: put_before x n r end.
Fixpoint put_after (x n : Z) (xs : list Z) : list Z :=
  match xs with [] => [n] | a :: r => if a =? x then a :: n :: r else a :: put_after x n r end.
Fixpoint follower (a : Z) (xs : list Z) : Z :=
  match xs with [] => 0 | x :: r => if x =? a then hd 0 r else follower a r end.

Definition next_of (L : Z) (st : contents) (a : Z) : Z :=
  if bool_decide (a ∈ (gone st).*1) then landing (gone st) a else follower a (whole_list L (linked st)).
Definition prev_of (L : Z) (st : contents) (a : Z) : Z := follower (landing (gone st) a) (reverse (whole_list L (linked st))).

Definition drop_node (n : Z) (xs : list Z) : list Z := filter (fun a => a <> n) xs.

Definition list_step (L : Z) (o : list_op) (st : contents) : answer * contents :=
  match o with
  | MakeNode n _ _ _ => (Node n, Contents (linked st) (n :: loose st) (gone st))
  | InsertBefore x n =>
      (Code Status_OK, Contents (if x =? list_head L then n :: linked st else put_before x n (linked st)) (drop_node n (loose st)) (gone st))
  | InsertAfter x n =>
      (Code Status_OK, Contents (if x =? list_head L then n :: linked st else put_after x n (linked st)) (drop_node n (loose st)) (gone st))
  | Delete n =>
      (Code Status_OK, if bool_decide (n ∈ linked st) then Contents (drop_node n (linked st)) (loose st) (gone st ++ [(n, next_of L st n)]) else st)
  | GetNext n => (Node (next_of L st n), st)
  | GetPrev n => (Node (prev_of L st n), st)
  end.

Fixpoint list_steps (L : Z) (os : list list_op) (st : contents) : list answer * contents :=
  match os with
  | [] => ([], st)
  | o :: os => let r := list_steps L os (list_step L o st).2 in ((list_step L o st).1 :: r.1, r.2)
  end.

(** What a client may do: nodes are made once, at addresses of [U], and inserted once,
    next to a node of the list or a sentinel; deleted nodes may still be deleted and walked from. *)
Definition allowed (L : Z) (U : list Z) (o : list_op) (st : contents) : Prop :=
  match o with
  | MakeNode n _ _ _ => n ∈ U /\ n ∉ linked st ++ loose st ++ (gone st).*1
  | InsertBefore x n | InsertAfter x n => x ∈ whole_list L (linked st) /\ n ∈ loose st
  | Delete n | GetNext n | GetPrev n => n ∈ whole_list L (linked st) \/ n ∈ (gone st).*1
  end.

Fixpoint all_allowed (L : Z) (U : list Z) (os : list list_op) (st : contents) : Prop :=
  match os with
  | [] => True
  | o :: os => allowed L U o st /\ all_allowed L U os (list_step L o st).2
  end.

#[export] Instance allowed_dec L U o st : Decision (allowed L U o st).
Proof. destruct o; cbn [allowed]; apply _. Defined.
#[export] Instance all_allowed_dec L U os : forall st, Decision (all_allowed L U os st).
Proof. induction os as [|o os IH]; intros st; cbn [all_allowed]; [apply _|]. specialize (IH (list_step L o st).2). apply _. Defined.
