(* ===== verification/CasListSpec.v ===== *)
(** * CASDList against a list of nodes

    The invariant that ties memory to the contents of a [CASDList], that each operation
    keeps it and answers what the contents say, and the theorem for any sequence of
    operations on a new list. *)
From Stdlib Require Import ZArith Lia.
From stdpp Require Import base list gmap strings.
From S2P Require Import Prelude Bytes Prog Status Hash Library Epoch Garbage Metrics Memory Descriptor MwCAS Target Pool DList Chain CasList.
#[local] Open Scope Z_scope.
#[local] Open Scope machine_scope.
#[local] Open Scope prog_scope.

(** ** Places in lists *)

Lemma put_before_place L x n mid : x ∈ mid \/ x = list_tail L -> list_tail L ∉ mid ->
  exists m1 m2, mid = m1 ++ m2 /\ after L m2 = x /\ put_before x n mid = m1 ++ n :: m2.
Proof.
  induction mid as [|a mid IH]; intros Hx Ht; cbn [put_before].
  - destruct Hx as [Hx| ->]; [by apply elem_of_nil in Hx|]. by exists [], [].
  - apply not_elem_of_cons in Ht as [Na Ht]. destruct (Z.eqb_spec a x) as [->|Hne]; [by exists [], (x :: mid)|].
    destruct IH as (m1 & m2 & -> & H2 & ->); [destruct Hx as [[?|?]%elem_of_cons|?]; auto; congruence|done|].
    by exists (a :: m1), m2.
Qed.

Lemma put_after_place L x n mid : x ∈ mid -> list_head L ∉ mid ->
  exists m1 m2, mid = m1 ++ m2 /\ before L m1 = x /\ put_after x n mid = m1 ++ n :: m2.
Proof.
  intros Hx Hh. assert (x <> list_head L) as Nx by (by intros ->). clear Hh. revert Hx.
  induction mid as [|a mid IH]; intros Hx; cbn [put_after]; [by apply elem_of_nil in Hx|].
  destruct (Z.eqb_spec a x) as [->|Hne]; [by exists [x], mid|].
  destruct IH as (m1 & m2 & -> & H2 & ->); [by apply elem_of_cons in Hx as [?|?]|].
  exists (a :: m1), m2. split_and!; [done| |done]. unfold before in *. by destruct m1.
Qed.

Lemma put_after_absent x n mid : x ∉ mid -> put_after x n mid = mid ++ [n].
Proof.
  induction mid as [|a mid IH]; intros Hx; cbn [put_after app]; [done|]. apply not_elem_of_cons in Hx as [Na Hx].
  rewrite (proj2 (Z.eqb_neq _ _)) by done. by rewrite IH.
Qed.

Lemma follower_of xs a b : NoDup xs -> adjacent xs a b -> follower a xs = b.
Proof.
  intros Hnd (ys & zs & ->). induction ys as [|y ys IH]; cbn in *; [by rewrite Z.eqb_refl|].
  apply NoDup_cons in Hnd as [Hy Hnd]. rewrite (proj2 (Z.eqb_neq _ _)); [by apply IH|]. intros ->. set_solver.
Qed.

Lemma follower_last xs a : a ∉ xs -> follower a (xs ++ [a]) = 0.
Proof.
  induction xs as [|x xs IH]; intros Ha; cbn; [by rewrite Z.eqb_refl|]. apply not_elem_of_cons in Ha as [Na Ha].
  rewrite (proj2 (Z.eqb_neq _ _)) by done. auto.
Qed.

Lemma adjacent_rev xs a b : adjacent xs a b -> adjacent (reverse xs) b a.
Proof. intros (ys & zs & ->). exists (reverse zs), (reverse ys). rewrite reverse_app, !reverse_cons. by rewrite <- !app_assoc. Qed.

Lemma drop_node_split m1 n m2 : NoDup (m1 ++ n :: m2) -> drop_node n (m1 ++ n :: m2) = m1 ++ m2.
Proof.
  intros (_ & Hd & Hnd)%NoDup_app. apply NoDup_cons in Hnd as [Hn _]. unfold drop_node. rewrite filter_app, filter_cons_False by naive_solver.
  assert (forall xs : list Z, n ∉ xs -> filter (fun a => a <> n) xs = xs) as Hid.
  { induction xs as [|x xs IH]; [done|]. intros [Hne Hx]%not_elem_of_cons. rewrite filter_cons_True by done. by rewrite IH. }
  rewrite !Hid; [done|done|]. intros Hm. apply (Hd n Hm). left.
Qed.

Lemma drop_node_in n xs a : a ∈ drop_node n xs <-> a <> n /\ a ∈ xs.
Proof. unfold drop_node. by rewrite list_elem_of_filter. Qed.

Lemma drop_node_perm n xs : NoDup xs -> n ∈ xs -> xs ≡ₚ n :: drop_node n xs.
Proof. intros Hnd (m1 & m2 & ->)%list_elem_of_split. rewrite drop_node_split by done. by rewrite Permutation_middle. Qed.

(** ** The invariant *)

Section invariant.
Context (L : Z) (U : list Z) (HU : nodes L U).
Notation W := (list_head L :: list_tail L :: U).
Notation whole st := (whole_list L (linked st)).

Record inv (st : contents) (h : gmap Z Z) : Prop := {
  iv_nodup : NoDup (linked st ++ loose st ++ (gone st).*1);
  iv_known a : a ∈ linked st ++ loose st ++ (gone st).*1 -> a ∈ U;
  iv_links : links h (whole st);
  iv_head : h !! node_prev (list_head L) = Some 0;
  iv_tail : h !! node_next (list_tail L) = Some 0;
  iv_loose a : a ∈ loose st -> is_Some (h !! node_prev a) /\ is_Some (h !! node_next a) /\ is_Some (h !! node_payload_size a);
  iv_gone n s : (n, s) ∈ gone st -> h !! node_next n = Some (s .| kNodeDeleted) /\
    exists b, h !! node_prev n = Some (b .| kNodeDeleted) /\ b ∈ whole st ++ (gone st).*1;
  iv_leads l1 n s l2 : gone st = l1 ++ (n, s) :: l2 -> s ∈ linked st ++ [list_tail L] \/ s ∈ l2.*1
}.

Lemma ends_not_nodes : list_head L ∉ U /\ list_tail L ∉ U /\ list_head L <> list_tail L.
Proof.
  split_and!; [intros Hx%(nd_list _ _ HU)..|]; unfold list_head, list_tail in *; lia.
Qed.

Section state.
Context (st : contents) (h : gmap Z Z) (Hinv : inv st h).

Lemma whole_known a : a ∈ whole st -> a ∈ W.
Proof.
  unfold whole_list. intros [->|[Ha| ->%list_elem_of_singleton]%elem_of_app]%elem_of_cons; [left| |right; left].
  right; right. apply (iv_known _ _ Hinv), elem_of_app. by left.
Qed.

Lemma whole_nodup : NoDup (whole st).
Proof.
  destruct ends_not_nodes as (N1 & N2 & N3). pose proof (iv_nodup _ _ Hinv) as (Hnd & _)%NoDup_app.
  assert (forall a, a ∈ linked st -> a ∈ U) as Hk by (intros a Ha; apply (iv_known _ _ Hinv), elem_of_app; by left).
  unfold whole_list. apply NoDup_cons. split.
  - rewrite elem_of_app, list_elem_of_singleton. intros [Ha|?]; [|done]. by apply N1, Hk.
  - apply NoDup_app. split_and!; [done| |apply NoDup_singleton]. intros a Ha ->%list_elem_of_singleton. by apply N2, Hk.
Qed.

(** The link fields of the list's nodes hold addresses of nodes, or null. *)
Lemma whole_next a : a ∈ whole st -> exists v, h !! node_next a = Some v /\ fits 60 v.
Proof.
  intros Ha. destruct (in_list_next _ _ Ha) as [[b Hb]|[ys Hys]].
  - exists b. split; [exact (proj1 (iv_links _ _ Hinv a b Hb))|]. exact (proj1 (node_fits L U HU b (whole_known b (proj2 (adjacent_in _ _ _ Hb))))).
  - exists 0. unfold whole_list in Hys. rewrite app_comm_cons in Hys. apply app_inj_tail in Hys as [_ <-].
    split; [by destruct Hinv|unfold fits; lia].
Qed.

Lemma whole_prev b : b ∈ whole st -> exists v, h !! node_prev b = Some v /\ fits 60 v.
Proof.
  intros Hb. destruct (in_list_prev _ _ Hb) as [[a Ha]|[zs Hzs]].
  - exists a. split; [exact (proj2 (iv_links _ _ Hinv a b Ha))|]. exact (proj1 (node_fits L U HU a (whole_known a (proj1 (adjacent_in _ _ _ Ha))))).
  - exists 0. unfold whole_list in Hzs. injection Hzs as <- _. split; [by destruct Hinv|unfold fits; lia].
Qed.

Lemma gone_known a : a ∈ (gone st).*1 -> a ∈ U /\ a ∉ whole st.
Proof.
  intros Ha. assert (a ∈ U) as HaU by (apply (iv_known _ _ Hinv); set_solver). split; [done|].
  destruct ends_not_nodes as (N1 & N2 & _). pose proof (iv_nodup _ _ Hinv) as (_ & Hd & _)%NoDup_app.
  unfold whole_list. rewrite elem_of_cons, elem_of_app, list_elem_of_singleton. intros [->|[Hl| ->]]; [done| |done].
  apply (Hd a Hl). set_solver.
Qed.

Lemma inv_trail : trail L U (linked st ++ [list_tail L]) (gone st) h.
Proof.
  assert (forall a, a ∈ linked st ++ [list_tail L] -> a ∈ whole st) as Hsub by (intros a Ha; by apply elem_of_cons; right).
  split.
  - pose proof (iv_nodup _ _ Hinv) as (_ & _ & Hnd)%NoDup_app. by apply NoDup_app in Hnd as (_ & _ & Hnd).
  - intros a [Ha|Ha]%elem_of_app; [by apply whole_known, Hsub|]. apply gone_known in Ha as [Ha _]. by right; right.
  - intros a Ha Hg. apply gone_known in Hg as [_ Hg]. by apply Hg, Hsub.
  - intros a Ha. by apply whole_next, Hsub.
  - intros n s Hin. destruct (iv_gone _ _ Hinv n s Hin) as (G1 & b & G2 & Hb).
    assert (n ∈ (gone st).*1) as Hn by (apply list_elem_of_fmap; by exists (n, s)). destruct (gone_known n Hn) as [Hn1 Hn2].
    destruct ends_not_nodes as (N1 & N2 & _). split; [done|]. split; [by intros ->|]. split; [by intros ->|].
    exists b. split; [done|]. apply elem_of_app in Hb as [Hb|Hb].
    + split; [by apply whole_known|]. destruct (whole_next b Hb) as (v & ? & ?). exists v. split; [done|by apply fits_60_61].
    + split; [destruct (gone_known b Hb); by right; right|]. apply list_elem_of_fmap in Hb as ([b' s'] & Eb & Hb). cbn in Eb. subst b'.
      destruct (iv_gone _ _ Hinv b s' Hb) as (G3 & _). exists (s' .| kNodeDeleted). split; [done|].
      pose proof Hb as (l1 & l2 & E)%list_elem_of_split. apply mark_set. refine (proj1 (node_fits L U HU s' _)).
      destruct (iv_leads _ _ Hinv l1 b s' l2 E) as [Hs|Hs]; [by apply whole_known, Hsub|].
      right; right. apply gone_known. rewrite E. by apply later_in.
  - intros l1 n s l2 E. by apply (iv_leads _ _ Hinv l1 n).
Qed.

(** A place in the list. *)
Lemma place_links m1 m2 : linked st = m1 ++ m2 -> let prev := before L m1 in let next := after L m2 in
  prev ∈ whole st /\ next ∈ whole st /\ prev <> next /\ prev <> list_tail L /\ next <> list_head L /\
  h !! node_next prev = Some next /\ h !! node_prev next = Some prev.
Proof.
  intros E prev next. destruct (split_place L m1 m2 0) as (ys & zs & E1 & _). rewrite <- E in E1. fold prev next in E1.
  assert (adjacent (whole st) prev next) as Hadj by (by exists ys, zs). destruct (adjacent_in _ _ _ Hadj).
  destruct (ends_apart L _ _ _ _ _ whole_nodup E1) as [N1 N2]. destruct (iv_links _ _ Hinv _ _ Hadj).
  split_and!; try done. intros Eq. pose proof whole_nodup as Hnd. rewrite E1, Eq in Hnd. apply NoDup_app in Hnd as (_ & _ & Hnd).
  apply NoDup_cons in Hnd as [Hnd _]. apply Hnd. left.
Qed.

(** A node outside the list is unlike the nodes inside. *)
Lemma loose_known n : n ∈ loose st -> n ∈ W /\ n ∉ whole st /\ n ∉ (gone st).*1.
Proof.
  intros Hn. assert (n ∈ U) as HnU by (apply (iv_known _ _ Hinv); set_solver). destruct ends_not_nodes as (N1 & N2 & _).
  pose proof (iv_nodup _ _ Hinv) as (_ & Hd & (_ & Hd2 & _)%NoDup_app)%NoDup_app. split; [by right; right|]. split; [|by apply Hd2].
  unfold whole_list. rewrite elem_of_cons, elem_of_app, list_elem_of_singleton. intros [->|[Hl| ->]]; [done| |done].
  apply (Hd n Hl). set_solver.
Qed.
End state.

(** Fields of nodes are apart. *)
Lemma field_inj x y f g : x ∈ W -> y ∈ W -> f = node_prev \/ f = node_next -> g = node_prev \/ g = node_next -> f x = g y -> x = y /\ f = g.
Proof.
  intros Hx Hy Hf Hg E. destruct (nd_apart _ _ HU x y Hx Hy) as [->|Hap].
  - split; [done|]. destruct Hf as [-> | ->], Hg as [-> | ->]; done || node_cells.
  - exfalso. unfold apart in Hap. destruct Hf as [-> | ->], Hg as [-> | ->]; node_cells.
Qed.

Lemma field_payload x y f : x ∈ W -> y ∈ W -> f = node_prev \/ f = node_next -> f y <> node_payload_size x.
Proof.
  intros Hx Hy Hf E. unfold node_payload_size in E. destruct (nd_apart _ _ HU x y Hx Hy) as [->|Hap]; unfold apart in *;
    destruct Hf as [-> | ->]; node_cells.
Qed.

Section insertion.
Context (prev n next : Z) (h : gmap Z Z) (Hp : prev ∈ W) (Hm : n ∈ W) (Hn : next ∈ W).

Lemma inserted_field x f : x ∈ W -> f = node_prev \/ f = node_next -> x <> n -> ~ (x = prev /\ f = node_next) -> ~ (x = next /\ f = node_prev) ->
  inserted_cells prev n next h !! f x = h !! f x.
Proof.
  intros Hx Hf Hne N1 N2. unfold inserted_cells, set_links_of.
  rewrite !lookup_insert_ne; [done|..]; intros E; (eapply field_inj in E as [? ?]; [|auto..]); naive_solver.
Qed.

Lemma inserted_payload x : x ∈ W -> inserted_cells prev n next h !! node_payload_size x = h !! node_payload_size x.
Proof. intros Hx. unfold inserted_cells, set_links_of. rewrite !lookup_insert_ne; [done|..]; by apply field_payload; auto. Qed.
End insertion.

Lemma inv_insert st h m1 m2 n : inv st h -> linked st = m1 ++ m2 -> n ∈ loose st ->
  inv (Contents (m1 ++ n :: m2) (drop_node n (loose st)) (gone st)) (inserted_cells (before L m1) n (after L m2) h).
Proof.
  intros Hinv E Hloose. set (prev := before L m1). set (next := after L m2).
  destruct (place_links st h Hinv m1 m2 E) as (Pin & Nin & Hne & Nt & Nh & F1 & F2). fold prev next in Pin, Nin, Hne, Nt, Nh, F1, F2.
  destruct (loose_known st h Hinv n Hloose) as (HnW & Hnw & Hng).
  assert (prev ∈ W /\ next ∈ W) as [HpW HxW] by (split; by eapply whole_known).
  assert (prev <> n /\ next <> n) as [Npn Nxn] by (split; by intros ->).
  pose proof (inserted_field prev n next h HpW HnW HxW) as Hsame. pose proof next_not_prev as Hnp.
  destruct (split_place L m1 m2 n) as (ys & zs & E1 & E2). fold prev next in E1, E2. rewrite <- E in E1.
  assert (forall a, a ∈ whole st -> a ∈ whole_list L (m1 ++ n :: m2)) as Hgrow.
  { intros a. rewrite E1, E2, !elem_of_app, !elem_of_cons. tauto. }
  assert (linked st ++ loose st ++ (gone st).*1 ≡ₚ (m1 ++ n :: m2) ++ drop_node n (loose st) ++ (gone st).*1) as Hperm.
  { pose proof (iv_nodup _ _ Hinv) as (_ & _ & (Hnd & _)%NoDup_app)%NoDup_app.
    rewrite E, (drop_node_perm n (loose st) Hnd Hloose) at 1. rewrite <- !app_assoc. cbn. solve_Permutation. }
  split; cbn [linked loose gone].
  - rewrite <- Hperm. apply Hinv.
  - intros a Ha. rewrite <- Hperm in Ha. by apply (iv_known _ _ Hinv).
  - rewrite E2. pose proof (whole_nodup st h Hinv) as Hnd. pose proof (iv_links _ _ Hinv) as Hl.
    assert (forall x, x ∈ ys ++ prev :: next :: zs -> x ∈ whole st) as Hin by (by rewrite E1). rewrite E1 in Hnd, Hl.
    apply (links_inserted h); [done|done|..].
    5: { intros x f Hx Hf N1 N2. apply Hin in Hx. apply Hsame; [by eapply whole_known|done|by intros ->|done|done]. }
    all: unfold inserted_cells, set_links_of; repeat (rewrite lookup_insert_eq || rewrite lookup_insert_ne); try done;
      intros Eq; (eapply field_inj in Eq as [? ?]; [|auto..]); naive_solver.
  - destruct ends_not_nodes as (N1 & N2 & N3). rewrite Hsame; [apply (iv_head _ _ Hinv)|by left|by left| |naive_solver|naive_solver].
    intros <-. apply Hnw. by left.
  - rewrite Hsame; [apply (iv_tail _ _ Hinv)|by right; left|by right| |naive_solver|naive_solver].
    intros <-. apply Hnw. unfold whole_list. set_solver.
  - intros a [Na Ha]%drop_node_in. destruct (loose_known st h Hinv a Ha) as (HaW & Haw & _).
    rewrite inserted_payload, !Hsame by (auto; intros [-> ?]; done). by apply (iv_loose _ _ Hinv).
  - intros a s Ha. destruct (iv_gone _ _ Hinv a s Ha) as (G1 & b & G2 & Hb).
    assert (a ∈ (gone st).*1) as Hag by (apply list_elem_of_fmap; by exists (a, s)). destruct (gone_known st h Hinv a Hag) as [HaU Haw].
    assert (a ∈ W) by (by right; right). assert (a <> n) by (by intros ->).
    rewrite !Hsame by (auto; intros [-> ?]; done). split; [done|]. exists b. split; [done|].
    apply elem_of_app in Hb as [Hb|Hb]; apply elem_of_app; [left; by apply Hgrow|by right].
  - intros l1 a s l2 El. destruct (iv_leads _ _ Hinv l1 a s l2 El) as [Hs|Hs]; [left|by right].
    rewrite E in Hs. rewrite !elem_of_app, ?elem_of_cons in *. tauto.
Qed.

Section deletion.
Context (prev n next : Z) (h : gmap Z Z) (Hp : prev ∈ W) (Hm : n ∈ W) (Hn : next ∈ W).

Lemma deleted_field x f : x ∈ W -> f = node_prev \/ f = node_next -> x <> n -> ~ (x = prev /\ f = node_next) -> ~ (x = next /\ f = node_prev) ->
  deleted_cells prev n next h !! f x = h !! f x.
Proof.
  intros Hx Hf Hne N1 N2. unfold deleted_cells, marked_cells.
  rewrite !lookup_insert_ne; [done|..]; intros E; (eapply field_inj in E as [? ?]; [|auto..]); naive_solver.
Qed.

Lemma deleted_payload x : x ∈ W -> deleted_cells prev n next h !! node_payload_size x = h !! node_payload_size x.
Proof. intros Hx. unfold deleted_cells, marked_cells. rewrite !lookup_insert_ne; [done|..]; by apply field_payload; auto. Qed.
End deletion.

(** The node to delete and its neighbours. *)
Lemma place_of_node st h m1 m2 n : inv st h -> linked st = m1 ++ n :: m2 -> let prev := before L m1 in let next := after L m2 in
  exists ys zs, whole st = ys ++ prev :: n :: next :: zs /\ whole_list L (m1 ++ m2) = ys ++ prev :: next :: zs /\
  prev ∈ whole st /\ n ∈ whole st /\ next ∈ whole st /\ prev <> n /\ n <> next /\ prev <> next /\
  n <> list_head L /\ n <> list_tail L /\ n ∉ m1 ++ m2 /\
  h !! node_next prev = Some n /\ h !! node_prev n = Some prev /\ h !! node_next n = Some next /\ h !! node_prev next = Some n.
Proof.
  intros Hinv E prev next. destruct (split_place L m1 m2 n) as (ys & zs & E1 & E2). rewrite <- E in E2. fold prev next in E1, E2.
  exists ys, zs. pose proof (whole_nodup st h Hinv) as Hnd. rewrite E2 in Hnd. pose proof (iv_links _ _ Hinv) as Hl.
  destruct (Hl prev n) as [F1 F2]; [by exists ys, (next :: zs)|].
  destruct (Hl n next) as [F3 F4]; [exists (ys ++ [prev]), zs; by rewrite <- app_assoc|].
  assert (n ∈ U) as HnU by (apply (iv_known _ _ Hinv); rewrite E; set_solver). destruct ends_not_nodes as (N1 & N2 & _).
  pose proof (iv_nodup _ _ Hinv) as (Hnd2 & _)%NoDup_app. rewrite E in Hnd2.
  apply NoDup_app in Hnd as (_ & _ & Hnd). rewrite !NoDup_cons, !elem_of_cons in Hnd. destruct Hnd as (K1 & K2 & _).
  split; [done|]. split; [done|]. rewrite E2.
  split_and!; try (rewrite !elem_of_app, !elem_of_cons; tauto); try done; try (intros Eq; rewrite Eq in *; tauto).
  rewrite <- Permutation_middle in Hnd2. by apply NoDup_cons in Hnd2 as [Hnd2 _].
Qed.

Lemma inv_delete st h m1 m2 n : inv st h -> linked st = m1 ++ n :: m2 ->
  inv (Contents (m1 ++ m2) (loose st) (gone st ++ [(n, after L m2)])) (deleted_cells (before L m1) n (after L m2) h).
Proof.
  intros Hinv E. destruct (place_of_node st h m1 m2 n Hinv E) as (ys & zs & E2 & E1 & Pin & Min & Nin & Npm & Nmn & Npn & Nh & Nt & Nm & F1 & F2 & F3 & F4).
  set (prev := before L m1) in *. set (next := after L m2) in *.
  assert (prev ∈ W /\ n ∈ W /\ next ∈ W) as (HpW & HmW & HnW) by (split_and!; by eapply whole_known).
  pose proof (deleted_field prev n next h HpW HmW HnW) as Hsame. pose proof next_not_prev as Hnp.
  pose proof (iv_nodup _ _ Hinv) as Hnd.
  assert (linked st ++ loose st ++ (gone st).*1 ≡ₚ (m1 ++ m2) ++ loose st ++ (gone st ++ [(n, next)]).*1) as Hperm.
  { rewrite E, fmap_app. cbn. rewrite <- !app_assoc. cbn. solve_Permutation. }
  assert (forall a, a ∈ whole st -> a <> n -> a ∈ whole_list L (m1 ++ m2)) as Hshrink.
  { intros a. rewrite E1, E2, !elem_of_app, !elem_of_cons. tauto. }
  assert (forall a, a ∈ whole_list L (m1 ++ m2) -> a ∈ whole st) as Hin.
  { intros a. rewrite E1, E2, !elem_of_app, !elem_of_cons. tauto. }
  assert (NoDup (whole_list L (m1 ++ m2)) /\ n ∉ whole_list L (m1 ++ m2)) as [Hnd' Hnw].
  { pose proof (whole_nodup st h Hinv) as Hw. rewrite E2 in Hw. rewrite E1.
    assert (ys ++ prev :: n :: next :: zs ≡ₚ n :: ys ++ prev :: next :: zs) as Hp2 by solve_Permutation.
    rewrite Hp2 in Hw. apply NoDup_cons in Hw as [? ?]. done. }
  split; cbn [linked loose gone].
  - by rewrite <- Hperm.
  - intros a Ha. rewrite <- Hperm in Ha. by apply (iv_known _ _ Hinv).
  - pose proof (iv_links _ _ Hinv) as Hl. rewrite E2 in Hl. rewrite E1 in Hnd', Hin, Hnw |- *.
    apply (links_deleted h _ _ _ _ _ n); [done|done|..].
    3: { intros x f Hx Hf N1 N2. apply Hsame; [by eapply whole_known, Hin|done|by intros ->|done|done]. }
    all: unfold deleted_cells, marked_cells; repeat (rewrite lookup_insert_eq || rewrite lookup_insert_ne); try done;
      intros Eq; (eapply field_inj in Eq as [? ?]; [|auto..]); naive_solver.
  - assert (next <> list_head L) as Nxh.
    { intros Eq. destruct (ends_apart L _ _ _ _ _ Hnd' E1) as [K _]. by apply K. }
    rewrite Hsame; [apply (iv_head _ _ Hinv)|by left|by left|done|naive_solver|naive_solver].
  - assert (prev <> list_tail L) as Npt.
    { intros Eq. destruct (ends_apart L _ _ _ _ _ Hnd' E1) as [_ K]. by apply K. }
    rewrite Hsame; [apply (iv_tail _ _ Hinv)|by right; left|by right|done|naive_solver|naive_solver].
  - intros a Ha. destruct (loose_known st h Hinv a Ha) as (HaW & Haw & _).
    rewrite deleted_payload, !Hsame by (auto; try (by intros ->); intros [-> ?]; done). by apply (iv_loose _ _ Hinv).
  - assert (deleted_cells prev n next h !! node_next n = Some (next .| kNodeDeleted) /\
      deleted_cells prev n next h !! node_prev n = Some (prev .| kNodeDeleted)) as [D1 D2].
    { unfold deleted_cells, marked_cells. split; repeat (rewrite lookup_insert_eq || rewrite lookup_insert_ne); try done;
        intros Eq; (eapply field_inj in Eq as [? ?]; [|auto..]); naive_solver. }
    intros a s [Ha|[= -> ->]%list_elem_of_singleton]%elem_of_app.
    + destruct (iv_gone _ _ Hinv a s Ha) as (G1 & b & G2 & Hb).
      assert (a ∈ (gone st).*1) as Hag by (apply list_elem_of_fmap; by exists (a, s)). destruct (gone_known st h Hinv a Hag) as [HaU Haw].
      assert (a ∈ W) by (by right; right). assert (a <> n) by (by intros ->).
      rewrite !Hsame by (auto; intros [-> ?]; done). split; [done|]. exists b. split; [done|]. rewrite fmap_app.
      destruct (decide (b = n)) as [->|Hbn]; [apply elem_of_app; right; apply elem_of_app; right; left|].
      apply elem_of_app in Hb as [Hb|Hb]; apply elem_of_app; [left; by apply Hshrink|right; apply elem_of_app; by left].
    + split; [done|]. exists prev. split; [done|]. apply elem_of_app. left. by apply Hshrink.
  - intros l1 a s l2 El. destruct l2 as [|x l2 _] using rev_ind.
    + apply app_inj_tail in El as [_ [= <- <-]]. left.
      unfold next, after. destruct m2 as [|x m2]; cbn; apply elem_of_app; [right; left|left; apply elem_of_app; right; left].
    + rewrite app_comm_cons, app_assoc in El. apply app_inj_tail in El as [El <-].
      destruct (iv_leads _ _ Hinv l1 a s l2 El) as [Hs|Hs]; rewrite fmap_app; [|right; apply elem_of_app; by left].
      destruct (decide (s = n)) as [->|Hsn]; [right; apply elem_of_app; right; left|left]. rewrite E in Hs. rewrite !elem_of_app, ?elem_of_cons in *. tauto.
Qed.

Lemma inv_make st h n p x size : inv st h -> n ∈ U -> n ∉ linked st ++ loose st ++ (gone st).*1 ->
  inv (Contents (linked st) (n :: loose st) (gone st)) (<[node_payload_size n := size]> (<[node_next n := x]> (<[node_prev n := p]> h))).
Proof.
  intros Hinv HnU Hn. assert (n ∈ W) as HnW by (by right; right). destruct ends_not_nodes as (N1 & N2 & _).
  assert (n ∉ whole st) as Hnw.
  { unfold whole_list. rewrite elem_of_cons, elem_of_app, list_elem_of_singleton. intros [->|[Hl| ->]]; [done| |done]. set_solver. }
  set (h' := <[node_payload_size n := size]> (<[node_next n := x]> (<[node_prev n := p]> h))).
  assert (forall a i, a ∈ W -> a <> n -> 0 <= i <= 16 -> h' !! (a + i) = h !! (a + i)) as Hsame.
  { intros a i Ha Hne Hi. destruct (nd_apart _ _ HU a n Ha HnW) as [?|Hap]; [done|]. unfold h', apart, node_payload_size in *.
    rewrite !lookup_insert_ne by node_cells. done. }
  assert (forall a, a ∈ W -> a <> n -> h' !! node_prev a = h !! node_prev a) as Hprev.
  { intros a Ha Hne. specialize (Hsame a 0 Ha Hne). rewrite Z.add_0_r in Hsame. by apply Hsame. }
  assert (forall a, a ∈ W -> a <> n -> h' !! node_next a = h !! node_next a) as Hnext by (intros; by apply (Hsame _ 8)).
  assert (forall a, a ∈ W -> a <> n -> h' !! node_payload_size a = h !! node_payload_size a) as Hpay by (intros; by apply (Hsame _ 16)).
  assert (forall a, a ∈ whole st -> a ∈ W /\ a <> n) as Hin by (intros a Ha; split; [by eapply whole_known|by intros ->]).
  destruct (ends_in L (linked st)) as [Ih It].
  split; cbn [linked loose gone].
  - rewrite <- app_comm_cons, <- Permutation_middle. apply NoDup_cons. split; [done|apply Hinv].
  - intros a. rewrite <- app_comm_cons, <- Permutation_middle. intros [->|Ha]%elem_of_cons; [done|]. by apply (iv_known _ _ Hinv).
  - intros a b Hab. destruct (adjacent_in _ _ _ Hab) as [Ha Hb]. destruct (iv_links _ _ Hinv a b Hab), (Hin a Ha), (Hin b Hb).
    by rewrite Hnext, Hprev.
  - rewrite Hprev by (by apply Hin). apply (iv_head _ _ Hinv).
  - rewrite Hnext by (by apply Hin). apply (iv_tail _ _ Hinv).
  - intros a [->|Ha]%elem_of_cons.
    + unfold h', node_payload_size. repeat (rewrite lookup_insert_eq || rewrite lookup_insert_ne by node_cells). done.
    + destruct (loose_known st h Hinv a Ha) as (HaW & _ & _). assert (a <> n) by (intros ->; set_solver).
      rewrite Hprev, Hnext, Hpay by done. by apply (iv_loose _ _ Hinv).
  - intros a s Ha. destruct (iv_gone _ _ Hinv a s Ha) as (G1 & b & G2 & Hb).
    assert (a ∈ (gone st).*1) as Hag by (apply list_elem_of_fmap; by exists (a, s)). destruct (gone_known st h Hinv a Hag) as [HaU Haw].
    assert (a ∈ W) by (by right; right). assert (a <> n) by (intros ->; apply Hn; rewrite !elem_of_app; auto). rewrite Hnext, Hprev by done. split; [done|by exists b].
  - apply (iv_leads _ _ Hinv).
Qed.

(** ** The operations *)

Section operations.
Context `{PlatformLaws} (pmem : bool) (fuel depth : nat) (fuel_enough : (2 < fuel)%nat).
Notation evl := (evh pmem L U).

(** Memory outside the nodes. *)
Definition elsewhere (h h' : gmap Z Z) : Prop := forall a, (forall n, n ∈ W -> ~ n <= a < n + 64) -> h' !! a = h !! a.

Lemma elsewhere_insert h h' n i v : elsewhere h h' -> n ∈ W -> 0 <= i < 64 -> elsewhere h (<[n + i := v]> h').
Proof. intros He Hn Hi a Ha. rewrite lookup_insert_ne; [by apply He|]. intros <-. apply (Ha n Hn). lia. Qed.

Lemma elsewhere_next h h' n v : elsewhere h h' -> n ∈ W -> elsewhere h (<[node_next n := v]> h').
Proof. intros He Hn. by apply elsewhere_insert. Qed.
Lemma elsewhere_prev h h' n v : elsewhere h h' -> n ∈ W -> elsewhere h (<[node_prev n := v]> h').
Proof. intros He Hn. unfold node_prev. rewrite <- (Z.add_0_r n). by apply elsewhere_insert. Qed.

Definition goes {A} (q : prog Mem A) (h : gmap Z Z) (x : A) (st' : contents) : Prop :=
  exists h', evl q h (anywhere) x h' (anywhere) /\ inv st' h' /\ elsewhere h h'.

Lemma goes_ret {A B} (q : prog Mem A) (f : A -> B) h x st' : goes q h x st' -> goes (let! a := q in Ret (f a)) h (f x) st'.
Proof. intros (h' & Hq & Hr). exists h'. split; [|done]. eapply evh_bind; [exact Hq|apply evh_ret]. Qed.

Section at_state.
Context (st : contents) (h : gmap Z Z) (Hinv : inv st h) (gone_fuel : (length (gone st) <= fuel)%nat).

Lemma goes_MakeNode n p x size : n ∈ U -> n ∉ linked st ++ loose st ++ (gone st).*1 ->
  goes (NewNode n p x size) h n (Contents (linked st) (n :: loose st) (gone st)).
Proof.
  intros HnU Hn. assert (n ∈ W) as HnW by (by right; right). eexists. split; [|split; [by apply (inv_make st h n p x size)|]].
  - unfold NewNode. eapply evh_bind; [apply evh_check; by rewrite (proj2 (node_fits L U HU n HnW))|]. eapply evh_bind; [|apply evh_ret].
    unfold DListNode_new. eapply evh_bind; [apply evh_construct, (prev_rng L U HU); done|].
    eapply evh_bind; [apply evh_construct, (next_rng L U HU); done|]. by apply evh_construct, (node_rng L U HU n 16).
  - apply elsewhere_insert; [|done|done]. apply elsewhere_next; [|done]. by apply elsewhere_prev.
Qed.

(** What insertion asks of a place. *)
Lemma place_spot m1 m2 n : linked st = m1 ++ m2 -> n ∈ loose st -> exists pp, fits 60 pp /\ spot (before L m1) n (after L m2) pp h.
Proof.
  intros E Hn. destruct (place_links st h Hinv m1 m2 E) as (Pin & Nin & _ & _ & _ & F1 & F2).
  destruct (whole_prev st h Hinv _ Pin) as (pp & Ep & Fp), (whole_next st h Hinv _ Nin) as (nn & En & Fn), (iv_loose _ _ Hinv n Hn) as (K1 & K2 & _).
  exists pp. split; [done|]. split; try done. by exists nn.
Qed.

Lemma inserted_elsewhere prev n next : prev ∈ W -> n ∈ W -> next ∈ W -> elsewhere h (inserted_cells prev n next h).
Proof.
  intros Hp Hm Hn. unfold inserted_cells, set_links_of. apply elsewhere_prev; [|done]. apply elsewhere_next; [|done].
  apply elsewhere_next; [|done]. by apply elsewhere_prev.
Qed.

Section at_place.
Context (m1 m2 : list Z) (n : Z) (E : linked st = m1 ++ m2) (Hn : n ∈ loose st).
Let st' := Contents (m1 ++ n :: m2) (drop_node n (loose st)) (gone st).

Lemma goes_before d : after L m2 <> list_head L -> goes (CAS_InsertBefore pmem fuel d L (after L m2) n) h Status_OK st'.
Proof.
  intros Nh. destruct (place_links st h Hinv m1 m2 E) as (Pin & Nin & Hne & _ & _ & _ & _), (place_spot m1 m2 n E Hn) as (pp & Fpp & Hsp).
  destruct (loose_known st h Hinv n Hn) as (HnW & Hnw & _), (iv_loose _ _ Hinv n Hn) as (_ & _ & K3).
  assert (before L m1 ∈ W /\ after L m2 ∈ W) as [HpW HxW] by (split; by eapply whole_known).
  eexists. split; [|split; [by apply (inv_insert st h m1 m2 n)|by apply inserted_elsewhere]].
  eapply evh_InsertBefore; eauto; by intros Eq; rewrite ?Eq in *; rewrite <- ?Eq in *.
Qed.

Lemma goes_after d : before L m1 <> list_tail L -> goes (CAS_InsertAfter pmem fuel d L (before L m1) n) h Status_OK st'.
Proof.
  intros Nt. destruct (place_links st h Hinv m1 m2 E) as (Pin & Nin & Hne & _ & _ & _ & _), (place_spot m1 m2 n E Hn) as (pp & Fpp & Hsp).
  destruct (loose_known st h Hinv n Hn) as (HnW & Hnw & _), (iv_loose _ _ Hinv n Hn) as (_ & _ & K3).
  assert (before L m1 ∈ W /\ after L m2 ∈ W) as [HpW HxW] by (split; by eapply whole_known).
  eexists. split; [|split; [by apply (inv_insert st h m1 m2 n)|by apply inserted_elsewhere]].
  eapply evh_InsertAfter; eauto; by intros Eq; rewrite ?Eq in *; rewrite <- ?Eq in *.
Qed.
End at_place.

Lemma linked_ends : list_head L ∉ linked st /\ list_tail L ∉ linked st.
Proof.
  destruct ends_not_nodes as (N1 & N2 & _). split; intros Hx; [apply N1|apply N2]; apply (iv_known _ _ Hinv), elem_of_app; by left.
Qed.

Lemma goes_first n d : n ∈ loose st -> goes (CAS_InsertAfter pmem fuel d L (list_head L) n) h Status_OK
  (Contents (n :: linked st) (drop_node n (loose st)) (gone st)).
Proof. intros Hn. destruct ends_not_nodes as (_ & _ & N3). by apply (goes_after [] (linked st)). Qed.

Lemma goes_last n d : n ∈ loose st -> goes (CAS_InsertBefore pmem fuel d L (list_tail L) n) h Status_OK
  (Contents (linked st ++ [n]) (drop_node n (loose st)) (gone st)).
Proof. intros Hn. destruct ends_not_nodes as (_ & _ & N3). apply (goes_before (linked st) []); [by rewrite app_nil_r|done|]. by intros ?. Qed.

(** The sentinels pass the insertion on to each other's side. *)
Lemma evh_pass (b : bool) msg n x {B} (k : prog Mem B) y h' : n ∈ W -> x ∈ W -> b = true -> evl k h anywhere y h' anywhere ->
  evl (check b msg ;;; not_dirty pmem n "dirty node pointer" ;;; not_dirty pmem x "dirty next pointer" ;;; k) h anywhere y h' anywhere.
Proof.
  intros Hn Hx Hb Hk. eapply evh_bind; [by apply evh_check|]. do 2 (eapply evh_bind; [by apply evh_not_dirty, (node_fits L U HU)|]). done.
Qed.

Lemma goes_InsertBefore x n : (0 < depth)%nat -> x ∈ whole st -> n ∈ loose st ->
  goes (CAS_InsertBefore pmem fuel depth L x n) h Status_OK (list_step L (InsertBefore x n) st).2.
Proof.
  intros Hd Hx Hn. cbn [list_step snd]. destruct (Z.eqb_spec x (list_head L)) as [->|Hne].
  - destruct (goes_first n (pred depth) Hn) as (h' & Hev & Hr). exists h'. split; [|done]. destruct depth as [|d]; [lia|]. cbn [CAS_InsertBefore pred] in *.
    apply evh_pass; [by eapply loose_known|left|by rewrite (proj1 (unmarked _ (proj1 (node_fits L U HU _ ltac:(left)))))|].
    by rewrite Z.eqb_refl.
  - destruct linked_ends as [N1 N2]. destruct (put_before_place L x n (linked st)) as (m1 & m2 & E & <- & ->); [|done|by apply goes_before].
    unfold whole_list in Hx. set_solver.
Qed.

Lemma goes_InsertAfter x n : (0 < depth)%nat -> x ∈ whole st -> n ∈ loose st ->
  goes (CAS_InsertAfter pmem fuel depth L x n) h Status_OK (list_step L (InsertAfter x n) st).2.
Proof.
  intros Hd Hx Hn. cbn [list_step snd]. destruct ends_not_nodes as (_ & _ & N3), linked_ends as [N1 N2].
  destruct (Z.eqb_spec x (list_head L)) as [->|Hne]; [by apply goes_first|]. destruct (decide (x = list_tail L)) as [->|Hnt].
  - rewrite put_after_absent by done. destruct (goes_last n (pred depth) Hn) as (h' & Hev & Hr). exists h'. split; [|done].
    destruct depth as [|d]; [lia|]. cbn [CAS_InsertAfter pred] in *. assert (list_tail L ∈ W) as HtW by (by right; left).
    apply evh_pass; [by eapply loose_known|done|by rewrite (proj1 (unmarked _ (proj1 (node_fits L U HU _ HtW))))|]. by rewrite Z.eqb_refl.
  - destruct (put_after_place L x n (linked st)) as (m1 & m2 & E & <- & ->); [|done|by apply goes_after].
    unfold whole_list in Hx. set_solver.
Qed.

Lemma goes_same {A} (q : prog Mem A) x : evl q h anywhere x h anywhere -> goes q h x st.
Proof. intros Hq. exists h. by split_and!. Qed.

Lemma next_of_linked m1 n m2 : linked st = m1 ++ n :: m2 -> next_of L st n = after L m2.
Proof.
  intros E. destruct (place_of_node st h m1 m2 n Hinv E) as (ys & zs & E2 & _ & _ & Min & _). unfold next_of.
  rewrite bool_decide_eq_false_2 by (intros Hg; by apply (gone_known st h Hinv n Hg)).
  apply follower_of; [by eapply whole_nodup|]. exists (ys ++ [before L m1]), zs. by rewrite E2, <- app_assoc.
Qed.

Lemma goes_Delete n : n ∈ whole st \/ n ∈ (gone st).*1 -> goes (CAS_Delete pmem fuel L n) h Status_OK (list_step L (Delete n) st).2.
Proof.
  intros Hn. cbn [list_step snd]. destruct linked_ends as [N1 N2]. case_bool_decide as Hin.
  - apply list_elem_of_split in Hin as (m1 & m2 & E). rewrite (next_of_linked m1 n m2 E).
    pose proof (iv_nodup _ _ Hinv) as (Hnd & _)%NoDup_app. rewrite E in Hnd |- *. rewrite drop_node_split by done.
    destruct (place_of_node st h m1 m2 n Hinv E) as (ys & zs & E2 & E1 & Pin & Min & Nin & Npm & Nmn & Npn & Nh & Nt & Nm & F1 & F2 & F3 & F4).
    assert (before L m1 ∈ W /\ n ∈ W /\ after L m2 ∈ W) as (HpW & HmW & HnW) by (split_and!; by eapply whole_known).
    destruct (whole_prev st h Hinv _ Pin) as (pp & Ep & Fp), (whole_next st h Hinv (list_head L) ltac:(left)) as (a & Ea & Fa).
    eexists. split; [|split; [by apply (inv_delete st h m1 m2 n)|]].
    + apply (evh_Delete pmem fuel L U HU _ _ _ pp); try done. split; try done. by exists a.
    + unfold deleted_cells, marked_cells. apply elsewhere_prev; [|done]. apply elsewhere_next; [|done]. apply elsewhere_prev; [|done]. by apply elsewhere_next.
  - apply goes_same. destruct Hn as [Hn|Hn].
    + destruct (whole_next st h Hinv n Hn) as (a & Ea & Fa), (whole_prev st h Hinv n Hn) as (b & Eb & Fb).
      eapply evh_Delete_sentinel; eauto. unfold whole_list in Hn. set_solver.
    + destruct (gone_known st h Hinv n Hn) as [HnU Hnw]. pose proof (inv_trail st h Hinv) as Ht.
      pose proof Hn as ([n' s] & En & Hs)%list_elem_of_fmap. cbn in En. subst n'. destruct (tr_gone _ _ _ _ _ Ht n s Hs) as (G1 & G2 & G3 & _).
      eapply evh_Delete_gone; eauto; [lia|by right; right|]. refine (proj1 (node_fits L U HU s _)). apply (tr_known _ _ _ _ _ Ht).
      pose proof Hs as (l1 & l2 & E)%list_elem_of_split. apply elem_of_app. destruct (tr_leads _ _ _ _ _ Ht l1 n s l2 E); [by left|right].
      rewrite E. by apply later_in.
Qed.

Lemma whole_split a : a ∈ whole st -> a = list_tail L \/ exists b, adjacent (whole st) a b.
Proof.
  intros Ha. destruct (in_list_next _ _ Ha) as [?|[ys E]]; [by right|left]. unfold whole_list in E. rewrite app_comm_cons in E.
  by apply app_inj_tail in E as [_ <-].
Qed.

Lemma goes_GetNext n : n ∈ whole st \/ n ∈ (gone st).*1 -> goes (CAS_GetNext pmem fuel L n) h (next_of L st n) st.
Proof.
  intros Hn. apply goes_same. pose proof (whole_nodup st h Hinv) as Hnd. unfold next_of. case_bool_decide as Hg.
  - by apply (evh_GetNext_gone pmem fuel L U HU _ _ _ _ (inv_trail st h Hinv)).
  - destruct Hn as [Hn|]; [|done]. destruct (whole_split n Hn) as [->|[b Hab]].
    + unfold whole_list at 1. rewrite app_comm_cons, follower_last; [apply evh_GetNext_end; lia|].
      destruct ends_not_nodes as (_ & _ & N3), linked_ends as [_ N2]. set_solver.
    + rewrite (follower_of _ n b) by done. destruct (adjacent_in _ _ _ Hab) as [_ Hb], (iv_links _ _ Hinv n b Hab) as [F1 F2].
      destruct (whole_next st h Hinv b Hb) as (x & Ex & Fx).
      eapply evh_GetNext; eauto; [lia|by eapply whole_known|by eapply whole_known|].
      intros ->. pose proof (iv_tail _ _ Hinv) as Ht. rewrite Ht in F1. injection F1 as <-.
      apply (whole_known st h Hinv), (nd_addr _ _ HU) in Hb. lia.
Qed.

Lemma goes_GetPrev n : n ∈ whole st \/ n ∈ (gone st).*1 -> goes (CAS_GetPrev pmem fuel L n) h (prev_of L st n) st.
Proof.
  intros Hn. apply goes_same. pose proof (inv_trail st h Hinv) as Ht. pose proof (whole_nodup st h Hinv) as Hnd. unfold prev_of.
  assert (forall a b, adjacent (whole st) a b -> follower b (reverse (whole st)) = a) as Hback.
  { intros a b Hab. apply follower_of; [by rewrite reverse_Permutation|by apply adjacent_rev]. }
  assert (forall b, b ∈ whole st -> b <> list_head L -> exists a x, adjacent (whole st) a b /\ b <> list_head L /\ a ∈ W /\ b ∈ W /\
    h !! node_prev b = Some a /\ h !! node_next a = Some b /\ h !! node_next b = Some x /\ fits 60 x) as Hplace.
  { intros b Hb Nh. destruct (in_list_prev _ _ Hb) as [[a Hab]|[zs E]]; [|unfold whole_list in E; congruence].
    destruct (adjacent_in _ _ _ Hab) as [Ha _], (iv_links _ _ Hinv a b Hab) as [F1 F2], (whole_next st h Hinv b Hb) as (x & Ex & Fx).
    exists a, x. split_and!; try done; by eapply whole_known. }
  destruct (decide (n ∈ (gone st).*1)) as [Hg|Hg].
  - destruct (evh_GetNext_gone pmem fuel L U HU _ _ _ _ Ht Hg gone_fuel) as [Hl _].
    assert (landing (gone st) n ∈ whole st) as Hlw by (by apply elem_of_cons; right).
    destruct ends_not_nodes as (_ & _ & N3), linked_ends as [N1 _]. destruct (Hplace _ Hlw) as (a & x & Hab & ? & ? & ? & ? & ? & ? & ?).
    { intros Eq. rewrite Eq in Hl. by apply elem_of_app in Hl as [?|?%list_elem_of_singleton]. }
    rewrite (Hback a) by done. eapply evh_GetPrev_gone; eauto. lia.
  - destruct Hn as [Hn|]; [|done]. rewrite landing_stays by done. destruct (decide (n = list_head L)) as [->|Nh].
    + unfold whole_list. rewrite reverse_cons, follower_last; [apply evh_GetPrev_end; lia|]. rewrite elem_of_reverse.
      destruct ends_not_nodes as (_ & _ & N3), linked_ends as [N1 _]. by intros [?|?%list_elem_of_singleton]%elem_of_app.
    + destruct (Hplace n Hn Nh) as (a & x & Hab & ? & ? & ? & ? & ? & ? & ?). rewrite (Hback a) by done. eapply evh_GetPrev; eauto. lia.
Qed.
End at_state.

Lemma elsewhere_trans h1 h2 h3 : elsewhere h1 h2 -> elsewhere h2 h3 -> elsewhere h1 h3.
Proof. intros H1 H2 a Ha. by rewrite H2, H1. Qed.

(** Every operation does what the specification says. *)
Lemma goes_op o st h : inv st h -> (0 < depth)%nat -> (length (gone st) <= fuel)%nat -> allowed L U o st ->
  goes (run_list_op pmem fuel depth L o) h (list_step L o st).1 (list_step L o st).2.
Proof.
  intros Hinv Hd Hg Ho. destruct o; cbn [run_list_op]; cbn [allowed] in Ho.
  - destruct Ho. by apply (goes_ret _ Node), goes_MakeNode.
  - destruct Ho. by apply (goes_ret _ Code), goes_InsertBefore.
  - destruct Ho. by apply (goes_ret _ Code), goes_InsertAfter.
  - by apply (goes_ret _ Code), goes_Delete.
  - by apply (goes_ret _ Node), goes_GetNext.
  - by apply (goes_ret _ Node), goes_GetPrev.
Qed.

Lemma gone_grows o st : (length (gone (list_step L o st).2) <= S (length (gone st)))%nat.
Proof. destruct o; cbn; try lia. case_bool_decide; cbn; rewrite ?length_app; cbn; lia. Qed.

Lemma goes_ops os : forall st h, inv st h -> (0 < depth)%nat -> (length (gone st) + length os <= fuel)%nat -> all_allowed L U os st ->
  goes (run_list_ops pmem fuel depth L os) h (list_steps L os st).1 (list_steps L os st).2.
Proof.
  induction os as [|o os IH]; intros st h Hinv Hd Hf Hall; cbn [run_list_ops list_steps length] in *.
  - exists h. split; [apply evh_ret|]. by split.
  - destruct Hall as [Ho Hall]. pose proof (gone_grows o st). destruct (goes_op o st h Hinv Hd ltac:(lia) Ho) as (h1 & R1 & I1 & O1).
    destruct (IH _ h1 I1 Hd ltac:(lia) Hall) as (h2 & R2 & I2 & O2). exists h2. split; [|split; [done|by eapply elsewhere_trans]].
    eapply evh_bind; [exact R1|]. eapply evh_bind; [exact R2|apply evh_ret].
Qed.
End operations.
End invariant.

(** ** A new list *)

(** The list at [L] holds the nodes [mid], in order; in the PMEM build a pointer may carry
    the dirty flag. *)
Definition reads (pmem : bool) (c : gmap Z Z) (a v : Z) : Prop := c !! a = Some v \/ pmem = true /\ c !! a = Some (v .| kDirtyFlag).
Definition holds_list (pmem : bool) (L : Z) (mid : list Z) (c : gmap Z Z) : Prop :=
  forall a b, adjacent (whole_list L mid) a b -> reads pmem c (node_next a) b /\ reads pmem c (node_prev b) a.

Definition empty_list : contents := Contents [] [] [].

Lemma sim_holds pmem L U (HU : nodes L U) st c h D : inv L U st h -> sim pmem L U c h D -> holds_list pmem L (linked st) c.
Proof.
  intros Hinv Hs a b Hab. destruct (iv_links _ _ _ _ Hinv a b Hab) as [E1 E2], (adjacent_in _ _ _ Hab) as [Ha Hb].
  assert (a ∈ list_head L :: list_tail L :: U /\ b ∈ list_head L :: list_tail L :: U) as [HaW HbW] by (split; by eapply whole_known).
  split; eapply (sim_some _ _ _ _ _ _ Hs) in E1 as (v & Ev & Hv), E2 as (w & Ew & Hw); try (by apply (next_rng L U HU) || by apply (prev_rng L U HU)).
  - destruct Hv as [->|(?&_&_& ->)]; [by left|by right].
  - destruct Hw as [->|(?&_&_& ->)]; [by left|by right].
Qed.

(** The constructor's cells. *)
Ltac list_cells := unfold list_head, list_tail, sync_method_, node_prev, node_next, node_payload_size in *; lia.

Lemma run_CASDList_new L U rdtsc rd s pmem : nodes L U -> exists s', run (CASDList_new L rdtsc rd) s = (Done tt, s') /\
  sim pmem L U (cells s') (cells s') anywhere /\ inv L U empty_list (cells s') /\
  forall a, ~ L + 8 <= a < L + 160 -> cells s' !! a = cells s !! a.
Proof.
  intros HU. eexists. split; [reflexivity|]. cbn [cells set_cells].
  split; [|split].
  - split.
    + intros a Ha. unfold list_rng in Ha. rewrite !elem_of_cons, elem_of_nil in Ha. destruct Ha as [->|[->|[->|[->|[->|[]]]]]];
        repeat (rewrite lookup_insert_eq || rewrite lookup_insert_ne by list_cells); by eexists.
    + intros a v _ Hv. exists v. split; [exact Hv|by left].
    + done.
  - split; cbn [empty_list linked loose gone app fmap list_fmap]; [by apply NoDup_nil|by intros a Ha%elem_of_nil| | | |by intros a Ha%elem_of_nil|by intros a b Ha%elem_of_nil|].
    + intros a b (ys & zs & E). unfold whole_list in E. cbn [app] in E.
      destruct ys as [|y [|y' [|]]]; try done; injection E as; subst; try done.
      split; repeat (rewrite lookup_insert_eq || rewrite lookup_insert_ne by list_cells); done.
    + repeat (rewrite lookup_insert_eq || rewrite lookup_insert_ne by list_cells). done.
    + repeat (rewrite lookup_insert_eq || rewrite lookup_insert_ne by list_cells). done.
    + intros l1 n s0 l2 E. by destruct l1.
  - intros a Ha. repeat rewrite lookup_insert_ne by list_cells. done.
Qed.

(** C37.  A new CASDList in the volatile or the PMEM build, under any sequence of operations
    by one thread (nodes made, inserted before or after, deleted, walked from, deleted
    nodes too): no check fails, every loop ends, every answer is that of a list of
    nodes, memory holds that list with pointers both ways, and nothing outside the list
    and its nodes is written. *)
Theorem CASDList_refines_list `{PlatformLaws} pmem fuel depth L U os rdtsc rd s :
  nodes L U -> (length os + 2 < fuel)%nat -> (0 < depth)%nat -> all_allowed L U os empty_list ->
  let r := list_steps L os empty_list in
  exists s', run (CASDList_new L rdtsc rd ;;; run_list_ops pmem fuel depth L os) s = (Done r.1, s') /\
    holds_list pmem L (linked r.2) (cells s') /\
    (forall a, ~ L + 8 <= a < L + 160 -> (forall n, n ∈ U -> ~ n <= a < n + 64) -> cells s' !! a = cells s !! a).
Proof.
  intros HU Hf Hd Hall r. destruct (run_CASDList_new L U rdtsc rd s pmem HU) as (s1 & R1 & Hsim & Hinv & Hout).
  destruct (goes_ops L U HU pmem fuel depth ltac:(lia) os empty_list (cells s1) Hinv Hd ltac:(cbn; lia) Hall) as (h & Hev & Hi & He).
  destruct (Hev s1 Hsim) as (s' & R2 & Hs'). exists s'. split; [by rewrite run_bind, R1|]. split; [by eapply sim_holds|].
  intros a Ha Hn. rewrite <- Hout by done.
  assert (forall n, n ∈ list_head L :: list_tail L :: U -> ~ n <= a < n + 64) as HW.
  { intros n [->|[->|HnU]%elem_of_cons]%elem_of_cons; [list_cells..|by apply Hn]. }
  assert (a ∉ list_rng L) as Hr by (unfold list_rng; rewrite !elem_of_cons, elem_of_nil; lia).
  rewrite <- (He a HW). destruct (h !! a) as [v|] eqn:E; [|by apply (sim_none _ _ _ _ _ _ Hs')].
  destruct (sim_some _ _ _ _ _ _ Hs' a v Hr E) as (w & Ew & [->|(_ & _ & (n & HnW & Hl) & _)]); [done|].
  exfalso. apply (HW n HnW). destruct Hl as [-> | ->]; list_cells.
Qed.

(** Three nodes in a list in persistent memory: one is inserted before the tail, one before
    it, one after the head; the middle one is deleted, and walked from. *)
Definition three_nodes : list Z := [8448; 8640; 8832].
Definition some_ops : list list_op :=
  [MakeNode 8448 0 0 8; MakeNode 8640 0 0 8; MakeNode 8832 0 0 8;
   InsertBefore (list_tail 8184) 8448; InsertBefore 8448 8640; InsertAfter (list_head 8184) 8832;
   Delete 8640; Delete 8832; GetNext 8832; GetNext 8640; GetPrev 8448; GetPrev 8640].

Lemma three_nodes_ok : nodes 8184 three_nodes.
Proof.
  unfold three_nodes. split; unfold list_head, list_tail.
  - intros a. rewrite !elem_of_cons, elem_of_nil.  lia.
  - intros a b. unfold apart. rewrite !elem_of_cons, !elem_of_nil. lia.
  - intros a. rewrite !elem_of_cons, elem_of_nil. lia.
Qed.

Example CASDList_refines_list_witness :
  exists s', run (CASDList_new 8184 7 0 ;;; @run_list_ops plain_platform true 15 1 8184 some_ops) (MkMem ∅ ∅ metrics_off) =
    (Done [Node 8448; Node 8640; Node 8832; Code Status_OK; Code Status_OK; Code Status_OK; Code Status_OK; Code Status_OK;
           Node 8448; Node 8448; Node (list_head 8184); Node (list_head 8184)], s') /\ holds_list true 8184 [8448] (cells s').
Proof.
  destruct (@CASDList_refines_list plain_platform plain_platform_laws true 15 1 8184 three_nodes some_ops 7 0 (MkMem ∅ ∅ metrics_off))
    as (s' & R & Hl & _).
  - exact three_nodes_ok.
  - cbn. lia.
  - lia.
  - apply (bool_decide_unpack _). vm_compute. exact I.
  - exists s'. split; [exact R|exact Hl].
Defined.

(** In the PMEM build a node that was inserted may be gone after a crash: the CAS that
    installs it leaves its pointer without the dirty flag, and nothing flushes it. *)
Example CASDList_insertion_lost_in_crash :
  let s := (run (CASDList_new 8184 7 0) (MkMem ∅ ∅ metrics_off)).2 in
  let r := run (@run_list_ops lines_platform true 5 1 8184 [MakeNode 8448 0 0 8; InsertBefore (list_tail 8184) 8448]) (MkMem (cells s) (cells s) metrics_off) in
  r.1 = Done [Node 8448; Code Status_OK] /\ cells r.2 !! node_next (list_head 8184) = Some 8448 /\
  cells (crash r.2) !! node_next (list_head 8184) = Some (list_tail 8184).
Proof. by vm_compute. Qed.
