(* ===== verification/DListSpec.v ===== *)
(** * The multi-word CAS list is a list (MwCASDList of doubly_linked_list.cc)

    Run alone, the operations of [MwCASDList] do to the chain of nodes what their
    comments say.  The proofs go through the specifications of the layers below:
    allocation of a descriptor, its entries, the operation itself and reads. *)
From Stdlib Require Import ZArith Lia.
From stdpp Require Import base list gmap strings.
From S2P Require Import Prelude Bytes Prog Status Hash Library Epoch Garbage Metrics Memory Descriptor MwCAS Entries Target Pool DList Chain.
#[local] Open Scope Z_scope.
#[local] Open Scope machine_scope.
#[local] Open Scope prog_scope.

(** ** Evaluation up to statistics *)

(** A descriptor [d] that thread [me] can use: the next of its partition [part], whose
    garbage list is [g]. *)
Record usable (me m g part d : Z) (k sz i : nat) (G : GarbageList) (en : Entry)
    (l : gmap Z GarbageList) (e : EpochWorld) : Prop := {
  us_able mm : metrics_ok me mm -> able me m g k sz i G en l e mm;
  us_part : tls_get (threads e) (me, tls_part) = tls_ptr_part part;
  us_d : 0 < d /\ d + 256 <= 2 ^ 61;
  us_garbage : ~ (d <= garbage_list part < d + 256);
  us_free : ~ (d <= free_list part < d + 256)
}.

Section client.
Context {HP : Platform} {HL : PlatformLaws} (me : Z) (fuel : nat) (fuel_pos : (0 < fuel)%nat) (depth : nat) (pmem : bool).
Context (m g part d p : Z) (k sz i : nat) (G : GarbageList) (en : Entry).
Context (l : gmap Z GarbageList) (e : EpochWorld).
Context (Hus : usable me m g part d k sz i G en l e).

Definition evm {A} (q : prog World A) (c : gmap Z Z) (x : A) (l' : gmap Z GarbageList) (e' : EpochWorld) (c' : gmap Z Z) : Prop :=
  forall mm, metrics_ok me mm ->
    exists mm', metrics_ok me mm' /\ ev q (St l e c mm) x (St l' e' c' mm').

Lemma evm_ret {A} (x : A) c : evm (Ret x) c x l e c.
Proof. intros mm Hm. exists mm. split; [done|]. apply ev_ret. Qed.

Lemma evm_bind {A B} (q : prog World A) (r : A -> prog World B) c x c1 y l2 e2 c2 :
  evm q c x l e c1 -> evm (r x) c1 y l2 e2 c2 -> evm (bind q r) c y l2 e2 c2.
Proof.
  intros Hq Hr mm Hm. destruct (Hq mm Hm) as (mm1 & Hm1 & E1). destruct (Hr mm1 Hm1) as (mm2 & Hm2 & E2).
  exists mm2. split; [done|]. by eapply ev_bind.
Qed.

(** An evaluation whose end is described by [Q]. *)
Definition evP {A} (q : prog World A) (c : gmap Z Z)
    (Q : A -> gmap Z GarbageList -> EpochWorld -> gmap Z Z -> Prop) : Prop :=
  forall mm, metrics_ok me mm ->
    exists x l' e' c' mm', metrics_ok me mm' /\ ev q (St l e c mm) x (St l' e' c' mm') /\ Q x l' e' c'.

Lemma evP_bind {A B} (q : prog World A) (r : A -> prog World B) c x c1 Q :
  evm q c x l e c1 -> evP (r x) c1 Q -> evP (bind q r) c Q.
Proof.
  intros Hq Hr mm Hm. destruct (Hq mm Hm) as (mm1 & Hm1 & E1).
  destruct (Hr mm1 Hm1) as (y & l' & e' & c' & mm2 & Hm2 & E2 & HQ).
  exists y, l', e', c', mm2. split; [done|]. split; [by eapply ev_bind|done].
Qed.

(** What follows the last change. *)
Lemma evP_bind_last {A B} (q : prog World A) (r : A -> prog World B) c Q Q' :
  evP q c Q ->
  (forall x l' e' c' mm, Q x l' e' c' -> exists y, ev (r x) (St l' e' c' mm) y (St l' e' c' mm) /\ Q' y l' e' c') ->
  evP (bind q r) c Q'.
Proof.
  intros Hq Hr mm Hm. destruct (Hq mm Hm) as (x & l' & e' & c' & mm1 & Hm1 & E1 & HQ).
  destruct (Hr x l' e' c' mm1 HQ) as (y & E2 & HQ'). exists y, l', e', c', mm1.
  split; [done|]. split; [by eapply ev_bind|done].
Qed.

Lemma evP_loop_once {I O} (body : I -> prog World (I + O)) j c Q :
  evP (body j) c (fun x l' e' c' => exists o, x = inr o /\ Q o l' e' c') -> evP (loop fuel body j) c Q.
Proof.
  intros H mm Hm. destruct (H mm Hm) as (x & l' & e' & c' & mm' & Hm' & E & o & -> & HQ).
  exists o, l', e', c', mm'. split; [done|]. split; [by apply ev_loop_once|done].
Qed.

Lemma evm_ev {A} (q : prog World A) c x c' :
  (forall mm, metrics_ok me mm -> ev q (St l e c mm) x (St l e c' mm)) -> evm q c x l e c'.
Proof. intros H mm Hm. exists mm. split; [done|]. by apply H. Qed.

Lemma evm_ld a v c : c !! a = Some v -> evm (ld a) c v l e c.
Proof. intros H. apply evm_ev. intros. by apply ev_ld. Qed.
Lemma evm_st a v c : is_Some (c !! a) -> evm (st a v) c tt l e (<[a := v]> c).
Proof. intros H. apply evm_ev. intros. by apply ev_st. Qed.
Lemma evm_check (b : bool) msg c : b = true -> evm (check b msg) c tt l e c.
Proof. intros H. apply evm_ev. intros. by apply ev_check. Qed.

Lemma evm_flush_links c node : evm (world_mem (flush_links pmem node)) c tt l e c.
Proof.
  apply evm_ev. intros mm _. unfold flush_links, when_pmem. destruct pmem; [apply (@ev_flush _ _ _ _ HP HL)|].
  by apply (ev_zoom _ _ _ _ (Ret tt)); intros pc; exists pc.
Qed.

Lemma evm_flush_payload c node n :
  c !! node_payload_size node = Some n -> evm (world_mem (flush_payload pmem node)) c tt l e c.
Proof.
  intros Hn. apply evm_ev. intros mm _. unfold flush_payload, when_pmem. destruct pmem.
  - apply ev_zoom. intros pc. pose proof (persist_cells (GetPayload node) n (MkMem c pc mm)) as E1.
    pose proof (persist_metrics (GetPayload node) n (MkMem c pc mm)) as E2.
    exists (pcells (pmemobj_persist (GetPayload node) n (MkMem c pc mm))).
    rewrite run_bind, (run_load _ n) by done. cbn [and_then]. unfold NVRAM_Flush. rewrite run_upd.
    destruct (pmemobj_persist (GetPayload node) n (MkMem c pc mm)). simpl in *. by subst.
  - by apply (ev_zoom _ _ _ _ (Ret tt)); intros pc; exists pc.
Qed.

Lemma evm_read dep L a v c :
  plain v -> c !! a = Some v -> evm (ResolveNodePointer me fuel dep pmem L a true) c v l e c.
Proof.
  intros Hp Hv mm Hm. exists (bump me Read mm). split; [by apply run_AddMetric|].
  unfold ResolveNodePointer.
  pose proof (ev_GetValueProtected me fuel dep fuel_pos l e c mm Hm pmem false a v Hp Hv) as H.
  rewrite insert_id in H by done. by apply H.
Qed.

(** ** Using a descriptor *)

Definition prepared (ws : list wrec) (c : gmap Z Z) : Prop :=
  frame d part g ws c /\ slots_mapped d c /\ c !! status_ d = Some kStatusFinished.

(** The descriptor is at the head of its partition's free list. *)
Definition on_free_list (c : gmap Z Z) : Prop :=
  prepared [] c /\ c !! free_list part = Some d /\ is_Some (c !! next_ptr_ d) /\
  is_Some (c !! allocate_callback_ d) /\ is_Some (c !! free_callback_ d).

(** Cells that belong to the pool. *)
Definition pool_cell (a : Z) : Prop := d <= a < d + 256 \/ a = free_list part.

Ltac offs := unfold free_list, next_ptr_, status_, count_, owner_partition_, free_callback_, allocate_callback_,
  garbage_list in *; lia.

Lemma evm_alloc L c :
  c !! descriptor_pool_ L = Some p -> on_free_list c ->
  exists c', prepared [] c' /\ (forall a, ~ pool_cell a -> c' !! a = c !! a) /\
    evm (new_descriptor me fuel L) c d l e c'.
Proof.
  intros Hp (Hprep & Hfree & [nx Hnx] & Ha & Hf). destruct (us_d _ _ _ _ _ _ _ _ _ _ _ _ Hus) as [Hd Hd'].
  pose proof (us_free _ _ _ _ _ _ _ _ _ _ _ _ Hus) as Hout. exists (taken part d nx 0 0 c).
  assert (forall a, a <> free_list part -> a <> allocate_callback_ d -> a <> free_callback_ d ->
    taken part d nx 0 0 c !! a = c !! a) as Hsame.
  { intros a H1 H2 H3. unfold taken. by rewrite !lookup_insert_ne by done. }
  split; [|split].
  - destruct Hprep as ((_ & Hc & Ho & Hg) & Hs & Hst). split; [split; [done|]|split].
    + rewrite !Hsame by (try offs; intros E; rewrite E in *; offs). done.
    + intros a Hin. pose proof (word_fields_range d a Hin). rewrite Hsame by offs. by apply Hs.
    + rewrite Hsame by offs. done.
  - intros a Hn. apply Hsame; intros ->; apply Hn; [by right|left; offs|left; offs].
  - intros mm Hm. exists (bump me DescriptorAlloc mm). split; [by apply run_AddMetric|].
    unfold new_descriptor. eapply ev_bind; [by apply ev_ld|]. unfold AllocateDescriptor_default.
    eapply ev_AllocateDescriptor; [done|done|apply picks_own; apply (us_part _ _ _ _ _ _ _ _ _ _ _ _ Hus)|done|lia|done..].
Qed.

Lemma evm_add_exact ws c addr old new :
  prepared ws c -> (length ws < 4)%nat -> addr mod 8 = 0 -> plain old -> plain new ->
  addr ∉ wa <$> ws ->
  exists c', prepared (ws ++ [MkW addr old new kRecycleNever]) c' /\
    (forall a, ~ (d <= a < d + 256) -> c' !! a = c !! a) /\
    evm (add_entry me fuel d addr old new) c tt l e c'.
Proof.
  intros (Hf & Hs & Hst) Hlt Ha Ho Hn Hdup. destruct (us_d _ _ _ _ _ _ _ _ _ _ _ _ Hus) as [Hd Hd'].
  pose proof (us_garbage _ _ _ _ _ _ _ _ _ _ _ _ Hus) as Hgar.
  set (x := MkW addr old new kRecycleNever). exists (added d ws c x).
  destruct (added_spec g d part ws c Hgar ltac:(lia) Hf x Hlt) as (H1 & H2 & H3).
  assert (duplicate ws addr = false) as Hdup'.
  { unfold duplicate. rewrite bool_decide_false by done. apply andb_false_r. }
  assert (slots_mapped d (added d ws c x)) as Hs'.
  { intros a Hin. unfold added. cbn [fresh foldl fst snd]. rewrite !lookup_insert_is_Some'. auto 10. }
  split; [split_and!; [done|done|by rewrite H3]|]. split; [done|].
  apply evm_ev. intros mm Hm. unfold add_entry. eapply ev_bind; [|apply ev_ret].
  eapply (ev_AddEntry me fuel m g k sz i G en l e mm (us_able _ _ _ _ _ _ _ _ _ _ _ _ Hus mm Hm)); try done; [lia|..].
  - apply IsCleanPtr_plain; [unfold plain, fits in *; lia|done].
  - rewrite (proj2 (IsCleanPtr_plain new ltac:(unfold plain, fits in *; lia))); done.
Qed.

Lemma evm_add ws c addr old new :
  prepared ws c -> (length ws < 4)%nat -> addr mod 8 = 0 -> plain old -> plain new ->
  addr ∉ wa <$> ws ->
  exists c', prepared (ws ++ [MkW addr old new kRecycleNever]) c' /\
    (forall a, ~ pool_cell a -> c' !! a = c !! a) /\
    evm (add_entry me fuel d addr old new) c tt l e c'.
Proof.
  intros Hp Hlt Ha Ho Hn Hdup. destruct (evm_add_exact ws c addr old new Hp Hlt Ha Ho Hn Hdup) as (c' & P & S & E).
  exists c'. split; [done|]. split; [|done]. intros a Hna. apply S. intros Hr. apply Hna. by left.
Qed.

Lemma evP_MwCAS ws c :
  prepared ws c -> layout_ok d part ws ->
  (forall x, x ∈ ws -> wa x <> 0 /\ c !! wa x = Some (wo x) /\ wo x <> d) ->
  evP (MwCAS me fuel pmem (S depth) d) c (fun ok l' e' c' =>
    ok = true /\ l' = <[g := retired m k G e d]> l /\ rolled m sz e e' /\ mwcas_cells d ws true c c').
Proof.
  intros (Hf & _ & Hst) Hlay Hw mm Hm.
  assert (all_match ws c = true) as Hall.
  { apply bool_decide_eq_true, Forall_forall. intros x Hx. right. apply Hw, Hx. }
  destruct (ev_MwCAS me fuel fuel_pos m g k sz i G en l e mm (us_able _ _ _ _ _ _ _ _ _ _ _ _ Hus _ Hm)
    d part pmem depth ws c Hlay Hf Hst) as (c' & e' & He' & Hc' & Hev).
  { intros x Hx _. destruct (Hw x Hx) as (_ & Hc & Hd). exists (wo x). split_and!; try done.
    by apply (lay_plain _ _ _ Hlay). }
  rewrite Hall in *. eexists true, _, e', c', _. split; [|split; [exact Hev|done]].
  by apply run_AddMetric.
Qed.

(** ** Chains *)

(** A node the list may hold: aligned, unmarked, away from the pool's cells. *)
Definition node_ok (L a : Z) : Prop :=
  0 < a /\ a + 64 <= 2 ^ 60 /\ a mod 8 = 0 /\
  forall b, a <= b < a + 64 -> ~ pool_cell b /\ b <> garbage_list part /\ b <> descriptor_pool_ L.

Definition nodes_ok (L : Z) (xs : list Z) : Prop :=
  Forall (node_ok L) xs /\ NoDup xs /\
  forall a b, a ∈ xs -> b ∈ xs -> a <> b -> a + 64 <= b \/ b + 64 <= a.

(** The list at [L] holds the nodes [mid], in order. *)
Definition dlist (L : Z) (mid : list Z) (c : gmap Z Z) : Prop :=
  nodes_ok L (whole_list L mid) /\ links c (whole_list L mid) /\
  c !! node_prev (list_head L) = Some 0 /\ c !! node_next (list_tail L) = Some 0 /\
  c !! descriptor_pool_ L = Some p /\ ~ pool_cell (descriptor_pool_ L).

Lemma node_plain L a : node_ok L a -> plain a /\ marked a = false /\ clear a kNodeDeleted = a.
Proof.
  intros (H1 & H2 & _). assert (Z.testbit a 60 = false) as Hb by (apply (fits_testbit 60); [split; lia|lia]).
  split_and!.
  - unfold plain, fits. lia.
  - unfold marked, marked_deleted, kNodeDeleted. by rewrite has_pow2.
  - unfold clear, kNodeDeleted. bitwise j Hj. rewrite Z.ldiff_spec, Z.pow2_bits_eqb by lia.
    destruct (Z.eqb_spec 60 j) as [<-|]; [by rewrite Hb|by rewrite andb_true_r].
Qed.

(** What inserting [node] between [prev] and [next] does to the cells. *)
Record inserted (prev next node : Z) (c c' : gmap Z Z) : Prop := {
  in_prev_next : c' !! node_next prev = Some node;
  in_next_prev : c' !! node_prev next = Some node;
  in_node_prev : c' !! node_prev node = Some prev;
  in_node_next : c' !! node_next node = Some next;
  in_other a : ~ pool_cell a -> a ∉ [node_next prev; node_prev next; node_prev node; node_next node] ->
    c' !! a = c !! a
}.

Definition insert_entries (prev next node : Z) : list wrec :=
  [MkW (node_next prev) next node kRecycleNever; MkW (node_prev next) prev node kRecycleNever].

(** Three nodes apart from each other and from the pool. *)
Record around (L prev next node : Z) : Prop := {
  ar_prev : node_ok L prev; ar_next : node_ok L next; ar_node : node_ok L node;
  ar_pn : prev + 64 <= next \/ next + 64 <= prev;
  ar_pm : prev + 64 <= node \/ node + 64 <= prev;
  ar_nm : next + 64 <= node \/ node + 64 <= next
}.

Lemma insert_layout L prev next node :
  around L prev next node -> layout_ok d part (insert_entries prev next node).
Proof.
  intros [Hp Hn Hm Hpn _ _]. destruct (us_d _ _ _ _ _ _ _ _ _ _ _ _ Hus) as [Hd Hd'].
  assert (forall a b, node_ok L a -> a <= b < a + 64 -> ~ (d <= b < d + 256) /\ b <> garbage_list part) as Hout.
  { intros a b (_ & _ & _ & H) Hb. destruct (H b Hb) as (H1 & H2 & _). split; [|done]. intros Hr. apply H1. by left. }
  split.
  - done.
  - simpl. lia.
  - apply (us_garbage _ _ _ _ _ _ _ _ _ _ _ _ Hus).
  - intros x [->|[->|[]%elem_of_nil]%elem_of_cons]%elem_of_cons _; cbn [wa].
    + apply (Hout prev); [done|node_cells].
    + apply (Hout next); [done|node_cells].
  - intros x [->|[->|[]%elem_of_nil]%elem_of_cons]%elem_of_cons; cbn [wo wn]; split; by eapply node_plain.
  - apply NoDup_filter. apply NoDup_cons. split; [|apply NoDup_singleton].
    cbn. intros E%list_elem_of_singleton. node_cells.
Qed.

(** What the pool and the epochs are left with. *)
Definition retires (l' : gmap Z GarbageList) (e' : EpochWorld) : Prop :=
  l' = <[g := retired m k G e d]> l /\ rolled m sz e e'.

Lemma node_cell L a b : node_ok L a -> a <= b < a + 64 -> ~ pool_cell b /\ ~ (d <= b < d + 256).
Proof. intros (_ & _ & _ & H) Hb. destruct (H b Hb) as (H1 & _). split; [done|]. intros Hr. apply H1. by left. Qed.

Lemma node_ne_d L a : node_ok L a -> a <> d.
Proof.
  intros Ha ->. destruct (node_cell L d d Ha) as [_ H]; [lia|]. apply H. lia.
Qed.

Lemma evP_insert_MwCAS L prev next node c :
  around L prev next node -> prepared (insert_entries prev next node) c ->
  c !! node_next prev = Some next -> c !! node_prev next = Some prev ->
  c !! node_prev node = Some prev -> c !! node_next node = Some next ->
  evP (MwCAS me fuel pmem (S depth) d) c (fun ok l' e' c' =>
    ok = true /\ retires l' e' /\ inserted prev next node c c').
Proof.
  intros Har Hprep H1 H2 H3 H4. pose proof Har as [Hp Hn Hm Hpn Hpm Hnm]. intros mm Hmm.
  destruct (evP_MwCAS (insert_entries prev next node) c Hprep (insert_layout L _ _ _ Har)) with (mm := mm)
    as (ok & l' & e' & c' & mm' & Hm' & Hev & -> & -> & He' & [Ht _ Ho]); [|done|].
  { intros x [->|[->|[]%elem_of_nil]%elem_of_cons]%elem_of_cons; cbn [wa wo];
      (split; [destruct Hp, Hn; node_cells|]); (split; [done|]); by eapply node_ne_d. }
  eexists true, _, e', c', mm'. split; [done|]. split; [exact Hev|]. split; [done|]. split; [by split|].
  assert (forall a, a <> node_next prev -> a <> node_prev next -> ~ (d <= a < d + 256) -> c' !! a = c !! a) as Hsame.
  { intros a Ha1 Ha2 Hd. apply Ho; [done|].
    by intros x [->|[->|[]%elem_of_nil]%elem_of_cons]%elem_of_cons _; cbn; intros E; symmetry in E. }
  split.
  - apply (Ht (MkW (node_next prev) next node kRecycleNever)); [left|destruct Hp; cbn; node_cells].
  - apply (Ht (MkW (node_prev next) prev node kRecycleNever)); [right; left|destruct Hn; cbn; node_cells].
  - rewrite Hsame; [done|node_cells|node_cells|]. apply (node_cell L node); [done|node_cells].
  - rewrite Hsame; [done|node_cells|node_cells|]. apply (node_cell L node); [done|node_cells].
  - intros a Hpool Hin. apply Hsame; [set_solver|set_solver|]. intros Hr. apply Hpool. by left.
Qed.

(** From writing the new node's links to the end. *)
Definition linked (prev next node : Z) (c c1 : gmap Z Z) : Prop :=
  c1 !! node_prev node = Some prev /\ c1 !! node_next node = Some next /\
  forall a, ~ pool_cell a -> a <> node_prev node -> a <> node_next node -> c1 !! a = c !! a.

Lemma linked_same prev next node c c1 c2 L :
  node_ok L node -> linked prev next node c c1 -> (forall a, ~ pool_cell a -> c2 !! a = c1 !! a) -> linked prev next node c c2.
Proof.
  intros Hm (H1 & H2 & H3) H. pose proof (node_cell L node (node_prev node) Hm ltac:(node_cells)).
  pose proof (node_cell L node (node_next node) Hm ltac:(node_cells)).
  split_and!; [by rewrite H by tauto|by rewrite H by tauto|]. intros a Ha Hne1 Hne2. rewrite H by done. by apply H3.
Qed.

Lemma inserted_linked prev next node c c1 c' :
  linked prev next node c c1 -> inserted prev next node c1 c' -> inserted prev next node c c'.
Proof.
  intros (_ & _ & H3) [A B C D E]. split; try done. intros a Ha Hin. rewrite E by done. apply H3; [done|set_solver..].
Qed.

(** Allocating a descriptor, in a continuation that knows what it did. *)
Lemma evP_alloc {B} (r : Z -> prog World B) L c Q :
  c !! descriptor_pool_ L = Some p -> on_free_list c ->
  (forall c2, prepared [] c2 -> (forall a, ~ pool_cell a -> c2 !! a = c !! a) -> evP (r d) c2 Q) ->
  evP (bind (new_descriptor me fuel L) r) c Q.
Proof.
  intros Hp Hfree H. destruct (evm_alloc L c Hp Hfree) as (c2 & Hprep & Hsame & Hev).
  eapply evP_bind; [exact Hev|]. by apply H.
Qed.

Lemma evP_add {B} (r : unit -> prog World B) ws c addr old new Q :
  prepared ws c -> (length ws < 4)%nat -> addr mod 8 = 0 -> plain old -> plain new -> addr ∉ wa <$> ws ->
  (forall c2, prepared (ws ++ [MkW addr old new kRecycleNever]) c2 ->
     (forall a, ~ pool_cell a -> c2 !! a = c !! a) -> evP (r tt) c2 Q) ->
  evP (bind (add_entry me fuel d addr old new) r) c Q.
Proof.
  intros H1 H2 H3 H4 H5 H6 H. destruct (evm_add ws c addr old new H1 H2 H3 H4 H5 H6) as (c2 & Hprep & Hsame & Hev).
  eapply evP_bind; [exact Hev|]. by apply H.
Qed.

Lemma d_nonzero : negb (d =? 0) = true.
Proof. destruct (us_d _ _ _ _ _ _ _ _ _ _ _ _ Hus). apply negb_true_iff, Z.eqb_neq. lia. Qed.

Lemma node_aligned L a : node_ok L a -> node_next a mod 8 = 0 /\ node_prev a mod 8 = 0.
Proof.
  intros (_ & _ & H & _). unfold node_next, node_prev. split; [|done].
  rewrite Z.add_mod, H by lia. done.
Qed.

Lemma add_mod_8 a : a mod 8 = 0 -> (a + 8) mod 8 = 0.
Proof. intros H. rewrite Z.add_mod, H by lia. done. Qed.

Definition inserted_Q (prev next node : Z) (c : gmap Z Z) (s : Status) (l' : gmap Z GarbageList) (e' : EpochWorld)
    (c' : gmap Z Z) : Prop :=
  s = Status_OK /\ retires l' e' /\ inserted prev next node c c'.

(** The end of both insertions: the operation, and the loop's exit. *)
Lemma evP_insert_end L prev next node c c4 (again : Z) :
  around L prev next node -> c !! node_next prev = Some next -> c !! node_prev next = Some prev ->
  linked prev next node c c4 -> prepared (insert_entries prev next node) c4 ->
  evP (let! ok := MwCAS me fuel pmem (S depth) d in if ok : bool then Ret (inr Status_OK) else Ret (inl again)) c4
    (fun x l' e' c' => exists o, x = inr o /\ inserted_Q prev next node c o l' e' c').
Proof.
  intros Har Hpn Hnp Hl Hprep. pose proof Har as [Hp Hn Hm Apn Apm Anm]. pose proof Hl as (L1 & L2 & L3).
  eapply evP_bind_last.
  - apply (evP_insert_MwCAS L prev next node); [done|done| | |done|done].
    + rewrite L3; [done|apply (node_cell L prev); [done|node_cells]|node_cells|node_cells].
    + rewrite L3; [done|apply (node_cell L next); [done|node_cells]|node_cells|node_cells].
  - intros ok l' e' c' mm (-> & Hret & Hins). eexists. split; [apply ev_ret|].
    exists Status_OK. split; [done|]. split; [done|]. split; [done|]. by eapply inserted_linked.
Qed.

(** A link field of the list: another node or null, unmarked. *)
Definition link_value (v : Z) : Prop := plain v /\ marked v = false /\ clear v kNodeDeleted = v.

Lemma link_value_0 : link_value 0.
Proof. split_and!; [unfold plain, fits; lia|done|done]. Qed.

Lemma dlist_next L mid c a :
  dlist L mid c -> a ∈ whole_list L mid -> exists v, c !! node_next a = Some v /\ link_value v /\
    (adjacent (whole_list L mid) a v \/ a = list_tail L /\ v = 0).
Proof.
  intros ((Hok & _ & _) & Hl & _ & H0 & _) Ha. destruct (in_list_next _ a Ha) as [[b Hb]|[ys Hys]].
  - exists b. split; [apply (Hl a b Hb)|]. split; [|by left]. rewrite Forall_forall in Hok.
    apply (node_plain L). apply Hok, (adjacent_in _ _ _ Hb).
  - exists 0. unfold whole_list in Hys. rewrite app_comm_cons in Hys. apply app_inj_tail in Hys as [_ <-].
    split; [done|]. split; [apply link_value_0|by right].
Qed.

Lemma dlist_prev L mid c b :
  dlist L mid c -> b ∈ whole_list L mid -> exists v, c !! node_prev b = Some v /\ link_value v /\
    (adjacent (whole_list L mid) v b \/ b = list_head L /\ v = 0).
Proof.
  intros ((Hok & _ & _) & Hl & H0 & _ & _) Hb. destruct (in_list_prev _ b Hb) as [[a Ha]|[zs Hzs]].
  - exists a. split; [apply (Hl a b Ha)|]. split; [|by left]. rewrite Forall_forall in Hok.
    apply (node_plain L). apply Hok, (adjacent_in _ _ _ Ha).
  - exists 0. unfold whole_list in Hzs. injection Hzs as <- _.
    split; [done|]. split; [apply link_value_0|by right].
Qed.

(** ** Insertion *)

(** A node outside the list, with its link fields. *)
Record fresh_node (L : Z) (mid : list Z) (node : Z) (c : gmap Z Z) : Prop := {
  fn_ok : nodes_ok L (node :: whole_list L mid);
  fn_prev : is_Some (c !! node_prev node);
  fn_next : is_Some (c !! node_next node)
}.

Lemma fresh_around L mid node c prev next :
  dlist L mid c -> fresh_node L mid node c -> adjacent (whole_list L mid) prev next -> around L prev next node.
Proof.
  intros ((Hok & Hnd & Hsep) & _) [(Hok' & Hnd' & Hsep') _ _] Hadj.
  destruct (adjacent_in _ _ _ Hadj) as [Hp Hn]. rewrite Forall_forall in Hok. apply Forall_inv in Hok'.
  apply NoDup_cons in Hnd' as [Hnin _].
  assert (prev <> next) as Hpn.
  { intros ->. destruct Hadj as (ys & zs & E). rewrite E in Hnd. apply NoDup_app in Hnd as (_ & _ & Hnd).
    apply NoDup_cons in Hnd as [Hnd _]. apply Hnd. left. }
  assert (prev <> node /\ next <> node) as [H1 H2] by (split; intros ->; done).
  split; [by apply Hok|by apply Hok|done|by apply Hsep| |]; apply Hsep'; try done; try (by left); by right.
Qed.

Lemma set_links_linked L prev next node c :
  node_ok L node -> linked prev next node c (<[node_prev node := prev]> (<[node_next node := next]> c)).
Proof.
  intros Hm. split_and!.
  - apply lookup_insert_eq.
  - rewrite lookup_insert_ne by node_cells. apply lookup_insert_eq.
  - intros a _ H1 H2. by rewrite !lookup_insert_ne by done.
Qed.

Lemma plain_clean v : plain v -> IsCleanPtr v = true.
Proof. intros H. apply IsCleanPtr_plain; [unfold plain, fits in *; lia|done]. Qed.

Lemma on_free_list_change c c' :
  on_free_list c -> (forall a, d <= a < d + 256 -> c' !! a = c !! a) -> c' !! free_list part = c !! free_list part ->
  c' !! garbage_list part = c !! garbage_list part -> on_free_list c'.
Proof.
  intros (((_ & Hc & Ho & Hg) & Hs & Hst) & Hf & Hn & Ha & Hfc) H Hfree Hgar.
  unfold on_free_list, prepared, frame.
  rewrite Hfree, Hgar, !H by (unfold count_, owner_partition_, status_, next_ptr_, allocate_callback_, free_callback_; lia).
  split_and!; try done. intros a Hin. rewrite H by (pose proof (word_fields_range d a Hin); lia). by apply Hs.
Qed.

(** The state after a fresh node's links are set. *)
Lemma linked_state L mid prev next node c :
  dlist L mid c -> fresh_node L mid node c -> adjacent (whole_list L mid) prev next -> on_free_list c ->
  let c1 := <[node_prev node := prev]> (<[node_next node := next]> c) in
  linked prev next node c c1 /\ on_free_list c1 /\ c1 !! descriptor_pool_ L = Some p.
Proof.
  intros Hd Hf Hadj Hfree c1. destruct (fresh_around L mid node c prev next Hd Hf Hadj) as [_ _ Hm _ _ _].
  assert (forall b, node <= b < node + 64 -> ~ pool_cell b /\ b <> garbage_list part /\ b <> descriptor_pool_ L) as Hcells
    by apply Hm.
  destruct (Hcells (node_prev node) ltac:(node_cells)) as (P1 & P2 & P3).
  destruct (Hcells (node_next node) ltac:(node_cells)) as (N1 & N2 & N3).
  split; [by apply (set_links_linked L)|]. split.
  - apply (on_free_list_change c); [done| | |].
    + intros a Ha. unfold c1. rewrite !lookup_insert_ne; [done| |]; intros <-; [apply N1|apply P1]; by left.
    + unfold c1. rewrite !lookup_insert_ne; [done| |]; intros E; [apply N1|apply P1]; by right.
    + unfold c1. by rewrite !lookup_insert_ne by done.
  - unfold c1. rewrite !lookup_insert_ne by done. by apply Hd.
Qed.

(** Reading the sample of link fields the insertions look at. *)
Lemma adjacent_link L mid c prev next :
  dlist L mid c -> adjacent (whole_list L mid) prev next ->
  c !! node_next prev = Some next /\ c !! node_prev next = Some prev /\ node_ok L prev /\ node_ok L next.
Proof.
  intros ((Hok & _ & _) & Hl & _) Hadj. rewrite Forall_forall in Hok.
  destruct (adjacent_in _ _ _ Hadj) as [H1 H2]. destruct (Hl _ _ Hadj). split_and!; auto.
Qed.

Lemma second_entry_new L prev next node : around L prev next node ->
  node_prev next ∉ wa <$> [MkW (node_next prev) next node kRecycleNever].
Proof. intros [Hp Hn _ Hpn _ _]. cbn. intros E%list_elem_of_singleton. node_cells. Qed.

Lemma evP_InsertBefore_try L mid prev next node c :
  dlist L mid c -> fresh_node L mid node c -> adjacent (whole_list L mid) prev next -> on_free_list c ->
  evP (Mw_InsertBefore_try me fuel (S depth) pmem L node next) c
    (fun x l' e' c' => exists o, x = inr o /\ inserted_Q prev next node c o l' e' c').
Proof.
  intros Hd Hf Hadj Hfree. pose proof (fresh_around L mid node c prev next Hd Hf Hadj) as Har.
  destruct (adjacent_link L mid c prev next Hd Hadj) as (Hpn & Hnp & Okp & Okn).
  pose proof (ar_node _ _ _ _ Har) as Okm.
  destruct (node_plain L prev Okp) as (Pp & Mp & _), (node_plain L next Okn) as (Pn & Mn & _),
    (node_plain L node Okm) as (Pm & Mm & _).
  destruct (dlist_next L mid c next Hd (proj2 (adjacent_in _ _ _ Hadj))) as (v & Hv & (Pv & Mv & _) & _).
  destruct (linked_state L mid prev next node c Hd Hf Hadj Hfree) as (L1 & Hfree1 & Hp1).
  unfold Mw_InsertBefore_try. eapply evP_bind; [apply evm_check; by rewrite Mn|].
  eapply evP_bind; [by apply (evm_read _ L _ prev)|]. eapply evP_bind; [by apply (evm_read _ L _ v)|].
  rewrite Mp, Mv. cbn [orb]. eapply evP_bind; [by apply (evm_read _ L _ next)|]. rewrite Mn.
  eapply (evP_bind _ _ _ tt (<[node_prev node := prev]> (<[node_next node := next]> c))).
  { unfold set_links. eapply evm_bind; [apply evm_st, Hf|].
    eapply evm_bind; [apply evm_st; rewrite lookup_insert_ne by node_cells; apply Hf|]. apply evm_flush_links. }
  eapply evP_bind; [apply evm_check; by apply plain_clean|]. eapply evP_bind; [apply evm_check; by apply plain_clean|].
  apply (evP_alloc _ L); [done|done|]. intros c2 Hprep2 Hs2.
  pose proof (linked_same prev next node c _ c2 L Okm L1 Hs2) as L2.
  eapply evP_bind; [apply evm_check, d_nonzero|].
  eapply evP_bind; [apply evm_ld, L2|]. eapply evP_bind; [apply evm_ld, L2|].
  apply (evP_add _ []); [done|simpl; lia|apply (node_aligned L prev Okp)|done|done|apply not_elem_of_nil|].
  intros c3 Hprep3 Hs3. pose proof (linked_same prev next node c _ c3 L Okm L2 Hs3) as L3.
  eapply evP_bind; [apply evm_ld, L3|].
  apply (evP_add _ [MkW (node_next prev) next node kRecycleNever]);
    [done|simpl; lia|apply (node_aligned L next Okn)|done|done|by apply (second_entry_new L)|].
  intros c4 Hprep4 Hs4. pose proof (linked_same prev next node c _ c4 L Okm L3 Hs4) as L4.
  by apply (evP_insert_end L prev next node).
Qed.

Lemma evP_InsertAfter_try L mid prev next node c :
  dlist L mid c -> fresh_node L mid node c -> adjacent (whole_list L mid) prev next -> on_free_list c ->
  evP (Mw_InsertAfter_try me fuel (S depth) pmem L node prev) c
    (fun x l' e' c' => exists o, x = inr o /\ inserted_Q prev next node c o l' e' c').
Proof.
  intros Hd Hf Hadj Hfree. pose proof (fresh_around L mid node c prev next Hd Hf Hadj) as Har.
  destruct (adjacent_link L mid c prev next Hd Hadj) as (Hpn & Hnp & Okp & Okn).
  pose proof (ar_node _ _ _ _ Har) as Okm.
  destruct (node_plain L prev Okp) as (Pp & Mp & _), (node_plain L next Okn) as (Pn & Mn & _),
    (node_plain L node Okm) as (Pm & Mm & _).
  destruct (dlist_next L mid c next Hd (proj2 (adjacent_in _ _ _ Hadj))) as (v & Hv & (Pv & Mv & _) & _).
  destruct (linked_state L mid prev next node c Hd Hf Hadj Hfree) as (L1 & Hfree1 & Hp1).
  rewrite insert_insert_ne in L1, Hfree1, Hp1 by node_cells.
  unfold Mw_InsertAfter_try. eapply evP_bind; [apply evm_check; by rewrite Mp|].
  eapply evP_bind; [by apply (evm_read _ L _ next)|]. rewrite Mn.
  eapply evP_bind; [by apply (evm_read _ L _ v)|]. rewrite Mv.
  eapply evP_bind; [by apply evm_check|].
  eapply evP_bind; [apply evm_check; by apply plain_clean|]. eapply evP_bind; [apply evm_check; by apply plain_clean|].
  eapply evP_bind; [apply evm_st, Hf|].
  eapply evP_bind; [apply evm_st; rewrite lookup_insert_ne by node_cells; apply Hf|].
  eapply evP_bind; [apply evm_flush_links|].
  apply (evP_alloc _ L); [done|done|]. intros c2 Hprep2 Hs2.
  pose proof (linked_same prev next node c _ c2 L Okm L1 Hs2) as L2.
  eapply evP_bind; [apply evm_check, d_nonzero|]. eapply evP_bind; [apply evm_ld, L2|].
  apply (evP_add _ []); [done|simpl; lia|apply (node_aligned L prev Okp)|done|done|apply not_elem_of_nil|].
  intros c3 Hprep3 Hs3. pose proof (linked_same prev next node c _ c3 L Okm L2 Hs3) as L3.
  eapply evP_bind; [apply evm_ld, L3|]. eapply evP_bind; [apply evm_ld, L3|].
  apply (evP_add _ [MkW (node_next prev) next node kRecycleNever]);
    [done|simpl; lia|apply (node_aligned L next Okn)|done|done|by apply (second_entry_new L)|].
  intros c4 Hprep4 Hs4. pose proof (linked_same prev next node c _ c4 L Okm L3 Hs4) as L4.
  by apply (evP_insert_end L prev next node).
Qed.

Lemma in_nodes_other L xs x y f h :
  nodes_ok L xs -> x ∈ xs -> y ∈ xs -> (f = node_prev \/ f = node_next) -> (h = node_prev \/ h = node_next) ->
  f x = h y -> x = y /\ f = h.
Proof.
  intros (_ & _ & Hsep) Hx Hy Hf Hh E. destruct (decide (x = y)) as [Exy|Hne].
  - subst y. split; [done|]. destruct Hf as [Ef|Ef], Hh as [Eh|Eh]; rewrite Ef, Eh in *; try done; node_cells.
  - destruct (Hsep x y Hx Hy Hne); destruct Hf as [Ef|Ef], Hh as [Eh|Eh]; rewrite Ef, Eh in E; node_cells.
Qed.

(** Link fields an insertion leaves alone. *)
Lemma inserted_same L xs xs' prev next node c c' x f :
  nodes_ok L xs' -> xs' ≡ₚ node :: xs -> prev ∈ xs -> next ∈ xs -> inserted prev next node c c' ->
  x ∈ xs -> f = node_prev \/ f = node_next -> ~ (x = prev /\ f = node_next) -> ~ (x = next /\ f = node_prev) ->
  c' !! f x = c !! f x.
Proof.
  intros Hok Hperm Hp Hn Hins Hx Hf N1 N2. pose proof Hok as (Hall & Hnd & _).
  rewrite Hperm in Hnd. apply NoDup_cons in Hnd as [Hnode _].
  assert (x ∈ xs' /\ prev ∈ xs' /\ next ∈ xs' /\ node ∈ xs') as (Hx' & Hp' & Hn' & Hm') by (rewrite Hperm; set_solver).
  apply (in_other _ _ _ _ _ Hins).
  - rewrite Forall_forall in Hall. apply (node_cell L x); [by apply Hall|]. destruct Hf as [-> | ->]; node_cells.
  - pose proof next_not_prev. rewrite !elem_of_cons, elem_of_nil.
    assert (x <> node) as Hxm by (by intros ->).
    intros [H1|[H1|[H1|[H1|[]]]]];
      (eapply (in_nodes_other L xs' x _ f) in H1; [|done..|by auto|by auto]); naive_solver.
Qed.

Lemma dlist_inserted L mid mid' ys zs prev next node c c' :
  dlist L mid c -> fresh_node L mid node c -> whole_list L mid = ys ++ prev :: next :: zs ->
  whole_list L mid' = ys ++ prev :: node :: next :: zs -> inserted prev next node c c' -> dlist L mid' c'.
Proof.
  intros ((_ & Hnd & _) & Hl & Hh & Ht & Hp) [(F1 & F2 & F3) _ _] E E' Hins.
  pose proof Hins as [A B D F Hoth].
  assert (whole_list L mid' ≡ₚ node :: whole_list L mid) as Hperm by (rewrite E, E'; solve_Permutation).
  assert (nodes_ok L (whole_list L mid')) as Hok.
  { split_and!; [by rewrite Hperm|by rewrite Hperm|]. intros a b. rewrite Hperm. apply F3. }
  assert (prev ∈ whole_list L mid /\ next ∈ whole_list L mid) as [Hpin Hnin] by (rewrite E; set_solver).
  destruct (ends_apart L mid ys zs prev next Hnd E) as [Nh Nt].
  assert (forall x f, x ∈ whole_list L mid -> f = node_prev \/ f = node_next ->
    ~ (x = prev /\ f = node_next) -> ~ (x = next /\ f = node_prev) -> c' !! f x = c !! f x) as Hsame
    by (intros; by apply (inserted_same L (whole_list L mid) (whole_list L mid') prev next node)).
  pose proof next_not_prev as Hnp.
  destruct (ends_in L mid) as [Hhin Htin].
  split; [done|]. split; [|split; [|split]].
  - rewrite E'. rewrite E in Hnd, Hl, Hsame. by apply (links_inserted c c').
  - rewrite Hsame by (auto; naive_solver). done.
  - rewrite Hsame by (auto; naive_solver). done.
  - rewrite Forall_forall in F1. destruct Hp as [Hp Hpool]. split; [|done].
    assert (forall x b, x ∈ node :: whole_list L mid -> x <= b < x + 64 -> descriptor_pool_ L <> b) as Hne
      by (intros x b Hx Hb E2; symmetry in E2; destruct (F1 x Hx) as (_ & _ & _ & H); by apply (H b Hb)).
    rewrite Hoth; [done|done|]. rewrite !elem_of_cons, elem_of_nil. intros [H1|[H1|[H1|[H1|[]]]]];
      (eapply Hne; [| |exact H1]); [right; exact Hpin|node_cells|right; exact Hnin|node_cells|left|node_cells|left|node_cells].
Qed.

Lemma evP_with_guard {A} L (q : prog World A) c Q :
  c !! descriptor_pool_ L = Some p -> evP q c Q -> evP (with_guard me fuel L false q) c Q.
Proof.
  intros Hp Hq. unfold with_guard. eapply evP_bind.
  { unfold MwCASDList_GetEpoch. eapply evm_bind; [by apply evm_ld|]. apply evm_ret. }
  eapply (evP_bind _ _ _ (MkEpochGuard (Some (DescriptorPool_GetEpoch p)) false)).
  { apply evm_ev. intros mm _. by apply ev_zoom_epochs. }
  eapply evP_bind_last; [exact Hq|]. intros x l' e' c' mm HQ. exists x. split; [|done].
  eapply ev_bind; [by apply ev_zoom_epochs|]. apply ev_ret.
Qed.

Section insertion.
Context (L node : Z) (mid1 mid2 : list Z) (c : gmap Z Z).
Context (Hd : dlist L (mid1 ++ mid2) c) (Hf : fresh_node L (mid1 ++ mid2) node c) (Hfree : on_free_list c).
Context (Hpay : is_Some (c !! node_payload_size node)).

Lemma place_adjacent : adjacent (whole_list L (mid1 ++ mid2)) (before L mid1) (after L mid2).
Proof. destruct (split_place L mid1 mid2 node) as (ys & zs & E & _). by exists ys, zs. Qed.

Definition inserted_list (s : Status) (l' : gmap Z GarbageList) (e' : EpochWorld) (c' : gmap Z Z) : Prop :=
  s = Status_OK /\ retires l' e' /\ dlist L (mid1 ++ node :: mid2) c'.

Lemma inserted_Q_list s l' e' c' :
  inserted_Q (before L mid1) (after L mid2) node c s l' e' c' -> inserted_list s l' e' c'.
Proof.
  intros (Hs & Hret & Hins). destruct (split_place L mid1 mid2 node) as (ys & zs & E & E').
  split; [done|]. split; [done|]. by eapply dlist_inserted.
Qed.

Lemma evP_insert_loop (q : Z -> prog World (Z + Status)) j :
  evP (q j) c (fun x l' e' c' => exists o, x = inr o /\
    inserted_Q (before L mid1) (after L mid2) node c o l' e' c') ->
  evP (with_guard me fuel L (negb true) (world_mem (flush_payload pmem node) ;;; loop fuel q j)) c inserted_list.
Proof.
  intros Hq. destruct Hpay as [n Hn]. apply evP_with_guard; [apply Hd|].
  eapply evP_bind; [by eapply evm_flush_payload|]. apply evP_loop_once.
  intros mm Hm. destruct (Hq mm Hm) as (x & l' & e' & c' & mm' & Hm' & Hev & o & -> & HQ).
  exists (inr o), l', e', c', mm'. split; [done|]. split; [done|]. exists o. split; [done|]. by apply inserted_Q_list.
Qed.

Lemma evP_InsertBefore_loop :
  evP (Mw_InsertBefore_loop me fuel (S depth) pmem L (after L mid2) node true) c inserted_list.
Proof. apply evP_insert_loop. eapply evP_InsertBefore_try; [done|done|apply place_adjacent|done]. Qed.

Lemma evP_InsertAfter_loop :
  evP (Mw_InsertAfter_loop me fuel (S depth) pmem L (before L mid1) node true) c inserted_list.
Proof. apply evP_insert_loop. eapply evP_InsertAfter_try; [done|done|apply place_adjacent|done]. Qed.

(** The neighbours are not the wrong sentinels. *)
Lemma after_not_head : (after L mid2 =? list_head L) = false.
Proof.
  apply Z.eqb_neq. intros E. destruct Hd as ((_ & Hnd & _) & _).
  destruct (split_place L mid1 mid2 node) as (ys & zs & Ew & _). rewrite E in Ew. rewrite Ew in Hnd.
  unfold whole_list in Ew. destruct ys as [|y ys]; simplify_eq/=; apply NoDup_cons in Hnd as [Hnd _]; apply Hnd; set_solver.
Qed.

Lemma before_not_tail : (before L mid1 =? list_tail L) = false.
Proof.
  apply Z.eqb_neq. intros E. destruct Hd as ((_ & Hnd & _) & _). unfold whole_list, before in *.
  rewrite app_comm_cons in Hnd. apply NoDup_app in Hnd as (_ & Hdis & _).
  apply (Hdis (list_tail L)); [|left]. rewrite <- E. destruct mid1 as [|x mid _] using rev_ind; [left|].
  rewrite last_snoc. simpl. set_solver.
Qed.
End insertion.

(** ** Deletion *)

Record deleted (prev next node : Z) (c c' : gmap Z Z) : Prop := {
  de_prev_next : c' !! node_next prev = Some next;
  de_next_prev : c' !! node_prev next = Some prev;
  de_node_next : c' !! node_next node = Some (next .| kNodeDeleted);
  de_other a : ~ pool_cell a -> a ∉ [node_next prev; node_prev next; node_next node] -> c' !! a = c !! a
}.

Definition delete_entries (prev next node : Z) : list wrec :=
  [MkW (node_next prev) node next kRecycleNever; MkW (node_prev next) node prev kRecycleNever;
   MkW (node_next node) next (next .| kNodeDeleted) kRecycleNever].

Lemma marked_plain L a : node_ok L a -> plain (a .| kNodeDeleted).
Proof.
  intros (H1 & H2 & _). apply fits_lor; unfold fits, kNodeDeleted; lia.
Qed.

Lemma delete_layout L prev next node :
  around L prev next node -> layout_ok d part (delete_entries prev next node).
Proof.
  intros [Hp Hn Hm Hpn Hpm Hnm]. destruct (us_d _ _ _ _ _ _ _ _ _ _ _ _ Hus) as [Hd Hd'].
  assert (forall a b, node_ok L a -> a <= b < a + 64 -> ~ (d <= b < d + 256) /\ b <> garbage_list part) as Hout.
  { intros a b Ha Hb. split; [by apply (node_cell L a b)|]. destruct Ha as (_ & _ & _ & H). by apply H. }
  split; [done|simpl; lia|apply (us_garbage _ _ _ _ _ _ _ _ _ _ _ _ Hus)| | |].
  - intros x [->|[->|[->|[]%elem_of_nil]%elem_of_cons]%elem_of_cons]%elem_of_cons _; cbn [wa].
    + apply (Hout prev); [done|node_cells].
    + apply (Hout next); [done|node_cells].
    + apply (Hout node); [done|node_cells].
  - intros x [->|[->|[->|[]%elem_of_nil]%elem_of_cons]%elem_of_cons]%elem_of_cons; cbn [wo wn]; split;
      by (eapply marked_plain || eapply node_plain).
  - apply NoDup_filter. cbn. rewrite !NoDup_cons, !elem_of_cons, elem_of_nil.
    split; [intros [E|[E|[]]]; node_cells|]. split; [intros [E|[]%elem_of_nil]; node_cells|].
    split; [apply not_elem_of_nil|apply NoDup_nil_2].
Qed.

Lemma evP_delete_MwCAS L prev next node c :
  around L prev next node -> prepared (delete_entries prev next node) c ->
  c !! node_next prev = Some node -> c !! node_prev next = Some node -> c !! node_next node = Some next ->
  evP (MwCAS me fuel pmem (S depth) d) c (fun ok l' e' c' =>
    ok = true /\ retires l' e' /\ deleted prev next node c c').
Proof.
  intros Har Hprep H1 H2 H3. pose proof Har as [Hp Hn Hm Hpn Hpm Hnm]. intros mm Hmm.
  destruct (evP_MwCAS (delete_entries prev next node) c Hprep (delete_layout L _ _ _ Har)) with (mm := mm)
    as (ok & l' & e' & c' & mm' & Hm' & Hev & -> & -> & He' & [Ht _ Ho]); [|done|].
  { intros x [->|[->|[->|[]%elem_of_nil]%elem_of_cons]%elem_of_cons]%elem_of_cons; cbn [wa wo];
      (split; [destruct Hp, Hn, Hm; node_cells|]); (split; [done|]); by eapply node_ne_d. }
  eexists true, _, e', c', mm'. split; [done|]. split; [exact Hev|]. split; [done|]. split; [by split|]. split.
  - apply (Ht (MkW (node_next prev) node next kRecycleNever)); [left|destruct Hp; cbn; node_cells].
  - apply (Ht (MkW (node_prev next) node prev kRecycleNever)); [right; left|destruct Hn; cbn; node_cells].
  - apply (Ht (MkW (node_next node) next (next .| kNodeDeleted) kRecycleNever));
      [right; right; left|destruct Hm; cbn; node_cells].
  - intros a Hpool Hin. apply Ho; [intros Hr; apply Hpool; by left|].
    intros x [->|[->|[->|[]%elem_of_nil]%elem_of_cons]%elem_of_cons]%elem_of_cons _; cbn; intros E; set_solver.
Qed.

(** Link fields a deletion leaves alone. *)
Lemma deleted_same L xs prev next node c c' x f :
  nodes_ok L xs -> prev ∈ xs -> next ∈ xs -> node ∈ xs -> deleted prev next node c c' ->
  x ∈ xs -> x <> node -> f = node_prev \/ f = node_next -> ~ (x = prev /\ f = node_next) ->
  ~ (x = next /\ f = node_prev) -> c' !! f x = c !! f x.
Proof.
  intros Hok Hp Hn Hm Hdel Hx Hxm Hf N1 N2. pose proof Hok as (Hall & _).
  apply (de_other _ _ _ _ _ Hdel).
  - rewrite Forall_forall in Hall. apply (node_cell L x); [by apply Hall|]. destruct Hf as [-> | ->]; node_cells.
  - pose proof next_not_prev. rewrite !elem_of_cons, elem_of_nil.
    intros [H1|[H1|[H1|[]]]];
      (eapply (in_nodes_other L xs x _ f) in H1; [|done..|by auto|by auto]); naive_solver.
Qed.

Lemma dlist_deleted L mid mid' ys zs prev next node c c' :
  dlist L mid' c -> whole_list L mid = ys ++ prev :: next :: zs ->
  whole_list L mid' = ys ++ prev :: node :: next :: zs -> deleted prev next node c c' -> dlist L mid c'.
Proof.
  intros (Hok & Hl & Hh & Ht & Hp & Hpool) E E' Hdel. pose proof Hok as (F1 & F2 & F3).
  assert (whole_list L mid' ≡ₚ node :: whole_list L mid) as Hperm by (rewrite E, E'; solve_Permutation).
  assert (forall x, x ∈ whole_list L mid -> x ∈ whole_list L mid' /\ x <> node) as Hsub.
  { intros x Hx. rewrite Hperm in F2. apply NoDup_cons in F2 as [F2 _]. rewrite Hperm. split; [by right|by intros ->]. }
  assert (nodes_ok L (whole_list L mid)) as Hok'.
  { rewrite Hperm in F1, F2. apply NoDup_cons in F2 as [_ F2]. apply Forall_cons in F1 as [_ F1].
    split_and!; [done|done|]. intros a b Ha Hb. by apply F3; apply Hsub. }
  assert (prev ∈ whole_list L mid /\ next ∈ whole_list L mid) as [Hpin Hnin] by (rewrite E; set_solver).
  assert (node ∈ whole_list L mid') as Hmin by (rewrite Hperm; left).
  assert (forall x f, x ∈ whole_list L mid -> f = node_prev \/ f = node_next ->
    ~ (x = prev /\ f = node_next) -> ~ (x = next /\ f = node_prev) -> c' !! f x = c !! f x) as Hsame.
  { intros. apply (deleted_same L (whole_list L mid') prev next node); try done; by apply Hsub. }
  destruct (ends_apart L mid ys zs prev next) as [Nh Nt]; [apply Hok'|done|].
  pose proof next_not_prev as Hnp.
  destruct (ends_in L mid) as [Hhin Htin].
  split; [done|]. split; [|split; [|split; [|split]]].
  - pose proof Hok' as (_ & Hnd & _). rewrite E in Hnd, Hsame |- *. rewrite E' in Hl.
    apply (links_deleted c c' _ _ _ _ node); [done|done|apply Hdel|apply Hdel|done].
  - rewrite Hsame by (auto; naive_solver). done.
  - rewrite Hsame by (auto; naive_solver). done.
  - rewrite (de_other _ _ _ _ _ Hdel); [done|done|]. rewrite Forall_forall in F1.
    assert (forall x b, x ∈ whole_list L mid' -> x <= b < x + 64 -> descriptor_pool_ L <> b) as Hne
      by (intros x b Hx Hb E2; symmetry in E2; destruct (F1 x Hx) as (_ & _ & _ & H); by apply (H b Hb)).
    rewrite !elem_of_cons, elem_of_nil. apply Hsub in Hpin as [Hpin _], Hnin as [Hnin _].
    intros [H1|[H1|[H1|[]]]];
      [apply (Hne prev _ Hpin) in H1|apply (Hne next _ Hnin) in H1|apply (Hne node _ Hmin) in H1]; done || node_cells.
  - done.
Qed.

Section deletion.
Context (L node : Z) (mid1 mid2 : list Z) (c : gmap Z Z).
Context (Hd : dlist L (mid1 ++ node :: mid2) c) (Hfree : on_free_list c).

Lemma node_around :
  around L (before L mid1) (after L mid2) node /\
  adjacent (whole_list L (mid1 ++ node :: mid2)) (before L mid1) node /\
  adjacent (whole_list L (mid1 ++ node :: mid2)) node (after L mid2) /\
  node <> list_head L /\ node <> list_tail L.
Proof.
  destruct (split_place L mid1 mid2 node) as (ys & zs & _ & E). destruct Hd as ((Hall & Hnd & Hsep) & _).
  rewrite Forall_forall in Hall.
  assert (before L mid1 ∈ whole_list L (mid1 ++ node :: mid2) /\ node ∈ whole_list L (mid1 ++ node :: mid2) /\
    after L mid2 ∈ whole_list L (mid1 ++ node :: mid2)) as (H1 & H2 & H3) by (rewrite E; set_solver).
  assert (before L mid1 <> node /\ before L mid1 <> after L mid2 /\ node <> after L mid2) as (N1 & N2 & N3).
  { rewrite E in Hnd. apply NoDup_app in Hnd as (_ & _ & Hnd). apply NoDup_cons in Hnd as [Hnb Hnd].
    apply NoDup_cons in Hnd as [Hnm _]. apply not_elem_of_cons in Hnb as [B1 Hnb], Hnm as [M1 _].
    apply not_elem_of_cons in Hnb as [B2 _]. split_and!; congruence. }
  split; [|split; [|split]].
  - split; [by apply Hall|by apply Hall|by apply Hall|by apply Hsep|by apply Hsep|].
    apply Hsep; [done|done|by intros <-].
  - by exists ys, (after L mid2 :: zs).
  - exists (ys ++ [before L mid1]), zs. by rewrite <- app_assoc.
  - unfold whole_list in Hnd. apply NoDup_cons in Hnd as [Hh Hnd]. apply NoDup_app in Hnd as (_ & Hdis & _).
    split; [intros ->; apply Hh; set_solver|]. intros E2. apply (Hdis node); [set_solver|rewrite E2; left].
Qed.

Definition deleted_list (s : Status) (l' : gmap Z GarbageList) (e' : EpochWorld) (c' : gmap Z Z) : Prop :=
  s = Status_OK /\ retires l' e' /\ dlist L (mid1 ++ mid2) c' /\
  c' !! node_next node = Some (after L mid2 .| kNodeDeleted) /\
  c' !! node_prev node = Some (before L mid1).

Lemma delete_entries_new :
  node_prev (after L mid2) ∉ wa <$> take 1 (delete_entries (before L mid1) (after L mid2) node) /\
  node_next node ∉ wa <$> take 2 (delete_entries (before L mid1) (after L mid2) node).
Proof.
  destruct node_around as ([Hp Hn Hm Hpn Hpm Hnm] & _). cbn [delete_entries take fmap list_fmap wa].
  rewrite !elem_of_cons, !elem_of_nil. split; [intros [E|[]]|intros [E|[E|[]]]]; node_cells.
Qed.

Lemma evP_Delete_try :
  evP (Mw_Delete_try me fuel (S depth) pmem L node tt) c
    (fun x l' e' c' => exists o, x = inr o /\ deleted_list o l' e' c').
Proof.
  destruct node_around as (Har & Hpm & Hmn & Nh & Nt). pose proof Hd as ((_ & _ & _) & _).
  destruct (adjacent_link L _ c _ _ Hd Hpm) as (P1 & P2 & Okp & Okm).
  destruct (adjacent_link L _ c _ _ Hd Hmn) as (N1 & N2 & _ & Okn).
  destruct (node_plain L _ Okp) as (Pp & Mp & _), (node_plain L _ Okn) as (Pn & Mn & _),
    (node_plain L _ Okm) as (Pm & Mm & _). destruct delete_entries_new as [D1 D2].
  unfold Mw_Delete_try. eapply evP_bind; [by apply evm_ld|]. rewrite Mn.
  rewrite (proj2 (Z.eqb_neq node (list_head L)) Nh), (proj2 (Z.eqb_neq node (list_tail L)) Nt). cbn [orb].
  eapply evP_bind; [by apply (evm_read _ L _ (before L mid1))|].
  eapply evP_bind; [by apply (evm_read _ L _ (after L mid2))|].
  eapply evP_bind; [by apply evm_ld|]. rewrite Z.eqb_refl. cbn [negb].
  eapply evP_bind; [by apply evm_ld|]. rewrite Z.eqb_refl. cbn [negb].
  apply (evP_alloc _ L); [apply Hd|done|]. intros c2 Hprep2 Hs2.
  eapply evP_bind; [apply evm_check, d_nonzero|].
  apply (evP_add _ []); [done|simpl; lia|apply (node_aligned L _ Okp)|done|done|apply not_elem_of_nil|].
  intros c3 Hprep3 Hs3.
  apply (evP_add _ (take 1 (delete_entries (before L mid1) (after L mid2) node)));
    [done|simpl; lia|apply (node_aligned L _ Okn)|done|done|done|]. intros c4 Hprep4 Hs4.
  apply (evP_add _ (take 2 (delete_entries (before L mid1) (after L mid2) node)));
    [done|simpl; lia|apply (node_aligned L _ Okm)|done|by eapply marked_plain|done|]. intros c5 Hprep5 Hs5.
  assert (forall a, ~ pool_cell a -> c5 !! a = c !! a) as Hs by (intros a Ha; by rewrite Hs5, Hs4, Hs3, Hs2).
  assert (forall a b, node_ok L a -> a <= b < a + 64 -> c5 !! b = c !! b) as Hcell
    by (intros a b Ha Hb; apply Hs, (node_cell L a b Ha Hb)).
  eapply evP_bind_last.
  - apply (evP_delete_MwCAS L (before L mid1) (after L mid2) node); [done|done|..];
      (rewrite (Hcell _ _ Okp) by node_cells; done) || (rewrite (Hcell _ _ Okn) by node_cells; done) ||
      (rewrite (Hcell _ _ Okm) by node_cells; done).
  - intros ok l' e' c' mm (-> & Hret & [A B C D]). eexists. split; [apply ev_ret|].
    exists Status_OK. split; [done|]. split; [done|]. split; [done|].
    assert (deleted (before L mid1) (after L mid2) node c c') as Hdel.
    { split; try done. intros a Ha Hin. by rewrite D, Hs. }
    destruct (split_place L mid1 mid2 node) as (ys & zs & E & E').
    split; [by eapply dlist_deleted|]. split; [done|].
    rewrite (de_other _ _ _ _ _ Hdel); [done|apply (node_cell L node); [done|node_cells]|].
    destruct Har. rewrite !elem_of_cons, elem_of_nil. intros [E2|[E2|[E2|[]]]]; node_cells.
Qed.

Lemma evP_Delete : evP (Mw_Delete me fuel (S depth) pmem L node true) c deleted_list.
Proof. apply evP_with_guard; [apply Hd|]. apply evP_loop_once, evP_Delete_try. Qed.
End deletion.

(** ** Reading *)

Lemma evP_evm {A} (q : prog World A) c x c' (Q : A -> gmap Z GarbageList -> EpochWorld -> gmap Z Z -> Prop) :
  evm q c x l e c' -> Q x l e c' -> evP q c Q.
Proof. intros Hq HQ mm Hm. destruct (Hq mm Hm) as (mm' & ? & ?). by exists x, l, e, c', mm'. Qed.

Lemma evm_GetNext dep L mid c a v :
  dlist L mid c -> a ∈ whole_list L mid -> c !! node_next a = Some v ->
  evm (Mw_GetNext me fuel dep pmem L a true) c v l e c.
Proof.
  intros Hd Ha Hv. destruct (dlist_next L mid c a Hd Ha) as (v' & Hv' & (Pv & Mv & Cv) & _).
  assert (v' = v) as -> by congruence.
  assert (clear a kNodeDeleted = a) as Ea.
  { destruct Hd as ((Hok & _) & _). rewrite Forall_forall in Hok. by apply (node_plain L), Hok. }
  unfold Mw_GetNext. rewrite Ea. eapply evm_bind; [by apply (evm_read _ L _ v)|]. rewrite Cv. apply evm_ret.
Qed.

Lemma evm_GetPrev dep L mid c a v :
  dlist L mid c -> a ∈ whole_list L mid -> c !! node_prev a = Some v ->
  evm (Mw_GetPrev me fuel dep pmem L a true) c v l e c.
Proof.
  intros Hd Ha Hv. destruct (dlist_prev L mid c a Hd Ha) as (v' & Hv' & (Pv & Mv & Cv) & _).
  assert (v' = v) as -> by congruence.
  assert (clear a kNodeDeleted = a) as Ea.
  { destruct Hd as ((Hok & _) & _). rewrite Forall_forall in Hok. by apply (node_plain L), Hok. }
  unfold Mw_GetPrev. rewrite Ea. eapply evm_bind; [by apply (evm_read _ L _ v)|]. rewrite Cv. apply evm_ret.
Qed.

(** [n] moves of a cursor, with the nodes it passed. *)
Fixpoint moves (step : DListCursor -> prog World (Z * DListCursor)) (n : nat) (k : DListCursor) :
    prog World (list Z * DListCursor) :=
  match n with
  | O => Ret ([], k)
  | S n => let! r := step k in let! s := moves step n r.2 in Ret (r.1 :: s.1, s.2)
  end.

Lemma evm_Next dep L mid c u ys a b zs :
  dlist L mid c -> c !! sync_method_ L = Some kSyncMwCAS -> whole_list L mid = ys ++ a :: b :: zs ->
  evm (DListCursor_Next me fuel dep pmem (MkCursor L a u)) c (b, MkCursor L b u) l e c.
Proof.
  intros Hd Hs E. assert (adjacent (whole_list L mid) a b) as Hab by (by exists ys, zs).
  unfold DListCursor_Next, list_GetNext. cbn [list_ current_node_ unprot].
  eapply evm_bind; [|apply evm_ret]. eapply evm_bind; [by apply evm_ld|]. rewrite Z.eqb_refl.
  eapply evm_GetNext; [done|by apply (adjacent_in _ _ _ Hab)|by apply (adjacent_link L mid c a b Hd Hab)].
Qed.

Lemma evm_Prev dep L mid c u ys a b zs :
  dlist L mid c -> c !! sync_method_ L = Some kSyncMwCAS -> whole_list L mid = ys ++ a :: b :: zs ->
  evm (DListCursor_Prev me fuel dep pmem (MkCursor L b u)) c (a, MkCursor L a u) l e c.
Proof.
  intros Hd Hs E. assert (adjacent (whole_list L mid) a b) as Hab by (by exists ys, zs).
  unfold DListCursor_Prev, list_GetPrev. cbn [list_ current_node_ unprot].
  eapply evm_bind; [|apply evm_ret]. eapply evm_bind; [by apply evm_ld|]. rewrite Z.eqb_refl.
  eapply evm_GetPrev; [done|by apply (adjacent_in _ _ _ Hab)|by apply (adjacent_link L mid c a b Hd Hab)].
Qed.

Lemma evm_moves_next dep L mid c u xs : forall ys a zs,
  dlist L mid c -> c !! sync_method_ L = Some kSyncMwCAS -> whole_list L mid = ys ++ a :: xs ++ zs ->
  evm (moves (DListCursor_Next me fuel dep pmem) (length xs) (MkCursor L a u)) c
    (xs, MkCursor L (default a (last xs)) u) l e c.
Proof.
  induction xs as [|b xs IH]; intros ys a zs Hd Hs E; [apply evm_ret|]. cbn [moves length].
  eapply evm_bind; [by eapply evm_Next|]. cbn [fst snd]. eapply evm_bind.
  - apply (IH (ys ++ [a]) b zs); [done|done|]. by rewrite E, <- app_assoc.
  - cbn [fst snd]. replace (default a (last (b :: xs))) with (default b (last xs)); [apply evm_ret|].
    destruct xs as [|x xs _] using rev_ind; [done|]. by rewrite app_comm_cons, !last_snoc.
Qed.

Lemma evm_moves_prev dep L mid c u xs : forall zs a,
  dlist L mid c -> c !! sync_method_ L = Some kSyncMwCAS ->
  forall ys, whole_list L mid = ys ++ rev xs ++ a :: zs ->
  evm (moves (DListCursor_Prev me fuel dep pmem) (length xs) (MkCursor L a u)) c
    (xs, MkCursor L (default a (last xs)) u) l e c.
Proof.
  induction xs as [|b xs IH]; intros zs a Hd Hs ys E; [apply evm_ret|]. cbn [moves length].
  cbn [rev] in E. eapply evm_bind.
  { eapply (evm_Prev _ L mid _ _ (ys ++ rev xs) b a zs); [done|done|]. by rewrite E, <- !app_assoc. }
  cbn [fst snd]. eapply evm_bind.
  - apply (IH (a :: zs) b Hd Hs ys). by rewrite E, <- !app_assoc.
  - cbn [fst snd]. replace (default a (last (b :: xs))) with (default b (last xs)); [apply evm_ret|].
    destruct xs as [|x xs' _] using rev_ind; [done|]. by rewrite app_comm_cons, !last_snoc.
Qed.

(** Deleting what is not there. *)
Lemma evm_Delete_nothing L node c v :
  c !! descriptor_pool_ L = Some p -> c !! node_next node = Some v ->
  (marked v = true \/
   marked v = false /\ (node = list_head L \/ node = list_tail L) /\ exists v', c !! node_prev node = Some v' /\ marked v' = false) ->
  evP (Mw_Delete me fuel (S depth) pmem L node true) c (fun s l' e' c' => s = Status_OK /\ l' = l /\ e' = e /\ c' = c).
Proof.
  intros Hp Hv H. apply evP_with_guard; [done|]. apply evP_loop_once. apply (evP_evm _ _ (inr Status_OK) c); [|eauto 10].
  unfold Mw_Delete_try. eapply evm_bind; [by apply evm_ld|].
  destruct H as [Mv|(Mv & H & v' & Hv' & Mv')]; rewrite Mv; [apply evm_ret|].
  replace ((node =? list_head L) || (node =? list_tail L)) with true
    by (symmetry; apply orb_true_iff; destruct H as [->| ->]; rewrite Z.eqb_refl; auto).
  eapply evm_bind; [by apply evm_ld|]. eapply evm_bind; [apply evm_check; by rewrite Mv|].
  eapply evm_bind; [by apply evm_ld|]. eapply evm_bind; [apply evm_check; by rewrite Mv'|]. apply evm_ret.
Qed.

Lemma evm_Delete_sentinel L mid node c :
  dlist L mid c -> node = list_head L \/ node = list_tail L ->
  evP (Mw_Delete me fuel (S depth) pmem L node true) c (fun s l' e' c' => s = Status_OK /\ l' = l /\ e' = e /\ c' = c).
Proof.
  intros Hd Hn. destruct (ends_in L mid) as [Hh Ht].
  assert (node ∈ whole_list L mid) as Hin by (by destruct Hn as [->| ->]).
  destruct (dlist_next L mid c node Hd Hin) as (v & Hv & (_ & Mv & _) & _).
  destruct (dlist_prev L mid c node Hd Hin) as (v' & Hv' & (_ & Mv' & _) & _).
  eapply evm_Delete_nothing; [apply Hd|exact Hv|]. right. eauto.
Qed.

Lemma evm_ends dep L mid c u :
  dlist L mid c -> c !! sync_method_ L = Some kSyncMwCAS ->
  evm (DListCursor_Next me fuel dep pmem (MkCursor L (list_tail L) u)) c (0, MkCursor L 0 u) l e c /\
  evm (DListCursor_Prev me fuel dep pmem (MkCursor L (list_head L) u)) c (0, MkCursor L 0 u) l e c.
Proof.
  clear Hus. intros Hd Hs. destruct (ends_in L mid) as [Hh Ht]. pose proof Hd as (_ & _ & H0 & H1 & _).
  split; (eapply evm_bind; [|apply evm_ret]); (eapply evm_bind; [by apply evm_ld|]); rewrite Z.eqb_refl.
  - by eapply evm_GetNext.
  - by eapply evm_GetPrev.
Qed.

Lemma evm_walk dep L mid c u :
  dlist L mid c -> c !! sync_method_ L = Some kSyncMwCAS ->
  evm (moves (DListCursor_Next me fuel dep pmem) (S (length mid)) (MkCursor L (list_head L) u)) c
    (mid ++ [list_tail L], MkCursor L (list_tail L) u) l e c /\
  evm (moves (DListCursor_Prev me fuel dep pmem) (S (length mid)) (MkCursor L (list_tail L) u)) c
    (rev mid ++ [list_head L], MkCursor L (list_head L) u) l e c.
Proof.
  intros Hd Hs.
  pose proof (evm_moves_next dep L mid c u (mid ++ [list_tail L]) [] (list_head L) [] Hd Hs) as H1.
  pose proof (evm_moves_prev dep L mid c u (rev mid ++ [list_head L]) [] (list_tail L) Hd Hs []) as H2.
  rewrite last_snoc, length_app, Nat.add_1_r in H1, H2. rewrite length_rev in H2. cbn [default] in H1, H2.
  split; [apply H1|apply H2]; [by rewrite app_nil_r|].
  unfold whole_list. by rewrite rev_app_distr, rev_involutive.
Qed.

Lemma evP_run {A} (q : prog World A) w Q :
  lists w = l -> epochs w = e -> metrics_ok me (metrics (client w)) -> evP q (cells (client w)) Q ->
  exists x w', run q w = (Done x, w') /\ Q x (lists w') (epochs w') (cells (client w')) /\
    metrics_ok me (metrics (client w')).
Proof.
  intros El Ee Hm Hq. destruct (Hq _ Hm) as (x & l' & e' & c' & mm' & Hm' & Hev & HQ).
  destruct (Hev w) as (w' & R & E); [unfold volatile; by rewrite El, Ee|].
  exists x, w'. split; [done|]. destruct w' as [l2 e2 [c2 pc2 m2]]. unfold volatile, St in E. simpl in *. by simplify_eq.
Qed.
Lemma evm_run {A} (q : prog World A) (x : A) w :
  lists w = l -> epochs w = e -> metrics_ok me (metrics (client w)) -> evm q (cells (client w)) x l e (cells (client w)) ->
  exists w', run q w = (Done x, w') /\ cells (client w') = cells (client w) /\ lists w' = l /\ epochs w' = e.
Proof.
  intros El Ee Hm Hq.
  destruct (evP_run q w (fun y l' e' c' => y = x /\ l' = l /\ e' = e /\ c' = cells (client w)) El Ee Hm) as
    (y & w' & R & (-> & ? & ? & ?) & _); [by eapply evP_evm|]. by exists w'.
Qed.
End client.

(** C34.  With no other thread at work, a protected thread that inserts a fresh node before or
    after any node of a MwCASDList (already_protected is true) puts it at that place of
    the chain, in both directions, keeps every other link, retires its one descriptor to
    the garbage list and returns OK; inserting before the head means after it, and after
    the tail before it. *)
Theorem MwCASDList_insert_correct `{PlatformLaws} me fuel depth pmem m g part d p k sz i G en L mid1 mid2 node w :
  let c := cells (client w) in
  (0 < fuel)%nat -> metrics_ok me (metrics (client w)) ->
  usable me m g part d k sz i G en (lists w) (epochs w) ->
  dlist part d p L (mid1 ++ mid2) c -> fresh_node part d L (mid1 ++ mid2) node c ->
  on_free_list g part d c -> is_Some (c !! node_payload_size node) ->
  let done_by q := exists w', run q w = (Done Status_OK, w') /\
    dlist part d p L (mid1 ++ node :: mid2) (cells (client w')) /\
    lists w' = <[g := retired m k G (epochs w) d]> (lists w) /\ rolled m sz (epochs w) (epochs w') in
  done_by (Mw_InsertBefore me fuel (S depth) pmem L (after L mid2) node true) /\
  done_by (Mw_InsertAfter me fuel (S depth) pmem L (before L mid1) node true) /\
  (mid1 = [] -> done_by (Mw_InsertBefore me fuel (S depth) pmem L (list_head L) node true)) /\
  (mid2 = [] -> done_by (Mw_InsertAfter me fuel (S depth) pmem L (list_tail L) node true)).
Proof.
  intros c Hfu Hm Hus Hd Hf Hfree Hpay done_by.
  assert (forall q, evP me (lists w) (epochs w) q c (inserted_list m g part d p k sz G (lists w) (epochs w) L node mid1 mid2) -> done_by q) as Hdone.
  { intros q Hq. destruct (evP_run me (lists w) (epochs w) q w _ eq_refl eq_refl Hm Hq)
      as (s & w' & R & (-> & (Hret & Hr) & Hd') & _). by exists w'. }
  assert (done_by (Mw_InsertBefore_loop me fuel (S depth) pmem L (after L mid2) node true)) as Hb
    by (by eapply Hdone, evP_InsertBefore_loop).
  assert (done_by (Mw_InsertAfter_loop me fuel (S depth) pmem L (before L mid1) node true)) as Ha
    by (by eapply Hdone, evP_InsertAfter_loop).
  unfold Mw_InsertBefore, Mw_InsertAfter. split; [|split; [|split]].
  - assert ((after L mid2 =? list_head L) = false) as -> by (by eapply after_not_head). done.
  - assert ((before L mid1 =? list_tail L) = false) as -> by (by eapply before_not_tail). done.
  - intros ->. by rewrite Z.eqb_refl.
  - intros ->. by rewrite Z.eqb_refl.
Qed.

(** C35.  With no other thread at work, deleting a node of a MwCASDList unlinks it in both
    directions, marks its next pointer and leaves its previous one; deleting a sentinel
    or a node that is already marked returns OK and changes nothing. *)
Theorem MwCASDList_delete_correct `{PlatformLaws} me fuel depth pmem m g part d p k sz i G en L mid1 mid2 node w :
  let c := cells (client w) in
  let q := Mw_Delete me fuel (S depth) pmem L node true in
  (0 < fuel)%nat -> metrics_ok me (metrics (client w)) ->
  usable me m g part d k sz i G en (lists w) (epochs w) -> on_free_list g part d c ->
  (dlist part d p L (mid1 ++ node :: mid2) c -> exists w', run q w = (Done Status_OK, w') /\
     dlist part d p L (mid1 ++ mid2) (cells (client w')) /\ rolled m sz (epochs w) (epochs w') /\
     cells (client w') !! node_next node = Some (after L mid2 .| kNodeDeleted) /\
     cells (client w') !! node_prev node = Some (before L mid1)) /\
  (c !! descriptor_pool_ L = Some p ->
   (exists v, c !! node_next node = Some v /\ marked v = true) \/
   dlist part d p L mid1 c /\ (node = list_head L \/ node = list_tail L) ->
   exists w', run q w = (Done Status_OK, w') /\ cells (client w') = c /\ lists w' = lists w /\ epochs w' = epochs w).
Proof.
  intros c q Hfu Hm Hus Hfree. split.
  - intros Hd. destruct (evP_run me (lists w) (epochs w) q w _ eq_refl eq_refl Hm
      ltac:(eapply evP_Delete; [done|done|exact Hd|exact Hfree])) as (s & w' & R & (-> & (_ & Hr) & Hd' & Hn & Hp) & _).
    by exists w'.
  - intros Hp Hor.
    assert (evP me (lists w) (epochs w) q c (fun s l' e' c' => s = Status_OK /\ l' = lists w /\ e' = epochs w /\ c' = c)) as Hq.
    { destruct Hor as [(v & Hv & Mv)|(Hd & Hn)]; [eapply evm_Delete_nothing; eauto|].
      by eapply evm_Delete_sentinel. }
    destruct (evP_run me (lists w) (epochs w) q w _ eq_refl eq_refl Hm Hq) as (s & w' & R & (-> & ? & ? & ?) & _).
    by exists w'.
Qed.

(** C36.  With no other thread at work, a cursor over a MwCASDList moves forward from the head
    through exactly the nodes of the list, in order, to the tail, and backward from the
    tail through them in reverse; past either end it returns null. Memory, garbage lists
    and epochs are as before; only reads are counted. *)
Theorem MwCASDList_traverse_correct `{PlatformLaws} me fuel depth pmem part d p L mid u w :
  let c := cells (client w) in
  let next := DListCursor_Next me fuel depth pmem in
  let prev := DListCursor_Prev me fuel depth pmem in
  (0 < fuel)%nat -> metrics_ok me (metrics (client w)) ->
  dlist part d p L mid c -> c !! sync_method_ L = Some kSyncMwCAS ->
  let reads {A} (q : prog World A) (x : A) := exists w', run q w = (Done x, w') /\ cells (client w') = c /\
    lists w' = lists w /\ epochs w' = epochs w in
  reads (moves next (S (length mid)) (MkCursor L (list_head L) u)) (mid ++ [list_tail L], MkCursor L (list_tail L) u) /\
  reads (moves prev (S (length mid)) (MkCursor L (list_tail L) u)) (rev mid ++ [list_head L], MkCursor L (list_head L) u) /\
  reads (next (MkCursor L (list_tail L) u)) (0, MkCursor L 0 u) /\
  reads (prev (MkCursor L (list_head L) u)) (0, MkCursor L 0 u).
Proof.
  intros c next prev Hfu Hm Hd Hs reads.
  assert (forall A (q : prog World A) x, evm me (lists w) (epochs w) q c x (lists w) (epochs w) c -> reads A q x) as Hreads
    by (intros A q x Hq; by eapply evm_run).
  destruct (evm_walk me fuel Hfu pmem part d p (lists w) (epochs w) depth L mid c u Hd Hs) as [W1 W2].
  destruct (evm_ends me fuel Hfu pmem part d p (lists w) (epochs w) depth L mid c u Hd Hs) as [W3 W4].
  split; [|split; [|split]]; apply Hreads; assumption.
Qed.

(** ** Building a list *)

Definition new_node_cells (n prev next size : Z) (c : gmap Z Z) : gmap Z Z :=
  <[node_payload_size n := size]> (<[node_next n := next]> (<[node_prev n := prev]> c)).
Definition new_list_cells (L p : Z) (c : gmap Z Z) : gmap Z Z :=
  <[descriptor_pool_ L := p]> (<[sync_method_ L := kSyncMwCAS]>
    (new_node_cells (list_tail L) (list_head L) 0 0 (new_node_cells (list_head L) 0 (list_tail L) 0 c))).

Ltac cells_at := unfold new_list_cells, new_node_cells; repeat
  (rewrite lookup_insert_eq || rewrite lookup_insert_ne by
    (unfold descriptor_pool_, sync_method_, list_tail, list_head, node_prev, node_next, node_payload_size; lia)).

Lemma new_list_dlist part d p L c :
  node_ok part d L (list_head L) -> node_ok part d L (list_tail L) -> ~ pool_cell part d (descriptor_pool_ L) ->
  dlist part d p L [] (new_list_cells L p c).
Proof.
  intros Hh Ht Hp. unfold dlist, whole_list. cbn [app]. split_and!; [| | | | |done]; try by cells_at.
  - unfold nodes_ok. rewrite !Forall_cons, !NoDup_cons, list_elem_of_singleton.
    split_and!; try done; [unfold list_head, list_tail; lia|apply not_elem_of_nil|apply NoDup_nil_2|].
    intros a b. rewrite !elem_of_cons, !elem_of_nil. unfold list_head, list_tail.
    intros [-> |[-> |[]]] [-> |[-> |[]]]; lia.
  - intros a b (ys & zs & E). destruct ys as [|y [|y' [|y'' ys]]]; try done. injection E as <- <- _.
    split; by cells_at.
Qed.

Lemma new_node_same part d L mid node x f prev next size c :
  nodes_ok part d L (node :: whole_list L mid) -> x ∈ whole_list L mid -> f = node_prev \/ f = node_next ->
  new_node_cells node prev next size c !! f x = c !! f x.
Proof.
  intros (_ & Hnd & Hsep) Hx Hf. apply NoDup_cons in Hnd as [Hn _].
  assert (node <> x) as Hne by (by intros ->).
  destruct (Hsep node x ltac:(left) ltac:(by right) Hne), Hf as [-> | ->]; unfold node_prev, node_next; cells_at; done.
Qed.

Lemma dlist_other part d p L mid c c' :
  dlist part d p L mid c -> (forall x f, x ∈ whole_list L mid -> f = node_prev \/ f = node_next -> c' !! f x = c !! f x) ->
  c' !! descriptor_pool_ L = c !! descriptor_pool_ L -> dlist part d p L mid c'.
Proof.
  intros (Hok & Hl & H1 & H2 & H3 & H4) Hs Hp.
  assert (list_head L ∈ whole_list L mid /\ list_tail L ∈ whole_list L mid) as [Hh Ht]
    by (unfold whole_list; set_solver).
  unfold dlist. rewrite !Hs, Hp by auto. split_and!; try done. intros a b Hab. destruct (adjacent_in _ _ _ Hab).
  rewrite !Hs by auto. by apply Hl.
Qed.

(** A new MwCASDList is an empty list and touches only its own object; a new node is
    outside the list, has its links and payload size, leaves the list as it was, and
    constructing one at a null address is stopped. *)
Theorem MwCASDList_new_correct part d p L node size mid (w : World) :
  (node_ok part d L (list_head L) -> node_ok part d L (list_tail L) -> ~ pool_cell part d (descriptor_pool_ L) ->
   exists w', run (MwCASDList_new L p) w = (Done tt, w') /\ dlist part d p L [] (cells (client w')) /\
     cells (client w') !! sync_method_ L = Some kSyncMwCAS /\
     forall a, ~ L <= a < L + 152 -> cells (client w') !! a = cells (client w) !! a) /\
  (dlist part d p L mid (cells (client w)) -> nodes_ok part d L (node :: whole_list L mid) ->
   exists w', run (world_mem (NewNode node 0 0 size)) w = (Done node, w') /\
     dlist part d p L mid (cells (client w')) /\ fresh_node part d L mid node (cells (client w')) /\
     cells (client w') !! node_payload_size node = Some size /\
     forall a, ~ node <= a < node + 64 -> cells (client w') !! a = cells (client w) !! a) /\
  run (world_mem (NewNode 0 0 0 size)) w = (Faulted "constructing at a null address", w).
Proof.
  destruct w as [ls ep [c pc mm]]. cbn [cells client]. split; [|split; [|done]].
  - intros Hh Ht Hp. exists (MkGW ls ep (MkMem (new_list_cells L p c) pc mm)). split; [reflexivity|].
    cbn [cells client]. split; [by apply new_list_dlist|]. split; [by cells_at|].
    intros a Ha. by cells_at.
  - intros Hd Hok. pose proof Hok as (Hall & _). apply Forall_inv in Hall as (Hpos & _ & _ & Hout).
    exists (MkGW ls ep (MkMem (new_node_cells node 0 0 size c) pc mm)). split.
    { unfold NewNode. rewrite (proj2 (Z.eqb_neq node 0)) by lia. reflexivity. }
    cbn [cells client]. split; [|split; [|split]].
    + eapply dlist_other; [exact Hd|intros; by eapply new_node_same|].
      unfold new_node_cells. rewrite !lookup_insert_ne; [done|..]; intros E;
        (eapply Hout; [|exact E]); unfold node_prev, node_next, node_payload_size in *; lia.
    + split; [done|..]; eexists; by cells_at.
    + by cells_at.
    + intros a Ha. by cells_at.
Qed.

(** *** A list of one node, a second node, a free descriptor and its owner, thread 5 *)

Definition list_epochs : EpochWorld :=
  set_threads (tls_set (5, tls_part) (tls_ptr_part 4096) (threads sample_epochs)) sample_epochs.
Definition list_cells : gmap Z Z :=
  sample_cells 1024 4096 16 kStatusFinished [] ∪ list_to_map (
    [(free_list 4096, 1024); (next_ptr_ 1024, 0); (allocate_callback_ 1024, 0); (free_callback_ 1024, 0);
     (node_prev 8192, 0); (node_next 8192, 8448); (node_prev 8448, 8192); (node_next 8448, 8256);
     (node_prev 8256, 8448); (node_next 8256, 0); (sync_method_ 8184, kSyncMwCAS); (descriptor_pool_ 8184, 512);
     (node_prev 8640, 0); (node_next 8640, 0); (node_payload_size 8640, 16)] ++
    ((fun a => (a, 0)) <$> word_fields 1024)).
Definition list_world : World := MkGW {[ 16 := sample_ring ]} list_epochs (MkMem list_cells ∅ metrics_off).

Lemma list_usable : usable 5 100 16 4096 1024 2 128 117 sample_ring (MkEntry 1 0 5) {[ 16 := sample_ring ]} list_epochs.
Proof.
  split; [|by vm_compute|lia|unfold garbage_list; lia|unfold free_list; lia].
  intros mm Hm. destruct sample_able as [A B C D E _]. by split.
Qed.

Lemma list_free : on_free_list 16 4096 1024 list_cells.
Proof.
  assert (forallb (fun a => match list_cells !! a with Some _ => true | None => false end)
    (word_fields 1024) = true) as H by (by vm_compute).
  split; [|split_and!; [by vm_compute|eexists; by vm_compute..]]. split; [|split; [|by vm_compute]].
  - split; [intros [|n] x Hx; done|by vm_compute].
  - intros a Ha%list_elem_of_In. eapply forallb_forall in H; [|exact Ha].
    destruct (list_cells !! a); [by eexists|done].
Qed.

Lemma list_node_ok a : 8192 <= a -> a < 10000 -> a mod 8 = 0 -> a + 64 <= 8328 \/ 8328 < a -> node_ok 4096 1024 8184 a.
Proof.
  intros H1 H2 H3 H4. split_and!; [lia|lia|done|]. intros b Hb.
  unfold pool_cell, free_list, garbage_list, descriptor_pool_. lia.
Qed.

Lemma list_fresh : fresh_node 4096 1024 8184 [8448] 8640 list_cells.
Proof.
  split; [|eexists; by vm_compute..]. split_and!.
  - unfold whole_list, list_head, list_tail. cbn [app]. rewrite !Forall_cons.
    split_and!; [apply list_node_ok; lia || done..|apply Forall_nil_2].
  - apply (bool_decide_unpack _). by vm_compute.
  - intros a b. unfold whole_list, list_head, list_tail. cbn [app]. rewrite !elem_of_cons, !elem_of_nil. lia.
Qed.

Lemma list_dlist : dlist 4096 1024 512 8184 [8448] list_cells.
Proof.
  destruct list_fresh as [(Hall & Hnd & Hsep) _ _].
  split; [|split; [|split_and!; try by vm_compute]].
  - split_and!; [by apply Forall_cons in Hall as [_ ?]|by apply NoDup_cons in Hnd as [_ ?]|].
    intros a b Ha Hb. apply Hsep; by right.
  - intros a b (ys & zs & E). unfold whole_list in E.
    destruct ys as [|y [|y' [|y'' [|]]]]; try done; injection E as; subst; by vm_compute.
  - unfold pool_cell, free_list, descriptor_pool_. lia.
Qed.

Example MwCASDList_insert_correct_witness :
  (exists w', run (Mw_InsertBefore 5 1 1 true 8184 8256 8640 true) list_world = (Done Status_OK, w') /\
     dlist 4096 1024 512 8184 [8448; 8640] (cells (client w'))) /\
  exists w', run (Mw_InsertAfter 5 1 1 true 8184 8448 8640 true) list_world = (Done Status_OK, w') /\
     dlist 4096 1024 512 8184 [8448; 8640] (cells (client w')).
Proof.
  destruct (MwCASDList_insert_correct 5 1 0 true 100 16 4096 1024 512 2 128 117 sample_ring (MkEntry 1 0 5)
    8184 [8448] [] 8640 list_world ltac:(lia) ltac:(by left) list_usable list_dlist list_fresh list_free
    ltac:(eexists; by vm_compute)) as ((w1 & R1 & D1 & _) & (w2 & R2 & D2 & _) & _).
  split; [exists w1|exists w2]; (split; [assumption|assumption]).
Defined.

Example MwCASDList_delete_correct_witness :
  (exists w', run (Mw_Delete 5 1 1 false 8184 8448 true) list_world = (Done Status_OK, w') /\
     dlist 4096 1024 512 8184 [] (cells (client w'))) /\
  exists w', run (Mw_Delete 5 1 1 false 8184 8192 true) list_world = (Done Status_OK, w') /\
     cells (client w') = list_cells.
Proof.
  destruct (MwCASDList_delete_correct 5 1 0 false 100 16 4096 1024 512 2 128 117 sample_ring (MkEntry 1 0 5)
    8184 [] [] 8448 list_world ltac:(lia) ltac:(by left) list_usable list_free) as (H & _).
  destruct (MwCASDList_delete_correct 5 1 0 false 100 16 4096 1024 512 2 128 117 sample_ring (MkEntry 1 0 5)
    8184 [8448] [] 8192 list_world ltac:(lia) ltac:(by left) list_usable list_free) as (_ & H').
  destruct (H list_dlist) as (w1 & R1 & D1 & _).
  destruct (H' ltac:(by vm_compute) ltac:(right; split; [exact list_dlist|by left])) as (w2 & R2 & D2 & _).
  split; [exists w1|exists w2]; (split; [assumption|assumption]).
Defined.

Example MwCASDList_traverse_correct_witness :
  exists w', run (moves (DListCursor_Next 5 1 1 true) 2 (MkCursor 8184 8192 false)) list_world =
    (Done ([8448; 8256], MkCursor 8184 8256 false), w') /\ cells (client w') = list_cells.
Proof.
  destruct (MwCASDList_traverse_correct 5 1 1 true 4096 1024 512 8184 [8448] false list_world ltac:(lia)
    ltac:(by left) list_dlist ltac:(by vm_compute)) as ((w' & R & E & _) & _).
  exists w'. split; [exact R|exact E].
Defined.

Example MwCASDList_new_correct_witness :
  (exists w', run (MwCASDList_new 8184 512) list_world = (Done tt, w') /\
     dlist 4096 1024 512 8184 [] (cells (client w'))) /\
  exists w', run (world_mem (NewNode 8640 0 0 16)) list_world = (Done 8640, w') /\
     dlist 4096 1024 512 8184 [8448] (cells (client w')) /\
     fresh_node 4096 1024 8184 [8448] 8640 (cells (client w')).
Proof.
  destruct (MwCASDList_new_correct 4096 1024 512 8184 8640 16 [8448] list_world) as (H1 & H2 & _).
  destruct H1 as (w1 & R1 & D1 & _); [by apply list_node_ok; unfold list_head; lia || done|
    by apply list_node_ok; unfold list_tail; lia || done|unfold pool_cell, free_list, descriptor_pool_; lia|].
  destruct (H2 list_dlist (fn_ok _ _ _ _ _ _ list_fresh)) as (w2 & R2 & D2 & F2 & _).
  split; [exists w1|exists w2]; split_and!; assumption.
Defined.
