(* ===== verification/DListCheck.v ===== *)
(** * The single-threaded sanity check (IDList::SingleThreadSanityCheck)

    What the check decides on a list whose forward chain is intact but for dirty flags: the
    flags it clears, the backward pointers it compares, and those it does not. *)
From Stdlib Require Import ZArith Lia.
From stdpp Require Import base list gmap strings.
From S2P Require Import Prelude Bytes Prog Status Hash Library Epoch Garbage Metrics Memory Descriptor MwCAS Target Pool DList Chain CasList DListSpec.
#[local] Open Scope Z_scope.
#[local] Open Scope machine_scope.
#[local] Open Scope prog_scope.

(** ** Clearing dirty flags *)

(** In a PMEM build the words at [A] without their dirty flags. *)
Definition cleaned_at (pmem : bool) (A : list Z) (c : gmap Z Z) : gmap Z Z :=
  map_imap (fun a v => Some (if pmem && bool_decide (a ∈ A) then clear v kDirtyFlag else v)) c.

Lemma lookup_cleaned pmem A c a :
  cleaned_at pmem A c !! a = (fun v => if pmem && bool_decide (a ∈ A) then clear v kDirtyFlag else v) <$> c !! a.
Proof. unfold cleaned_at. rewrite map_lookup_imap. by destruct (c !! a). Qed.

Lemma clear_twice v m : clear (clear v m) m = clear v m.
Proof. unfold clear. bitwise i Hi. rewrite !Z.ldiff_spec. by destruct (Z.testbit v i), (Z.testbit m i). Qed.

Lemma cleaned_more A a c v : cleaned_at true A c !! a = Some v -> <[a := clear v kDirtyFlag]> (cleaned_at true A c) = cleaned_at true (A ++ [a]) c.
Proof.
  intros Hv. apply map_eq. intros b. rewrite lookup_cleaned in *. cbn [andb] in *. destruct (decide (b = a)) as [->|Hne].
  - rewrite lookup_insert_eq. destruct (c !! a) as [x|]; [|done]. injection Hv as <-. cbn. f_equal.
    rewrite (bool_decide_eq_true_2 (a ∈ A ++ [a])) by set_solver. destruct (bool_decide (a ∈ A)); [apply clear_twice|done].
  - rewrite lookup_insert_ne, lookup_cleaned by done. cbn [andb].
    rewrite (bool_decide_ext (b ∈ A ++ [a]) (b ∈ A)) by set_solver. done.
Qed.

Lemma cleaned_none c : cleaned_at true [] c = c.
Proof. apply map_eq. intros a. rewrite lookup_cleaned. cbn. by destruct (c !! a). Qed.

Lemma cleaned_volatile A c : cleaned_at false A c = c.
Proof. apply map_eq. intros a. rewrite lookup_cleaned. cbn. by destruct (c !! a). Qed.

(** ** The list *)

(** The pairs of neighbours in a list. *)
Definition pairs (xs : list Z) : list (Z * Z) := zip xs (tail xs).

Definition links_of (xs : list Z) : list Z := flat_map (fun n => [node_next n; node_prev n]) xs.

(** A pointer, without the flag it may carry in a PMEM build. *)
Definition pointer (pmem : bool) (v : Z) : Z := if pmem then clear v kDirtyFlag else v.
Definition backward_ok (pmem : bool) (c : gmap Z Z) (ab : Z * Z) : bool := pointer pmem (default 0 (c !! node_prev ab.2)) =? ab.1.

(** A list with an intact forward chain, and some value in each backward pointer. *)
Record forward (pmem : bool) (L : Z) (mid : list Z) (c : gmap Z Z) : Prop := {
  fw_nodup : NoDup (whole_list L mid);
  fw_addr a : a ∈ whole_list L mid -> 0 < a < 2 ^ 60;
  fw_apart a b : a ∈ whole_list L mid -> b ∈ whole_list L mid -> node_next a <> node_prev b;
  fw_next a b : adjacent (whole_list L mid) a b -> exists v, c !! node_next a = Some v /\ (v = b \/ pmem = true /\ v = b .| kDirtyFlag);
  fw_tail : c !! node_next (list_tail L) = Some 0;
  fw_prev a : a ∈ whole_list L mid -> is_Some (c !! node_prev a)
}.

(** Whether the last node's pointer to the tail is seen at once: a flag hides it. *)
Definition sees_tail (L : Z) (mid : list Z) (c : gmap Z Z) : bool := default 0 (c !! node_next (default (list_head L) (last mid))) =? list_tail L.

(** The part of the list whose pairs the check compares. *)
Definition checked (L : Z) (mid : list Z) (c : gmap Z Z) : list Z :=
  if (1 <? length mid)%nat && sees_tail L mid c then list_head L :: removelast mid else whole_list L mid.

Section check.
Context {HP : Platform} (pmem : bool) (L : Z) (mid : list Z) (s : Mem).
Context (Hfw : forward pmem L mid (cells s)).
Notation whole := (whole_list L mid).
Notation state A := (set_cells (cleaned_at pmem A (cells s)) s).

Lemma state_none : state [] = s.
Proof. destruct s as [c p m]. unfold set_cells. cbn. destruct pmem; by rewrite ?cleaned_none, ?cleaned_volatile. Qed.

Lemma load_cleaned A a v : cells s !! a = Some v ->
  run (load a) (state A) = (Done (if pmem && bool_decide (a ∈ A) then clear v kDirtyFlag else v), state A).
Proof. intros Hv. apply run_load. cbn [cells set_cells]. by rewrite lookup_cleaned, Hv. Qed.

Lemma run_clean A a v : cells s !! a = Some v -> run (when_pmem pmem (clean_link a)) (state A) = (Done tt, state (A ++ [a])).
Proof.
  intros Hv. unfold when_pmem. destruct pmem eqn:Ep; [|by rewrite !cleaned_volatile].
  unfold clean_link. rewrite run_bind, (run_load _ (if bool_decide (a ∈ A) then clear v kDirtyFlag else v));
    [|cbn [cells set_cells]; by rewrite lookup_cleaned, Hv]. cbn [and_then].
  erewrite run_store; [|cbn [cells set_cells]; by rewrite lookup_cleaned, Hv]. cbn [cells set_cells].
  rewrite cleaned_more by (by rewrite lookup_cleaned, Hv). done.
Qed.

Lemma run_clean_links A n v w : cells s !! node_next n = Some v -> cells s !! node_prev n = Some w ->
  run (when_pmem pmem (clean_link (node_next n) ;;; clean_link (node_prev n))) (state A) = (Done tt, state (A ++ links_of [n])).
Proof.
  intros Hv Hw. pose proof (run_clean A _ _ Hv) as R1. pose proof (run_clean (A ++ [node_next n]) _ _ Hw) as R2.
  unfold links_of. cbn [flat_map app]. change [node_next n; node_prev n] with ([node_next n] ++ [node_prev n]). rewrite app_assoc.
  unfold when_pmem in *. destruct pmem; [by rewrite run_bind, R1|]. by rewrite !cleaned_volatile.
Qed.

Lemma whole_last : last whole = Some (list_tail L).
Proof. unfold whole_list. rewrite app_comm_cons. apply last_snoc. Qed.

Lemma tail_split ys a zs : whole = ys ++ a :: zs -> a = list_tail L <-> zs = [].
Proof.
  intros E. pose proof whole_last as Hl. rewrite E, last_app_cons in Hl. split.
  - intros ->. destruct zs as [|z zs _] using rev_ind; [done|]. exfalso.
    rewrite app_comm_cons, last_snoc in Hl. injection Hl as ->. pose proof (fw_nodup _ _ _ _ Hfw) as Hnd.
    rewrite E in Hnd. apply NoDup_app in Hnd as (_ & _ & Hnd). apply NoDup_cons in Hnd as [Hnd _]. apply Hnd. set_solver.
  - intros ->. by injection Hl.
Qed.

(** A forward pointer, and what it is without its flag. *)
Lemma next_in ys a zs : whole = ys ++ a :: zs -> exists v, cells s !! node_next a = Some v /\ pointer pmem v = hd 0 zs /\
  (v = hd 0 zs \/ zs <> [] /\ v = hd 0 zs .| kDirtyFlag).
Proof.
  intros E. destruct zs as [|b zs].
  - exists 0. rewrite (proj2 (tail_split ys a [] E) eq_refl). split; [apply (fw_tail _ _ _ _ Hfw)|]. split; [by destruct pmem|by left].
  - destruct (fw_next _ _ _ _ Hfw a b) as (v & Hv & Hc); [by exists ys, zs|]. exists v. split; [done|].
    assert (fits 61 b) as Hb by (unfold fits; pose proof (fw_addr _ _ _ _ Hfw b ltac:(rewrite E; set_solver)); lia).
    unfold pointer. destruct Hc as [->|[-> ->]]; [|split; [by apply dirty_set|by right]]. split; [|by left].
    destruct pmem; [by apply dirty_clean|done].
Qed.

Definition check_turn : Z * Z -> prog Mem ((Z * Z) + unit) := fun '(prev, node) =>
  when_pmem pmem (clean_link (node_next node) ;;; clean_link (node_prev node)) ;;;
  check (negb (node =? 0)) "null dlist node" ;;;
  let! v := load (node_next prev) in
  check (v =? node) "node.prev doesn't match prev.next" ;;;
  let! v := load (node_prev node) in
  check (v =? prev) "node.prev doesn't match prev.next" ;;;
  let! node' := load (node_next node) in
  if node' =? 0 then Ret (inr tt) else
  let! v := load (node_next node') in
  if v =? list_tail L then Ret (inr tt) else Ret (inl (node, node')).

(** The node after next is the tail, seen as such. *)
Definition last_seen (rest : list Z) : bool :=
  match rest with [x; _] => default 0 (cells s !! node_next x) =? list_tail L | _ => false end.

(** The links that are clean in turn [node]: those of the nodes before, and the head's. *)
Definition links_before (ys : list Z) (prev : Z) : list Z := node_next (list_head L) :: links_of (tail (ys ++ [prev])).

Lemma in_links_before ys prev zs : whole = ys ++ prev :: zs -> node_next prev ∈ links_before ys prev.
Proof.
  intros E. unfold links_before. destruct ys as [|y ys]; cbn [app tail].
  - unfold whole_list in E. cbn in E. injection E as <- _. left.
  - right. unfold links_of. rewrite flat_map_app. cbn. set_solver.
Qed.

Lemma not_in_links_before ys prev node rest x : whole = ys ++ prev :: node :: rest -> x ∈ rest -> node_next x ∉ links_before ys prev ++ links_of [node].
Proof.
  intros E Hx Hin. pose proof (fw_nodup _ _ _ _ Hfw) as Hnd.
  assert (forall a, a ∈ whole -> node_next x = node_next a -> x = a) as Hinj by (intros a _ Ea; unfold node_next in Ea; lia).
  assert (x ∈ whole) as Hxw by (rewrite E; set_solver).
  assert (x ∉ ys ++ [prev; node]) as Hout.
  { replace (ys ++ prev :: node :: rest) with ((ys ++ [prev; node]) ++ rest) in E by (by rewrite <- app_assoc). rewrite E in Hnd.
    apply NoDup_app in Hnd as (_ & Hd & _). intros Hi. by apply (Hd x Hi). }
  assert (forall zs, (forall a, a ∈ zs -> a ∈ ys ++ [prev; node]) -> node_next x ∉ links_of zs) as Hlinks.
  { intros zs Hz Hi. unfold links_of in Hi. apply list_elem_of_In, in_flat_map in Hi as (a & Ha & Hi). apply list_elem_of_In in Ha, Hi.
    assert (a ∈ whole) as Haw by (rewrite E; apply Hz in Ha; set_solver).
    apply elem_of_cons in Hi as [Hi|Hi%list_elem_of_singleton]; [|by apply (fw_apart _ _ _ _ Hfw x a)].
    apply Hinj in Hi; [|done]. subst. by apply Hout, Hz. }
  apply elem_of_app in Hin as [Hin|Hin]; [unfold links_before in Hin; apply elem_of_cons in Hin as [Hh|Hin]|].
  - apply Hinj in Hh; [|left]. apply Hout. rewrite Hh. destruct ys as [|y ys]; unfold whole_list in E; injection E as <- _; left.
  - revert Hin. apply Hlinks. intros a Ha. destruct ys; cbn in Ha; set_solver.
  - revert Hin. apply Hlinks. set_solver.
Qed.

Lemma links_before_next ys prev node : links_before ys prev ++ links_of [node] = links_before (ys ++ [prev]) node.
Proof. unfold links_before, links_of. cbn [app]. f_equal. destruct ys as [|y ys]; cbn [app tail]; [done|]. by rewrite (flat_map_app _ _ [node]). Qed.

Lemma run_check_turn ys prev node rest : whole = ys ++ prev :: node :: rest ->
  run (check_turn (prev, node)) (state (links_before ys prev)) =
    (if backward_ok pmem (cells s) (prev, node)
     then Done (if last_seen rest then inr tt else match rest with [] => inr tt | node' :: _ => inl (node, node') end)
     else Faulted "node.prev doesn't match prev.next", state (links_before (ys ++ [prev]) node)).
Proof.
  intros E. assert (E' : whole = (ys ++ [prev]) ++ node :: rest) by (by rewrite <- app_assoc).
  assert (node ∈ whole /\ prev ∈ whole) as [Hin Hpin] by (rewrite E; set_solver).
  destruct (fw_prev _ _ _ _ Hfw node Hin) as [w Hw]. destruct (next_in _ _ _ E) as (v & Hv & Pv & _), (next_in _ _ _ E') as (v' & Hv' & Pv' & _).
  assert (forall x, x ∈ whole -> (x =? 0) = false) as Hnz
    by (intros x Hx; apply Z.eqb_neq; pose proof (fw_addr _ _ _ _ Hfw x Hx); lia).
  assert (forall A a u, cells s !! a = Some u -> a ∈ A -> run (load a) (state A) = (Done (pointer pmem u), state A)) as Hload.
  { intros A a u Hu Ha. rewrite (load_cleaned A a u) by done. rewrite bool_decide_eq_true_2, andb_true_r by done. done. }
  set (A := links_before (ys ++ [prev]) node).
  assert (node_next prev ∈ A /\ node_next node ∈ A /\ node_prev node ∈ A) as (I1 & I2 & I3).
  { unfold A. rewrite <- links_before_next. split; [|split]; apply elem_of_app; [left|right; left|right; right; left].
    eapply in_links_before. exact E. }
  unfold check_turn. rewrite run_bind, (run_clean_links _ node v' w) by done. rewrite links_before_next. fold A. cbn [and_then].
  rewrite run_bind, run_check by (by rewrite Hnz). cbn [and_then]. rewrite run_bind, (Hload A _ v) by done. cbn [and_then].
  rewrite Pv. cbn [hd]. rewrite run_bind, run_check by apply Z.eqb_refl. cbn [and_then]. rewrite run_bind, (Hload A _ w) by done.
  cbn [and_then]. unfold backward_ok. cbn [fst snd]. rewrite Hw. cbn [default]. change (id w) with w.
  rewrite run_bind. unfold check. destruct (pointer pmem w =? prev); [|done]. cbn [run and_then].
  rewrite run_bind, (Hload A _ v') by done. cbn [and_then]. rewrite Pv'. destruct rest as [|x rest]; [done|]. cbn [hd].
  assert (E2 : whole = (ys ++ [prev; node]) ++ x :: rest) by (by rewrite <- app_assoc).
  rewrite Hnz by (rewrite E2; apply elem_of_app; right; left). destruct (next_in _ _ _ E2) as (u & Hu & _ & Cu).
  rewrite run_bind, (load_cleaned A (node_next x) u) by done. cbn [and_then].
  rewrite bool_decide_eq_false_2, andb_false_r; [|unfold A; rewrite <- links_before_next; eapply not_in_links_before; [exact E|left]].
  destruct (ends_in L mid) as [_ Htail]. pose proof (fw_addr _ _ _ _ Hfw _ Htail) as Ht.
  unfold last_seen. destruct rest as [|y [|z rest]].
  - cbn [hd] in Cu. destruct Cu as [->|[Hr _]]; [|done]. by rewrite (proj2 (Z.eqb_neq _ _)) by lia.
  - rewrite Hu. cbn [default]. change (id u) with u. by destruct (u =? list_tail L).
  - assert (E3 : whole = (ys ++ [prev; node; x]) ++ y :: z :: rest) by (by rewrite <- app_assoc).
    assert (y <> list_tail L) as Hy by (intros Hy; by apply (tail_split _ y _ E3) in Hy).
    cbn [hd] in Cu. rewrite (proj2 (Z.eqb_neq _ _)); [done|]. destruct Cu as [->|[_ ->]]; [done|]. intros Eq.
    pose proof (proj1 (dirty_set y ltac:(unfold fits; pose proof (fw_addr _ _ _ _ Hfw y ltac:(rewrite E3; apply elem_of_app; right; left)); lia))) as D1.
    pose proof (proj1 (dirty_clean (list_tail L) ltac:(unfold fits; lia))) as D2. congruence.
Qed.

(** The comparisons made from [prev] on, and the nodes whose links get clean. *)
Fixpoint scan (prev : Z) (nodes : list Z) : bool :=
  match nodes with
  | [] => true
  | node :: rest => backward_ok pmem (cells s) (prev, node) && (last_seen rest || scan node rest)
  end.
Fixpoint examined (prev : Z) (nodes : list Z) : list Z :=
  match nodes with
  | [] => []
  | node :: rest => node :: if backward_ok pmem (cells s) (prev, node) && negb (last_seen rest) then examined node rest else []
  end.

Lemma scan_cons prev node rest : scan prev (node :: rest) = backward_ok pmem (cells s) (prev, node) && (last_seen rest || scan node rest).
Proof. done. Qed.
Lemma examined_cons prev node rest : examined prev (node :: rest) =
  node :: if backward_ok pmem (cells s) (prev, node) && negb (last_seen rest) then examined node rest else [].
Proof. done. Qed.
Lemma links_of_cons node xs : links_of (node :: xs) = links_of [node] ++ links_of xs.
Proof. done. Qed.

Lemma run_check_loop rest : forall fuel ys prev node,
  whole = ys ++ prev :: node :: rest -> (length rest < fuel)%nat ->
  run (loop fuel check_turn (prev, node)) (state (links_before ys prev)) =
    (if scan prev (node :: rest) then Done tt else Faulted "node.prev doesn't match prev.next",
     state (links_before ys prev ++ links_of (examined prev (node :: rest)))).
Proof.
  induction rest as [|node' rest IH]; intros fuel ys prev node E Hf; (destruct fuel as [|fuel]; [simpl in Hf; lia|]);
    cbn [loop]; rewrite run_bind, (run_check_turn ys prev node _ E), <- links_before_next.
  - cbn. by destruct (backward_ok pmem (cells s) (prev, node)).
  - rewrite (examined_cons prev node (node' :: rest)), scan_cons. destruct (backward_ok pmem (cells s) (prev, node)); cbn [and_then andb]; [|done].
    destruct (last_seen (node' :: rest)) eqn:El; cbn [orb negb]; [done|].
    rewrite links_before_next, (IH fuel (ys ++ [prev]) node node'), <- links_before_next, (links_of_cons node (examined _ _)), app_assoc;
      [done|by rewrite E, <- app_assoc|simpl in Hf |- *; lia].
Qed.

Lemma last_seen_long x y z rest : last_seen (x :: y :: z :: rest) = false.
Proof. done. Qed.

(** The last pair and the one before are compared unless the tail is seen. *)
Lemma scan_all xs : forall h, (length xs <= 1)%nat \/ (default 0 (cells s !! node_next (default h (last xs))) =? list_tail L) = false ->
  scan h (xs ++ [list_tail L]) = forallb (backward_ok pmem (cells s)) (pairs (h :: xs ++ [list_tail L])) /\
  (scan h (xs ++ [list_tail L]) = true -> examined h (xs ++ [list_tail L]) = xs ++ [list_tail L]).
Proof.
  induction xs as [|x xs IH]; intros h Hl; cbn [app scan examined].
  - unfold pairs. cbn. destruct (backward_ok _ _ _); [split; [done|by intros _]|done].
  - assert (last_seen (xs ++ [list_tail L]) = false) as Hseen.
    { destruct xs as [|y [|z xs]]; [done| |by destruct xs]. destruct Hl as [Hl|Hl]; [cbn in Hl; lia|exact Hl]. }
    rewrite Hseen. cbn [orb negb]. rewrite andb_true_r.
    destruct (IH x) as [I1 I2].
    { destruct xs as [|y xs]; [left; cbn; lia|]. destruct Hl as [Hl|Hl]; [cbn in Hl; lia|]. right.
      rewrite last_cons_cons in Hl. destruct (last (y :: xs)) eqn:El; [exact Hl|by apply last_None in El]. }
    rewrite I1. change (pairs (h :: x :: xs ++ [list_tail L])) with ((h, x) :: pairs (x :: xs ++ [list_tail L])). cbn [forallb].
    split; [done|]. intros [Hb Hs]%andb_true_iff. rewrite Hb. rewrite <- I1 in Hs. by rewrite I2.
Qed.

Lemma scan_seen xs : forall h, (1 < length xs)%nat -> (default 0 (cells s !! node_next (default h (last xs))) =? list_tail L) = true ->
  scan h (xs ++ [list_tail L]) = forallb (backward_ok pmem (cells s)) (pairs (h :: removelast xs)) /\
  (scan h (xs ++ [list_tail L]) = true -> examined h (xs ++ [list_tail L]) = removelast xs).
Proof.
  induction xs as [|x xs IH]; intros h Hl Hs; [cbn in Hl; lia|]. destruct xs as [|y [|z xs]]; [cbn in Hl; lia| |].
  - cbn [app scan examined removelast last default] in *. cbn [last_seen]. change (id y) with y in Hs. rewrite Hs. cbn.
    rewrite andb_true_r. split; [done|]. intros _. by rewrite andb_false_r.
  - cbn [app]. rewrite scan_cons, examined_cons.
    assert (last_seen (y :: z :: xs ++ [list_tail L]) = false) as -> by (by destruct xs).
    cbn [orb negb]. rewrite andb_true_r.
    destruct (IH x) as [I1 I2]; [cbn; lia| |].
    { rewrite last_cons_cons in Hs. destruct (last (y :: z :: xs)) eqn:El; [exact Hs|by apply last_None in El]. }
    cbn [app] in I1, I2. rewrite I1. change (removelast (x :: y :: z :: xs)) with (x :: removelast (y :: z :: xs)).
    change (pairs (h :: x :: removelast (y :: z :: xs))) with ((h, x) :: pairs (x :: removelast (y :: z :: xs))). cbn [forallb].
    split; [done|]. intros [Hb Hs']%andb_true_iff. rewrite Hb. rewrite <- I1 in Hs'. by rewrite I2.
Qed.

Lemma examined_in nodes : forall h a, a ∈ examined h nodes -> a ∈ nodes.
Proof.
  induction nodes as [|n nodes IH]; intros h a Ha; [done|]. rewrite examined_cons in Ha. apply elem_of_cons in Ha as [->|Ha]; [left|right].
  destruct (_ && _); [by eapply IH|by apply elem_of_nil in Ha].
Qed.

Lemma scan_checked : scan (list_head L) (mid ++ [list_tail L]) = forallb (backward_ok pmem (cells s)) (pairs (checked L mid (cells s))) /\
  (scan (list_head L) (mid ++ [list_tail L]) = true -> examined (list_head L) (mid ++ [list_tail L]) = tail (checked L mid (cells s))).
Proof.
  unfold checked, sees_tail. destruct (Nat.ltb_spec 1 (length mid)) as [Hl|Hl]; cbn [andb].
  - destruct (default 0 (cells s !! node_next (default (list_head L) (last mid))) =? list_tail L) eqn:Es;
      [by apply scan_seen|apply scan_all; by right].
  - apply scan_all. by left.
Qed.
End check.

(** C38.  On a list whose forward chain is intact, dirty flags in a PMEM build aside, the
    sanity check ends, and its outcome is decided by the sentinels' outer pointers and
    by the backward pointers (without their flags) of all nodes when there is at most
    one or the last node's pointer to the tail carries a flag, but otherwise of all but
    the last node and the tail, which it never looks at. In a PMEM build it clears the
    flags of links, on success exactly of the head's forward pointer and of both
    pointers of the nodes compared, and it changes nothing else. *)
Theorem SingleThreadSanityCheck_correct `{Platform} pmem fuel L mid p t (s : Mem) :
  (length mid < fuel)%nat -> forward pmem L mid (cells s) ->
  cells s !! node_prev (list_head L) = Some p -> cells s !! node_prev (list_tail L) = Some t ->
  exists A, run (SingleThreadSanityCheck pmem fuel L) s =
    (if negb (p =? 0) then Faulted "head.prev doesn't point to null"
     else if t =? 0 then Faulted "tail.prev is null"
     else if forallb (backward_ok pmem (cells s)) (pairs (checked L mid (cells s))) then Done tt
     else Faulted "node.prev doesn't match prev.next", set_cells (cleaned_at pmem A (cells s)) s) /\
    (forall a, a ∈ A -> a ∈ links_of (whole_list L mid)) /\
    (p = 0 -> t <> 0 -> forallb (backward_ok pmem (cells s)) (pairs (checked L mid (cells s))) = true ->
     A = node_next (list_head L) :: links_of (tail (checked L mid (cells s)))).
Proof.
  intros Hf Hfw Hp Ht.
  assert (E : whole_list L mid = [list_head L] ++ mid ++ [list_tail L]) by done.
  destruct (mid ++ [list_tail L]) as [|x rest] eqn:Em; [by destruct mid|].
  assert (length rest < fuel)%nat as Hl
    by (apply (f_equal length) in Em; rewrite length_app in Em; simpl in Em; lia).
  destruct (next_in pmem L mid s Hfw [] _ _ E) as (v & Hv & Pv & Cv). cbn [hd] in Pv, Cv.
  assert (0 < x < 2 ^ 60) as Hx by (apply (fw_addr _ _ _ _ Hfw); rewrite E; right; left).
  assert ((v =? 0) = false) as Hv0.
  { apply Z.eqb_neq. destruct Cv as [->|[_ ->]]; [lia|]. intros [? _]%Z.lor_eq_0_iff. lia. }
  pose proof (state_none pmem L mid s Hfw) as Hnone.
  unfold SingleThreadSanityCheck. rewrite run_bind, (run_load _ _ _ Hp). cbn [and_then]. rewrite run_bind.
  unfold check at 1. destruct (p =? 0) eqn:Ep; cbn [negb];
    [|exists []; rewrite Hnone; split; [done|]; split; [by intros a Ha%elem_of_nil|by intros ->]].
  cbn [run and_then]. rewrite run_bind, (run_load _ _ _ Hv). cbn [and_then]. rewrite run_bind, run_check by (by rewrite Hv0).
  cbn [and_then]. rewrite run_bind, (run_load _ _ _ Ht). cbn [and_then]. rewrite run_bind.
  unfold check at 1. destruct (t =? 0) eqn:Et; cbn [negb].
  { exists []. rewrite Hnone. split; [done|]. split; [by intros a Ha%elem_of_nil|]. apply Z.eqb_eq in Et. intros _ ?. done. }
  cbn [run and_then]. rewrite run_bind, (run_load _ _ _ (fw_tail _ _ _ _ Hfw)). cbn [and_then]. rewrite run_bind, run_check by done.
  cbn [and_then]. pose proof (run_clean pmem L mid s Hfw [] _ _ Hv) as Hclean. rewrite Hnone in Hclean. cbn [app] in Hclean.
  rewrite run_bind, Hclean. cbn [and_then]. rewrite run_bind, (load_cleaned pmem s _ _ v) by done. cbn [and_then].
  rewrite bool_decide_eq_true_2, andb_true_r by left. change (if pmem then clear v kDirtyFlag else v) with (pointer pmem v). rewrite Pv.
  pose proof (run_check_loop pmem L mid s Hfw rest fuel [] (list_head L) x E Hl) as Hloop. unfold check_turn in Hloop.
  change (links_before L [] (list_head L)) with [node_next (list_head L)] in Hloop. rewrite Hloop.
  destruct (scan_checked pmem L mid s) as [Hs1 Hs2]. rewrite Em in Hs1, Hs2. rewrite Hs1.
  eexists. split; [done|]. split.
  - intros a Ha. apply elem_of_cons in Ha as [->|Ha]; [left|].
    unfold links_of in *. apply list_elem_of_In, in_flat_map in Ha as (n & Hn & Ha). apply list_elem_of_In, in_flat_map.
    exists n. split; [|done]. apply list_elem_of_In. apply list_elem_of_In, examined_in in Hn. rewrite E. by right.
  - intros _ _ Hb. rewrite <- Hs1 in Hb. by rewrite (Hs2 Hb).
Qed.

(** Two nodes; the second one's backward pointer skips the first, and the tail's skips the
    second; the first node's forward pointer carries the dirty flag. *)
Definition broken_cells : gmap Z Z :=
  list_to_map [(node_prev 8192, 0); (node_next 8192, 8448); (node_prev 8448, 8192); (node_next 8448, 8640 .| kDirtyFlag);
    (node_prev 8640, 8192); (node_next 8640, 8256); (node_prev 8256, 8448); (node_next 8256, 0)].

Lemma broken_forward : forward true 8184 [8448; 8640] broken_cells.
Proof.
  assert (forall a, a ∈ whole_list 8184 [8448; 8640] -> a = 8192 \/ a = 8448 \/ a = 8640 \/ a = 8256) as Hin.
  { intros a Ha. unfold whole_list, list_head, list_tail in Ha. cbn [app] in Ha. rewrite !elem_of_cons, elem_of_nil in Ha. lia. }
  split.
  - apply (bool_decide_unpack _). by vm_compute.
  - intros a Ha%Hin. lia.
  - intros a b Ha%Hin Hb%Hin. unfold node_next, node_prev. lia.
  - intros a b (ys & zs & E). unfold whole_list in E.
    destruct ys as [|y [|y' [|y'' [|y3 [|]]]]]; try done; injection E as; subst; eexists; (split; [by vm_compute|]);
      ((by left) || (right; by vm_compute)).
  - by vm_compute.
  - intros a Ha%Hin. destruct Ha as [->|[->|[->| ->]]]; eexists; by vm_compute.
Qed.

(** The check clears the flag and accepts the list; it would not if the first node's
    backward pointer were wrong, or if the second's forward pointer carried a flag too. *)
Example SingleThreadSanityCheck_correct_witness :
  let s := MkMem broken_cells ∅ metrics_off in
  let s' := MkMem (<[node_prev 8448 := 8640]> broken_cells) ∅ metrics_off in
  let s2 := MkMem (<[node_next 8640 := 8256 .| kDirtyFlag]> broken_cells) ∅ metrics_off in
  run (SingleThreadSanityCheck true 3 8184) s = (Done tt, MkMem (<[node_next 8448 := 8640]> broken_cells) ∅ metrics_off) /\
  (run (SingleThreadSanityCheck true 3 8184) s').1 = Faulted "node.prev doesn't match prev.next" /\
  (run (SingleThreadSanityCheck true 3 8184) s2).1 = Faulted "node.prev doesn't match prev.next".
Proof.
  intros s s' s2. split; [|split; by vm_compute].
  destruct (SingleThreadSanityCheck_correct true 3 8184 [8448; 8640] 0 8448 s ltac:(simpl; lia) broken_forward
    ltac:(by vm_compute) ltac:(by vm_compute)) as (A & R & _ & HA).
  rewrite (HA eq_refl ltac:(done) ltac:(by vm_compute)) in R. rewrite R. vm_compute. reflexivity.
Defined.
