(* ===== verification/BzNode.v ===== *)
(** * Nodes of the BzTree (src/bztree/bztree.h, bztree_smos.cc)

    A node is 256 bytes of persistent memory: a header with a status word, then a body
    where record metadata grows from the front and keys and values from the back.
    Memory is the words of Memory.v at aligned addresses; bytes are parts of them. *)
From Stdlib Require Import ZArith Lia Ascii.
From stdpp Require Import base list gmap strings sorting.
From S2P Require Import Prelude Bytes Prog Status Hash Library Epoch Garbage Metrics Memory Descriptor MwCAS Target Pool.
#[local] Open Scope Z_scope.
#[local] Open Scope machine_scope.
#[local] Open Scope prog_scope.

Definition BZTREE_NODE_SIZE : Z := 256.
Definition BZTREE_MIN_FREE_SPACE : Z := 48.
Definition BZTREE_MAX_DELETED_SPACE : Z := 100.

(** ** Bit fields, from the least significant bit *)

Definition field (lo n z : Z) : Z := (z .>> lo) .& Z.ones n.

Record NodeHeaderStatusWord := MkSW {
  sw_control : Z; frozen : bool; record_count : Z; block_size : Z; delete_size : Z
}.

Definition sw_of (z : Z) : NodeHeaderStatusWord :=
  MkSW (field 0 3 z) (Z.testbit z 3) (field 4 16 z) (field 20 22 z) (field 42 22 z).
Definition sw_word (s : NodeHeaderStatusWord) : Z :=
  sw_control s + 8 * (Z.b2z (frozen s) + 2 * (record_count s + 2 ^ 16 * (block_size s + 2 ^ 22 * delete_size s))).

(** Assignments to bit fields. *)
Definition set_frozen (b : bool) (s : NodeHeaderStatusWord) : NodeHeaderStatusWord :=
  MkSW (sw_control s) b (record_count s) (block_size s) (delete_size s).
Definition set_record_count (n : Z) (s : NodeHeaderStatusWord) : NodeHeaderStatusWord :=
  MkSW (sw_control s) (frozen s) (u16 n) (block_size s) (delete_size s).
Definition set_block_size (n : Z) (s : NodeHeaderStatusWord) : NodeHeaderStatusWord :=
  MkSW (sw_control s) (frozen s) (record_count s) (n mod 2 ^ 22) (delete_size s).
Definition set_delete_size (n : Z) (s : NodeHeaderStatusWord) : NodeHeaderStatusWord :=
  MkSW (sw_control s) (frozen s) (record_count s) (block_size s) (n mod 2 ^ 22).

Record NodeMetadata := MkNMD { nmd_control : Z; visible : bool; offset : Z; key_len : Z; total_len : Z }.

Definition nmd_of (z : Z) : NodeMetadata :=
  MkNMD (field 0 3 z) (Z.testbit z 3) (field 4 28 z) (field 32 16 z) (field 48 16 z).
Definition nmd_word (d : NodeMetadata) : Z :=
  nmd_control d + 8 * (Z.b2z (visible d) + 2 * (offset d + 2 ^ 28 * (key_len d + 2 ^ 16 * total_len d))).

Definition set_visible (b : bool) (d : NodeMetadata) : NodeMetadata :=
  MkNMD (nmd_control d) b (offset d) (key_len d) (total_len d).
Definition set_offset (n : Z) (d : NodeMetadata) : NodeMetadata :=
  MkNMD (nmd_control d) (visible d) (n mod 2 ^ 28) (key_len d) (total_len d).
Definition set_key_len (n : Z) (d : NodeMetadata) : NodeMetadata :=
  MkNMD (nmd_control d) (visible d) (offset d) (u16 n) (total_len d).
Definition set_total_len (n : Z) (d : NodeMetadata) : NodeMetadata :=
  MkNMD (nmd_control d) (visible d) (offset d) (key_len d) (u16 n).

(** ** Layout *)

Definition sizeof_NodeHeader : Z := 16.
Definition sizeof_NodeMetadata : Z := 8.
Definition sizeof_body : Z := BZTREE_NODE_SIZE - sizeof_NodeHeader.
Definition status_word (node : Z) : Z := node + 8.
Definition body (node : Z) : Z := node + sizeof_NodeHeader.
(** [&nmd[i]] *)
Definition nmd_at (node i : Z) : Z := body node + sizeof_NodeMetadata * i.

(** ** Persistent pointers and libpmemobj

    [pmemobj_zalloc] returns no pointer when it fails; [pmemobj_free] frees what the
    PMEMoid names. *)
Record TOID := MkTOID { pool_uuid_lo : Z; off : Z }.
#[export] Instance TOID_eq_dec : EqDecision TOID.
Proof. solve_decision. Defined.
Definition TOID_NULL : TOID := MkTOID 0 0.
Definition TOID_IS_NULL (t : TOID) : bool := off t =? 0.

Class Pmdk := {
  pmemobj_direct : TOID -> Z;
  pmemobj_oid : Z -> TOID;
  pmemobj_root : Z -> Mem -> TOID * Mem;
  pmemobj_zalloc : Z -> Mem -> option TOID * Mem;
  pmemobj_free : TOID -> Mem -> Mem
}.

(** ** Access to bytes *)

Definition mem {A} (p : prog Mem A) : prog World A := zoom p.

Definition byte_in (w k : Z) : byte := byte_of (w .>> (8 * k)).
Definition set_byte (k : Z) (b : byte) (w : Z) : Z := clear w (Z.shiftl 255 (8 * k)) .| Z.shiftl (byte_val b) (8 * k).

Definition load_byte (a : Z) : prog Mem byte :=
  let! w := load (8 * (a / 8)) in Ret (byte_in w (a mod 8)).
Definition store_byte (a : Z) (b : byte) : prog Mem unit :=
  rmw (8 * (a / 8)) (fun w => (tt, set_byte (a mod 8) b w)).

Definition load_bytes (a : Z) (n : nat) : prog Mem bytes :=
  for_list (seq 0 n) (fun i bs => let! b := load_byte (a + Z.of_nat i) in Ret (bs ++ [b])) [].
Definition store_bytes (a : Z) (bs : bytes) : prog Mem unit :=
  for_list (zip (seq 0 (length bs)) bs) (fun '(i, b) (_ : unit) => store_byte (a + Z.of_nat i) b) tt.

(** A [uint64_t] at any address. *)
Definition load_u64 (a : Z) : prog Mem Z :=
  if a mod 8 =? 0 then load a else let! bs := load_bytes a 8 in Ret (le_val bs).

(** [strcmp] of the string at [a] with [key], which ends in NUL. *)
Fixpoint strcmp_at (a : Z) (key : bytes) : prog Mem Z :=
  match key with
  | [] => Ret 0
  | k :: r =>
      let! b := load_byte a in
      if bool_decide (b = k) then (if bool_decide (k = NUL) then Ret 0 else strcmp_at (a + 1) r)
      else Ret (byte_val b - byte_val k)
  end.
Definition strcmp_key (a : Z) (key : bytes) : prog Mem Z := strcmp_at a (c_str key ++ [NUL]).

(** A [std::string] made from a C string; a string within a node ends within its 256 bytes. *)
Definition string_at (a : Z) : prog Mem bytes :=
  loop 256 (fun bs : bytes =>
    let! b := load_byte (a + Z.of_nat (length bs)) in
    if bool_decide (b = NUL) then Ret (inr bs) else Ret (inl (bs ++ [b]))) [].

(** ** Reading and writing nodes *)

Definition load_sw (node : Z) : prog Mem NodeHeaderStatusWord :=
  let! z := load (status_word node) in Ret (sw_of z).
Definition load_nmd (node i : Z) : prog Mem NodeMetadata :=
  let! z := load (nmd_at node i) in Ret (nmd_of z).

Definition load_toid (a : Z) : prog Mem TOID :=
  let! p := load a in let! o := load (a + 8) in Ret (MkTOID p o).
Definition store_toid (a : Z) (t : TOID) : prog Mem unit :=
  store a (pool_uuid_lo t) ;;; store (a + 8) (off t).

(** [sw->frozen = 0], on the byte that holds it. *)
Definition unfreeze (sw : Z) : prog Mem unit :=
  let! b := load_byte sw in store_byte sw (byte_of (clear (byte_val b) 8)).

(** A [size_t] expression returned as [uint32_t]; the two fields are read apart. *)
Definition free_bytes (record_count block_size : Z) : Z :=
  u32 (BZTREE_NODE_SIZE - sizeof_NodeHeader - record_count * sizeof_NodeMetadata - block_size).
Definition free_space (sw : Z) : prog Mem Z :=
  let! a := load sw in
  let! b := load sw in
  Ret (free_bytes (record_count (sw_of a)) (block_size (sw_of b))).

Abbreviation pair_bytes := (list ascii * list ascii)%type (only parsing).

(** [std::string] order, which [std::sort] is given; equal keys may come in any order
    there and keep theirs here. *)
Definition key_le (a b : pair_bytes) : Prop := bytes_cmp a.1 b.1 <> Gt.
#[export] Instance key_le_dec a b : Decision (key_le a b).
Proof. unfold key_le. apply _. Defined.

(** The records of a node, keys with their terminator. *)
Section platform.
Context `{Platform} `{Pmdk} (fuel : nat).

Definition D_RW (t : TOID) : Z := pmemobj_direct t.

Definition POBJ_ZNEW (size : Z) : prog Mem TOID :=
  let! t := act (pmemobj_zalloc size) in
  match t with Some t => Ret t | None => Fault "allocation failed" end.

(** [POBJ_FREE(p)] takes the address of a persistent pointer, and nulls it. *)
Definition POBJ_FREE (p : Z) : prog Mem unit :=
  let! t := load_toid p in upd (pmemobj_free t) ;;; store_toid p TOID_NULL.

Definition pmemobj_memcpy_persist (dest : Z) (src : bytes) : prog Mem unit :=
  store_bytes dest src ;;; upd (pmemobj_persist dest (Z.of_nat (length src))).

(** [for(uint16_t i = 0; i < record_count; i++)], reading the count each time; [inr]
    leaves the loop with a result. *)
Definition for_records {I O} (node : Z) (f : Z -> I -> prog Mem (I + O)) (i0 : I) : prog Mem (I + O) :=
  loop fuel (fun '(i, acc) =>
    let! sw := load_sw node in
    if i <? record_count sw then
      let! r := f i acc in
      match r with inl acc => Ret (inl (i + 1, acc)) | inr o => Ret (inr (inr o)) end
    else Ret (inr (inl acc))) (0, i0).

Definition copy_record (node i : Z) (ret : list pair_bytes) : prog Mem (list pair_bytes + unit) :=
  let! v := load_nmd node i in
  if negb (visible v) then Ret (inl ret) else
  let! d := load_nmd node i in
  check (key_len d <=? total_len d) "std::length_error" ;;;
  let! key := load_bytes (body node + offset d) (Z.to_nat (key_len d)) in
  let! val := load_bytes (body node + offset d + key_len d) (Z.to_nat (total_len d - key_len d)) in
  Ret (inl (ret ++ [(key, val)])).

Definition copy_out (node_oid : TOID) : prog Mem (list pair_bytes) :=
  let! r := for_records (D_RW node_oid) (copy_record (D_RW node_oid)) [] in
  match r with inl ret => Ret (merge_sort key_le ret) | inr _ => Ret [] end.

(** One pair into a new node; [new_nmd[i]]'s fields make up its whole word. *)
Definition copy_pair (node : Z) (kv : pair_bytes) (st : Z * Z) : prog Mem (Z * Z) :=
  let '(count, offset) := st in
  let klen := Z.of_nat (length kv.1) in
  let vlen := Z.of_nat (length kv.2) in
  let offset := u32 (offset - (klen + vlen)) in
  store (nmd_at node count)
    (nmd_word (set_total_len (klen + vlen) (set_key_len klen (set_offset offset (MkNMD 0 true 0 0 0))))) ;;;
  pmemobj_memcpy_persist (body node + offset) kv.1 ;;;
  pmemobj_memcpy_persist (body node + offset + klen) kv.2 ;;;
  Ret (u16 (count + 1), offset).

Definition copy_in (pairs : list pair_bytes) : prog Mem TOID :=
  let! node_oid := POBJ_ZNEW BZTREE_NODE_SIZE in
  let node := D_RW node_oid in
  let! st := for_list pairs (copy_pair node) (0, sizeof_body) in
  let! sw := load_sw node in
  store (status_word node) (sw_word (set_record_count st.1 sw)) ;;;
  let! sw := load_sw node in
  store (status_word node) (sw_word (set_block_size (sizeof_body - st.2) sw)) ;;;
  rmw node (fun w => (tt, u32 w + 2 ^ 32 * st.1)) ;;;
  Ret node_oid.

Definition node_compact (node_oid : TOID) : prog Mem TOID :=
  let! pairs := copy_out node_oid in copy_in pairs.

(** ** Splitting *)

(** [while(sep != end)]: the position of [sep] when the loop ends. *)
Fixpoint pivot (sorted : list pair_bytes) (seen total : Z) (sep : nat) : nat :=
  match sorted with
  | [] => sep
  | (k, _) :: r =>
      let seen := seen + Z.of_nat (length k) in
      if total <? seen + seen then S sep else pivot r seen total (S sep)
  end.
Definition total_key_len (sorted : list pair_bytes) : Z :=
  foldr (fun kv n => Z.of_nat (length kv.1) + n) 0 sorted.

Definition last_key (kvs : list pair_bytes) : prog Mem bytes :=
  match last kvs with Some kv => Ret kv.1 | None => Fault "back of an empty vector" end.

(** A pointer stored as a value: its eight bytes. *)
Definition off_bytes (t : TOID) : bytes := le_bytes 8 (off t).
Definition points_to (node : TOID) (kv : pair_bytes) : bool :=
  clear (le_val (take 8 kv.2)) 7 =? clear (off node) 7.

Fixpoint index_of (f : pair_bytes -> bool) (kvs : list pair_bytes) : nat :=
  match kvs with
  | [] => O
  | kv :: r => if f kv then O else S (index_of f r)
  end.

Definition insert_at {A} (i : nat) (x : A) (l : list A) : list A := take i l ++ x :: drop i l.
Definition erase_at {A} (i : nat) (l : list A) : list A := take i l ++ drop (S i) l.

(** The new parent's records. *)
Definition split_parent (parent : option TOID) (node : TOID) (lk rk : bytes) (lp rp : TOID)
    : prog Mem (list pair_bytes) :=
  match parent with
  | Some parent =>
      let! kvs := copy_out parent in
      let i := index_of (points_to node) kvs in
      check (negb (i =? length kvs)%nat) "assert(i != parent_kv.end())" ;;;
      Ret (insert_at (S i) (rk, off_bytes rp) (<[i := (lk, off_bytes lp)]> kvs))
  | None => Ret [(lk, off_bytes lp); (rk, off_bytes rp)]
  end.

(** The dummy pair put in front of [right] comes after the node is built, so only
    [right.back()] could see it. *)
Definition node_split (parent : option TOID) (node : TOID) : prog Mem (TOID * (TOID * TOID)) :=
  let! sorted := copy_out node in
  check (2 <? length sorted)%nat "assert(sorted.size() > 2)" ;;;
  let sep := pivot sorted 0 (total_key_len sorted) 0 in
  check (negb (sep =? length sorted)%nat) "assert(sep != sorted.end())" ;;;
  let sep := if (S sep =? length sorted)%nat then pred sep else sep in
  let left := take sep sorted in
  let right := drop sep sorted in
  let! new_left := copy_in left in
  let! new_right := copy_in right in
  let! lk := last_key left in
  let! rk := last_key ((lk, []) :: right) in
  let! kvs := split_parent parent node lk rk new_left new_right in
  let! new_parent := copy_in kvs in
  Ret (new_parent, (new_left, new_right)).

(** ** Merging *)

Definition node_merge (parent merge_left merge_right : TOID) : prog Mem (TOID * TOID) :=
  let! parent_kv := copy_out parent in
  let! l := copy_out merge_left in
  let! r := copy_out merge_right in
  let i := index_of (points_to merge_left) parent_kv in
  check (negb (i =? length parent_kv)%nat) "assert(i != parent_kv.end())" ;;;
  let! new_child := copy_in (l ++ r) in
  match parent_kv !! S i with
  | None => Fault "access past the end of a vector"
  | Some kv =>
      let! new_parent := copy_in (erase_at i (<[S i := (kv.1, off_bytes new_child)]> parent_kv)) in
      Ret (new_parent, new_child)
  end.
End platform.
