(* ===== verification/BzBytes.v ===== *)
(** * Bytes of words

    What the byte accesses of BzNode.v do to the words of memory, and when they run. *)
From Stdlib Require Import ZArith Lia Ascii.
From stdpp Require Import base list gmap strings sorting.
From S2P Require Import Prelude Bytes Prog Status Hash Library Epoch Garbage Metrics Memory Descriptor MwCAS Target Pool BzNode.
#[local] Open Scope Z_scope.
#[local] Open Scope machine_scope.
#[local] Open Scope prog_scope.

Lemma byte_val_bits z i : 0 <= i -> Z.testbit (byte_val (byte_of z)) i = bool_decide (i < 8) && Z.testbit z i.
Proof.
  intros Hi. rewrite byte_val_of. change 256 with (2 ^ 8). case_bool_decide.
  - by rewrite Z.mod_pow2_bits_low by lia.
  - rewrite Z.mod_pow2_bits_high by lia. done.
Qed.

Lemma byte_val_high b i : 8 <= i -> Z.testbit (byte_val b) i = false.
Proof. intros Hi. apply (fits_testbit 8); [apply byte_val_range|lia]. Qed.

Lemma byte_eq a b : (forall i, 0 <= i < 8 -> Z.testbit (byte_val a) i = Z.testbit (byte_val b) i) -> a = b.
Proof.
  intros H. apply byte_val_inj. bitwise i Hi. destruct (decide (i < 8)); [by apply H|]. by rewrite !byte_val_high by lia.
Qed.

Lemma ones_255 i : 0 <= i -> Z.testbit 255 i = bool_decide (i < 8).
Proof. intros Hi. change 255 with (Z.ones 8). rewrite Z.testbit_ones_nonneg by lia.
  destruct (Z.ltb_spec i 8); [by rewrite bool_decide_eq_true_2|by rewrite bool_decide_eq_false_2 by lia].
Qed.

Lemma byte_in_set k j b w :
  0 <= k < 8 -> 0 <= j < 8 -> byte_in (set_byte k b w) j = if decide (j = k) then b else byte_in w j.
Proof.
  intros Hk Hj. apply byte_eq. intros i Hi. unfold byte_in, set_byte, clear.
  rewrite byte_val_bits, bool_decide_eq_true_2, Z.shiftr_spec, Z.lor_spec, Z.ldiff_spec, !Z.shiftl_spec by lia.
  cbn [andb]. case_decide as E.
  - subst j. replace (i + 8 * k - 8 * k) with i by lia. rewrite ones_255, bool_decide_eq_true_2 by lia.
    by rewrite andb_false_r.
  - rewrite byte_val_bits, bool_decide_eq_true_2, Z.shiftr_spec by lia. cbn [andb].
    replace (Z.testbit 255 (i + 8 * j - 8 * k)) with false.
    2: { destruct (decide (j < k)); [by rewrite Z.testbit_neg_r by lia|rewrite ones_255, bool_decide_eq_false_2 by lia; done]. }
    replace (Z.testbit (byte_val b) (i + 8 * j - 8 * k)) with false.
    2: { destruct (decide (j < k)); [by rewrite Z.testbit_neg_r by lia|by rewrite byte_val_high by lia]. }
    by rewrite andb_true_r, orb_false_r.
Qed.

Lemma set_byte_fits k b w : 0 <= k < 8 -> fits 64 w -> fits 64 (set_byte k b w).
Proof.
  intros Hk Hw. unfold set_byte. apply fits_lor; [lia|by apply fits_clear|].
  rewrite Z.shiftl_mul_pow2 by lia. pose proof (byte_val_range b).
  assert (2 ^ (8 * k) <= 2 ^ 56) by (apply Z.pow_le_mono_r; lia).
  unfold fits. change (2 ^ 64) with (256 * 2 ^ 56). nia.
Qed.

(** Eight bytes make the word. *)
Lemma le_bytes_in n : forall w, 0 <= w -> le_bytes n w = (fun j => byte_in w (Z.of_nat j)) <$> seq 0 n.
Proof.
  induction n as [|n IH]; intros w Hw; [done|]. cbn [le_bytes seq fmap list_fmap]. f_equal.
  rewrite IH by (by apply Z.shiftr_nonneg). rewrite <- fmap_S_seq, <- list_fmap_compose.
  apply list_fmap_ext. intros j x _. unfold compose, byte_in. rewrite Z.shiftr_shiftr by lia. do 2 f_equal. lia.
Qed.

(** ** The byte at an address *)

Definition byte_at (c : gmap Z Z) (a : Z) : option byte := (fun w => byte_in w (a mod 8)) <$> c !! (8 * (a / 8)).

Lemma byte_at_word c a j z :
  a mod 8 = 0 -> 0 <= j < 8 -> c !! a = Some z -> byte_at c (a + j) = Some (byte_in z j).
Proof.
  intros Ha Hj Hz. unfold byte_at. rewrite <- Z.add_mod_idemp_l, Ha, Z.add_0_l, Z.mod_small by lia.
  replace (8 * ((a + j) / 8)) with a; [by rewrite Hz|].
  pose proof (Z.div_mod a 8 ltac:(lia)). rewrite Ha in *.
  replace ((a + j) / 8) with (a / 8); [lia|]. apply Z.div_unique with j; lia.
Qed.

(** ** Evaluation, up to what is persistent *)

Definition mev {A} (p : prog Mem A) (c : gmap Z Z) (x : A) (c' : gmap Z Z) : Prop :=
  forall pc mm, exists pc', run p (MkMem c pc mm) = (Done x, MkMem c' pc' mm).

Lemma mev_ret {A} (x : A) c : mev (Ret x) c x c.
Proof. intros pc mm. by exists pc. Qed.

Lemma mev_bind {A B} (p : prog Mem A) (q : A -> prog Mem B) c x c1 y c2 :
  mev p c x c1 -> mev (q x) c1 y c2 -> mev (bind p q) c y c2.
Proof.
  intros Hp Hq pc mm. destruct (Hp pc mm) as [pc1 R1], (Hq pc1 mm) as [pc2 R2]. exists pc2.
  by rewrite run_bind, R1.
Qed.

Lemma mev_load a v c : c !! a = Some v -> mev (load a) c v c.
Proof. intros H pc mm. exists pc. by apply run_load. Qed.
Lemma mev_rmw {X} a (f : Z -> X * Z) v c :
  c !! a = Some v -> mev (rmw a f) c (f v).1 (<[a := (f v).2]> c).
Proof. intros H pc mm. exists pc. by rewrite (run_rmw _ _ v). Qed.
Lemma mev_store a x c : is_Some (c !! a) -> mev (store a x) c tt (<[a := x]> c).
Proof. intros [v H]. by apply (mev_rmw a (fun _ => (tt, x)) v). Qed.
Lemma mev_check (b : bool) msg c : b = true -> mev (check b msg) c tt c.
Proof. intros ->. apply mev_ret. Qed.

Lemma mev_loop {I O} (body : I -> prog Mem (I + O)) n i c x c1 y c2 :
  mev (body i) c x c1 ->
  match x with inl i' => mev (loop n body i') c1 y c2 | inr o => y = o /\ c2 = c1 end ->
  mev (loop (S n) body i) c y c2.
Proof.
  intros Hb Hx. cbn [loop]. eapply mev_bind; [exact Hb|]. destruct x as [i'|o]; [exact Hx|].
  destruct Hx as [-> ->]. apply mev_ret.
Qed.

(** ** Reading bytes *)

(** The bytes [bs] are at [a]. *)
Definition view (c : gmap Z Z) (a : Z) (bs : bytes) : Prop :=
  forall i b, bs !! i = Some b -> byte_at c (a + Z.of_nat i) = Some b.

Lemma view_nil c a : view c a [].
Proof. intros i b H. done. Qed.

Lemma view_cons c a b bs : view c a (b :: bs) <-> byte_at c a = Some b /\ view c (a + 1) bs.
Proof.
  split.
  - intros H. split; [specialize (H O b eq_refl); by rewrite Z.add_0_r in H|].
    intros i x Hi. specialize (H (S i) x Hi). by replace (a + 1 + Z.of_nat i) with (a + Z.of_nat (S i)) by lia.
  - intros [H1 H2] [|i] x Hi; [injection Hi as <-; by rewrite Z.add_0_r|].
    specialize (H2 i x Hi). by replace (a + Z.of_nat (S i)) with (a + 1 + Z.of_nat i) by lia.
Qed.

Lemma view_app c a xs ys : view c a (xs ++ ys) <-> view c a xs /\ view c (a + Z.of_nat (length xs)) ys.
Proof.
  revert a. induction xs as [|x xs IH]; intros a; cbn [app length].
  - rewrite Z.add_0_r. pose proof (view_nil c a). tauto.
  - rewrite !view_cons, IH. replace (a + 1 + Z.of_nat (length xs)) with (a + Z.of_nat (S (length xs))) by lia. tauto.
Qed.

Lemma mev_load_byte a b c : byte_at c a = Some b -> mev (load_byte a) c b c.
Proof.
  unfold byte_at. intros (w & Hb & Hw)%fmap_Some. subst b. eapply mev_bind; [by apply mev_load|]. apply mev_ret.
Qed.

Lemma mev_load_bytes a bs c : view c a bs -> mev (load_bytes a (length bs)) c bs c.
Proof.
  intros H. unfold load_bytes.
  assert (forall xs k acc, view c (a + Z.of_nat k) xs ->
    mev (for_list (seq k (length xs)) (fun i bs => let! b := load_byte (a + Z.of_nat i) in Ret (bs ++ [b])) acc) c (acc ++ xs) c) as Hgen.
  { induction xs as [|x xs IH]; intros k acc Hv; cbn [length seq for_list]; [rewrite app_nil_r; apply mev_ret|].
    apply view_cons in Hv as [Hx Hv]. eapply mev_bind.
    { eapply mev_bind; [by apply mev_load_byte|]. apply mev_ret. }
    change (x :: xs) with ([x] ++ xs). rewrite app_assoc. apply IH.
    by replace (a + Z.of_nat (S k)) with (a + Z.of_nat k + 1) by lia. }
  apply (Hgen bs O []). by rewrite Z.add_0_r.
Qed.

(** [strcmp] of a terminated string in memory. *)
Lemma mev_strcmp_at : forall key a k c,
  view c a (k ++ [NUL]) -> NUL ∉ k -> NUL ∉ key ->
  exists r, mev (strcmp_at a (key ++ [NUL])) c r c /\ Z.sgn r = sgn_of (bytes_cmp k key).
Proof.
  induction key as [|x key IH]; intros a k c Hv Hk Hkey.
  - destruct k as [|b k]; cbn [app] in *; apply view_cons in Hv as [Hb Hv].
    + exists 0. split; [|done]. cbn [strcmp_at]. eapply mev_bind; [by apply mev_load_byte|].
      rewrite !bool_decide_eq_true_2 by done. apply mev_ret.
    + apply not_elem_of_cons in Hk as [Hb0 Hk]. exists (byte_val b - byte_val NUL). split.
      * cbn [strcmp_at]. eapply mev_bind; [by apply mev_load_byte|].
        rewrite bool_decide_eq_false_2 by done. apply mev_ret.
      * cbn [bytes_cmp sgn_of]. pose proof (byte_val_range b).
        assert (byte_val b <> byte_val NUL) by (intros E%byte_val_inj; done).
        change (byte_val NUL) with 0 in *. lia.
  - apply not_elem_of_cons in Hkey as [Hx Hkey].
    destruct k as [|b k]; cbn [app] in *; apply view_cons in Hv as [Hb Hv].
    + exists (byte_val NUL - byte_val x). split.
      * cbn [strcmp_at]. eapply mev_bind; [by apply mev_load_byte|].
        rewrite bool_decide_eq_false_2 by done. apply mev_ret.
      * cbn [bytes_cmp sgn_of]. pose proof (byte_val_range x).
        assert (byte_val x <> byte_val NUL) by (intros E%byte_val_inj; done).
        change (byte_val NUL) with 0 in *. lia.
    + apply not_elem_of_cons in Hk as [Hb0 Hk]. cbn [strcmp_at bytes_cmp].
      destruct (decide (b = x)) as [->|Hne].
      * destruct (IH (a + 1) k c Hv Hk Hkey) as (r & Hr & Hs). exists r. split.
        -- eapply mev_bind; [by apply mev_load_byte|]. rewrite bool_decide_eq_true_2, bool_decide_eq_false_2 by done. done.
        -- by rewrite Z.compare_refl.
      * exists (byte_val b - byte_val x). split.
        -- eapply mev_bind; [by apply mev_load_byte|]. rewrite bool_decide_eq_false_2 by done. apply mev_ret.
        -- assert (byte_val b <> byte_val x) by (intros E%byte_val_inj; done).
           destruct (Z.compare_spec (byte_val b) (byte_val x)); simpl; lia.
Qed.

Lemma mev_strcmp a k key c :
  view c a (k ++ [NUL]) -> NUL ∉ k ->
  exists r, mev (strcmp_key a key) c r c /\ Z.sgn r = sgn_of (bytes_cmp k (c_str key)).
Proof. intros Hv Hk. apply mev_strcmp_at; [done|done|apply c_str_nul_free]. Qed.

(** A value is read up to its terminator. *)
Lemma mev_string_at a v c :
  view c a (v ++ [NUL]) -> NUL ∉ v -> (length v < 256)%nat -> mev (string_at a) c v c.
Proof.
  intros Hv Hnul Hlen. unfold string_at.
  assert (forall n pre post, v = pre ++ post -> (length post < n)%nat ->
    mev (loop n (fun bs : bytes => let! b := load_byte (a + Z.of_nat (length bs)) in
       if bool_decide (b = NUL) then Ret (inr bs) else Ret (inl (bs ++ [b]))) pre) c v c) as Hgen.
  { induction n as [|n IH]; intros pre post E Hn; [lia|]. destruct post as [|b post].
    - rewrite app_nil_r in E. subst pre. apply view_app in Hv as [_ [Hb _]%view_cons].
      eapply mev_loop; [eapply mev_bind; [by apply mev_load_byte|]|].
      + rewrite bool_decide_eq_true_2 by done. apply mev_ret.
      + done.
    - assert (b <> NUL) as Hb by (intros ->; apply Hnul; rewrite E; set_solver).
      pose proof Hv as Hv'. rewrite E, <- app_assoc in Hv'. apply view_app in Hv' as [_ [Hx _]%view_cons].
      eapply mev_loop; [eapply mev_bind; [by apply mev_load_byte|]|].
      + rewrite bool_decide_eq_false_2 by done. apply mev_ret.
      + cbn. apply (IH (pre ++ [b]) post); [by rewrite <- app_assoc|simpl in Hn; lia]. }
  apply (Hgen 256%nat [] v); done.
Qed.

(** ** Writing bytes *)

Definition within (a x : Z) (n : nat) : Prop := a <= x < a + Z.of_nat n.

Record written (a : Z) (bs : bytes) (c c' : gmap Z Z) : Prop := {
  wr_view : view c' a bs;
  wr_byte x : ~ within a x (length bs) -> byte_at c' x = byte_at c x;
  wr_word y : y mod 8 <> 0 \/ y + 8 <= a \/ a + Z.of_nat (length bs) <= y -> c' !! y = c !! y;
  wr_dom y : is_Some (c !! y) -> is_Some (c' !! y);
  wr_fits y w : (forall v, c !! y = Some v -> fits 64 v) -> c' !! y = Some w -> fits 64 w
}.

Lemma view_same c c' a bs :
  (forall x, within a x (length bs) -> byte_at c' x = byte_at c x) -> view c a bs -> view c' a bs.
Proof.
  intros Hs Hv i b Hi. rewrite Hs; [by apply Hv|]. apply lookup_lt_Some in Hi. unfold within. lia.
Qed.

Lemma written_nil a c : written a [] c c.
Proof. split; [apply view_nil|done..|auto]. Qed.

Lemma written_app a xs ys c c1 c2 :
  written a xs c c1 -> written (a + Z.of_nat (length xs)) ys c1 c2 -> written a (xs ++ ys) c c2.
Proof.
  intros [A1 B1 C1 D1 E1] [A2 B2 C2 D2 E2]. split.
  - apply view_app. split; [|done]. eapply view_same; [|exact A1]. intros x Hx. apply B2. unfold within in *. lia.
  - intros x Hx. unfold within in *. rewrite length_app in Hx. rewrite B2, B1; [done|lia|lia].
  - intros y Hy. rewrite length_app in Hy. rewrite C2, C1; [done|lia|lia].
  - auto.
  - intros y w Hv. apply E2. intros v. by apply E1.
Qed.

Lemma mev_store_byte a b c :
  is_Some (byte_at c a) -> exists c', mev (store_byte a b) c tt c' /\ written a [b] c c'.
Proof.
  intros [x Hx]. unfold byte_at in Hx. apply fmap_Some in Hx as (w & Hw & _).
  pose proof (Z.mod_pos_bound a 8 ltac:(lia)) as Hm. pose proof (Z.div_mod a 8 ltac:(lia)) as Hdm.
  exists (<[8 * (a / 8) := set_byte (a mod 8) b w]> c). split.
  { apply (mev_rmw _ (fun w => (tt, set_byte (a mod 8) b w)) w). done. }
  assert (forall y, byte_at (<[8 * (a / 8) := set_byte (a mod 8) b w]> c) y =
    if decide (y = a) then Some b else byte_at c y) as Hb.
  { intros y. unfold byte_at. destruct (decide (8 * (y / 8) = 8 * (a / 8))) as [E|E].
    - rewrite E, lookup_insert_eq, Hw. cbn [fmap option_fmap option_map].
      pose proof (Z.div_mod y 8 ltac:(lia)). pose proof (Z.mod_pos_bound y 8 ltac:(lia)).
      rewrite byte_in_set by lia. case_decide; case_decide; try done; lia.
    - rewrite lookup_insert_ne by done. case_decide; [by subst|done]. }
  split.
  - apply view_cons. split; [|apply view_nil]. rewrite Hb, decide_True by done. done.
  - intros y Hy. rewrite Hb, decide_False; [done|]. unfold within in Hy. simpl in Hy. lia.
  - intros y Hy. rewrite lookup_insert_ne; [done|]. intros <-. simpl in Hy.
    destruct Hy as [Hy|Hy]; [|lia]. apply Hy. rewrite Z.mul_comm. by apply Z.mod_mul.
  - intros y Hy. destruct (decide (8 * (a / 8) = y)) as [<-|]; [by rewrite lookup_insert_eq|by rewrite lookup_insert_ne].
  - intros y v Hv. destruct (decide (8 * (a / 8) = y)) as [<-|]; [|rewrite lookup_insert_ne by done; by apply Hv].
    rewrite lookup_insert_eq. intros [= <-]. apply set_byte_fits; [lia|by apply Hv].
Qed.

(** The bytes from [a] on are mapped. *)
Definition mapped (c : gmap Z Z) (a : Z) (n : nat) : Prop := forall x, within a x n -> is_Some (byte_at c x).

Lemma written_mapped a bs c c' b n : written a bs c c' -> mapped c b n -> mapped c' b n.
Proof.
  intros Hw Hm x Hx. destruct (Hm x Hx) as [y Hy]. unfold byte_at in *.
  apply fmap_Some in Hy as (z & Hz & _). destruct (wr_dom _ _ _ _ Hw (8 * (x / 8))) as [z' Hz']; [by eexists|].
  rewrite Hz'. by eexists.
Qed.

Lemma mev_store_bytes a bs c :
  mapped c a (length bs) -> exists c', mev (store_bytes a bs) c tt c' /\ written a bs c c'.
Proof.
  intros Hm. unfold store_bytes.
  assert (forall ys k c1, mapped c1 (a + Z.of_nat k) (length ys) -> exists c2,
    mev (for_list (zip (seq k (length ys)) ys) (fun '(i, b) (_ : unit) => store_byte (a + Z.of_nat i) b) tt) c1 tt c2 /\
    written (a + Z.of_nat k) ys c1 c2) as Hgen.
  { induction ys as [|y ys IH]; intros k c1 Hm1; cbn [length seq zip zip_with for_list].
    - exists c1. split; [apply mev_ret|apply written_nil].
    - destruct (mev_store_byte (a + Z.of_nat k) y c1) as (c2 & Hev & Hw); [apply Hm1; unfold within; simpl; lia|].
      destruct (IH (S k) c2) as (c3 & Hev' & Hw').
      { eapply written_mapped; [exact Hw|]. intros x Hx. apply Hm1. unfold within in *. simpl. lia. }
      exists c3. split; [by eapply mev_bind|]. apply (written_app _ [y] ys c1 c2 c3 Hw).
      change (Z.of_nat (length [y])) with 1. by replace (a + Z.of_nat k + 1) with (a + Z.of_nat (S k)) by lia. }
  destruct (Hgen bs O c) as (c' & He & Hw); rewrite Z.add_0_r in *; [done|]. by exists c'.
Qed.

Section platform.
Context {HP : Platform} {HL : PlatformLaws}.

Lemma mev_persist a n c : mev (upd (pmemobj_persist a n)) c tt c.
Proof.
  intros pc mm. exists (pcells (pmemobj_persist a n (MkMem c pc mm))). rewrite run_upd.
  pose proof (persist_cells a n (MkMem c pc mm)) as E1. pose proof (persist_metrics a n (MkMem c pc mm)) as E2.
  destruct (pmemobj_persist a n (MkMem c pc mm)). simpl in *. by subst.
Qed.

Lemma mev_memcpy a bs c :
  mapped c a (length bs) -> exists c', mev (pmemobj_memcpy_persist a bs) c tt c' /\ written a bs c c'.
Proof.
  intros Hm. destruct (mev_store_bytes a bs c Hm) as (c' & He & Hw). exists c'. split; [|done].
  eapply mev_bind; [exact He|]. apply mev_persist.
Qed.

(** Two copies, one after the other. *)
Lemma mev_memcpy2 a xs ys c :
  mapped c a (length xs + length ys) ->
  exists c1 c', mev (pmemobj_memcpy_persist a xs) c tt c1 /\
    mev (pmemobj_memcpy_persist (a + Z.of_nat (length xs)) ys) c1 tt c' /\ written a (xs ++ ys) c c'.
Proof.
  intros Hm. destruct (mev_memcpy a xs c) as (c1 & E1 & W1).
  { intros x Hx. apply Hm. unfold within in *. lia. }
  destruct (mev_memcpy (a + Z.of_nat (length xs)) ys c1) as (c2 & E2 & W2).
  { eapply written_mapped; [exact W1|]. intros x Hx. apply Hm. unfold within in *. lia. }
  exists c1, c2. split_and!; [done|done|by eapply written_app].
Qed.
End platform.

(** ** Words and regions *)

Lemma byte_at_insert c a v x :
  a mod 8 = 0 -> ~ (a <= x < a + 8) -> byte_at (<[a := v]> c) x = byte_at c x.
Proof.
  intros Ha Hx. unfold byte_at. rewrite lookup_insert_ne; [done|].
  pose proof (Z.div_mod x 8 ltac:(lia)). pose proof (Z.mod_pos_bound x 8 ltac:(lia)). lia.
Qed.

Lemma view_insert c a v p bs :
  a mod 8 = 0 -> a + 8 <= p \/ p + Z.of_nat (length bs) <= a -> view c p bs -> view (<[a := v]> c) p bs.
Proof.
  intros Ha Hd. apply view_same. intros x Hx. unfold within in Hx. apply byte_at_insert; [done|]. lia.
Qed.

Lemma written_view a bs c c' p qs :
  written a bs c c' -> a + Z.of_nat (length bs) <= p \/ p + Z.of_nat (length qs) <= a -> view c p qs -> view c' p qs.
Proof.
  intros Hw Hd. apply view_same. intros x Hx. apply (wr_byte _ _ _ _ Hw). unfold within in *. lia.
Qed.

(** The words of an aligned region of [n] bytes are mapped. *)
Definition region (c : gmap Z Z) (a : Z) (n : Z) : Prop :=
  a mod 8 = 0 /\ n mod 8 = 0 /\ forall x, a <= x < a + n -> x mod 8 = 0 -> is_Some (c !! x).

Lemma region_mapped c a n p k :
  region c a n -> a <= p -> p + Z.of_nat k <= a + n -> mapped c p k.
Proof.
  intros (Ha & Hn & Hr) H1 H2 x Hx. unfold within in Hx. unfold byte_at.
  pose proof (Z.div_mod x 8 ltac:(lia)). pose proof (Z.mod_pos_bound x 8 ltac:(lia)).
  pose proof (Z.div_mod a 8 ltac:(lia)). pose proof (Z.div_mod n 8 ltac:(lia)).
  destruct (Hr (8 * (x / 8))) as [w ->]; [|by rewrite Z.mul_comm, Z.mod_mul|by eexists].
  split; [|lia]. assert (a / 8 <= x / 8) by (apply Z.div_le_mono; lia). lia.
Qed.

Lemma region_insert c a n x v : region c a n -> region (<[x := v]> c) a n.
Proof.
  intros (Ha & Hn & Hr). split_and!; [done|done|]. intros y Hy Hm. destruct (decide (x = y)) as [->|].
  - by rewrite lookup_insert_eq.
  - rewrite lookup_insert_ne by done. auto.
Qed.

Lemma region_written c c' a n p bs : region c a n -> written p bs c c' -> region c' a n.
Proof.
  intros (Ha & Hn & Hr) Hw. split_and!; [done|done|]. intros y Hy Hm. apply (wr_dom _ _ _ _ Hw). auto.
Qed.

(** The words of a region are machine words. *)
Definition words64 (c : gmap Z Z) (a : Z) (n : Z) : Prop :=
  forall x w, a <= x < a + n -> x mod 8 = 0 -> c !! x = Some w -> fits 64 w.

Lemma words64_insert c a n x v : fits 64 v -> words64 c a n -> words64 (<[x := v]> c) a n.
Proof. intros Hv Hw y w Hy Hm [[-> <-]|[_ H]]%lookup_insert_Some; [done|]. by eapply Hw. Qed.
Lemma words64_written c c' a n p bs : words64 c a n -> written p bs c c' -> words64 c' a n.
Proof. intros Hw Hr y w Hy Hm. apply (wr_fits _ _ _ _ Hr). intros v. by apply Hw. Qed.

(** Nothing outside a region changes. *)
Definition outside (a n : Z) (c c' : gmap Z Z) : Prop := forall x, ~ (a <= x < a + n) -> c' !! x = c !! x.

Lemma outside_refl a n c : outside a n c c.
Proof. done. Qed.
Lemma outside_trans a n c1 c2 c3 : outside a n c1 c2 -> outside a n c2 c3 -> outside a n c1 c3.
Proof. intros H1 H2 x Hx. by rewrite H2, H1. Qed.
Lemma outside_insert a n c x v : a <= x < a + n -> outside a n c (<[x := v]> c).
Proof. intros Hx y Hy. rewrite lookup_insert_ne; [done|]. by intros ->. Qed.
Lemma outside_written a n c c' p bs :
  a mod 8 = 0 -> n mod 8 = 0 -> a <= p -> p + Z.of_nat (length bs) <= a + n -> written p bs c c' -> outside a n c c'.
Proof.
  intros Ha Hn H1 H2 Hw x Hx. apply (wr_word _ _ _ _ Hw).
  destruct (decide (x mod 8 = 0)) as [Hm|]; [right|by left].
  pose proof (Z.div_mod x 8 ltac:(lia)). pose proof (Z.div_mod a 8 ltac:(lia)). pose proof (Z.div_mod n 8 ltac:(lia)). lia.
Qed.
Lemma outside_view a n c c' p bs :
  a mod 8 = 0 -> n mod 8 = 0 -> p + Z.of_nat (length bs) <= a \/ a + n <= p -> outside a n c c' -> view c p bs -> view c' p bs.
Proof.
  intros Ha Hn Hd Ho. apply view_same. intros x Hx. unfold within, byte_at in *. f_equal. apply Ho.
  pose proof (Z.div_mod x 8 ltac:(lia)). pose proof (Z.mod_pos_bound x 8 ltac:(lia)).
  pose proof (Z.div_mod a 8 ltac:(lia)). pose proof (Z.div_mod n 8 ltac:(lia)). lia.
Qed.
