(* ===== verification/BzNodeSpec.v ===== *)
(** * What the node operations of the BzTree do (bztree_smos.cc)

    Bit fields, the contents of a node, copying records out of a node and into a new
    one, compaction, splitting and merging. *)
From Stdlib Require Import ZArith Lia Ascii.
From stdpp Require Import base list gmap strings sorting.
From S2P Require Import Prelude Bytes Prog Status Hash Library Epoch Garbage Metrics Memory Descriptor MwCAS Target Pool BzNode BzBytes.
#[local] Open Scope Z_scope.
#[local] Open Scope machine_scope.
#[local] Open Scope prog_scope.

(** ** Bit fields *)

Lemma low_part n a x : 0 <= a < n -> (a + n * x) mod n = a /\ (a + n * x) / n = x.
Proof.
  intros H. split.
  - symmetry. apply (Z.mod_unique _ _ x); lia.
  - symmetry. apply (Z.div_unique _ _ _ a); lia.
Qed.

Lemma field_div lo n z : 0 <= lo -> 0 <= n -> field lo n z = (z / 2 ^ lo) mod 2 ^ n.
Proof. intros. unfold field. by rewrite Z.land_ones, Z.shiftr_div_pow2. Qed.

Lemma bit_div z k : 0 <= k -> Z.b2z (Z.testbit z k) = (z / 2 ^ k) mod 2.
Proof. intros Hk. rewrite Z.testbit_spec' by done. done. Qed.

(** A packed word of five fields of widths 3, 1, [n1], [n2], [n3]. *)
Section packed.
Context (n1 n2 n3 : Z) (H1 : 0 <= n1) (H2 : 0 <= n2) (H3 : 0 <= n3).

Definition packed (a : Z) (f : bool) (x y z : Z) : Z := a + 8 * (Z.b2z f + 2 * (x + 2 ^ n1 * (y + 2 ^ n2 * z))).

Lemma unpack a f x y z :
  fits 3 a -> fits n1 x -> fits n2 y -> fits n3 z ->
  let w := packed a f x y z in
  field 0 3 w = a /\ Z.testbit w 3 = f /\ field 4 n1 w = x /\ field (4 + n1) n2 w = y /\ field (4 + n1 + n2) n3 w = z.
Proof.
  intros Ha Hx Hy Hz w. unfold fits in Ha, Hx, Hy, Hz.
  assert (0 <= Z.b2z f < 2) as Hf by (destruct f; simpl; lia).
  destruct (low_part 8 a (Z.b2z f + 2 * (x + 2 ^ n1 * (y + 2 ^ n2 * z))) Ha) as [M0 D0].
  destruct (low_part 2 (Z.b2z f) (x + 2 ^ n1 * (y + 2 ^ n2 * z)) Hf) as [M1 D1].
  destruct (low_part (2 ^ n1) x (y + 2 ^ n2 * z) Hx) as [M2 D2].
  destruct (low_part (2 ^ n2) y z Hy) as [M3 D3].
  assert (w / 2 ^ 3 = Z.b2z f + 2 * (x + 2 ^ n1 * (y + 2 ^ n2 * z))) as E3 by done.
  assert (w / 2 ^ 4 = x + 2 ^ n1 * (y + 2 ^ n2 * z)) as E4.
  { change (2 ^ 4) with (8 * 2). rewrite <- Z.div_div by lia. change 8 with (2 ^ 3). rewrite E3. done. }
  assert (w / 2 ^ (4 + n1) = y + 2 ^ n2 * z) as E5.
  { rewrite Z.pow_add_r, <- Z.div_div, E4 by lia. done. }
  assert (w / 2 ^ (4 + n1 + n2) = z) as E6.
  { rewrite (Z.pow_add_r 2 (4 + n1)), <- Z.div_div, E5 by lia. done. }
  rewrite !field_div by lia. rewrite E4, E5, E6, M2, M3. split_and!; try done.
  - by rewrite Z.div_1_r.
  - apply Z.b2z_inj. by rewrite bit_div, E3 by lia.
  - by apply Z.mod_small.
Qed.

Lemma pack w : fits (4 + n1 + n2 + n3) w ->
  packed (field 0 3 w) (Z.testbit w 3) (field 4 n1 w) (field (4 + n1) n2 w) (field (4 + n1 + n2) n3 w) = w.
Proof.
  intros Hw. unfold packed. rewrite bit_div, !field_div by lia. change (2 ^ 0) with 1. rewrite Z.div_1_r.
  assert (w / 2 ^ (4 + n1 + n2) < 2 ^ n3) as Hlt.
  { apply Z.div_lt_upper_bound; [lia|]. rewrite <- Z.pow_add_r by lia. apply Hw. }
  rewrite (Z.mod_small (w / 2 ^ (4 + n1 + n2))) by (split; [apply Z.div_pos; [apply Hw|lia]|done]).
  assert (w / 2 ^ (4 + n1 + n2) = w / 2 ^ (4 + n1) / 2 ^ n2) as E6 by (rewrite Z.div_div, <- Z.pow_add_r by lia; done).
  assert (w / 2 ^ (4 + n1) = w / 2 ^ 4 / 2 ^ n1) as E5 by (rewrite Z.div_div, <- Z.pow_add_r by lia; done).
  assert (w / 2 ^ 4 = w / 2 ^ 3 / 2) as E4 by (rewrite Z.div_div by lia; done).
  rewrite E6. pose proof (Z.div_mod (w / 2 ^ (4 + n1)) (2 ^ n2) ltac:(lia)). rewrite <- E6 in *.
  pose proof (Z.div_mod (w / 2 ^ 4) (2 ^ n1) ltac:(lia)). rewrite <- E5 in *.
  pose proof (Z.div_mod (w / 2 ^ 3) 2 ltac:(lia)). rewrite <- E4 in *.
  pose proof (Z.div_mod w (2 ^ 3) ltac:(lia)). lia.
Qed.
End packed.

Record sw_ok (s : NodeHeaderStatusWord) : Prop := {
  ok_control : fits 3 (sw_control s); ok_count : fits 16 (record_count s);
  ok_block : fits 22 (block_size s); ok_delete : fits 22 (delete_size s)
}.
Record nmd_ok (d : NodeMetadata) : Prop := {
  ok_nmd_control : fits 3 (nmd_control d); ok_offset : fits 28 (offset d);
  ok_klen : fits 16 (key_len d); ok_tlen : fits 16 (total_len d)
}.

Lemma sw_of_word s : sw_ok s -> sw_of (sw_word s) = s.
Proof.
  intros [A B C D]. destruct (unpack 16 22 22 ltac:(lia) ltac:(lia) ltac:(lia) _ (frozen s) _ _ _ A B C D) as (E1 & E2 & E3 & E4 & E5).
  transitivity (MkSW (sw_control s) (frozen s) (record_count s) (block_size s) (delete_size s)); [|by destruct s].
  unfold sw_of. f_equal; assumption.
Qed.
Lemma nmd_of_word d : nmd_ok d -> nmd_of (nmd_word d) = d.
Proof.
  intros [A B C D]. destruct (unpack 28 16 16 ltac:(lia) ltac:(lia) ltac:(lia) _ (visible d) _ _ _ A B C D) as (E1 & E2 & E3 & E4 & E5).
  transitivity (MkNMD (nmd_control d) (visible d) (offset d) (key_len d) (total_len d)); [|by destruct d].
  unfold nmd_of. f_equal; assumption.
Qed.
Lemma sw_word_of z : fits 64 z -> sw_word (sw_of z) = z.
Proof. intros Hz. exact (pack 16 22 22 ltac:(lia) ltac:(lia) ltac:(lia) z Hz). Qed.
Lemma nmd_word_of z : fits 64 z -> nmd_word (nmd_of z) = z.
Proof. intros Hz. exact (pack 28 16 16 ltac:(lia) ltac:(lia) ltac:(lia) z Hz). Qed.

Lemma sw_ok_of z : sw_ok (sw_of z).
Proof. split; simpl; unfold fits; rewrite field_div by lia; apply Z.mod_pos_bound; lia. Qed.
Lemma nmd_ok_of z : nmd_ok (nmd_of z).
Proof. split; simpl; unfold fits; rewrite field_div by lia; apply Z.mod_pos_bound; lia. Qed.

Lemma sw_word_fits s : sw_ok s -> fits 64 (sw_word s).
Proof. intros [A B C D]. unfold fits, sw_word in *. destruct (frozen s); simpl Z.b2z; lia. Qed.
Lemma nmd_word_fits d : nmd_ok d -> fits 64 (nmd_word d).
Proof. intros [A B C D]. unfold fits, nmd_word in *. destruct (visible d); simpl Z.b2z; lia. Qed.

(** *** Bit by bit *)

Lemma testbit_above w a b i : 0 <= w -> fits w a -> 0 <= i ->
  Z.testbit (a + 2 ^ w * b) i = if i <? w then Z.testbit a i else Z.testbit b (i - w).
Proof.
  intros Hw Ha Hi. unfold fits in Ha. rewrite (Z.mul_comm (2 ^ w)). destruct (Z.ltb_spec i w).
  - rewrite <- (Z.mod_pow2_bits_low _ w i), Z_mod_plus_full, Z.mod_small by lia. done.
  - replace i with ((i - w) + w) at 1 by lia. rewrite <- Z.div_pow2_bits by lia. by rewrite Z.div_add, Z.div_small, Z.add_0_l by lia.
Qed.

(** [z'] is [z] with the low [n] bits of [v] at bit [lo] and up. *)
Definition bits_written (lo n v z z' : Z) : Prop :=
  forall i, 0 <= i -> Z.testbit z' i = if (lo <=? i) && (i <? lo + n) then Z.testbit v (i - lo) else Z.testbit z i.

Lemma field_fits lo n z : 0 <= lo -> 0 <= n -> fits n (field lo n z).
Proof. intros. rewrite field_div by done. apply Z.mod_pos_bound. lia. Qed.

Lemma mod_fits w n : 0 <= w -> fits w (n mod 2 ^ w).
Proof. intros Hw. apply Z.mod_pos_bound. lia. Qed.

Section bits.
Context (n1 n2 n3 : Z) (P1 : 0 <= n1) (P2 : 0 <= n2) (P3 : 0 <= n3).

Lemma packed_bits a f x y t i : fits 3 a -> fits n1 x -> fits n2 y -> 0 <= i ->
  Z.testbit (packed n1 n2 a f x y t) i =
    if i <? 3 then Z.testbit a i else if i =? 3 then f else if i <? 4 + n1 then Z.testbit x (i - 4)
    else if i <? 4 + n1 + n2 then Z.testbit y (i - (4 + n1)) else Z.testbit t (i - (4 + n1 + n2)).
Proof.
  intros Ha Hx Hy Hi. unfold packed. change 8 with (2 ^ 3). rewrite testbit_above by (done || lia).
  destruct (Z.ltb_spec i 3); [done|].
  assert (forall m, Z.b2z f + 2 * m = Z.b2z f + 2 ^ 1 * m) as -> by (intros; lia).
  rewrite testbit_above by (try lia; unfold fits; destruct f; cbn; lia).
  destruct (Z.eqb_spec i 3) as [->|Hne]; [by destruct f|]. rewrite (proj2 (Z.ltb_ge _ _)) by lia.
  replace (i - 3 - 1) with (i - 4) by lia. rewrite testbit_above by (done || lia).
  destruct (Z.ltb_spec i (4 + n1)).
  - by rewrite (proj2 (Z.ltb_lt _ _)) by lia.
  - rewrite (proj2 (Z.ltb_ge _ _)), testbit_above by (done || lia). replace (i - 4 - n1) with (i - (4 + n1)) by lia.
    destruct (Z.ltb_spec i (4 + n1 + n2)).
    + by rewrite (proj2 (Z.ltb_lt _ _)) by lia.
    + rewrite (proj2 (Z.ltb_ge _ _)) by lia. f_equal. lia.
Qed.

(** One field of a packed word changed. *)
Context (z : Z) (Hz : fits (4 + n1 + n2 + n3) z).
Let a := field 0 3 z.
Let f := Z.testbit z 3.
Let x := field 4 n1 z.
Let y := field (4 + n1) n2 z.
Let t := field (4 + n1 + n2) n3 z.

Lemma packed_id i : 0 <= i -> Z.testbit z i =
    if i <? 3 then Z.testbit a i else if i =? 3 then f else if i <? 4 + n1 then Z.testbit x (i - 4)
    else if i <? 4 + n1 + n2 then Z.testbit y (i - (4 + n1)) else Z.testbit t (i - (4 + n1 + n2)).
Proof.
  intros Hi. rewrite <- packed_bits by (done || apply field_fits; lia). unfold a, f, x, y, t. by rewrite (pack n1 n2 n3) by done.
Qed.

Ltac written :=
  intros i Hi; rewrite packed_bits by (done || (apply field_fits; lia) || (apply mod_fits; lia)); rewrite (packed_id i Hi);
  repeat (zcase; try lia; cbn [andb]; try done).

Lemma write_flag b : bits_written 3 1 (Z.b2z b) z (packed n1 n2 a b x y t).
Proof. written. subst i. by destruct b. Qed.
Lemma write_first n : bits_written 4 n1 n z (packed n1 n2 a f (n mod 2 ^ n1) y t).
Proof. written. by rewrite Z.mod_pow2_bits_low by lia. Qed.
Lemma write_second n : bits_written (4 + n1) n2 n z (packed n1 n2 a f x (n mod 2 ^ n2) t).
Proof. written. by rewrite Z.mod_pow2_bits_low by lia. Qed.
Lemma write_third n : bits_written (4 + n1 + n2) n3 n z (packed n1 n2 a f x y (n mod 2 ^ n3)).
Proof.
  written.
  - by rewrite Z.mod_pow2_bits_low by lia.
  - rewrite Z.mod_pow2_bits_high by lia. symmetry. apply (fits_testbit n3); [apply field_fits; lia|lia].
Qed.
End bits.

(** C29.  The two packed words of a node: packing well-typed fields gives a machine word from
    which the same fields are read, every machine word holds well-typed fields and is
    what packing them gives; and assigning any integer to a field of a machine word
    writes the low bits of the integer to the bits of that field and leaves every other
    bit as it was (the fields at bits 3, 4, 20 and 42 of a status word, and 3, 4, 32 and
    48 of a metadata word). *)
Theorem bit_fields_correct (s : NodeHeaderStatusWord) (d : NodeMetadata) (z : Z) (b : bool) (n : Z) :
  sw_ok s -> nmd_ok d -> fits 64 z ->
  (fits 64 (sw_word s) /\ sw_of (sw_word s) = s /\ sw_ok (sw_of z) /\ sw_word (sw_of z) = z) /\
  (fits 64 (nmd_word d) /\ nmd_of (nmd_word d) = d /\ nmd_ok (nmd_of z) /\ nmd_word (nmd_of z) = z) /\
  (bits_written 3 1 (Z.b2z b) z (sw_word (set_frozen b (sw_of z))) /\
   bits_written 4 16 n z (sw_word (set_record_count n (sw_of z))) /\
   bits_written 20 22 n z (sw_word (set_block_size n (sw_of z))) /\
   bits_written 42 22 n z (sw_word (set_delete_size n (sw_of z)))) /\
  (bits_written 3 1 (Z.b2z b) z (nmd_word (set_visible b (nmd_of z))) /\
   bits_written 4 28 n z (nmd_word (set_offset n (nmd_of z))) /\
   bits_written 32 16 n z (nmd_word (set_key_len n (nmd_of z))) /\
   bits_written 48 16 n z (nmd_word (set_total_len n (nmd_of z)))).
Proof.
  intros Hs Hd Hz. split; [|split; [|split]].
  - split_and!; [by apply sw_word_fits|by apply sw_of_word|apply sw_ok_of|by apply sw_word_of].
  - split_and!; [by apply nmd_word_fits|by apply nmd_of_word|apply nmd_ok_of|by apply nmd_word_of].
  - split_and!; [exact (write_flag 16 22 22 ltac:(lia) ltac:(lia) ltac:(lia) z Hz b)|exact (write_first 16 22 22 ltac:(lia) ltac:(lia) ltac:(lia) z Hz n)
      |exact (write_second 16 22 22 ltac:(lia) ltac:(lia) ltac:(lia) z Hz n)|exact (write_third 16 22 22 ltac:(lia) ltac:(lia) ltac:(lia) z Hz n)].
  - split_and!; [exact (write_flag 28 16 16 ltac:(lia) ltac:(lia) ltac:(lia) z Hz b)|exact (write_first 28 16 16 ltac:(lia) ltac:(lia) ltac:(lia) z Hz n)
      |exact (write_second 28 16 16 ltac:(lia) ltac:(lia) ltac:(lia) z Hz n)|exact (write_third 28 16 16 ltac:(lia) ltac:(lia) ltac:(lia) z Hz n)].
Qed.

Lemma bit_fields_correct_witness :
  sw_of (sw_word (MkSW 0 true 3 44 12)) = MkSW 0 true 3 44 12 /\
  bits_written 20 22 65539 77 (sw_word (set_block_size 65539 (sw_of 77))).
Proof.
  assert (sw_ok (MkSW 0 true 3 44 12)) as Hs by (split; by vm_compute).
  assert (nmd_ok (MkNMD 0 true 200 4 9)) as Hd by (split; by vm_compute).
  destruct (bit_fields_correct _ _ 77 true 65539 Hs Hd ltac:(by vm_compute)) as ((_ & H1 & _) & _ & (_ & _ & H2 & _) & _).
  split; [exact H1|exact H2].
Defined.

(** ** The contents of a node *)

(** A record: its metadata and, when it is visible, its key and value bytes. *)
Record rec := MkRec { r_md : NodeMetadata; r_key : bytes; r_val : bytes }.

Definition record_at (c : gmap Z Z) (node : Z) (i : nat) (r : rec) : Prop :=
  c !! nmd_at node (Z.of_nat i) = Some (nmd_word (r_md r)) /\ nmd_ok (r_md r) /\
  (visible (r_md r) = true ->
     view c (body node + offset (r_md r)) (r_key r ++ r_val r) /\
     key_len (r_md r) = Z.of_nat (length (r_key r)) /\
     total_len (r_md r) = Z.of_nat (length (r_key r) + length (r_val r))).

(** The node at [node] has status word [sw] and records [rs], in the order of their
    metadata. *)
Record node_has (c : gmap Z Z) (node : Z) (sw : NodeHeaderStatusWord) (rs : list rec) : Prop := {
  nh_sw : c !! status_word node = Some (sw_word sw);
  nh_ok : sw_ok sw;
  nh_count : record_count sw = Z.of_nat (length rs);
  nh_rec i r : rs !! i = Some r -> record_at c node i r
}.

(** What is stored: the visible records' pairs. *)
Definition live (rs : list rec) : list pair_bytes :=
  (fun r => (r_key r, r_val r)) <$> filter (fun r => visible (r_md r) = true) rs.

Lemma mev_load_sw c node sw rs : node_has c node sw rs -> mev (load_sw node) c sw c.
Proof.
  intros [H1 H2 _ _]. eapply mev_bind; [by apply mev_load|]. rewrite sw_of_word by done. apply mev_ret.
Qed.

Lemma mev_load_nmd c node i r : record_at c node i r -> mev (load_nmd node (Z.of_nat i)) c (r_md r) c.
Proof.
  intros (H1 & H2 & _). eapply mev_bind; [by apply mev_load|]. rewrite nmd_of_word by done. apply mev_ret.
Qed.

(** ** Loops over records *)

Fixpoint fold_until {I O} (step : nat -> I -> rec -> I + O) (k : nat) (rs : list rec) (acc : I) : I + O :=
  match rs with
  | [] => inl acc
  | r :: rs => match step k acc r with inl acc => fold_until step (S k) rs acc | inr o => inr o end
  end.

Lemma mev_for_records {I O} fuel node (f : Z -> I -> prog Mem (I + O)) step c sw rs acc :
  node_has c node sw rs -> (length rs < fuel)%nat ->
  (forall i r acc, rs !! i = Some r -> mev (f (Z.of_nat i) acc) c (step i acc r) c) ->
  mev (for_records fuel node f acc) c (fold_until step 0 rs acc) c.
Proof.
  intros Hn Hf Hs. unfold for_records.
  assert (forall qs ps n acc, rs = ps ++ qs -> (length qs < n)%nat ->
    mev (loop n (fun '(i, acc) => let! sw := load_sw node in
      if i <? record_count sw then
        let! r := f i acc in match r with inl acc => Ret (inl (i + 1, acc)) | inr o => Ret (inr (inr o)) end
      else Ret (inr (inl acc))) (Z.of_nat (length ps), acc)) c (fold_until step (length ps) qs acc) c) as Hgen.
  { induction qs as [|q qs IH]; intros ps n acc0 E Hlt; (destruct n as [|n]; [simpl in Hlt; lia|]).
    - eapply mev_loop; [eapply mev_bind; [by eapply mev_load_sw|]|].
      + rewrite (nh_count _ _ _ _ Hn), E, app_nil_r, Z.ltb_irrefl. apply mev_ret.
      + done.
    - assert (rs !! length ps = Some q) as Hq by (by rewrite E, list_lookup_middle).
      assert ((Z.of_nat (length ps) <? record_count sw) = true) as Hlt'.
      { apply Z.ltb_lt. rewrite (nh_count _ _ _ _ Hn), E, length_app. simpl. lia. }
      cbn [fold_until]. eapply (mev_loop _ _ _ _
        (match step (length ps) acc0 q with inl a => inl (Z.of_nat (length ps) + 1, a) | inr o => inr (inr o) end)).
      + eapply mev_bind; [by eapply mev_load_sw|]. rewrite Hlt'. eapply mev_bind; [by apply Hs|].
        destruct (step (length ps) acc0 q); apply mev_ret.
      + destruct (step (length ps) acc0 q) as [a|o]; [|done].
        specialize (IH (ps ++ [q]) n a). rewrite length_app, Nat.add_1_r, Nat2Z.inj_succ in IH.
        unfold Z.succ in IH. apply IH; [by rewrite E, <- app_assoc|simpl in Hlt; lia]. }
  apply (Hgen rs [] fuel acc); done.
Qed.

(** ** Copying records out *)

Lemma live_app rs qs : live (rs ++ qs) = live rs ++ live qs.
Proof. unfold live. by rewrite filter_app, fmap_app. Qed.

Lemma live_cons r rs :
  live (r :: rs) = (if visible (r_md r) then [(r_key r, r_val r)] else []) ++ live rs.
Proof.
  unfold live. rewrite filter_cons. destruct (visible (r_md r)) eqn:E; [by rewrite decide_True|by rewrite decide_False].
Qed.

Lemma mev_copy_record c node i r acc :
  record_at c node i r ->
  mev (copy_record node (Z.of_nat i) acc) c (inl (acc ++ if visible (r_md r) then [(r_key r, r_val r)] else [])) c.
Proof.
  intros Hr. unfold copy_record. eapply mev_bind; [by apply mev_load_nmd|].
  destruct (visible (r_md r)) eqn:Ev; cbn [negb]; [|rewrite app_nil_r; apply mev_ret].
  eapply mev_bind; [by apply mev_load_nmd|]. destruct Hr as (_ & _ & Hv). destruct (Hv Ev) as (Hview & Hk & Ht).
  apply view_app in Hview as [Hkey Hval].
  eapply mev_bind; [apply mev_check; apply Z.leb_le; lia|]. rewrite Hk, Ht, Nat2Z.id.
  replace (Z.to_nat (Z.of_nat (length (r_key r) + length (r_val r)) - Z.of_nat (length (r_key r)))) with (length (r_val r)) by lia.
  eapply mev_bind; [by apply mev_load_bytes|]. eapply mev_bind; [by apply mev_load_bytes|]. apply mev_ret.
Qed.

Lemma fold_until_live rs : forall k acc,
  fold_until (fun _ acc r => inl (acc ++ if visible (r_md r) then [(r_key r, r_val r)] else [])) k rs acc =
    (inl (acc ++ live rs) : list pair_bytes + unit).
Proof.
  induction rs as [|r rs IH]; intros k acc; cbn [fold_until]; [by rewrite app_nil_r|].
  by rewrite IH, live_cons, app_assoc.
Qed.

Section alloc.
Context {HP : Platform} {HL : PlatformLaws} {HM : Pmdk} (fuel : nat).

Lemma mev_copy_out c t sw rs :
  node_has c (D_RW t) sw rs -> (length rs < fuel)%nat ->
  mev (copy_out fuel t) c (merge_sort key_le (live rs)) c.
Proof.
  intros Hn Hf. unfold copy_out. eapply mev_bind.
  - eapply mev_for_records; [exact Hn|exact Hf|]. intros i r acc Hr. eapply mev_copy_record, nh_rec; [exact Hn|done].
  - rewrite fold_until_live. apply mev_ret.
Qed.

(** ** Sorting *)

#[export] Instance key_le_total : Total key_le.
Proof.
  intros a b. unfold key_le. rewrite (bytes_cmp_antisym a.1 b.1). destruct (bytes_cmp a.1 b.1); simpl; auto.
Qed.
#[export] Instance key_le_trans : Transitive key_le.
Proof.
  intros a b d Hab Hbd Had. unfold key_le in *.
  assert (bytes_lt d.1 a.1) as Hda by (unfold bytes_lt; rewrite bytes_cmp_antisym, Had; done).
  destruct (bytes_cmp a.1 b.1) eqn:E1; [apply bytes_cmp_eq in E1; rewrite E1 in *; congruence| |done].
  assert (bytes_lt d.1 b.1) as Hdb by (etransitivity; [exact Hda|exact E1]).
  unfold bytes_lt in Hdb. rewrite bytes_cmp_antisym in Hdb. by destruct (bytes_cmp b.1 d.1).
Qed.

Lemma key_le_strict a b : key_le a b -> a.1 <> b.1 -> bytes_lt a.1 b.1.
Proof. unfold key_le, bytes_lt. intros H Hne. destruct (bytes_cmp a.1 b.1) eqn:E; [|done..]. by apply bytes_cmp_eq in E. Qed.

Lemma key_le_antisym a b : key_le a b -> key_le b a -> a.1 = b.1.
Proof.
  unfold key_le. rewrite (bytes_cmp_antisym a.1 b.1). intros H1 H2. apply bytes_cmp_eq.
  by destruct (bytes_cmp a.1 b.1).
Qed.

(** Sorting pairs whose keys differ has one outcome. *)
Lemma sort_unique (l l' : list pair_bytes) :
  NoDup l.*1 -> l ≡ₚ l' -> Sorted key_le l' -> merge_sort key_le l = l'.
Proof.
  intros Hnd Hp Hs. apply (StronglySorted_unique_strong key_le).
  - intros x y Hx Hy Hxy Hyx. rewrite merge_sort_Permutation in Hx. rewrite <- Hp in Hy.
    apply list_elem_of_lookup in Hx as [i Hi], Hy as [j Hj].
    assert (i = j) as <-; [|congruence].
    eapply NoDup_lookup; [exact Hnd|rewrite list_lookup_fmap, Hi; done|].
    rewrite list_lookup_fmap, Hj. simpl. f_equal. by rewrite (key_le_antisym x y).
  - apply StronglySorted_merge_sort; apply _.
  - apply Sorted_StronglySorted; [apply _|done].
  - by rewrite merge_sort_Permutation.
Qed.

Lemma sort_sorted (l : list pair_bytes) : NoDup l.*1 -> Sorted key_le l -> merge_sort key_le l = l.
Proof. intros. by apply sort_unique. Qed.

(** ** Copying records into a new node *)

Definition pair_len (kv : pair_bytes) : Z := Z.of_nat (length kv.1 + length kv.2).
Definition data_len (kvs : list pair_bytes) : Z := foldr (fun kv n => pair_len kv + n) 0 kvs.

(** The metadata and the data of [kvs] fit into a body. *)
Definition fits_node (kvs : list pair_bytes) : Prop :=
  sizeof_NodeMetadata * Z.of_nat (length kvs) + data_len kvs <= sizeof_body.

Definition new_md (off : Z) (kv : pair_bytes) : NodeMetadata :=
  MkNMD 0 true off (Z.of_nat (length kv.1)) (pair_len kv).

(** The records of a new node, given where the data of the next one ends. *)
Fixpoint new_recs (off : Z) (kvs : list pair_bytes) : list rec :=
  match kvs with
  | [] => []
  | kv :: r => MkRec (new_md (off - pair_len kv) kv) kv.1 kv.2 :: new_recs (off - pair_len kv) r
  end.

Lemma length_new_recs kvs : forall off, length (new_recs off kvs) = length kvs.
Proof. induction kvs; intros; simpl; auto. Qed.

Lemma live_new_recs kvs : forall off, live (new_recs off kvs) = kvs.
Proof. induction kvs as [|[k v] r IH]; intros off; [done|]. cbn [new_recs]. rewrite live_cons. cbn. by rewrite IH. Qed.

Lemma data_len_nonneg kvs : 0 <= data_len kvs.
Proof. induction kvs as [|kv r IH]; simpl; [lia|]. unfold pair_len. lia. Qed.

Lemma new_md_ok off kv :
  0 <= off <= sizeof_body -> pair_len kv <= sizeof_body -> nmd_ok (new_md off kv).
Proof.
  unfold sizeof_body, BZTREE_NODE_SIZE, sizeof_NodeHeader. unfold pair_len. intros H1 H2.
  split; unfold fits, new_md, pair_len; cbn; lia.
Qed.

(** One pair, at record [n] of a node whose free space ends at [off]. *)
Lemma mev_copy_pair node n off kv c :
  node mod 8 = 0 -> region c node BZTREE_NODE_SIZE -> words64 c node BZTREE_NODE_SIZE -> 0 <= n -> off <= sizeof_body ->
  sizeof_NodeMetadata * (n + 1) + pair_len kv <= off ->
  exists c', mev (copy_pair node kv (n, off)) c (n + 1, off - pair_len kv) c' /\
    region c' node BZTREE_NODE_SIZE /\ words64 c' node BZTREE_NODE_SIZE /\ outside node BZTREE_NODE_SIZE c c' /\
    c' !! nmd_at node n = Some (nmd_word (new_md (off - pair_len kv) kv)) /\
    view c' (body node + (off - pair_len kv)) (kv.1 ++ kv.2) /\
    (forall a, a mod 8 = 0 -> a < nmd_at node n \/ nmd_at node (n + 1) <= a /\ a + 8 <= body node + (off - pair_len kv) ->
       c' !! a = c !! a) /\
    (forall p bs, body node + off <= p -> view c p bs -> view c' p bs).
Proof.
  intros Hnode Hreg H64 Hn Hoff Hfit. unfold sizeof_NodeMetadata, sizeof_body, BZTREE_NODE_SIZE, sizeof_NodeHeader in *.
  assert (Z.of_nat (length kv.1) + Z.of_nat (length kv.2) = pair_len kv) as El by (unfold pair_len; lia).
  assert (0 <= pair_len kv) as Hl by (unfold pair_len; lia).
  set (off' := off - pair_len kv). set (d := new_md off' kv).
  set (c1 := <[nmd_at node n := nmd_word d]> c).
  assert (nmd_at node n = node + 16 + 8 * n /\ body node = node + 16) as [Enmd Ebody] by done.
  assert (node <= nmd_at node n < node + 256 /\ nmd_at node n mod 8 = 0) as [Hin Hal].
  { split; [lia|]. rewrite Enmd. replace (node + 16 + 8 * n) with (node + (2 + n) * 8) by lia.
    by rewrite Z.mod_add. }
  assert (region c1 node 256) as Hreg1 by (by apply region_insert).
  destruct (mev_memcpy2 (body node + off') kv.1 kv.2 c1) as (c1' & c2 & Hev1 & Hev2 & Hw).
  { intros x Hx. eapply (region_mapped c1 node 256 (body node + off')); [done|lia| |exact Hx]. lia. }
  exists c2. split; [|split_and!].
  - unfold copy_pair. rewrite El.
    assert (u32 (off - pair_len kv) = off') as -> by (unfold u32; apply Z.mod_small; lia).
    assert (set_total_len (pair_len kv) (set_key_len (Z.of_nat (length kv.1)) (set_offset off' (MkNMD 0 true 0 0 0))) = d) as ->.
    { unfold set_total_len, set_key_len, set_offset, d, new_md, u16. simpl. f_equal; apply Z.mod_small; lia. }
    eapply mev_bind; [apply mev_store; apply Hreg; done|].
    eapply mev_bind; [exact Hev1|]. eapply mev_bind; [exact Hev2|].
    unfold u16. rewrite Z.mod_small by lia. apply mev_ret.
  - by eapply region_written.
  - eapply words64_written; [|exact Hw]. apply words64_insert; [|done]. apply nmd_word_fits, new_md_ok;
      unfold sizeof_body, BZTREE_NODE_SIZE, sizeof_NodeHeader; lia.
  - eapply outside_trans; [by apply (outside_insert node 256 c (nmd_at node n))|].
    eapply outside_written; [done|done| | |exact Hw]; rewrite ?length_app; lia.
  - rewrite (wr_word _ _ _ _ Hw) by lia. apply lookup_insert_eq.
  - apply (wr_view _ _ _ _ Hw).
  - intros a Ha Hlt. unfold nmd_at, sizeof_NodeMetadata in Hlt. rewrite (wr_word _ _ _ _ Hw) by lia.
    unfold c1. rewrite lookup_insert_ne; [done|lia].
  - intros p bs Hp Hv. eapply written_view; [exact Hw| |].
    + left. rewrite length_app. lia.
    + apply view_insert; [done|left; lia|done].
Qed.
Lemma mev_copy_pairs node kvs : forall n off c,
  node mod 8 = 0 -> region c node BZTREE_NODE_SIZE -> words64 c node BZTREE_NODE_SIZE -> 0 <= n -> off <= sizeof_body ->
  sizeof_NodeMetadata * (n + Z.of_nat (length kvs)) + data_len kvs <= off ->
  exists c', mev (for_list kvs (copy_pair node) (n, off)) c (n + Z.of_nat (length kvs), off - data_len kvs) c' /\
    region c' node BZTREE_NODE_SIZE /\ words64 c' node BZTREE_NODE_SIZE /\ outside node BZTREE_NODE_SIZE c c' /\
    (forall i r, new_recs off kvs !! i = Some r -> record_at c' node (Z.to_nat n + i) r) /\
    (forall a, a mod 8 = 0 -> a < nmd_at node n \/
       nmd_at node (n + Z.of_nat (length kvs)) <= a /\ a + 8 <= body node + (off - data_len kvs) -> c' !! a = c !! a) /\
    (forall p bs, body node + off <= p -> view c p bs -> view c' p bs).
Proof.
  induction kvs as [|kv kvs IH]; intros n off c Hnode Hreg H64 Hn Hoff Hfit; cbn [length data_len foldr for_list new_recs] in *.
  { exists c. rewrite Z.add_0_r, Z.sub_0_r. split_and!; try done. apply mev_ret. }
  pose proof (data_len_nonneg kvs) as Hd. unfold sizeof_NodeMetadata in *. fold (data_len kvs) in *.
  assert (0 <= pair_len kv) as Hp by (unfold pair_len; lia).
  destruct (mev_copy_pair node n off kv c Hnode Hreg H64 Hn Hoff) as (c1 & E1 & R1 & F1 & O1 & M1 & V1 & W1 & P1);
    [unfold sizeof_NodeMetadata; lia|].
  destruct (IH (n + 1) (off - pair_len kv) c1 Hnode R1 F1) as (c2 & E2 & R2 & F2 & O2 & N2 & W2 & P2); [lia..|].
  exists c2. split_and!.
  - replace (n + Z.of_nat (S (length kvs))) with (n + 1 + Z.of_nat (length kvs)) by lia.
    replace (off - (pair_len kv + data_len kvs)) with (off - pair_len kv - data_len kvs) by lia.
    by eapply mev_bind.
  - done.
  - done.
  - by eapply outside_trans.
  - assert (nmd_at node n mod 8 = 0) as Hal.
    { unfold nmd_at, body, sizeof_NodeHeader, sizeof_NodeMetadata.
      replace (node + 16 + 8 * n) with (node + (2 + n) * 8) by lia. by rewrite Z.mod_add. }
    intros [|i] r Hr.
    + cbn in Hr. injection Hr as <-. rewrite Nat.add_0_r. split_and!; cbn [r_md r_key r_val].
      * rewrite Z2Nat.id by done. rewrite W2; [done|done|]. unfold nmd_at, sizeof_NodeMetadata. lia.
      * apply new_md_ok; unfold sizeof_body, BZTREE_NODE_SIZE, sizeof_NodeHeader in *; lia.
      * intros _. split_and!; [|done|unfold new_md, pair_len; cbn; lia]. cbn [new_md offset]. apply P2; [lia|done].
    + replace (Z.to_nat n + S i)%nat with (Z.to_nat (n + 1) + i)%nat by lia. by apply N2.
  - intros a Ha Hlt. unfold nmd_at, sizeof_NodeMetadata in *. rewrite W2, W1; [done|done|lia|done|lia].
  - intros p bs Hpb Hv. apply P2; [lia|]. by apply P1.
Qed.

(** *** Allocation *)

(** What libpmemobj documents of [pmemobj_zalloc]: the object is aligned and zeroed, its
    memory was not in use, nothing else changes, and success depends on memory only. *)
Class PmdkLaws := {
  zalloc_ok n s t s' : pmemobj_zalloc n s = (Some t, s') ->
    0 < D_RW t /\ D_RW t mod 8 = 0 /\
    (forall a, D_RW t <= a < D_RW t + n -> cells s !! a = None) /\
    (forall a, D_RW t <= a < D_RW t + n -> a mod 8 = 0 -> cells s' !! a = Some 0) /\
    outside (D_RW t) n (cells s) (cells s') /\ metrics s' = metrics s;
  zalloc_same n s1 s2 : cells s1 = cells s2 ->
    (pmemobj_zalloc n s1).1 = (pmemobj_zalloc n s2).1 /\
    cells (pmemobj_zalloc n s1).2 = cells (pmemobj_zalloc n s2).2
}.

(** Allocating [n] bytes in memory [c] gives [t]. *)
Definition allocates (n : Z) (c : gmap Z Z) (t : TOID) : Prop :=
  (pmemobj_zalloc n (MkMem c ∅ metrics_off)).1 = Some t.

Context {HP' : PmdkLaws}.

Lemma mev_POBJ_ZNEW n c t :
  allocates n c t -> n mod 8 = 0 ->
  exists c', mev (POBJ_ZNEW n) c t c' /\ 0 < D_RW t /\ region c' (D_RW t) n /\ outside (D_RW t) n c c' /\
    (forall a, D_RW t <= a < D_RW t + n -> a mod 8 = 0 -> c' !! a = Some 0) /\
    (forall a, D_RW t <= a < D_RW t + n -> c !! a = None).
Proof.
  intros Ha Hn. unfold allocates in Ha. destruct (pmemobj_zalloc n (MkMem c ∅ metrics_off)) as [o s0] eqn:E0. simpl in Ha. subst o.
  destruct (zalloc_ok _ _ _ _ E0) as (Hpos & Hal & Hfresh & Hzero & Hout & _).
  exists (cells s0). split; [|split; [done|split; [split; [done|split; [done|]]|done]]].
  - intros pc mm. destruct (zalloc_same n (MkMem c pc mm) (MkMem c ∅ metrics_off) eq_refl) as [H1 H2].
    rewrite E0 in H1, H2. destruct (pmemobj_zalloc n (MkMem c pc mm)) as [o s] eqn:E1. simpl in H1, H2. subst o.
    destruct (zalloc_ok _ _ _ _ E1) as (_ & _ & _ & _ & _ & Hm). exists (pcells s).
    unfold POBJ_ZNEW. rewrite run_bind. cbn [act run]. rewrite E1. cbn [and_then run].
    destruct s as [c1 pc1 m1]. simpl in *. by subst.
  - intros x Hx Hm. rewrite Hzero by done. by eexists.
Qed.

Definition new_sw (kvs : list pair_bytes) : NodeHeaderStatusWord :=
  MkSW 0 false (Z.of_nat (length kvs)) (data_len kvs) 0.
Definition new_node_recs (kvs : list pair_bytes) : list rec := new_recs sizeof_body kvs.

(** A node just built of [kvs]: the rest of its metadata is still zero. *)
Record fresh_node (c : gmap Z Z) (node : Z) (kvs : list pair_bytes) : Prop := {
  fr_at : 0 < node /\ node mod 8 = 0;
  fr_has : node_has c node (new_sw kvs) (new_node_recs kvs);
  fr_region : region c node BZTREE_NODE_SIZE;
  fr_words : words64 c node BZTREE_NODE_SIZE;
  fr_zero j : Z.of_nat (length kvs) <= j -> sizeof_NodeMetadata * (j + 1) <= sizeof_body - data_len kvs ->
    c !! nmd_at node j = Some 0
}.

Lemma mev_copy_in kvs c t :
  allocates BZTREE_NODE_SIZE c t -> fits_node kvs ->
  exists c', mev (copy_in kvs) c t c' /\ fresh_node c' (D_RW t) kvs /\ outside (D_RW t) BZTREE_NODE_SIZE c c' /\
    (forall a, D_RW t <= a < D_RW t + BZTREE_NODE_SIZE -> c !! a = None).
Proof.
  intros Hal Hfit. destruct (mev_POBJ_ZNEW _ _ _ Hal ltac:(done)) as (c1 & E1 & Hpos & R1 & O1 & Z1 & F1).
  set (node := D_RW t) in *. assert (node mod 8 = 0) as Hm by apply R1.
  unfold fits_node in Hfit. pose proof (data_len_nonneg kvs) as Hd.
  destruct (mev_copy_pairs node kvs 0 sizeof_body c1 Hm R1) as (c2 & E2 & R2 & H2 & O2 & N2 & W2 & _).
  { intros a w Ha Hma. rewrite Z1 by done. by intros [= <-]. }
  { lia. } { lia. } { lia. }
  unfold sizeof_body, BZTREE_NODE_SIZE, sizeof_NodeHeader, sizeof_NodeMetadata in *.
  assert (status_word node = node + 8) as Esw by done.
  assert (status_word node mod 8 = 0) as Hsm by (rewrite Esw, <- Z.add_mod_idemp_l, Hm by lia; done).
  assert (c2 !! status_word node = Some 0) as Hs2.
  { rewrite W2; [apply Z1; [lia|done]|done|]. left. unfold nmd_at, body, sizeof_NodeHeader, sizeof_NodeMetadata. lia. }
  set (n := Z.of_nat (length kvs)) in *. set (s1 := MkSW 0 false n 0 0). set (s2 := new_sw kvs).
  assert (sw_ok s1 /\ sw_ok s2) as [Ok1 Ok2] by (split; split; unfold fits, s1, s2, new_sw; cbn; lia).
  assert (exists w, c2 !! node = Some w) as [w Hw].
  { destruct R2 as (_ & _ & R2). destruct (R2 node) as [w Hw]; [lia|done|by exists w]. }
  set (c3 := <[status_word node := sw_word s1]> c2). set (c4 := <[status_word node := sw_word s2]> c3).
  assert (fits 64 (u32 w + 2 ^ 32 * n)) as H64.
  { unfold fits, u32. pose proof (Z.mod_pos_bound w (2 ^ 32) ltac:(lia)). lia. }
  exists (<[node := u32 w + 2 ^ 32 * n]> c4). split; [|split; [|split; [|done]]].
  - unfold copy_in. eapply mev_bind; [exact E1|]. fold node. eapply mev_bind; [exact E2|].
    eapply mev_bind; [eapply mev_bind; [apply mev_load; exact Hs2|apply mev_ret]|].
    replace (sw_of 0) with (MkSW 0 false 0 0 0) by done.
    cbn [fst snd]. replace (set_record_count (0 + n) (MkSW 0 false 0 0 0)) with s1
      by (unfold set_record_count, s1, u16; simpl; f_equal; symmetry; apply Z.mod_small; lia).
    eapply mev_bind; [apply mev_store; by eexists|].
    eapply mev_bind; [eapply mev_bind; [apply mev_load, lookup_insert_eq|apply mev_ret]|].
    rewrite sw_of_word by done.
    replace (set_block_size (sizeof_body - (256 - 16 - data_len kvs)) s1) with s2.
    2: { unfold set_block_size, s1, s2, new_sw, sizeof_body, BZTREE_NODE_SIZE, sizeof_NodeHeader. simpl. f_equal.
         rewrite Z.mod_small; lia. }
    eapply mev_bind; [apply mev_store; rewrite lookup_insert_eq; by eexists|].
    eapply mev_bind; [|apply mev_ret].
    apply (mev_rmw node (fun w => (tt, u32 w + 2 ^ 32 * (0 + n))) w). unfold c4, c3.
    rewrite !lookup_insert_ne by lia. done.
  - split; [done| | | |].
    + split; [|done|by unfold new_node_recs; rewrite length_new_recs|].
      { rewrite lookup_insert_ne by lia. apply lookup_insert_eq. }
      intros i r Hr. destruct (N2 i r Hr) as (A & B & C). cbn [Z.to_nat Nat.add] in *.
      assert (node + 16 <= nmd_at node (Z.of_nat i)) by (unfold nmd_at, body, sizeof_NodeHeader, sizeof_NodeMetadata; lia).
      split_and!; [unfold c4, c3; by rewrite !lookup_insert_ne by lia|done|].
      intros Hv. destruct (C Hv) as (V & K & T). split_and!; [|done|done].
      assert (0 <= offset (r_md r)) by apply B.
      unfold c4, c3. repeat (apply view_insert; [done|left; unfold body, sizeof_NodeHeader; lia|]). done.
    + by do 3 apply region_insert.
    + apply words64_insert; [done|]. by do 2 (apply words64_insert; [by apply sw_word_fits|]).
    + intros j J1 J2. unfold c4, c3, nmd_at, body, sizeof_NodeHeader, sizeof_NodeMetadata, sizeof_body, BZTREE_NODE_SIZE in *.
      assert ((node + 16 + 8 * j) mod 8 = 0).
      { replace (node + 16 + 8 * j) with (node + (2 + j) * 8) by lia. by rewrite Z.mod_add. }
      unfold sizeof_NodeHeader in J2. rewrite !lookup_insert_ne by lia. rewrite W2; [apply Z1; lia|done|]. right. lia.
  - eapply outside_trans; [exact O1|]. eapply outside_trans; [exact O2|]. unfold c4, c3. rewrite Esw.
    eapply outside_trans; [apply (outside_insert _ _ c2 (node + 8)); lia|].
    eapply outside_trans; [apply (outside_insert _ _ _ (node + 8)); lia|]. apply outside_insert. lia.
Qed.
End alloc.
