(* ===== verification/BzSmo.v ===== *)
(** * Structural modifications of the BzTree (bztree_smos.cc)

    Compaction, splitting and merging of nodes: what they leave where, and when a split
    stops on one of its assertions. *)
From Stdlib Require Import ZArith Lia Ascii.
From stdpp Require Import base list gmap strings sorting.
From S2P Require Import Prelude Bytes Prog Status Hash Library Epoch Garbage Metrics Memory Descriptor MwCAS Target Pool BzNode BzBytes BzNodeSpec.
#[local] Open Scope Z_scope.
#[local] Open Scope machine_scope.
#[local] Open Scope prog_scope.

(** ** More memory, the same contents *)

Lemma view_mono c c' a bs : c ⊆ c' -> view c a bs -> view c' a bs.
Proof.
  intros Hs Hv i b Hi. specialize (Hv i b Hi). unfold byte_at in *. apply fmap_Some in Hv as (w & Hw & ->).
  by rewrite (lookup_weaken _ _ _ _ Hw Hs).
Qed.

Lemma node_has_mono c c' node sw rs : c ⊆ c' -> node_has c node sw rs -> node_has c' node sw rs.
Proof.
  intros Hs [H1 H2 H3 H4]. split; [by eapply lookup_weaken|done|done|].
  intros i r Hr. destruct (H4 i r Hr) as (A & B & C). split_and!; [by eapply lookup_weaken|done|].
  intros Hv. destruct (C Hv) as (V & K). split; [by eapply view_mono|done].
Qed.

Lemma fresh_mono a n c c' :
  outside a n c c' -> (forall x, a <= x < a + n -> c !! x = None) -> c ⊆ c'.
Proof.
  intros Ho Hf. apply map_subseteq_spec. intros x v Hx. rewrite Ho; [done|]. intros Hr. rewrite Hf in Hx by done. done.
Qed.

(** A program that stops with [msg]. *)
Definition mfails {A} (p : prog Mem A) (c : gmap Z Z) (msg : string) : Prop :=
  forall pc mm, (run p (MkMem c pc mm)).1 = Faulted msg.

Lemma mfails_bind {A B} (p : prog Mem A) (q : A -> prog Mem B) c x c1 msg :
  mev p c x c1 -> mfails (q x) c1 msg -> mfails (bind p q) c msg.
Proof. intros Hp Hq pc mm. destruct (Hp pc mm) as [pc1 R]. rewrite run_bind, R. apply Hq. Qed.
Lemma mfails_check {B} (b : bool) msg (q : unit -> prog Mem B) c :
  b = false -> mfails (bind (check b msg) q) c msg.
Proof. by intros ->. Qed.

(** ** An allocator

    It takes the first aligned address above all memory in use, numbers one pool and
    frees nothing; offsets are addresses. *)

Definition top (c : gmap Z Z) : Z := foldr (fun kv m => kv.1 `max` m) 0 (map_to_list c).
Definition next_free (c : gmap Z Z) : Z := 64 * (top c / 64 + 1).
Fixpoint zeros (n : nat) (a : Z) (c : gmap Z Z) : gmap Z Z :=
  match n with O => c | S n => <[a := 0]> (zeros n (a + 8) c) end.

Definition bump_alloc (n : Z) (s : Mem) : TOID * Mem :=
  let a := next_free (cells s) in (MkTOID 1 a, set_cells (zeros (Z.to_nat ((n + 7) / 8)) a (cells s)) s).

(** The root object is at 64. *)
Definition bump : Pmdk := {|
  pmemobj_direct := off;
  pmemobj_oid := MkTOID 1;
  pmemobj_root := fun n s => (MkTOID 1 64, if cells s !! 64 then s else set_cells (zeros (Z.to_nat ((n + 7) / 8)) 64 (cells s)) s);
  pmemobj_zalloc := fun n s => let (t, s) := bump_alloc n s in (Some t, s);
  pmemobj_free := fun _ s => s
|}.

Lemma top_bound c a v : c !! a = Some v -> a <= top c.
Proof.
  intros H. apply elem_of_map_to_list in H. unfold top. induction (map_to_list c) as [|kv l IH]; [set_solver|].
  cbn [foldr]. apply elem_of_cons in H as [<-|H]; [simpl; lia|]. specialize (IH H). lia.
Qed.
Lemma top_nonneg c : 0 <= top c.
Proof. unfold top. induction (map_to_list c); simpl; lia. Qed.

Lemma zeros_lookup n : forall a c x,
  zeros n a c !! x = if bool_decide (a <= x < a + 8 * Z.of_nat n /\ (x - a) mod 8 = 0) then Some 0 else c !! x.
Proof.
  induction n as [|n IH]; intros a c x; cbn [zeros].
  { rewrite bool_decide_false; [done|lia]. }
  destruct (decide (a = x)) as [->|Hne].
  - rewrite lookup_insert_eq, bool_decide_true; [done|]. rewrite Z.sub_diag. split; [lia|done].
  - rewrite lookup_insert_ne, IH by done.
    rewrite (bool_decide_ext _ (a <= x < a + 8 * Z.of_nat (S n) /\ (x - a) mod 8 = 0)); [done|].
    assert ((x - (a + 8)) mod 8 = (x - a) mod 8) as ->.
    { replace (x - (a + 8)) with (x - a + (-1) * 8) by lia. apply Z.mod_add. lia. }
    split; intros [? Hm]; (split; [|done]); [lia|].
    destruct (Z.eq_dec ((x - a) / 8) 0) as [Hz|Hz]; [|].
    + pose proof (Z.div_mod (x - a) 8 ltac:(lia)). lia.
    + pose proof (Z.div_mod (x - a) 8 ltac:(lia)). nia.
Qed.

Lemma next_free_spec c : 0 < next_free c /\ next_free c mod 8 = 0 /\ (forall a, next_free c <= a -> c !! a = None).
Proof.
  unfold next_free. pose proof (top_nonneg c). pose proof (Z.div_mod (top c) 64 ltac:(lia)).
  pose proof (Z.mod_pos_bound (top c) 64 ltac:(lia)). split; [nia|]. split.
  - replace (64 * (top c / 64 + 1)) with (8 * (top c / 64 + 1) * 8) by lia. by rewrite Z.mod_mul.
  - intros a Ha. destruct (c !! a) eqn:E; [|done]. apply top_bound in E. lia.
Qed.

#[export] Instance bump_laws : @PmdkLaws bump.
Proof.
  split.
  - intros n s t s' [= <- <-]. destruct (next_free_spec (cells s)) as (H1 & H2 & H3).
    unfold D_RW. simpl. split_and!; [done|done| | | |done].
    + intros a Ha. apply H3. lia.
    + intros a Ha Hm. rewrite zeros_lookup, bool_decide_true; [done|].
      rewrite Zminus_mod, Hm, H2. split; [|done].
      pose proof (Z.div_mod (n + 7) 8 ltac:(lia)). pose proof (Z.mod_pos_bound (n + 7) 8 ltac:(lia)). lia.
    + intros a Ha. rewrite zeros_lookup, bool_decide_false; [done|].
      intros [Hb Hm]. apply Ha. split; [lia|].
      pose proof (Z.div_mod (n + 7) 8 ltac:(lia)). pose proof (Z.mod_pos_bound (n + 7) 8 ltac:(lia)).
      pose proof (Z.div_mod (a - next_free (cells s)) 8 ltac:(lia)). lia.
  - intros n s1 s2 E. simpl. unfold bump_alloc. by rewrite E.
Qed.

(** Memory is never short. *)
Definition roomy {HM : Pmdk} : Prop := forall c, exists t, allocates BZTREE_NODE_SIZE c t.
Lemma bump_roomy : @roomy bump.
Proof. intros c. by eexists. Qed.

(** ** Memory that grows by nodes *)

Section grown.
Context {HM : Pmdk}.

(** The bytes of a node. *)
Definition in_leaf (node : TOID) (a : Z) : Prop := D_RW node <= a < D_RW node + BZTREE_NODE_SIZE.

(** Nodes that do not overlap. *)
Fixpoint separate (l : list TOID) : Prop :=
  match l with
  | [] => True
  | a :: l => (forall b x, b ∈ l -> in_leaf a x -> in_leaf b x -> False) /\ separate l
  end.

Lemma separate_app l l' : separate (l ++ l') <->
  separate l /\ separate l' /\ forall a b x, a ∈ l -> b ∈ l' -> in_leaf a x -> in_leaf b x -> False.
Proof.
  induction l as [|y l IH]; simpl.
  - split; [intros H; split_and!; [done|done|]; by intros a b x []%not_elem_of_nil|by intros (_ & ? & _)].
  - rewrite IH. setoid_rewrite elem_of_app. setoid_rewrite elem_of_cons. split.
    + intros (H1 & H2 & H3 & H4). split_and!; [|done|done|]; [by eauto|]. intros a b x [->|Ha]; eauto.
    + intros ((H1 & H2) & H3 & H4). split_and!; [|done|done|]; [intros b x [Hb|Hb]; eauto|eauto].
Qed.

#[global] Instance separate_perm : Proper ((≡ₚ) ==> iff) separate.
Proof.
  assert (forall l l', l ≡ₚ l' -> separate l -> separate l') as Hgen.
  { induction 1 as [|x l l' Hp IH|x y l|l1 l2 l3 _ IH1 _ IH2]; [done| | |by auto].
    - intros [H1 H2]. split; [|by apply IH]. intros b z Hb. apply H1. by rewrite Hp.
    - intros (H1 & H2 & H3). simpl. split_and!; [|intros b z Hb; apply H1; by right|done].
      intros b z [->|Hb]%elem_of_cons Ha Hz; [by eapply (H1 x z); [left|..]|by eapply H2]. }
  intros l l' Hp. split; by apply Hgen.
Qed.

Lemma separate_two l i j a b x :
  separate l -> l !! i = Some a -> l !! j = Some b -> i <> j -> in_leaf a x -> in_leaf b x -> False.
Proof.
  revert i j. induction l as [|y l IH]; [done|]. intros [|i] [|j] [H1 H2] Hi Hj Hne Ha Hb; simpl in *; [done|..].
  - injection Hi as ->. eapply (H1 b x); [by eapply list_elem_of_lookup_2|done..].
  - injection Hj as ->. eapply (H1 a x); [by eapply list_elem_of_lookup_2|done..].
  - eapply (IH i j); try done. congruence.
Qed.

(** From [c] to [c'] memory has grown by the nodes [ts]. *)
Record grown (c c' : gmap Z Z) (ts : list TOID) : Prop := {
  gr_same a : (forall t, t ∈ ts -> ~ in_leaf t a) -> c' !! a = c !! a;
  gr_fresh t a : t ∈ ts -> in_leaf t a -> c !! a = None;
  gr_apart : separate ts;
  gr_region t : t ∈ ts -> region c' (D_RW t) BZTREE_NODE_SIZE
}.

(** A mapped node and an unmapped one do not overlap. *)
Lemma region_fresh c a b x :
  region c (D_RW a) BZTREE_NODE_SIZE -> D_RW b mod 8 = 0 -> (forall y, in_leaf b y -> c !! y = None) ->
  in_leaf a x -> in_leaf b x -> False.
Proof.
  intros (Ha & _ & Hr) Hb Hf Hxa Hxb. unfold in_leaf, BZTREE_NODE_SIZE in *.
  pose proof (Z.div_mod x 8 ltac:(lia)). pose proof (Z.mod_pos_bound x 8 ltac:(lia)).
  pose proof (Z.div_mod (D_RW a) 8 ltac:(lia)). pose proof (Z.div_mod (D_RW b) 8 ltac:(lia)).
  destruct (Hr (8 * (x / 8))) as [w Hw]; [lia|by rewrite Z.mul_comm, Z.mod_mul|]. rewrite Hf in Hw; [done|lia].
Qed.

Lemma grown_refl c : grown c c [].
Proof. split; [done|by intros t a Ht%not_elem_of_nil|done|by intros t Ht%not_elem_of_nil]. Qed.

Lemma grown_sub c c' ts : grown c c' ts -> c ⊆ c'.
Proof.
  intros Hg. apply map_subseteq_spec. intros a v Hv. rewrite (gr_same _ _ _ Hg); [done|]. intros t Ht Ha.
  by rewrite (gr_fresh _ _ _ Hg t a Ht Ha) in Hv.
Qed.

Lemma grown_trans c c1 c2 ts1 ts2 : grown c c1 ts1 -> grown c1 c2 ts2 -> grown c c2 (ts1 ++ ts2).
Proof.
  intros G1 G2. pose proof (grown_sub _ _ _ G1) as Hs1. pose proof (grown_sub _ _ _ G2) as Hs2. split.
  - intros a Ha. rewrite (gr_same _ _ _ G2), (gr_same _ _ _ G1); [done|..]; intros t Ht; apply Ha, elem_of_app; auto.
  - intros t a [Ht|Ht]%elem_of_app Ha; [by eapply gr_fresh|]. pose proof (gr_fresh _ _ _ G2 t a Ht Ha) as Hn.
    destruct (c !! a) eqn:E; [|done]. by rewrite (lookup_weaken _ _ _ _ E Hs1) in Hn.
  - apply separate_app. split_and!; [apply G1|apply G2|]. intros a b x Ha Hb.
    apply (region_fresh c1); [by apply G1|by apply G2|intros y; by apply (gr_fresh _ _ _ G2)].
  - intros t [Ht|Ht]%elem_of_app; [|by apply G2]. destruct (gr_region _ _ _ G1 t Ht) as (R1 & R2 & R3).
    split_and!; [done|done|]. intros x Hx Hm. destruct (R3 x Hx Hm) as [v Hv]. exists v. by eapply lookup_weaken.
Qed.

(** The same words are mapped in two memories, those of [X] aside. *)
Definition alike (X : Z -> Prop) (c c' : gmap Z Z) : Prop := forall a, ~ X a -> is_Some (c !! a) <-> is_Some (c' !! a).

#[global] Instance alike_equiv X : Equivalence (alike X).
Proof.
  split; [by intros c a|by intros c c' H a Ha; symmetry; apply H|].
  intros c1 c2 c3 H1 H2 a Ha. by rewrite (H1 a Ha), (H2 a Ha).
Qed.

Lemma alike_larger (X Y : Z -> Prop) c c' : (forall a, X a -> Y a) -> alike X c c' -> alike Y c c'.
Proof. intros HXY H a Ha. apply H. intros Hx. by apply Ha, HXY. Qed.

(** The allocator serves the next requests, with results that satisfy [good], whatever
    happens in the memory it has given out and in [X], and whatever else is stored. *)
Fixpoint served (X : Z -> Prop) (good : Z -> TOID -> Prop) (sizes : list Z) (c : gmap Z Z) : Prop :=
  match sizes with
  | [] => True
  | n :: sizes => forall c1, alike X c c1 ->
      exists t, allocates n c1 t /\ good n t /\ forall c', outside (D_RW t) n c1 c' -> served X good sizes c'
  end.

Lemma served_alike X good sizes c c' : alike X c c' -> served X good sizes c -> served X good sizes c'.
Proof. destruct sizes as [|n sizes]; [done|]. intros H Hs c1 H1. apply Hs. by etransitivity. Qed.

Lemma served_smaller (X Y : Z -> Prop) good good' sizes c :
  (forall a, Y a -> X a) -> (forall n t, good n t -> good' n t) -> served X good sizes c -> served Y good' sizes c.
Proof.
  intros HYX Hg. revert c. induction sizes as [|n sizes IH]; intros c; [done|]. intros Hs c1 H1.
  destruct (Hs c1) as (t & Ha & Ht & Hr); [by eapply alike_larger|]. exists t. split; [done|]. split; [by apply Hg|].
  intros c' Hc'. by apply IH, Hr.
Qed.

Lemma roomy_served k : roomy -> forall c, served (fun _ => False) (fun _ _ => True) (replicate k BZTREE_NODE_SIZE) c.
Proof. intros Hr. induction k as [|k IH]; intros c; [done|]. intros c1 _. destruct (Hr c1) as [t Ht]. by exists t. Qed.
End grown.

Section smo.
Context {HP : Platform} {HL : PlatformLaws} {HM : Pmdk} {HP' : PmdkLaws} (fuel : nat).

(** A new node is like [mev_copy_in]'s, somewhere memory was not in use. *)
Definition new_node (c : gmap Z Z) (t : TOID) (kvs : list pair_bytes) : Prop := fresh_node c (D_RW t) kvs.

Lemma new_node_mono c c' t kvs : c ⊆ c' -> new_node c t kvs -> new_node c' t kvs.
Proof.
  intros Hs [H1 H2 H3 H4 H5]. split; [done|by eapply node_has_mono| | |].
  - destruct H3 as (? & ? & H3). split_and!; [done|done|]. intros x Hx Hm. destruct (H3 x Hx Hm) as [w Hw].
    exists w. by eapply lookup_weaken.
  - intros x w Hx Hm Hw. destruct H3 as (_ & _ & H3). destruct (H3 x Hx Hm) as [v Hv].
    apply (H4 x w Hx Hm). by rewrite Hv, <- Hw, (lookup_weaken _ _ _ _ Hv Hs).
  - intros j J1 J2. eapply lookup_weaken; [by apply H5|done].
Qed.

Lemma mev_new_node kvs c t :
  allocates BZTREE_NODE_SIZE c t -> fits_node kvs ->
  exists c', mev (copy_in kvs) c t c' /\ new_node c' t kvs /\ c ⊆ c'.
Proof.
  intros Ha Hf. destruct (mev_copy_in kvs c t Ha Hf) as (c' & E & H1 & H2 & H3).
  exists c'. split_and!; [done|done|by eapply fresh_mono].
Qed.

Lemma mev_new_nodes kvs c X good sizes :
  served X good (BZTREE_NODE_SIZE :: sizes) c -> fits_node kvs ->
  exists t c', mev (copy_in kvs) c t c' /\ new_node c' t kvs /\ grown c c' [t] /\ good BZTREE_NODE_SIZE t /\ served X good sizes c'.
Proof.
  intros Hserved Hf. destruct (Hserved c) as (t & Ha & Hg & Hs); [done|]. destruct (mev_copy_in kvs c t Ha Hf) as (c' & E & H1 & H2 & H3).
  exists t, c'. split_and!; [done|done| |done|by apply Hs]. split.
  - intros a Hn. apply H2. intros Ha'. by apply (Hn t); [left|].
  - intros q a ->%list_elem_of_singleton. apply H3.
  - split; [|done]. by intros b x []%not_elem_of_nil.
  - intros q ->%list_elem_of_singleton. apply H1.
Qed.

Lemma copy_out_new c t kvs :
  new_node c t kvs -> NoDup kvs.*1 -> Sorted key_le kvs -> (length kvs < fuel)%nat -> mev (copy_out fuel t) c kvs c.
Proof.
  intros [_ Hn _ _ _] Hnd Hs Hf. pose proof (mev_copy_out fuel c t _ _ Hn) as H.
  unfold new_node_recs in H. rewrite length_new_recs, live_new_recs, sort_sorted in H by done. by apply H.
Qed.

Lemma data_len_perm kvs kvs' : kvs ≡ₚ kvs' -> data_len kvs = data_len kvs'.
Proof. induction 1; cbn [data_len foldr]; unfold data_len in *; lia. Qed.

Lemma fits_perm kvs kvs' : kvs ≡ₚ kvs' -> fits_node kvs -> fits_node kvs'.
Proof. intros Hp. unfold fits_node. by rewrite (data_len_perm _ _ Hp), (Permutation_length Hp). Qed.

Lemma data_len_app xs ys : data_len (xs ++ ys) = data_len xs + data_len ys.
Proof. induction xs as [|x xs IH]; [done|]. cbn [app data_len foldr]. unfold data_len in *. lia. Qed.

Lemma fits_app xs ys : fits_node (xs ++ ys) -> fits_node xs /\ fits_node ys.
Proof.
  unfold fits_node, sizeof_NodeMetadata. rewrite data_len_app, length_app. pose proof (data_len_nonneg xs).
  pose proof (data_len_nonneg ys). lia.
Qed.

Lemma sorted_live rs : merge_sort key_le (live rs) ≡ₚ live rs /\ Sorted key_le (merge_sort key_le (live rs)).
Proof. split; [apply merge_sort_Permutation|]. apply Sorted_merge_sort; apply _. Qed.

(** ** Splitting *)

Lemma tkl_app xs ys : total_key_len (xs ++ ys) = total_key_len xs + total_key_len ys.
Proof. induction xs as [|x xs IH]; [done|]. cbn [app total_key_len foldr]. unfold total_key_len in *. lia. Qed.
Lemma tkl_nonneg xs : 0 <= total_key_len xs.
Proof. induction xs as [|x xs IH]; [done|]. cbn [total_key_len foldr]. unfold total_key_len in *. lia. Qed.

Lemma pivot_spec kvs : forall seen total k,
  (k <= pivot kvs seen total k <= k + length kvs)%nat /\
  (forall j, (k + j < pivot kvs seen total k)%nat -> (0 < j)%nat -> 2 * (seen + total_key_len (take j kvs)) <= total) /\
  ((pivot kvs seen total k < k + length kvs)%nat ->
   total < 2 * (seen + total_key_len (take (pivot kvs seen total k - k) kvs)) /\ (k < pivot kvs seen total k)%nat).
Proof.
  induction kvs as [|[key v] kvs IH]; intros seen total k; cbn [pivot length].
  { split_and!; lia. }
  set (seen' := seen + Z.of_nat (length key)).
  assert (forall j, seen + total_key_len (take (S j) ((key, v) :: kvs)) = seen' + total_key_len (take j kvs)) as Ej
    by (intros j; unfold total_key_len, seen'; simpl; lia).
  destruct (Z.ltb_spec total (seen' + seen')) as [Hlt|Hge].
  - split_and!; [lia|lia| |].
    + intros j Hj H0. lia.
    + intros _. split; [|lia]. replace (S k - k)%nat with 1%nat by lia. rewrite (Ej O). unfold total_key_len. simpl. lia.
  - destruct (IH seen' total (S k)) as (I1 & I2 & I3). split_and!; [lia|lia| |].
    + intros [|j] Hj H0; [lia|]. rewrite Ej. destruct j as [|j]; [unfold total_key_len; simpl; lia|].
      apply I2; lia.
    + intros Hlt. destruct I3 as [I3 I4]; [lia|]. split; [|lia].
      replace (pivot kvs seen' total (S k) - k)%nat with (S (pivot kvs seen' total (S k) - S k)) by lia.
      by rewrite Ej.
Qed.

(** The scan for the middle passes the end exactly when the last key is at least as long
    as all the others together. *)
Lemma pivot_end kvs :
  (1 < length kvs)%nat ->
  (pivot kvs 0 (total_key_len kvs) 0 = length kvs <-> 2 * total_key_len (removelast kvs) <= total_key_len kvs).
Proof.
  intros Hl. destruct (pivot_spec kvs 0 (total_key_len kvs) 0) as (B & L & G).
  rewrite removelast_firstn_len. set (n := pred (length kvs)). split.
  - intros E. specialize (L n). replace (0 + n)%nat with n in L by done. rewrite E in L. apply L; lia.
  - intros Hle. destruct (decide (pivot kvs 0 (total_key_len kvs) 0 = length kvs)) as [|Hne]; [done|].
    destruct G as [G _]; [lia|]. rewrite Nat.sub_0_r in G. set (k := pivot kvs 0 (total_key_len kvs) 0) in *.
    assert (take n kvs = take k kvs ++ take (n - k) (drop k kvs)) as E.
    { rewrite <- (take_drop k (take n kvs)) at 1. rewrite take_take, skipn_firstn_comm. f_equal. f_equal. lia. }
    rewrite E, tkl_app in Hle. pose proof (tkl_nonneg (take (n - k) (drop k kvs))). lia.
Qed.

(** Where the records are divided. *)
Definition sep_of (sorted : list pair_bytes) : nat :=
  let sep := pivot sorted 0 (total_key_len sorted) 0 in
  if (S sep =? length sorted)%nat then pred sep else sep.

Lemma sep_of_bounds kvs :
  (2 < length kvs)%nat -> total_key_len kvs < 2 * total_key_len (removelast kvs) -> (0 < sep_of kvs < length kvs)%nat.
Proof.
  intros Hl Ht. pose proof (pivot_end kvs ltac:(lia)) as He.
  destruct (pivot_spec kvs 0 (total_key_len kvs) 0) as (B & _ & G). unfold sep_of.
  assert (pivot kvs 0 (total_key_len kvs) 0 <> length kvs) as Hne by (rewrite He; lia).
  destruct (Nat.eqb_spec (S (pivot kvs 0 (total_key_len kvs) 0)) (length kvs)); [lia|]. split; [|lia]. apply G. lia.
Qed.

Definition back_key (kvs : list pair_bytes) : bytes := default [] (fst <$> last kvs).

Lemma mev_last_key kvs c : kvs <> [] -> mev (last_key kvs) c (back_key kvs) c.
Proof.
  intros H. unfold last_key, back_key. destruct (last kvs) as [kv|] eqn:E; [apply mev_ret|].
  by apply last_None in E.
Qed.

Lemma back_key_cons kv kvs : kvs <> [] -> back_key (kv :: kvs) = back_key kvs.
Proof. intros H. unfold back_key. rewrite last_cons. by destruct kvs as [|x l]; [|rewrite last_cons; destruct (last l)]. Qed.

Lemma sorted_back_key kvs kv : Sorted key_le kvs -> kv ∈ kvs -> bytes_cmp kv.1 (back_key kvs) <> Gt.
Proof.
  intros Hs Hin. destruct kvs as [|x kvs _] using rev_ind; [set_solver|]. unfold back_key. rewrite last_snoc. cbn.
  apply Sorted_StronglySorted in Hs; [|apply _]. apply StronglySorted_app in Hs as (H1 & _ & _).
  apply elem_of_app in Hin as [Hin|Hin]; [by apply H1; [|set_solver]|].
  apply list_elem_of_singleton in Hin as ->. by rewrite (proj2 (bytes_cmp_eq x.1 x.1) eq_refl).
Qed.

(** ** Compaction *)

(** What a node's records are copied out as. *)
Definition in_key_order (rs : list rec) : list pair_bytes := merge_sort key_le (live rs).

(** C10.  Compacting a node whose visible records have distinct keys builds a new node whose
    records are exactly those pairs in key order: copying it out again gives the same
    list as copying out the original, all of its records are visible, its counters
    describe them, and no other memory changes. *)
Theorem node_compact_correct c node t sw rs :
  node_has c (D_RW node) sw rs -> NoDup (live rs).*1 -> fits_node (live rs) -> allocates BZTREE_NODE_SIZE c t ->
  (length rs < fuel)%nat ->
  exists c', let kvs := in_key_order rs in
    mev (node_compact fuel node) c t c' /\ c ⊆ c' /\
    node_has c' (D_RW t) (new_sw kvs) (new_node_recs kvs) /\ live (new_node_recs kvs) = kvs /\
    kvs ≡ₚ live rs /\ Sorted key_le kvs /\ mev (copy_out fuel node) c kvs c /\ mev (copy_out fuel t) c' kvs c'.
Proof.
  intros Hn Hnd Hfit Hal Hf. unfold in_key_order. destruct (sorted_live rs) as [Hp Hs]. set (kvs := merge_sort key_le (live rs)) in *.
  pose proof (mev_copy_out fuel c node sw rs Hn Hf) as Eo. fold kvs in Eo.
  destruct (mev_new_node kvs c t Hal) as (c' & E & N & S); [by eapply fits_perm|].
  exists c'. cbn zeta. split_and!; try done.
  - unfold node_compact. by eapply mev_bind.
  - apply N.
  - apply live_new_recs.
  - eapply copy_out_new; [done| |done|].
    + by rewrite Hp.
    + apply Permutation_length in Hp. rewrite Hp. unfold live. rewrite length_fmap.
      pose proof (length_filter (fun r => visible (r_md r) = true) rs). lia.
Qed.

(** ** Splitting *)

(** The records of the parent, if there is one, among which one points to [node]. *)
Definition parent_has (c : gmap Z Z) (parent : option TOID) (node : TOID) (pk : option (list pair_bytes)) : Prop :=
  match parent, pk with
  | None, None => True
  | Some p, Some kvs =>
      (exists sw rs, node_has c (D_RW p) sw rs /\ (length rs < fuel)%nat /\ kvs = merge_sort key_le (live rs)) /\
      (index_of (points_to node) kvs < length kvs)%nat
  | _, _ => False
  end.

(** In the new parent the record of the node is replaced by two. *)
Definition split_records (pk : option (list pair_bytes)) (node : TOID) (lk rk : bytes) (lp rp : TOID) : list pair_bytes :=
  match pk with
  | None => [(lk, off_bytes lp); (rk, off_bytes rp)]
  | Some kvs =>
      let i := index_of (points_to node) kvs in
      take i kvs ++ [(lk, off_bytes lp); (rk, off_bytes rp)] ++ drop (S i) kvs
  end.

Lemma insert_after {A} i (x y : A) l : (i < length l)%nat -> insert_at (S i) y (<[i := x]> l) = take i l ++ [x; y] ++ drop (S i) l.
Proof.
  intros Hi. unfold insert_at. rewrite drop_insert_lt by lia.
  rewrite (take_S_r _ _ x) by (by apply list_lookup_insert_eq). rewrite take_insert_ge by lia. by rewrite <- app_assoc.
Qed.

Lemma mev_split_parent c c' parent node pk lk rk lp rp :
  parent_has c parent node pk -> c ⊆ c' ->
  mev (split_parent fuel parent node lk rk lp rp) c' (split_records pk node lk rk lp rp) c'.
Proof.
  intros Hp Hs. destruct parent as [p|], pk as [kvs|]; try done; [|apply mev_ret].
  destruct Hp as ((sw & rs & Hn & Hf & ->) & Hi). unfold split_parent.
  eapply mev_bind; [eapply mev_copy_out; [by eapply node_has_mono|done]|].
  eapply mev_bind; [apply mev_check; by apply negb_true_iff, Nat.eqb_neq; lia|].
  rewrite insert_after by done. apply mev_ret.
Qed.

(** What a split of [node] does when it succeeds. *)
Lemma mev_node_split X good sizes c parent pk node sw rs :
  let sorted := merge_sort key_le (live rs) in
  let left := take (sep_of sorted) sorted in
  let right := drop (sep_of sorted) sorted in
  let records := split_records pk node (back_key left) (back_key right) in
  node_has c (D_RW node) sw rs -> (length rs < fuel)%nat -> fits_node (live rs) ->
  parent_has c parent node pk -> served X good (replicate 3 BZTREE_NODE_SIZE ++ sizes) c ->
  (2 < length sorted)%nat -> total_key_len sorted < 2 * total_key_len (removelast sorted) ->
  (forall l r, fits_node (records l r)) ->
  left <> [] /\ right <> [] /\
  exists c' p l r, mev (node_split fuel parent node) c (p, (l, r)) c' /\ grown c c' [l; r; p] /\
    new_node c' l left /\ new_node c' r right /\ new_node c' p (records l r) /\
    Forall (good BZTREE_NODE_SIZE) [l; r; p] /\ served X good sizes c'.
Proof.
  intros sorted left right records Hn Hf Hfit Hp Hroom Hlen Htot Hrec.
  destruct (sep_of_bounds sorted Hlen Htot) as [B1 B2]. destruct (sorted_live rs) as [Hperm _]. fold sorted in Hperm.
  assert (left <> []) as Hl.
  { intros E. apply (f_equal length) in E. unfold left in E. rewrite length_take in E. simpl in E. lia. }
  assert (right <> []) as Hr.
  { intros E. apply (f_equal length) in E. unfold right in E. rewrite length_drop in E. simpl in E. lia. }
  split; [done|]. split; [done|].
  assert (fits_node left /\ fits_node right) as [Fl Fr].
  { apply fits_app. unfold left, right. rewrite take_drop. by eapply fits_perm. }
  destruct (mev_new_nodes left c X good _ Hroom Fl) as (l & c1 & E1 & N1 & S1 & G1 & A1).
  destruct (mev_new_nodes right c1 X good _ A1 Fr) as (r & c2 & E2 & N2 & S2 & G2 & A2).
  destruct (mev_new_nodes (records l r) c2 X good _ A2 (Hrec l r)) as (p & c3 & E3 & N3 & S3 & G3 & A3).
  pose proof (grown_sub _ _ _ S1) as M1. pose proof (grown_sub _ _ _ S2) as M2. pose proof (grown_sub _ _ _ S3) as M3.
  exists c3, p, l, r. split; [|split; [|split; [|split; [|split; [|split]]]]].
  - unfold node_split. eapply mev_bind; [by eapply mev_copy_out|]. fold sorted.
    eapply mev_bind; [apply mev_check; by apply Nat.ltb_lt|]. cbn zeta.
    eapply mev_bind.
    { apply mev_check, negb_true_iff, Nat.eqb_neq. rewrite pivot_end by lia. lia. }
    fold (sep_of sorted). fold left right.
    eapply mev_bind; [exact E1|]. eapply mev_bind; [exact E2|].
    eapply mev_bind; [by apply mev_last_key|]. eapply mev_bind; [by apply mev_last_key|].
    rewrite back_key_cons by done.
    eapply mev_bind; [eapply mev_split_parent; [exact Hp|by etransitivity]|].
    eapply mev_bind; [exact E3|]. apply mev_ret.
  - exact (grown_trans _ _ _ _ _ S1 (grown_trans _ _ _ _ _ S2 S3)).
  - eapply new_node_mono; [|exact N1]. by etransitivity.
  - by eapply new_node_mono.
  - done.
  - by repeat constructor.
  - done.
Qed.

(** C8.  Splitting a node of distinct keys: with at most two live records, or with a last key
    at least as long as all the others together, an assertion stops it; otherwise, if
    the parent's records still fit in a node with the new one among them, it builds a
    left and a right node that hold the sorted records in two non-empty parts, and a
    parent, new or made from the old one, in which the two nodes take the place of the
    node under their greatest keys; the left separator is below every right key. (That
    the parent has the space is not ensured by the code, see
    BzScenarios.split_overflows_parent.) *)
Theorem node_split_correct c parent pk node sw rs :
  let sorted := merge_sort key_le (live rs) in
  let left := take (sep_of sorted) sorted in
  let right := drop (sep_of sorted) sorted in
  let records := split_records pk node (back_key left) (back_key right) in
  node_has c (D_RW node) sw rs -> (length rs < fuel)%nat -> NoDup (live rs).*1 -> fits_node (live rs) ->
  parent_has c parent node pk -> roomy ->
  ((length sorted <= 2)%nat -> mfails (node_split fuel parent node) c "assert(sorted.size() > 2)") /\
  ((2 < length sorted)%nat -> 2 * total_key_len (removelast sorted) <= total_key_len sorted ->
   mfails (node_split fuel parent node) c "assert(sep != sorted.end())") /\
  ((2 < length sorted)%nat -> total_key_len sorted < 2 * total_key_len (removelast sorted) ->
   (forall l r, fits_node (records l r)) ->
   left <> [] /\ right <> [] /\ left ++ right ≡ₚ live rs /\
   (forall kv, kv ∈ left -> bytes_cmp kv.1 (back_key left) <> Gt) /\
   (forall kv, kv ∈ right -> bytes_lt (back_key left) kv.1 /\ bytes_cmp kv.1 (back_key right) <> Gt) /\
   exists c' p l r, mev (node_split fuel parent node) c (p, (l, r)) c' /\ c ⊆ c' /\
     new_node c' l left /\ new_node c' r right /\ new_node c' p (records l r)).
Proof.
  intros sorted left right records Hn Hf Hnd Hfit Hp Hroom.
  destruct (sorted_live rs) as [Hperm Hsort]. fold sorted in Hperm, Hsort.
  split; [|split].
  - intros Hlen. eapply mfails_bind; [by eapply mev_copy_out|]. apply mfails_check. by apply Nat.ltb_ge.
  - intros Hlen Htot. eapply mfails_bind; [by eapply mev_copy_out|]. fold sorted.
    eapply mfails_bind; [apply mev_check; by apply Nat.ltb_lt|]. cbn zeta. apply mfails_check.
    apply negb_false_iff, Nat.eqb_eq. by rewrite pivot_end by lia.
  - intros Hlen Htot Hrec.
    destruct (mev_node_split (fun _ => False) (fun _ _ => True) [] c parent pk node sw rs Hn Hf Hfit Hp (roomy_served 3 Hroom c) Hlen Htot Hrec)
      as (Hl & Hr & c' & p & l & r & Ev & G & N1 & N2 & N3 & _).
    fold sorted in Hl, Hr, Ev, N1, N2, N3. fold left right in Hl, Hr, N1, N2, N3. apply grown_sub in G.
    assert (exists c' p l r, mev (node_split fuel parent node) c (p, (l, r)) c' /\ c ⊆ c' /\
      new_node c' l left /\ new_node c' r right /\ new_node c' p (records l r)) as H by (by exists c', p, l, r).
    assert (left ++ right = sorted) as Ecat by apply take_drop.
    assert (StronglySorted key_le (left ++ right)) as HSS.
    { rewrite Ecat. apply Sorted_StronglySorted; [apply _|done]. }
    apply StronglySorted_app in HSS as (Hcross & HSl & HSr).
    split_and!; [done|done|by rewrite Ecat| | |exact H].
    + intros kv Hkv. apply sorted_back_key; [by apply StronglySorted_Sorted|done].
    + intros kv Hkv. split; [|apply sorted_back_key; [by apply StronglySorted_Sorted|done]].
      unfold back_key. destruct (last left) as [x|] eqn:Ex; [|by apply last_None in Ex]. cbn.
      assert (x ∈ left) as Hx by (apply list_elem_of_lookup; exists (pred (length left)); by rewrite <- last_lookup).
      apply key_le_strict; [by apply Hcross|]. intros E.
      assert (NoDup (left ++ right).*1) as Hnd' by (by rewrite Ecat, Hperm).
      rewrite fmap_app in Hnd'. apply NoDup_app in Hnd' as (_ & Hd & _).
      apply (Hd x.1); [by apply list_elem_of_fmap_2|]. rewrite E. by apply list_elem_of_fmap_2.
Qed.

(** ** Merging *)

(** In the new parent the records of the two nodes become one, under the right key. *)
Definition merge_records (pk : list pair_bytes) (left new : TOID) : list pair_bytes :=
  let i := index_of (points_to left) pk in
  take i pk ++ [(default [] (fst <$> pk !! S i), off_bytes new)] ++ drop (S (S i)) pk.

Lemma erase_before {A} i (x : A) l : (S i < length l)%nat -> erase_at i (<[S i := x]> l) = take i l ++ [x] ++ drop (S (S i)) l.
Proof.
  intros Hi. unfold erase_at. rewrite take_insert_ge, drop_insert_ge, Nat.sub_diag by lia. f_equal.
  destruct (lookup_lt_is_Some_2 l (S i) Hi) as [y Hy]. by rewrite (drop_S l y (S i) Hy).
Qed.

(** What a merge does when the left node is there and is not the last. *)
Lemma mev_node_merge X good sizes c parent left right psw lsw rsw prs lrs rrs :
  let pk := merge_sort key_le (live prs) in
  let kvs := merge_sort key_le (live lrs) ++ merge_sort key_le (live rrs) in
  node_has c (D_RW parent) psw prs -> node_has c (D_RW left) lsw lrs -> node_has c (D_RW right) rsw rrs ->
  (length prs < fuel)%nat -> (length lrs < fuel)%nat -> (length rrs < fuel)%nat ->
  served X good (replicate 2 BZTREE_NODE_SIZE ++ sizes) c -> fits_node kvs -> (forall t, fits_node (merge_records pk left t)) ->
  (S (index_of (points_to left) pk) < length pk)%nat ->
  exists c' p n, mev (node_merge fuel parent left right) c (p, n) c' /\ grown c c' [n; p] /\
    new_node c' n kvs /\ new_node c' p (merge_records pk left n) /\
    Forall (good BZTREE_NODE_SIZE) [n; p] /\ served X good sizes c'.
Proof.
  intros pk kvs Hp Hl Hr Fp Fl Fr Hroom Hfit Hrec Hi.
  destruct (mev_new_nodes kvs c X good _ Hroom Hfit) as (n & c1 & E1 & N1 & S1 & G1 & A1).
  destruct (mev_new_nodes (merge_records pk left n) c1 X good _ A1 (Hrec n)) as (p & c2 & E2 & N2 & S2 & G2 & A2).
  exists c2, p, n. split; [|split; [|split; [|split; [done|split; [by repeat constructor|done]]]]].
  - do 3 (eapply mev_bind; [by eapply mev_copy_out|]). cbn zeta. fold pk.
    eapply mev_bind; [apply mev_check, negb_true_iff, Nat.eqb_neq; lia|].
    eapply mev_bind; [exact E1|]. destruct (lookup_lt_is_Some_2 pk _ Hi) as [kv Hkv]. rewrite Hkv.
    rewrite erase_before by done. unfold merge_records in E2. rewrite Hkv in E2.
    eapply mev_bind; [exact E2|]. apply mev_ret.
  - exact (grown_trans _ _ _ _ _ S1 S2).
  - eapply new_node_mono; [by eapply grown_sub|done].
Qed.

(** C11.  Merging two siblings whose records fit in one node, as do those of the parent after
    it: a left node that the parent does not point to, and a left node that is the last
    child, stop it; otherwise the new child holds the sorted records of both, in key
    order when the left keys precede the right ones, the new parent points to it under
    the right key in place of the two, and its other records are as they were. *)
Theorem node_merge_correct c parent left right psw lsw rsw prs lrs rrs :
  let pk := merge_sort key_le (live prs) in
  let lk := merge_sort key_le (live lrs) in
  let rk := merge_sort key_le (live rrs) in
  let i := index_of (points_to left) pk in
  node_has c (D_RW parent) psw prs -> node_has c (D_RW left) lsw lrs -> node_has c (D_RW right) rsw rrs ->
  (length prs < fuel)%nat -> (length lrs < fuel)%nat -> (length rrs < fuel)%nat ->
  roomy -> fits_node (lk ++ rk) -> (forall t, fits_node (merge_records pk left t)) ->
  (i = length pk -> mfails (node_merge fuel parent left right) c "assert(i != parent_kv.end())") /\
  (S i = length pk -> mfails (node_merge fuel parent left right) c "access past the end of a vector") /\
  ((S i < length pk)%nat ->
   exists c' p n, mev (node_merge fuel parent left right) c (p, n) c' /\ c ⊆ c' /\
     new_node c' n (lk ++ rk) /\ new_node c' p (merge_records pk left n) /\
     ((forall x y, x ∈ lk -> y ∈ rk -> key_le x y) -> Sorted key_le (lk ++ rk))).
Proof.
  intros pk lk rk i Hp Hl Hr Fp Fl Fr Hroom Hfit Hrec.
  destruct (Hroom c) as [n An]. destruct (mev_new_node (lk ++ rk) c n An Hfit) as (c1 & E1 & N1 & S1).
  assert (forall b, b = negb (i =? length pk)%nat -> b = true -> mev (check b "assert(i != parent_kv.end())") c tt c) as Hc
    by (intros b _ ->; by apply mev_check).
  split; [|split].
  - intros Hi. do 3 (eapply mfails_bind; [by eapply mev_copy_out|]). cbn zeta. apply mfails_check.
    by apply negb_false_iff, Nat.eqb_eq.
  - intros Hi. do 3 (eapply mfails_bind; [by eapply mev_copy_out|]). cbn zeta.
    eapply mfails_bind; [apply mev_check; apply negb_true_iff, Nat.eqb_neq; fold pk; unfold i in Hi; lia|].
    eapply mfails_bind; [exact E1|]. fold pk i. rewrite lookup_ge_None_2 by lia. by intros pc mm.
  - intros Hi. destruct (mev_node_merge (fun _ => False) (fun _ _ => True) [] c parent left right psw lsw rsw prs lrs rrs Hp Hl Hr Fp Fl Fr
      (roomy_served 2 Hroom c) Hfit Hrec Hi) as (c' & p & q & E & G & N2 & N3 & _).
    exists c', p, q. split_and!; [done|by eapply grown_sub|done|done|].
    + intros Hcross. apply StronglySorted_Sorted, StronglySorted_app. split; [done|].
      split; apply Sorted_StronglySorted; try apply _; apply sorted_live.
Qed.
End smo.

(** ** Examples *)

(** A node made of [kvs] in the memory [c], on the bump allocator. *)
Definition built (kvs : list pair_bytes) (c : gmap Z Z) : TOID * gmap Z Z :=
  match run (copy_in (H0 := bump) kvs) (MkMem c ∅ metrics_off) with
  | (Done t, s) => (t, cells s)
  | (_, s) => (TOID_NULL, cells s)
  end.

Lemma built_node kvs c : fits_node kvs -> new_node (HM := bump) (built kvs c).2 (built kvs c).1 kvs /\ c ⊆ (built kvs c).2.
Proof.
  intros Hf. destruct (bump_roomy c) as [t Ht]. destruct (mev_new_node (HM := bump) kvs c t Ht Hf) as (c' & E & N & S).
  destruct (E ∅ metrics_off) as [pc R]. unfold built. rewrite R. done.
Qed.

(** A key or value of one character, with its terminator. *)
Definition c1 (z : Z) : bytes := [byte_of z; NUL].
Definition abc : list pair_bytes := [(c1 98, c1 1); (c1 97, c1 2); (c1 99, c1 3)].

#[local] Instance bump_pmdk : Pmdk := bump.

Lemma node_compact_correct_witness :
  exists c', (3 < 4)%nat /\ mev (node_compact 4 (built abc ∅).1) (built abc ∅).2 (built [] (built abc ∅).2).1 c'.
Proof.
  destruct (built_node abc ∅) as [[_ Hn _ _ _] _]; [done|].
  destruct (node_compact_correct 4 (built abc ∅).2 (built abc ∅).1 (built [] (built abc ∅).2).1 _ _ Hn) as (c' & H & _).
  - unfold new_node_recs. rewrite live_new_recs. apply (bool_decide_unpack _). vm_compute. exact I.
  - unfold new_node_recs. by rewrite live_new_recs.
  - vm_compute. reflexivity.
  - vm_compute. lia.
  - exists c'. split; [lia|exact H].
Defined.

(** The root of a tree with the records [abc] is split. *)
Lemma node_split_correct_witness :
  exists c' p l r, mev (node_split 4 None (built abc ∅).1) (built abc ∅).2 (p, (l, r)) c' /\
    new_node c' p [(c1 97, off_bytes l); (c1 99, off_bytes r)].
Proof.
  destruct (built_node abc ∅) as [[_ Hn _ _ _] _]; [done|].
  destruct (node_split_correct 4 (built abc ∅).2 None None (built abc ∅).1 _ _ Hn) as (_ & _ & H).
  - vm_compute. lia.
  - unfold new_node_recs. rewrite live_new_recs. apply (bool_decide_unpack _). vm_compute. exact I.
  - unfold new_node_recs. by rewrite live_new_recs.
  - done.
  - exact bump_roomy.
  - destruct H as (_ & _ & _ & _ & _ & c' & p & l & r & E & _ & _ & _ & Hp).
    + vm_compute. lia.
    + vm_compute. reflexivity.
    + intros l r. unfold new_node_recs. rewrite live_new_recs. vm_compute. congruence.
    + exists c', p, l, r. split; [exact E|exact Hp].
Defined.

(** A parent of two children, merged. *)
Lemma built_as p kvs c : p = built kvs c -> fits_node kvs -> new_node p.2 p.1 kvs /\ c ⊆ p.2.
Proof. intros ->. apply built_node. Qed.

Definition left_child := built [(c1 97, c1 1)] ∅.
Definition right_child := built [(c1 98, c1 2)] left_child.2.
Definition their_parent := built [(c1 97, off_bytes left_child.1); (c1 98, off_bytes right_child.1)] right_child.2.

Lemma left_ok : new_node left_child.2 left_child.1 [(c1 97, c1 1)].
Proof. apply (built_as _ _ ∅ eq_refl). vm_compute. congruence. Qed.
Lemma right_ok : new_node right_child.2 right_child.1 [(c1 98, c1 2)] /\ left_child.2 ⊆ right_child.2.
Proof. apply (built_as _ _ _ eq_refl). vm_compute. congruence. Qed.
Lemma parent_ok :
  new_node their_parent.2 their_parent.1 [(c1 97, off_bytes left_child.1); (c1 98, off_bytes right_child.1)] /\
  right_child.2 ⊆ their_parent.2.
Proof. apply (built_as _ _ _ eq_refl). vm_compute. congruence. Qed.
Lemma node_merge_correct_witness :
  exists c' p n, mev (node_merge 3 their_parent.1 left_child.1 right_child.1) their_parent.2 (p, n) c' /\
    new_node c' n [(c1 97, c1 1); (c1 98, c1 2)] /\ new_node c' p [(c1 98, off_bytes n)].
Proof.
  pose proof left_ok as Nl. destruct right_ok as [Nr Sr]. destruct parent_ok as [[_ Np _ _ _] Sp].
  apply (new_node_mono _ their_parent.2) in Nl as [_ Nl _ _ _]; [|transitivity right_child.2; assumption].
  apply (new_node_mono _ their_parent.2) in Nr as [_ Nr _ _ _]; [|assumption].
  destruct (node_merge_correct 3 _ _ _ _ _ _ _ _ _ _ Np Nl Nr) as (_ & _ & H).
  - vm_compute. lia.
  - vm_compute. lia.
  - vm_compute. lia.
  - exact bump_roomy.
  - vm_compute. congruence.
  - intros t. vm_compute. congruence.
  - destruct H as (c' & p & n & E & _ & Hn & Hp & _); [vm_compute; lia|].
    exists c', p, n. split; [exact E|]. split.
    + refine (eq_ind _ (new_node c' n) Hn _ _). vm_compute. reflexivity.
    + refine (eq_ind _ (new_node c' p) Hp _ _). vm_compute. reflexivity.
Defined.
