(* ===== verification/BzTree.v ===== *)
(** * The BzTree (src/bztree/bztree.cc, bztree_helpers.cc)

    A B+-tree in persistent memory whose every change is a multi-word CAS.  The code runs
    in the world of Descriptor.v; [assert] is in force, as in a debug build. *)
From Stdlib Require Import ZArith Lia Ascii.
From stdpp Require Import base list gmap strings.
From S2P Require Import Prelude Bytes Prog Status Hash Library Epoch Garbage Metrics Memory Descriptor MwCAS Target Pool BzNode.
#[local] Open Scope Z_scope.
#[local] Open Scope machine_scope.
#[local] Open Scope prog_scope.

Definition POOL_SIZE : Z := 1000.
Definition POOL_THREADS : Z := 10.
Definition GLOBAL_EPOCH_OFFSET_BIT : Z := 2 ^ 27.

(** The process's view of a tree: addresses of the PMDK pool, the epoch manager, the
    garbage list and the descriptor pool, and the global epoch. *)
Record BzTree := MkBzTree { pop : Z; epoch : Z; garbage : Z; bz_desc_pool : Z; global_epoch : Z }.

(** [BzPMDKRootObj] at [r] and [BzPMDKMetadata] at [md]. *)
Definition sizeof_RootObj : Z := 32.
Definition root_metadata (r : Z) : Z := r.
Definition root_desc_pool (r : Z) : Z := r + 16.
Definition sizeof_Metadata : Z := 32.
Definition md_root_node (md : Z) : Z := md.
Definition md_height (md : Z) : Z := md + 16.
Definition md_global_epoch (md : Z) : Z := md + 24.

Definition DestroyNode_ptr : Z := 4.

Section tree.
Context `{Platform} `{Pmdk} (me : Z) (fuel depth : nat).

Definition assert_ok (p : prog World Status) (msg : string) : prog World unit :=
  let! s := p in check (Status_ok s) msg.

(** [TOID_ASSIGN(ptr_cpy, pmemobj_oid(p)); POBJ_FREE(&ptr_cpy)]: the copy is local. *)
Definition DestroyNode (destroyContext p : Z) : prog Mem unit := upd (pmemobj_free (pmemobj_oid p)).
Definition bz_destroy (callback context object : Z) : prog Mem unit :=
  if callback =? DestroyNode_ptr then DestroyNode context object else destroy callback context object.

Definition POBJ_ROOT (size : Z) : prog Mem TOID := act (pmemobj_root size).
Definition root_object : prog Mem Z := let! r := POBJ_ROOT sizeof_RootObj in Ret (D_RW r).

Definition get_metadata : prog World Z :=
  mem (let! r := root_object in let! t := load_toid (root_metadata r) in Ret (D_RW t)).

Section instance.
Context (t : BzTree).

Definition bz_protect : prog World unit :=
  assert_ok (zoom (Protect me fuel (epoch t))) "assert(epoch.Protect().ok())".
Definition bz_unprotect : prog World unit :=
  assert_ok (zoom (Unprotect me fuel (epoch t))) "assert(epoch.Unprotect().ok())".
Definition push_garbage (p : Z) : prog World unit :=
  assert_ok (GarbageList_Push bz_destroy fuel (garbage t) p DestroyNode_ptr 0) "assert(garbage.Push(...).ok())".

(** Allocating a descriptor, its entries, and the operation. *)
Definition desc_mwcas (entries : list (Z * Z * Z)) : prog World bool :=
  let! desc := AllocateDescriptor_default me fuel (bz_desc_pool t) in
  check (negb (desc =? 0)) "assert(desc)" ;;;
  for_list entries (fun '(addr, old, new) (_ : unit) => AddEntry me fuel desc addr old new kRecycleNever ;;; Ret tt) tt ;;;
  MwCAS me fuel true depth desc.

(** [desc_add_toid]: only the offset is swapped. *)
Definition toid_entry (loc : Z) (a b : TOID) : Z * Z * Z := (loc + 8, off a, off b).

Definition freeze_entry (sw_ptr : Z) (sw_old sw : NodeHeaderStatusWord) : Z * Z * Z :=
  (sw_ptr, sw_word sw_old, sw_word (set_frozen true sw)).

(** ** swap_node *)

Definition swap_node (parent : option TOID) (node_off_ptr : Z) (old_node new_node : TOID) : prog World bool :=
  let parent_sw :=
    match parent with
    | Some p => let! sw := load_sw (D_RW p) in Ret (Some sw)
    | None => Ret None
    end in
  let is_frozen sw := match sw with Some sw => frozen sw | None => false end in
  let! sw := mem parent_sw in
  if is_frozen sw then Ret false else
  loop fuel (fun sw : option NodeHeaderStatusWord =>
    let! ok := desc_mwcas
      ((match parent, sw with
        | Some p, Some sw => [(status_word (D_RW p), sw_word sw, sw_word sw)]
        | _, _ => []
        end) ++ [(node_off_ptr, off old_node, off new_node)]) in
    if ok : bool then Ret (inr true) else
    let! now := mem (load_u64 node_off_ptr) in
    if negb (now =? off old_node) then Ret (inr false) else
    let! sw := mem parent_sw in
    if is_frozen sw then Ret (inr false) else Ret (inl sw)) sw.

(** ** Traversal *)

(** The root's own modifications; [true] asks for another traversal. *)
Definition root_smo (md : Z) : prog World bool :=
  let! md_oid := Ret (pmemobj_oid md) in
  let! root := mem (load_toid (md_root_node md)) in
  let root_sw := status_word (D_RW root) in
  let! sw := mem (load_sw (D_RW root)) in
  let root_compact := BZTREE_MAX_DELETED_SPACE <? delete_size sw in
  let! sw1 := mem (load_sw (D_RW root)) in
  let! sw2 := mem (load_sw (D_RW root)) in
  let root_split := BZTREE_NODE_SIZE <? BZTREE_MIN_FREE_SPACE + sizeof_NodeHeader + block_size sw1
                      + record_count sw2 * sizeof_NodeMetadata in
  if negb (root_compact || root_split) then Ret false else
  let! sw_old := mem (load_sw (D_RW root)) in
  let! sw := mem (load_sw (D_RW root)) in
  let! ok := desc_mwcas [freeze_entry root_sw sw_old sw] in
  if negb ok then Ret true else
  let! md_new_oid := mem (POBJ_ZNEW sizeof_Metadata) in
  let md_new := D_RW md_new_oid in
  let! h := ld (md_height md) in
  st (md_height md_new) h ;;;
  let! e := ld (md_global_epoch md) in
  st (md_global_epoch md_new) e ;;;
  let! root := mem (load_toid (md_root_node md)) in
  let! new_children :=
    (if root_compact then
       let! n := mem (node_compact fuel root) in
       mem (store_toid (md_root_node md_new) n) ;;; Ret None
     else
       let! r := mem (node_split fuel None root) in
       mem (store_toid (md_root_node md_new) r.1) ;;;
       let! h := ld (md_height md_new) in
       st (md_height md_new) (u64 (h + 1)) ;;;
       Ret (Some r.2)) in
  let! r := mem root_object in
  let! ok := desc_mwcas [toid_entry (root_metadata r) md_oid md_new_oid] in
  (if ok : bool then
     push_garbage md ;;;
     let! root := mem (load_toid (md_root_node md)) in
     push_garbage (D_RW root)
   else
     mem (POBJ_FREE md_new) ;;;
     let! root := mem (load_toid (md_root_node md_new)) in
     mem (POBJ_FREE (D_RW root)) ;;;
     match new_children with
     | Some (l, r) => mem (POBJ_FREE (D_RW l)) ;;; mem (POBJ_FREE (D_RW r))
     | None => Ret tt
     end) ;;;
  Ret true.

(** The first of [n] keys from [i] on that is not less than [key]. *)
Fixpoint first_not_less (parent : Z) (key : bytes) (n : nat) (i : Z) : prog Mem Z :=
  match n with
  | O => Ret i
  | S n =>
      let! d := load_nmd parent i in
      check (total_len d =? key_len d + 8) "assert(nmd[i].total_len == nmd[i].key_len + 8)" ;;;
      let! d := load_nmd parent i in
      let! c := strcmp_key (body parent + offset d) key in
      if 0 <=? c then Ret i else first_not_less parent key n (i + 1)
  end.

(** The address of the [i]th child's offset. *)
Definition child_off (parent i : Z) : prog Mem Z :=
  let! d := load_nmd parent i in Ret (body parent + offset d + key_len d).

(** A sibling with room for the child's records, or null. *)
Definition sibling (parent : TOID) (i child_fs : Z) : prog Mem TOID :=
  let! a := child_off (D_RW parent) i in
  let! o := load_u64 a in
  let sib := MkTOID (pool_uuid_lo parent) o in
  let! fs := free_space (status_word (D_RW sib)) in
  Ret (if child_fs + fs <? BZTREE_MIN_FREE_SPACE + BZTREE_NODE_SIZE then TOID_NULL else sib).

(** What one step down finds. *)
Record descent := MkDescent {
  d_index : Z; d_child : TOID; d_off_ptr : Z; d_fs : Z; d_left : TOID; d_right : TOID
}.

Definition descend (parent : TOID) (parent_sw : NodeHeaderStatusWord) (key : bytes) : prog Mem descent :=
  let p := D_RW parent in
  let n := record_count parent_sw in
  let! i := first_not_less p key (Z.to_nat n) 0 in
  let i := if i =? n then u16 (i - 1) else i in
  let! off_ptr := child_off p i in
  let! o := load_u64 off_ptr in
  let child := MkTOID (pool_uuid_lo parent) o in
  let! fs := free_space (status_word (D_RW child)) in
  let! lsib := (if 0 <? i then sibling parent (i - 1) fs else Ret TOID_NULL) in
  let! rsib := (if i <? n - 1 then sibling parent (i + 1) fs else Ret TOID_NULL) in
  Ret (MkDescent i child off_ptr fs lsib rsib).

Definition is_frozen (node : option TOID) : prog World bool :=
  match node with
  | Some n => let! sw := mem (load_sw (D_RW n)) in Ret (frozen sw)
  | None => Ret false
  end.

(** The three modifications of a child; each is followed by another traversal. *)
Definition child_compact (parent : TOID) (parent_sw : NodeHeaderStatusWord) (k : descent) : prog World unit :=
  let child := d_child k in
  let child_sw := status_word (D_RW child) in
  if frozen parent_sw then Ret tt else
  let! sw_old := mem (load_sw (D_RW child)) in
  let! sw := mem (load_sw (D_RW child)) in
  let! ok := desc_mwcas [freeze_entry child_sw sw_old sw] in
  if negb ok then Ret tt else
  let! new_child := mem (node_compact fuel child) in
  let! ok := swap_node (Some parent) (d_off_ptr k) child new_child in
  if ok : bool then push_garbage (D_RW child)
  else mem (unfreeze child_sw ;;; POBJ_FREE (D_RW new_child)).

Definition child_split (grandparent : option TOID) (parent_off_ptr : Z) (parent : TOID)
    (parent_sw : NodeHeaderStatusWord) (k : descent) : prog World unit :=
  let child := d_child k in
  let child_sw := status_word (D_RW child) in
  let psw := status_word (D_RW parent) in
  if frozen parent_sw then Ret tt else
  let! fz := is_frozen grandparent in
  if fz : bool then Ret tt else
  let! sw_old := mem (load_sw (D_RW child)) in
  let! sw := mem (load_sw (D_RW child)) in
  let! ok := desc_mwcas [freeze_entry child_sw sw_old sw; freeze_entry psw parent_sw parent_sw] in
  if negb ok then Ret tt else
  let! r := mem (node_split fuel (Some parent) child) in
  let '(new_parent, (new_left, new_right)) := r in
  let! ok := swap_node grandparent parent_off_ptr parent new_parent in
  if ok : bool then push_garbage (D_RW child) ;;; push_garbage (D_RW parent)
  else mem (unfreeze psw ;;; unfreeze child_sw ;;;
            POBJ_FREE (D_RW new_left) ;;; POBJ_FREE (D_RW new_right) ;;; POBJ_FREE (D_RW new_parent)).

Definition child_merge (grandparent : option TOID) (parent_off_ptr : Z) (parent : TOID)
    (parent_sw : NodeHeaderStatusWord) (k : descent) : prog World unit :=
  let '(merge_left, merge_right) :=
    if negb (TOID_IS_NULL (d_left k)) then (d_left k, d_child k) else (d_child k, d_right k) in
  let psw := status_word (D_RW parent) in
  let lsw := status_word (D_RW merge_left) in
  let rsw := status_word (D_RW merge_right) in
  if frozen parent_sw then Ret tt else
  let! fz := is_frozen grandparent in
  if fz : bool then Ret tt else
  let! sw_left := mem (load_sw (D_RW merge_left)) in
  let! sw_right := mem (load_sw (D_RW merge_right)) in
  if frozen sw_left then Ret tt else
  if frozen sw_right then Ret tt else
  if u32 (free_bytes (record_count sw_left) (block_size sw_left) + free_bytes (record_count sw_right) (block_size sw_right))
     <? BZTREE_MIN_FREE_SPACE + BZTREE_NODE_SIZE then Ret tt else
  let! ok := desc_mwcas [freeze_entry lsw sw_left sw_left; freeze_entry rsw sw_right sw_right;
                         freeze_entry psw parent_sw parent_sw] in
  if negb ok then Ret tt else
  let! r := mem (node_merge fuel parent merge_left merge_right) in
  let '(new_parent, new_child) := r in
  let! ok := swap_node grandparent parent_off_ptr parent new_parent in
  if ok : bool then
    push_garbage (D_RW merge_left) ;;; push_garbage (D_RW merge_right) ;;; push_garbage (D_RW parent)
  else mem (unfreeze lsw ;;; unfreeze rsw ;;; unfreeze psw ;;;
            POBJ_FREE (D_RW new_child) ;;; POBJ_FREE (D_RW new_parent)).

(** Whether a modification was tried. *)
Definition child_smo (grandparent : option TOID) (parent_off_ptr : Z) (parent : TOID)
    (parent_sw : NodeHeaderStatusWord) (k : descent) : prog World bool :=
  let! sw := mem (load_sw (D_RW (d_child k))) in
  if BZTREE_MAX_DELETED_SPACE <? delete_size sw then child_compact parent parent_sw k ;;; Ret true
  else if d_fs k <? BZTREE_MIN_FREE_SPACE then child_split grandparent parent_off_ptr parent parent_sw k ;;; Ret true
  else if negb (TOID_IS_NULL (d_left k)) || negb (TOID_IS_NULL (d_right k))
  then child_merge grandparent parent_off_ptr parent parent_sw k ;;; Ret true
  else Ret false.

(** The leaf, its parent unless it is the root, and its index there. *)
Definition leaf_place : Type := TOID * option TOID * Z.

(** Where the traversal stands. *)
Record position := MkPos { p_h : Z; p_parent : TOID; p_off_ptr : Z; p_grandparent : option TOID }.

Definition traverse_turn (key : bytes) (perform_smo : bool) (md : Z) (p : position)
    : prog World (position + option leaf_place) :=
  let parent := p_parent p in
  let! parent_sw := mem (load_sw (D_RW parent)) in
  let! k := mem (descend parent parent_sw key) in
  let! smo :=
    (if perform_smo then child_smo (p_grandparent p) (p_off_ptr p) parent parent_sw k else Ret false) in
  if smo : bool then Ret (inr None) else
  let! height := ld (md_height md) in
  let h := u64 (p_h p + 1) in
  if u64 (height - 1) <=? h then Ret (inr (Some (d_child k, Some parent, d_index k)))
  else Ret (inl (MkPos h (d_child k) (d_off_ptr k) (Some parent))).

Definition find_leaf_parent_smo (key : bytes) (perform_smo : bool) (md : Z) : prog World (option leaf_place) :=
  let! again := (if perform_smo then root_smo md else Ret false) in
  if again : bool then Ret None else
  let! height := ld (md_height md) in
  let! root := mem (load_toid (md_root_node md)) in
  if height =? 1 then Ret (Some (root, None, 0)) else
  loop fuel (traverse_turn key perform_smo md) (MkPos 0 root (md_root_node md + 8) None).

Definition find_leaf_parent (key : bytes) (perform_smo : bool) : prog World leaf_place :=
  loop fuel (fun _ : unit =>
    let! md := get_metadata in
    let! v := find_leaf_parent_smo key perform_smo md in
    match v with None => Ret (inl tt) | Some v => Ret (inr v) end) tt.

Definition find_leaf (key : bytes) (perform_smo : bool) : prog World TOID :=
  let! v := find_leaf_parent key perform_smo in Ret v.1.1.

(** ** Operations *)

(** Bytes of a key and a value with their terminators. *)
Definition data_size (key value : bytes) : Z := Z.of_nat (length key) + 1 + Z.of_nat (length value) + 1.

(** Copying a key and a value, terminators included, to an offset of the body. *)
Definition write_data (leaf offset klen : Z) (key value : bytes) : prog Mem unit :=
  pmemobj_memcpy_persist (body leaf + offset) (key ++ [NUL]) ;;;
  pmemobj_memcpy_persist (body leaf + offset + klen) (value ++ [NUL]).

(** [nmd[i].visible && strcmp(&leaf->body[nmd[i].offset], key.c_str()) == 0] *)
Definition record_is (leaf : Z) (key : bytes) (i : Z) : prog Mem bool :=
  let! d := load_nmd leaf i in
  if visible d then
    let! d := load_nmd leaf i in
    let! c := strcmp_key (body leaf + offset d) key in Ret (c =? 0)
  else Ret false.

(** The first visible record with [key]; the loop over the records of a leaf. *)
Definition find_record (leaf : Z) (key : bytes) : prog Mem (option Z) :=
  let! r := for_records fuel leaf (fun i (_ : unit) =>
    let! b := record_is leaf key i in if b : bool then Ret (inr i) else Ret (inl tt)) tt in
  match r with inl _ => Ret None | inr i => Ret (Some i) end.

(** No room is left for [space]: [sw.block_size + space_required > ...], on [size_t]. *)
Definition too_large (sw : NodeHeaderStatusWord) (space : Z) : bool :=
  u64 (BZTREE_NODE_SIZE - sizeof_NodeHeader - record_count sw * sizeof_NodeMetadata) <? block_size sw + space.

Definition reserved_offset : Z := global_epoch t .| GLOBAL_EPOCH_OFFSET_BIT.

(** The first operation of [insert]: one more record, its data's space, and a metadata
    entry marked as being inserted.  [recheck], which the source sets here and in the
    scan, is never read. *)
Definition insert_reserve (leaf : Z) (key value : bytes) : prog World unit :=
  let space_required := sizeof_NodeMetadata + data_size key value in
  loop fuel (fun _ : unit =>
    let! sw_old := mem (load_sw leaf) in
    if too_large sw_old space_required then
      bz_unprotect ;;; Fault "assert(false)"
    else
      let sw := set_record_count (record_count sw_old + 1)
                  (set_block_size (block_size sw_old + data_size key value) sw_old) in
      let! md_old := mem (load_nmd leaf (record_count sw_old)) in
      check (negb (visible md_old)) "assert(md.visible == 0)" ;;;
      let md := set_offset reserved_offset md_old in
      let! ok := desc_mwcas [(status_word leaf, sw_word sw_old, sw_word sw);
                             (nmd_at leaf (record_count sw_old), nmd_word md_old, nmd_word md)] in
      if ok : bool then Ret (inr tt) else Ret (inl tt)) tt.

(** From the scan on; [inl] for a retry of the whole insertion. *)
Definition insert_try (key value : bytes) (_ : unit) : prog World (unit + bool) :=
  bz_protect ;;;
  let! leaf_oid := find_leaf key true in
  let leaf := D_RW leaf_oid in
  let! found := mem (find_record leaf key) in
  match found with
  | Some _ => bz_unprotect ;;; Ret (inr false)
  | None =>
      insert_reserve leaf key value ;;;
      let! sw := mem (load_sw leaf) in
      let! md_old := mem (load_nmd leaf (record_count sw - 1)) in
      let md := set_total_len (data_size key value)
                  (set_key_len (Z.of_nat (length key) + 1) (set_offset (sizeof_body - block_size sw) md_old)) in
      mem (write_data leaf (offset md) (key_len md) key value) ;;;
      if frozen sw then bz_unprotect ;;; Ret (inl tt) else
      let! ok := desc_mwcas [(status_word leaf, sw_word sw, sw_word sw);
                             (nmd_at leaf (record_count sw - 1), nmd_word md_old, nmd_word (set_visible true md))] in
      bz_unprotect ;;;
      if ok : bool then Ret (inr true) else Ret (inl tt)
  end.

Definition BzTree_insert (key value : bytes) : prog World bool :=
  if BZTREE_MIN_FREE_SPACE <? sizeof_NodeMetadata + data_size key value then Ret false
  else loop fuel (insert_try key value) tt.

(** One turn of the inner loop of [update], on record [i]: [inl] for [continue], [inr]
    with whether to retry or the result. *)
Definition update_turn (leaf i : Z) (key value : bytes) (_ : unit) : prog World (unit + (unit + bool)) :=
  let! sw_old := mem (load_sw leaf) in
  let! nmdi_old := mem (load_nmd leaf i) in
  if negb (visible nmdi_old) || frozen sw_old then bz_unprotect ;;; Ret (inr (inl tt)) else
  let space_required := data_size key value in
  if too_large sw_old space_required then bz_unprotect ;;; Fault "assert(false)" else
  let sw := set_block_size (block_size sw_old + space_required) sw_old in
  let! ok := desc_mwcas [(status_word leaf, sw_word sw_old, sw_word sw)] in
  if negb ok then Ret (inl tt) else
  let sw' := set_delete_size (delete_size sw + total_len nmdi_old) sw in
  let nmdi := set_offset (sizeof_body - block_size sw') nmdi_old in
  check (key_len nmdi =? Z.of_nat (length key) + 1) "assert(nmdi.key_len == key.length() + 1)" ;;;
  let nmdi := set_total_len (data_size key value) nmdi in
  mem (write_data leaf (offset nmdi) (key_len nmdi) key value) ;;;
  let! ok := desc_mwcas [(status_word leaf, sw_word sw, sw_word sw');
                         (nmd_at leaf i, nmd_word nmdi_old, nmd_word nmdi)] in
  if negb ok then Ret (inl tt) else
  bz_unprotect ;;; Ret (inr (inr true)).

Definition update_try (key value : bytes) (_ : unit) : prog World (unit + bool) :=
  bz_protect ;;;
  let! leaf_oid := find_leaf key true in
  let leaf := D_RW leaf_oid in
  let! found := mem (find_record leaf key) in
  match found with
  | Some i => loop fuel (update_turn leaf i key value) tt
  | None => bz_unprotect ;;; Ret (inr false)
  end.

Definition BzTree_update (key value : bytes) : prog World bool :=
  if BZTREE_MIN_FREE_SPACE <? sizeof_NodeMetadata + data_size key value then Ret false
  else loop fuel (update_try key value) tt.

Definition BzTree_lookup (key : bytes) : prog World (option bytes) :=
  bz_protect ;;;
  let! leaf_oid := find_leaf key false in
  let leaf := D_RW leaf_oid in
  let! found := mem (find_record leaf key) in
  match found with
  | Some i =>
      let! d := mem (load_nmd leaf i) in
      let! res := mem (string_at (body leaf + offset d + key_len d)) in
      bz_unprotect ;;; Ret (Some res)
  | None => bz_unprotect ;;; Ret None
  end.

(** A successful erasure returns without [Unprotect]. *)
Definition erase_try (key : bytes) (_ : unit) : prog World (unit + bool) :=
  bz_protect ;;;
  let! leaf_oid := find_leaf key false in
  let leaf := D_RW leaf_oid in
  let! found := mem (find_record leaf key) in
  match found with
  | Some i =>
      let! sw_old := mem (load_sw leaf) in
      let! nmdi_old := mem (load_nmd leaf i) in
      if negb (visible nmdi_old) || frozen sw_old then bz_unprotect ;;; Ret (inl tt) else
      let nmdi := set_visible false (set_offset 0 nmdi_old) in
      let sw := set_delete_size (delete_size sw_old + (total_len nmdi + sizeof_NodeMetadata)) sw_old in
      let! ok := desc_mwcas [(status_word leaf, sw_word sw_old, sw_word sw);
                             (nmd_at leaf i, nmd_word nmdi_old, nmd_word nmdi)] in
      if negb ok then bz_unprotect ;;; Ret (inl tt) else Ret (inr true)
  | None => bz_unprotect ;;; Ret (inr false)
  end.

Definition BzTree_erase (key : bytes) : prog World bool := loop fuel (erase_try key) tt.

(** ** Construction and destruction *)

(** [Thread::ClearRegistry(true)] is all the destructor does. *)
Definition BzTree_delete : prog World unit :=
  zoom (upd (fun w => set_threads (Thread_ClearRegistry true (threads w)) w) : prog EpochWorld unit).

(** What is left of the object is returned. *)
Definition BzTree_destroy : prog World BzTree :=
  let! r := mem root_object in
  mem (store_toid (root_metadata r) TOID_NULL) ;;;
  let! r := mem root_object in
  mem (store_toid (root_desc_pool r) TOID_NULL) ;;;
  (if bz_desc_pool t =? 0 then Ret tt else DescriptorPool_delete) ;;;
  GarbageList_Uninitialize bz_destroy (garbage t) ;;;
  zoom (EpochManager_Uninitialize (epoch t)) ;;;
  BzTree_delete ;;;
  Ret (MkBzTree 0 (epoch t) (garbage t) 0 (global_epoch t)).
End instance.

(** [e] and [g] are the members' addresses, [pool] the allocator's PMDK pool, [env] what
    the descriptor pool is given, [pool_bytes] its size. *)
Definition BzTree_new (e g pool pool_bytes : Z) (env : pool_env) : prog World BzTree :=
  zoom (upd (set_mgr e EpochManager_new)) ;;;
  gl_write g (fun _ => GarbageList_new) ;;;
  assert_ok (zoom (EpochManager_Initialize e)) "assert(epoch.Initialize().ok())" ;;;
  assert_ok (GarbageList_Initialize g (Some e) (128 * 1024)) "assert(garbage.Initialize(&epoch).ok())" ;;;
  let! md := get_metadata in
  if md =? 0 then
    let! new_oid := mem (POBJ_ZNEW sizeof_Metadata) in
    let new := D_RW new_oid in
    let! root := mem (POBJ_ZNEW BZTREE_NODE_SIZE) in
    mem (store_toid (md_root_node new) root) ;;;
    st (md_height new) 1 ;;;
    st (md_global_epoch new) 0 ;;;
    let! desc_pool_oid := mem (POBJ_ZNEW pool_bytes) in
    let dp := D_RW desc_pool_oid in
    DescriptorPool_new dp POOL_SIZE POOL_THREADS false env ;;;
    let! r := mem root_object in
    mem (store_toid (root_metadata r) new_oid) ;;;
    mem (store_toid (root_desc_pool r) desc_pool_oid) ;;;
    Ret (MkBzTree pool e g dp 0)
  else
    let! r := mem root_object in
    let! dp := mem (load_toid (root_desc_pool r)) in
    Ret (MkBzTree pool e g (D_RW dp) 1).
End tree.
