(* ===== verification/BzLeaf.v ===== *)
(** * Leaves of the BzTree as maps

    The invariant of a leaf that is in service, the map from keys to values it stands
    for, and what searching it and writing records into it do. *)
From Stdlib Require Import ZArith Lia Ascii.
From stdpp Require Import base list gmap strings.
From S2P Require Import Prelude Bytes Prog Status Hash Library Epoch Garbage Metrics Memory Descriptor MwCAS Target Pool BzNode BzTree BzBytes BzNodeSpec.
#[local] Open Scope Z_scope.
#[local] Open Scope machine_scope.
#[local] Open Scope prog_scope.

(** ** The invariant *)

(** A key or value with its terminator. *)
Definition zstr (s : bytes) : bytes := s ++ [NUL].

Lemma zstr_inj a b : zstr a = zstr b -> a = b.
Proof. intros H. by apply app_inj_tail in H as [? _]. Qed.
Lemma length_zstr s : length (zstr s) = S (length s).
Proof. unfold zstr. rewrite length_app. simpl. lia. Qed.

Definition is_record (r : rec) (k v : bytes) : Prop :=
  visible (r_md r) = true /\ r_key r = zstr k /\ r_val r = zstr v /\ NUL ∉ k /\ NUL ∉ v.

(** The data of a visible record is in the block. *)
Definition rec_ok (bs : Z) (r : rec) : Prop :=
  visible (r_md r) = true ->
  (exists k v, is_record r k v) /\ sizeof_body - bs <= offset (r_md r) /\
  offset (r_md r) + total_len (r_md r) <= sizeof_body.

(** Space that visible records take, metadata included. *)
Definition rec_size (r : rec) : Z := if visible (r_md r) then total_len (r_md r) + sizeof_NodeMetadata else 0.
Definition live_size (rs : list rec) : Z := foldr (fun r n => rec_size r + n) 0 rs.

(** No key has two visible records. *)
Definition distinct (rs : list rec) : Prop := forall i j r s k v v',
  rs !! i = Some r -> rs !! j = Some s -> is_record r k v -> is_record s k v' -> i = j.

(** A leaf in service.  What its counter calls deleted is space that no visible record
    takes. *)
Record leaf (c : gmap Z Z) (node : Z) (sw : NodeHeaderStatusWord) (rs : list rec) : Prop := {
  lf_at : 0 < node /\ node mod 8 = 0;
  lf_has : node_has c node sw rs;
  lf_region : region c node BZTREE_NODE_SIZE;
  lf_recs i r : rs !! i = Some r -> rec_ok (block_size sw) r;
  lf_keys : distinct rs;
  lf_room : sizeof_NodeMetadata * Z.of_nat (length rs) + block_size sw <= sizeof_body;
  lf_free j : Z.of_nat (length rs) <= j -> sizeof_NodeMetadata * (j + 1) <= sizeof_body - block_size sw ->
    c !! nmd_at node j = Some 0;
  lf_sw : sw_control sw = 0 /\ frozen sw = false;
  lf_deleted : delete_size sw + live_size rs <= block_size sw + sizeof_NodeMetadata * Z.of_nat (length rs)
}.

(** The map that the visible records are. *)
Definition contents (rs : list rec) (M : gmap (list ascii) (list ascii)) : Prop :=
  forall k v, M !! k = Some v <-> exists i r, rs !! i = Some r /\ is_record r k v.

Lemma is_record_fun r k v k' v' : is_record r k v -> is_record r k' v' -> k = k' /\ v = v'.
Proof.
  intros (_ & K & V & _) (_ & K' & V' & _). rewrite K in K'. rewrite V in V'. by apply zstr_inj in K', V'.
Qed.

Lemma leaf_nmd c node sw rs i :
  leaf c node sw rs -> 0 <= i < 30 ->
  nmd_at node i mod 8 = 0 /\ node + 16 <= nmd_at node i < node + BZTREE_NODE_SIZE /\ nmd_at node i = body node + 8 * i.
Proof.
  intros [[Hpos Hal] _ _ _ _ _ _ _ _] Hi. unfold nmd_at, body, sizeof_NodeHeader, sizeof_NodeMetadata, BZTREE_NODE_SIZE.
  split; [|lia]. replace (node + 16 + 8 * i) with (node + (2 + i) * 8) by lia. by rewrite Z.mod_add.
Qed.

Lemma live_size_app rs qs : live_size (rs ++ qs) = live_size rs + live_size qs.
Proof. induction rs as [|r rs IH]; [done|]. cbn [app live_size foldr]. unfold live_size in *. lia. Qed.

Lemma live_size_insert rs i r r' : rs !! i = Some r -> live_size (<[i := r']> rs) = live_size rs - rec_size r + rec_size r'.
Proof.
  intros Hi. rewrite insert_take_drop by (by eapply lookup_lt_Some). rewrite <- (take_drop_middle rs i r Hi) at 3.
  rewrite !live_size_app. cbn [live_size foldr]. unfold live_size. lia.
Qed.

Lemma live_size_nonneg rs : (forall i r, rs !! i = Some r -> nmd_ok (r_md r)) -> 0 <= live_size rs.
Proof.
  induction rs as [|r rs IH]; intros H; [done|]. cbn [live_size foldr].
  assert (0 <= live_size rs) by (apply IH; intros j x Hx; by apply (H (S j))).
  assert (0 <= rec_size r); [|unfold live_size in *; lia].
  pose proof (ok_tlen _ (H O r eq_refl)) as [Ht _]. unfold rec_size, sizeof_NodeMetadata. destruct (visible (r_md r)); lia.
Qed.

Lemma leaf_deleted c node sw rs : leaf c node sw rs -> 0 <= delete_size sw <= sizeof_body /\ 0 <= live_size rs.
Proof.
  intros H. pose proof (lf_deleted _ _ _ _ H). pose proof (lf_room _ _ _ _ H).
  pose proof (ok_delete _ (nh_ok _ _ _ _ (lf_has _ _ _ _ H))) as [Hd _].
  pose proof (live_size_nonneg rs (fun j r Hj => proj1 (proj2 (nh_rec _ _ _ _ (lf_has _ _ _ _ H) j r Hj)))). lia.
Qed.

(** Offsets within a node. *)
Ltac node_lia := unfold status_word, nmd_at, body, sizeof_body, BZTREE_NODE_SIZE, sizeof_NodeHeader, sizeof_NodeMetadata in *; lia.

(** *** Changing a leaf *)

(** Nothing in the node changes. *)
Lemma leaf_same c c' node sw rs :
  (forall a, node <= a < node + BZTREE_NODE_SIZE -> c' !! a = c !! a) -> leaf c node sw rs -> leaf c' node sw rs.
Proof.
  intros Hs H. pose proof H as [[Hpos Hal] Hn Hr Hrec Hk Hroom Hfree Hsw Hdel].
  assert (forall i, 0 <= i < 30 -> c' !! nmd_at node i = c !! nmd_at node i) as Hnmd.
  { intros i Hi. destruct (leaf_nmd c node sw rs i H Hi) as (_ & ? & _). apply Hs. lia. }
  assert (forall i, sizeof_NodeMetadata * Z.of_nat (S i) <= sizeof_body -> Z.of_nat i < 30) as H30
    by (unfold sizeof_NodeMetadata, sizeof_body, BZTREE_NODE_SIZE, sizeof_NodeHeader; lia).
  assert (0 <= block_size sw) as Hb by apply (ok_block _ (nh_ok _ _ _ _ Hn)).
  split; try done.
  - destruct Hn as [N1 N2 N3 N4]. split; [|done|done|].
    + rewrite Hs; [done|]. unfold status_word, BZTREE_NODE_SIZE. lia.
    + intros i r Hi. destruct (N4 i r Hi) as (A & B & C). pose proof (lookup_lt_Some _ _ _ Hi) as Hlt.
      assert (Z.of_nat i < 30) by (apply H30; unfold sizeof_NodeMetadata in *; lia).
      split_and!; [by rewrite Hnmd by lia|done|]. intros Hv. destruct (C Hv) as (V & L1 & L2). split; [|done].
      destruct (Hrec i r Hi Hv) as (_ & Ho & Ht).
      eapply view_same; [|exact V]. intros x Hx. unfold byte_at. f_equal. apply Hs. unfold within in Hx.
      rewrite length_app in Hx. unfold body, sizeof_body, BZTREE_NODE_SIZE, sizeof_NodeHeader, sizeof_NodeMetadata in *.
      pose proof (Z.div_mod x 8 ltac:(lia)). pose proof (Z.mod_pos_bound x 8 ltac:(lia)).
      pose proof (Z.div_mod node 8 ltac:(lia)). lia.
  - destruct Hr as (R1 & R2 & R3). split_and!; [done|done|]. intros x Hx Hm. rewrite Hs by done. by apply R3.
  - intros j Hj Hf. rewrite Hnmd; [by apply Hfree|]. unfold sizeof_NodeMetadata, sizeof_body, BZTREE_NODE_SIZE, sizeof_NodeHeader in *. lia.
Qed.

(** A new status word, and new records in some places. *)
Lemma leaf_change c c' node sw sw' rs rs' :
  leaf c node sw rs ->
  c' !! status_word node = Some (sw_word sw') -> sw_ok sw' ->
  sw_control sw' = 0 -> frozen sw' = false ->
  delete_size sw' + live_size rs' <= block_size sw' + sizeof_NodeMetadata * Z.of_nat (length rs') ->
  record_count sw' = Z.of_nat (length rs') -> block_size sw <= block_size sw' ->
  sizeof_NodeMetadata * Z.of_nat (length rs') + block_size sw' <= sizeof_body -> (length rs <= length rs')%nat ->
  region c' node BZTREE_NODE_SIZE ->
  (forall p bs, body node + (sizeof_body - block_size sw) <= p -> p + Z.of_nat (length bs) <= body node + sizeof_body ->
     view c p bs -> view c' p bs) ->
  (forall i r, rs' !! i = Some r ->
     (rs !! i = Some r /\ c' !! nmd_at node (Z.of_nat i) = c !! nmd_at node (Z.of_nat i)) \/
     (record_at c' node i r /\ rec_ok (block_size sw') r)) ->
  (forall j, Z.of_nat (length rs') <= j -> sizeof_NodeMetadata * (j + 1) <= sizeof_body - block_size sw' ->
     c' !! nmd_at node j = c !! nmd_at node j) ->
  distinct rs' -> leaf c' node sw' rs'.
Proof.
  intros H Hsw Hok Hc Hf Hd Hcount Hb Hroom Hlen Hreg Hview Hrecs Hfree Hkeys.
  pose proof H as [Hat [N1 N2 N3 N4] _ Hrec _ Hroom0 Hfree0 _ _]. split; try done.
  - split; [done..|]. intros i r Hi. destruct (Hrecs i r Hi) as [[Hi0 Hc0]|[Hr _]]; [|done].
    destruct (N4 i r Hi0) as (A & B & C). split_and!; [by rewrite Hc0|done|]. intros Hv.
    destruct (C Hv) as (V & L). split; [|done]. destruct (Hrec i r Hi0 Hv) as (_ & Ho & Ht). apply Hview; [lia| |done]. rewrite length_app. lia.
  - intros i r Hi. destruct (Hrecs i r Hi) as [[Hi0 _]|[_ Hr]]; [|done].
    intros Hv. destruct (Hrec i r Hi0 Hv) as (Hk & Ho & Ht). split_and!; [done|lia|done].
  - intros j Hj Hr. rewrite Hfree by done. apply Hfree0; lia.
Qed.

(** Data written into the part of the block that no record uses: the block was [old]
    bytes long when the records were made. *)
Lemma leaf_written c c' node sw rs old off bs :
  leaf c node sw rs -> (forall i r, rs !! i = Some r -> rec_ok old r) ->
  sizeof_body - block_size sw <= off -> off + Z.of_nat (length bs) <= sizeof_body - old -> 0 <= old ->
  written (body node + off) bs c c' -> leaf c' node sw rs.
Proof.
  intros H Hold Hlo Hhi Hold0 Hw. pose proof H as [[Hpos Hal] [N1 N2 N3 N4] Hr Hrec Hk Hroom Hfree Hsw Hdel].
  pose proof (ok_block _ N2) as [Hb _].
  assert (forall a, a + 8 <= body node + off -> c' !! a = c !! a) as Hword by (intros a Ha; apply (wr_word _ _ _ _ Hw); lia).
  split; try done.
  - split; [rewrite Hword by node_lia; done|done|done|]. intros i r Hi. destruct (N4 i r Hi) as (A & B & C).
    pose proof (lookup_lt_Some _ _ _ Hi). split_and!; [rewrite Hword by node_lia; done|done|].
    intros Hv. destruct (C Hv) as (V & L). split; [|done]. destruct (Hold i r Hi Hv) as (_ & O1 & O2).
    eapply written_view; [exact Hw|left; lia|done].
  - by eapply region_written.
  - intros j H1 H2. rewrite Hword by node_lia. by apply Hfree.
Qed.

(** ** Searching *)

Section search.
Context {HP : Platform} {HL : PlatformLaws} {HM : Pmdk} (fuel : nat).

(** The record of a key, as an index. *)
Definition is_hit (key : bytes) (r : rec) : bool := visible (r_md r) && bool_decide (r_key r = zstr key).

Fixpoint find_from (key : bytes) (k : nat) (rs : list rec) : option nat :=
  match rs with
  | [] => None
  | r :: rs => if is_hit key r then Some k else find_from key (S k) rs
  end.

Lemma is_hit_spec bs key r :
  rec_ok bs r -> is_hit key r = true <-> exists v, is_record r key v.
Proof.
  intros Hok. unfold is_hit. rewrite andb_true_iff, bool_decide_eq_true. split.
  - intros [Hv Hk]. destruct (Hok Hv) as ((k & v & Hr) & _). exists v. destruct Hr as (? & E & ? & ? & ?).
    rewrite Hk in E. apply zstr_inj in E as <-. done.
  - intros (v & Hv & Hk & _). done.
Qed.

Lemma mev_record_is c node sw rs key i r :
  leaf c node sw rs -> NUL ∉ key -> rs !! i = Some r ->
  mev (record_is node key (Z.of_nat i)) c (is_hit key r) c.
Proof.
  intros H Hkey Hi. pose proof (nh_rec _ _ _ _ (lf_has _ _ _ _ H) i r Hi) as Hr.
  unfold record_is, is_hit. eapply mev_bind; [by apply mev_load_nmd|].
  destruct (visible (r_md r)) eqn:Ev; [|apply mev_ret]. cbn [andb].
  eapply mev_bind; [by apply mev_load_nmd|].
  destruct (lf_recs _ _ _ _ H i r Hi Ev) as ((k & v & (_ & Hk & Hv & Nk & Nv)) & _).
  destruct Hr as (_ & _ & Hr). destruct (Hr Ev) as (Hview & _). apply view_app in Hview as [Hview _].
  rewrite Hk in Hview. destruct (mev_strcmp _ k key c Hview Nk) as (x & Ex & Sx).
  eapply mev_bind; [exact Ex|]. rewrite c_str_no_nul in Sx by done.
  replace (x =? 0) with (bool_decide (r_key r = zstr key)); [apply mev_ret|].
  rewrite Hk. destruct (decide (k = key)) as [->|Hne].
  - rewrite bool_decide_eq_true_2 by done. rewrite (proj2 (bytes_cmp_eq key key) eq_refl) in Sx.
    symmetry. apply Z.eqb_eq. by apply Z.sgn_null_iff.
  - rewrite bool_decide_eq_false_2 by (by intros ?%zstr_inj). symmetry. apply Z.eqb_neq. intros ->.
    apply Hne. apply bytes_cmp_eq. by destruct (bytes_cmp k key).
Qed.

Lemma fold_find key rs : forall k,
  match fold_until (fun i (_ : unit) r => if is_hit key r then inr (Z.of_nat i) else inl tt) k rs tt with
  | inl _ => None | inr i => Some i end = Z.of_nat <$> find_from key k rs.
Proof.
  induction rs as [|r rs IH]; intros k; [done|]. cbn [fold_until find_from].
  destruct (is_hit key r); [done|]. apply IH.
Qed.

Lemma mev_find_record c node sw rs key :
  leaf c node sw rs -> NUL ∉ key -> (length rs < fuel)%nat ->
  mev (find_record fuel node key) c (Z.of_nat <$> find_from key 0 rs) c.
Proof.
  intros H Hkey Hf. unfold find_record. eapply mev_bind.
  - eapply (mev_for_records fuel node _ (fun i (_ : unit) r => if is_hit key r then inr (Z.of_nat i) else inl tt));
      [apply (lf_has _ _ _ _ H)|done|].
    intros i r [] Hi. eapply mev_bind; [by eapply mev_record_is|]. destruct (is_hit key r); apply mev_ret.
  - rewrite <- fold_find. destruct (fold_until _ 0 rs tt); apply mev_ret.
Qed.

Lemma find_from_spec key rs : forall k,
  match find_from key k rs with
  | Some j => exists i r, j = (k + i)%nat /\ rs !! i = Some r /\ is_hit key r = true
  | None => forall i r, rs !! i = Some r -> is_hit key r = false
  end.
Proof.
  induction rs as [|r rs IH]; intros k; cbn [find_from]; [done|]. destruct (is_hit key r) eqn:Eh.
  - exists O, r. by rewrite Nat.add_0_r.
  - specialize (IH (S k)). destruct (find_from key (S k) rs) as [j|].
    + destruct IH as (i & s & -> & Hi & Hs). exists (S i), s. split; [lia|done].
    + intros [|i] s Hi; [by injection Hi as <-|by eapply IH].
Qed.

(** The search against the map. *)
Lemma find_contents c node sw rs M key :
  leaf c node sw rs -> contents rs M ->
  match find_from key 0 rs with
  | Some i => exists r v, rs !! i = Some r /\ is_record r key v /\ M !! key = Some v
  | None => M !! key = None
  end.
Proof.
  intros H HM0. pose proof (find_from_spec key rs 0) as Hs. destruct (find_from key 0 rs) as [j|].
  - destruct Hs as (i & r & -> & Hi & Hh). cbn [Nat.add].
    apply (is_hit_spec _ _ _ (lf_recs _ _ _ _ H i r Hi)) in Hh as (v & Hr). exists r, v. split_and!; [done|done|].
    apply HM0. eauto.
  - destruct (M !! key) as [v|] eqn:E; [|done]. apply HM0 in E as (i & r & Hi & Hr).
    assert (is_hit key r = true) as Hh by (apply (is_hit_spec _ _ _ (lf_recs _ _ _ _ H i r Hi)); eauto).
    rewrite (Hs i r Hi) in Hh. done.
Qed.
End search.
