(* ===== verification/BzSupply.v ===== *)
(** * Multi-word CAS operations of the BzTree (bztree.cc, bztree_helpers.cc)

    Every change of a tree allocates a descriptor, adds its entries and runs the
    operation.  A supply of free descriptors, and what one such operation makes of it. *)
From Stdlib Require Import ZArith Lia Ascii.
From stdpp Require Import base list gmap strings.
From S2P Require Import Prelude Bytes Prog Status Hash Library Epoch Garbage Metrics Memory Descriptor MwCAS Entries Target Pool DList DListSpec BzNode BzTree.
#[local] Open Scope Z_scope.
#[local] Open Scope machine_scope.
#[local] Open Scope prog_scope.

Section supply.
Context {HP : Platform} {HL : PlatformLaws} {HM : Pmdk} (me : Z) (fuel : nat) (fuel_pos : (0 < fuel)%nat) (depth : nat).
(** The pool [p], its epoch manager, and the thread's partition with its garbage list. *)
Context (p m g part : Z) (k sz i : nat).

(** A free descriptor. *)
Record free_desc (c : gmap Z Z) (d : Z) : Prop := {
  fd_at : 0 < d /\ d + 256 <= 2 ^ 61;
  fd_apart : ~ (d <= garbage_list part < d + 256) /\ ~ (d <= free_list part < d + 256);
  fd_prepared : prepared g part d [] c;
  fd_callbacks : is_Some (c !! allocate_callback_ d) /\ is_Some (c !! free_callback_ d)
}.

(** The descriptors [ds], linked from [a]. *)
Fixpoint linked (c : gmap Z Z) (a : Z) (ds : list Z) : Prop :=
  match ds with
  | [] => True
  | d :: ds => c !! a = Some d /\ is_Some (c !! next_ptr_ d) /\ linked c (next_ptr_ d) ds
  end.

(** The next descriptors of the thread's partition are [ds], and the garbage list has a
    free slot for each. *)
Record supply (ds : list Z) (l : gmap Z GarbageList) (e : EpochWorld) (c : gmap Z Z) : Prop := {
  sp_list : exists G, l !! g = Some G /\ ring_wf m k sz G e /\
    forall j, (j < length ds)%nat ->
      exists it, items_ G !! slot_at k 0 (tail_ G + Z.of_nat j) = Some it /\ removal_epoch it = 0;
  sp_short : (length ds <= 2 ^ k)%nat;
  sp_epoch : 0 <= cur m e /\ cur m e + Z.of_nat (length ds) < 2 ^ 64 - 1;
  sp_part : tls_get (threads e) (me, tls_part) = tls_ptr_part part;
  sp_linked : linked c (free_list part) ds;
  sp_free d : d ∈ ds -> free_desc c d;
  sp_nodup : NoDup ds;
  sp_disjoint d d' : d ∈ ds -> d' ∈ ds -> d <> d' -> d + 256 <= d' \/ d' + 256 <= d
}.

(** Cells of the pool: none of a tree's words is one. *)
Definition pool_cells (ds : list Z) (a : Z) : Prop :=
  a = free_list part \/ a = garbage_list part \/ exists d, d ∈ ds /\ d <= a < d + 256.

(** Entries that expect what is there. *)
Record expected (ds : list Z) (c : gmap Z Z) (ws : list wrec) : Prop := {
  ex_count : (length ws <= 4)%nat;
  ex_nodup : NoDup (wa <$> ws);
  ex_word x : x ∈ ws -> wa x <> 0 /\ wa x mod 8 = 0 /\ wp x = kRecycleNever /\ plain (wo x) /\ plain (wn x) /\
    c !! wa x = Some (wo x) /\ wo x ∉ ds /\ ~ pool_cells ds (wa x)
}.

Definition entry_of (x : wrec) : Z * Z * Z := (wa x, wo x, wn x).

Lemma prepared_same d c c' :
  (forall a, d <= a < d + 256 \/ a = garbage_list part -> c' !! a = c !! a) -> prepared g part d [] c -> prepared g part d [] c'.
Proof.
  clear fuel_pos.
  intros Hs ((_ & Hc & Ho & Hg) & Hm & Hst). split; [split; [done|]|split].
  - rewrite !Hs; [done|by right|left; unfold owner_partition_; lia|left; unfold count_; lia].
  - intros a Ha. pose proof (word_fields_range d a Ha). rewrite Hs by (left; lia). by apply Hm.
  - rewrite Hs; [done|left; unfold status_; lia].
Qed.

Lemma free_desc_same c c' d :
  (forall a, d <= a < d + 256 \/ a = garbage_list part -> c' !! a = c !! a) -> free_desc c d -> free_desc c' d.
Proof.
  clear fuel_pos.
  intros Hs [H1 H2 H3 [H4 H5]]. split; [done|done|by eapply prepared_same|].
  rewrite !Hs by (unfold allocate_callback_, free_callback_; lia). done.
Qed.

Lemma free_linked_same c c' ds : forall a,
  (forall d, d ∈ ds -> c' !! next_ptr_ d = c !! next_ptr_ d) -> c' !! a = c !! a -> linked c a ds -> linked c' a ds.
Proof.
  clear fuel_pos.
  induction ds as [|d ds IH]; intros a Hs Ha H; [done|]. destruct H as (H1 & H2 & H3).
  cbn [linked]. rewrite Ha. split; [done|]. rewrite (Hs d) by (by left). split; [done|].
  apply IH; [intros d' Hd'; apply Hs; by right|apply Hs; by left|done].
Qed.

(** What does not touch the pool leaves the supply. *)
Lemma supply_same ds l e c c' :
  (forall a, pool_cells ds a -> c' !! a = c !! a) -> supply ds l e c -> supply ds l e c'.
Proof.
  clear fuel_pos.
  intros Hs [H1 H2 H3 H4 H5 H6 H7 H8]. split; try done.
  - eapply free_linked_same; [|apply Hs; by left|exact H5]. intros d Hd. apply Hs. right; right. exists d.
    split; [done|]. unfold next_ptr_. lia.
  - intros d Hd. eapply free_desc_same; [|by apply H6]. intros a [Ha| ->]; apply Hs; [right; right; eauto|right; by left].
Qed.

(** Another manager's tables do not matter. *)
Lemma supply_epochs ds l e e' c :
  mgr e' m = mgr e m -> threads e' = threads e -> supply ds l e c -> supply ds l e' c.
Proof.
  intros Hm Ht [(G & G1 & G2 & G3) H2 H3 H4 H5 H6 H7 H8].
  assert (entries e' m = entries e m) as He by (unfold entries; by rewrite Hm). split; try done.
  - exists G. split; [done|]. split; [|done]. unfold ring_wf, table_wf in *. by rewrite He, Hm.
  - unfold cur. by rewrite Hm.
  - by rewrite Ht.
Qed.

(** ** One operation *)

Section operation.
Context (ds : list Z) (d : Z) (l : gmap Z GarbageList) (e : EpochWorld) (c : gmap Z Z).
Context (Hsup : supply (d :: ds) l e c) (en : Entry).
Context (Hholds : exists o so, holds me o so i en e) (Hprot : protected_epoch en <> 0).

Lemma supply_usable : exists G, l !! g = Some G /\ ring_wf m k sz G e /\ usable me m g part d k sz i G en l e.
Proof.
  destruct (sp_list _ _ _ _ Hsup) as (G & HG & Hr & Hfree). exists G. split; [done|]. split; [done|].
  destruct (sp_free _ _ _ _ Hsup d ltac:(by left)) as [Ha [Hb1 Hb2] _ _].
  split; [|apply (sp_part _ _ _ _ Hsup)|done..]. intros mm Hm. split; try done.
  destruct (Hfree O) as (it & Hit & H0); [simpl; lia|]. rewrite Z.add_0_r in Hit. by exists it.
Qed.

Lemma ev_take mm : metrics_ok me mm -> exists nx,
  linked c (next_ptr_ d) ds /\ c !! next_ptr_ d = Some nx /\
  ev (AllocateDescriptor_default me fuel p) (St l e c mm) d (St l e (taken part d nx 0 0 c) (bump me DescriptorAlloc mm)).
Proof.
  intros Hm. destruct (sp_linked _ _ _ _ Hsup) as (H1 & [nx H2] & H3). exists nx. split; [done|]. split; [done|].
  destruct (sp_free _ _ _ _ Hsup d ltac:(by left)) as [Ha _ _ [Hc1 Hc2]].
  unfold AllocateDescriptor_default.
  eapply ev_AllocateDescriptor; [done|done|apply picks_own, (sp_part _ _ _ _ Hsup)|done|lia|done..].
Qed.

Lemma taken_other nx a :
  ~ pool_cell part d a -> taken part d nx 0 0 c !! a = c !! a.
Proof.
  intros Hn. unfold taken. rewrite !lookup_insert_ne; [done|..]; intros <-; apply Hn;
    unfold pool_cell, free_callback_, allocate_callback_; [by right|left; lia..].
Qed.

Lemma lookup_taken_free nx :
  ~ (d <= free_list part < d + 256) -> taken part d nx 0 0 c !! free_list part = Some nx.
Proof.
  intros Hn. unfold taken, free_callback_, allocate_callback_. rewrite !lookup_insert_ne by lia. apply lookup_insert_eq.
Qed.

Lemma taken_prepared nx : prepared g part d [] (taken part d nx 0 0 c).
Proof.
  destruct (sp_free _ _ _ _ Hsup d ltac:(by left)) as [Ha [Hb1 Hb2] ((_ & Hc & Ho & Hg) & Hs & Hst) _].
  assert (forall a, a <> free_list part -> a <> allocate_callback_ d -> a <> free_callback_ d ->
    taken part d nx 0 0 c !! a = c !! a) as Hsame.
  { intros a H1 H2 H3. unfold taken. by rewrite !lookup_insert_ne by done. }
  unfold free_list, garbage_list, free_callback_, allocate_callback_ in *.
  split; [split; [done|]|split].
  - unfold count_, owner_partition_ in *. unfold garbage_list in *. rewrite !Hsame; [done|lia..].
  - intros a Hin. pose proof (word_fields_range d a Hin). rewrite Hsame by lia. by apply Hs.
  - unfold status_ in *. rewrite Hsame by lia. done.
Qed.

(** Adding entries. *)
Lemma evm_adds G ws : usable me m g part d k sz i G en l e -> forall pre c1,
  prepared g part d pre c1 -> (length pre + length ws <= 4)%nat -> NoDup (wa <$> pre ++ ws) ->
  (forall x, x ∈ ws -> wa x mod 8 = 0 /\ wp x = kRecycleNever /\ plain (wo x) /\ plain (wn x)) ->
  exists c2, prepared g part d (pre ++ ws) c2 /\ (forall a, ~ (d <= a < d + 256) -> c2 !! a = c1 !! a) /\
    evm me l e (for_list (entry_of <$> ws) (fun '(addr, old, new) (_ : unit) =>
      AddEntry me fuel d addr old new kRecycleNever ;;; Ret tt) tt) c1 tt l e c2.
Proof.
  intros Hus. induction ws as [|x ws IH]; intros pre c1 Hp Hlen Hnd Hx.
  { exists c1. rewrite app_nil_r. split; [done|]. split; [done|]. apply evm_ret. }
  destruct (Hx x ltac:(by left)) as (Ha & Hpol & Ho & Hn). simpl in Hlen.
  destruct (evm_add_exact me fuel fuel_pos m g part d k sz i G en l e Hus pre c1 (wa x) (wo x) (wn x) Hp) as (c2 & P2 & S2 & E2);
    [lia|done..| |].
  { rewrite fmap_app in Hnd. apply NoDup_app in Hnd as (_ & Hd & _). intros Hin. apply (Hd _ Hin).
    rewrite fmap_cons. by left. }
  assert (MkW (wa x) (wo x) (wn x) kRecycleNever = x) as Ex by (destruct x; cbn in *; by subst).
  rewrite Ex in P2. destruct (IH (pre ++ [x]) c2 P2) as (c3 & P3 & S3 & E3).
  - rewrite length_app. simpl. lia.
  - by rewrite <- app_assoc.
  - intros y Hy. apply Hx. by right.
  - exists c3. rewrite <- app_assoc in P3. split; [done|]. split; [intros a Hn'; by rewrite S3, S2|].
    cbn [fmap list_fmap for_list entry_of]. eapply evm_bind; [exact E2|exact E3].
Qed.

(** The slot a push takes is not one of the next. *)
Lemma slot_at_ne o t j :
  (k < 62)%nat -> (0 < j < 2 ^ k)%nat -> slot_at k o (t + Z.of_nat j) <> slot_at k o t.
Proof.
  clear fuel_pos. intros Hk Hj. unfold slot_at. intros E.
  pose proof (Z.mod_pos_bound (t - o) (2 ^ Z.of_nat k) ltac:(lia)).
  pose proof (Z.mod_pos_bound (t + Z.of_nat j - o) (2 ^ Z.of_nat k) ltac:(lia)).
  apply Z2Nat.inj in E; [|lia..].
  assert (Z.of_nat (2 ^ k) = 2 ^ Z.of_nat k) as Hp by (by rewrite Nat2Z.inj_pow).
  pose proof (Z.div_mod (t - o) (2 ^ Z.of_nat k) ltac:(lia)). pose proof (Z.div_mod (t + Z.of_nat j - o) (2 ^ Z.of_nat k) ltac:(lia)).
  assert (0 < Z.of_nat j < 2 ^ Z.of_nat k) by lia.
  assert ((t + Z.of_nat j - o) / 2 ^ Z.of_nat k = (t - o) / 2 ^ Z.of_nat k) by nia. lia.
Qed.

Lemma slot_at_signed o t j : (k < 62)%nat -> slot_at k o (signed 64 (t + 1) + j) = slot_at k o (t + (1 + j)).
Proof.
  clear fuel_pos. intros Hk. unfold slot_at. f_equal. replace (signed 64 (t + 1) + j - o) with (signed 64 (t + 1) + (j - o)) by lia.
  rewrite Z.add_mod, signed_mod, <- Z.add_mod by lia. f_equal. lia.
Qed.

(** The garbage list after the retirement. *)
Lemma supply_ring G e' :
  l !! g = Some G -> rolled m sz e e' ->
  exists G', <[g := retired m k G e d]> l !! g = Some G' /\ ring_wf m k sz G' e' /\
    forall j, (j < length ds)%nat ->
      exists it, items_ G' !! slot_at k 0 (tail_ G' + Z.of_nat j) = Some it /\ removal_epoch it = 0.
Proof.
  intros HG Hroll. destruct (sp_list _ _ _ _ Hsup) as (G0 & HG0 & Hr & Hfree).
  rewrite HG in HG0. injection HG0 as <-. exists (retired m k G e d). split; [apply lookup_insert_eq|].
  destruct Hr as (R1 & R2 & R3 & R4 & R5 & R6). pose proof (sp_short _ _ _ _ Hsup) as Hshort. simpl in Hshort.
  split.
  - split_and!; try done.
    + unfold retired. cbn [items_ set_items]. by rewrite length_insert.
    + intros s it. unfold retired. cbn [items_ set_items]. intros [(_ & <- & _)|(_ & Hs)]%list_lookup_insert_Some.
      * cbn. pose proof (sp_epoch _ _ _ _ Hsup) as [E1 E2]. simpl in E2. unfold invalid_epoch. lia.
      * by eapply R5.
    + apply Hroll.
  - intros j Hj. destruct (Hfree (S j)) as (it & Hit & H0); [simpl; lia|]. exists it. split; [|done].
    unfold retired. cbn [items_ set_items tail_ set_tail]. rewrite slot_at_signed by done.
    replace (tail_ G + (1 + Z.of_nat j)) with (tail_ G + Z.of_nat (S j)) by lia.
    rewrite list_lookup_insert_ne; [done|]. apply not_eq_sym, slot_at_ne; [done|lia].
Qed.

Lemma expected_layout ws : expected (d :: ds) c ws -> layout_ok d part ws.
Proof.
  intros [Hc Hnd Hw]. destruct (sp_free _ _ _ _ Hsup d ltac:(by left)) as [Ha [Hb1 Hb2] _ _]. split; try done.
  - intros x Hx _. destruct (Hw x Hx) as (_ & _ & _ & _ & _ & _ & _ & Hn). split.
    + intros Hr. apply Hn. right; right. exists d. split; [by left|done].
    + intros E. apply Hn. right; by left.
  - intros x Hx. by destruct (Hw x Hx) as (_ & _ & _ & ? & ? & _).
  - by apply NoDup_filter.
Qed.

(** The rest of the supply does not notice the operation. *)
Lemma supply_rest nx ws c' G e' :
  l !! g = Some G -> rolled m sz e e' -> expected (d :: ds) c ws ->
  linked c (next_ptr_ d) ds -> c !! next_ptr_ d = Some nx ->
  (forall a, ~ (d <= a < d + 256) -> a ∉ wa <$> ws -> c' !! a = (if bool_decide (a = free_list part) then Some nx else c !! a)) ->
  supply ds (<[g := retired m k G e d]> l) e' c'.
Proof.
  intros HG Hroll Hex Hlink Hnx Hc. pose proof (sp_nodup _ _ _ _ Hsup) as Hnd. apply NoDup_cons in Hnd as [Hd Hnd].
  assert (forall a, pool_cells (d :: ds) a -> a ∉ wa <$> ws) as Hpool.
  { intros a Ha (x & -> & Hx)%list_elem_of_fmap. by apply (ex_word _ _ _ Hex x Hx). }
  destruct (sp_free _ _ _ _ Hsup d ltac:(by left)) as [Hda [Hb1 Hb2] Hprep _].
  assert (c' !! free_list part = Some nx) as Hfree
    by (rewrite Hc by (done || by apply Hpool; left); by rewrite bool_decide_eq_true_2).
  assert (forall d', d' ∈ ds -> forall a, d' <= a < d' + 256 \/ a = garbage_list part -> c' !! a = c !! a) as Hsame.
  { intros d' Hd' a Ha. assert (d' <> d) as Hne by (intros ->; done).
    pose proof (sp_disjoint _ _ _ _ Hsup d' d ltac:(by right) ltac:(by left) Hne).
    destruct (sp_free _ _ _ _ Hsup d' ltac:(by right)) as [_ [_ Hb2'] _ _].
    rewrite Hc.
    - rewrite bool_decide_eq_false_2; [done|]. intros ->. unfold free_list, garbage_list in *. lia.
    - destruct Ha as [Ha| ->]; [lia|done].
    - apply Hpool. destruct Ha as [Ha| ->]; [right; right; exists d'; split; [by right|done]|right; by left]. }
  destruct Hroll as [Hmany Hcur] eqn:Er. clear Er. pose proof (sp_epoch _ _ _ _ Hsup) as [E1 E2]. simpl in E2.
  split.
  - by apply supply_ring.
  - pose proof (sp_short _ _ _ _ Hsup). simpl in *. lia.
  - destruct Hcur as [-> | ->]; [lia|]. unfold u64. rewrite Z.mod_small by lia. lia.
  - destruct Hmany as (Ht & _). rewrite Ht. apply (sp_part _ _ _ _ Hsup).
  - destruct ds as [|d1 ds1]; [done|]. destruct Hlink as (L1 & L2 & L3). rewrite Hnx in L1. injection L1 as ->.
    cbn [linked]. split; [done|].
    assert (forall x, x ∈ d1 :: ds1 -> c' !! next_ptr_ x = c !! next_ptr_ x) as Hn.
    { intros x Hx. apply (Hsame x Hx). left. unfold next_ptr_. lia. }
    rewrite Hn by (by left). split; [done|].
    eapply free_linked_same; [|apply Hn; by left|exact L3]. intros x Hx. apply Hn. by right.
  - intros x Hx. eapply free_desc_same; [by apply Hsame|]. apply (sp_free _ _ _ _ Hsup). by right.
  - done.
  - intros x y Hx Hy. apply (sp_disjoint _ _ _ _ Hsup); by right.
Qed.

(** Other garbage lists and epoch managers are as they were. *)
Definition beside (l0 : gmap Z GarbageList) (e0 : EpochWorld) (l' : gmap Z GarbageList) (e' : EpochWorld) : Prop :=
  (forall q, q <> g -> l' !! q = l0 !! q) /\ (forall q, q <> m -> mgr e' q = mgr e0 q) /\ threads e' = threads e0.

(** An operation that expects what is there succeeds, and takes one descriptor. *)
Lemma ev_desc_mwcas t mm ws :
  bz_desc_pool t = p -> metrics_ok me mm -> expected (d :: ds) c ws ->
  exists l' e' c' mm', metrics_ok me mm' /\
    ev (desc_mwcas me fuel (S depth) t (entry_of <$> ws)) (St l e c mm) true (St l' e' c' mm') /\
    supply ds l' e' c' /\ rolled m sz e e' /\ (forall x, x ∈ ws -> c' !! wa x = Some (wn x)) /\
    (forall a, ~ pool_cells (d :: ds) a -> a ∉ wa <$> ws -> c' !! a = c !! a) /\ beside l e l' e'.
Proof.
  intros Hp Hm Hex. destruct supply_usable as (G & HG & Hr & Hus). pose proof Hex as [Hcount Hnd Hw].
  destruct (ev_take mm Hm) as (nx & Hlink & Hnx & Etake).
  assert (metrics_ok me (bump me DescriptorAlloc mm)) as Hm1 by (by apply run_AddMetric).
  destruct (evm_adds G ws Hus [] (taken part d nx 0 0 c) (taken_prepared nx)) as (c2 & P2 & S2 & E2);
    [simpl; lia|done| |].
  { intros x Hx. destruct (Hw x Hx) as (_ & ? & ? & ? & ? & _). done. }
  destruct (E2 _ Hm1) as (mm2 & Hm2 & Ev2).
  assert (forall a, pool_cells (d :: ds) a -> a ∉ wa <$> ws) as Hpool.
  { intros a Ha (x & -> & Hx)%list_elem_of_fmap. by apply (ex_word _ _ _ Hex x Hx). }
  assert (forall a, ~ pool_cell part d a -> c2 !! a = c !! a) as Hc2 by (intros a Ha; rewrite S2 by (intros Hin; apply Ha; by left); by apply taken_other).
  assert (forall x, x ∈ ws -> ~ pool_cell part d (wa x)) as Hout.
  { intros x Hx Hin. apply (Hpool (wa x)); [|by apply list_elem_of_fmap_2].
    destruct Hin as [Hin|Hin]; [right; right; exists d; split; [by left|done]|by left]. }
  pose proof (expected_layout ws Hex) as Hlay.
  destruct (evP_MwCAS me fuel fuel_pos depth true m g part d k sz i G en l e Hus ws c2 P2 Hlay) with (mm := mm2)
    as (ok & l' & e' & c' & mm' & Hm' & Ev3 & -> & -> & Hroll & Hmc); [|done|].
  { intros x Hx. destruct (Hw x Hx) as (? & _ & _ & _ & _ & Hc & Hd & _). split; [done|].
    rewrite Hc2 by (by apply Hout). split; [done|]. intros E. apply Hd. rewrite E. by left. }
  exists (<[g := retired m k G e d]> l), e', c', mm'. split; [done|]. split; [|split; [|split; [done|split; [|split]]]].
  - unfold desc_mwcas. rewrite Hp. eapply ev_bind; [exact Etake|].
    eapply ev_bind; [apply ev_check, negb_true_iff, Z.eqb_neq; pose proof (us_d _ _ _ _ _ _ _ _ _ _ _ _ Hus); lia|].
    eapply ev_bind; [exact Ev2|exact Ev3].
  - apply (supply_rest nx ws c' G e' HG Hroll Hex Hlink Hnx). intros a Ha Hna.
    rewrite (mc_other _ _ _ _ _ Hmc a Ha) by (intros x Hx _ <-; apply Hna; by apply list_elem_of_fmap_2).
    case_bool_decide as Hfl.
    + subst a. rewrite S2 by done. apply lookup_taken_free; apply (us_d _ _ _ _ _ _ _ _ _ _ _ _ Hus) || done.
    + rewrite Hc2; [done|]. intros [Hin|Hin]; done.
  - intros x Hx. rewrite (mc_target _ _ _ _ _ Hmc x Hx); [done|]. by destruct (Hw x Hx) as (? & _).
  - intros a Ha Hna. rewrite (mc_other _ _ _ _ _ Hmc a); [apply Hc2| |].
    + intros [Hin|Hin]; apply Ha; [right; right; exists d; split; [by left|done]|by left].
    + intros Hin. apply Ha. right; right. exists d. split; [by left|done].
    + intros x Hx _ <-. apply Hna. by apply list_elem_of_fmap_2.
  - destruct Hroll as [(Ht & _ & _ & Ho) _]. split; [|done]. intros q Hq. by rewrite lookup_insert_ne.
Qed.
End operation.
End supply.
