(* ===== verification/BzPlace.v ===== *)
(** * A leaf of the BzTree as a place for a map's operations (bztree.cc)

    What insertion, update, lookup and erasure, run alone, do to a leaf that they reach,
    wherever it is in the tree: a [place] says how it is reached, and that they leave what
    leads to it alone. *)
From Stdlib Require Import ZArith Lia Ascii.
From stdpp Require Import base list gmap strings.
From S2P Require Import Prelude Bytes Prog Status Hash Library Epoch Garbage Metrics Memory Descriptor MwCAS Entries Target Pool DList DListSpec BzNode BzTree BzBytes BzNodeSpec BzSmo BzLeaf BzSupply.
#[local] Open Scope Z_scope.
#[local] Open Scope machine_scope.
#[local] Open Scope prog_scope.

(** ** Words of a node and descriptor addresses *)

Lemma sw_word_split s : sw_word s = (sw_control s + 8 * Z.b2z (frozen s) + 16 * record_count s) + 2 ^ 20 * (block_size s + 2 ^ 22 * delete_size s).
Proof. unfold sw_word. lia. Qed.

Lemma sw_word_bits s : sw_ok s -> block_size s < 2 ^ 8 -> (sw_word s / 2 ^ 28) mod 2 ^ 14 = 0.
Proof.
  intros [A B C D] Hb. unfold fits in *. rewrite sw_word_split.
  assert (0 <= Z.b2z (frozen s) < 2) by (destruct (frozen s); simpl; lia).
  set (lo := sw_control s + 8 * Z.b2z (frozen s) + 16 * record_count s). assert (0 <= lo < 2 ^ 20) as Hlo by lia.
  replace (lo + 2 ^ 20 * (block_size s + 2 ^ 22 * delete_size s))
    with ((lo + 2 ^ 20 * block_size s) + (2 ^ 14 * delete_size s) * 2 ^ 28) by lia.
  rewrite Z.div_add, Z.div_small by lia. rewrite Z.add_0_l, Z.mul_comm. apply Z.mod_mul. lia.
Qed.

Lemma sw_word_plain s : sw_ok s -> delete_size s < 2 ^ 17 -> plain (sw_word s).
Proof.
  intros [A B C D] Hd. unfold plain, fits in *. rewrite sw_word_split.
  assert (0 <= Z.b2z (frozen s) < 2) by (destruct (frozen s); simpl; lia). lia.
Qed.

Lemma nmd_word_split n : nmd_word n = (nmd_control n + 8 * Z.b2z (visible n) + 16 * offset n) + 2 ^ 32 * (key_len n + 2 ^ 16 * total_len n).
Proof. unfold nmd_word. lia. Qed.

Lemma nmd_word_plain n : nmd_ok n -> total_len n < 2 ^ 12 -> plain (nmd_word n).
Proof.
  intros [A B C D] Ht. unfold plain, fits in *. rewrite nmd_word_split.
  assert (0 <= Z.b2z (visible n) < 2) by (destruct (visible n); simpl; lia). lia.
Qed.

(** Addresses that no status word of a leaf and no metadata word equals: canonical, above
    4 GB, and with some of the bits that a block size leaves zero. *)
Definition above (d : Z) : Prop := 2 ^ 32 <= d < 2 ^ 48 /\ (d / 2 ^ 28) mod 2 ^ 14 <> 0.

Lemma sw_word_above s d : sw_ok s -> block_size s < 2 ^ 8 -> above d -> sw_word s <> d.
Proof. intros Hs Hb [_ Hd] E. rewrite <- E in Hd. by rewrite sw_word_bits in Hd. Qed.

Lemma nmd_word_above n d :
  nmd_ok n -> (key_len n = 0 /\ total_len n = 0) \/ 0 < total_len n -> above d -> nmd_word n <> d.
Proof.
  intros [A B C D] Ht [[H1 H2] _] E. unfold fits in *. rewrite nmd_word_split in E.
  assert (0 <= Z.b2z (visible n) < 2) by (destruct (visible n); simpl; lia).
  destruct Ht as [[K T]|Ht]; [rewrite K, T in E; lia|nia].
Qed.

(** ** Maps *)

Lemma contents_insert rs M r key value :
  contents rs M -> M !! key = None -> is_record r key value -> contents (rs ++ [r]) (<[key := value]> M).
Proof.
  intros HM Hn Hr k v. destruct (decide (key = k)) as [->|Hne].
  - rewrite lookup_insert_eq. split.
    + intros [= ->]. exists (length rs), r. split; [by apply list_lookup_middle|done].
    + intros (i & s & [Hi|[_ Hi]]%lookup_app_Some & Hs).
      * assert (M !! k = Some v) as E by (apply HM; eauto). congruence.
      * apply list_lookup_singleton_Some in Hi as [_ <-]. f_equal. by destruct (is_record_fun _ _ _ _ _ Hr Hs).
  - rewrite lookup_insert_ne by done. rewrite (HM k v). split.
    + intros (i & s & Hi & Hs). exists i, s. split; [by apply lookup_app_l_Some|done].
    + intros (i & s & [Hi|[_ Hi]]%lookup_app_Some & Hs); [eauto|].
      apply list_lookup_singleton_Some in Hi as [_ <-]. by destruct (is_record_fun _ _ _ _ _ Hr Hs).
Qed.

(** One record of a leaf replaced, by one that stands for [upd]. *)
Lemma contents_replace c node sw rs M i r r' key value (upd : option bytes) :
  leaf c node sw rs -> contents rs M -> rs !! i = Some r -> is_record r key value ->
  (forall k v, is_record r' k v <-> k = key /\ upd = Some v) ->
  contents (<[i := r']> rs) (match upd with Some v => <[key := v]> M | None => delete key M end).
Proof.
  intros Hl HM Hi Hr Hr' k v.
  assert (match upd with Some v => <[key := v]> M | None => delete key M end !! k = if decide (k = key) then upd else M !! k) as ->.
  { destruct upd, (decide (k = key)) as [->|]; by simplify_map_eq. }
  pose proof (lookup_lt_Some _ _ _ Hi) as Hlt. case_decide as Hk.
  - subst k. split.
    + intros Hu. exists i, r'. split; [by apply list_lookup_insert_eq|]. by apply Hr'.
    + intros (j & s & Hj & Hs). apply list_lookup_insert_Some in Hj as [(<- & <- & _)|[Hne Hj]]; [by apply Hr' in Hs as [_ ?]|].
      destruct Hne. eapply lf_keys; [exact Hl|exact Hi|exact Hj|exact Hr|exact Hs].
  - rewrite (HM k v). split.
    + intros (j & s & Hj & Hs). exists j, s. split; [|done]. rewrite list_lookup_insert_ne; [done|]. intros <-.
      rewrite Hi in Hj. injection Hj as <-. by destruct (is_record_fun _ _ _ _ _ Hr Hs).
    + intros (j & s & Hj & Hs). apply list_lookup_insert_Some in Hj as [(<- & <- & _)|[Hne Hj]]; [by apply Hr' in Hs as [? _]|eauto].
Qed.

Section map.
Context {HP : Platform} {HL : PlatformLaws} {HM : Pmdk} (me : Z) (fuel : nat) (fuel_big : (30 < fuel)%nat) (depth : nat).
Context (t : BzTree) (m g part : Z) (k sz i : nat) (own : nat) (own_ne : epoch t <> m).

Lemma ev_mem {A} (q : prog Mem A) l e c mm x c' : mev q c x c' -> ev (mem q) (St l e c mm) x (St l e c' mm).
Proof. intros H. apply ev_zoom. intros pc. apply H. Qed.

(** ** The thread and its descriptors *)

Record service (ds : list Z) (en : Entry) (l : gmap Z GarbageList) (e : EpochWorld) (c : gmap Z Z) : Prop := {
  sv_supply : supply me m g part k sz ds l e c;
  sv_holds : holds me (epoch t) own i en e;
  sv_epoch : cur (epoch t) e <> 0;
  sv_above d : d ∈ ds -> above d
}.

Definition protected_entry (e : EpochWorld) : Entry := MkEntry (cur (epoch t) e) 0 me.
Definition left_entry (e : EpochWorld) : Entry := MkEntry 0 (cur (epoch t) e) me.

Lemma service_put ds en l e c en' :
  service ds en l e c -> thread_id en' = me ->
  service ds en' l (put_entry (epoch t) i en' e) c /\ cur (epoch t) (put_entry (epoch t) i en' e) = cur (epoch t) e.
Proof.
  intros [Hs Hh He Ha] Hid. destruct (put_entry_holds me (epoch t) own i en en' e Hh Hid) as (Hh' & Hc & _).
  split; [|done]. split; [|done|by rewrite Hc|done].
  eapply supply_epochs; [| |exact Hs]; [|done]. unfold put_entry, write_entries. apply mgr_set_mgr_ne. congruence.
Qed.

Lemma ev_protect ds en l e c mm :
  service ds en l e c ->
  ev (bz_protect me fuel t) (St l e c mm) tt (St l (put_entry (epoch t) i (protected_entry e) e) c mm).
Proof.
  intros Hs. unfold bz_protect, assert_ok. apply (ev_bind _ _ _ Status_OK (St l (put_entry (epoch t) i (protected_entry e) e) c mm)); [|by apply ev_check].
  apply ev_zoom_epochs, (run_Protect me fuel (epoch t) own i en), (sv_holds _ _ _ _ _ Hs).
Qed.

Lemma ev_unprotect ds en l e c mm :
  service ds en l e c ->
  ev (bz_unprotect me fuel t) (St l e c mm) tt (St l (put_entry (epoch t) i (left_entry e) e) c mm).
Proof.
  intros Hs. unfold bz_unprotect, assert_ok. apply (ev_bind _ _ _ Status_OK (St l (put_entry (epoch t) i (left_entry e) e) c mm)); [|by apply ev_check].
  apply ev_zoom_epochs, (run_Unprotect me fuel (epoch t) own i en), (sv_holds _ _ _ _ _ Hs).
Qed.

(** An operation that expects what is there. *)
Lemma ev_change ds d en l e c mm ws :
  service (d :: ds) en l e c -> protected_epoch en <> 0 -> metrics_ok me mm -> expected part (d :: ds) c ws ->
  exists l' e' c' mm', metrics_ok me mm' /\
    ev (desc_mwcas me fuel (S depth) t (entry_of <$> ws)) (St l e c mm) true (St l' e' c' mm') /\
    service ds en l' e' c' /\ cur (epoch t) e' = cur (epoch t) e /\ (forall x, x ∈ ws -> c' !! wa x = Some (wn x)) /\
    (forall a, ~ pool_cells part (d :: ds) a -> a ∉ wa <$> ws -> c' !! a = c !! a) /\ beside m g l e l' e'.
Proof.
  intros [Hs Hh He Ha] Hp Hm Hex.
  destruct (ev_desc_mwcas me fuel ltac:(lia) depth (bz_desc_pool t) m g part k sz i ds d l e c Hs en
    ltac:(by exists (epoch t), own) Hp t mm ws eq_refl Hm Hex) as (l' & e' & c' & mm' & Hm' & Hev & Hs' & Hroll & Hw & Ho & Hbes).
  exists l', e', c', mm'. split; [done|]. split; [done|].
  assert (mgr e' (epoch t) = mgr e (epoch t)) as Hmgr by (by apply Hroll).
  split; [|split; [by unfold cur; rewrite Hmgr|done]].
  split; [done| |by unfold cur; rewrite Hmgr|intros x Hx; apply Ha; by right].
  destruct Hroll as [(Ht & _) _], Hh as (H1 & H2 & H3 & H4).
  split; [|unfold entries; rewrite Hmgr, Ht; done]. unfold table_wf, entries in *. by rewrite Hmgr.
Qed.

(** ** A leaf and the way to it *)

(** No compaction or split of the leaf is due. *)
Definition settled (sw : NodeHeaderStatusWord) : Prop :=
  delete_size sw <= BZTREE_MAX_DELETED_SPACE /\
  BZTREE_MIN_FREE_SPACE + sizeof_NodeHeader + block_size sw + record_count sw * sizeof_NodeMetadata <= BZTREE_NODE_SIZE.

(** Where a leaf is: the words through which it is reached and their contents, the keys
    that lead to it, and the states of the leaf in which no modification is due on the
    way.  With these the search arrives, and changes nothing. *)
Record place := {
  spot : TOID;
  upper : Z -> Prop;
  found_in : gmap Z Z;
  covers : bytes -> Prop;
  calm : NodeHeaderStatusWord -> Prop;
  calm_settled sw : calm sw -> settled sw;
  reached dep key smo sw rs l e c mm :
    covers key -> (forall a, upper a -> c !! a = found_in !! a) -> leaf c (D_RW spot) sw rs -> (smo = true -> calm sw) ->
    ev (find_leaf me fuel dep t key smo) (St l e c mm) spot (St l e c mm)
}.

(** The leaf holds [M]. *)
Record tree (p : place) (sw : NodeHeaderStatusWord) (rs : list rec)
    (M : gmap (list ascii) (list ascii)) (c : gmap Z Z) : Prop := {
  tr_upper a : upper p a -> c !! a = found_in p !! a;
  tr_leaf : leaf c (D_RW (spot p)) sw rs;
  tr_contents : contents rs M
}.

(** A leaf, the words above it and the pool do not overlap. *)
Record clear_of (ds : list Z) (root : TOID) (up : Z -> Prop) : Prop := {
  ap_words a : up a -> ~ in_leaf root a /\ ~ pool_cells part ds a;
  ap_leaf a : in_leaf root a -> ~ pool_cells part ds a
}.
Definition apart (ds : list Z) (p : place) : Prop := clear_of ds (spot p) (upper p).

Lemma clear_tail d ds root up : clear_of (d :: ds) root up -> clear_of ds root up.
Proof.
  assert (forall a, pool_cells part ds a -> pool_cells part (d :: ds) a) as Hm.
  { intros a [H|[H|(x & Hx & H)]]; [by left|right; by left|right; right; exists x; split; [by right|done]]. }
  intros [H1 H2]. split; [intros a Ha; split|]; [by apply H1|intros H; by apply (H1 a Ha), Hm|intros a Ha H; by apply (H2 a Ha), Hm].
Qed.

Lemma apart_tail d ds p : apart (d :: ds) p -> apart ds p.
Proof. apply clear_tail. Qed.

Lemma ev_find_leaf dep key smo p sw rs M l e c mm :
  tree p sw rs M c -> covers p key -> (smo = true -> calm p sw) ->
  ev (find_leaf me fuel dep t key smo) (St l e c mm) (spot p) (St l e c mm).
Proof. intros [Hu Hl _] Hk Hs. by eapply reached. Qed.

Lemma leaf_small c node sw rs : leaf c node sw rs -> (length rs <= 30)%nat /\ 0 <= block_size sw <= sizeof_body.
Proof.
  clear fuel_big own_ne.
  intros H. pose proof (lf_room _ _ _ _ H). pose proof (ok_block _ (nh_ok _ _ _ _ (lf_has _ _ _ _ H))) as [Hb _].
  unfold sizeof_NodeMetadata, sizeof_body, BZTREE_NODE_SIZE, sizeof_NodeHeader in *. lia.
Qed.

Lemma ev_find_record key p sw rs M l e c mm :
  tree p sw rs M c -> NUL ∉ key ->
  ev (mem (find_record fuel (D_RW (spot p)) key)) (St l e c mm) (Z.of_nat <$> find_from key 0 rs) (St l e c mm).
Proof.
  intros H Hk. pose proof (tr_leaf _ _ _ _ _ H) as Hl. apply ev_mem. eapply mev_find_record; [exact Hl|done|].
  destruct (leaf_small _ _ _ _ Hl). lia.
Qed.

(** ** Changing words of the leaf *)

(** Words of the leaf, as an operation finds them. *)
Definition leaf_words (ds : list Z) (root : TOID) (c : gmap Z Z) (ws : list wrec) : Prop :=
  (length ws <= 4)%nat /\ NoDup (wa <$> ws) /\
  forall x, x ∈ ws -> in_leaf root (wa x) /\ wa x mod 8 = 0 /\ wp x = kRecycleNever /\ plain (wo x) /\ plain (wn x) /\
    c !! wa x = Some (wo x) /\ wo x ∉ ds.

(** What it leaves. *)
Record moved (p : place) (ws : list wrec) (c c' : gmap Z Z) : Prop := {
  mv_words x : x ∈ ws -> c' !! wa x = Some (wn x);
  mv_leaf a : in_leaf (spot p) a -> a ∉ wa <$> ws -> c' !! a = c !! a;
  mv_tree a : upper p a -> c' !! a = c !! a
}.

Lemma ev_leaf_words ds d en l e c mm p ws :
  service (d :: ds) en l e c -> protected_epoch en <> 0 -> metrics_ok me mm ->
  apart (d :: ds) p -> 0 < D_RW (spot p) -> leaf_words (d :: ds) (spot p) c ws ->
  exists l' e' c' mm', metrics_ok me mm' /\
    ev (desc_mwcas me fuel (S depth) t (entry_of <$> ws)) (St l e c mm) true (St l' e' c' mm') /\
    service ds en l' e' c' /\ cur (epoch t) e' = cur (epoch t) e /\ moved p ws c c'.
Proof.
  intros Hs Hp Hm Hap Hpos (Hlen & Hnd & Hw).
  destruct (ev_change ds d en l e c mm ws Hs Hp Hm) as (l' & e' & c' & mm' & Hm' & Hev & Hs' & Hc & Hn & Ho & _).
  - split; [done|done|]. intros x Hx. destruct (Hw x Hx) as (Hin & ? & ? & ? & ? & ? & ?). split_and!; try done.
    + unfold in_leaf in Hin. lia.
    + by eapply ap_leaf.
  - exists l', e', c', mm'. split_and!; try done. split; [done| |].
    + intros a Ha Hna. apply Ho; [by eapply ap_leaf|done].
    + intros a Ha. destruct (ap_words _ _ _ Hap a Ha) as [H1 H2]. apply Ho; [done|].
      intros (x & -> & Hx)%list_elem_of_fmap. by destruct (Hw x Hx) as (Hin & _).
Qed.

Lemma moved_view p ws c c' pos bs :
  moved p ws c c' -> D_RW (spot p) mod 8 = 0 -> (forall x, x ∈ ws -> wa x mod 8 = 0 /\ wa x + 8 <= pos) ->
  D_RW (spot p) <= pos -> pos + Z.of_nat (length bs) <= D_RW (spot p) + BZTREE_NODE_SIZE -> view c pos bs -> view c' pos bs.
Proof.
  intros [_ Hl _] Hal Hw H1 H2. apply view_same. intros x Hx. unfold within, byte_at, BZTREE_NODE_SIZE in *. f_equal.
  pose proof (Z.div_mod x 8 ltac:(lia)). pose proof (Z.mod_pos_bound x 8 ltac:(lia)).
  pose proof (Z.div_mod (D_RW (spot p)) 8 ltac:(lia)). apply Hl.
  - unfold in_leaf, BZTREE_NODE_SIZE. lia.
  - intros (y & E & Hy)%list_elem_of_fmap. destruct (Hw y Hy) as [Hm Hb]. lia.
Qed.

Lemma moved_region p ws c c' :
  moved p ws c c' -> region c (D_RW (spot p)) BZTREE_NODE_SIZE -> region c' (D_RW (spot p)) BZTREE_NODE_SIZE.
Proof.
  intros [Hw Hl _] (H1 & H2 & H3). split_and!; [done|done|]. intros a Ha Hm.
  destruct (decide (a ∈ wa <$> ws)) as [(x & -> & Hx)%list_elem_of_fmap|Hn]; [rewrite (Hw x Hx); by eexists|].
  rewrite Hl by done. by apply H3.
Qed.

(** The tree with its leaf replaced. *)
Lemma tree_leaf p sw rs M sw' rs' M' c c' :
  tree p sw rs M c -> (forall a, upper p a -> c' !! a = c !! a) ->
  leaf c' (D_RW (spot p)) sw' rs' -> contents rs' M' -> tree p sw' rs' M' c'.
Proof.
  intros [Hu _ _] Hs Hl Hc. split; [|done|done]. intros a Ha. rewrite Hs by done. by apply Hu.
Qed.

(** The status word and one metadata word. *)
Definition sw_fine (s : NodeHeaderStatusWord) : Prop := sw_ok s /\ delete_size s < 2 ^ 17 /\ block_size s < 2 ^ 8.
Definition nmd_fine (d : NodeMetadata) : Prop := nmd_ok d /\ total_len d < 2 ^ 12.
Definition sw_entry (root : TOID) (s s' : NodeHeaderStatusWord) : wrec :=
  MkW (status_word (D_RW root)) (sw_word s) (sw_word s') kRecycleNever.
Definition nmd_entry (root : TOID) (j : Z) (d d' : NodeMetadata) : wrec :=
  MkW (nmd_at (D_RW root) j) (nmd_word d) (nmd_word d') kRecycleNever.

Lemma sw_entry_ok ds root c s s' :
  (forall d, d ∈ ds -> above d) -> D_RW root mod 8 = 0 -> sw_fine s -> sw_fine s' ->
  c !! status_word (D_RW root) = Some (sw_word s) -> leaf_words ds root c [sw_entry root s s'].
Proof.
  intros Ha Hal (O1 & D1 & B1) (O2 & D2 & B2) Hc. split; [simpl; lia|]. split; [apply NoDup_singleton|].
  intros x ->%list_elem_of_singleton. cbn [sw_entry wa wo wn wp]. unfold in_leaf, status_word, BZTREE_NODE_SIZE in *.
  split_and!; [lia|lia|by rewrite <- Z.add_mod_idemp_l, Hal by lia|done|by apply sw_word_plain|by apply sw_word_plain|done|].
  intros Hd. by apply (sw_word_above s _ O1 B1 (Ha _ Hd)).
Qed.

Lemma two_words ds root c s s' j d d' :
  (forall d, d ∈ ds -> above d) -> D_RW root mod 8 = 0 -> sw_fine s -> sw_fine s' -> nmd_fine d -> nmd_fine d' ->
  (key_len d = 0 /\ total_len d = 0) \/ 0 < total_len d -> 0 <= j < 30 ->
  c !! status_word (D_RW root) = Some (sw_word s) -> c !! nmd_at (D_RW root) j = Some (nmd_word d) ->
  leaf_words ds root c [sw_entry root s s'; nmd_entry root j d d'].
Proof.
  intros Ha Hal Hs Hs' (O1 & T1) (O2 & T2) Ht Hj Hc1 Hc2.
  destruct (sw_entry_ok ds root c s s' Ha Hal Hs Hs' Hc1) as (_ & _ & Hsw).
  split; [simpl; lia|]. split.
  - cbn. apply NoDup_cons. split; [|apply NoDup_singleton]. rewrite list_elem_of_singleton.
    unfold status_word, nmd_at, body, sizeof_NodeHeader, sizeof_NodeMetadata. lia.
  - intros x [->|Hx]%elem_of_cons; [apply Hsw; by left|]. apply list_elem_of_singleton in Hx as ->.
    cbn [nmd_entry wa wo wn wp]. unfold in_leaf, nmd_at, body, sizeof_NodeHeader, sizeof_NodeMetadata, BZTREE_NODE_SIZE in *.
    split_and!; [lia|lia| |done|by apply nmd_word_plain|by apply nmd_word_plain|done|].
    + replace (D_RW root + 16 + 8 * j) with (D_RW root + (2 + j) * 8) by lia. by rewrite Z.mod_add.
    + intros Hd. by apply (nmd_word_above d _ O1 Ht (Ha _ Hd)).
Qed.

Lemma leaf_sw_fine c node sw rs : leaf c node sw rs -> sw_fine sw.
Proof.
  intros H. split; [apply (lf_has _ _ _ _ H)|]. destruct (leaf_deleted _ _ _ _ H) as [Hd _], (leaf_small _ _ _ _ H) as [_ Hb].
  unfold sizeof_body, BZTREE_NODE_SIZE, sizeof_NodeHeader in *. lia.
Qed.

(** A visible record's metadata. *)
Lemma leaf_record c node sw rs n r key value :
  leaf c node sw rs -> rs !! n = Some r -> is_record r key value ->
  (n < 30)%nat /\ c !! nmd_at node (Z.of_nat n) = Some (nmd_word (r_md r)) /\ nmd_fine (r_md r) /\
  key_len (r_md r) = Z.of_nat (length key) + 1 /\ total_len (r_md r) = data_size key value /\
  view c (body node + offset (r_md r)) (zstr key ++ zstr value) /\
  sizeof_body - block_size sw <= offset (r_md r) /\ offset (r_md r) + total_len (r_md r) <= sizeof_body.
Proof.
  intros H Hi (Hv & Hk & Hval & _). destruct (nh_rec _ _ _ _ (lf_has _ _ _ _ H) n r Hi) as (A & B & C).
  destruct (C Hv) as (V & K & T), (lf_recs _ _ _ _ H n r Hi Hv) as (_ & O1 & O2), (leaf_small _ _ _ _ H) as [Hlen _].
  pose proof (lookup_lt_Some _ _ _ Hi) as Hlt. rewrite Hk, Hval, ?length_zstr in *.
  pose proof (ok_offset _ B) as [Ho _]. unfold nmd_fine, sizeof_body, BZTREE_NODE_SIZE, sizeof_NodeHeader in *.
  split_and!; try done; unfold data_size; lia.
Qed.

(** ** Operations *)

(** Space of a leaf's body that is taken. *)
Definition used_space (sw : NodeHeaderStatusWord) : Z := block_size sw + sizeof_NodeMetadata * record_count sw.

(** [q] returns [x] and leaves a tree for [M'], having used at most two descriptors and
    [spent] bytes; [prot] tells whether the thread is protected then. *)
Definition leaves {A} (q : prog World A) (x : A) (M' : gmap (list ascii) (list ascii)) (prot : bool)
    (spent : Z) (sw : NodeHeaderStatusWord)
    (ds : list Z) (p : place) (l : gmap Z GarbageList) (e : EpochWorld) (c : gmap Z Z) (mm : MetricsWorld) : Prop :=
  exists used sw' rs' en' l' e' c' mm', (used <= 2)%nat /\ metrics_ok me mm' /\
    ev q (St l e c mm) x (St l' e' c' mm') /\ tree p sw' rs' M' c' /\
    service (drop used ds) en' l' e' c' /\ apart (drop used ds) p /\ (protected_epoch en' =? 0) = negb prot /\ used_space sw' <= used_space sw + spent.

Lemma set_delete_size_ok s n : sw_ok s -> 0 <= n < 2 ^ 22 -> sw_ok (set_delete_size n s) /\ delete_size (set_delete_size n s) = n.
Proof. intros [A B C D] Hn. unfold set_delete_size. cbn. rewrite Z.mod_small by done. split; [split; done|done]. Qed.

(** The leaf after its status word and perhaps one metadata word [j] have changed: the
    other records are there, and the data of the new one was. *)
Lemma leaf_moved p c c' sw sw' rs rs' ws j :
  leaf c (D_RW (spot p)) sw rs -> moved p ws c c' ->
  (forall x, x ∈ ws -> wa x = status_word (D_RW (spot p)) \/ wa x = nmd_at (D_RW (spot p)) (Z.of_nat j)) ->
  sw_entry (spot p) sw sw' ∈ ws -> sw_ok sw' -> sw_control sw' = 0 -> frozen sw' = false ->
  delete_size sw' + live_size rs' <= block_size sw' + sizeof_NodeMetadata * Z.of_nat (length rs') ->
  record_count sw' = Z.of_nat (length rs') -> block_size sw <= block_size sw' ->
  sizeof_NodeMetadata * Z.of_nat (length rs') + block_size sw' <= sizeof_body ->
  (length rs <= length rs')%nat -> (j < length rs')%nat ->
  (forall i r, i <> j -> rs' !! i = Some r -> rs !! i = Some r) ->
  (forall r, rs' !! j = Some r -> (rs !! j = Some r /\ c' !! nmd_at (D_RW (spot p)) (Z.of_nat j) = c !! nmd_at (D_RW (spot p)) (Z.of_nat j)) \/
     c' !! nmd_at (D_RW (spot p)) (Z.of_nat j) = Some (nmd_word (r_md r)) /\ nmd_ok (r_md r) /\ rec_ok (block_size sw') r /\
     (visible (r_md r) = true -> view c (body (D_RW (spot p)) + offset (r_md r)) (r_key r ++ r_val r) /\
        key_len (r_md r) = Z.of_nat (length (r_key r)) /\
        total_len (r_md r) = Z.of_nat (length (r_key r) + length (r_val r)))) ->
  distinct rs' -> leaf c' (D_RW (spot p)) sw' rs'.
Proof.
  intros Hl Hmv Hws Hin Hok Hc Hf Hdel Hcount Hb Hroom Hlen Hj Hold Hnew Hkeys.
  destruct (leaf_small _ _ _ _ Hl) as [Hlen0 Hb0]. pose proof (ok_block _ Hok) as [Hb1 _].
  pose proof (lf_at _ _ _ _ Hl) as [Hpos Hal]. pose proof (lf_room _ _ _ _ Hl) as Hroom0.
  assert (forall x, x ∈ ws -> wa x mod 8 = 0 /\ wa x + 8 <= body (D_RW (spot p)) + 8 * Z.of_nat (length rs')) as Hwa.
  { intros x Hx. destruct (Hws x Hx) as [-> | ->].
    - unfold status_word. rewrite <- Z.add_mod_idemp_l, Hal by lia. split; [done|]. node_lia.
    - destruct (leaf_nmd _ _ _ _ (Z.of_nat j) Hl) as (? & _ & ->); [node_lia|]. split; [done|lia]. }
  assert (forall pos bs, body (D_RW (spot p)) + (sizeof_body - block_size sw') <= pos ->
    pos + Z.of_nat (length bs) <= body (D_RW (spot p)) + sizeof_body -> view c pos bs -> view c' pos bs) as Hview.
  { intros pos bs H1 H2. apply (moved_view _ _ _ _ _ _ Hmv Hal); [|node_lia|node_lia].
    intros x Hx. destruct (Hwa x Hx). split; [done|]. node_lia. }
  assert (forall n, 0 <= n < 30 -> n <> Z.of_nat j -> c' !! nmd_at (D_RW (spot p)) n = c !! nmd_at (D_RW (spot p)) n) as Hnmd.
  { intros n Hn Hne. apply (mv_leaf _ _ _ _ Hmv); [unfold in_leaf; node_lia|].
    intros (x & E & Hx)%list_elem_of_fmap. destruct (Hws x Hx) as [E'|E']; rewrite E' in E; node_lia. }
  eapply leaf_change; try done.
  - apply (mv_words _ _ _ _ Hmv _ Hin).
  - eapply moved_region; [exact Hmv|apply Hl].
  - intros pos bs H1 H2. apply Hview; [lia|done].
  - intros n r Hr. pose proof (lookup_lt_Some _ _ _ Hr). destruct (decide (n = j)) as [->|Hne].
    + destruct (Hnew r Hr) as [Hkept|(H1 & H2 & H3 & H4)]; [by left|right]. split; [|done].
      split_and!; [done|done|]. intros Hv. destruct (H4 Hv) as (V & L1 & L2). split; [|done].
      destruct (H3 Hv) as (_ & O1 & O2). apply Hview; [lia| |done]. rewrite length_app. lia.
    + left. split; [by apply Hold|]. apply Hnmd; [node_lia|lia].
  - intros n H1 H2. apply Hnmd; [node_lia|lia].
Qed.

(** *** erase *)

Definition erased (r : rec) : rec := MkRec (set_visible false (set_offset 0 (r_md r))) [] [].
Definition erase_sw (sw : NodeHeaderStatusWord) (r : rec) : NodeHeaderStatusWord :=
  set_delete_size (delete_size sw + (total_len (r_md r) + sizeof_NodeMetadata)) sw.

Lemma distinct_replace rs n r r' key v v' :
  distinct rs -> rs !! n = Some r -> is_record r key v -> (forall k x, is_record r' k x -> k = key /\ x = v') ->
  distinct (<[n := r']> rs).
Proof.
  intros Hd Hn Hr Hr' a b x y kx va vb Ha Hb Hx Hy.
  apply list_lookup_insert_Some in Ha as [(<- & <- & _)|[Hna Ha]], Hb as [(<- & <- & _)|[Hnb Hb]]; try done.
  - destruct (Hr' _ _ Hx) as [-> _]. destruct Hnb. by eapply (Hd n b r y key).
  - destruct (Hr' _ _ Hy) as [-> _]. destruct Hna. symmetry. by eapply (Hd a n x r key).
  - by eapply (Hd a b x y kx).
Qed.

(** The counters of an erasure. *)
Lemma erase_counts c node sw rs n r key value :
  leaf c node sw rs -> rs !! n = Some r -> is_record r key value ->
  sw_fine (erase_sw sw r) /\ nmd_fine (r_md (erased r)) /\
  delete_size (erase_sw sw r) + live_size (<[n := erased r]> rs) <= block_size sw + sizeof_NodeMetadata * Z.of_nat (length rs).
Proof.
  intros Hl Hi Hr. destruct (leaf_record _ _ _ _ _ _ _ _ Hl Hi Hr) as (_ & _ & [Hok Ht] & _).
  pose proof (lf_deleted _ _ _ _ Hl) as Hdel. pose proof (lf_room _ _ _ _ Hl) as Hroom.
  destruct (leaf_deleted _ _ _ _ Hl) as [Hd _], (leaf_small _ _ _ _ Hl) as [_ Hb]. pose proof (ok_tlen _ Hok) as [Ht0 _].
  assert (nmd_ok (r_md (erased r))) as Hok' by (destruct Hok; split; done).
  assert (0 <= live_size (<[n := erased r]> rs)) as Hlive.
  { apply live_size_nonneg. intros j x [(_ & <- & _)|[_ Hx]]%list_lookup_insert_Some; [done|].
    apply (nh_rec _ _ _ _ (lf_has _ _ _ _ Hl) j x Hx). }
  rewrite (live_size_insert _ _ _ _ Hi) in *. replace (rec_size (erased r)) with 0 in * by done.
  assert (rec_size r = total_len (r_md r) + 8) as Es by (unfold rec_size; destruct Hr as (-> & _); done).
  rewrite Es in *. unfold erase_sw.
  destruct (set_delete_size_ok sw (delete_size sw + (total_len (r_md r) + 8)) (proj1 (leaf_sw_fine _ _ _ _ Hl))) as [Hok2 Hdn];
    [node_lia|]. change sizeof_NodeMetadata with 8 in *. split; [split; [done|]|split; [by split|]].
  - rewrite Hdn. change (block_size (set_delete_size _ sw)) with (block_size sw). node_lia.
  - rewrite Hdn. lia.
Qed.

Lemma erase_tree p sw rs M c c' n r key value :
  tree p sw rs M c -> rs !! n = Some r -> is_record r key value ->
  moved p [sw_entry (spot p) sw (erase_sw sw r); nmd_entry (spot p) (Z.of_nat n) (r_md r) (r_md (erased r))] c c' ->
  tree p (erase_sw sw r) (<[n := erased r]> rs) (delete key M) c'.
Proof.
  intros H Hi Hr Hmv. pose proof (tr_leaf _ _ _ _ _ H) as Hl.
  destruct (erase_counts _ _ _ _ _ _ _ _ Hl Hi Hr) as (Hfine & [Hok _] & Hdel).
  assert (forall k v, is_record (erased r) k v -> False) as Hno by (intros ? ? (? & _); done).
  eapply tree_leaf; [exact H|apply (mv_tree _ _ _ _ Hmv)| |].
  - pose proof (lookup_lt_Some _ _ _ Hi) as Hlt.
    eapply (leaf_moved p c c' sw _ rs _ _ n); rewrite ?length_insert; try done.
    + intros x [-> |[-> |[]%elem_of_nil]%elem_of_cons]%elem_of_cons; [by left|by right].
    + by left.
    + apply Hfine.
    + apply Hl.
    + apply Hl.
    + apply (lf_has _ _ _ _ Hl).
    + apply Hl.
    + intros j x Hne Hx. by rewrite list_lookup_insert_ne in Hx.
    + intros x Hx. rewrite list_lookup_insert_eq in Hx by done. injection Hx as <-. right.
      split; [|done]. apply (mv_words _ _ _ _ Hmv (nmd_entry (spot p) (Z.of_nat n) (r_md r) (r_md (erased r)))). right; by left.
    + eapply (distinct_replace rs n r (erased r) key value []); [apply Hl|done|done|]. intros ? ? E. by apply Hno in E.
  - eapply (contents_replace _ _ _ _ _ _ _ _ _ _ None); [exact Hl|apply H|exact Hi|exact Hr|].
    intros k' v'. split; [intros E; by apply Hno in E|intros [_ ?]; done].
Qed.

(** *** How an operation begins and ends *)

Lemma ev_load_sw p sw rs M l e c mm :
  tree p sw rs M c -> ev (mem (load_sw (D_RW (spot p)))) (St l e c mm) sw (St l e c mm).
Proof. intros H. apply ev_mem. eapply mev_load_sw, lf_has, H. Qed.

Lemma ev_load_nmd root j d l e c mm :
  c !! nmd_at (D_RW root) j = Some (nmd_word d) -> nmd_ok d ->
  ev (mem (load_nmd (D_RW root) j)) (St l e c mm) d (St l e c mm).
Proof.
  intros Hc Hok. apply ev_mem. unfold load_nmd. eapply mev_bind; [by apply mev_load|]. rewrite nmd_of_word by done. apply mev_ret.
Qed.

(** Protection, the search for the leaf and for the key. *)
Lemma ev_begin {B} dep key smo (q : TOID -> option Z -> prog World B) ds en p sw rs M l e c mm y w' :
  tree p sw rs M c -> service ds en l e c -> NUL ∉ key -> covers p key -> (smo = true -> calm p sw) ->
  (let e1 := put_entry (epoch t) i (protected_entry e) e in
   service ds (protected_entry e) l e1 c -> cur (epoch t) e1 = cur (epoch t) e ->
   ev (q (spot p) (Z.of_nat <$> find_from key 0 rs)) (St l e1 c mm) y w') ->
  ev (bz_protect me fuel t ;;;
      let! leaf_oid := find_leaf me fuel dep t key smo in
      let! found := mem (find_record fuel (D_RW leaf_oid) key) in q leaf_oid found) (St l e c mm) y w'.
Proof.
  intros H Hs Hk Hcov Hsmo Hq. destruct (service_put ds en l e c (protected_entry e) Hs eq_refl) as [Hs1 Hc1].
  eapply ev_bind; [by eapply ev_protect|]. eapply ev_bind; [by eapply ev_find_leaf|].
  eapply ev_bind; [by eapply ev_find_record|]. by apply Hq.
Qed.

(** Leaving protection, with a result. *)
Lemma leaves_unprotect {A} (q : prog World A) (x : A) used spent sw ds en p sw' rs' M' l e c mm l1 e1 c1 mm1 :
  (used <= 2)%nat -> used_space sw' <= used_space sw + spent -> metrics_ok me mm1 -> tree p sw' rs' M' c1 -> service (drop used ds) en l1 e1 c1 ->
  apart (drop used ds) p ->
  (ev (bz_unprotect me fuel t) (St l1 e1 c1 mm1) tt (St l1 (put_entry (epoch t) i (left_entry e1) e1) c1 mm1) ->
   ev q (St l e c mm) x (St l1 (put_entry (epoch t) i (left_entry e1) e1) c1 mm1)) ->
  leaves q x M' false spent sw ds p l e c mm.
Proof.
  intros Hu Hsp Hm H Hs Hap Hq. destruct (service_put _ _ _ _ _ (left_entry e1) Hs eq_refl) as [Hs' _].
  do 8 eexists. split_and!; [exact Hu|exact Hm|by eapply Hq, ev_unprotect|exact H|exact Hs'|exact Hap|done|exact Hsp].
Qed.

Lemma service_protected ds l e c : service ds (protected_entry e) l (put_entry (epoch t) i (protected_entry e) e) c ->
  cur (epoch t) (put_entry (epoch t) i (protected_entry e) e) = cur (epoch t) e -> protected_epoch (protected_entry e) <> 0.
Proof. intros Hs Hc. pose proof (sv_epoch _ _ _ _ _ Hs) as H. by rewrite Hc in H. Qed.

(** An operation that retries: once the leaf and the key have been looked for, [q] ends it. *)
Lemma leaves_begin {B} dep key (q : TOID -> option Z -> prog World (unit + B)) x M' prot spent sw ds en p rs M l e c mm :
  tree p sw rs M c -> service ds en l e c -> NUL ∉ key -> covers p key -> calm p sw ->
  leaves (q (spot p) (Z.of_nat <$> find_from key 0 rs)) (inr x) M' prot spent sw ds p l (put_entry (epoch t) i (protected_entry e) e) c mm ->
  leaves (loop fuel (fun _ : unit => bz_protect me fuel t ;;;
    let! leaf_oid := find_leaf me fuel dep t key true in
    let! found := mem (find_record fuel (D_RW leaf_oid) key) in q leaf_oid found) tt) x M' prot spent sw ds p l e c mm.
Proof.
  intros H Hs Hk Hcov Hcalm (used & sw' & rs' & en' & l' & e' & c' & mm' & Hu & Hm' & Hev & Hrest).
  exists used, sw', rs', en', l', e', c', mm'. split; [done|]. split; [done|]. split; [|done].
  apply ev_loop_once; [lia|]. by eapply (ev_begin dep key true q).
Qed.

(** [erase] deletes the key.  Having found it, it leaves the thread protected. *)
Lemma leaves_erase d ds en p sw rs M l e c mm key :
  tree p sw rs M c -> service (d :: ds) en l e c -> apart (d :: ds) p -> metrics_ok me mm -> NUL ∉ key -> covers p key ->
  let found := bool_decide (is_Some (M !! key)) in
  leaves (BzTree_erase me fuel (S depth) t key) found (delete key M) found 0 sw (d :: ds) p l e c mm.
Proof.
  intros H Hs Hap Hm Hk Hcov found. pose proof (tr_leaf _ _ _ _ _ H) as Hl.
  pose proof (find_contents _ _ _ _ M key Hl (tr_contents _ _ _ _ _ H)) as Hfind.
  destruct (service_put _ _ _ _ _ (protected_entry e) Hs eq_refl) as [Hs1 Hc1].
  pose proof (service_protected _ _ _ _ Hs1 Hc1) as Hp.
  destruct (find_from key 0 rs) as [n|] eqn:Ef.
  - destruct Hfind as (r & v & Hi & Hr & HMk). assert (found = true) as -> by (by apply bool_decide_eq_true_2; eexists).
    destruct (leaf_record _ _ _ _ _ _ _ _ Hl Hi Hr) as (Hn & Hcell & Hfine & _ & Hlen & _).
    destruct (erase_counts _ _ _ _ _ _ _ _ Hl Hi Hr) as (Hsf & Hnf & _). destruct (lf_at _ _ _ _ Hl) as [Hpos Hal].
    destruct (ev_leaf_words ds d (protected_entry e) l _ c mm p
      [sw_entry (spot p) sw (erase_sw sw r); nmd_entry (spot p) (Z.of_nat n) (r_md r) (r_md (erased r))] Hs1 Hp Hm Hap Hpos)
      as (l2 & e2 & c2 & mm2 & Hm2 & Hev & Hs2 & _ & Hmv).
    { apply two_words; try done; [apply Hs|by eapply leaf_sw_fine| |lia|apply (lf_has _ _ _ _ Hl)].
      right. rewrite Hlen. unfold data_size. lia. }
    exists 1%nat, (erase_sw sw r), (<[n := erased r]> rs), (protected_entry e), l2, e2, c2, mm2.
    split_and!; [lia|done| |by eapply erase_tree|done|by eapply apart_tail|by apply Z.eqb_neq|].
    2: { unfold used_space. change (block_size (erase_sw sw r)) with (block_size sw). change (record_count (erase_sw sw r)) with (record_count sw). lia. }
    unfold BzTree_erase. apply ev_loop_once; [lia|]. unfold erase_try.
    eapply (ev_begin _ key false); [exact H|exact Hs|done|done|done|]. intros e1 _ _. rewrite Ef. cbn [fmap option_fmap option_map].
    eapply ev_bind; [by eapply ev_load_sw|]. eapply ev_bind; [eapply ev_load_nmd; [exact Hcell|apply Hfine]|].
    destruct Hr as (Hv & _). rewrite Hv, (proj2 (lf_sw _ _ _ _ Hl)). cbn [negb orb].
    eapply ev_bind; [exact Hev|]. apply ev_ret.
  - assert (found = false) as -> by (apply bool_decide_eq_false_2; rewrite Hfind; by intros []).
    rewrite delete_id by done.
    eapply (leaves_unprotect _ _ 0); [lia| |exact Hm|exact H|exact Hs1|exact Hap|]; [lia|]. intros Hun.
    unfold BzTree_erase. apply ev_loop_once; [lia|]. unfold erase_try.
    eapply (ev_begin _ key false); [exact H|exact Hs|done|done|done|]. intros e1 _ _. rewrite Ef. cbn [fmap option_fmap option_map].
    eapply ev_bind; [exact Hun|]. apply ev_ret.
Qed.

(** [lookup] reads the map. *)
Lemma leaves_lookup ds en p sw rs M l e c mm key :
  tree p sw rs M c -> service ds en l e c -> apart ds p -> metrics_ok me mm -> NUL ∉ key -> covers p key ->
  leaves (BzTree_lookup me fuel (S depth) t key) (M !! key) M false 0 sw ds p l e c mm.
Proof.
  intros H Hs Hap Hm Hk Hcov. pose proof (tr_leaf _ _ _ _ _ H) as Hl.
  pose proof (find_contents _ _ _ _ M key Hl (tr_contents _ _ _ _ _ H)) as Hfind.
  destruct (service_put _ _ _ _ _ (protected_entry e) Hs eq_refl) as [Hs1 _].
  eapply (leaves_unprotect _ _ 0); [lia| |exact Hm|exact H|exact Hs1|exact Hap|]; [lia|]. intros Hun.
  unfold BzTree_lookup. eapply (ev_begin _ key false); [exact H|exact Hs|done|done|done|]. intros e1 _ _.
  destruct (find_from key 0 rs) as [n|] eqn:Ef; cbn [fmap option_fmap option_map].
  - destruct Hfind as (r & v & Hi & Hr & HMk).
    destruct (leaf_record _ _ _ _ _ _ _ _ Hl Hi Hr) as (Hn & Hcell & [Hok _] & Hkl & Hlen & Hview & O1 & O2).
    apply view_app in Hview as [_ Hview]. rewrite length_zstr in Hview.
    destruct (leaf_small _ _ _ _ Hl) as [_ Hb]. pose proof (ok_offset _ Hok) as [Ho _].
    eapply ev_bind; [by eapply ev_load_nmd|]. rewrite HMk.
    eapply ev_bind; [|eapply ev_bind; [exact Hun|apply ev_ret]].
    apply ev_mem. apply mev_string_at; [|apply Hr|unfold data_size in *; node_lia].
    rewrite Hkl. replace (Z.of_nat (S (length key))) with (Z.of_nat (length key) + 1) in Hview by lia.
    replace (body (D_RW (spot p)) + offset (r_md r) + (Z.of_nat (length key) + 1))
      with (body (D_RW (spot p)) + offset (r_md r) + (Z.of_nat (length key) + 1)) by lia. exact Hview.
  - rewrite Hfind. eapply ev_bind; [exact Hun|]. apply ev_ret.
Qed.

(** *** Writing a key and a value *)

Lemma ev_write_data ds en p sw rs M l e c mm old off key value :
  tree p sw rs M c -> service ds en l e c -> apart ds p ->
  (forall n r, rs !! n = Some r -> rec_ok old r) -> 0 <= old ->
  sizeof_body - block_size sw <= off -> off + data_size key value <= sizeof_body - old ->
  exists c', ev (mem (write_data (D_RW (spot p)) off (Z.of_nat (length key) + 1) key value)) (St l e c mm) tt (St l e c' mm) /\
    tree p sw rs M c' /\ service ds en l e c' /\
    view c' (body (D_RW (spot p)) + off) (zstr key ++ zstr value).
Proof.
  intros H Hs Hap Hold Hold0 Hlo Hhi. pose proof (tr_leaf _ _ _ _ _ H) as Hl.
  destruct (leaf_small _ _ _ _ Hl) as [Hlen Hb]. pose proof (lf_room _ _ _ _ Hl) as Hroom.
  pose proof (lf_region _ _ _ _ Hl) as Hreg. unfold data_size in Hhi.
  destruct (mev_memcpy2 (body (D_RW (spot p)) + off) (zstr key) (zstr value) c) as (c1 & c2 & E1 & E2 & Hw).
  { eapply region_mapped; [exact Hreg|node_lia|]. rewrite Nat2Z.inj_add, !length_zstr. node_lia. }
  exists c2. assert (outside (D_RW (spot p)) BZTREE_NODE_SIZE c c2) as Hout.
  { eapply outside_written; [apply Hreg|done| | |exact Hw]; rewrite ?length_app, ?length_zstr; node_lia. }
  split_and!.
  - apply ev_mem. unfold write_data. fold (zstr key) (zstr value). eapply mev_bind; [exact E1|].
    rewrite length_zstr in E2. by replace (Z.of_nat (S (length key))) with (Z.of_nat (length key) + 1) in E2 by lia.
  - eapply tree_leaf; [exact H| | |apply H].
    + intros a Ha. apply Hout. by apply (ap_words _ _ _ Hap a Ha).
    + eapply leaf_written; [exact Hl|exact Hold|exact Hlo| |done|exact Hw]. rewrite length_app, !length_zstr. lia.
  - destruct Hs as [Hsup Hh Hc Ha]. split; [|done..]. eapply supply_same; [|exact Hsup].
    intros a Hpa. apply Hout. intros Hin. by apply (ap_leaf _ _ _ Hap a Hin).
  - apply (wr_view _ _ _ _ Hw).
Qed.

Lemma set_block_size_ok s n : sw_ok s -> 0 <= n < 2 ^ 22 -> sw_ok (set_block_size n s) /\ block_size (set_block_size n s) = n.
Proof. intros [A B C D] Hn. unfold set_block_size. cbn. rewrite Z.mod_small by done. split; [split; done|done]. Qed.

Lemma set_record_count_ok s n : sw_ok s -> 0 <= n < 2 ^ 16 -> sw_ok (set_record_count n s) /\ record_count (set_record_count n s) = n.
Proof. intros [A B C D] Hn. unfold set_record_count. cbn. unfold u16. rewrite Z.mod_small by done. split; [split; done|done]. Qed.

(** The metadata of a record with new data at [off]. *)
Definition placed (off key_len total_len : Z) (d : NodeMetadata) : NodeMetadata :=
  set_total_len total_len (set_key_len key_len (set_offset off d)).

Lemma placed_ok off kl tl d :
  nmd_ok d -> 0 <= off <= sizeof_body -> 0 <= kl <= sizeof_body -> 0 <= tl <= sizeof_body ->
  nmd_ok (placed off kl tl d) /\ offset (placed off kl tl d) = off /\ key_len (placed off kl tl d) = kl /\
  total_len (placed off kl tl d) = tl /\ visible (placed off kl tl d) = visible d /\ nmd_control (placed off kl tl d) = nmd_control d.
Proof.
  intros [A B C D] H1 H2 H3. unfold placed, set_total_len, set_key_len, set_offset, u16. cbn.
  rewrite !Z.mod_small by node_lia. split_and!; try done. split; unfold fits; cbn; [done|node_lia..].
Qed.

(** *** update *)

Definition fits_limit (key value : bytes) : Prop := sizeof_NodeMetadata + data_size key value <= BZTREE_MIN_FREE_SPACE.
#[global] Instance fits_limit_dec key value : Decision (fits_limit key value).
Proof. unfold fits_limit. apply _. Defined.

Lemma has_room c node sw rs n : leaf c node sw rs -> settled sw -> n <= BZTREE_MIN_FREE_SPACE -> too_large sw n = false.
Proof.
  intros Hl [_ Hs] Hn. unfold too_large. destruct (leaf_small _ _ _ _ Hl) as [Hlen Hb].
  pose proof (nh_count _ _ _ _ (lf_has _ _ _ _ Hl)) as Hc. rewrite u64_id by (unfold fits; node_lia).
  apply Z.ltb_ge. unfold BZTREE_MIN_FREE_SPACE in *. node_lia.
Qed.

(** The first operation of [update]: more of the block is in use. *)
Lemma reserve_block p sw rs M c c' key value :
  tree p sw rs M c -> settled sw -> fits_limit key value ->
  let sw1 := set_block_size (block_size sw + data_size key value) sw in
  sw_fine sw1 /\ block_size sw1 = block_size sw + data_size key value /\
  (moved p [sw_entry (spot p) sw sw1] c c' -> tree p sw1 rs M c').
Proof.
  intros H [_ Hset] Hfit sw1. pose proof (tr_leaf _ _ _ _ _ H) as Hl. unfold fits_limit, BZTREE_MIN_FREE_SPACE in *.
  destruct (leaf_small _ _ _ _ Hl) as [Hlen Hb]. pose proof (nh_count _ _ _ _ (lf_has _ _ _ _ Hl)) as Hc.
  destruct (leaf_deleted _ _ _ _ Hl) as [Hd _]. assert (2 <= data_size key value) as Hds by (unfold data_size; lia).
  destruct (set_block_size_ok sw (block_size sw + data_size key value) (proj1 (leaf_sw_fine _ _ _ _ Hl)) ltac:(node_lia)) as [Hok Hbs].
  fold sw1 in Hok, Hbs. split; [split; [done|]; split; [change (delete_size sw1) with (delete_size sw)|]; node_lia|].
  split; [done|]. intros Hmv. eapply tree_leaf; [exact H|apply (mv_tree _ _ _ _ Hmv)| |apply H].
  pose proof (lf_deleted _ _ _ _ Hl) as Hdel.
  assert (forall n, 0 <= n < 30 -> c' !! nmd_at (D_RW (spot p)) n = c !! nmd_at (D_RW (spot p)) n) as Hnmd.
  { intros n Hn. apply (mv_leaf _ _ _ _ Hmv); [unfold in_leaf; node_lia|]. cbn. rewrite list_elem_of_singleton. node_lia. }
  eapply leaf_change; [exact Hl|apply (mv_words _ _ _ _ Hmv (sw_entry (spot p) sw sw1)); by left|exact Hok|apply Hl|apply Hl|..].
  - change (delete_size sw1) with (delete_size sw). lia.
  - apply Hc.
  - lia.
  - node_lia.
  - done.
  - eapply moved_region; [exact Hmv|apply Hl].
  - intros pos bs H1 H2. apply (moved_view _ _ _ _ _ _ Hmv); [apply Hl| |node_lia|node_lia].
    intros x ->%list_elem_of_singleton. cbn [wa sw_entry]. destruct (lf_at _ _ _ _ Hl) as [_ Hal].
    unfold status_word. rewrite <- Z.add_mod_idemp_l, Hal by lia. split; [done|]. node_lia.
  - intros n r Hr. left. split; [done|]. pose proof (lookup_lt_Some _ _ _ Hr). apply Hnmd. lia.
  - intros j H1 H2. apply Hnmd. node_lia.
  - apply Hl.
Qed.

(** The record of [key] with the new value, whose data is at the new end of the block. *)
Definition updated (sw : NodeHeaderStatusWord) (r : rec) (key value : bytes) : rec :=
  MkRec (set_total_len (data_size key value) (set_offset (sizeof_body - block_size sw) (r_md r))) (zstr key) (zstr value).
Definition update_sw (sw : NodeHeaderStatusWord) (r : rec) : NodeHeaderStatusWord :=
  set_delete_size (delete_size sw + total_len (r_md r)) sw.

Lemma update_counts c node sw rs old n r key v value :
  leaf c node sw rs -> rs !! n = Some r -> is_record r key v -> old + data_size key value <= block_size sw ->
  delete_size sw + live_size rs <= old + sizeof_NodeMetadata * Z.of_nat (length rs) ->
  NUL ∉ key -> NUL ∉ value -> 0 <= old ->
  let r' := updated sw r key value in
  sw_fine (update_sw sw r) /\ nmd_fine (r_md r') /\ is_record r' key value /\
  offset (r_md r') = sizeof_body - block_size sw /\ key_len (r_md r') = Z.of_nat (length key) + 1 /\
  total_len (r_md r') = data_size key value /\ rec_ok (block_size sw) r' /\
  delete_size (update_sw sw r) + live_size (<[n := r']> rs) <= block_size sw + sizeof_NodeMetadata * Z.of_nat (length rs).
Proof.
  intros Hl Hi Hr Hold Hdel Nk Nv Hold0 r'. destruct (leaf_record _ _ _ _ _ _ _ _ Hl Hi Hr) as (_ & _ & [Hok Ht] & Hkl & Htl & _).
  destruct (leaf_deleted _ _ _ _ Hl) as [Hd Hlive], (leaf_small _ _ _ _ Hl) as [Hlen Hb]. pose proof (lf_room _ _ _ _ Hl) as Hroom.
  assert (2 <= data_size key value /\ 2 <= data_size key v) as [Hds Hdv] by (unfold data_size; lia).
  assert (r_md r' = placed (sizeof_body - block_size sw) (key_len (r_md r)) (data_size key value) (r_md r)) as Er.
  { unfold r', updated, placed. cbn [r_md]. unfold set_total_len, set_key_len, set_offset. cbn. f_equal.
    symmetry. unfold u16. apply Z.mod_small. apply (ok_klen _ Hok). }
  destruct (placed_ok (sizeof_body - block_size sw) (key_len (r_md r)) (data_size key value) (r_md r) Hok)
    as (Hok' & Eo & Ek & Et & Ev & _); [node_lia| |node_lia|].
  { rewrite Hkl. unfold data_size in *. node_lia. }
  rewrite <- Er in *. destruct Hr as (Hv & _). rewrite Hv in Ev.
  assert (is_record r' key value) as Hr' by (split_and!; done).
  assert (rec_ok (block_size sw) r') as Hrok.
  { intros _. split; [by exists key, value|]. rewrite Eo, Et. node_lia. }
  assert (rec_size r' = data_size key value + 8 /\ rec_size r = data_size key v + 8) as [S1 S2].
  { unfold rec_size. rewrite Ev, Hv, Et, Htl. done. }
  rewrite (live_size_insert _ _ _ _ Hi), S1, S2.
  assert (0 <= live_size (<[n := r']> rs)) as Hlive'.
  { apply live_size_nonneg. intros j x [(_ & <- & _)|[_ Hx]]%list_lookup_insert_Some; [done|].
    apply (nh_rec _ _ _ _ (lf_has _ _ _ _ Hl) j x Hx). }
  rewrite (live_size_insert _ _ _ _ Hi), S1, S2 in Hlive'. unfold update_sw. rewrite Htl.
  destruct (set_delete_size_ok sw (delete_size sw + data_size key v) (proj1 (leaf_sw_fine _ _ _ _ Hl))) as [Hok2 Hdn];
    [node_lia|]. change sizeof_NodeMetadata with 8 in *.
  split; [split; [done|]; rewrite Hdn; change (block_size (set_delete_size _ sw)) with (block_size sw); node_lia|].
  split; [split; [done|]; node_lia|]. split_and!; try done. rewrite Hdn. lia.
Qed.

(** The second operation: the record's metadata points to the new data. *)
Lemma update_tree p sw rs M c c' old n r key v value :
  tree p sw rs M c -> rs !! n = Some r -> is_record r key v -> old + data_size key value <= block_size sw ->
  delete_size sw + live_size rs <= old + sizeof_NodeMetadata * Z.of_nat (length rs) ->
  NUL ∉ key -> NUL ∉ value -> 0 <= old ->
  view c (body (D_RW (spot p)) + (sizeof_body - block_size sw)) (zstr key ++ zstr value) ->
  moved p [sw_entry (spot p) sw (update_sw sw r); nmd_entry (spot p) (Z.of_nat n) (r_md r) (r_md (updated sw r key value))] c c' ->
  tree p (update_sw sw r) (<[n := updated sw r key value]> rs) (<[key := value]> M) c'.
Proof.
  intros H Hi Hr Hold Hdel Nk Nv Hold0 Hview Hmv. pose proof (tr_leaf _ _ _ _ _ H) as Hl.
  destruct (update_counts _ _ _ _ old _ _ _ v value Hl Hi Hr Hold Hdel Nk Nv Hold0)
    as (Hfine & [Hok _] & Hr' & Eo & Ek & Et & Hrok & Hdel').
  set (r' := updated sw r key value) in *. pose proof (lookup_lt_Some _ _ _ Hi) as Hlt.
  eapply tree_leaf; [exact H|apply (mv_tree _ _ _ _ Hmv)| |].
  - eapply (leaf_moved p c c' sw _ rs _ _ n); rewrite ?length_insert; try done.
    + intros x [-> |[-> |[]%elem_of_nil]%elem_of_cons]%elem_of_cons; [by left|by right].
    + by left.
    + apply Hfine.
    + apply Hl.
    + apply Hl.
    + apply (lf_has _ _ _ _ Hl).
    + apply Hl.
    + intros j x Hne Hx. by rewrite list_lookup_insert_ne in Hx.
    + intros x Hx. rewrite list_lookup_insert_eq in Hx by done. injection Hx as <-. right.
      split; [apply (mv_words _ _ _ _ Hmv (nmd_entry (spot p) (Z.of_nat n) (r_md r) (r_md r'))); right; by left|].
      split; [done|]. split; [done|]. intros _. rewrite Eo, Ek, Et. cbn [r' updated r_key r_val].
      rewrite !length_zstr. split; [done|]. unfold data_size. lia.
    + eapply (distinct_replace rs n r r' key v value); [apply Hl|done|done|].
      intros kx x Hx. destruct (is_record_fun _ _ _ _ _ Hr' Hx). done.
  - eapply (contents_replace _ _ _ _ _ _ _ _ _ _ (Some value)); [exact Hl|apply H|exact Hi|exact Hr|].
    intros k' v'. split; [|by intros [-> [= <-]]].
    intros Hx. destruct (is_record_fun _ _ _ _ _ Hr' Hx) as [-> ->]. done.
Qed.

(** One turn of the loop of [update] on the record of the key. *)
Lemma ev_update_turn d1 d2 ds en p sw rs M l e c mm n r key v value :
  tree p sw rs M c -> service (d1 :: d2 :: ds) en l e c -> protected_epoch en <> 0 ->
  apart (d1 :: d2 :: ds) p -> metrics_ok me mm -> NUL ∉ key -> NUL ∉ value -> settled sw -> fits_limit key value ->
  rs !! n = Some r -> is_record r key v ->
  exists sw' rs' l' e' c' mm', metrics_ok me mm' /\ tree p sw' rs' (<[key := value]> M) c' /\
    service ds en l' e' c' /\ used_space sw' <= used_space sw + (sizeof_NodeMetadata + data_size key value) /\
    (ev (bz_unprotect me fuel t) (St l' e' c' mm') tt (St l' (put_entry (epoch t) i (left_entry e') e') c' mm') ->
     ev (update_turn me fuel (S depth) t (D_RW (spot p)) (Z.of_nat n) key value tt) (St l e c mm) (inr (inr true))
        (St l' (put_entry (epoch t) i (left_entry e') e') c' mm')).
Proof.
  intros H Hs Hp Hap Hm Nk Nv Hset Hfit Hi Hr. pose proof (tr_leaf _ _ _ _ _ H) as Hl.
  destruct (leaf_record _ _ _ _ _ _ _ _ Hl Hi Hr) as (Hn & Hcell & Hfine & Hkl & Htl & _).
  destruct (lf_at _ _ _ _ Hl) as [Hpos Hal], (leaf_small _ _ _ _ Hl) as [_ Hb].
  destruct (reserve_block p sw rs M c c key value H Hset Hfit) as (Hsf1 & Hb1 & _).
  set (sw1 := set_block_size (block_size sw + data_size key value) sw) in *.
  destruct (ev_leaf_words (d2 :: ds) d1 en l e c mm p [sw_entry (spot p) sw sw1] Hs Hp Hm Hap Hpos)
    as (l1 & e1 & c1 & mm1 & Hm1 & Ev1 & Hs1 & _ & Hmv1).
  { apply sw_entry_ok; [apply Hs|done|by eapply leaf_sw_fine|done|apply (lf_has _ _ _ _ Hl)]. }
  destruct (reserve_block p sw rs M c c1 key value H Hset Hfit) as (_ & _ & H1). specialize (H1 Hmv1).
  apply apart_tail in Hap.
  destruct (ev_write_data (d2 :: ds) en p sw1 rs M l1 e1 c1 mm1 (block_size sw) (sizeof_body - block_size sw1) key value
    H1 Hs1 Hap) as (c2 & Ev2 & H2 & Hs2 & Hview); [apply Hl|lia|lia|lia|].
  pose proof (tr_leaf _ _ _ _ _ H2) as Hl2. pose proof (lf_deleted _ _ _ _ Hl) as Hdel.
  destruct (update_counts _ _ _ _ (block_size sw) n r key v value Hl2 Hi Hr ltac:(lia) Hdel Nk Nv ltac:(lia))
    as (Hsf2 & Hnf & Hr' & Eo & Ek & Et & _). set (r' := updated sw1 r key value) in *.
  destruct (leaf_record _ _ _ _ _ _ _ _ Hl2 Hi Hr) as (_ & Hcell2 & _).
  destruct (ev_leaf_words ds d2 en l1 e1 c2 mm1 p
    [sw_entry (spot p) sw1 (update_sw sw1 r); nmd_entry (spot p) (Z.of_nat n) (r_md r) (r_md r')] Hs2 Hp Hm1 Hap Hpos)
    as (l3 & e3 & c3 & mm3 & Hm3 & Ev3 & Hs3 & _ & Hmv3).
  { apply two_words; try done; [apply Hs2| |lia|apply (lf_has _ _ _ _ Hl2)]. right. rewrite Htl. unfold data_size. lia. }
  exists (update_sw sw1 r), (<[n := r']> rs), l3, e3, c3, mm3. split_and!; [done| |done| |].
  2: { unfold used_space. change (block_size (update_sw sw1 r)) with (block_size sw1).
       change (record_count (update_sw sw1 r)) with (record_count sw). rewrite Hb1. node_lia. }
  { eapply (update_tree _ _ _ _ _ _ (block_size sw)); try done; lia. }
  intros Hun. unfold update_turn. eapply ev_bind; [by eapply ev_load_sw|].
  eapply ev_bind; [eapply ev_load_nmd; [exact Hcell|apply Hfine]|].
  destruct Hr as (Hv & _). rewrite Hv, (proj2 (lf_sw _ _ _ _ Hl)). cbn [negb orb].
  rewrite (has_room _ _ _ _ _ Hl Hset) by (unfold fits_limit in Hfit; node_lia).
  eapply ev_bind; [exact Ev1|]. cbn [negb].
  eapply ev_bind; [apply ev_check, Z.eqb_eq; exact Ek|].
  change (set_total_len _ (set_offset _ (r_md r))) with (r_md r').
  eapply ev_bind.
  { rewrite <- Eo, <- Ek in Ev2. exact Ev2. }
  eapply ev_bind; [exact Ev3|]. cbn [negb]. eapply ev_bind; [exact Hun|]. apply ev_ret.
Qed.

(** What [update] does once it has looked for the key. *)
Definition update_found (key value : bytes) (leaf_oid : TOID) (found : option Z) : prog World (unit + bool) :=
  match found with
  | Some n => loop fuel (update_turn me fuel (S depth) t (D_RW leaf_oid) n key value) tt
  | None => bz_unprotect me fuel t ;;; Ret (inr false)
  end.

Lemma leaves_update_found d1 d2 ds en p sw rs M l e c mm key value :
  tree p sw rs M c -> service (d1 :: d2 :: ds) en l e c -> protected_epoch en <> 0 -> apart (d1 :: d2 :: ds) p -> metrics_ok me mm ->
  NUL ∉ key -> NUL ∉ value -> settled sw -> fits_limit key value ->
  let done_ := bool_decide (is_Some (M !! key)) in
  leaves (update_found key value (spot p) (Z.of_nat <$> find_from key 0 rs)) (inr done_) (if done_ then <[key := value]> M else M) false
    (sizeof_NodeMetadata + data_size key value) sw (d1 :: d2 :: ds) p l e c mm.
Proof.
  intros H Hs Hp Hap Hm Nk Nv Hset Hfit done_. pose proof (tr_leaf _ _ _ _ _ H) as Hl.
  pose proof (find_contents _ _ _ _ M key Hl (tr_contents _ _ _ _ _ H)) as Hfind.
  destruct (find_from key 0 rs) as [n|] eqn:Ef; cbn [fmap option_fmap option_map update_found].
  - destruct Hfind as (r & v & Hi & Hr & HMk).
    assert (done_ = true) as -> by (apply bool_decide_eq_true_2; by eexists).
    destruct (ev_update_turn d1 d2 ds en p sw rs M l _ c mm n r key v value
      H Hs Hp Hap Hm Nk Nv Hset Hfit Hi Hr) as (sw' & rs' & l' & e' & c' & mm' & Hm' & H' & Hs' & Hsp & Hev).
    eapply (leaves_unprotect _ _ 2); [lia|exact Hsp|exact Hm'|exact H'|exact Hs'|by do 2 eapply apart_tail|]. intros Hun.
    apply ev_loop_once; [lia|]. by apply Hev.
  - assert (done_ = false) as -> by (apply bool_decide_eq_false_2; rewrite Hfind; by intros []).
    eapply (leaves_unprotect _ _ 0); [lia| |exact Hm|exact H|exact Hs|exact Hap|]; [unfold data_size, sizeof_NodeMetadata; lia|]. intros Hun.
    eapply ev_bind; [exact Hun|]. apply ev_ret.
Qed.

(** A key and value over the limit are refused before anything is looked for. *)
Lemma leaves_refused {A} (q : prog World A) (b : A) M ds en p sw rs l e c mm key value :
  tree p sw rs M c -> service ds en l e c -> apart ds p -> metrics_ok me mm -> ~ fits_limit key value ->
  ev q (St l e c mm) b (St l e c mm) ->
  leaves q b M (negb (protected_epoch en =? 0) && negb (bool_decide (fits_limit key value)))
    (sizeof_NodeMetadata + data_size key value) sw ds p l e c mm.
Proof.
  intros H Hs Hap Hm Hbig Hev. rewrite (bool_decide_eq_false_2 _ Hbig).
  exists 0%nat, sw, rs, en, l, e, c, mm. split_and!; try done; [lia| |unfold data_size, sizeof_NodeMetadata; lia].
  by destruct (protected_epoch en =? 0).
Qed.

(** [update] replaces the value of a key that is there. *)
Lemma leaves_update d1 d2 ds en p sw rs M l e c mm key value :
  tree p sw rs M c -> service (d1 :: d2 :: ds) en l e c -> apart (d1 :: d2 :: ds) p -> metrics_ok me mm ->
  NUL ∉ key -> NUL ∉ value -> covers p key -> calm p sw ->
  let done_ := bool_decide (fits_limit key value /\ is_Some (M !! key)) in
  leaves (BzTree_update me fuel (S depth) t key value) done_ (if done_ then <[key := value]> M else M)
    (negb (protected_epoch en =? 0) && negb (bool_decide (fits_limit key value)))
    (sizeof_NodeMetadata + data_size key value) sw (d1 :: d2 :: ds) p l e c mm.
Proof.
  intros H Hs Hap Hm Nk Nv Hcov Hcalm done_.
  unfold BzTree_update. destruct (Z.ltb_spec BZTREE_MIN_FREE_SPACE (sizeof_NodeMetadata + data_size key value)) as [Hbig|Hfit].
  { assert (~ fits_limit key value) as Hno by (unfold fits_limit; lia).
    assert (done_ = false) as -> by (apply bool_decide_eq_false_2; tauto). eapply leaves_refused; eauto. apply ev_ret. }
  destruct (service_put _ _ _ _ _ (protected_entry e) Hs eq_refl) as [Hs1 Hc1].
  assert (done_ = bool_decide (is_Some (M !! key))) as -> by (apply bool_decide_ext; unfold fits_limit; tauto).
  rewrite (bool_decide_eq_true_2 (fits_limit key value)), andb_false_r by done.
  apply (leaves_begin (S depth) key (update_found key value) _ _ _ _ _ _ en _ rs M); [done..|].
  eapply leaves_update_found; try done; [by eapply service_protected|by eapply calm_settled].
Qed.

(** *** insert *)

(** A metadata entry being inserted: marked with the epoch. *)
Definition reserved : NodeMetadata := set_offset (reserved_offset t) (MkNMD 0 false 0 0 0).
Definition hole : rec := MkRec reserved [] [].
Definition insert_sw (sw : NodeHeaderStatusWord) (key value : bytes) : NodeHeaderStatusWord :=
  set_record_count (record_count sw + 1) (set_block_size (block_size sw + data_size key value) sw).

Lemma reserved_fine : nmd_fine reserved /\ key_len reserved = 0 /\ total_len reserved = 0.
Proof.
  assert (fits 28 (reserved_offset t mod 2 ^ 28)) by (unfold fits; apply Z.mod_pos_bound; lia).
  split; [|done]. split; [|done]. split; [done|done|done|done].
Qed.

Lemma distinct_add rs r : distinct rs ->
  (forall kx v j s v', is_record r kx v -> rs !! j = Some s -> is_record s kx v' -> False) -> distinct (rs ++ [r]).
Proof.
  intros Hd Hr a b x y kx va vb Ha Hb Hx Hy.
  apply lookup_app_Some in Ha as [Ha|[La Ha]], Hb as [Hb|[Lb Hb]].
  - by eapply (Hd a b).
  - apply list_lookup_singleton_Some in Hb as [_ <-]. destruct (Hr _ _ _ _ _ Hy Ha Hx).
  - apply list_lookup_singleton_Some in Ha as [_ <-]. destruct (Hr _ _ _ _ _ Hx Hb Hy).
  - apply list_lookup_singleton_Some in Ha as [? _], Hb as [? _]. lia.
Qed.

Lemma insert_counts c node sw rs key value :
  leaf c node sw rs -> settled sw -> fits_limit key value ->
  let sw1 := insert_sw sw key value in
  sw_fine sw1 /\ block_size sw1 = block_size sw + data_size key value /\
  record_count sw1 = Z.of_nat (length rs) + 1 /\ delete_size sw1 = delete_size sw /\
  8 * (Z.of_nat (length rs) + 1) + block_size sw1 <= sizeof_body.
Proof.
  intros Hl [_ Hset] Hfit sw1. unfold fits_limit, BZTREE_MIN_FREE_SPACE in *.
  destruct (leaf_small _ _ _ _ Hl) as [Hlen Hb], (leaf_deleted _ _ _ _ Hl) as [Hd _].
  pose proof (nh_count _ _ _ _ (lf_has _ _ _ _ Hl)) as Hc. assert (2 <= data_size key value) as Hds by (unfold data_size; lia).
  destruct (set_block_size_ok sw (block_size sw + data_size key value) (proj1 (leaf_sw_fine _ _ _ _ Hl)) ltac:(node_lia)) as [Hok Hbs].
  destruct (set_record_count_ok _ (record_count sw + 1) Hok ltac:(node_lia)) as [Hok1 Hrc]. fold (insert_sw sw key value) in Hok1, Hrc.
  fold sw1 in Hok1, Hrc. assert (block_size sw1 = block_size sw + data_size key value) as Eb by exact Hbs.
  split; [split; [done|]; split; [change (delete_size sw1) with (delete_size sw)|]; node_lia|].
  split_and!; [done|lia|done|node_lia].
Qed.

(** The first operation reserves a record. *)
Lemma reserve_tree p sw rs M c c' key value :
  tree p sw rs M c -> settled sw -> fits_limit key value ->
  moved p [sw_entry (spot p) sw (insert_sw sw key value);
                 nmd_entry (spot p) (Z.of_nat (length rs)) (MkNMD 0 false 0 0 0) reserved] c c' ->
  tree p (insert_sw sw key value) (rs ++ [hole]) M c'.
Proof.
  intros H Hset Hfit Hmv. pose proof (tr_leaf _ _ _ _ _ H) as Hl.
  destruct (insert_counts _ _ _ _ key value Hl Hset Hfit) as (Hfine & Eb & Ec & Ed & Hroom).
  set (sw1 := insert_sw sw key value) in *. destruct (leaf_small _ _ _ _ Hl) as [Hlen Hb].
  assert (2 <= data_size key value) as Hds by (unfold data_size; lia). pose proof (lf_deleted _ _ _ _ Hl) as Hdel.
  assert (forall kx v, is_record hole kx v -> False) as Hno by (intros ? ? (? & _); done).
  eapply tree_leaf; [exact H|apply (mv_tree _ _ _ _ Hmv)| |].
  - eapply (leaf_moved p c c' sw _ rs _ _ (length rs)); rewrite ?length_app; cbn [length]; try done.
    + intros x [-> |[-> |[]%elem_of_nil]%elem_of_cons]%elem_of_cons; [by left|by right].
    + by left.
    + apply Hfine.
    + apply Hl.
    + apply Hl.
    + rewrite live_size_app. change (live_size [hole]) with 0. node_lia.
    + lia.
    + lia.
    + node_lia.
    + lia.
    + lia.
    + intros j x Hne [Hx|[Lx Hx]]%lookup_app_Some; [done|]. apply list_lookup_singleton_Some in Hx as [? _]. lia.
    + intros x Hx. rewrite list_lookup_middle in Hx by done. injection Hx as <-. right.
      split; [apply (mv_words _ _ _ _ Hmv (nmd_entry (spot p) (Z.of_nat (length rs)) (MkNMD 0 false 0 0 0) reserved)); right; by left|].
      split; [apply reserved_fine|]. done.
    + apply distinct_add; [apply Hl|]. intros ? ? ? ? ? E. by apply Hno in E.
  - intros kx v. rewrite (tr_contents _ _ _ _ _ H kx v). split.
    + intros (j & x & Hj & Hx). exists j, x. split; [by apply lookup_app_l_Some|done].
    + intros (j & x & [Hj|[_ Hj]]%lookup_app_Some & Hx); [eauto|].
      apply list_lookup_singleton_Some in Hj as [_ <-]. by apply Hno in Hx.
Qed.

(** The record inserted, with its data at the end of the block. *)
Definition inserted (sw1 : NodeHeaderStatusWord) (key value : bytes) : rec :=
  MkRec (set_visible true (placed (sizeof_body - block_size sw1) (Z.of_nat (length key) + 1) (data_size key value) reserved))
    (zstr key) (zstr value).

Lemma inserted_spec sw1 key value :
  0 <= block_size sw1 <= sizeof_body -> data_size key value <= block_size sw1 -> NUL ∉ key -> NUL ∉ value ->
  let r' := inserted sw1 key value in
  nmd_fine (r_md r') /\ is_record r' key value /\ offset (r_md r') = sizeof_body - block_size sw1 /\
  key_len (r_md r') = Z.of_nat (length key) + 1 /\ total_len (r_md r') = data_size key value /\
  rec_ok (block_size sw1) r' /\ rec_size r' = data_size key value + 8.
Proof.
  intros Hb Hds Nk Nv r'. destruct reserved_fine as [[Hok _] _].
  assert (0 <= Z.of_nat (length key) + 1 <= data_size key value) as Hk by (unfold data_size; lia).
  destruct (placed_ok (sizeof_body - block_size sw1) (Z.of_nat (length key) + 1) (data_size key value) reserved Hok)
    as (Hok' & Eo & Ek & Et & _ & _); [lia..|].
  assert (is_record r' key value) as Hr' by (split_and!; done).
  assert (nmd_ok (r_md r')) as Hok2 by (destruct Hok'; split; done).
  unfold r', inserted in *. cbn [r_md] in *. set (pl := placed _ _ _ reserved) in *.
  change (offset (set_visible true pl)) with (offset pl). change (key_len (set_visible true pl)) with (key_len pl).
  change (total_len (set_visible true pl)) with (total_len pl).
  split_and!; try done.
  - split; [done|]. change (total_len pl < 2 ^ 12). rewrite Et. node_lia.
  - intros _. cbn [r_md]. change (offset (set_visible true pl)) with (offset pl).
    change (total_len (set_visible true pl)) with (total_len pl). rewrite Eo, Et. split; [by exists key, value|lia].
  - change (total_len pl + 8 = data_size key value + 8). by rewrite Et.
Qed.

(** The second operation makes it visible. *)
Lemma insert_tree p sw1 rs M c c' key value :
  tree p sw1 (rs ++ [hole]) M c -> contents rs M -> M !! key = None -> NUL ∉ key -> NUL ∉ value ->
  data_size key value <= block_size sw1 ->
  delete_size sw1 + live_size rs + data_size key value <= block_size sw1 + sizeof_NodeMetadata * Z.of_nat (length rs) ->
  view c (body (D_RW (spot p)) + (sizeof_body - block_size sw1)) (zstr key ++ zstr value) ->
  moved p [sw_entry (spot p) sw1 sw1; nmd_entry (spot p) (Z.of_nat (length rs)) reserved (r_md (inserted sw1 key value))] c c' ->
  tree p sw1 (rs ++ [inserted sw1 key value]) (<[key := value]> M) c'.
Proof.
  intros H HM0 Hno Nk Nv Hds Hdel Hview Hmv. pose proof (tr_leaf _ _ _ _ _ H) as Hl.
  destruct (leaf_small _ _ _ _ Hl) as [_ Hb].
  destruct (inserted_spec sw1 key value Hb Hds Nk Nv) as ([Hok _] & Hr' & Eo & Ek & Et & Hrok & Hsz).
  set (r' := inserted sw1 key value) in *.
  eapply tree_leaf; [exact H|apply (mv_tree _ _ _ _ Hmv)| |by apply contents_insert].
  assert (length (rs ++ [r']) = length (rs ++ [hole])) as Hlen by (rewrite !length_app; done).
  eapply (leaf_moved p c c' sw1 _ (rs ++ [hole]) _ _ (length rs)); rewrite ?Hlen; try done.
  - intros x [-> |[-> |[]%elem_of_nil]%elem_of_cons]%elem_of_cons; [by left|by right].
  - by left.
  - apply (lf_has _ _ _ _ Hl).
  - apply Hl.
  - apply Hl.
  - rewrite live_size_app, length_app. cbn [live_size foldr length]. rewrite Hsz. change sizeof_NodeMetadata with 8 in *. lia.
  - apply (lf_has _ _ _ _ Hl).
  - apply Hl.
  - rewrite length_app. simpl. lia.
  - intros j x Hne [Hx|[Lx Hx]]%lookup_app_Some; [by apply lookup_app_l_Some|].
    apply list_lookup_singleton_Some in Hx as [? _]. lia.
  - intros x Hx. rewrite list_lookup_middle in Hx by done. injection Hx as <-. right.
    split; [apply (mv_words _ _ _ _ Hmv (nmd_entry (spot p) (Z.of_nat (length rs)) reserved (r_md r'))); right; by left|].
    split; [done|]. split; [done|]. intros _. rewrite Eo, Ek, Et. cbn [r' inserted r_key r_val].
    rewrite !length_zstr. split; [done|]. unfold data_size. lia.
  - apply distinct_add.
    + intros a b x y kx va vb Ha Hb' Hx Hy. eapply (lf_keys _ _ _ _ Hl a b x y kx va vb);
        [by apply lookup_app_l_Some|by apply lookup_app_l_Some|done|done].
    + intros kx v j s v' Hx Hj Hsr. destruct (is_record_fun _ _ _ _ _ Hr' Hx) as [<- _].
      assert (M !! key = Some v') as E by (apply HM0; eauto). congruence.
Qed.

Lemma ev_insert_reserve d ds en p sw rs M l e c mm key value :
  tree p sw rs M c -> service (d :: ds) en l e c -> protected_epoch en <> 0 -> apart (d :: ds) p ->
  metrics_ok me mm -> settled sw -> fits_limit key value ->
  exists l' e' c' mm', metrics_ok me mm' /\ tree p (insert_sw sw key value) (rs ++ [hole]) M c' /\
    service ds en l' e' c' /\
    ev (insert_reserve me fuel (S depth) t (D_RW (spot p)) key value) (St l e c mm) tt (St l' e' c' mm').
Proof.
  intros H Hs Hp Hap Hm Hset Hfit. pose proof (tr_leaf _ _ _ _ _ H) as Hl.
  destruct (insert_counts _ _ _ _ key value Hl Hset Hfit) as (Hfine & Eb & Ec & Ed & Hroom).
  destruct (lf_at _ _ _ _ Hl) as [Hpos Hal], (leaf_small _ _ _ _ Hl) as [Hlen Hb].
  assert (2 <= data_size key value) as Hds by (unfold data_size; lia).
  pose proof (nh_count _ _ _ _ (lf_has _ _ _ _ Hl)) as Hc. pose proof (lf_room _ _ _ _ Hl) as Hroom0.
  assert (c !! nmd_at (D_RW (spot p)) (Z.of_nat (length rs)) = Some (nmd_word (MkNMD 0 false 0 0 0))) as Hcell
    by (apply (lf_free _ _ _ _ Hl); [lia|node_lia]).
  destruct reserved_fine as (Hrf & _).
  destruct (ev_leaf_words ds d en l e c mm p
    [sw_entry (spot p) sw (insert_sw sw key value); nmd_entry (spot p) (Z.of_nat (length rs)) (MkNMD 0 false 0 0 0) reserved] Hs Hp Hm Hap Hpos)
    as (l1 & e1 & c1 & mm1 & Hm1 & Ev1 & Hs1 & _ & Hmv1).
  { apply two_words; try done; [apply Hs|by eapply leaf_sw_fine|by left|node_lia|apply (lf_has _ _ _ _ Hl)]. }
  exists l1, e1, c1, mm1. split_and!; [done|by eapply reserve_tree|done|].
  unfold insert_reserve. apply ev_loop_once; [lia|]. eapply ev_bind; [by eapply ev_load_sw|].
  rewrite (has_room _ _ _ _ _ Hl Hset) by (unfold fits_limit in Hfit; lia). rewrite Hc.
  eapply ev_bind; [by eapply ev_load_nmd|]. eapply ev_bind; [by apply ev_check|].
  unfold insert_sw in Ev1. rewrite Hc in Ev1. eapply ev_bind; [exact Ev1|]. apply ev_ret.
Qed.

(** [insert] adds a key that is not there. *)
Definition insert_found (key value : bytes) (leaf_oid : TOID) (found : option Z) : prog World (unit + bool) :=
  let leaf := D_RW leaf_oid in
  match found with
  | Some _ => bz_unprotect me fuel t ;;; Ret (inr false)
  | None =>
      insert_reserve me fuel (S depth) t leaf key value ;;;
      let! sw := mem (load_sw leaf) in
      let! md_old := mem (load_nmd leaf (record_count sw - 1)) in
      let md := set_total_len (data_size key value)
                  (set_key_len (Z.of_nat (length key) + 1) (set_offset (sizeof_body - block_size sw) md_old)) in
      mem (write_data leaf (offset md) (key_len md) key value) ;;;
      if frozen sw then bz_unprotect me fuel t ;;; Ret (inl tt) else
      let! ok := desc_mwcas me fuel (S depth) t
                   [(status_word leaf, sw_word sw, sw_word sw);
                    (nmd_at leaf (record_count sw - 1), nmd_word md_old, nmd_word (set_visible true md))] in
      bz_unprotect me fuel t ;;;
      if ok : bool then Ret (inr true) else Ret (inl tt)
  end.

Lemma ev_insert_new d1 d2 ds en p sw rs M l e c mm key value :
  tree p sw rs M c -> service (d1 :: d2 :: ds) en l e c -> protected_epoch en <> 0 ->
  apart (d1 :: d2 :: ds) p -> metrics_ok me mm -> NUL ∉ key -> NUL ∉ value -> settled sw -> fits_limit key value ->
  M !! key = None ->
  exists sw' rs' l' e' c' mm', metrics_ok me mm' /\ tree p sw' rs' (<[key := value]> M) c' /\
    service ds en l' e' c' /\ used_space sw' <= used_space sw + (sizeof_NodeMetadata + data_size key value) /\
    (ev (bz_unprotect me fuel t) (St l' e' c' mm') tt (St l' (put_entry (epoch t) i (left_entry e') e') c' mm') ->
     ev (insert_found key value (spot p) None) (St l e c mm) (inr true)
        (St l' (put_entry (epoch t) i (left_entry e') e') c' mm')).
Proof.
  intros H Hs Hp Hap Hm Nk Nv Hset Hfit Hno. pose proof (tr_leaf _ _ _ _ _ H) as Hl.
  destruct (insert_counts _ _ _ _ key value Hl Hset Hfit) as (Hfine & Eb & Ec & Ed & Hroom).
  destruct (ev_insert_reserve d1 (d2 :: ds) en p sw rs M l e c mm key value H Hs Hp Hap Hm Hset Hfit)
    as (l1 & e1 & c1 & mm1 & Hm1 & H1 & Hs1 & Ev1). apply apart_tail in Hap.
  set (sw1 := insert_sw sw key value) in *. destruct (lf_at _ _ _ _ Hl) as [Hpos Hal], (leaf_small _ _ _ _ Hl) as [_ Hb].
  assert (2 <= data_size key value) as Hds by (unfold data_size; lia).
  destruct (inserted_spec sw1 key value) as (Hnf & Hr' & Eo & Ek & Et & _); [node_lia|lia|done|done|].
  destruct reserved_fine as (Hrf & Hrk & Hrt).
  destruct (ev_write_data (d2 :: ds) en p sw1 (rs ++ [hole]) M l1 e1 c1 mm1 (block_size sw) (sizeof_body - block_size sw1) key value
    H1 Hs1 Hap) as (c2 & Ev2 & H2 & Hs2 & Hview); [|lia|lia|lia|].
  { intros n r [Hr|[_ Hr]]%lookup_app_Some; [by eapply lf_recs|]. by apply list_lookup_singleton_Some in Hr as [_ <-]. }
  pose proof (tr_leaf _ _ _ _ _ H2) as Hl2.
  assert (c2 !! nmd_at (D_RW (spot p)) (Z.of_nat (length rs)) = Some (nmd_word reserved)) as Hcell.
  { apply (nh_rec _ _ _ _ (lf_has _ _ _ _ Hl2) (length rs) hole). by apply list_lookup_middle. }
  assert (c1 !! nmd_at (D_RW (spot p)) (Z.of_nat (length rs)) = Some (nmd_word reserved)) as Hcell1.
  { apply (nh_rec _ _ _ _ (lf_has _ _ _ _ (tr_leaf _ _ _ _ _ H1)) (length rs) hole). by apply list_lookup_middle. }
  destruct (ev_leaf_words ds d2 en l1 e1 c2 mm1 p
    [sw_entry (spot p) sw1 sw1; nmd_entry (spot p) (Z.of_nat (length rs)) reserved (r_md (inserted sw1 key value))] Hs2 Hp Hm1 Hap Hpos)
    as (l3 & e3 & c3 & mm3 & Hm3 & Ev3 & Hs3 & _ & Hmv3).
  { apply two_words; try done; [apply Hs2|by left|node_lia|apply (lf_has _ _ _ _ Hl2)]. }
  exists sw1, (rs ++ [inserted sw1 key value]), l3, e3, c3, mm3. split_and!; [done| |done| |].
  2: { unfold used_space. rewrite Eb, Ec, (nh_count _ _ _ _ (lf_has _ _ _ _ Hl)). node_lia. }
  { apply (insert_tree _ _ _ _ c2); try done; [apply H|lia|]. rewrite Ed, Eb. pose proof (lf_deleted _ _ _ _ Hl). lia. }
  intros Hun. unfold insert_found. cbn zeta. eapply ev_bind; [exact Ev1|]. eapply ev_bind; [by eapply ev_load_sw|].
  replace (record_count sw1 - 1) with (Z.of_nat (length rs)) by lia.
  eapply ev_bind; [eapply ev_load_nmd; [exact Hcell1|apply Hrf]|].
  change (set_total_len (data_size key value) _) with
    (placed (sizeof_body - block_size sw1) (Z.of_nat (length key) + 1) (data_size key value) reserved).
  change (set_visible true _) with (r_md (inserted sw1 key value)).
  eapply ev_bind.
  { change (offset (placed _ _ _ _)) with (offset (r_md (inserted sw1 key value))).
    change (key_len (placed _ _ _ _)) with (key_len (r_md (inserted sw1 key value))). rewrite Eo, Ek. exact Ev2. }
  rewrite (proj2 (lf_sw _ _ _ _ Hl2)). eapply ev_bind; [exact Ev3|]. eapply ev_bind; [exact Hun|]. apply ev_ret.
Qed.

Lemma leaves_insert_found d1 d2 ds en p sw rs M l e c mm key value :
  tree p sw rs M c -> service (d1 :: d2 :: ds) en l e c -> protected_epoch en <> 0 -> apart (d1 :: d2 :: ds) p -> metrics_ok me mm ->
  NUL ∉ key -> NUL ∉ value -> settled sw -> fits_limit key value ->
  let done_ := bool_decide (M !! key = None) in
  leaves (insert_found key value (spot p) (Z.of_nat <$> find_from key 0 rs)) (inr done_) (if done_ then <[key := value]> M else M) false
    (sizeof_NodeMetadata + data_size key value) sw (d1 :: d2 :: ds) p l e c mm.
Proof.
  intros H Hs Hp Hap Hm Nk Nv Hset Hfit done_. pose proof (tr_leaf _ _ _ _ _ H) as Hl.
  pose proof (find_contents _ _ _ _ M key Hl (tr_contents _ _ _ _ _ H)) as Hfind.
  destruct (find_from key 0 rs) as [n|] eqn:Ef; cbn [fmap option_fmap option_map].
  - destruct Hfind as (r & v & Hi & Hr & HMk).
    assert (done_ = false) as -> by (apply bool_decide_eq_false_2; congruence).
    eapply (leaves_unprotect _ _ 0); [lia| |exact Hm|exact H|exact Hs|exact Hap|]; [unfold data_size, sizeof_NodeMetadata; lia|]. intros Hun.
    eapply ev_bind; [exact Hun|]. apply ev_ret.
  - assert (done_ = true) as -> by (by apply bool_decide_eq_true_2).
    destruct (ev_insert_new d1 d2 ds en p sw rs M l _ c mm key value
      H Hs Hp Hap Hm Nk Nv Hset Hfit Hfind) as (sw' & rs' & l' & e' & c' & mm' & Hm' & H' & Hs' & Hsp & Hev).
    eapply (leaves_unprotect _ _ 2); [lia|exact Hsp|exact Hm'|exact H'|exact Hs'|by do 2 eapply apart_tail|]. exact Hev.
Qed.

Lemma leaves_insert d1 d2 ds en p sw rs M l e c mm key value :
  tree p sw rs M c -> service (d1 :: d2 :: ds) en l e c -> apart (d1 :: d2 :: ds) p -> metrics_ok me mm ->
  NUL ∉ key -> NUL ∉ value -> covers p key -> calm p sw ->
  let done_ := bool_decide (fits_limit key value /\ M !! key = None) in
  leaves (BzTree_insert me fuel (S depth) t key value) done_ (if done_ then <[key := value]> M else M)
    (negb (protected_epoch en =? 0) && negb (bool_decide (fits_limit key value)))
    (sizeof_NodeMetadata + data_size key value) sw (d1 :: d2 :: ds) p l e c mm.
Proof.
  intros H Hs Hap Hm Nk Nv Hcov Hcalm done_.
  unfold BzTree_insert. destruct (Z.ltb_spec BZTREE_MIN_FREE_SPACE (sizeof_NodeMetadata + data_size key value)) as [Hbig|Hfit].
  { assert (~ fits_limit key value) as Hno by (unfold fits_limit; lia).
    assert (done_ = false) as -> by (apply bool_decide_eq_false_2; tauto). eapply leaves_refused; eauto. apply ev_ret. }
  destruct (service_put _ _ _ _ _ (protected_entry e) Hs eq_refl) as [Hs1 Hc1].
  assert (done_ = bool_decide (M !! key = None)) as -> by (apply bool_decide_ext; unfold fits_limit; tauto).
  rewrite (bool_decide_eq_true_2 (fits_limit key value)), andb_false_r by done.
  apply (leaves_begin (S depth) key (insert_found key value) _ _ _ _ _ _ en _ rs M); [done..|].
  eapply leaves_insert_found; try done; [by eapply service_protected|by eapply calm_settled].
Qed.
End map.
