(* ===== verification/BzMap.v ===== *)
(** * The BzTree is a map (bztree.cc)

    The operations, run alone, are those of a finite map from keys to values; first at any
    place, then for a tree that is a single leaf and any sequence of operations. *)
From Stdlib Require Import ZArith Lia Ascii.
From stdpp Require Import base list gmap strings.
From S2P Require Import Prelude Bytes Prog Status Hash Library Epoch Garbage Metrics Memory Descriptor MwCAS Entries Target Pool DList DListSpec BzNode BzTree BzBytes BzNodeSpec BzSmo BzLeaf BzSupply BzPlace.
#[local] Open Scope Z_scope.
#[local] Open Scope machine_scope.
#[local] Open Scope prog_scope.

Section map.
Context {HP : Platform} {HL : PlatformLaws} {HM : Pmdk} (me : Z) (fuel : nat) (fuel_big : (30 < fuel)%nat) (depth : nat).
Context (t : BzTree) (m g part : Z) (k sz i : nat) (own : nat) (own_ne : epoch t <> m).

(** ** The specification *)

Inductive operation := Insert (key value : bytes) | Update (key value : bytes) | Lookup (key : bytes) | Erase (key : bytes).
Inductive answer := Flag (b : bool) | Found (v : option bytes).

Definition run_operation (o : operation) : prog World answer :=
  match o with
  | Insert key value => let! b := BzTree_insert me fuel (S depth) t key value in Ret (Flag b)
  | Update key value => let! b := BzTree_update me fuel (S depth) t key value in Ret (Flag b)
  | Lookup key => let! v := BzTree_lookup me fuel (S depth) t key in Ret (Found v)
  | Erase key => let! b := BzTree_erase me fuel (S depth) t key in Ret (Flag b)
  end.

(** What each operation answers and makes of the map. *)
Definition map_step (o : operation) (M : gmap (list ascii) (list ascii)) : answer * gmap (list ascii) (list ascii) :=
  match o with
  | Insert key value =>
      let ok := bool_decide (fits_limit key value /\ M !! key = None) in (Flag ok, if ok then <[key := value]> M else M)
  | Update key value =>
      let ok := bool_decide (fits_limit key value /\ is_Some (M !! key)) in (Flag ok, if ok then <[key := value]> M else M)
  | Lookup key => (Found (M !! key), M)
  | Erase key => (Flag (bool_decide (is_Some (M !! key))), delete key M)
  end.

(** Strings are C strings; space an operation may take; whether it may modify the
    structure; whether the thread is protected after it. *)
Definition c_strings (o : operation) : Prop :=
  match o with Insert key value | Update key value => NUL ∉ key /\ NUL ∉ value | Lookup key | Erase key => NUL ∉ key end.
Definition op_key (o : operation) : bytes :=
  match o with Insert key _ | Update key _ | Lookup key | Erase key => key end.
Definition cost (o : operation) : Z :=
  match o with Insert key value | Update key value => sizeof_NodeMetadata + data_size key value | _ => 0 end.
Definition settles (o : operation) : bool := match o with Insert _ _ | Update _ _ => true | _ => false end.
Definition still_protected (o : operation) (M : gmap (list ascii) (list ascii)) (prot : bool) : bool :=
  match o with
  | Insert key value | Update key value => prot && negb (bool_decide (fits_limit key value))
  | Lookup _ => false
  | Erase key => bool_decide (is_Some (M !! key))
  end.

(** A sequence of operations. *)
Fixpoint run_operations (os : list operation) : prog World (list answer) :=
  match os with
  | [] => Ret []
  | o :: os => let! a := run_operation o in let! r := run_operations os in Ret (a :: r)
  end.
Fixpoint map_steps (os : list operation) (M : gmap (list ascii) (list ascii)) : list answer * gmap (list ascii) (list ascii) :=
  match os with
  | [] => ([], M)
  | o :: os => let '(a, M) := map_step o M in let '(r, M) := map_steps os M in (a :: r, M)
  end.
Definition total_cost (os : list operation) : Z := foldr (fun o n => cost o + n) 0 os.

Lemma total_cost_nonneg os : 0 <= total_cost os.
Proof.
  clear fuel_big.
  induction os as [|o os IH]; [done|]. cbn [total_cost foldr]. unfold total_cost in *.
  assert (0 <= cost o) by (destruct o; unfold cost, data_size, sizeof_NodeMetadata; lia). lia.
Qed.

(** ** At a place *)

Abbreviation place := (BzPlace.place me fuel t).
Abbreviation service := (BzPlace.service me t m g part k sz i own).

(** An operation on a leaf that its key leads to: the answer of the map; the leaf for the
    map after it; at least all but two descriptors; not more than its cost in space. *)
Lemma operation_at (o : operation) d1 d2 ds en (p : place) sw rs M prot w :
  tree me fuel t p sw rs M (cells (client w)) -> service (d1 :: d2 :: ds) en (lists w) (epochs w) (cells (client w)) ->
  apart me fuel t part (d1 :: d2 :: ds) p -> metrics_ok me (metrics (client w)) -> (protected_epoch en =? 0) = negb prot ->
  covers _ _ _ p (op_key o) -> c_strings o -> (settles o = true -> calm _ _ _ p sw) ->
  exists used sw' rs' en' w', (used <= 2)%nat /\ run (run_operation o) w = (Done (map_step o M).1, w') /\
    tree me fuel t p sw' rs' (map_step o M).2 (cells (client w')) /\
    service (drop used (d1 :: d2 :: ds)) en' (lists w') (epochs w') (cells (client w')) /\
    apart me fuel t part (drop used (d1 :: d2 :: ds)) p /\ metrics_ok me (metrics (client w')) /\
    (protected_epoch en' =? 0) = negb (still_protected o M prot) /\ used_space sw' <= used_space sw + cost o.
Proof.
  intros H Hs Hap Hm Hp Hcov Hstr Hcalm.
  assert (prot = negb (protected_epoch en =? 0)) as -> by (rewrite Hp; by destruct prot).
  assert (forall A (q : prog World A) (f : A -> answer) x M' prot' spent,
    leaves me fuel t m g part k sz i own q x M' prot' spent sw (d1 :: d2 :: ds) p (lists w) (epochs w) (cells (client w)) (metrics (client w)) ->
    exists used sw' rs' en' w', (used <= 2)%nat /\ run (let! a := q in Ret (f a)) w = (Done (f x), w') /\
      tree me fuel t p sw' rs' M' (cells (client w')) /\
      service (drop used (d1 :: d2 :: ds)) en' (lists w') (epochs w') (cells (client w')) /\
      apart me fuel t part (drop used (d1 :: d2 :: ds)) p /\ metrics_ok me (metrics (client w')) /\
      (protected_epoch en' =? 0) = negb prot' /\ used_space sw' <= used_space sw + spent) as Hfin.
  { intros A q f x M' prot' spent (used & sw' & rs' & en' & l' & e' & c' & mm' & Hu & Hm' & Hev & Ht & Hs' & Hap' & Hp' & Hsp).
    destruct (Hev w eq_refl) as (w' & Er & E). exists used, sw', rs', en', w'.
    destruct w' as [l1 e1 [c1 pc1 m1]]. unfold volatile, St in E. simpl in E. injection E as -> -> -> ->.
    split; [done|]. split; [by rewrite run_bind, Er|]. done. }
  destruct o as [key value|key value|key|key]; cbn [run_operation map_step c_strings settles cost still_protected op_key fst snd] in *; apply Hfin.
  - destruct Hstr. eapply leaves_insert; eauto.
  - destruct Hstr. eapply leaves_update; eauto.
  - eapply leaves_lookup; eauto.
  - eapply leaves_erase; eauto.
Qed.

(** ** Getting to the root *)

(** The root object has been allocated: asking for it again gives the same object. *)
Context (R : TOID) (root_fixed : forall s, is_Some (cells s !! D_RW R) -> pmemobj_root sizeof_RootObj s = (R, s)).

(** The root object leads to the metadata, and that to the root node. *)
Record rooted (md : Z) (root : TOID) (height : Z) (c : gmap Z Z) : Prop := {
  rt_md : exists u o, c !! root_metadata (D_RW R) = Some u /\ c !! (root_metadata (D_RW R) + 8) = Some o /\
    D_RW (MkTOID u o) = md;
  rt_root : c !! md_root_node md = Some (pool_uuid_lo root) /\ c !! (md_root_node md + 8) = Some (off root);
  rt_height : c !! md_height md = Some height
}.

Definition tree_words (md : Z) : list Z :=
  [root_metadata (D_RW R); root_metadata (D_RW R) + 8; md_root_node md; md_root_node md + 8; md_height md; md_global_epoch md].

Lemma rooted_same md root h c c' :
  rooted md root h c -> (forall a, a ∈ tree_words md -> c' !! a = c !! a) -> rooted md root h c'.
Proof.
  clear fuel_big own_ne root_fixed.
  intros [(u & o & H1 & H2 & H3) (H4 & H5) H6] Hs. unfold tree_words in Hs. split.
  - exists u, o. rewrite !Hs by set_solver. done.
  - rewrite !Hs by set_solver. done.
  - rewrite Hs by set_solver. done.
Qed.

Lemma ev_get_metadata md root h l e c mm :
  rooted md root h c -> ev get_metadata (St l e c mm) md (St l e c mm).
Proof.
  intros [(u & o & H1 & H2 & <-) _ _]. apply ev_mem. eapply mev_bind.
  - eapply mev_bind; [|apply mev_ret]. intros pc mm0. exists pc. unfold POBJ_ROOT. cbn [act run].
    rewrite root_fixed by (by eexists). done.
  - eapply mev_bind; [|apply mev_ret]. eapply mev_bind; [by apply mev_load|]. eapply mev_bind; [by apply mev_load|].
    apply mev_ret.
Qed.

Lemma mev_root md root h c : rooted md root h c -> mev (load_toid (md_root_node md)) c root c.
Proof.
  intros [_ (H1 & H2) _]. eapply mev_bind; [by apply mev_load|]. eapply mev_bind; [by apply mev_load|].
  destruct root. apply mev_ret.
Qed.

(** A root that needs no modification. *)
Lemma ev_root_smo dep md root h sw l e c mm :
  rooted md root h c -> mev (load_sw (D_RW root)) c sw c -> settled sw ->
  ev (root_smo me fuel dep t md) (St l e c mm) false (St l e c mm).
Proof.
  intros H Hload [Hd Hs].
  assert (ev (mem (load_sw (D_RW root))) (St l e c mm) sw (St l e c mm)) as Hsw by (by apply ev_mem).
  unfold root_smo. eapply ev_bind; [apply ev_ret|]. eapply ev_bind; [by eapply ev_mem, mev_root|].
  eapply ev_bind; [exact Hsw|]. eapply ev_bind; [exact Hsw|]. eapply ev_bind; [exact Hsw|].
  rewrite (proj2 (Z.ltb_ge _ _) Hd), (proj2 (Z.ltb_ge _ _) Hs). apply ev_ret.
Qed.

(** ** A tree that is one leaf *)

Lemma root_reached md root c0 (H : rooted md root 1 c0) dep key smo sw rs l e c mm :
  True -> (forall a, a ∈ tree_words md -> c !! a = c0 !! a) -> leaf c (D_RW root) sw rs -> (smo = true -> settled sw) ->
  ev (find_leaf me fuel dep t key smo) (St l e c mm) root (St l e c mm).
Proof.
  intros _ Hu Hl Hs. assert (rooted md root 1 c) as Hr by (by eapply rooted_same).
  unfold find_leaf. eapply (ev_bind _ _ _ (root, None, 0)); [|apply ev_ret].
  unfold find_leaf_parent. apply ev_loop_once; [lia|]. eapply ev_bind; [by eapply ev_get_metadata|].
  eapply (ev_bind _ _ _ (Some (root, None, 0))); [|apply ev_ret].
  unfold find_leaf_parent_smo. eapply (ev_bind _ _ _ false).
  { destruct smo; [|apply ev_ret]. eapply ev_root_smo; [exact Hr| |by apply Hs]. eapply mev_load_sw, lf_has, Hl. }
  eapply ev_bind; [apply ev_ld, (rt_height _ _ _ _ Hr)|].
  eapply ev_bind; [by eapply ev_mem, mev_root|]. apply ev_ret.
Qed.

Definition root_place (md : Z) (root : TOID) (c0 : gmap Z Z) (H : rooted md root 1 c0) : place :=
  {| spot := root; upper := fun a => a ∈ tree_words md; found_in := c0; covers := fun _ => True; calm := settled;
     calm_settled := fun _ H => H; reached := root_reached md root c0 H |}.

(** The world holds the tree [M] in one leaf, and [n] descriptors are free. *)
Definition represents (n : nat) (sw : NodeHeaderStatusWord) (M : gmap (list ascii) (list ascii)) (prot : bool) (w : World) : Prop :=
  exists ds md root rs en, length ds = n /\ rooted md root 1 (cells (client w)) /\
    leaf (cells (client w)) (D_RW root) sw rs /\ contents rs M /\
    service ds en (lists w) (epochs w) (cells (client w)) /\ clear_of part ds root (fun a => a ∈ tree_words md) /\
    metrics_ok me (metrics (client w)) /\ (protected_epoch en =? 0) = negb prot.

Lemma operation_step o n sw M prot w :
  represents (2 + n) sw M prot w -> c_strings o -> (settles o = true -> settled sw) ->
  exists n' sw' w', run (run_operation o) w = (Done (map_step o M).1, w') /\
    represents n' sw' (map_step o M).2 (still_protected o M prot) w' /\ (n <= n')%nat /\
    used_space sw' <= used_space sw + cost o.
Proof.
  intros (ds & md & root & rs & en & Hlen & Hr & Hl & Hcont & Hs & Hap & Hm & Hp) Hstr Hset.
  destruct ds as [|d1 [|d2 ds]]; [done|done|]. cbn [length] in Hlen.
  destruct (operation_at o d1 d2 ds en (root_place md root _ Hr) sw rs M prot w)
    as (used & sw' & rs' & en' & w' & Hu & Er & [Hup Hl' Hcont'] & Hs' & Hap' & Hm' & Hp' & Hsp); try done.
  exists (length (drop used (d1 :: d2 :: ds))), sw', w'. split; [done|]. split; [|split; [rewrite length_drop; cbn [length]; lia|done]].
  exists (drop used (d1 :: d2 :: ds)), md, root, rs', en'. split; [done|]. split; [by eapply rooted_same|]. done.
Qed.

Lemma used_settled n sw M prot w :
  represents n sw M prot w -> used_space sw <= BZTREE_MAX_DELETED_SPACE -> settled sw.
Proof.
  clear fuel_big own_ne.
  intros (ds & md & root & rs & en & _ & _ & Hl & _) Hu.
  pose proof (nh_count _ _ _ _ (lf_has _ _ _ _ Hl)) as Hc. pose proof (lf_deleted _ _ _ _ Hl).
  destruct (leaf_deleted _ _ _ _ Hl) as [_ Hlive]. unfold used_space, settled, BZTREE_MAX_DELETED_SPACE, BZTREE_MIN_FREE_SPACE in *.
  node_lia.
Qed.
End map.

(** On a tree of one leaf whose contents represent a finite map, an insertion, update,
    lookup or erasure with C strings for key and value answers what the map does and
    leaves a leaf that represents the map after it, provided that an insertion or update
    finds no modification due and room in the leaf. *)
Theorem BzTree_operation_refines `{PlatformLaws, Pmdk} me fuel depth t m g part k sz i own R o n sw M prot w :
  (30 < fuel)%nat -> epoch t <> m ->
  (forall s, is_Some (cells s !! D_RW R) -> pmemobj_root sizeof_RootObj s = (R, s)) ->
  represents me t m g part k sz i own R (2 + n) sw M prot w -> c_strings o -> (settles o = true -> settled sw) ->
  exists n' sw' w', run (run_operation me fuel depth t o) w = (Done (map_step o M).1, w') /\
    represents me t m g part k sz i own R n' sw' (map_step o M).2 (still_protected o M prot) w' /\ (n <= n')%nat /\
    used_space sw' <= used_space sw + cost o.
Proof. intros Hf Hne Hroot. by eapply operation_step. Qed.

(** C5.  While the tree is one leaf and the space its operations may take stays below the
    threshold of a split or a compaction, any sequence of insertions, updates, lookups
    and erasures answers, one by one, what the same sequence on a finite map from keys
    to values answers, and the leaf then represents that map. An insertion or update is
    refused exactly when its key and value, with their terminators and a metadata entry,
    take more than 48 bytes, as the code checks (the comment at bztree.h:15 puts the
    limit of a key at 32), or when its key is there, respectively is not. *)
Theorem BzTree_refines_map `{PlatformLaws, Pmdk} me fuel depth t m g part k sz i own R os n sw M prot w :
  (30 < fuel)%nat -> epoch t <> m ->
  (forall s, is_Some (cells s !! D_RW R) -> pmemobj_root sizeof_RootObj s = (R, s)) ->
  represents me t m g part k sz i own R (2 * length os + n) sw M prot w -> Forall c_strings os ->
  used_space sw + total_cost os <= BZTREE_MAX_DELETED_SPACE ->
  exists n' sw' prot' w', run (run_operations me fuel depth t os) w = (Done (map_steps os M).1, w') /\
    represents me t m g part k sz i own R n' sw' (map_steps os M).2 prot' w'.
Proof.
  intros Hf Hne Hroot. revert n sw M prot w. induction os as [|o os IH]; intros n sw M prot w Hr Hstr Hc.
  { exists (2 * 0 + n)%nat, sw, prot, w. done. }
  cbn [total_cost foldr] in Hc. fold (total_cost os) in Hc. pose proof (total_cost_nonneg os) as Hpos.
  apply Forall_cons in Hstr as [Ho Hos].
  assert (0 <= cost o) as Hco by (destruct o; unfold cost, data_size, sizeof_NodeMetadata; lia).
  destruct (operation_step me fuel Hf depth t m g part k sz i own Hne R Hroot o (2 * length os + n) sw M prot w)
    as (n' & sw' & w' & E & Hr' & Hn & Hu).
  { cbn [length] in Hr. by replace (2 + (2 * length os + n))%nat with (2 * S (length os) + n)%nat by lia. }
  { done. }
  { intros _. eapply used_settled; [exact Hr|lia]. }
  destruct (IH (n' - 2 * length os)%nat sw' (map_step o M).2 (still_protected o M prot) w') as (n2 & sw2 & p2 & w2 & E2 & Hr2).
  { by replace (2 * length os + (n' - 2 * length os))%nat with n' by lia. }
  { done. }
  { lia. }
  exists n2, sw2, p2, w2. cbn [run_operations map_steps]. rewrite run_bind, E. cbn [and_then]. rewrite run_bind, E2.
  destruct (map_step o M) as [a M1]. cbn [fst snd] in *. destruct (map_steps os M1) as [r M2]. done.
Qed.

(** *** A concrete tree

    Thread 5 holds an entry of the tree's manager 200; the pool's manager is 100; four
    descriptors are free; the root object is at 64, the metadata at 4608, the leaf at 8192. *)
Definition tree_epochs : EpochWorld :=
  let w := initialized 100 (initialized 200 (MkEpochWorld ∅ (MkThreads ∅ ∅))) in
  let w := (run (Protect 5 1 200) w).2 in
  let w := (run (Unprotect 5 1 200) w).2 in
  set_threads (tls_set (5, tls_part) (tls_ptr_part 4096) (threads w)) w.
Definition empty_ring : GarbageList := MkGarbageList (Some 100) 0 4 (replicate 4 Item_new).
Definition free_descs : list Z := (fun j => 2 ^ 33 + 256 * Z.of_nat j) <$> seq 0 4.
Definition free_desc_cells (d : Z) : list (Z * Z) :=
  [(next_ptr_ d, d + 256); (owner_partition_ d, 4096); (status_ d, kStatusFinished); (count_ d, 0);
   (free_callback_ d, 0); (allocate_callback_ d, 0)] ++ ((fun a => (a, 0)) <$> word_fields d).
Definition pool_and_root : list (Z * Z) :=
  [(free_list 4096, 2 ^ 33); (garbage_list 4096, 16);
   (64, 1); (72, 4608); (4608, 1); (4616, 8192); (4624, 1); (4632, 0)] ++ concat (free_desc_cells <$> free_descs).
Definition empty_tree_cells : gmap Z Z := list_to_map pool_and_root ∪ zeros 32 8192 ∅.
Definition empty_tree : World := MkGW {[ 16 := empty_ring ]} tree_epochs (MkMem empty_tree_cells ∅ metrics_off).
Definition sample_tree : BzTree := MkBzTree 1 200 300 512 0.

Lemma empty_ring_wf e : table_wf 100 128 e -> ring_wf 100 2 128 empty_ring e.
Proof.
  intros H. split_and!; try done; [lia|]. intros s it Hs. apply lookup_replicate in Hs as [-> _]. done.
Qed.

Lemma free_descs_ok d : d ∈ free_descs -> free_desc 16 4096 empty_tree_cells d.
Proof.
  assert (forall d, d ∈ free_descs -> empty_tree_cells !! status_ d = Some kStatusFinished /\
    empty_tree_cells !! count_ d = Some 0 /\ empty_tree_cells !! owner_partition_ d = Some 4096 /\
    empty_tree_cells !! allocate_callback_ d = Some 0 /\ empty_tree_cells !! free_callback_ d = Some 0 /\
    Forall (fun a => empty_tree_cells !! a = Some 0) (word_fields d) /\ 2 ^ 33 <= d < 2 ^ 34) as H.
  { apply Forall_forall. apply (bool_decide_unpack _). vm_compute. exact I. }
  intros Hd. destruct (H d Hd) as (H1 & H2 & H3 & H4 & H5 & H6 & H7). rewrite Forall_forall in H6.
  split; [lia|unfold garbage_list, free_list; lia| |by rewrite H4, H5].
  split; [split; [done|]; rewrite H2, H3; done|]. split; [intros a Ha; by rewrite (H6 a Ha)|done].
Qed.

Lemma empty_leaf_cells x : 8192 <= x < 8448 -> x mod 8 = 0 -> empty_tree_cells !! x = Some 0.
Proof.
  intros Hx Hm. unfold empty_tree_cells. rewrite lookup_union_r.
  - rewrite zeros_lookup, bool_decide_eq_true_2; [done|]. split; [lia|]. by rewrite Zminus_mod, Hm.
  - apply not_elem_of_list_to_map. intros Hin.
    assert (Forall (fun a => ~ (8192 <= a < 8448)) pool_and_root.*1) as H by (apply (bool_decide_unpack _); vm_compute; exact I).
    rewrite Forall_forall in H. by apply (H x Hin).
Qed.

Lemma empty_tree_apart : @clear_of bump_pmdk 4096 free_descs (MkTOID 1 8192) (fun a => a ∈ @tree_words bump_pmdk (MkTOID 1 64) 4608).
Proof.
  assert (forall d, d ∈ free_descs -> 2 ^ 33 <= d) as Hd.
  { apply Forall_forall. apply (bool_decide_unpack _). vm_compute. exact I. }
  split.
  - intros a Ha. assert (a ∈ [64; 72; 4608; 4616; 4624; 4632]) as Ha' by exact Ha.
    rewrite !elem_of_cons, elem_of_nil in Ha'. split; [unfold in_leaf, BZTREE_NODE_SIZE; change (D_RW _) with 8192; lia|].
    unfold pool_cells, free_list, garbage_list. intros [H|[H|(d & Hin & H)]]; [lia|lia|]. specialize (Hd d Hin). lia.
  - intros a Ha. unfold in_leaf, BZTREE_NODE_SIZE in Ha. change (D_RW _) with 8192 in Ha.
    unfold pool_cells, free_list, garbage_list. intros [H|[H|(d & Hin & H)]]; [lia|lia|]. specialize (Hd d Hin). lia.
Qed.

Lemma empty_tree_supply : supply 5 100 16 4096 2 128 free_descs (lists empty_tree) tree_epochs empty_tree_cells.
Proof.
  split.
  - exists empty_ring. split; [done|]. split; [apply empty_ring_wf; by vm_compute|].
    intros j Hj. exists Item_new. split; [|done]. apply lookup_replicate. split; [done|apply slot_at_lt].
  - by vm_compute.
  - by vm_compute.
  - by vm_compute.
  - vm_compute. repeat (split; [reflexivity|split; [by eexists|]]). exact I.
  - apply free_descs_ok.
  - apply (bool_decide_unpack _). vm_compute. exact I.
  - intros d d' (j & -> & _)%list_elem_of_fmap (j' & -> & _)%list_elem_of_fmap Hne. lia.
Qed.

Lemma empty_tree_represents :
  @represents bump_pmdk 5 sample_tree 100 16 4096 2 128 117 128 (MkTOID 1 64) 4 (MkSW 0 false 0 0 0) ∅ false empty_tree.
Proof.
  exists free_descs, 4608, (MkTOID 1 8192), [], (MkEntry 0 1 5).
  split; [done|]. split; [|split; [|split; [|split; [|split; [apply empty_tree_apart|split; [by left|done]]]]]].
  - split; [by exists 1, 4608|done|done].
  - split; try done.
    + split; [done|]. split; [done|]. intros x Hx Hm. rewrite empty_leaf_cells by done. by eexists.
    + intros j H1 H2. apply empty_leaf_cells.
      * unfold sizeof_NodeMetadata, sizeof_body, BZTREE_NODE_SIZE, sizeof_NodeHeader in H2. cbn in H2, H1.
        unfold nmd_at, body, sizeof_NodeHeader, sizeof_NodeMetadata. change (D_RW _) with 8192. lia.
      * unfold nmd_at, body, sizeof_NodeHeader, sizeof_NodeMetadata. change (D_RW _) with 8192.
        replace (8192 + 16 + 8 * j) with (0 + (1026 + j) * 8) by lia. by rewrite Z.mod_add.
  - intros kx v. split; [done|]. intros (j & r & Hj & _). done.
  - split; [apply empty_tree_supply|by vm_compute|by vm_compute|].
    apply Forall_forall. apply (bool_decide_unpack _). vm_compute. exact I.
Qed.

Lemma bump_root_fixed s : is_Some (cells s !! @D_RW bump_pmdk (MkTOID 1 64)) ->
  @pmemobj_root bump_pmdk sizeof_RootObj s = (MkTOID 1 64, s).
Proof. intros [v Hv]. change (D_RW _) with 64 in Hv. cbn. by rewrite Hv. Qed.

Definition key_a : bytes := [byte_of 97].
Definition value_b : bytes := [byte_of 98; byte_of 99].

Lemma BzTree_operation_refines_witness : exists n' sw' w',
  run (@run_operation plain_platform bump_pmdk 5 31 0 sample_tree (Insert key_a value_b)) empty_tree = (Done (Flag true), w') /\
  @represents bump_pmdk 5 sample_tree 100 16 4096 2 128 117 128 (MkTOID 1 64) n' sw' (<[key_a := value_b]> ∅) false w'.
Proof.
  destruct (@BzTree_operation_refines plain_platform plain_platform_laws bump_pmdk 5 31 0 sample_tree 100 16 4096 2 128 117 128
    (MkTOID 1 64) (Insert key_a value_b) 2 (MkSW 0 false 0 0 0) ∅ false empty_tree) as (n' & sw' & w' & R & Hr & _).
  - lia.
  - done.
  - exact bump_root_fixed.
  - exact empty_tree_represents.
  - split; apply (bool_decide_unpack _); vm_compute; exact I.
  - intros _. split; vm_compute; congruence.
  - exists n', sw', w'. split; [exact R|exact Hr].
Defined.

Lemma BzTree_refines_map_witness : exists w',
  run (@run_operations plain_platform bump_pmdk 5 31 0 sample_tree [Insert key_a value_b; Lookup key_a]) empty_tree
    = (Done [Flag true; Found (Some value_b)], w').
Proof.
  destruct (@BzTree_refines_map plain_platform plain_platform_laws bump_pmdk 5 31 0 sample_tree 100 16 4096 2 128 117 128
    (MkTOID 1 64) [Insert key_a value_b; Lookup key_a] 0 (MkSW 0 false 0 0 0) ∅ false empty_tree) as (n' & sw' & p' & w' & R & _).
  - lia.
  - done.
  - exact bump_root_fixed.
  - exact empty_tree_represents.
  - repeat constructor; try (intros E; vm_compute in E; set_solver).
  - vm_compute. congruence.
  - exists w'. exact R.
Defined.
