(* ===== verification/BzHeight.v ===== *)
(** * BzTrees of any height (bztree.cc)

    A tree of inner nodes and leaves in memory, the map it represents, and the descent: the
    operations, run alone, are those of the map on trees of any height, as long as the
    descent finds no structural modification due. *)
From Stdlib Require Import ZArith Lia Ascii.
From stdpp Require Import base list gmap strings.
From S2P Require Import Prelude Bytes Prog Status Hash Library Epoch Garbage Metrics Memory Descriptor MwCAS Entries Target Pool DList DListSpec BzNode BzTree BzBytes BzNodeSpec BzSmo BzLeaf BzSupply BzPlace BzMap.
#[local] Open Scope Z_scope.
#[local] Open Scope machine_scope.
#[local] Open Scope prog_scope.

(** ** Shapes *)

(** The metadata and the key of a child's record in an inner node. *)
Record sep := MkSep { s_md : NodeMetadata; s_key : bytes }.

Inductive shape :=
| Leaf (node : TOID) (sw : NodeHeaderStatusWord) (rs : list rec)
| Inner (node : TOID) (sw : NodeHeaderStatusWord) (seps : list sep) (kids : list shape).

Definition top (s : shape) : TOID := match s with Leaf n _ _ | Inner n _ _ _ => n end.
Definition top_sw (s : shape) : NodeHeaderStatusWord := match s with Leaf _ sw _ | Inner _ sw _ _ => sw end.

Fixpoint nodes (s : shape) : list TOID :=
  match s with Leaf n _ _ => [n] | Inner n _ _ kids => n :: flat_map nodes kids end.

(** The first separator that is not less than the key, or else the last one. *)
Fixpoint first_ge (keys : list bytes) (key : bytes) : nat :=
  match keys with
  | [] => O
  | k :: r => if bool_decide (bytes_lt k key) then S (first_ge r key) else O
  end.
Definition slot (keys : list bytes) (key : bytes) : nat :=
  let j := first_ge keys key in if (j =? length keys)%nat then pred j else j.

Lemma first_ge_le keys key : (first_ge keys key <= length keys)%nat.
Proof. induction keys as [|k r IH]; simpl; [lia|]. case_bool_decide; simpl; lia. Qed.

Lemma slot_lt keys key : (0 < length keys)%nat -> (slot keys key < length keys)%nat.
Proof.
  intros H. pose proof (first_ge_le keys key). unfold slot.
  destruct (Nat.eqb_spec (first_ge keys key) (length keys)); lia.
Qed.

(** The record that leads to a child. *)
Definition child_rec (s : sep) (kid : shape) : rec := MkRec (s_md s) (zstr (s_key s)) (le_bytes 8 (off (top kid))).

(** An inner node in memory. *)
Record inner `{Pmdk} (c : gmap Z Z) (node : TOID) (sw : NodeHeaderStatusWord) (seps : list sep) (kids : list shape) : Prop := {
  in_at : D_RW node mod 8 = 0;
  in_has : node_has c (D_RW node) sw (zip_with child_rec seps kids);
  in_len : length seps = length kids /\ (0 < length kids <= 30)%nat;
  in_sep i s : seps !! i = Some s -> visible (s_md s) = true /\ NUL ∉ s_key s /\ offset (s_md s) + total_len (s_md s) <= sizeof_body;
  in_kid i kid : kids !! i = Some kid -> pool_uuid_lo (top kid) = pool_uuid_lo node /\ fits 64 (off (top kid));
  in_region : region c (D_RW node) BZTREE_NODE_SIZE;
  in_words : words64 c (D_RW node) BZTREE_NODE_SIZE;
  in_sw : sw_control sw = 0 /\ frozen sw = false /\ delete_size sw = 0;
  in_room : sizeof_NodeMetadata * Z.of_nat (length kids) + block_size sw <= sizeof_body;
  in_data i s : seps !! i = Some s -> sizeof_body - block_size sw <= offset (s_md s);
  in_apart i j s s' : i <> j -> seps !! i = Some s -> seps !! j = Some s' ->
    offset (s_md s) + total_len (s_md s) <= offset (s_md s') \/ offset (s_md s') + total_len (s_md s') <= offset (s_md s);
  in_used : data_len (live (zip_with child_rec seps kids)) <= block_size sw
}.

(** The address of the pointer in a child's record. *)
Definition link_at `{Pmdk} (node : TOID) (s : sep) : Z := body (D_RW node) + offset (s_md s) + key_len (s_md s).

(** The shape [s], of height [h], is in memory. *)
Inductive stands `{Pmdk} (c : gmap Z Z) : nat -> shape -> Prop :=
| stands_leaf node sw rs : leaf c (D_RW node) sw rs -> stands c 1 (Leaf node sw rs)
| stands_inner h node sw seps kids :
    inner c node sw seps kids -> (forall i kid, kids !! i = Some kid -> stands c h kid) ->
    stands c (S h) (Inner node sw seps kids).

(** The map that a shape represents: an inner node answers for a key what the child in
    the key's slot answers. *)
Inductive means : shape -> gmap (list ascii) (list ascii) -> Prop :=
| means_leaf node sw rs M : contents rs M -> means (Leaf node sw rs) M
| means_inner node sw seps kids Ms M :
    length Ms = length kids -> (forall i kid N, kids !! i = Some kid -> Ms !! i = Some N -> means kid N) ->
    (forall key, M !! key = Ms !! slot (s_key <$> seps) key ≫= fun N => N !! key) ->
    means (Inner node sw seps kids) M.

(** The leaf that a key leads to, and the shape with another leaf in its place. *)
Inductive leads (key : bytes) : shape -> TOID -> NodeHeaderStatusWord -> list rec ->
    (NodeHeaderStatusWord -> list rec -> shape) -> Prop :=
| leads_leaf node sw rs : leads key (Leaf node sw rs) node sw rs (Leaf node)
| leads_inner node nsw seps kids kid leaf sw rs plug :
    kids !! slot (s_key <$> seps) key = Some kid -> leads key kid leaf sw rs plug ->
    leads key (Inner node nsw seps kids) leaf sw rs
      (fun sw' rs' => Inner node nsw seps (<[slot (s_key <$> seps) key := plug sw' rs']> kids)).

Section shapes.
Context {HM : Pmdk}.

Lemma stands_top c h s : stands c h s ->
  c !! status_word (D_RW (top s)) = Some (sw_word (top_sw s)) /\ sw_ok (top_sw s).
Proof.
  intros [node sw rs Hl|h' node sw seps kids Hi _]; simpl.
  - destruct (lf_has _ _ _ _ Hl) as [H1 H2 _ _]. done.
  - destruct (in_has _ _ _ _ _ Hi) as [H1 H2 _ _]. done.
Qed.

Lemma stands_height c h s : stands c h s -> match s with Leaf _ _ _ => h = 1%nat | Inner _ _ _ _ => (2 <= h)%nat end.
Proof.
  destruct 1 as [node sw rs Hl|h node sw seps kids Hi Hk]; [done|].
  destruct (in_len _ _ _ _ _ Hi) as [_ Hlk]. destruct (lookup_lt_is_Some_2 kids 0) as [kid Hkid]; [lia|].
  destruct (Hk _ _ Hkid); lia.
Qed.

Lemma inner_slot c node sw seps kids key :
  inner c node sw seps kids -> exists kid, kids !! slot (s_key <$> seps) key = Some kid.
Proof.
  intros Hi. destruct (in_len _ _ _ _ _ Hi) as [Hls Hk]. apply lookup_lt_is_Some_2.
  pose proof (slot_lt (s_key <$> seps) key) as Hs. rewrite length_fmap in Hs. lia.
Qed.

Lemma stands_leads c h s key : stands c h s ->
  exists leaf_oid sw rs plug, leads key s leaf_oid sw rs plug /\ leaf c (D_RW leaf_oid) sw rs.
Proof.
  induction 1 as [node sw rs Hl|h node sw seps kids Hi _ IH].
  - exists node, sw, rs, (Leaf node). split; [constructor|done].
  - destruct (inner_slot _ _ _ _ _ key Hi) as [kid Hkid].
    destruct (IH _ _ Hkid) as (leaf_oid & lsw & rs & plug & H1 & H2).
    do 4 eexists. split; [by eapply leads_inner|done].
Qed.

Lemma means_leads s M key leaf_oid sw rs plug : leads key s leaf_oid sw rs plug -> means s M ->
  exists N, contents rs N /\ M !! key = N !! key.
Proof.
  intros Hle. revert M. induction Hle as [node sw rs|node nsw seps kids kid leaf_oid sw rs plug Hk _ IH]; intros M HM'.
  - inversion HM'; subst. eauto.
  - inversion HM' as [|? ? ? ? Ms ? Hlen Hkids HMk]; subst.
    destruct (lookup_lt_is_Some_2 Ms (slot (s_key <$> seps) key)) as [Nj HNj]; [rewrite Hlen; by eapply lookup_lt_Some|].
    destruct (IH Nj) as (N & HN & E); [by eapply Hkids|]. exists N. split; [done|]. by rewrite HMk, HNj.
Qed.

Lemma leads_self key s leaf_oid sw rs plug : leads key s leaf_oid sw rs plug -> plug sw rs = s.
Proof.
  induction 1 as [|node nsw seps kids kid leaf_oid sw rs plug Hk _ IH]; [done|]. f_equal. rewrite IH.
  by apply list_insert_id.
Qed.

Lemma leads_top key s leaf_oid sw rs plug sw' rs' : leads key s leaf_oid sw rs plug -> top (plug sw' rs') = top s.
Proof. by destruct 1. Qed.

Lemma flat_map_insert {A B} (f : A -> list B) l i x y :
  l !! i = Some x -> f y = f x -> flat_map f (<[i := y]> l) = flat_map f l.
Proof.
  revert i. induction l as [|a l IH]; intros [|i] Hi E; simpl in *; try done.
  - injection Hi as ->. by rewrite E.
  - by rewrite IH.
Qed.

Lemma leads_nodes key s leaf_oid sw rs plug sw' rs' : leads key s leaf_oid sw rs plug -> nodes (plug sw' rs') = nodes s.
Proof.
  induction 1 as [|node nsw seps kids kid leaf_oid sw rs plug Hk _ IH]; [done|]. simpl. f_equal.
  by apply (flat_map_insert _ _ _ kid).
Qed.

Lemma elem_of_flat_map {A B} (f : A -> list B) l y : y ∈ flat_map f l <-> exists x, x ∈ l /\ y ∈ f x.
Proof.
  rewrite !list_elem_of_In, in_flat_map. setoid_rewrite list_elem_of_In. done.
Qed.

Lemma leads_in key s leaf_oid sw rs plug : leads key s leaf_oid sw rs plug -> leaf_oid ∈ nodes s.
Proof.
  induction 1 as [|node nsw seps kids kid leaf_oid sw rs plug Hk _ IH]; simpl; [by left|].
  right. apply elem_of_flat_map. exists kid. split; [by eapply list_elem_of_lookup_2|done].
Qed.

Lemma separate_kid kids i kid : separate (flat_map nodes kids) -> kids !! i = Some kid -> separate (nodes kid).
Proof.
  revert i. induction kids as [|a kids IH]; intros [|i] Hs Hi; simpl in *; try done;
    apply separate_app in Hs as (H1 & H2 & _); [by injection Hi as <-|by eapply IH].
Qed.

Lemma separate_kids kids i j kid kid' a b x :
  separate (flat_map nodes kids) -> kids !! i = Some kid -> kids !! j = Some kid' -> i <> j ->
  a ∈ nodes kid -> b ∈ nodes kid' -> in_leaf a x -> in_leaf b x -> False.
Proof.
  revert i j. induction kids as [|y kids IH]; intros i j Hs Hi Hj Hne Ha Hb Hxa Hxb; [done|]. simpl in Hs.
  apply separate_app in Hs as (_ & Hs & Hd).
  assert (forall n q u, kids !! n = Some q -> u ∈ nodes q -> u ∈ flat_map nodes kids) as Hin.
  { intros n q u Hq Hu. apply elem_of_flat_map. exists q. split; [by eapply list_elem_of_lookup_2|done]. }
  destruct i as [|i], j as [|j]; simpl in Hi, Hj; [done| | |by eapply (IH i j); auto].
  - injection Hi as ->. by eapply (Hd a b x); eauto.
  - injection Hj as ->. by eapply (Hd b a x); eauto.
Qed.

(** ** Changing a leaf *)

Lemma kid_rec_lookup seps kids i r :
  zip_with child_rec seps kids !! i = Some r ->
  exists s kid, r = child_rec s kid /\ seps !! i = Some s /\ kids !! i = Some kid.
Proof. intros (s & kid & -> & ? & ?)%lookup_zip_with_Some. eauto. Qed.

Lemma zip_kids_insert seps kids i kid kid' :
  kids !! i = Some kid -> off (top kid') = off (top kid) ->
  zip_with child_rec seps (<[i := kid']> kids) = zip_with child_rec seps kids.
Proof.
  revert i kids. induction seps as [|s seps IH]; intros [|i] [|y kids] Hi E; simpl in *; try done.
  - injection Hi as ->. unfold child_rec. by rewrite E.
  - f_equal. by apply IH.
Qed.

(** An inner node whose words stay as they are. *)
Lemma inner_same c c' node sw seps kids :
  (forall a, in_leaf node a -> c' !! a = c !! a) -> inner c node sw seps kids -> inner c' node sw seps kids.
Proof.
  intros Hs [Hal [N1 N2 N3 N4] [Hl Hk] Hsep Hkid (R1 & R2 & R3) Hw Hsw Hroom Hdata Hapart Hfits].
  assert (length (zip_with child_rec seps kids) = length kids) as Hz by (rewrite length_zip_with; lia).
  split; try done.
  - split; [|done|done|].
    + rewrite Hs; [done|]. unfold in_leaf, status_word, BZTREE_NODE_SIZE. lia.
    + intros i r Hi. destruct (N4 i r Hi) as (A & B & C). pose proof (lookup_lt_Some _ _ _ Hi) as Hlt.
      destruct (kid_rec_lookup _ _ _ _ Hi) as (s & kid & -> & Hsi & Hki). destruct (Hsep i s Hsi) as (Hv & _ & Hfit).
      split_and!; [|done|].
      * rewrite Hs; [done|]. unfold in_leaf. node_lia.
      * intros _. destruct (C Hv) as (V & L1 & L2). split; [|done]. eapply view_same; [|exact V].
        intros x Hx. unfold byte_at. f_equal. apply Hs. unfold within in Hx. rewrite length_app in Hx.
        pose proof (ok_offset _ B) as [Ho _]. cbn [child_rec r_md] in *. unfold in_leaf.
        pose proof (Z.div_mod x 8 ltac:(lia)). pose proof (Z.mod_pos_bound x 8 ltac:(lia)).
        pose proof (Z.div_mod (D_RW node) 8 ltac:(lia)). node_lia.
  - split_and!; [done|done|]. intros x Hx Hm. rewrite Hs by done. by apply R3.
  - intros x w Hx Hm Hc. apply (Hw x); [done|done|]. by rewrite <- Hs.
Qed.

Lemma stands_same c c' h s :
  stands c h s -> (forall n a, n ∈ nodes s -> in_leaf n a -> c' !! a = c !! a) -> stands c' h s.
Proof.
  induction 1 as [node sw rs Hl|h node sw seps kids Hi _ IH]; intros Hs.
  - constructor. eapply leaf_same; [|exact Hl]. intros a Ha. apply (Hs node); [by left|done].
  - constructor.
    + eapply inner_same; [|exact Hi]. intros a Ha. apply (Hs node); [by left|done].
    + intros i kid Hk. eapply IH; [done|]. intros n a Hn. apply Hs. right. apply elem_of_flat_map.
      exists kid. split; [by eapply list_elem_of_lookup_2|done].
Qed.

(** The map with what a leaf now has for the key. *)
Definition with_key (key : bytes) (N M : gmap (list ascii) (list ascii)) : gmap (list ascii) (list ascii) :=
  partial_alter (fun _ => N !! key) key M.

Lemma with_key_eq key N M : with_key key N M !! key = N !! key.
Proof. unfold with_key. by rewrite lookup_partial_alter_eq. Qed.
Lemma with_key_ne key N M k : k <> key -> with_key key N M !! k = M !! k.
Proof. intros H. unfold with_key. by rewrite lookup_partial_alter_ne. Qed.

(** One leaf changes, for one key: the shape then represents the map with the new value. *)
Lemma means_update s M key leaf_oid sw rs plug sw' rs' N N' :
  leads key s leaf_oid sw rs plug -> means s M -> contents rs N -> contents rs' N' ->
  (forall k, k <> key -> N' !! k = N !! k) -> means (plug sw' rs') (with_key key N' M).
Proof.
  intros Hle. revert M. induction Hle as [node sw rs|node nsw seps kids kid leaf_oid sw rs plug Hk Hle IH];
    intros M HM' Hc Hc' Hother; inversion HM' as [? ? ? ? Hm|? ? ? ? Ms ? Hlen Hkids HMk]; subst.
  - constructor. replace (with_key key N' M) with N'; [done|]. apply map_eq. intros k.
    destruct (decide (k = key)) as [->|Hne]; [by rewrite with_key_eq|].
    rewrite with_key_ne, Hother by done. apply option_eq. intros v. by rewrite (Hc k v), (Hm k v).
  - set (j := slot (s_key <$> seps) key) in *.
    destruct (lookup_lt_is_Some_2 Ms j) as [Nj HNj]; [rewrite Hlen; by eapply lookup_lt_Some|].
    apply means_inner with (Ms := <[j := with_key key N' Nj]> Ms); [by rewrite !length_insert| |].
    + intros i kid' Ni Hk' HNi. destruct (decide (i = j)) as [->|Hne].
      * rewrite list_lookup_insert_eq in Hk' by (by eapply lookup_lt_Some). injection Hk' as <-.
        rewrite list_lookup_insert_eq in HNi by (by eapply lookup_lt_Some). injection HNi as <-.
        apply IH; try done. by eapply Hkids.
      * rewrite list_lookup_insert_ne in Hk' by done. rewrite list_lookup_insert_ne in HNi by done. by eapply Hkids.
    + intros k. destruct (decide (slot (s_key <$> seps) k = j)) as [E|E].
      * rewrite E, list_lookup_insert_eq by (by eapply lookup_lt_Some). simpl.
        destruct (decide (k = key)) as [->|Hne]; [by rewrite !with_key_eq|].
        rewrite !with_key_ne by done. by rewrite HMk, E, HNj.
      * rewrite list_lookup_insert_ne by done. rewrite with_key_ne by (intros ->; done). apply HMk.
Qed.

(** Another child under the same address. *)
Lemma inner_exchange c node sw seps kids j kid kid' :
  inner c node sw seps kids -> kids !! j = Some kid -> top kid' = top kid -> inner c node sw seps (<[j := kid']> kids).
Proof.
  intros [Hal Hhas Hls Hseps Hkid Hreg Hw Hsw Hroom Hdata Hapart Hfits] Hk Et. pose proof (Hkid j kid Hk) as [Hu Hf].
  split; try done.
  - by rewrite (zip_kids_insert _ _ _ kid) by (done || by rewrite Et).
  - by rewrite length_insert.
  - intros i x Hx. apply list_lookup_insert_Some in Hx as [(-> & <- & _)|[_ Hx]]; [by rewrite Et|by eapply Hkid].
  - by rewrite length_insert.
  - by rewrite (zip_kids_insert _ _ _ kid) by (done || by rewrite Et).
Qed.

Lemma stands_exchange c h node sw seps kids j kid kid' :
  stands c (S h) (Inner node sw seps kids) -> kids !! j = Some kid -> top kid' = top kid -> stands c h kid' ->
  stands c (S h) (Inner node sw seps (<[j := kid']> kids)).
Proof.
  intros Hst Hk Et Hst'. inversion Hst as [|? ? ? ? ? Hi Hkids]; subst. constructor; [by eapply inner_exchange|].
  intros i x Hx. apply list_lookup_insert_Some in Hx as [(-> & <- & _)|[_ Hx]]; [done|by eapply Hkids].
Qed.

Lemma stands_update c c' h s key leaf_oid sw rs plug sw' rs' :
  stands c h s -> leads key s leaf_oid sw rs plug -> separate (nodes s) ->
  (forall n a, n ∈ nodes s -> in_leaf n a -> ~ in_leaf leaf_oid a -> c' !! a = c !! a) ->
  leaf c' (D_RW leaf_oid) sw' rs' -> stands c' h (plug sw' rs').
Proof.
  intros Hst Hle. revert h Hst. induction Hle as [node sw rs|node nsw seps kids kid leaf_oid sw rs plug Hk Hle IH];
    intros h Hst Hsep Hsame Hl'; inversion Hst as [? ? ? Hl|h' ? ? ? ? Hi Hkids]; subst; [by constructor|].
  set (j := slot (s_key <$> seps) key) in *. simpl in Hsep. destruct Hsep as [Hself Hsep].
  assert (leaf_oid ∈ flat_map nodes kids) as Hin.
  { apply elem_of_flat_map. exists kid. split; [by eapply list_elem_of_lookup_2|by eapply leads_in]. }
  constructor.
  - apply (inner_same c); [intros a Ha; apply (Hsame node); [by left|done|]; intros Hx; by eapply Hself|].
    by eapply inner_exchange; [|exact Hk|eapply leads_top].
  - intros i kid' Hk'. destruct (decide (i = j)) as [->|Hne].
    + rewrite list_lookup_insert_eq in Hk' by (by eapply lookup_lt_Some). injection Hk' as <-.
      apply IH; try done; [by eapply Hkids|by eapply separate_kid|]. intros n a Hn. apply Hsame.
      right. apply elem_of_flat_map. exists kid. split; [by eapply list_elem_of_lookup_2|done].
    + rewrite list_lookup_insert_ne in Hk' by done.
      eapply stands_same; [by eapply Hkids|]. intros n a Hn Ha. apply (Hsame n); [|done|].
      * right. apply elem_of_flat_map. exists kid'. split; [by eapply list_elem_of_lookup_2|done].
      * intros Hx. eapply (separate_kids kids i j kid' kid n leaf_oid a); eauto. by eapply leads_in.
Qed.

(** ** The descent *)

Lemma le_bytes_inj n x y : fits (8 * Z.of_nat n) x -> fits (8 * Z.of_nat n) y -> le_bytes n x = le_bytes n y -> x = y.
Proof. intros Hx Hy E. rewrite <- (le_val_bytes_fits n x), <- (le_val_bytes_fits n y) by done. by rewrite E. Qed.

(** Eight bytes at an aligned address are the word there. *)
Lemma view_word c a o :
  view c a (le_bytes 8 o) -> fits 64 o -> a mod 8 = 0 -> (forall w, c !! a = Some w -> fits 64 w) -> c !! a = Some o.
Proof.
  intros Hv Ho Ha Hw. destruct (c !! a) as [w|] eqn:Ec.
  - f_equal. specialize (Hw w eq_refl). apply (le_bytes_inj 8); [done..|].
    apply list_eq_same_length with 8%nat; [by rewrite !length_le_bytes..|]. intros i x y Hi Hx Hy.
    apply Hv in Hy. rewrite (byte_at_word _ _ _ w) in Hy by (done || lia).
    unfold fits in *. rewrite le_bytes_in, list_lookup_fmap, lookup_seq_lt in Hx by lia. simpl in Hx. congruence.
  - assert (exists b r, le_bytes 8 o = b :: r) as (b & r & E).
    { pose proof (length_le_bytes 8 o) as Hl. destruct (le_bytes 8 o); [done|eauto]. }
    rewrite E in Hv. apply view_cons in Hv as [Hb _]. unfold byte_at in Hb.
    replace (8 * (a / 8)) with a in Hb by (pose proof (Z.div_mod a 8 ltac:(lia)); lia). by rewrite Ec in Hb.
Qed.

Lemma word_view c a o : c !! a = Some o -> fits 64 o -> a mod 8 = 0 -> view c a (le_bytes 8 o).
Proof.
  intros Hc Ho Ha i b Hi. pose proof (lookup_lt_Some _ _ _ Hi) as Hlt. rewrite length_le_bytes in Hlt.
  rewrite (byte_at_word _ _ _ o) by (done || lia). unfold fits in Ho.
  rewrite le_bytes_in, list_lookup_fmap, lookup_seq_lt in Hi by lia. simpl in Hi. congruence.
Qed.

Lemma mev_load_u64 c a o :
  view c a (le_bytes 8 o) -> fits 64 o -> (a mod 8 = 0 -> forall w, c !! a = Some w -> fits 64 w) -> mev (load_u64 a) c o c.
Proof.
  intros Hv Ho Hw. unfold load_u64. destruct (Z.eqb_spec (a mod 8) 0) as [Ha|Ha]; [by apply mev_load, view_word; auto|].
  eapply mev_bind.
  - pose proof (mev_load_bytes a (le_bytes 8 o) c Hv) as H. by rewrite length_le_bytes in H.
  - rewrite le_val_bytes_fits by done. apply mev_ret.
Qed.

Lemma inner_rec c node sw seps kids i s kid :
  inner c node sw seps kids -> seps !! i = Some s -> kids !! i = Some kid ->
  c !! nmd_at (D_RW node) (Z.of_nat i) = Some (nmd_word (s_md s)) /\ nmd_ok (s_md s) /\
  view c (body (D_RW node) + offset (s_md s)) (zstr (s_key s)) /\
  view c (body (D_RW node) + offset (s_md s) + key_len (s_md s)) (le_bytes 8 (off (top kid))) /\
  key_len (s_md s) = Z.of_nat (length (s_key s)) + 1 /\ total_len (s_md s) = key_len (s_md s) + 8 /\
  offset (s_md s) + total_len (s_md s) <= sizeof_body.
Proof.
  intros Hi Hs Hk. destruct (in_sep _ _ _ _ _ Hi i s Hs) as (Hv & _ & Hroom).
  destruct (nh_rec _ _ _ _ (in_has _ _ _ _ _ Hi) i (child_rec s kid)) as (A & B & C).
  { apply lookup_zip_with_Some. eauto. }
  destruct (C Hv) as (V & L1 & L2). cbn [child_rec r_md r_key r_val] in *. apply view_app in V as [V1 V2].
  rewrite length_zstr in *. rewrite length_le_bytes in L2. split_and!; try done; [|lia|lia].
  rewrite L1. done.
Qed.

Lemma mev_nmd c node i d : c !! nmd_at node i = Some (nmd_word d) -> nmd_ok d -> mev (load_nmd node i) c d c.
Proof. intros Hc Hok. unfold load_nmd. eapply mev_bind; [by apply mev_load|]. rewrite nmd_of_word by done. apply mev_ret. Qed.

Lemma mev_first_not_less c node sw seps kids key :
  inner c node sw seps kids -> NUL ∉ key ->
  mev (first_not_less (D_RW node) key (length seps) 0) c (Z.of_nat (first_ge (s_key <$> seps) key)) c.
Proof.
  intros Hi Hkey. destruct (in_len _ _ _ _ _ Hi) as [Hls _].
  assert (forall post pre, seps = pre ++ post ->
    mev (first_not_less (D_RW node) key (length post) (Z.of_nat (length pre))) c
      (Z.of_nat (length pre + first_ge (s_key <$> post) key)) c) as Hgen; [|by apply (Hgen seps [])].
  induction post as [|s post IH]; intros pre E; cbn [length first_not_less fmap list_fmap first_ge].
  - rewrite Nat.add_0_r. apply mev_ret.
  - assert (seps !! length pre = Some s) as Hs by (by rewrite E, list_lookup_middle).
    destruct (lookup_lt_is_Some_2 kids (length pre)) as [kid Hkid]; [rewrite <- Hls; by eapply lookup_lt_Some|].
    destruct (inner_rec _ _ _ _ _ _ _ _ Hi Hs Hkid) as (A & B & V1 & V2 & K & T & _).
    destruct (in_sep _ _ _ _ _ Hi _ _ Hs) as (_ & Hnul & _).
    eapply mev_bind; [by eapply mev_nmd|]. eapply mev_bind; [apply mev_check, Z.eqb_eq, T|].
    eapply mev_bind; [by eapply mev_nmd|].
    destruct (mev_strcmp _ (s_key s) key c V1 Hnul) as (r & Hr & Hsgn). rewrite c_str_no_nul in Hsgn by done.
    eapply mev_bind; [exact Hr|]. case_bool_decide as Hlt.
    + unfold bytes_lt in Hlt. rewrite Hlt in Hsgn. simpl in Hsgn.
      rewrite (proj2 (Z.leb_gt 0 r)) by lia. specialize (IH (pre ++ [s])). rewrite length_app in IH. simpl in IH.
      replace (length pre + S (first_ge (s_key <$> post) key))%nat with (length pre + 1 + first_ge (s_key <$> post) key)%nat by lia.
      replace (Z.of_nat (length pre) + 1) with (Z.of_nat (length pre + 1)) by lia. apply IH. by rewrite E, <- app_assoc.
    + unfold bytes_lt in Hlt. rewrite (proj2 (Z.leb_le 0 r)).
      * rewrite Nat.add_0_r. apply mev_ret.
      * destruct (bytes_cmp (s_key s) key); simpl in Hsgn; [lia|done|lia].
Qed.

(** The free space of a node with this status word. *)
Definition free_of (sw : NodeHeaderStatusWord) : Z := free_bytes (record_count sw) (block_size sw).

Lemma mev_free_space c node sw :
  c !! status_word node = Some (sw_word sw) -> sw_ok sw -> mev (free_space (status_word node)) c (free_of sw) c.
Proof.
  intros Hc Hok. unfold free_space. eapply mev_bind; [by apply mev_load|]. eapply mev_bind; [by apply mev_load|].
  rewrite sw_of_word by done. apply mev_ret.
Qed.

(** A neighbour of the child with [fs] free bytes that it could be merged with. *)
Definition mergeable (kids : list shape) (i : Z) (fs : Z) : TOID :=
  match kids !! Z.to_nat i with
  | Some kid => if (0 <=? i) && negb (fs + free_of (top_sw kid) <? BZTREE_MIN_FREE_SPACE + BZTREE_NODE_SIZE) then top kid else TOID_NULL
  | None => TOID_NULL
  end.

Lemma mev_child_off c node sw seps kids i s kid :
  inner c node sw seps kids -> seps !! i = Some s -> kids !! i = Some kid ->
  mev (child_off (D_RW node) (Z.of_nat i)) c (link_at node s) c /\ mev (load_u64 (link_at node s)) c (off (top kid)) c.
Proof.
  intros Hi Hs Hk. destruct (inner_rec _ _ _ _ _ _ _ _ Hi Hs Hk) as (A & B & V1 & V2 & K & T & Hroom). split.
  - eapply mev_bind; [by eapply mev_nmd|]. apply mev_ret.
  - apply mev_load_u64; [done|by eapply in_kid|]. intros Hm w. eapply in_words; [exact Hi| |done].
    pose proof (ok_offset _ B) as [Ho _]. unfold link_at. node_lia.
Qed.

Section inner.
Context (c : gmap Z Z) (h : nat) (node : TOID) (sw : NodeHeaderStatusWord) (seps : list sep) (kids : list shape).
Context (Hi : inner c node sw seps kids).
Context (Hkids : forall i kid, kids !! i = Some kid ->
  c !! status_word (D_RW (top kid)) = Some (sw_word (top_sw kid)) /\ sw_ok (top_sw kid)).

Lemma kid_toid i kid : kids !! i = Some kid -> MkTOID (pool_uuid_lo node) (off (top kid)) = top kid.
Proof. intros Hk. destruct (in_kid _ _ _ _ _ Hi i kid Hk) as [<- _]. by destruct (top kid). Qed.

Lemma sep_of i kid : kids !! i = Some kid -> exists s, seps !! i = Some s.
Proof.
  intros Hk. apply lookup_lt_is_Some. rewrite (proj1 (in_len _ _ _ _ _ Hi)). by eapply lookup_lt_Some.
Qed.

Lemma mev_sibling i fs : 0 <= i < Z.of_nat (length kids) ->
  mev (sibling node i fs) c (mergeable kids i fs) c.
Proof.
  intros Hb. destruct (lookup_lt_is_Some_2 kids (Z.to_nat i)) as [kid Hk]; [lia|]. destruct (sep_of _ _ Hk) as [s Hs].
  destruct (mev_child_off _ _ _ _ _ _ _ _ Hi Hs Hk) as [H1 H2]. rewrite Z2Nat.id in H1 by lia.
  destruct (Hkids _ _ Hk) as [H3 H4].
  unfold sibling, mergeable. rewrite Hk, (proj2 (Z.leb_le 0 i)) by lia. cbn [andb].
  eapply mev_bind; [exact H1|]. eapply mev_bind; [exact H2|]. cbv zeta. rewrite (kid_toid _ _ Hk).
  eapply mev_bind; [by eapply mev_free_space|]. destruct (_ <? _); apply mev_ret.
Qed.

(** One step down goes to the child in the key's slot. *)
Lemma mev_descend key kid s :
  NUL ∉ key -> kids !! slot (s_key <$> seps) key = Some kid -> seps !! slot (s_key <$> seps) key = Some s ->
  mev (descend node sw key) c
    (MkDescent (Z.of_nat (slot (s_key <$> seps) key)) (top kid) (link_at node s) (free_of (top_sw kid))
       (mergeable kids (Z.of_nat (slot (s_key <$> seps) key) - 1) (free_of (top_sw kid)))
       (mergeable kids (Z.of_nat (slot (s_key <$> seps) key) + 1) (free_of (top_sw kid)))) c.
Proof.
  intros Hkey Hk Hs. destruct (in_len _ _ _ _ _ Hi) as [Hls Hlk].
  assert (record_count sw = Z.of_nat (length kids)) as Hn.
  { rewrite (nh_count _ _ _ _ (in_has _ _ _ _ _ Hi)), length_zip_with. lia. }
  set (j := slot (s_key <$> seps) key) in *.
  destruct (mev_child_off _ _ _ _ _ _ _ _ Hi Hs Hk) as [H1 H2]. destruct (Hkids _ _ Hk) as [H3 H4].
  pose proof (lookup_lt_Some _ _ _ Hk) as Hjlt.
  unfold descend. rewrite Hn, Nat2Z.id.
  eapply mev_bind; [rewrite <- Hls; by eapply mev_first_not_less|].
  assert ((if Z.of_nat (first_ge (s_key <$> seps) key) =? Z.of_nat (length kids)
           then u16 (Z.of_nat (first_ge (s_key <$> seps) key) - 1) else Z.of_nat (first_ge (s_key <$> seps) key)) = Z.of_nat j) as ->.
  { unfold j, slot. rewrite length_fmap. destruct (Nat.eqb_spec (first_ge (s_key <$> seps) key) (length seps)) as [E|E].
    - rewrite E, Hls, Z.eqb_refl. unfold u16. rewrite Z.mod_small by lia. lia.
    - rewrite (proj2 (Z.eqb_neq _ _)) by lia. done. }
  cbv zeta. eapply mev_bind; [exact H1|]. eapply mev_bind; [exact H2|]. rewrite (kid_toid _ _ Hk).
  eapply mev_bind; [by eapply mev_free_space|].
  assert (forall (b : bool) (i : Z), (b = true -> 0 <= i < Z.of_nat (length kids)) -> (b = false -> mergeable kids i (free_of (top_sw kid)) = TOID_NULL) ->
    mev (if b then sibling node i (free_of (top_sw kid)) else Ret TOID_NULL) c (mergeable kids i (free_of (top_sw kid))) c) as Hsib.
  { intros [|] i Hb Hno; [by apply mev_sibling, Hb|]. rewrite Hno by done. apply mev_ret. }
  eapply mev_bind.
  { apply Hsib; [intros H%Z.ltb_lt; lia|]. intros H%Z.ltb_ge. unfold mergeable. rewrite (proj2 (Z.leb_gt 0 _)) by lia. by case_match. }
  eapply mev_bind.
  { apply Hsib; [intros H%Z.ltb_lt; lia|]. intros H%Z.ltb_ge. unfold mergeable.
    destruct (kids !! Z.to_nat (Z.of_nat j + 1)) eqn:E; [|done]. apply lookup_lt_Some in E. lia. }
  apply mev_ret.
Qed.
End inner.
End shapes.

(** ** The search, when no modification is due *)

(** On the way of the key, no child is to be compacted, split or merged. *)
Inductive quiet (key : bytes) : shape -> Prop :=
| quiet_leaf node sw rs : quiet key (Leaf node sw rs)
| quiet_inner node sw seps kids kid :
    kids !! slot (s_key <$> seps) key = Some kid -> settled (top_sw kid) ->
    TOID_IS_NULL (mergeable kids (Z.of_nat (slot (s_key <$> seps) key) - 1) (free_of (top_sw kid))) = true ->
    TOID_IS_NULL (mergeable kids (Z.of_nat (slot (s_key <$> seps) key) + 1) (free_of (top_sw kid))) = true ->
    quiet key kid -> quiet key (Inner node sw seps kids).

Lemma settled_free sw : sw_ok sw -> settled sw -> BZTREE_MIN_FREE_SPACE <= free_of sw.
Proof.
  intros [_ [Hr _] [Hb _] _] [_ Hs]. unfold free_of, free_bytes, BZTREE_MIN_FREE_SPACE in *. rewrite u32_id; [node_lia|].
  unfold fits. node_lia.
Qed.

Lemma leads_plug key s leaf_oid sw rs plug sw' rs' : leads key s leaf_oid sw rs plug ->
  exists plug', leads key (plug sw' rs') leaf_oid sw' rs' plug'.
Proof.
  induction 1 as [|node nsw seps kids kid leaf_oid sw rs plug Hk _ [plug' IH]]; [eexists; constructor|].
  eexists. eapply leads_inner; [|exact IH]. apply list_lookup_insert_eq. by eapply lookup_lt_Some.
Qed.

Lemma mergeable_other kids i j kid fs : i <> Z.of_nat j -> mergeable (<[j := kid]> kids) i fs = mergeable kids i fs.
Proof.
  intros Hne. unfold mergeable. destruct (Z.leb_spec 0 i).
  - by rewrite list_lookup_insert_ne by lia.
  - simpl. by repeat case_match.
Qed.

(** It does not depend on the records of the leaf, only on its status word. *)
Lemma quiet_plug key s leaf_oid sw rs plug sw' rs1 rs2 :
  leads key s leaf_oid sw rs plug ->
  top_sw (plug sw' rs1) = top_sw (plug sw' rs2) /\ (quiet key (plug sw' rs1) -> quiet key (plug sw' rs2)).
Proof.
  induction 1 as [node sw rs|node nsw seps kids kid leaf_oid sw rs plug Hk _ [IH1 IH2]]; [split; [done|]; intros _; constructor|].
  split; [done|]. intros Hq. pose proof (lookup_lt_Some _ _ _ Hk) as Hlt. inversion Hq as [|? ? ? ? kid' Hk' Hset Hl Hr Hq']; subst.
  rewrite list_lookup_insert_eq in Hk' by done. injection Hk' as <-.
  rewrite mergeable_other in Hl by lia. rewrite mergeable_other in Hr by lia.
  eapply quiet_inner; [by apply list_lookup_insert_eq|by rewrite <- IH1|..]; rewrite <- ?IH1, ?mergeable_other by lia; auto.
Qed.

Lemma quiet_settled key s leaf_oid sw rs plug sw' rs' :
  leads key s leaf_oid sw rs plug -> settled (top_sw (plug sw' rs')) -> quiet key (plug sw' rs') -> settled sw'.
Proof.
  induction 1 as [node sw rs|node nsw seps kids kid leaf_oid sw rs plug Hk _ IH]; [done|].
  intros _ Hq. pose proof (lookup_lt_Some _ _ _ Hk) as Hlt. inversion Hq as [|? ? ? ? kid' Hk' Hset Hl Hr Hq']; subst.
  rewrite list_lookup_insert_eq in Hk' by done. injection Hk' as <-. auto.
Qed.

Section search.
Context {HP : Platform} {HL : PlatformLaws} {HM : Pmdk} (me : Z) (fuel : nat) (t : BzTree).

Lemma ev_child_smo dep gp ptr parent psw d l e c mm sw :
  c !! status_word (D_RW (d_child d)) = Some (sw_word sw) -> sw_ok sw -> settled sw -> d_fs d = free_of sw ->
  TOID_IS_NULL (d_left d) = true -> TOID_IS_NULL (d_right d) = true ->
  ev (child_smo me fuel dep t gp ptr parent psw d) (St l e c mm) false (St l e c mm).
Proof.
  intros Hc Hok Hs Hfs Hl Hr. unfold child_smo. eapply ev_bind.
  { apply ev_mem. unfold load_sw. eapply mev_bind; [by apply mev_load|]. rewrite sw_of_word by done. apply mev_ret. }
  pose proof (settled_free sw Hok Hs). destruct Hs as [Hd _].
  rewrite (proj2 (Z.ltb_ge _ _) Hd), Hfs, (proj2 (Z.ltb_ge _ _)), Hl, Hr by lia. apply ev_ret.
Qed.

(** One turn of the traversal in a node of height [S h'], when no modification is due. *)
Lemma ev_turn dep smo md key H h' node nsw seps kids kid s p l e c mm :
  stands c (S h') (Inner node nsw seps kids) -> kids !! slot (s_key <$> seps) key = Some kid ->
  seps !! slot (s_key <$> seps) key = Some s -> (S h' <= H)%nat -> Z.of_nat H < 2 ^ 32 -> NUL ∉ key ->
  (smo = true -> settled (top_sw kid) /\
    TOID_IS_NULL (mergeable kids (Z.of_nat (slot (s_key <$> seps) key) - 1) (free_of (top_sw kid))) = true /\
    TOID_IS_NULL (mergeable kids (Z.of_nat (slot (s_key <$> seps) key) + 1) (free_of (top_sw kid))) = true) ->
  c !! md_height md = Some (Z.of_nat H) -> p_h p = Z.of_nat (H - S h') -> p_parent p = node ->
  ev (traverse_turn me fuel dep t key smo md p) (St l e c mm)
    (if Z.of_nat (H - 1) <=? Z.of_nat (H - S h') + 1
     then inr (Some (top kid, Some node, Z.of_nat (slot (s_key <$> seps) key)))
     else inl (MkPos (Z.of_nat (H - S h') + 1) (top kid) (link_at node s) (Some node))) (St l e c mm).
Proof.
  intros Hst Hk Hs Hh Hb Hkey Hq Hmd Hph Hpar. inversion Hst as [|? ? ? ? ? Hi Hkids]; subst.
  assert (forall j kid, kids !! j = Some kid ->
    c !! status_word (D_RW (top kid)) = Some (sw_word (top_sw kid)) /\ sw_ok (top_sw kid)) as Htops.
  { intros j kid' Hj. eapply stands_top. by eapply Hkids. }
  pose proof (mev_descend c _ nsw seps kids Hi Htops key kid s Hkey Hk Hs) as Hd.
  unfold traverse_turn. eapply ev_bind.
  { apply ev_mem. eapply mev_load_sw, in_has, Hi. }
  eapply ev_bind; [apply ev_mem, Hd|]. eapply (ev_bind _ _ _ false).
  { destruct smo; [|apply ev_ret]. destruct (Hq eq_refl) as (Hset & Hl & Hr). destruct (Htops _ _ Hk) as [H3 H4]. by eapply ev_child_smo. }
  cbv beta match. eapply ev_bind; [by apply ev_ld|]. cbv zeta. rewrite Hph.
  rewrite (u64_id (Z.of_nat H - 1)), (u64_id (Z.of_nat (H - S h') + 1)) by (unfold fits; lia).
  replace (Z.of_nat H - 1) with (Z.of_nat (H - 1)) by lia. cbn [d_child d_index d_off_ptr].
  destruct (_ <=? _); apply ev_ret.
Qed.

Lemma ev_traverse dep smo md key H s leaf_oid sw rs plug :
  leads key s leaf_oid sw rs plug -> forall h n p l e c mm, stands c h s -> (2 <= h <= H)%nat -> Z.of_nat H < 2 ^ 32 ->
  NUL ∉ key -> (smo = true -> quiet key s) -> c !! md_height md = Some (Z.of_nat H) ->
  p_h p = Z.of_nat (H - h) -> p_parent p = top s -> (h - 1 <= n)%nat ->
  exists par idx, ev (loop n (traverse_turn me fuel dep t key smo md) p) (St l e c mm) (Some (leaf_oid, Some par, idx)) (St l e c mm).
Proof.
  induction 1 as [node sw rs|node nsw seps kids kid leaf_oid sw rs plug Hk Hle IH];
    intros h n p l e c mm Hst Hh Hb Hkey Hq Hmd Hph Hpar Hn; [inversion Hst; subst; lia|].
  inversion Hst as [|h' ? ? ? ? Hi Hkids]; subst. destruct n as [|n]; [lia|].
  destruct (sep_of c node nsw seps kids Hi _ _ Hk) as [x Hx].
  assert (smo = true -> settled (top_sw kid) /\
    TOID_IS_NULL (mergeable kids (Z.of_nat (slot (s_key <$> seps) key) - 1) (free_of (top_sw kid))) = true /\
    TOID_IS_NULL (mergeable kids (Z.of_nat (slot (s_key <$> seps) key) + 1) (free_of (top_sw kid))) = true /\ quiet key kid) as Hq'.
  { intros E. specialize (Hq E). inversion Hq as [|? ? ? ? kid' Hk' ? ? ? ?]; subst. rewrite Hk in Hk'. by injection Hk' as <-. }
  assert (smo = true -> _) as Hq3 by exact (fun E => conj (proj1 (Hq' E)) (conj (proj1 (proj2 (Hq' E))) (proj1 (proj2 (proj2 (Hq' E)))))).
  pose proof (ev_turn dep smo md key H h' node nsw seps kids kid x p l e c mm Hst Hk Hx ltac:(lia) Hb Hkey Hq3 Hmd Hph Hpar) as Hturn.
  pose proof (Hkids _ _ Hk) as Hkst. destruct (Z.leb_spec (Z.of_nat (H - 1)) (Z.of_nat (H - S h') + 1)) as [Hlast|Hmore].
  - assert (h' = 1)%nat as -> by lia. pose proof (stands_height _ _ _ Hkst) as Hkh. destruct kid as [kn ksw krs|]; [|lia]. inversion Hle; subst.
    eexists _, _. cbn [loop]. eapply ev_bind; [exact Hturn|]. apply ev_ret.
  - destruct (IH h' n (MkPos (Z.of_nat (H - S h') + 1) (top kid) (link_at node x) (Some node)) l e c mm) as (par & idx & Hev);
      try done; [lia| |simpl; lia|lia|].
    + intros E. by apply Hq'.
    + exists par, idx. cbn [loop]. eapply ev_bind; [exact Hturn|]. exact Hev.
Qed.
End search.

(** ** The operations on a tree *)

Section tree.
Context {HP : Platform} {HL : PlatformLaws} {HM : Pmdk} (me : Z) (fuel : nat) (fuel_big : (30 < fuel)%nat) (depth : nat).
Context (t : BzTree) (m g part : Z) (k sz i : nat) (own : nat) (own_ne : epoch t <> m).
Context (R : TOID) (root_fixed : forall s, is_Some (cells s !! D_RW R) -> pmemobj_root sizeof_RootObj s = (R, s)).

(** The search reaches the leaf of its key; one that may modify the tree does so too when
    nothing is due. *)
Lemma ev_find_parent_of dep key smo md H s leaf_oid sw rs plug l e c mm :
  rooted R md (top s) (Z.of_nat H) c -> stands c H s -> leads key s leaf_oid sw rs plug -> (H <= fuel)%nat ->
  Z.of_nat H < 2 ^ 32 -> NUL ∉ key -> (smo = true -> settled (top_sw s) /\ quiet key s) ->
  exists par idx, ev (find_leaf_parent_smo me fuel dep t key smo md) (St l e c mm) (Some (leaf_oid, par, idx)) (St l e c mm).
Proof.
  intros Hr Hst Hle Hf Hb Hkey Hq. pose proof (stands_height _ _ _ Hst) as Hh.
  assert (forall x, ev (let! height := ld (md_height md) in let! root := mem (load_toid (md_root_node md)) in
      if height =? 1 then Ret (Some (root, None, 0))
      else loop fuel (traverse_turn me fuel dep t key smo md) (MkPos 0 root (md_root_node md + 8) None)) (St l e c mm) x (St l e c mm) ->
    ev (find_leaf_parent_smo me fuel dep t key smo md) (St l e c mm) x (St l e c mm)) as Hgo.
  { intros x Hx. unfold find_leaf_parent_smo. eapply (ev_bind _ _ _ false); [|exact Hx].
    destruct smo; [|apply ev_ret]. destruct (Hq eq_refl) as [Hs _]. destruct (stands_top _ _ _ Hst) as [T1 T2].
    eapply ev_root_smo; [exact Hr| |exact Hs]. unfold load_sw. eapply mev_bind; [by apply mev_load|].
    rewrite sw_of_word by done. apply mev_ret. }
  destruct s as [node nsw nrs|node nsw seps kids].
  - subst H. inversion Hle; subst. exists None, 0. apply Hgo. eapply ev_bind; [apply ev_ld, (rt_height _ _ _ _ _ Hr)|].
    eapply ev_bind; [by eapply ev_mem, mev_root|]. apply ev_ret.
  - destruct (ev_traverse me fuel t dep smo md key H _ _ _ _ _ Hle H fuel (MkPos 0 (top (Inner node nsw seps kids)) (md_root_node md + 8) None)
      l e c mm Hst) as (par & idx & Hev); try done; [by intros E; apply Hq|apply (rt_height _ _ _ _ _ Hr)|simpl; lia|lia|].
    exists (Some par), idx. apply Hgo. eapply ev_bind; [apply ev_ld, (rt_height _ _ _ _ _ Hr)|].
    eapply ev_bind; [by eapply ev_mem, mev_root|]. rewrite (proj2 (Z.eqb_neq _ _)) by lia. exact Hev.
Qed.

Lemma ev_find_leaf_of dep key smo md H s leaf_oid sw rs plug l e c mm :
  rooted R md (top s) (Z.of_nat H) c -> stands c H s -> leads key s leaf_oid sw rs plug -> (H <= fuel)%nat ->
  Z.of_nat H < 2 ^ 32 -> NUL ∉ key -> (smo = true -> settled (top_sw s) /\ quiet key s) ->
  ev (find_leaf me fuel dep t key smo) (St l e c mm) leaf_oid (St l e c mm).
Proof.
  intros Hr Hst Hle Hf Hb Hkey Hq.
  destruct (ev_find_parent_of dep key smo md H s leaf_oid sw rs plug l e c mm) as (par & idx & Hev); try done.
  unfold find_leaf. eapply (ev_bind _ _ _ (leaf_oid, par, idx)); [|apply ev_ret].
  unfold find_leaf_parent. apply ev_loop_once; [lia|]. eapply ev_bind; [by eapply ev_get_metadata|].
  eapply ev_bind; [exact Hev|]. apply ev_ret.
Qed.

(** The leaf of a key as a place: the words above it are those of the metadata and of all
    other nodes. *)
Section place.
Context (c0 : gmap Z Z) (md : Z) (H : nat) (s : shape) (key : bytes) (leaf_oid : TOID) (sw0 : NodeHeaderStatusWord) (rs0 : list rec).
Context (plug : NodeHeaderStatusWord -> list rec -> shape).
Context (Hr : rooted R md (top s) (Z.of_nat H) c0) (Hst : stands c0 H s) (Hle : leads key s leaf_oid sw0 rs0 plug).
Context (Hsep : separate (nodes s)) (Hf : (H <= fuel)%nat) (Hb : Z.of_nat H < 2 ^ 32) (Hkey : NUL ∉ key).

Definition tree_upper (a : Z) : Prop :=
  a ∈ tree_words R md \/ exists n, n ∈ nodes s /\ in_leaf n a /\ ~ in_leaf leaf_oid a.

Definition tree_calm (sw : NodeHeaderStatusWord) : Prop :=
  exists rs, settled (top_sw (plug sw rs)) /\ quiet key (plug sw rs).

Lemma tree_calm_settled sw : tree_calm sw -> settled sw.
Proof. intros (rs & H1 & H2). by eapply quiet_settled. Qed.

Lemma tree_same c sw rs :
  (forall a, tree_upper a -> c !! a = c0 !! a) -> leaf c (D_RW leaf_oid) sw rs ->
  rooted R md (top (plug sw rs)) (Z.of_nat H) c /\ stands c H (plug sw rs).
Proof.
  intros Hu Hl. split.
  - rewrite (leads_top key s leaf_oid sw0 rs0 plug) by done. eapply rooted_same; [exact Hr|]. intros a Ha. apply Hu. by left.
  - eapply stands_update; [exact Hst|exact Hle|exact Hsep| |exact Hl]. intros n a Hn Ha Hna. apply Hu. right. eauto.
Qed.

Lemma tree_reached dep key' smo sw rs l e c mm :
  key' = key -> (forall a, tree_upper a -> c !! a = c0 !! a) -> leaf c (D_RW leaf_oid) sw rs -> (smo = true -> tree_calm sw) ->
  ev (find_leaf me fuel dep t key' smo) (St l e c mm) leaf_oid (St l e c mm).
Proof.
  intros -> Hu Hl Hq. destruct (tree_same c sw rs Hu Hl) as [Hr' Hst'].
  destruct (leads_plug _ _ _ _ _ _ sw rs Hle) as [plug' Hle'].
  eapply ev_find_leaf_of; try done. intros E. destruct (Hq E) as (rs1 & H1 & H2).
  destruct (quiet_plug key s leaf_oid sw0 rs0 plug sw rs1 rs Hle) as [E1 E2]. rewrite <- E1. auto.
Qed.

Definition tree_place : place me fuel t :=
  {| spot := leaf_oid; upper := tree_upper; found_in := c0; covers := fun key' => key' = key; calm := tree_calm;
     calm_settled := tree_calm_settled; reached := tree_reached |}.
End place.

(** The nodes, the words above them and the pool do not overlap. *)
Record clear_tree (ds : list Z) (md : Z) (s : shape) : Prop := {
  ct_nodes : separate (nodes s);
  ct_words a : a ∈ tree_words R md -> ~ pool_cells part ds a /\ forall n, n ∈ nodes s -> ~ in_leaf n a;
  ct_pool n a : n ∈ nodes s -> in_leaf n a -> ~ pool_cells part ds a
}.

Lemma clear_tree_leaf ds md s key leaf_oid sw rs plug :
  clear_tree ds md s -> leads key s leaf_oid sw rs plug ->
  clear_of part ds leaf_oid (tree_upper md s leaf_oid).
Proof.
  intros [H1 H2 H3] Hle. pose proof (leads_in _ _ _ _ _ _ Hle) as Hin. split.
  - intros a [Ha|(n & Hn & Ha & Hna)]; [|split; [done|by eapply H3]]. destruct (H2 a Ha) as [? Hno]. split; [by apply Hno|done].
  - intros a Ha. by eapply H3.
Qed.

Lemma clear_tree_tail n ds md s : clear_tree ds md s -> clear_tree (drop n ds) md s.
Proof.
  revert ds. induction n as [|n IH]; intros ds H; [done|]. destruct ds as [|d ds]; [done|]. apply IH.
  assert (forall a, pool_cells part ds a -> pool_cells part (d :: ds) a) as Hm.
  { intros a [Ha|[Ha|(x & Hx & Ha)]]; [by left|right; by left|right; right; exists x; split; [by right|done]]. }
  destruct H as [H1 H2 H3]. split; [done| |].
  - intros a Ha. destruct (H2 a Ha) as [Hp Hn]. split; [|done]. by intros ?%Hm.
  - intros q a Hq Ha Hp. by eapply H3, Hm.
Qed.

(** The world holds the tree [s] of height [H] that represents [M], and [n] descriptors
    are free. *)
Definition holds_tree (n H : nat) (s : shape) (M : gmap (list ascii) (list ascii)) (prot : bool) (w : World) : Prop :=
  exists ds md en, length ds = n /\ rooted R md (top s) (Z.of_nat H) (cells (client w)) /\
    stands (cells (client w)) H s /\ means s M /\
    service me t m g part k sz i own ds en (lists w) (epochs w) (cells (client w)) /\ clear_tree ds md s /\
    metrics_ok me (metrics (client w)) /\ (protected_epoch en =? 0) = negb prot.

(** What an operation makes of the map concerns its key only. *)
Lemma map_step_key (o : operation) (M N : gmap (list ascii) (list ascii)) :
  M !! op_key o = N !! op_key o ->
  (map_step o M).1 = (map_step o N).1 /\ with_key (op_key o) (map_step o N).2 M = (map_step o M).2 /\
  (forall key, key <> op_key o -> (map_step o N).2 !! key = N !! key).
Proof.
  assert (forall key, M !! key = N !! key -> with_key key N M = M) as Hid.
  { intros key E. apply map_eq. intros x. destruct (decide (x = key)) as [->|Hne]; [by rewrite with_key_eq|by rewrite with_key_ne]. }
  assert (forall key v, with_key key (<[key := v]> N) M = <[key := v]> M) as Hins.
  { intros key v. apply map_eq. intros x. destruct (decide (x = key)) as [->|Hne].
    - by rewrite with_key_eq, !lookup_insert_eq.
    - by rewrite with_key_ne, lookup_insert_ne. }
  assert (forall key, with_key key (delete key N) M = delete key M) as Hdel.
  { intros key. apply map_eq. intros x. destruct (decide (x = key)) as [->|Hne].
    - by rewrite with_key_eq, !lookup_delete_eq.
    - by rewrite with_key_ne, lookup_delete_ne. }
  destruct o as [key v|key v|key|key]; cbn [op_key map_step fst snd]; intros E; rewrite E.
  - split; [done|]. destruct (bool_decide _); split; auto. intros x Hx. by rewrite lookup_insert_ne.
  - split; [done|]. destruct (bool_decide _); split; auto. intros x Hx. by rewrite lookup_insert_ne.
  - auto.
  - split; [done|]. split; [done|]. intros x Hx. by rewrite lookup_delete_ne.
Qed.

Lemma tall_step o n H s M prot w :
  holds_tree (2 + n) H s M prot w -> c_strings o -> (H <= fuel)%nat -> Z.of_nat H < 2 ^ 32 ->
  (settles o = true -> settled (top_sw s) /\ quiet (op_key o) s) ->
  exists n' s' w', run (run_operation me fuel depth t o) w = (Done (map_step o M).1, w') /\
    holds_tree n' H s' (map_step o M).2 (still_protected o M prot) w' /\ (n <= n')%nat /\ nodes s' = nodes s.
Proof.
  intros (ds & md & en & Hlen & Hr & Hst & Hme & Hs & Hap & Hm & Hp) Hstr Hf Hb Hq.
  destruct ds as [|d1 [|d2 ds]]; [done|done|]. cbn [length] in Hlen.
  assert (NUL ∉ op_key o) as Hkey by (destruct o; simpl in *; tauto).
  destruct (stands_leads _ _ _ (op_key o) Hst) as (leaf_oid & sw & rs & plug & Hle & Hl).
  destruct (means_leads _ _ _ _ _ _ _ Hle Hme) as (N & HN & EN).
  set (p := tree_place _ md H s (op_key o) leaf_oid sw rs plug Hr Hst Hle (ct_nodes _ _ _ Hap) Hf Hb Hkey).
  destruct (operation_at me fuel fuel_big depth t m g part k sz i own own_ne o d1 d2 ds en p sw rs N prot w)
    as (used & sw' & rs' & en' & w' & Hu & Er & [Hup Hl' Hcont'] & Hs' & _ & Hm' & Hp' & _); try done.
  { by eapply clear_tree_leaf. }
  { intros E. exists rs. rewrite (leads_self _ _ _ _ _ _ Hle). by apply Hq. }
  destruct (map_step_key o M N EN) as (E1 & E2 & E3).
  assert (still_protected o N prot = still_protected o M prot) as Esp by (destruct o; simpl in *; by rewrite ?EN).
  destruct (tree_same _ md H s (op_key o) leaf_oid sw rs plug Hr Hst Hle (ct_nodes _ _ _ Hap) (cells (client w')) sw' rs' Hup Hl')
    as [Hr' Hst'].
  pose proof (leads_nodes _ _ _ _ _ _ sw' rs' Hle) as Hnodes.
  exists (length (drop used (d1 :: d2 :: ds))), (plug sw' rs'), w'. split; [by rewrite E1|].
  split; [|split; [rewrite length_drop; cbn [length]; lia|done]].
  exists (drop used (d1 :: d2 :: ds)), md, en'. split; [done|]. split; [done|]. split; [done|].
  split; [rewrite <- E2; by eapply means_update|]. split; [done|]. split; [|split; [done|by rewrite <- Esp]].
  apply clear_tree_tail. destruct Hap as [A1 A2 A3]. split; rewrite Hnodes; done.
Qed.
End tree.

(** C6.  On a tree of any height in memory, an insertion, update, lookup or erasure run alone
    answers what the map does that the tree represents, and leaves a tree of the same
    nodes for the map after it, provided that an insertion or update finds no structural
    modification due on the way of its key. The map accepts keys and values of up to 48
    bytes with their terminators and a metadata entry, as the code does; the comment at
    bztree.h:15 says otherwise. *)
Theorem BzTree_any_height `{PlatformLaws, Pmdk} me fuel depth t m g part k sz i own R o n height s M prot w :
  (30 < fuel)%nat -> epoch t <> m ->
  (forall s, is_Some (cells s !! D_RW R) -> pmemobj_root sizeof_RootObj s = (R, s)) ->
  holds_tree me t m g part k sz i own R (2 + n) height s M prot w -> c_strings o -> (height <= fuel)%nat -> Z.of_nat height < 2 ^ 32 ->
  (settles o = true -> settled (top_sw s) /\ quiet (op_key o) s) ->
  exists n' s' w', run (run_operation me fuel depth t o) w = (Done (map_step o M).1, w') /\
    holds_tree me t m g part k sz i own R n' height s' (map_step o M).2 (still_protected o M prot) w' /\ (n <= n')%nat /\
    nodes s' = nodes s.
Proof. intros Hf Hne Hroot. by apply tall_step. Qed.

(** *** A concrete tree of two levels

    The root node, at 8192, leads the keys up to "m" to the leaf at 8448 and those up to
    "z" to the leaf at 8704.  Both leaves are empty; the records that were in the second
    have left it 180 bytes short, so that the two are not to be merged. *)
Definition root_sw : NodeHeaderStatusWord := MkSW 0 false 2 20 0.
Definition short_sw : NodeHeaderStatusWord := MkSW 0 false 0 180 0.
Definition root_seps : list sep :=
  [MkSep (MkNMD 0 true 230 2 10) [byte_of 109]; MkSep (MkNMD 0 true 220 2 10) [byte_of 122]].
Definition root_kids : list shape := [Leaf (MkTOID 1 8448) (MkSW 0 false 0 0 0) []; Leaf (MkTOID 1 8704) short_sw []].
Definition two_levels : shape := Inner (MkTOID 1 8192) root_sw root_seps root_kids.

Definition root_words : list (Z * Z) :=
  [(4624, 2); (8200, sw_word root_sw); (8208, nmd_word (MkNMD 0 true 230 2 10)); (8216, nmd_word (MkNMD 0 true 220 2 10));
   (8424, 122 * 2 ^ 32 + 34 * 2 ^ 56); (8432, 109 * 2 ^ 48); (8440, 8448); (8712, sw_word short_sw)].
Definition two_level_cells : gmap Z Z :=
  list_to_map root_words ∪ (empty_tree_cells ∪ (zeros 32 8448 ∅ ∪ zeros 32 8704 ∅)).
Definition two_level_tree : World := MkGW {[ 16 := empty_ring ]} tree_epochs (MkMem two_level_cells ∅ metrics_off).

Lemma free_descs_far d : d ∈ free_descs -> 2 ^ 33 <= d < 2 ^ 34.
Proof. revert d. apply Forall_forall. apply (bool_decide_unpack _). vm_compute. exact I. Qed.

(** A node without records. *)
Lemma empty_leaf c node bs :
  0 < node /\ node mod 8 = 0 -> 0 <= bs <= sizeof_body -> c !! status_word node = Some (sw_word (MkSW 0 false 0 bs 0)) ->
  (forall x, node <= x < node + BZTREE_NODE_SIZE -> x mod 8 = 0 -> x <> status_word node -> c !! x = Some 0) ->
  leaf c node (MkSW 0 false 0 bs 0) [].
Proof.
  intros Hat Hbs Hsw Hz. unfold sizeof_body, BZTREE_NODE_SIZE, sizeof_NodeHeader in *. split; try done.
  - split; [done| |done|done]. split; simpl; unfold fits; lia.
  - split; [tauto|]. split; [done|]. intros x Hx Hm. destruct (decide (x = status_word node)) as [->|Hne]; [by eexists|].
    rewrite Hz by done. by eexists.
  - cbn. unfold sizeof_body, BZTREE_NODE_SIZE, sizeof_NodeHeader. lia.
  - intros j H1 H2. cbn in H1, H2. unfold nmd_at, body, status_word, sizeof_NodeHeader, sizeof_NodeMetadata, sizeof_body in *.
    unfold BZTREE_NODE_SIZE, sizeof_NodeHeader in *. apply Hz; [lia| |lia].
    replace (node + 16 + 8 * j) with (node + (2 + j) * 8) by lia. rewrite Z.mod_add by done. apply Hat.
  - simpl. lia.
Qed.

(** The words of a node, by computation. *)
Lemma node_words (c : gmap Z Z) node (P : Z -> option Z -> Prop) `{forall a o, Decision (P a o)} :
  node mod 8 = 0 -> Forall (fun j => P (node + 8 * j) (c !! (node + 8 * j))) (seqZ 0 32) ->
  forall x, node <= x < node + BZTREE_NODE_SIZE -> x mod 8 = 0 -> P x (c !! x).
Proof.
  intros Hn Hall x Hx Hm. unfold BZTREE_NODE_SIZE in Hx. rewrite Forall_forall in Hall.
  pose proof (Z.div_mod x 8 ltac:(lia)). pose proof (Z.div_mod node 8 ltac:(lia)).
  replace x with (node + 8 * (x / 8 - node / 8)) by lia. apply Hall, elem_of_seqZ. lia.
Qed.

Lemma two_level_words x : 8192 <= x < 8960 -> x mod 8 = 0 -> exists w, two_level_cells !! x = Some w /\ fits 64 w.
Proof.
  set (P (x : Z) (o : option Z) := is_Some o /\ fits 64 (default 0 o)).
  assert (forall node, node = 8192 \/ node = 8448 \/ node = 8704 ->
    forall x, node <= x < node + BZTREE_NODE_SIZE -> x mod 8 = 0 -> P x (two_level_cells !! x)) as H.
  { intros node [->|[->| ->]]; (apply (node_words _ _ P); [done|]); apply (bool_decide_unpack _); vm_compute; exact I. }
  intros Hx Hm. unfold BZTREE_NODE_SIZE in H.
  assert (P x (two_level_cells !! x)) as [[w Hw] Hf].
  { destruct (decide (x < 8448)); [apply (H 8192); lia|]. destruct (decide (x < 8704)); [apply (H 8448); lia|apply (H 8704); lia]. }
  exists w. rewrite Hw in *. done.
Qed.

Lemma two_level_leaf node bs : node = 8448 /\ bs = 0 \/ node = 8704 /\ bs = 180 -> leaf two_level_cells node (MkSW 0 false 0 bs 0) [].
Proof.
  set (P node (x : Z) (o : option Z) := x <> status_word node -> o = Some 0).
  intros [[-> ->]|[-> ->]]; (apply empty_leaf; [done|done|by vm_compute|]).
  - apply (node_words _ _ (P 8448)); [done|]. apply (bool_decide_unpack _). vm_compute. exact I.
  - apply (node_words _ _ (P 8704)); [done|]. apply (bool_decide_unpack _). vm_compute. exact I.
Qed.

Lemma two_level_inner : @inner bump_pmdk two_level_cells (MkTOID 1 8192) root_sw root_seps root_kids.
Proof.
  split.
  - done.
  - split; [by vm_compute|split; by vm_compute|done|]. intros [|[|i]] r Hr; [| |done]; injection Hr as <-;
      (split; [by vm_compute|]; split; [split; by vm_compute|]; intros _; split; [|done]);
      (intros j b Hj; do 10 (destruct j as [|j]; [injection Hj as <-; by vm_compute|]); done).
  - split; [done|simpl; lia].
  - intros [|[|i]] s Hs; [| |done]; injection Hs as <-; (split; [done|]; split; [|by vm_compute]);
      apply (bool_decide_unpack _); vm_compute; exact I.
  - intros [|[|i]] kid Hk; [| |done]; injection Hk as <-; done.
  - split; [done|]. split; [done|]. unfold BZTREE_NODE_SIZE. change (D_RW _) with 8192. intros x Hx Hm.
    destruct (two_level_words x ltac:(lia) Hm) as (w & Hw & _). by exists w.
  - unfold words64, BZTREE_NODE_SIZE. change (D_RW _) with 8192. intros x w Hx Hm Hw.
    destruct (two_level_words x ltac:(lia) Hm) as (w' & Hw' & Hf). congruence.
  - done.
  - done.
  - intros [|[|i]] s Hs; [| |done]; by injection Hs as <-.
  - intros [|[|i]] [|[|j]] s s' Hne Hs Hs'; try done; injection Hs as <-; injection Hs' as <-;
      [right|left]; by vm_compute.
  - by vm_compute.
Qed.

Lemma two_level_supply : supply 5 100 16 4096 2 128 free_descs (lists two_level_tree) tree_epochs two_level_cells.
Proof.
  apply (supply_same _ _ _ _ _ _ free_descs _ _ empty_tree_cells); [|exact empty_tree_supply]. intros a Ha.
  assert (a = 4096 \/ a = 4112 \/ 2 ^ 33 <= a) as Hcase.
  { destruct Ha as [->|[->|(d & Hd & Ha)]]; [by left|by right; left|]. apply free_descs_far in Hd. lia. }
  unfold two_level_cells. destruct ((list_to_map root_words : gmap Z Z) !! a) eqn:E.
  - exfalso.
    assert (Forall (fun a => a <> 4096 /\ a <> 4112 /\ a < 2 ^ 33) root_words.*1) as Hall by (apply (bool_decide_unpack _); vm_compute; exact I).
    rewrite Forall_forall in Hall. apply elem_of_list_to_map_2, (list_elem_of_fmap_2 fst) in E. specialize (Hall a E). lia.
  - rewrite lookup_union_r by done. destruct (empty_tree_cells !! a) eqn:E2; [by rewrite (lookup_union_Some_l _ _ _ _ E2)|].
    rewrite lookup_union_r by done. destruct Hcase as [->|[->|Hc]]; [by vm_compute|by vm_compute|].
    rewrite lookup_union, !zeros_lookup, !bool_decide_eq_false_2 by lia. done.
Qed.

Lemma two_level_apart : @clear_tree bump_pmdk 4096 (MkTOID 1 64) free_descs 4608 two_levels.
Proof.
  assert (forall n a, n ∈ nodes two_levels -> @in_leaf bump_pmdk n a -> 8192 <= a < 8960) as Hin.
  { intros n a Hn Ha. assert (n ∈ [MkTOID 1 8192; MkTOID 1 8448; MkTOID 1 8704]) as Hn' by exact Hn.
    unfold in_leaf, BZTREE_NODE_SIZE in Ha. change (D_RW n) with (off n) in Ha.
    rewrite !elem_of_cons, elem_of_nil in Hn'. destruct Hn' as [->|[->|[->|[]]]]; cbn [off] in Ha; lia. }
  assert (forall a, 64 <= a < 8960 -> a <> 4096 -> a <> 4112 -> ~ pool_cells 4096 free_descs a) as Hpool.
  { intros a Ha H1 H2 [->|[->|(d & Hd & Hx)]]; [done|done|]. apply free_descs_far in Hd. lia. }
  split.
  - assert (forall a b x, @D_RW bump_pmdk a + 256 <= @D_RW bump_pmdk b -> @in_leaf bump_pmdk a x -> ~ @in_leaf bump_pmdk b x) as Hlt.
    { intros a b x Hab Ha Hb. unfold in_leaf, BZTREE_NODE_SIZE in *. lia. }
    assert (forall n, n ∈ @nil TOID -> False) as Hno by (intros n Hn; by apply elem_of_nil in Hn).
    simpl. split_and!; try done; intros n x Hn; repeat (apply elem_of_cons in Hn as [->|Hn]; [by apply Hlt|]); by apply Hno in Hn.
  - intros a Ha. assert (a ∈ [64; 72; 4608; 4616; 4624; 4632]) as Ha' by exact Ha. rewrite !elem_of_cons, elem_of_nil in Ha'.
    split; [apply Hpool; lia|]. intros n Hn Hx. apply (Hin n a Hn) in Hx. lia.
  - intros n a Hn Ha. apply (Hin n a Hn) in Ha. apply Hpool; lia.
Qed.

Lemma two_level_holds :
  @holds_tree bump_pmdk 5 sample_tree 100 16 4096 2 128 117 128 (MkTOID 1 64) 4 2 two_levels ∅ false two_level_tree.
Proof.
  exists free_descs, 4608, (MkEntry 0 1 5). split; [done|].
  split; [|split; [|split; [|split; [|split; [apply two_level_apart|split; [by left|done]]]]]].
  - split; [by exists 1, 4608|done|done].
  - apply stands_inner; [apply two_level_inner|]. intros [|[|i]] kid Hk; [| |done]; injection Hk as <-; apply stands_leaf, two_level_leaf; auto.
  - assert (contents [] ∅) as Hno by (intros key v; split; [done|]; by intros (j & r & Hj & _)).
    apply (means_inner _ _ _ _ [∅; ∅]); [done| |].
    + intros [|[|i]] kid N Hk HN; [| |done]; injection Hk as <-; injection HN as <-; by apply means_leaf.
    + intros key. destruct (slot _ _) as [|[|i]]; done.
  - split; [apply two_level_supply|by vm_compute|by vm_compute|].
    apply Forall_forall. apply (bool_decide_unpack _). vm_compute. exact I.
Qed.

Lemma BzTree_any_height_witness : exists n' s' w',
  run (@run_operation plain_platform bump_pmdk 5 31 0 sample_tree (Insert key_a value_b)) two_level_tree = (Done (Flag true), w') /\
  @holds_tree bump_pmdk 5 sample_tree 100 16 4096 2 128 117 128 (MkTOID 1 64) n' 2 s' (<[key_a := value_b]> ∅) false w'.
Proof.
  destruct (@BzTree_any_height plain_platform plain_platform_laws bump_pmdk 5 31 0 sample_tree 100 16 4096 2 128 117 128
    (MkTOID 1 64) (Insert key_a value_b) 2 2 two_levels ∅ false two_level_tree) as (n' & s' & w' & R & Hr & _).
  - lia.
  - done.
  - exact bump_root_fixed.
  - exact two_level_holds.
  - split; apply (bool_decide_unpack _); vm_compute; exact I.
  - lia.
  - lia.
  - intros _. split; [split; vm_compute; congruence|].
    eapply quiet_inner; [reflexivity|split; vm_compute; congruence|reflexivity|reflexivity|apply quiet_leaf].
  - exists n', s', w'. split; [exact R|exact Hr].
Defined.
