(* ===== verification/BzOrder.v ===== *)
(** * The order of a BzTree (bztree.cc, bztree_smos.cc)

    Which keys may be below a node, the records a subtree holds, and what the structural
    modifications make of both: they keep every record and the order of the tree, hence
    the map that it represents. *)
From Stdlib Require Import ZArith Lia Ascii.
From stdpp Require Import base list gmap strings sorting.
From S2P Require Import Prelude Bytes Prog Status Hash Library Epoch Garbage Metrics Memory Descriptor MwCAS Entries Target Pool DList DListSpec BzNode BzTree BzBytes BzNodeSpec BzSmo BzLeaf BzSupply BzPlace BzMap BzHeight.
#[local] Open Scope Z_scope.

(** ** Keys with their terminator *)

Definition key_leb (a b : bytes) : Prop := bytes_cmp a b <> Gt.

Lemma key_leb_refl a : key_leb a a.
Proof. unfold key_leb. by rewrite bytes_cmp_refl. Qed.
Lemma lt_leb a b : bytes_lt a b -> key_leb a b.
Proof. unfold bytes_lt, key_leb. by intros ->. Qed.
Lemma leb_not_lt a b : key_leb a b <-> ~ bytes_lt b a.
Proof. unfold key_leb, bytes_lt. rewrite (bytes_cmp_antisym a b). by destruct (bytes_cmp a b). Qed.
Lemma leb_cases a b : key_leb a b -> a = b \/ bytes_lt a b.
Proof.
  unfold key_leb, bytes_lt. destruct (bytes_cmp a b) eqn:E; [|by right|done]. apply bytes_cmp_eq in E. by left.
Qed.
Lemma lt_leb_trans a b c : bytes_lt a b -> key_leb b c -> bytes_lt a c.
Proof. intros H [->|H']%leb_cases; [done|by etransitivity]. Qed.
Lemma leb_lt_trans a b c : key_leb a b -> bytes_lt b c -> bytes_lt a c.
Proof. intros [->|H']%leb_cases H; [done|by etransitivity]. Qed.
Lemma leb_trans a b c : key_leb a b -> key_leb b c -> key_leb a c.
Proof. intros H [->|H']%leb_cases; [done|]. apply lt_leb. by eapply leb_lt_trans. Qed.

(** The terminator keeps the order of strings without zero bytes. *)
Lemma zstr_cmp a b : NUL ∉ a -> NUL ∉ b -> bytes_cmp (zstr a) (zstr b) = bytes_cmp a b.
Proof.
  assert (forall x, x <> NUL -> 0 < byte_val x) as Hpos.
  { intros x Hx. pose proof (byte_val_range x). destruct (Z.eq_dec (byte_val x) 0) as [E|]; [|lia].
    exfalso. apply Hx, byte_val_inj. by rewrite E. }
  change (byte_val NUL) with 0 in *. unfold zstr.
  revert b. induction a as [|x a IH]; intros [|y b] Ha Hb; cbn [app bytes_cmp]; [done| | |].
  - apply not_elem_of_cons in Hb as [Hy _]. specialize (Hpos y (not_eq_sym Hy)). change (byte_val NUL) with 0.
    by rewrite (proj2 (Z.compare_lt_iff _ _)).
  - apply not_elem_of_cons in Ha as [Hx _]. specialize (Hpos x (not_eq_sym Hx)). change (byte_val NUL) with 0.
    by rewrite (proj2 (Z.compare_gt_iff _ _)).
  - apply not_elem_of_cons in Ha as [_ Ha], Hb as [_ Hb]. by rewrite IH.
Qed.

Lemma zstr_lt a b : NUL ∉ a -> NUL ∉ b -> bytes_lt (zstr a) (zstr b) <-> bytes_lt a b.
Proof. intros. unfold bytes_lt. by rewrite zstr_cmp. Qed.

(** ** Bounds *)

(** The keys (with terminator) above [lo] and not above [hi]. *)
Definition between (lo hi : option bytes) (k : bytes) : Prop :=
  (if lo is Some b then bytes_lt b k else True) /\ (if hi is Some b then key_leb k b else True).

(** Less is demanded. *)
Definition lower (lo lo' : option bytes) : Prop :=
  match lo', lo with None, _ => True | Some b', Some b => key_leb b' b | Some _, None => False end.
Definition higher (hi hi' : option bytes) : Prop :=
  match hi', hi with None, _ => True | Some b', Some b => key_leb b b' | Some _, None => False end.

Lemma lower_refl lo : lower lo lo.
Proof. destruct lo; [apply key_leb_refl|done]. Qed.
Lemma higher_refl hi : higher hi hi.
Proof. destruct hi; [apply key_leb_refl|done]. Qed.

Lemma between_weaken lo hi lo' hi' k : lower lo lo' -> higher hi hi' -> between lo hi k -> between lo' hi' k.
Proof.
  intros Hl Hh [H1 H2]. split.
  - destruct lo', lo; try done. by eapply leb_lt_trans.
  - destruct hi', hi; try done. by eapply leb_trans.
Qed.

(** ** The order of a shape *)

(** The records below a node: keys and values with their terminators. *)
Fixpoint entries (s : shape) : list pair_bytes :=
  match s with Leaf _ _ rs => live rs | Inner _ _ _ kids => flat_map entries kids end.

Definition keyed (seps : list sep) (kids : list shape) : list (bytes * shape) := zip (s_key <$> seps) kids.

(** Below a node all keys are between its bounds; a child's upper bound is its separator,
    but for the last child of a node, which takes the node's own bound. *)
Inductive ordered : option bytes -> option bytes -> shape -> Prop :=
| ord_leaf lo hi node sw rs : (forall kv, kv ∈ live rs -> between lo hi kv.1) -> ordered lo hi (Leaf node sw rs)
| ord_inner lo hi node sw seps kids :
    length seps = length kids -> forest lo hi (keyed seps kids) -> ordered lo hi (Inner node sw seps kids)
with forest : option bytes -> option bytes -> list (bytes * shape) -> Prop :=
| for_last lo hi k kid : between lo hi (zstr k) -> ordered lo hi kid -> forest lo hi [(k, kid)]
| for_cons lo hi k kid ks :
    between lo hi (zstr k) -> ordered lo (Some (zstr k)) kid -> forest (Some (zstr k)) hi ks -> forest lo hi ((k, kid) :: ks).

Scheme ordered_mut := Induction for ordered Sort Prop
with forest_mut := Induction for forest Sort Prop.

(** One induction over shapes and forests. *)
Lemma ordered_ind2 (P : option bytes -> option bytes -> shape -> Prop) (Q : option bytes -> option bytes -> list (bytes * shape) -> Prop) :
  (forall lo hi node sw rs, (forall kv, kv ∈ live rs -> between lo hi kv.1) -> P lo hi (Leaf node sw rs)) ->
  (forall lo hi node sw seps kids, length seps = length kids -> forest lo hi (keyed seps kids) ->
    Q lo hi (keyed seps kids) -> P lo hi (Inner node sw seps kids)) ->
  (forall lo hi k kid, between lo hi (zstr k) -> ordered lo hi kid -> P lo hi kid -> Q lo hi [(k, kid)]) ->
  (forall lo hi k kid ks, between lo hi (zstr k) -> ordered lo (Some (zstr k)) kid -> P lo (Some (zstr k)) kid ->
    forest (Some (zstr k)) hi ks -> Q (Some (zstr k)) hi ks -> Q lo hi ((k, kid) :: ks)) ->
  (forall lo hi s, ordered lo hi s -> P lo hi s) /\ (forall lo hi ks, forest lo hi ks -> Q lo hi ks).
Proof.
  intros H1 H2 H3 H4. split.
  - apply (ordered_mut (fun lo hi s _ => P lo hi s) (fun lo hi ks _ => Q lo hi ks)); auto.
  - apply (forest_mut (fun lo hi s _ => P lo hi s) (fun lo hi ks _ => Q lo hi ks)); auto.
Qed.

Lemma weaken :
  (forall lo hi s, ordered lo hi s -> forall lo' hi', lower lo lo' -> higher hi hi' -> ordered lo' hi' s) /\
  (forall lo hi ks, forest lo hi ks -> forall lo' hi', lower lo lo' -> higher hi hi' -> forest lo' hi' ks).
Proof.
  apply ordered_ind2.
  - intros lo hi node sw rs H lo' hi' Hl Hh. constructor. intros kv Hkv. by eapply between_weaken; [..|apply H].
  - intros lo hi node sw seps kids Hlen _ IH lo' hi' Hl Hh. constructor; [done|by apply IH].
  - intros lo hi k kid Hb _ IH lo' hi' Hl Hh. constructor; [by eapply between_weaken|by apply IH].
  - intros lo hi k kid ks Hb _ IH1 _ IH2 lo' hi' Hl Hh. constructor; [by eapply between_weaken|..].
    + apply IH1; [done|apply higher_refl].
    + apply IH2; [apply lower_refl|done].
Qed.

Lemma forest_length lo hi ks : forest lo hi ks -> (0 < length ks)%nat.
Proof. destruct 1; simpl; lia. Qed.

Lemma keyed_kids seps kids : length seps = length kids -> (keyed seps kids).*2 = kids.
Proof. intros H. unfold keyed. apply snd_zip. rewrite length_fmap. lia. Qed.
Lemma keyed_keys seps kids : length seps = length kids -> (keyed seps kids).*1 = s_key <$> seps.
Proof. intros H. unfold keyed. apply fst_zip. rewrite length_fmap. lia. Qed.

(** What is below is within the bounds. *)
Lemma within_bounds :
  (forall lo hi s, ordered lo hi s -> forall kv, kv ∈ entries s -> between lo hi kv.1) /\
  (forall lo hi ks, forest lo hi ks -> forall kv, kv ∈ flat_map entries ks.*2 -> between lo hi kv.1).
Proof.
  apply ordered_ind2.
  - intros lo hi node sw rs H kv Hkv. by apply H.
  - intros lo hi node sw seps kids Hlen _ IH kv Hkv. apply IH. by rewrite keyed_kids.
  - intros lo hi k kid Hb _ IH kv Hkv. simpl in Hkv. rewrite app_nil_r in Hkv. by apply IH.
  - intros lo hi k kid ks [Hb1 Hb2] _ IH1 _ IH2 kv Hkv. simpl in Hkv. apply elem_of_app in Hkv as [Hkv|Hkv].
    + destruct (IH1 kv Hkv) as [H1 H2]. split; [done|]. destruct hi; [by eapply leb_trans|done].
    + destruct (IH2 kv Hkv) as [H1 H2]. split; [|done]. destruct lo; [by etransitivity|done].
Qed.

(** ** The map *)

(** Keys and values are C strings, and no leaf has a key twice. *)
Inductive readable : shape -> Prop :=
| rd_leaf node sw rs :
    (forall i r, rs !! i = Some r -> visible (r_md r) = true -> exists k v, is_record r k v) -> distinct rs ->
    readable (Leaf node sw rs)
| rd_inner node sw seps kids :
    length seps = length kids -> (forall s, s ∈ seps -> NUL ∉ s_key s) ->
    (forall kid, kid ∈ kids -> readable kid) -> readable (Inner node sw seps kids).

Lemma stands_readable `{Pmdk} c h s : stands c h s -> readable s.
Proof.
  induction 1 as [node sw rs Hl|h node sw seps kids Hi _ IH].
  - constructor; [|apply Hl]. intros i r Hr Hv. by apply (lf_recs _ _ _ _ Hl i r Hr Hv).
  - constructor; [apply (in_len _ _ _ _ _ Hi)| |].
    + intros s [i Hs]%list_elem_of_lookup_1. by apply (in_sep _ _ _ _ _ Hi i s Hs).
    + intros kid [i Hk]%list_elem_of_lookup_1. by eapply IH.
Qed.

Lemma record_live rs k v : (exists i r, rs !! i = Some r /\ is_record r k v) <-> (zstr k, zstr v) ∈ live rs /\ NUL ∉ k /\ NUL ∉ v.
Proof.
  unfold live. rewrite list_elem_of_fmap. split.
  - intros (i & r & Hi & Hv & Hk & Hval & H1 & H2). split; [|done]. exists r. rewrite <- Hk, <- Hval. split; [by destruct r|].
    apply list_elem_of_filter. split; [done|by eapply list_elem_of_lookup_2].
  - intros ((r & [= E1 E2] & [Hv Hr]%list_elem_of_filter) & H1 & H2). apply list_elem_of_lookup_1 in Hr as [i Hi].
    by exists i, r.
Qed.

(** A key that is below a child leads to it. *)
Lemma forest_slot lo hi ks i k0 kid k v :
  forest lo hi ks -> (forall x, x ∈ ks.*1 -> NUL ∉ x) -> NUL ∉ k -> ks !! i = Some (k0, kid) -> (zstr k, v) ∈ entries kid ->
  slot ks.*1 k = i.
Proof.
  intros Hf Hnul Hk. revert i. induction Hf as [lo hi k1 kid1 Hb Ho|lo hi k1 kid1 ks Hb Ho Hf IH]; intros i Hi Hin.
  - destruct i; [|done]. cbn. unfold slot. cbn [first_ge length]. by case_bool_decide.
  - pose proof (forest_length _ _ _ Hf) as Hlen. cbn [fmap list_fmap fst] in *.
    assert (NUL ∉ k1) as Hk1 by (apply Hnul; by left).
    assert (slot (k1 :: ks.*1) k = if bool_decide (bytes_lt k1 k) then S (slot ks.*1 k) else O) as ->.
    { unfold slot. cbn [first_ge length]. rewrite length_fmap. case_bool_decide; [|done]. simpl.
      destruct (Nat.eqb_spec (first_ge ks.*1 k) (length ks)); [lia|done]. }
    destruct i as [|i].
    + injection Hi as -> ->. destruct (proj1 within_bounds _ _ _ Ho _ Hin) as [_ Hle]. cbn in Hle.
      rewrite bool_decide_eq_false_2; [done|]. rewrite <- zstr_lt by done. by apply leb_not_lt.
    + assert ((zstr k, v) ∈ flat_map entries ks.*2) as Hin2.
      { apply elem_of_flat_map. exists kid. split; [|done]. apply list_elem_of_fmap. exists (k0, kid).
        split; [done|by eapply list_elem_of_lookup_2]. }
      destruct (proj2 within_bounds _ _ _ Hf _ Hin2) as [Hlt _]. cbn in Hlt. rewrite zstr_lt in Hlt by done.
      rewrite bool_decide_eq_true_2 by done. f_equal. apply IH; [|done|done]. intros x Hx. apply Hnul. by right.
Qed.

(** What an ordered shape represents are its records. *)
Lemma means_entries s M : means s M -> readable s -> forall lo hi, ordered lo hi s ->
  forall k v, M !! k = Some v <-> (zstr k, zstr v) ∈ entries s /\ NUL ∉ k /\ NUL ∉ v.
Proof.
  induction 1 as [node sw rs M Hc|node sw seps kids Ms M Hlen _ IH HM]; intros Hrd lo hi Ho k v.
  - rewrite (Hc k v). apply record_live.
  - inversion Hrd as [|? ? ? ? Hls Hnul Hkids]; subst. inversion Ho as [|? ? ? ? ? ? _ Hf]; subst. rewrite HM.
    assert (forall i kid N, kids !! i = Some kid -> Ms !! i = Some N ->
      (N !! k = Some v <-> (zstr k, zstr v) ∈ entries kid /\ NUL ∉ k /\ NUL ∉ v)) as Hkid.
    { intros i kid N Hk HN. assert (exists lo' hi', ordered lo' hi' kid) as (lo' & hi' & Hord).
      { assert (kid ∈ (keyed seps kids).*2) as Hin by (rewrite keyed_kids by done; by eapply list_elem_of_lookup_2).
        clear -Hf Hin. induction Hf as [lo hi k1 kid1 Hb Ho|lo hi k1 kid1 ks Hb Ho Hf IH]; cbn in Hin.
        - apply list_elem_of_singleton in Hin as ->. eauto.
        - apply elem_of_cons in Hin as [->|Hin]; eauto. }
      eapply IH; [done|done| |done]. apply Hkids. by eapply list_elem_of_lookup_2. }
    split.
    + intros (N & HN & Hv)%bind_Some. pose proof (lookup_lt_Some _ _ _ HN) as Hlt. rewrite Hlen in Hlt.
      destruct (lookup_lt_is_Some_2 kids _ Hlt) as [kid Hk]. apply (Hkid _ _ _ Hk HN) in Hv as (Hin & H1 & H2).
      split; [|done]. apply elem_of_flat_map. exists kid. split; [by eapply list_elem_of_lookup_2|done].
    + intros (Hin & H1 & H2). cbn in Hin. apply elem_of_flat_map in Hin as (kid & [i Hk]%list_elem_of_lookup_1 & Hin).
      destruct (lookup_lt_is_Some_2 Ms i) as [N HN]; [rewrite Hlen; by eapply lookup_lt_Some|].
      pose proof (lookup_lt_Some _ _ _ Hk) as Hlt.
      destruct (lookup_lt_is_Some_2 (s_key <$> seps) i) as [k0 Hk0]; [rewrite length_fmap; lia|].
      replace (slot (s_key <$> seps) k) with i; [rewrite HN; by apply (Hkid _ _ _ Hk HN)|].
      rewrite <- (keyed_keys seps kids) by done. symmetry. eapply forest_slot; [exact Hf| |exact H1| |exact Hin].
      * intros x. rewrite keyed_keys by done. intros (s & -> & Hs)%list_elem_of_fmap. by apply Hnul.
      * apply lookup_zip_with_Some. eauto.
Qed.

(** Every leaf has contents. *)
Lemma contents_exist rs :
  (forall i r, rs !! i = Some r -> visible (r_md r) = true -> exists k v, is_record r k v) -> distinct rs ->
  exists M, contents rs M.
Proof.
  induction rs as [|r rs IH]; intros Hr Hd; [exists ∅; intros k v; split; [done|by intros (i & r & Hi & _)]|].
  destruct IH as [M HM].
  { intros i x Hi. by apply (Hr (S i)). }
  { intros i j x y k v v' Hi Hj H1 H2. assert (S i = S j) by (by eapply (Hd (S i) (S j))). lia. }
  destruct (visible (r_md r)) eqn:Ev.
  - destruct (Hr O r eq_refl Ev) as (k & v & Hrec). exists (<[k := v]> M). intros k' v'.
    destruct (decide (k' = k)) as [->|Hne].
    + rewrite lookup_insert_eq. split; [intros [= <-]; by exists O, r|]. intros (i & x & Hi & Hx).
      assert (i = O) as -> by (eapply (Hd i O); [done|done|done|exact Hrec]). injection Hi as <-.
      by destruct (is_record_fun _ _ _ _ _ Hrec Hx) as [_ <-].
    + rewrite lookup_insert_ne, (HM k' v') by done. split; [intros (i & x & Hi & Hx); by exists (S i), x|].
      intros ([|i] & x & Hi & Hx); [|by exists i, x]. injection Hi as <-. by destruct (is_record_fun _ _ _ _ _ Hrec Hx).
  - exists M. intros k v. rewrite (HM k v). split; [intros (i & x & Hi & Hx); by exists (S i), x|].
    intros ([|i] & x & Hi & Hx); [|by exists i, x]. injection Hi as <-. destruct Hx as [Hx _]. congruence.
Qed.

Lemma choose_map (Ms : list (gmap (list ascii) (list ascii))) : forall f : list ascii -> nat,
  exists M : gmap (list ascii) (list ascii), forall key, M !! key = Ms !! f key ≫= fun N => N !! key.
Proof.
  induction Ms as [|N Ms IH]; intros f; [by exists ∅|]. destruct (IH (fun k => pred (f k))) as [M HM].
  exists (filter (fun kv => f kv.1 = O) N ∪ filter (fun kv => f kv.1 <> O) M). intros key.
  destruct (f key) as [|j] eqn:E.
  - cbn. rewrite lookup_union_l; [|rewrite map_lookup_filter_None; right; intros x _ Hx; by apply Hx].
    rewrite map_lookup_filter. destruct (N !! key) eqn:EN; cbn; rewrite ?EN; [|done]. case_guard; [done|cbn in *; congruence].
  - cbn. rewrite lookup_union_r; [|rewrite map_lookup_filter_None; right; intros x _; cbn; by rewrite E].
    rewrite map_lookup_filter, HM, E. cbn. destruct (Ms !! j ≫= _); cbn; [|done]. case_guard as Hg; [done|]. exfalso. cbn in Hg. rewrite E in Hg. done.
Qed.

Lemma means_exist s : readable s -> exists M, means s M.
Proof.
  induction 1 as [node sw rs Hr Hd|node sw seps kids Hlen _ _ IH].
  - destruct (contents_exist rs Hr Hd) as [M HM]. exists M. by constructor.
  - assert (exists Ms, length Ms = length kids /\ forall i kid N, kids !! i = Some kid -> Ms !! i = Some N -> means kid N)
      as (Ms & HL & HMs).
    { clear Hlen. induction kids as [|kid kids IHk]; [by exists []|].
      destruct IHk as (Ms & HL & HMs); [intros x Hx; apply IH; by right|]. destruct (IH kid ltac:(by left)) as [N HN].
      exists (N :: Ms). split; [simpl; by rewrite HL|]. intros [|i] x y Hx Hy; [|by eapply HMs].
      injection Hx as <-. by injection Hy as <-. }
    destruct (choose_map Ms (slot (s_key <$> seps))) as [M HM]. exists M. by eapply means_inner.
Qed.

(** Ordered shapes with the same records represent the same map. *)
Lemma same_map s s' M :
  means s M -> readable s -> readable s' -> ordered None None s -> ordered None None s' ->
  (forall kv, kv ∈ entries s <-> kv ∈ entries s') -> means s' M.
Proof.
  intros HM Hr Hr' Ho Ho' Hin. destruct (means_exist s' Hr') as [M' HM']. replace M with M'; [done|].
  apply map_eq. intros k. apply option_eq. intros v.
  by rewrite (means_entries s' M' HM' Hr' _ _ Ho'), (means_entries s M HM Hr _ _ Ho), Hin.
Qed.

(** ** Replacing part of a forest *)

Definition back_of (ks : list (bytes * shape)) : bytes := default [] (fst <$> last ks).

Lemma back_of_cons x ks : ks <> [] -> back_of (x :: ks) = back_of ks.
Proof. intros H. unfold back_of. rewrite last_cons. destruct (last ks) eqn:E; [done|]. by apply last_None in E. Qed.
Lemma back_of_snoc ks x : back_of (ks ++ [x]) = x.1.
Proof. unfold back_of. by rewrite last_snoc. Qed.
Lemma back_of_app ks ks' : ks' <> [] -> back_of (ks ++ ks') = back_of ks'.
Proof.
  intros H. induction ks as [|x ks IH]; [done|]. cbn [app]. rewrite back_of_cons, IH; [done|].
  intros [_ ->]%app_eq_nil. done.
Qed.

Lemma forest_back lo hi ks : forest lo hi ks -> between lo hi (zstr (back_of ks)).
Proof.
  induction 1 as [lo hi k kid Hb _|lo hi k kid ks [Hb1 Hb2] _ Hf IH]; [done|].
  rewrite back_of_cons; [|intros ->; inversion Hf]. destruct IH as [H1 H2]. split; [|done].
  destruct lo; [by etransitivity|done].
Qed.

Lemma forest_app lo hi a b : a <> [] -> b <> [] ->
  forest lo hi (a ++ b) <->
  forest lo (Some (zstr (back_of a))) a /\ between lo hi (zstr (back_of a)) /\ forest (Some (zstr (back_of a))) hi b.
Proof.
  intros Ha Hb. revert lo. induction a as [|[k kid] a IH]; intros lo; [done|]. destruct (decide (a = [])) as [->|Hne].
  - cbn [app]. change (back_of [(k, kid)]) with k. split.
    + intros Hf. inversion Hf as [|? ? ? ? ? Hk Ho Hr]; subst; [done|]. split_and!; [|done|done].
      constructor; [|done]. split; [apply Hk|apply key_leb_refl].
    + intros (H1 & H2 & H3). inversion H1 as [? ? ? ? _ Ho|? ? ? ? ? ? ? Hr]; subst; [by constructor|inversion Hr].
  - rewrite back_of_cons by done. cbn [app]. split.
    + intros Hf. destruct (a ++ b) as [|x r] eqn:Eab; [by apply app_eq_nil in Eab as [? _]|].
      inversion Hf as [|? ? ? ? ? [Hk1 Hk2] Ho Hr]; subst.
      apply IH in Hr as (H1 & [H2 H2'] & H3); [|done]. cbn in H2. split_and!; [|split; [|done]|done].
      * constructor; [|done|done]. split; [done|by apply lt_leb].
      * destruct lo; [by etransitivity|done].
    + intros (H1 & [H2 H2'] & H3). inversion H1 as [|? ? ? ? ? [Hk1 Hk2] Ho Hr]; subst; [done|].
      pose proof (forest_back _ _ _ Hr) as [Hlt _]. cbn in Hk2, Hlt. constructor; [|done|].
      * split; [done|]. destruct hi; [by eapply leb_trans|done].
      * apply IH; [done|]. by split_and!.
Qed.

(** The bound of a part: the last part takes the forest's own. *)
Definition bound_after (hi : option bytes) (post seg : list (bytes * shape)) : option bytes :=
  match post with [] => hi | _ => Some (zstr (back_of seg)) end.

(** A part in the middle is exchanged for one with the same lower bound and no larger
    last separator. *)
Lemma forest_replace lo hi pre seg post : seg <> [] -> forest lo hi (pre ++ seg ++ post) ->
  exists lo', forest lo' (bound_after hi post seg) seg /\
    forall seg', forest lo' (bound_after hi post seg') seg' ->
      (post <> [] -> key_leb (zstr (back_of seg')) (zstr (back_of seg))) -> forest lo hi (pre ++ seg' ++ post).
Proof.
  intros Hseg Hf.
  assert (forall l, forest l hi (seg ++ post) -> forest l (bound_after hi post seg) seg /\
    forall seg', forest l (bound_after hi post seg') seg' ->
      (post <> [] -> key_leb (zstr (back_of seg')) (zstr (back_of seg))) -> forest l hi (seg' ++ post)) as Hgen.
  { intros l Hl. destruct (decide (post = [])) as [->|Hpost].
    - rewrite !app_nil_r in *. split; [done|]. intros seg' H _. by rewrite app_nil_r.
    - assert (forall s, bound_after hi post s = Some (zstr (back_of s))) as Hb by (intros s; by destruct post).
      apply forest_app in Hl as (H1 & H2 & H3); [|done|done]. rewrite Hb. split; [done|]. intros seg'. rewrite Hb. intros H Hle.
      specialize (Hle Hpost). pose proof (forest_back _ _ _ H) as [Hlo _]. destruct H2 as [_ H2].
      apply forest_app; [by intros ->; inversion H|done|]. split_and!; [done| |].
      + split; [done|]. destruct hi; [by eapply leb_trans|done].
      + eapply (proj2 weaken); [exact H3|exact Hle|apply higher_refl]. }
  destruct (decide (pre = [])) as [->|Hpre]; [exists lo; by apply Hgen|].
  assert (forall s, s <> [] -> s ++ post <> []) as Hne by (intros s Hs [? _]%app_eq_nil; done).
  apply forest_app in Hf as (H1 & H2 & H3); [|done|by apply Hne]. destruct (Hgen _ H3) as [H4 H5].
  exists (Some (zstr (back_of pre))). split; [done|]. intros seg' H Hle.
  apply forest_app; [done|apply Hne; by intros ->; inversion H|]. split_and!; [done|done|by apply H5].
Qed.

(** Two bounds hold together. *)
Lemma meet :
  (forall lo hi s, ordered lo hi s -> forall lo' hi', ordered lo' hi' s -> ordered lo hi' s) /\
  (forall lo hi ks, forest lo hi ks -> forall lo' hi', forest lo' hi' ks -> forest lo hi' ks).
Proof.
  apply ordered_ind2.
  - intros lo hi node sw rs H lo' hi' H'. inversion H' as [? ? ? ? ? Hr|]; subst. constructor. intros kv Hkv.
    split; [by apply H|by apply Hr].
  - intros lo hi node sw seps kids Hlen _ IH lo' hi' H'. inversion H'; subst. constructor; eauto.
  - intros lo hi k kid [Hb _] _ IH lo' hi' H'. inversion H' as [? ? ? ? [_ Hb'] Ho|? ? ? ? ? _ _ Hr]; subst; [|inversion Hr].
    constructor; [done|]. by eapply IH.
  - intros lo hi k kid ks [Hb _] Ho _ Hf IH lo' hi' H'. inversion H' as [|? ? ? ? ? [_ Hb'] Ho' Hr]; subst; [inversion Hf|].
    constructor; [done|done|]. by eapply IH.
Qed.

(** ** What a node holds, and new nodes *)

(** The contents of a node: the records of a leaf in key order, or keyed children. *)
Inductive load := Records (kvs : list pair_bytes) | Children (ks : list (bytes * shape)).

Definition load_of (s : shape) : load :=
  match s with Leaf _ _ rs => Records (in_key_order rs) | Inner _ _ seps kids => Children (keyed seps kids) end.

(** The records as they are copied. *)
Definition child_pair (x : bytes * shape) : pair_bytes := (zstr x.1, off_bytes (top x.2)).
Definition pairs (ld : load) : list pair_bytes :=
  match ld with Records kvs => kvs | Children ks => child_pair <$> ks end.

(** A new node made of them. *)
Definition make (t : TOID) (ld : load) : shape :=
  match ld with
  | Records kvs => Leaf t (new_sw kvs) (new_node_recs kvs)
  | Children ks =>
      Inner t (new_sw (pairs ld)) (zip_with MkSep (r_md <$> new_node_recs (pairs ld)) ks.*1) ks.*2
  end.

Definition below (ld : load) : list pair_bytes :=
  match ld with Records kvs => kvs | Children ks => flat_map entries ks.*2 end.

Inductive load_ordered (lo hi : option bytes) : load -> Prop :=
| lo_records kvs : (forall kv, kv ∈ kvs -> between lo hi kv.1) -> load_ordered lo hi (Records kvs)
| lo_children ks : forest lo hi ks -> load_ordered lo hi (Children ks).

Definition c_pair (kv : pair_bytes) : Prop := exists k v, kv = (zstr k, zstr v) /\ NUL ∉ k /\ NUL ∉ v.

Inductive load_readable : load -> Prop :=
| lr_records kvs : Forall c_pair kvs -> StronglySorted bytes_lt kvs.*1 -> load_readable (Records kvs)
| lr_children ks : (forall k, k ∈ ks.*1 -> NUL ∉ k) -> (forall kid, kid ∈ ks.*2 -> readable kid) -> load_readable (Children ks).

Lemma length_make_seps ks : length (zip_with MkSep (r_md <$> new_node_recs (child_pair <$> ks)) ks.*1) = length ks.*2.
Proof.
  rewrite length_zip_with. unfold new_node_recs. rewrite !length_fmap, length_new_recs, length_fmap. lia.
Qed.

Lemma make_keyed ks : keyed (zip_with MkSep (r_md <$> new_node_recs (child_pair <$> ks)) ks.*1) ks.*2 = ks.
Proof.
  assert (s_key <$> zip_with MkSep (r_md <$> new_node_recs (child_pair <$> ks)) ks.*1 = ks.*1) as E.
  { apply fmap_zip_with_r; [done|].
    unfold new_node_recs. rewrite !length_fmap, length_new_recs, length_fmap. lia. }
  unfold keyed. rewrite E. apply zip_fst_snd.
Qed.

Lemma entries_make t ld kv : kv ∈ entries (make t ld) <-> kv ∈ below ld.
Proof. destruct ld as [kvs|ks]; [|done]. cbn. unfold new_node_recs. by rewrite live_new_recs. Qed.

Lemma entries_load s kv : match s with Inner _ _ seps kids => length seps = length kids | _ => True end ->
  kv ∈ entries s <-> kv ∈ below (load_of s).
Proof.
  destruct s as [node sw rs|node sw seps kids]; cbn; intros H.
  - unfold in_key_order. by rewrite merge_sort_Permutation.
  - by rewrite keyed_kids.
Qed.

Lemma ordered_make t lo hi ld : load_ordered lo hi ld -> ordered lo hi (make t ld).
Proof.
  destruct 1 as [kvs H|ks H]; cbn [make pairs].
  - constructor. unfold new_node_recs. by rewrite live_new_recs.
  - constructor; [apply length_make_seps|by rewrite make_keyed].
Qed.

Lemma ordered_load lo hi s : ordered lo hi s -> load_ordered lo hi (load_of s).
Proof.
  destruct 1 as [lo hi node sw rs H|lo hi node sw seps kids Hl H]; cbn; constructor; [|done].
  intros kv. unfold in_key_order. rewrite merge_sort_Permutation. apply H.
Qed.

Lemma live_distinct rs :
  (forall i r, rs !! i = Some r -> visible (r_md r) = true -> exists k v, is_record r k v) -> distinct rs ->
  Forall c_pair (live rs) /\ NoDup (live rs).*1.
Proof.
  intros Hr Hd. split.
  - apply Forall_forall. intros kv. unfold live. intros (r & -> & [Hv Hin]%list_elem_of_filter)%list_elem_of_fmap.
    apply list_elem_of_lookup_1 in Hin as [i Hi]. destruct (Hr i r Hi Hv) as (k & v & _ & Hk & Hval & H1 & H2).
    exists k, v. by rewrite Hk, Hval.
  - induction rs as [|r rs IH]; [apply NoDup_nil_2|]. rewrite live_cons.
    assert (NoDup (live rs).*1) as Hnd.
    { apply IH; [intros i x Hi; by apply (Hr (S i))|]. intros i j x y k v v' Hi Hj H1 H2.
      assert (S i = S j) by (by eapply (Hd (S i) (S j))). lia. }
    destruct (visible (r_md r)) eqn:Ev; [|done]. cbn. apply NoDup_cons. split; [|done].
    destruct (Hr O r eq_refl Ev) as (k & v & Hrec). pose proof Hrec as (_ & Hk & _ & _). rewrite Hk.
    unfold live. intros (kv & E & (x & -> & [Hv Hin]%list_elem_of_filter)%list_elem_of_fmap)%list_elem_of_fmap. cbn in E.
    apply list_elem_of_lookup_1 in Hin as [i Hi]. destruct (Hr (S i) x Hi Hv) as (k' & v' & Hrec').
    pose proof Hrec' as (_ & Hk' & _ & _). rewrite Hk' in E. apply zstr_inj in E as <-.
    assert (O = S i) by (by eapply (Hd O (S i))). lia.
Qed.

Lemma keys_sorted kvs : NoDup kvs.*1 -> StronglySorted key_le kvs -> StronglySorted bytes_lt kvs.*1.
Proof.
  intros Hnd Hs. induction Hs as [|kv kvs Hs IH Hall]; [constructor|]. cbn in *. apply NoDup_cons in Hnd as [Hn Hnd].
  constructor; [by apply IH|]. rewrite Forall_fmap. rewrite Forall_forall in *. intros x Hx.
  apply key_le_strict; [by apply Hall|]. intros E. apply Hn. rewrite E. by apply list_elem_of_fmap_2.
Qed.

Lemma load_of_readable s : readable s -> load_readable (load_of s).
Proof.
  destruct 1 as [node sw rs Hr Hd|node sw seps kids Hl Hn Hk]; cbn; constructor.
  - destruct (live_distinct rs Hr Hd) as [H _]. unfold in_key_order. by rewrite merge_sort_Permutation.
  - destruct (live_distinct rs Hr Hd) as [_ H]. apply keys_sorted.
    + unfold in_key_order. by rewrite merge_sort_Permutation.
    + apply StronglySorted_merge_sort; apply _.
  - intros k. rewrite keyed_keys by done. intros (s & -> & Hs)%list_elem_of_fmap. by apply Hn.
  - intros kid. rewrite keyed_kids by done. apply Hk.
Qed.

Lemma make_readable t ld : load_readable ld -> readable (make t ld).
Proof.
  destruct 1 as [kvs Hall Hs|ks Hn Hk]; cbn [make pairs].
  - unfold new_node_recs.
    assert (forall off i r, new_recs off kvs !! i = Some r -> exists kv, kvs !! i = Some kv /\ r_key r = kv.1 /\ r_val r = kv.2) as Hrec.
    { clear. induction kvs as [|kv kvs IH]; intros off [|i] r Hi; cbn in Hi; try done; [injection Hi as <-; by exists kv|by eapply IH]. }
    constructor.
    + intros i r Hi Hv. destruct (Hrec _ _ _ Hi) as (kv & Hkv & E1 & E2). rewrite Forall_forall in Hall.
      destruct (Hall kv ltac:(by eapply list_elem_of_lookup_2)) as (k & v & -> & H1 & H2). exists k, v. by split_and!.
    + intros i j r s k v v' Hi Hj (_ & K1 & _) (_ & K2 & _).
      destruct (Hrec _ _ _ Hi) as (kv & Hkv & E1 & _), (Hrec _ _ _ Hj) as (kv' & Hkv' & E2 & _).
      assert (NoDup kvs.*1) as Hnd.
      { clear -Hs. induction Hs as [|x l Hs IH Hx]; [constructor|]. constructor; [|done]. intros Hin.
        rewrite Forall_forall in Hx. specialize (Hx x Hin). by apply irreflexivity in Hx; [|apply _]. }
      eapply NoDup_lookup; [exact Hnd|rewrite list_lookup_fmap, Hkv; done|rewrite list_lookup_fmap, Hkv'; cbn; congruence].
  - constructor; [apply length_make_seps| |done].
    intros s Hs. apply Hn. apply list_elem_of_lookup_1 in Hs as [i Hi].
    apply lookup_zip_with_Some in Hi as (md & k & -> & _ & Hk'). by eapply list_elem_of_lookup_2.
Qed.

(** ** Cutting and joining *)

Definition load_take (n : nat) (ld : load) : load :=
  match ld with Records kvs => Records (take n kvs) | Children ks => Children (take n ks) end.
Definition load_drop (n : nat) (ld : load) : load :=
  match ld with Records kvs => Records (drop n kvs) | Children ks => Children (drop n ks) end.
Definition load_app (a b : load) : load :=
  match a, b with
  | Records x, Records y => Records (x ++ y)
  | Children x, Children y => Children (x ++ y)
  | _, _ => a
  end.
Definition same_kind (a b : load) : Prop :=
  match a, b with Records _, Records _ | Children _, Children _ => True | _, _ => False end.

(** The greatest key, with its terminator. *)
Definition top_key (ld : load) : bytes := back_key (pairs ld).

Lemma pairs_take n ld : pairs (load_take n ld) = take n (pairs ld).
Proof. destruct ld; [done|]. cbn. by rewrite fmap_take. Qed.
Lemma pairs_drop n ld : pairs (load_drop n ld) = drop n (pairs ld).
Proof. destruct ld; [done|]. cbn. by rewrite fmap_drop. Qed.
Lemma pairs_app a b : same_kind a b -> pairs (load_app a b) = pairs a ++ pairs b.
Proof. destruct a, b; try done. intros _. cbn. by rewrite fmap_app. Qed.

Lemma back_key_in kvs : kvs <> [] -> exists kv, kv ∈ kvs /\ back_key kvs = kv.1.
Proof.
  intros H. unfold back_key. destruct (last kvs) as [kv|] eqn:E; [|by apply last_None in E].
  exists kv. split; [|done]. rewrite last_lookup in E. by eapply list_elem_of_lookup_2.
Qed.

Lemma back_key_drop n kvs : (n < length kvs)%nat -> back_key (drop n kvs) = back_key kvs.
Proof.
  intros H. rewrite <- (take_drop n kvs) at 2. unfold back_key. rewrite last_app.
  destruct (last (drop n kvs)) eqn:E; [done|]. apply last_None in E. apply (f_equal length) in E. rewrite length_drop in E. simpl in E. lia.
Qed.

Lemma sorted_back kvs kv : StronglySorted bytes_lt kvs.*1 -> kv ∈ kvs -> key_leb kv.1 (back_key kvs).
Proof.
  intros Hs Hin. destruct kvs as [|x kvs _] using rev_ind; [by apply not_elem_of_nil in Hin|]. unfold back_key. rewrite last_snoc. cbn.
  rewrite fmap_app in Hs. apply StronglySorted_app in Hs as (H & _ & _).
  apply elem_of_app in Hin as [Hin| ->%list_elem_of_singleton]; [|apply key_leb_refl].
  apply lt_leb, H; [by apply list_elem_of_fmap_2|]. by apply list_elem_of_singleton.
Qed.

Lemma top_key_children ks : ks <> [] -> top_key (Children ks) = zstr (back_of ks).
Proof.
  intros H. unfold top_key, back_key, back_of. cbn. rewrite fmap_last. destruct (last ks) eqn:E; [done|]. by apply last_None in E.
Qed.

Lemma pairs_nil ld : pairs ld <> [] -> match ld with Records kvs => kvs <> [] | Children ks => ks <> [] end.
Proof. destruct ld as [|ks]; [done|]. intros H ->. by apply H. Qed.

(** Keys without their terminator. *)
Definition plain_key (k : bytes) : bytes := removelast k.
Lemma plain_zstr k : plain_key (zstr k) = k.
Proof. apply removelast_last. Qed.

Lemma top_key_plain ld : load_readable ld -> pairs ld <> [] ->
  zstr (plain_key (top_key ld)) = top_key ld /\ NUL ∉ plain_key (top_key ld).
Proof.
  intros Hr Hne. assert (exists k, top_key ld = zstr k /\ NUL ∉ k) as (k & -> & Hk).
  { destruct Hr as [kvs Hall _|ks Hn _].
    - destruct (back_key_in kvs Hne) as (kv & Hin & E). rewrite Forall_forall in Hall.
      destruct (Hall kv Hin) as (k & v & -> & H & _). by exists k.
    - apply pairs_nil in Hne. exists (back_of ks). split; [by apply top_key_children|]. apply Hn. unfold back_of.
      destruct (last ks) as [x|] eqn:E; [|by apply last_None in E]. cbn. apply list_elem_of_fmap_2.
      rewrite last_lookup in E. by eapply list_elem_of_lookup_2. }
  by rewrite plain_zstr.
Qed.

Lemma in_take {A} n (l : list A) x : x ∈ take n l -> x ∈ l.
Proof. intros H. rewrite <- (take_drop n l). apply elem_of_app. by left. Qed.
Lemma in_drop {A} n (l : list A) x : x ∈ drop n l -> x ∈ l.
Proof. intros H. rewrite <- (take_drop n l). apply elem_of_app. by right. Qed.

Lemma load_take_readable n ld : load_readable ld -> load_readable (load_take n ld).
Proof.
  destruct 1 as [kvs Hall Hs|ks Hn Hk]; cbn; constructor.
  - by apply Forall_take.
  - rewrite <- (take_drop n kvs), fmap_app in Hs. by apply StronglySorted_app in Hs as (_ & ? & _).
  - intros k Hin. apply Hn. rewrite fmap_take in Hin. by apply in_take in Hin.
  - intros k Hin. apply Hk. rewrite fmap_take in Hin. by apply in_take in Hin.
Qed.

Lemma load_drop_readable n ld : load_readable ld -> load_readable (load_drop n ld).
Proof.
  destruct 1 as [kvs Hall Hs|ks Hn Hk]; cbn; constructor.
  - by apply Forall_drop.
  - rewrite <- (take_drop n kvs), fmap_app in Hs. by apply StronglySorted_app in Hs as (_ & _ & ?).
  - intros k Hin. apply Hn. rewrite fmap_drop in Hin. by apply in_drop in Hin.
  - intros k Hin. apply Hk. rewrite fmap_drop in Hin. by apply in_drop in Hin.
Qed.

(** A node cut in two: the greatest key of the left part separates them. *)
Lemma cut lo hi n ld : load_ordered lo hi ld -> load_readable ld -> (0 < n < length (pairs ld))%nat ->
  let k := top_key (load_take n ld) in
  load_ordered lo (Some k) (load_take n ld) /\ load_ordered (Some k) hi (load_drop n ld) /\ between lo hi k.
Proof.
  intros Ho Hr Hn. cbn zeta. destruct Ho as [kvs H|ks H]; cbn [load_take load_drop pairs] in *.
  - inversion Hr as [? Hall Hs|]; subst. unfold top_key. cbn [pairs].
    assert (take n kvs <> []) as Hne.
    { intros E. apply (f_equal length) in E. rewrite length_take in E. simpl in E. lia. }
    destruct (back_key_in _ Hne) as (x & Hx & E).
    rewrite <- (take_drop n kvs), fmap_app in Hs. apply StronglySorted_app in Hs as (Hcross & Hs1 & Hs2).
    split_and!; [constructor|constructor|rewrite E; by eapply H, in_take].
    + intros kv Hkv. split; [by eapply H, in_take|by apply sorted_back].
    + intros kv Hkv. split; [|by eapply H, in_drop]. rewrite E. apply Hcross; by apply list_elem_of_fmap_2.
  - rewrite length_fmap in Hn.
    assert (take n ks <> []) as Hne by (intros E; apply (f_equal length) in E; rewrite length_take in E; simpl in E; lia).
    assert (drop n ks <> []) as Hne' by (intros E; apply (f_equal length) in E; rewrite length_drop in E; simpl in E; lia).
    rewrite top_key_children by done. rewrite <- (take_drop n ks) in H. apply forest_app in H as (H1 & H2 & H3); [|done|done].
    by split_and!; [constructor|constructor|].
Qed.

(** Nothing below an inner node is above its last separator.  Only then may the node be
    given this separator as its bound; see [BzScenarios.inner_split_loses_a_key]. *)
Definition tight (s : shape) : Prop :=
  match s with Leaf _ _ _ => True | Inner _ _ _ _ => exists lo, load_ordered lo (Some (top_key (load_of s))) (load_of s) end.

Lemma tight_load lo hi s : load_ordered lo hi (load_of s) -> load_readable (load_of s) -> tight s ->
  load_ordered lo (Some (top_key (load_of s))) (load_of s).
Proof.
  destruct s as [node sw rs|node sw seps kids]; cbn [load_of tight]; intros Ho Hr Ht.
  - inversion Ho as [? H|]; subst. inversion Hr as [? _ Hs|]; subst. constructor. intros kv Hkv.
    split; [by apply H|by apply sorted_back].
  - destruct Ht as [lo' Ht]. inversion Ho as [|? H]; subst. inversion Ht as [|? H']; subst. constructor.
    by eapply (proj2 meet).
Qed.

(** Two neighbours joined: the keys of the left one are not above its greatest. *)
Lemma join lo hi k a b : same_kind a b -> load_ordered lo (Some k) a -> load_ordered (Some k) hi b -> between lo hi k ->
  (match a with Children _ => load_ordered lo (Some (top_key a)) a | _ => True end) ->
  load_ordered lo hi (load_app a b).
Proof.
  intros Hk Hoa Hob [Hk1 Hk2] Ht. destruct Hoa as [x Hx|x Hx], Hob as [y Hy|y Hy]; try done; cbn [load_app]; constructor.
  - intros kv [Hkv|Hkv]%elem_of_app.
    + destruct (Hx kv Hkv) as [H1 H2]. split; [done|]. destruct hi; [by eapply leb_trans|done].
    + destruct (Hy kv Hkv) as [H1 H2]. split; [|done]. destruct lo; [by etransitivity|done].
  - assert (x <> [] /\ y <> []) as [Hnx Hny] by (split; intros ->; [inversion Hx|inversion Hy]).
    inversion Ht as [|? Hx']; subst. rewrite top_key_children in Hx' by done.
    pose proof (forest_back _ _ _ Hx) as [H1 H2]. cbn in H2.
    apply forest_app; [done|done|]. split_and!; [done| |].
    + split; [done|]. destruct hi; [by eapply leb_trans|done].
    + eapply (proj2 weaken); [exact Hy|done|apply higher_refl].
Qed.

(** Both halves of a join can be read. *)
Lemma load_app_readable lo hi k a b : same_kind a b -> load_ordered lo (Some k) a -> load_ordered (Some k) hi b ->
  load_readable a -> load_readable b -> load_readable (load_app a b).
Proof.
  intros Hk Hoa Hob Hra Hrb. destruct Hra as [x Hx Sx|x Nx Kx], Hrb as [y Hy Sy|y Ny Ky]; try done; cbn [load_app]; constructor.
  - by apply Forall_app.
  - inversion Hoa as [? Ha|]; subst. inversion Hob as [? Hb|]; subst. rewrite fmap_app. apply StronglySorted_app. split_and!; [|done|done].
    intros k1 k2 (kv1 & -> & H1)%list_elem_of_fmap (kv2 & -> & H2)%list_elem_of_fmap.
    eapply leb_lt_trans; [apply (Ha _ H1)|apply (Hb _ H2)].
  - intros q. rewrite fmap_app. intros [H|H]%elem_of_app; auto.
  - intros q. rewrite fmap_app. intros [H|H]%elem_of_app; auto.
Qed.

(** Neighbours are on the two sides of the left one's separator. *)
Lemma forest_neighbours lo hi ks i k1 a k2 b :
  forest lo hi ks -> ks !! i = Some (k1, a) -> ks !! S i = Some (k2, b) ->
  exists lo' hi', ordered lo' (Some (zstr k1)) a /\ ordered (Some (zstr k1)) hi' b.
Proof.
  intros Hf Hi Hj. rewrite <- (take_drop_middle ks i (k1, a) Hi), (drop_S _ _ _ Hj) in Hf.
  destruct (forest_replace lo hi (take i ks) [(k1, a); (k2, b)] (drop (S (S i)) ks) ltac:(done) Hf) as (lo' & H1 & _).
  inversion H1 as [|? ? ? ? ? _ Hoa Hr1]; subst. inversion Hr1 as [? ? ? ? _ Hob|? ? ? ? ? _ _ Hno]; subst; [eauto|inversion Hno].
Qed.

(** ** The structural modifications *)

(** The two halves of a node, keyed. *)
Definition halves (l r : TOID) (n : nat) (ld : load) : list (bytes * shape) :=
  [(plain_key (top_key (load_take n ld)), make l (load_take n ld)); (plain_key (top_key (load_drop n ld)), make r (load_drop n ld))].

(** The children of a parent after its [i]th child has been split or merged with the next. *)
Definition split_children (ks : list (bytes * shape)) (i : nat) (new : list (bytes * shape)) : list (bytes * shape) :=
  take i ks ++ new ++ drop (S i) ks.
Definition merge_children (ks : list (bytes * shape)) (i : nat) (k : bytes) (new : shape) : list (bytes * shape) :=
  take i ks ++ [(k, new)] ++ drop (S (S i)) ks.

Lemma halves_forest lo hi l r n ld :
  load_ordered lo hi ld -> load_readable ld -> (0 < n < length (pairs ld))%nat ->
  forest lo hi (halves l r n ld) /\ back_of (halves l r n ld) = plain_key (top_key (load_drop n ld)) /\
  between lo hi (zstr (back_of (halves l r n ld))) /\ zstr (back_of (halves l r n ld)) = top_key ld.
Proof.
  intros Ho Hr Hn. destruct (cut lo hi n ld Ho Hr Hn) as (H1 & H2 & H3).
  assert (pairs (load_take n ld) <> []) as Hne1 by (rewrite pairs_take; intros E%(f_equal length); rewrite length_take in E; simpl in E; lia).
  assert (pairs (load_drop n ld) <> []) as Hne2 by (rewrite pairs_drop; intros E%(f_equal length); rewrite length_drop in E; simpl in E; lia).
  destruct (top_key_plain _ (load_take_readable n ld Hr) Hne1) as [E1 _].
  destruct (top_key_plain _ (load_drop_readable n ld Hr) Hne2) as [E2 _].
  assert (top_key (load_drop n ld) = top_key ld) as Etop by (unfold top_key; rewrite pairs_drop; apply back_key_drop; lia).
  assert (between (Some (top_key (load_take n ld))) hi (top_key (load_drop n ld))) as Hb.
  { inversion H2 as [kvs Hin El|ks Hks El]; rewrite <- El in *.
    - destruct (back_key_in _ Hne2) as (kv & Hkv & E). change (top_key (Records kvs)) with (back_key (pairs (Records kvs))). rewrite E. by apply Hin.
    - apply pairs_nil in Hne2. rewrite top_key_children by done. by apply forest_back. }
  unfold halves. change (back_of _) with (plain_key (top_key (load_drop n ld))). rewrite E2. split_and!; [|done| |done].
  - constructor; rewrite E1; [done|by apply ordered_make|]. constructor; rewrite ?E2; [done|by apply ordered_make].
  - destruct Hb as [Hb1 Hb2]. split; [|done]. destruct H3 as [H3 _]. destruct lo; [by etransitivity|done].
Qed.

(** Splitting a child keeps the order; an inner child that is not the last has to be tight. *)
Lemma split_ordered lo hi ks i k kid l r n :
  forest lo hi ks -> ks !! i = Some (k, kid) -> readable kid -> (0 < n < length (pairs (load_of kid)))%nat ->
  (drop (S i) ks <> [] -> tight kid) -> forest lo hi (split_children ks i (halves l r n (load_of kid))).
Proof.
  intros Hf Hi Hr Hn Ht. rewrite <- (take_drop_middle ks i (k, kid) Hi) in Hf.
  destruct (forest_replace lo hi (take i ks) [(k, kid)] (drop (S i) ks) ltac:(done) Hf) as (lo' & H1 & H2).
  inversion H1 as [? ? ? ? Hb Ho|? ? ? ? ? _ _ Hno]; subst; [|inversion Hno].
  pose proof (ordered_load _ _ _ Ho) as Hlo. pose proof (load_of_readable _ Hr) as Hlr.
  apply H2; destruct (drop (S i) ks) eqn:Ed; cbn [bound_after] in *; try done.
  - by apply halves_forest.
  - destruct (halves_forest _ _ l r n _ Hlo Hlr Hn) as (_ & _ & _ & ->).
    pose proof (tight_load _ _ _ Hlo Hlr (Ht ltac:(done))) as Ht'. by apply (halves_forest _ _ l r n _ Ht' Hlr Hn).
  - intros _. by destruct (halves_forest _ _ l r n _ Hlo Hlr Hn) as (_ & _ & [_ ?] & _).
Qed.

(** Merging two children keeps it; an inner left child has to be tight. *)
Lemma merge_ordered lo hi ks i k1 a k2 b n :
  forest lo hi ks -> ks !! i = Some (k1, a) -> ks !! S i = Some (k2, b) -> readable a -> readable b ->
  same_kind (load_of a) (load_of b) -> tight a ->
  forest lo hi (merge_children ks i k2 (make n (load_app (load_of a) (load_of b)))).
Proof.
  intros Hf Hi Hj Hra Hrb Hk Ht. rewrite <- (take_drop_middle ks i (k1, a) Hi) in Hf.
  assert (drop (S i) ks = (k2, b) :: drop (S (S i)) ks) as E by (by apply drop_S). rewrite E in Hf.
  destruct (forest_replace lo hi (take i ks) [(k1, a); (k2, b)] (drop (S (S i)) ks) ltac:(done) Hf) as (lo' & H1 & H2).
  inversion H1 as [|? ? ? ? ? Hb1 Hoa Hr1]; subst. inversion Hr1 as [? ? ? ? Hb2 Hob|? ? ? ? ? _ _ Hno]; subst; [|inversion Hno].
  apply H2; [|intros _; apply key_leb_refl]. change (bound_after hi (drop (S (S i)) ks) [(k2, make n (load_app (load_of a) (load_of b)))])
    with (bound_after hi (drop (S (S i)) ks) [(k1, a); (k2, b)]).
  constructor.
  - destruct Hb1 as [Hb1 _], Hb2 as [Hb2 Hb2']. split; [|done]. destruct lo'; [by etransitivity|done].
  - apply ordered_make. pose proof (ordered_load _ _ _ Hoa) as Hla. eapply join; [done|exact Hla|by apply ordered_load|done|].
    pose proof (tight_load _ _ _ Hla (load_of_readable _ Hra) Ht) as Htl. by destruct (load_of a).
Qed.

(** Exchanging a child for one within the same bounds. *)
Lemma exchange_ordered lo hi ks i k kid :
  forest lo hi ks -> ks !! i = Some (k, kid) -> exists lo' hi', ordered lo' hi' kid /\
    forall kid', ordered lo' hi' kid' -> forest lo hi (<[i := (k, kid')]> ks).
Proof.
  intros Hf Hi. pose proof (lookup_lt_Some _ _ _ Hi) as Hlt. pose proof Hf as Hf'. rewrite <- (take_drop_middle ks i (k, kid) Hi) in Hf.
  destruct (forest_replace lo hi (take i ks) [(k, kid)] (drop (S i) ks) ltac:(done) Hf) as (lo' & H1 & H2).
  inversion H1 as [? ? ? ? Hb Ho|? ? ? ? ? _ _ Hno]; subst; [|inversion Hno].
  exists lo', (bound_after hi (drop (S i) ks) [(k, kid)]). split; [done|]. intros kid' Ho'.
  rewrite insert_take_drop by done. apply (H2 [(k, kid')]); [|intros _; apply key_leb_refl].
  constructor; [done|]. by destruct (drop (S i) ks).
Qed.
