(* ===== verification/BzBuild.v ===== *)
(** * Nodes that modifications build (bztree_smos.cc)

    A node made by [copy_in] of the records of a leaf, or of pointers to children, is a
    leaf or an inner node of a tree; copying a node of a tree out gives what it holds in
    key order. *)
From Stdlib Require Import ZArith Lia Ascii.
From stdpp Require Import base list gmap strings sorting.
From S2P Require Import Prelude Bytes Prog Status Hash Library Epoch Garbage Metrics Memory Descriptor MwCAS Entries Target Pool DList DListSpec BzNode BzTree BzBytes BzNodeSpec BzSmo BzLeaf BzSupply BzPlace BzMap BzHeight BzOrder.
#[local] Open Scope Z_scope.
#[local] Open Scope machine_scope.
#[local] Open Scope prog_scope.

(** ** The records of a new node *)

Lemma new_recs_lookup kvs : forall off i r, new_recs off kvs !! i = Some r ->
  exists kv, kvs !! i = Some kv /\ r = MkRec (new_md (off - data_len (take (S i) kvs)) kv) kv.1 kv.2.
Proof.
  induction kvs as [|kv kvs IH]; intros off [|i] r Hi; cbn [new_recs] in Hi; try done.
  - injection Hi as <-. exists kv. split; [done|]. cbn [take data_len foldr]. rewrite Z.add_0_r. done.
  - destruct (IH _ _ _ Hi) as (kv' & H & ->). exists kv'. split; [done|].
    cbn [take data_len foldr]. fold (data_len (take (S i) kvs)). do 2 f_equal. lia.
Qed.

Lemma data_len_take n kvs : 0 <= data_len (take n kvs) <= data_len kvs.
Proof.
  rewrite <- (take_drop n kvs) at 3. rewrite data_len_app. pose proof (data_len_nonneg (take n kvs)).
  pose proof (data_len_nonneg (drop n kvs)). lia.
Qed.

Lemma data_len_take_S kvs i kv : kvs !! i = Some kv -> data_len (take (S i) kvs) = data_len (take i kvs) + pair_len kv.
Proof. intros H. rewrite (take_S_r _ _ kv) by done. rewrite data_len_app. cbn. lia. Qed.

Lemma live_size_new kvs : forall off, live_size (new_recs off kvs) = data_len kvs + sizeof_NodeMetadata * Z.of_nat (length kvs).
Proof.
  induction kvs as [|kv kvs IH]; intros off; [done|]. cbn [new_recs live_size foldr data_len length]. fold (live_size (new_recs (off - pair_len kv) kvs)).
  rewrite IH. unfold rec_size, new_md. cbn. unfold data_len. lia.
Qed.

Lemma make_recs ks :
  zip_with child_rec (zip_with MkSep (r_md <$> new_node_recs (child_pair <$> ks)) ks.*1) ks.*2 = new_node_recs (child_pair <$> ks).
Proof.
  unfold new_node_recs. generalize sizeof_body as o. induction ks as [|[k kid] ks IH]; intros o; [done|].
  cbn [fmap list_fmap new_recs zip_with]. f_equal. apply IH.
Qed.

(** The records of a node. *)
Definition recs_of (s : shape) : list rec :=
  match s with Leaf _ _ rs => rs | Inner _ _ seps kids => zip_with child_rec seps kids end.

Lemma live_children seps kids :
  length seps = length kids -> (forall s, s ∈ seps -> visible (s_md s) = true) ->
  live (zip_with child_rec seps kids) = child_pair <$> keyed seps kids.
Proof.
  revert kids. induction seps as [|s seps IH]; intros [|kid kids] Hl Hv; try done. cbn [zip_with].
  rewrite live_cons. cbn [child_rec r_md r_key r_val]. rewrite (Hv s) by (by left). cbn. f_equal. apply IH; [simpl in Hl; lia|].
  intros x Hx. apply Hv. by right.
Qed.

(** ** Key order *)

Lemma forest_sorted lo hi ks :
  forest lo hi ks -> StronglySorted bytes_lt (pairs (Children ks)).*1 /\ (forall k, k ∈ (pairs (Children ks)).*1 -> between lo hi k).
Proof.
  induction 1 as [lo hi k kid Hb _|lo hi k kid ks [Hb1 Hb2] _ _ [IH1 IH2]]; cbn [pairs fmap list_fmap child_pair fst] in *.
  - split; [repeat constructor|]. intros x ->%list_elem_of_singleton. done.
  - split.
    + constructor; [done|]. apply Forall_forall. intros x Hx. by apply IH2.
    + intros x [->|Hx]%elem_of_cons; [done|]. destruct (IH2 x Hx) as [H1 H2]. split; [|done]. destruct lo; [by etransitivity|done].
Qed.

Lemma keys_order (kvs : list pair_bytes) : StronglySorted bytes_lt kvs.*1 -> NoDup kvs.*1 /\ Sorted key_le kvs.
Proof.
  intros Hs. split.
  - induction Hs as [|x l Hs IH Hx]; [constructor|]. constructor; [|done]. intros Hin.
    rewrite Forall_forall in Hx. specialize (Hx x Hin). by apply irreflexivity in Hx; [|apply _].
  - apply StronglySorted_Sorted. induction kvs as [|kv kvs IH]; [constructor|]. cbn in Hs. inversion Hs as [|? ? Hs' Hx]; subst.
    constructor; [by apply IH|]. rewrite Forall_fmap in Hx. eapply Forall_impl; [exact Hx|]. intros y Hy. cbn in Hy.
    unfold key_le. unfold bytes_lt in Hy. by rewrite Hy.
Qed.

(** ** Nodes of a tree *)

Section build.
Context {HP : Platform} {HL : PlatformLaws} {HM : Pmdk} (fuel : nat).

(** The space that the records of a node take. *)
Definition used (s : shape) : Z := sizeof_NodeMetadata * Z.of_nat (length (live (recs_of s))) + data_len (live (recs_of s)).

Lemma length_live rs : (length (live rs) <= length rs)%nat.
Proof. unfold live. rewrite length_fmap. apply length_filter. Qed.

Lemma leaf_used c node sw rs : leaf c node sw rs -> live_size rs = data_len (live rs) + sizeof_NodeMetadata * Z.of_nat (length (live rs)).
Proof.
  intros Hl.
  assert (forall i r, rs !! i = Some r -> visible (r_md r) = true -> total_len (r_md r) = Z.of_nat (length (r_key r) + length (r_val r))) as Ht.
  { intros i r Hr Hv. by apply (nh_rec _ _ _ _ (lf_has _ _ _ _ Hl) i r Hr). }
  clear -Ht. induction rs as [|r rs IH]; [done|]. rewrite live_cons. cbn [live_size foldr]. fold (live_size rs).
  rewrite IH by (intros i x Hi; by apply (Ht (S i))). unfold rec_size. destruct (visible (r_md r)) eqn:Ev; [|cbn [app]; lia].
  rewrite (Ht O r eq_refl Ev). cbn [app data_len foldr length]. fold (data_len (live rs)). unfold pair_len. cbn [fst snd]. lia.
Qed.

Lemma stands_used c h s : stands c h s ->
  used s <= sizeof_NodeMetadata * record_count (top_sw s) + block_size (top_sw s) /\
  sizeof_NodeMetadata * record_count (top_sw s) + block_size (top_sw s) <= sizeof_body /\ (length (recs_of s) <= 30)%nat.
Proof.
  intros [node sw rs Hl|h' node sw seps kids Hi _]; unfold used; cbn [top_sw recs_of].
  - destruct (leaf_small _ _ _ _ Hl) as [H30 _]. pose proof (leaf_deleted _ _ _ _ Hl) as [Hd _].
    pose proof (lf_deleted _ _ _ _ Hl) as Hdel. pose proof (lf_room _ _ _ _ Hl) as Hroom.
    rewrite (nh_count _ _ _ _ (lf_has _ _ _ _ Hl)). rewrite (leaf_used _ _ _ _ Hl) in Hdel. lia.
  - pose proof (in_used _ _ _ _ _ Hi). pose proof (in_room _ _ _ _ _ Hi) as Hroom. destruct (in_len _ _ _ _ _ Hi).
    rewrite (nh_count _ _ _ _ (in_has _ _ _ _ _ Hi)), length_zip_with. pose proof (length_live (zip_with child_rec seps kids)) as Hll.
    rewrite length_zip_with in Hll. unfold sizeof_NodeMetadata in *. lia.
Qed.

Lemma stands_has c h s : stands c h s ->
  node_has c (D_RW (top s)) (top_sw s) (recs_of s) /\ (length (recs_of s) <= 30)%nat /\ fits_node (live (recs_of s)).
Proof.
  intros Hs. destruct (stands_used _ _ _ Hs) as (H1 & H2 & H3). split; [|split; [done|unfold used, fits_node in *; lia]].
  destruct Hs as [node sw rs Hl|h' node sw seps kids Hi _]; [apply Hl|apply Hi].
Qed.

(** Copied out, a node gives what it holds. *)
Lemma in_order s lo hi : readable s -> ordered lo hi s -> 
  match s with Inner _ _ seps _ => forall x, x ∈ seps -> visible (s_md x) = true | _ => True end ->
  merge_sort key_le (live (recs_of s)) = pairs (load_of s).
Proof.
  intros Hr Ho Hv. destruct s as [node sw rs|node sw seps kids]; [done|]. inversion Ho as [|? ? ? ? ? ? Hl Hf]; subst.
  cbn [recs_of load_of]. rewrite live_children by done. destruct (forest_sorted _ _ _ Hf) as [Hs _].
  apply keys_order in Hs as [H1 H2]. by apply sort_sorted.
Qed.

Lemma stands_visible c h s : stands c h s ->
  match s with Inner _ _ seps _ => forall x, x ∈ seps -> visible (s_md x) = true | _ => True end.
Proof. intros [|]; [done|]. intros x [i Hi]%list_elem_of_lookup_1. by eapply in_sep. Qed.

(** A new leaf. *)
Lemma leaf_make c t kvs : fresh_node c (D_RW t) kvs -> fits_node kvs -> load_readable (Records kvs) ->
  leaf c (D_RW t) (new_sw kvs) (new_node_recs kvs).
Proof.
  intros [H1 H2 H3 H4 H5] Hfit Hr. pose proof (make_readable t _ Hr) as Hm. inversion Hm as [? ? ? Hrecs Hd|]; subst.
  unfold new_node_recs, fits_node in *. split; try done.
  - intros i r Hi Hv. split; [by eapply Hrecs|]. destruct (new_recs_lookup _ _ _ _ Hi) as (kv & Hkv & ->). cbn [new_sw r_md new_md block_size offset total_len].
    pose proof (data_len_take (S i) kvs). rewrite (data_len_take_S _ _ _ Hkv) in *. pose proof (data_len_take i kvs). lia.
  - cbn [new_sw block_size]. rewrite length_new_recs. lia.
  - intros j. rewrite length_new_recs. apply H5.
  - rewrite live_size_new, length_new_recs. cbn. lia.
Qed.

Lemma pair_len_child x : 9 <= pair_len (child_pair x).
Proof. unfold pair_len, child_pair, off_bytes. cbn [fst snd]. rewrite length_zstr, length_le_bytes. lia. Qed.

Lemma children_count ks : fits_node (child_pair <$> ks) -> (length ks <= 14)%nat.
Proof.
  assert (9 * Z.of_nat (length ks) <= data_len (child_pair <$> ks)) as H.
  { induction ks as [|x ks IH]; [done|]. cbn [fmap list_fmap data_len foldr length]. pose proof (pair_len_child x).
    unfold data_len in IH. lia. }
  unfold fits_node. rewrite length_fmap. node_lia.
Qed.

(** A new inner node. *)
Lemma inner_make c t ks :
  fresh_node c (D_RW t) (child_pair <$> ks) -> fits_node (child_pair <$> ks) -> load_readable (Children ks) -> ks <> [] ->
  (forall kid, kid ∈ ks.*2 -> pool_uuid_lo (top kid) = pool_uuid_lo t /\ fits 64 (off (top kid))) ->
  inner c t (new_sw (child_pair <$> ks)) (zip_with MkSep (r_md <$> new_node_recs (child_pair <$> ks)) ks.*1) ks.*2.
Proof.
  intros [H1 H2 H3 H4 H5] Hfit Hr Hne Hkid. inversion Hr as [|? Hn _]; subst. pose proof (children_count ks Hfit) as Hcount.
  assert (forall i s, zip_with MkSep (r_md <$> new_node_recs (child_pair <$> ks)) ks.*1 !! i = Some s ->
    exists x, ks !! i = Some x /\ s = MkSep (new_md (sizeof_body - data_len (take (S i) (child_pair <$> ks))) (child_pair x)) x.1) as Hsep.
  { intros i s (md & k & -> & Hmd & Hk)%lookup_zip_with_Some. apply list_lookup_fmap_Some in Hk as (x & -> & Hx).
    apply list_lookup_fmap_Some in Hmd as (r & -> & Hi). destruct (new_recs_lookup _ _ _ _ Hi) as (kv & Hkv & ->).
    rewrite list_lookup_fmap, Hx in Hkv. injection Hkv as <-. by exists x. }
  unfold fits_node in Hfit. rewrite length_fmap in Hfit.
  assert (forall i x, ks !! i = Some x -> data_len (take (S i) (child_pair <$> ks)) = data_len (take i (child_pair <$> ks)) + pair_len (child_pair x)) as Hd.
  { intros i x Hx. apply data_len_take_S. by rewrite list_lookup_fmap, Hx. }
  pose proof (fun i => data_len_take i (child_pair <$> ks)) as Hb.
  assert (forall i j x, (i < j)%nat -> ks !! i = Some x -> data_len (take (S i) (child_pair <$> ks)) <= data_len (take j (child_pair <$> ks))) as Hmono.
  { intros i j x Hij Hx. replace (take (S i) (child_pair <$> ks)) with (take (S i) (take j (child_pair <$> ks))) by (rewrite take_take; f_equal; lia).
    apply data_len_take. }
  split.
  - apply H1.
  - by rewrite make_recs.
  - rewrite length_make_seps, length_fmap. split; [done|]. destruct ks; [done|]. simpl in *. lia.
  - intros i s Hs. destruct (Hsep i s Hs) as (x & Hx & ->). cbn [s_md s_key new_md visible offset total_len]. split_and!; [done| |].
    + apply Hn, list_elem_of_fmap_2. by eapply list_elem_of_lookup_2.
    + pose proof (Hb (S i)). rewrite (Hd i x Hx) in *. pose proof (Hb i). lia.
  - intros i kid Hk. apply Hkid. by eapply list_elem_of_lookup_2.
  - done.
  - done.
  - done.
  - cbn [new_sw block_size]. rewrite length_fmap. lia.
  - intros i s Hs. destruct (Hsep i s Hs) as (x & Hx & ->). cbn. pose proof (Hb (S i)). lia.
  - intros i j s s' Hij Hs Hs'. destruct (Hsep i s Hs) as (x & Hx & ->), (Hsep j s' Hs') as (y & Hy & ->).
    cbn [s_md new_md offset total_len]. rewrite (Hd i x Hx), (Hd j y Hy).
    destruct (decide (i < j)%nat) as [Hlt|Hge]; [right; pose proof (Hmono i j x Hlt Hx) as Hm; rewrite (Hd i x Hx) in Hm; lia|].
    left. pose proof (Hmono j i y ltac:(lia) Hy) as Hm. rewrite (Hd j y Hy) in Hm. lia.
  - rewrite make_recs. unfold new_node_recs. by rewrite live_new_recs.
Qed.

(** ** What a node holds, in memory *)

(** The children that a load names are in memory, at one height below [h]. *)
Definition load_stands (c : gmap Z Z) (u : Z) (h : nat) (ld : load) : Prop :=
  match ld with
  | Records _ => h = 1%nat
  | Children ks => ks <> [] /\ exists h', h = S h' /\ forall kid, kid ∈ ks.*2 ->
      stands c h' kid /\ pool_uuid_lo (top kid) = u /\ fits 64 (off (top kid))
  end.

Lemma stands_make c u h t ld :
  fresh_node c (D_RW t) (pairs ld) -> fits_node (pairs ld) -> load_readable ld -> pool_uuid_lo t = u ->
  load_stands c u h ld -> stands c h (make t ld).
Proof.
  intros Hf Hfit Hr Hu Hs. destruct ld as [kvs|ks]; cbn [load_stands] in Hs.
  - subst h. by apply stands_leaf, leaf_make.
  - destruct Hs as (Hne & h' & -> & Hk). apply stands_inner.
    + apply inner_make; try done. intros kid Hin. rewrite Hu. by apply Hk.
    + intros i kid Hi. apply Hk. by eapply list_elem_of_lookup_2.
Qed.

Lemma load_of_stands c h s : stands c h s -> load_stands c (pool_uuid_lo (top s)) h (load_of s).
Proof.
  intros [node sw rs Hl|h' node sw seps kids Hi Hk]; [done|]. cbn [load_of load_stands top]. destruct (in_len _ _ _ _ _ Hi) as [Hl H0].
  split.
  - intros E. apply (f_equal (fun l => length l.*2)) in E. rewrite keyed_kids in E by done. simpl in E. lia.
  - exists h'. split; [done|]. rewrite keyed_kids by done. intros kid [i Hin]%list_elem_of_lookup_1.
    split; [by eapply Hk|by eapply in_kid].
Qed.

Lemma load_stands_take c u h n ld : (0 < n < length (pairs ld))%nat -> load_stands c u h ld ->
  load_stands c u h (load_take n ld) /\ load_stands c u h (load_drop n ld).
Proof.
  intros Hn Hs. destruct ld as [kvs|ks]; [done|]. destruct Hs as (_ & h' & -> & Hk). cbn [pairs] in Hn. rewrite length_fmap in Hn.
  split; (split; [intros E; apply (f_equal length) in E; rewrite ?length_take, ?length_drop in E; simpl in E; lia|]);
    exists h'; (split; [done|]); intros kid Hin; apply Hk; rewrite ?fmap_take, ?fmap_drop in Hin; [by eapply in_take|by eapply in_drop].
Qed.

Lemma load_stands_app c u h a b : same_kind a b -> load_stands c u h a -> load_stands c u h b -> load_stands c u h (load_app a b).
Proof.
  intros Hk Ha Hb. destruct a as [x|x], b as [y|y]; try done. destruct Ha as (Hne & h1 & -> & H1), Hb as (_ & h2 & [= <-] & H2).
  split; [by intros [? _]%app_eq_nil|]. exists h1. split; [done|]. intros kid. rewrite fmap_app. intros [H|H]%elem_of_app; auto.
Qed.

(** ** Nodes that change in one word *)

(** Another status word with as many records. *)
Lemma node_has_sw c node sw sw' rs :
  node_has c node sw rs -> node mod 8 = 0 -> sw_ok sw' -> record_count sw' = record_count sw ->
  node_has (<[status_word node := sw_word sw']> c) node sw' rs.
Proof.
  intros [N1 N2 N3 N4] Hal Hok Hc. assert (status_word node mod 8 = 0) as Hm.
  { unfold status_word. by rewrite <- Z.add_mod_idemp_l, Hal. }
  split; [apply lookup_insert_eq|done|congruence|]. intros i r Hi. destruct (N4 i r Hi) as (A & B & C). split_and!; [|done|].
  - rewrite lookup_insert_ne; [done|]. node_lia.
  - intros Hv. destruct (C Hv) as (V & K). split; [|done]. apply view_insert; [done| |done].
    pose proof (ok_offset _ B) as [Ho _]. left. node_lia.
Qed.

Lemma stands_node c c' h s :
  stands c h s -> (forall a, in_leaf (top s) a -> c' !! a = c !! a) -> node_has c' (D_RW (top s)) (top_sw s) (recs_of s).
Proof.
  intros [node sw rs Hl|h' node sw seps kids Hi _] Hs; cbn [top top_sw recs_of] in *.
  - eapply lf_has, leaf_same; [|done]. done.
  - by eapply in_has, inner_same.
Qed.

Lemma stands_aligned c h s : stands c h s -> D_RW (top s) mod 8 = 0.
Proof. intros [node sw rs Hl|h' node sw seps kids Hi _]; [apply Hl|apply Hi]. Qed.

Lemma stands_resw c c' h s sw' :
  stands c h s -> (forall a, in_leaf (top s) a -> a <> status_word (D_RW (top s)) -> c' !! a = c !! a) ->
  c' !! status_word (D_RW (top s)) = Some (sw_word sw') -> sw_ok sw' -> record_count sw' = record_count (top_sw s) ->
  node_has c' (D_RW (top s)) sw' (recs_of s).
Proof.
  intros Hst Hs Hsw Hok Hc. pose proof (stands_aligned _ _ _ Hst) as Hal. destruct (stands_top _ _ _ Hst) as [Ht _].
  set (a := status_word (D_RW (top s))) in *.
  assert (node_has (<[a := sw_word (top_sw s)]> c') (D_RW (top s)) (top_sw s) (recs_of s)) as Hn.
  { eapply stands_node; [exact Hst|]. intros x Hx. destruct (decide (x = a)) as [->|Hne]; [by rewrite lookup_insert_eq|].
    rewrite lookup_insert_ne by done. by apply Hs. }
  apply (node_has_sw _ _ _ sw') in Hn; [|done..]. fold a in Hn. by rewrite insert_insert_eq, insert_id in Hn.
Qed.

(** The pointer to a child is exchanged. *)
Lemma link_in c node sw seps kids j s :
  inner c node sw seps kids -> seps !! j = Some s -> in_leaf node (link_at node s) /\ in_leaf node (link_at node s + 7).
Proof.
  intros Hi Hs. destruct (lookup_lt_is_Some_2 kids j) as [kid Hk].
  { rewrite <- (proj1 (in_len _ _ _ _ _ Hi)). by eapply lookup_lt_Some. }
  destruct (inner_rec _ _ _ _ _ _ _ _ Hi Hs Hk) as (_ & B & _ & _ & K & T & Hroom).
  pose proof (ok_offset _ B) as [Ho _]. unfold in_leaf, link_at. node_lia.
Qed.

Lemma link_word c node sw seps kids j s kid :
  inner c node sw seps kids -> seps !! j = Some s -> kids !! j = Some kid -> link_at node s mod 8 = 0 ->
  c !! link_at node s = Some (off (top kid)).
Proof.
  intros Hi Hs Hk Ha. destruct (inner_rec _ _ _ _ _ _ _ _ Hi Hs Hk) as (_ & _ & _ & V & _).
  apply view_word; [exact V|by eapply in_kid|done|]. intros w. eapply in_words; [exact Hi| |done].
  apply (link_in _ _ _ _ _ _ _ Hi Hs).
Qed.

Lemma zip_child_insert seps kids j s kid :
  seps !! j = Some s -> zip_with child_rec seps (<[j := kid]> kids) = <[j := child_rec s kid]> (zip_with child_rec seps kids).
Proof.
  revert j kids. induction seps as [|x seps IH]; intros [|j] [|y kids] Hs; simpl in *; try done.
  - by injection Hs as ->.
  - f_equal. by apply IH.
Qed.

Lemma swing c c' node sw seps kids j s kid :
  inner c node sw seps kids -> seps !! j = Some s -> link_at node s mod 8 = 0 ->
  c' !! link_at node s = Some (off (top kid)) -> fits 64 (off (top kid)) -> pool_uuid_lo (top kid) = pool_uuid_lo node ->
  (forall a, in_leaf node a -> a <> link_at node s -> c' !! a = c !! a) ->
  inner c' node sw seps (<[j := kid]> kids).
Proof.
  intros Hi Hs Hal Hw Hf Hu Hsame. pose proof (link_in _ _ _ _ _ _ _ Hi Hs) as [Hin Hin7].
  destruct (lookup_lt_is_Some_2 kids j) as [kid0 Hk0].
  { rewrite <- (proj1 (in_len _ _ _ _ _ Hi)). by eapply lookup_lt_Some. }
  destruct (inner_rec _ _ _ _ _ _ _ _ Hi Hs Hk0) as (_ & Bs & _ & V0 & Ks & Ts & Rs).
  set (a := link_at node s) in *.
  apply (inner_same (<[a := off (top kid)]> c)).
  { intros x Hx. destruct (decide (x = a)) as [->|Hne]; [by rewrite lookup_insert_eq|]. rewrite lookup_insert_ne by done. by apply Hsame. }
  clear Hsame Hw. pose proof Hi as [Halign Hhas Hls Hseps Hkid Hreg Hw64 Hsw Hroom Hdata Hapart Hfits].
  assert (length (zip_with child_rec seps kids) = length kids) as Hz by (rewrite length_zip_with; lia).
  pose proof (Hdata j s Hs) as Hdj. pose proof (ok_offset _ Bs) as [Ho _].
  assert (a = body (D_RW node) + offset (s_md s) + key_len (s_md s)) as Ea by done.
  split; try done.
  - destruct Hhas as [N1 N2 N3 N4]. rewrite (zip_child_insert _ _ _ s) by done. split.
    + rewrite lookup_insert_ne; [done|]. node_lia.
    + done.
    + by rewrite length_insert.
    + intros i r Hir. assert (i < length kids)%nat as Hlt.
      { apply lookup_lt_Some in Hir. rewrite length_insert in Hir. lia. }
      destruct (lookup_lt_is_Some_2 seps i) as [x Hx]; [lia|]. destruct (lookup_lt_is_Some_2 kids i Hlt) as [y Hy].
      assert (r_md r = s_md x /\ (zip_with child_rec seps kids) !! i = Some (child_rec x y)) as [Emd Hr0].
      { assert (zip_with child_rec seps kids !! i = Some (child_rec x y)) as E by (apply lookup_zip_with_Some; eauto). split; [|done].
        apply list_lookup_insert_Some in Hir as [(<- & <- & _)|[_ Hir]]; [rewrite Hs in Hx; by injection Hx as <-|].
        rewrite E in Hir. by injection Hir as <-. }
      destruct (N4 i _ Hr0) as (A & B & C). cbn [child_rec r_md] in A, B, C. unfold record_at. rewrite Emd. split_and!; [|done|].
      * rewrite lookup_insert_ne; [done|]. node_lia.
      * intros Hv. destruct (C Hv) as (V & L1 & L2). cbn [child_rec r_key r_val] in *.
        apply list_lookup_insert_Some in Hir as [(<- & <- & _)|[Hne Hir]].
        -- rewrite Hs in Hx. injection Hx as <-. cbn [child_rec r_key r_val]. rewrite !length_le_bytes in *. split; [|done].
           apply view_app in V as [V _]. apply view_app. split; [apply view_insert; [done|right; node_lia|done]|].
           rewrite <- L1. apply word_view; [rewrite Ea; apply lookup_insert_eq|done|done].
        -- rewrite Hr0 in Hir. injection Hir as <-. cbn [child_rec r_key r_val]. split; [|done].
           apply view_insert; [done| |done]. rewrite length_app.
           destruct (Hapart i j x s) as [Hd|Hd]; [done|done|done|right; node_lia|left; node_lia].
  - by rewrite length_insert.
  - intros i kid' Hk'. apply list_lookup_insert_Some in Hk' as [(-> & <- & _)|[_ Hk']]; [done|by eapply Hkid].
  - by apply region_insert.
  - by apply words64_insert.
  - by rewrite length_insert.
  - rewrite live_children in * by (rewrite ?length_insert; (lia || intros x [i Hx]%list_elem_of_lookup_1; by eapply Hseps)).
    replace (data_len (child_pair <$> keyed seps (<[j:=kid]> kids))) with (data_len (child_pair <$> keyed seps kids)); [done|].
    clear. revert j kids. induction seps as [|x seps IH]; intros [|j] [|y kids]; try done.
    cbn. specialize (IH j kids). unfold data_len, keyed in IH. by rewrite IH.
Qed.

(** ** The nodes beneath *)

Definition beneath (ld : load) : list TOID := match ld with Records _ => [] | Children ks => flat_map nodes ks.*2 end.

Lemma top_make n ld : top (make n ld) = n.
Proof. by destruct ld. Qed.

Lemma nodes_make n ld : nodes (make n ld) = n :: beneath ld.
Proof. by destruct ld. Qed.

Lemma nodes_load c h s : stands c h s -> nodes s = top s :: beneath (load_of s).
Proof.
  intros [node sw rs Hl|h' node sw seps kids Hi _]; [done|]. cbn. rewrite keyed_kids; [done|]. apply (in_len _ _ _ _ _ Hi).
Qed.

Lemma beneath_split n ld : beneath ld = beneath (load_take n ld) ++ beneath (load_drop n ld).
Proof. destruct ld as [kvs|ks]; [done|]. cbn. by rewrite <- flat_map_app, <- fmap_app, take_drop. Qed.

Lemma beneath_app a b : same_kind a b -> beneath (load_app a b) = beneath a ++ beneath b.
Proof. destruct a, b; try done. intros _. cbn. by rewrite fmap_app, flat_map_app. Qed.

(** What is below stays in memory. *)
Lemma load_stands_mono c c' u h ld :
  load_stands c u h ld -> (forall hx x, stands c hx x -> nodes x ⊆ beneath ld -> stands c' hx x) -> load_stands c' u h ld.
Proof.
  intros Hs Hk. destruct ld as [kvs|ks]; [done|]. destruct Hs as (Hne & h' & -> & Hkid). split; [done|]. exists h'. split; [done|].
  intros kid Hin. destruct (Hkid kid Hin) as (H1 & H2). split; [|done]. apply Hk; [done|]. intros n Hn. cbn. apply elem_of_flat_map. eauto.
Qed.

(** A new node that is not touched. *)
Lemma fresh_node_same c c' node kvs :
  (forall a, node <= a < node + BZTREE_NODE_SIZE -> c' !! a = c !! a) -> fits_node kvs ->
  fresh_node c node kvs -> fresh_node c' node kvs.
Proof.
  intros Hs Hfit [H1 [N1 N2 N3 N4] (R1 & R2 & R3) H4 H5]. unfold fits_node in Hfit. pose proof (data_len_nonneg kvs) as Hd.
  assert (forall j, 0 <= j -> sizeof_NodeMetadata * (j + 1) <= sizeof_body -> c' !! nmd_at node j = c !! nmd_at node j) as Hnmd.
  { intros j J0 J1. apply Hs. node_lia. }
  split; [done| | | |].
  - split; [rewrite Hs; [done|]; node_lia|done|done|]. intros i r Hi. destruct (N4 i r Hi) as (A & B & C).
    pose proof (lookup_lt_Some _ _ _ Hi) as Hlt. unfold new_node_recs in Hlt. rewrite length_new_recs in Hlt. split_and!; [|done|].
    + rewrite Hnmd by node_lia. done.
    + intros Hv. destruct (C Hv) as (V & K1 & K2). split; [|done]. eapply view_same; [|exact V].
      destruct (new_recs_lookup _ _ _ _ Hi) as (kv & Hkv & ->). cbn [r_md r_key r_val new_md offset] in *.
      pose proof (data_len_take (S i) kvs). pose proof (data_len_take i kvs) as Ht. rewrite (data_len_take_S _ _ _ Hkv) in *.
      intros x Hx. unfold byte_at. f_equal. apply Hs. unfold within in Hx. rewrite length_app in Hx. unfold pair_len in *.
      pose proof (Z.div_mod x 8 ltac:(lia)). pose proof (Z.mod_pos_bound x 8 ltac:(lia)).
      pose proof (Z.div_mod node 8 ltac:(lia)). node_lia.
  - split_and!; [done|done|]. intros x Hx Hm. rewrite Hs by done. by apply R3.
  - intros x w Hx Hm Hc. apply (H4 x w); [done|done|]. by rewrite <- Hs.
  - intros j J1 J2. rewrite Hnmd by node_lia. by apply H5.
Qed.

(** What is copied fits, and keys are in order. *)
Lemma pairs_fit c h s lo hi : stands c h s -> ordered lo hi s -> fits_node (pairs (load_of s)).
Proof.
  intros Hs Ho. rewrite <- (in_order s lo hi); [|by eapply stands_readable|done|by eapply stands_visible].
  eapply fits_perm; [symmetry; apply merge_sort_Permutation|]. by apply (stands_has _ _ _ Hs).
Qed.
End build.
