(* ===== verification/BzParent.v ===== *)
(** * The parent after a split or a merge (bztree_smos.cc)

    The records of the new parent are those of its children; the children hold the records
    that the old ones held, and the old nodes but two, or three, are below them. *)
From Stdlib Require Import ZArith Lia Ascii.
From stdpp Require Import base list gmap strings sorting.
From S2P Require Import Prelude Bytes Prog Status Hash Library Epoch Garbage Metrics Memory Descriptor MwCAS Entries Target Pool DList DListSpec BzNode BzTree BzBytes BzNodeSpec BzSmo BzLeaf BzSupply BzPlace BzMap BzHeight BzOrder BzBuild.
#[local] Open Scope Z_scope.
#[local] Open Scope machine_scope.

(** ** Finding a child by its offset *)

Lemma le_val_off n : fits 64 (off n) -> le_val (take 8 (off_bytes n)) = off n.
Proof.
  intros H. unfold off_bytes. rewrite take_ge by (rewrite length_le_bytes; lia). by apply le_val_bytes_fits.
Qed.

Lemma clear_7 z : z mod 8 = 0 -> clear z 7 = z.
Proof.
  intros H. unfold clear. change 7 with (Z.ones 3). rewrite Z.ldiff_ones_r, Z.shiftr_div_pow2, Z.shiftl_mul_pow2 by lia.
  change (2 ^ 3) with 8. pose proof (Z.div_mod z 8 ltac:(lia)). lia.
Qed.

Lemma index_child ks j k kid :
  ks !! j = Some (k, kid) ->
  (forall x, x ∈ ks.*2 -> fits 64 (off (top x)) /\ off (top x) mod 8 = 0) ->
  (forall i k' kid', (i < j)%nat -> ks !! i = Some (k', kid') -> off (top kid') <> off (top kid)) ->
  index_of (points_to (top kid)) (child_pair <$> ks) = j.
Proof.
  revert j. induction ks as [|[k0 kid0] ks IH]; intros j Hj Hok Hne; [done|].
  assert (fits 64 (off (top kid)) /\ off (top kid) mod 8 = 0) as [_ Hm].
  { apply Hok. change kid with (k, kid).2. apply list_elem_of_fmap_2. by eapply list_elem_of_lookup_2. }
  destruct (Hok kid0 ltac:(by left)) as [Hf0 Hm0]. cbn [fmap list_fmap index_of].
  assert (points_to (top kid) (child_pair (k0, kid0)) = (off (top kid0) =? off (top kid))) as ->.
  { unfold points_to, child_pair. cbn [fst snd]. by rewrite le_val_off, !clear_7. }
  destruct j as [|j]; cbn in Hj.
  - injection Hj as -> ->. by rewrite Z.eqb_refl.
  - rewrite (proj2 (Z.eqb_neq _ _)) by (apply (Hne O k0); [lia|done]). f_equal. apply IH; [done| |].
    + intros x Hx. apply Hok. by right.
    + intros i k' kid' Hi Hk'. apply (Hne (S i) k'); [lia|done].
Qed.

Lemma delete_keyed seps kids j : length seps = length kids -> (delete j (keyed seps kids)).*2 = delete j kids.
Proof. intros H. by rewrite list_fmap_delete, keyed_kids. Qed.

Lemma lookup_delete_kid {A} (l : list A) j i1 y : delete j l !! i1 = Some y -> exists i2, l !! i2 = Some y.
Proof. intros H. apply list_elem_of_lookup_1. apply list_elem_of_lookup_2 in H. by eapply (sublist_subseteq _ _), H; apply sublist_delete. Qed.

(** ** Splitting *)

Section split.
Context (ks : list (bytes * shape)) (j : nat) (k : bytes) (kid : shape) (Hj : ks !! j = Some (k, kid)) (n : nat) (l r : TOID).
Context (Hr : load_readable (load_of kid)) (Hn : (0 < n < length (pairs (load_of kid)))%nat).

Definition children_split : list (bytes * shape) := split_children ks j (halves l r n (load_of kid)).

Lemma parts_nonempty : pairs (load_take n (load_of kid)) <> [] /\ pairs (load_drop n (load_of kid)) <> [].
Proof.
  rewrite pairs_take, pairs_drop. split; intros E%(f_equal length); rewrite ?length_take, ?length_drop in E; simpl in E; lia.
Qed.

Lemma parts_plain : zstr (plain_key (top_key (load_take n (load_of kid)))) = top_key (load_take n (load_of kid)) /\
  zstr (plain_key (top_key (load_drop n (load_of kid)))) = top_key (load_drop n (load_of kid)) /\
  NUL ∉ plain_key (top_key (load_take n (load_of kid))) /\ NUL ∉ plain_key (top_key (load_drop n (load_of kid))).
Proof.
  destruct parts_nonempty as [H1 H2].
  destruct (top_key_plain _ (load_take_readable n _ Hr) H1), (top_key_plain _ (load_drop_readable n _ Hr) H2). done.
Qed.

Lemma split_pairs :
  index_of (points_to (top kid)) (child_pair <$> ks) = j ->
  split_records (Some (child_pair <$> ks)) (top kid) (back_key (take n (pairs (load_of kid)))) (back_key (drop n (pairs (load_of kid)))) l r =
    child_pair <$> children_split.
Proof.
  intros Hi. unfold split_records. rewrite Hi. unfold children_split, split_children. rewrite !fmap_app, <- fmap_take, <- fmap_drop.
  do 2 f_equal. unfold halves. cbn [fmap list_fmap]. unfold child_pair at 1 2. cbn [fst snd]. destruct parts_plain as (-> & -> & _).
  unfold top_key. by rewrite pairs_take, pairs_drop, !top_make.
Qed.

Lemma split_in x : x ∈ children_split.*2 ->
  x = make l (load_take n (load_of kid)) \/ x = make r (load_drop n (load_of kid)) \/ x ∈ (delete j ks).*2.
Proof.
  unfold children_split, split_children. rewrite delete_take_drop, !fmap_app. cbn [halves fmap list_fmap snd].
  rewrite !elem_of_app, !elem_of_cons, elem_of_nil. tauto.
Qed.

Lemma split_readable : (forall x, x ∈ ks.*1 -> NUL ∉ x) -> (forall x, x ∈ ks.*2 -> readable x) -> load_readable (Children children_split).
Proof.
  intros H1 H2. constructor.
  - unfold children_split, split_children. rewrite !fmap_app. cbn [halves fmap list_fmap fst]. destruct parts_plain as (_ & _ & P1 & P2).
    intros x. rewrite !elem_of_app, !elem_of_cons, elem_of_nil, fmap_take, fmap_drop.
    intros [Hx|[[->|[->|[]]]|Hx]]; [by eapply H1, in_take|done|done|by eapply H1, in_drop].
  - intros x [->|[->|Hx]]%split_in; [by apply make_readable, load_take_readable|by apply make_readable, load_drop_readable|].
    apply H2. rewrite delete_take_drop, fmap_app, fmap_take, fmap_drop in Hx. apply elem_of_app in Hx as [Hx|Hx]; [by eapply in_take|by eapply in_drop].
Qed.

Lemma split_nodes : beneath (Children children_split) ≡ₚ [l; r] ++ beneath (load_of kid) ++ flat_map nodes (delete j ks).*2.
Proof.
  cbn [beneath]. unfold children_split, split_children. rewrite delete_take_drop, !fmap_app, !flat_map_app. cbn [halves fmap list_fmap snd flat_map].
  rewrite !nodes_make, app_nil_r, (beneath_split n (load_of kid)). cbn [app].
  set (A := flat_map nodes (take j ks).*2). set (B := beneath (load_take _ _)). set (C := beneath (load_drop _ _)).
  set (E := flat_map nodes (drop (S j) ks).*2). rewrite <- !app_assoc, !app_comm_cons. solve_Permutation.
Qed.

Lemma split_below kv : match kid with Inner _ _ seps kids => length seps = length kids | _ => True end ->
  kv ∈ flat_map entries ks.*2 <-> kv ∈ flat_map entries children_split.*2.
Proof.
  intros Hl. rewrite <- (take_drop_middle ks j (k, kid) Hj) at 1. unfold children_split, split_children.
  rewrite !fmap_app, !flat_map_app. cbn [halves fmap list_fmap snd flat_map]. rewrite !elem_of_app, !entries_make, (entries_load kid) by done.
  assert (kv ∈ below (load_of kid) <-> kv ∈ below (load_take n (load_of kid)) \/ kv ∈ below (load_drop n (load_of kid))) as ->.
  { destruct (load_of kid) as [kvs|qs]; cbn.
    - by rewrite <- elem_of_app, take_drop.
    - by rewrite <- elem_of_app, <- flat_map_app, <- fmap_app, take_drop. }
  rewrite elem_of_nil. tauto.
Qed.
End split.

(** ** Merging *)

Section merge.
Context (ks : list (bytes * shape)) (j : nat) (k1 : bytes) (a : shape) (k2 : bytes) (b : shape) (n : TOID).
Context (Ha : ks !! j = Some (k1, a)) (Hb : ks !! S j = Some (k2, b)) (Hk : same_kind (load_of a) (load_of b)).

Definition joined : shape := make n (load_app (load_of a) (load_of b)).
Definition children_merged : list (bytes * shape) := merge_children ks j k2 joined.

Lemma merge_pairs :
  index_of (points_to (top a)) (child_pair <$> ks) = j -> merge_records (child_pair <$> ks) (top a) n = child_pair <$> children_merged.
Proof.
  intros Hi. unfold merge_records. rewrite Hi, list_lookup_fmap, Hb. unfold children_merged, merge_children.
  rewrite !fmap_app, <- fmap_take, <- fmap_drop. do 2 f_equal. cbn. unfold child_pair. cbn. unfold joined. by rewrite top_make.
Qed.

Lemma two_gone : delete j (delete (S j) ks) = take j ks ++ drop (S (S j)) ks.
Proof.
  rewrite !delete_take_drop. pose proof (lookup_lt_Some _ _ _ Hb). rewrite take_app_le, take_take, drop_app_le by (rewrite length_take; lia).
  replace (j `min` S j)%nat with j by lia. rewrite skipn_firstn_comm, Nat.sub_diag. done.
Qed.

Lemma merged_in x : x ∈ children_merged.*2 -> x = joined \/ x ∈ (delete j (delete (S j) ks)).*2.
Proof.
  rewrite two_gone. unfold children_merged, merge_children. rewrite !fmap_app. cbn [fmap list_fmap snd].
  rewrite !elem_of_app, list_elem_of_singleton. tauto.
Qed.

Lemma merged_readable : (forall x, x ∈ ks.*1 -> NUL ∉ x) -> (forall x, x ∈ ks.*2 -> readable x) -> load_readable (load_app (load_of a) (load_of b)) ->
  load_readable (Children children_merged).
Proof.
  intros H1 H2 H3. constructor.
  - unfold children_merged, merge_children. rewrite !fmap_app, fmap_take, fmap_drop. intros x. rewrite !elem_of_app.
    intros [Hx|[Hx|Hx]]; [by eapply H1, in_take| |by eapply H1, in_drop]. apply list_elem_of_singleton in Hx as ->.
    apply H1. apply (list_elem_of_fmap_2 fst ks (k2, b)). by eapply list_elem_of_lookup_2.
  - intros x [->|Hx]%merged_in; [by apply make_readable|]. apply H2. rewrite two_gone, fmap_app, fmap_take, fmap_drop in Hx.
    apply elem_of_app in Hx as [Hx|Hx]; [by eapply in_take|by eapply in_drop].
Qed.

Lemma merged_nodes : beneath (Children children_merged) ≡ₚ
  [n] ++ (beneath (load_of a) ++ beneath (load_of b)) ++ flat_map nodes (delete j (delete (S j) ks)).*2.
Proof.
  rewrite two_gone. cbn [beneath]. unfold children_merged, merge_children. rewrite !fmap_app, !flat_map_app. cbn [fmap list_fmap snd flat_map].
  unfold joined. rewrite nodes_make, app_nil_r, beneath_app by done. cbn [app].
  set (A := flat_map nodes (take j ks).*2). set (B := beneath (load_of a)). set (C := beneath (load_of b)).
  set (E := flat_map nodes (drop (S (S j)) ks).*2). rewrite <- !app_assoc, !app_comm_cons. solve_Permutation.
Qed.

Lemma merged_below kv :
  match a with Inner _ _ seps kids => length seps = length kids | _ => True end ->
  match b with Inner _ _ seps kids => length seps = length kids | _ => True end ->
  kv ∈ flat_map entries ks.*2 <-> kv ∈ flat_map entries children_merged.*2.
Proof.
  intros Hla Hlb. rewrite <- (take_drop_middle ks j (k1, a) Ha) at 1.
  assert (drop (S j) ks = (k2, b) :: drop (S (S j)) ks) as -> by (by apply drop_S).
  unfold children_merged, merge_children. rewrite !fmap_app, !flat_map_app. cbn [fmap list_fmap snd flat_map]. unfold joined.
  rewrite !elem_of_app, entries_make, (entries_load a), (entries_load b), elem_of_nil by done.
  assert (kv ∈ below (load_app (load_of a) (load_of b)) <-> kv ∈ below (load_of a) \/ kv ∈ below (load_of b)) as ->.
  { destruct (load_of a) as [x|x], (load_of b) as [y|y]; try done; cbn.
    - apply elem_of_app.
    - rewrite fmap_app, flat_map_app. apply elem_of_app. }
  tauto.
Qed.
End merge.
