(* ===== verification/BzWay.v ===== *)
(** * The way to a subtree (bztree.cc)

    The descent as far as the node where a modification is due, and a tree in which the
    subtree there is exchanged for another. *)
From Stdlib Require Import ZArith Lia Ascii.
From stdpp Require Import base list gmap strings sorting.
From S2P Require Import Prelude Bytes Prog Status Hash Library Epoch Garbage Metrics Memory Descriptor MwCAS Entries Target Pool DList DListSpec BzNode BzTree BzBytes BzNodeSpec BzSmo BzLeaf BzSupply BzPlace BzMap BzHeight BzOrder BzBuild.
#[local] Open Scope Z_scope.
#[local] Open Scope machine_scope.
#[local] Open Scope prog_scope.

(** The record that leads to a subtree, in the node [l_node]. *)
Record link := MkLink { l_node : TOID; l_sw : NodeHeaderStatusWord; l_sep : sep }.

(** The traversal goes on to the child: no modification of it is due. *)
Definition passes (kids : list shape) (j : nat) (kid : shape) : Prop :=
  settled (top_sw kid) /\
  TOID_IS_NULL (mergeable kids (Z.of_nat j - 1) (free_of (top_sw kid))) = true /\
  TOID_IS_NULL (mergeable kids (Z.of_nat j + 1) (free_of (top_sw kid))) = true.
Definition anyhow (kids : list shape) (j : nat) (kid : shape) : Prop := True.

(** [d] steps down from [s] for the key, each as [P] demands, lie the subtree [sub], whose
    pointer is in the record [l], the other nodes [rest] and the tree around it, [plug]. *)
Inductive way (P : list shape -> nat -> shape -> Prop) (key : bytes) (s : shape) :
    nat -> shape -> option link -> list TOID -> (shape -> shape) -> Prop :=
| way_top : way P key s O s None [] (fun x => x)
| way_down d node sw seps kids kid x l rest plug :
    way P key s d (Inner node sw seps kids) l rest plug ->
    kids !! slot (s_key <$> seps) key = Some kid -> seps !! slot (s_key <$> seps) key = Some x ->
    P kids (slot (s_key <$> seps) key) kid ->
    way P key s (S d) kid (Some (MkLink node sw x))
      (rest ++ node :: flat_map nodes (delete (slot (s_key <$> seps) key) kids))
      (fun y => plug (Inner node sw seps (<[slot (s_key <$> seps) key := y]> kids))).

Lemma way_any P key s d sub l rest plug : way P key s d sub l rest plug -> way anyhow key s d sub l rest plug.
Proof. induction 1; [constructor|]. by eapply way_down. Qed.

Lemma way_self P key s d sub l rest plug : way P key s d sub l rest plug -> plug sub = s.
Proof. induction 1 as [|d node sw seps kids kid x l rest plug _ IH Hk Hx _]; [done|]. by rewrite list_insert_id. Qed.

Lemma way_link_top P key s d sub l rest plug y : way P key s d sub l rest plug -> top y = top sub \/ d <> O -> top (plug y) = top s.
Proof.
  intros Hw. revert y. induction Hw as [|d node sw seps kids kid x l rest plug _ IH Hk Hx _]; intros y Hy; [by destruct Hy|].
  apply IH. by left.
Qed.

(** ** Nodes *)

Lemma flat_map_delete_perm {A B} (f : A -> list B) l j x : l !! j = Some x -> flat_map f l ≡ₚ f x ++ flat_map f (delete j l).
Proof.
  revert j. induction l as [|a l IH]; intros [|j] Hj; simpl in *; try done; [by injection Hj as ->|].
  rewrite (IH j Hj). rewrite !app_assoc. f_equiv. apply Permutation_app_comm.
Qed.

Lemma delete_insert_list {A} (l : list A) j y : delete j (<[j := y]> l) = delete j l.
Proof. revert j. induction l as [|a l IH]; intros [|j]; simpl; try done. by f_equal. Qed.

Lemma other_kid {A} (l : list A) i j x : l !! i = Some x -> i <> j -> x ∈ delete j l.
Proof.
  revert i j. induction l as [|a l IH]; intros [|i] [|j] Hi Hne; simpl in *; try done.
  - injection Hi as ->. by left.
  - by eapply list_elem_of_lookup_2.
  - right. apply (IH i j); [done|congruence].
Qed.

Lemma nodes_insert kids j kid y :
  kids !! j = Some kid -> flat_map nodes (<[j := y]> kids) ≡ₚ nodes y ++ flat_map nodes (delete j kids).
Proof.
  intros Hj. rewrite (flat_map_delete_perm nodes (<[j := y]> kids) j y) by (apply list_lookup_insert_eq; by eapply lookup_lt_Some).
  by rewrite delete_insert_list.
Qed.

Lemma way_nodes P key s d sub l rest plug y : way P key s d sub l rest plug -> nodes (plug y) ≡ₚ rest ++ nodes y.
Proof.
  intros Hw. revert y. induction Hw as [|d node sw seps kids kid x l rest plug _ IH Hk Hx _]; intros y; [done|].
  rewrite IH. cbn [nodes]. rewrite (nodes_insert _ _ kid) by done. rewrite <- app_assoc. f_equiv. simpl. f_equiv. apply Permutation_app_comm.
Qed.

Lemma way_whole P key s d sub l rest plug : way P key s d sub l rest plug -> nodes s ≡ₚ rest ++ nodes sub.
Proof. intros Hw. rewrite <- (way_self _ _ _ _ _ _ _ _ Hw) at 1. by eapply way_nodes. Qed.

Lemma way_link_in P key s d sub lk rest plug : way P key s d sub (Some lk) rest plug -> l_node lk ∈ rest.
Proof. intros Hw. inversion Hw; subst. cbn. apply elem_of_app. right. by left. Qed.

(** ** Order and records *)

Lemma keyed_insert seps kids j x y :
  seps !! j = Some x -> keyed seps (<[j := y]> kids) = <[j := (s_key x, y)]> (keyed seps kids).
Proof.
  unfold keyed. revert j kids. induction seps as [|a seps IH]; intros [|j] [|b kids] Hj; simpl in *; try done.
  - by injection Hj as ->.
  - f_equal. by apply IH.
Qed.

Lemma keyed_lookup seps kids j x kid : seps !! j = Some x -> kids !! j = Some kid -> keyed seps kids !! j = Some (s_key x, kid).
Proof. intros Hx Hk. unfold keyed. apply lookup_zip_with_Some. exists (s_key x), kid. by rewrite list_lookup_fmap, Hx. Qed.

Lemma way_ordered P key s d sub l rest plug lo hi :
  way P key s d sub l rest plug -> ordered lo hi s ->
  exists lo' hi', ordered lo' hi' sub /\ forall y, ordered lo' hi' y -> ordered lo hi (plug y).
Proof.
  intros Hw Ho. induction Hw as [|d node sw seps kids kid x l rest plug _ IH Hk Hx _]; [eauto|].
  destruct IH as (lo1 & hi1 & H1 & H2). inversion H1 as [|? ? ? ? ? ? Hl Hf]; subst.
  destruct (exchange_ordered _ _ _ _ _ _ Hf (keyed_lookup _ _ _ _ _ Hx Hk)) as (lo2 & hi2 & H3 & H4).
  exists lo2, hi2. split; [done|]. intros y Hy. apply H2. constructor; [by rewrite length_insert|].
  rewrite (keyed_insert _ _ _ x) by done. by apply H4.
Qed.

Lemma way_entries P key s d sub l rest plug y kv :
  way P key s d sub l rest plug -> (kv ∈ entries sub <-> kv ∈ entries y) -> kv ∈ entries s <-> kv ∈ entries (plug y).
Proof.
  intros Hw. revert y. induction Hw as [|d node sw seps kids kid x l rest plug _ IH Hk Hx _]; intros y Hy; [done|].
  apply IH. cbn [entries]. rewrite (flat_map_delete_perm entries kids _ kid) by done.
  rewrite (flat_map_delete_perm entries (<[_ := y]> kids) (slot (s_key <$> seps) key) y) by (apply list_lookup_insert_eq; by eapply lookup_lt_Some).
  rewrite delete_insert_list, !elem_of_app. tauto.
Qed.

(** ** In memory *)

Section way.
Context {HM : Pmdk}.

Lemma way_stands P key s d sub l rest plug c h : way P key s d sub l rest plug -> stands c h s ->
  exists h', h = (d + h')%nat /\ stands c h' sub.
Proof.
  intros Hw Hs. induction Hw as [|d node sw seps kids kid x l rest plug _ IH Hk Hx _]; [by exists h|].
  destruct IH as (h' & -> & H). inversion H as [|h1 ? ? ? ? _ Hkids]; subst. exists h1. split; [lia|by eapply Hkids].
Qed.

(** Every node is mapped. *)
Lemma stands_region c h s n : stands c h s -> n ∈ nodes s -> region c (D_RW n) BZTREE_NODE_SIZE.
Proof.
  induction 1 as [node sw rs Hl|h node sw seps kids Hi _ IH]; cbn [nodes]; intros Hn.
  - apply list_elem_of_singleton in Hn as ->. apply Hl.
  - apply elem_of_cons in Hn as [->|Hn]; [apply Hi|]. apply elem_of_flat_map in Hn as (kid & [i Hk]%list_elem_of_lookup_1 & Hn). by eapply IH.
Qed.

(** Nothing but the subtree changes, and it keeps its address. *)
Lemma way_same P key s d sub l rest plug c c' h y :
  way P key s d sub l rest plug -> stands c (d + h) s -> stands c' h y -> top y = top sub ->
  (forall n a, n ∈ rest -> in_leaf n a -> c' !! a = c !! a) -> stands c' (d + h) (plug y).
Proof.
  intros Hw. revert h y. induction Hw as [|d node sw seps kids kid x l rest plug Hw IH Hk Hx _]; intros h y Hs Hy Et Hsame; [done|].
  rewrite Nat.add_succ_comm in *. destruct (way_stands _ _ _ _ _ _ _ _ _ _ Hw Hs) as (h' & E & Hst).
  assert (h' = S h) as -> by lia. inversion Hst as [|? ? ? ? ? Hi Hkids]; subst.
  assert (forall n a, n ∈ rest ++ node :: flat_map nodes (delete (slot (s_key <$> seps) key) kids) -> in_leaf n a -> c' !! a = c !! a) as Hs' by done.
  apply (IH (S h)); [done| |done|intros n a Hn; apply Hsame, elem_of_app; by left].
  constructor.
  - eapply inner_exchange; [|done..]. eapply inner_same; [|exact Hi]. intros a. apply Hsame, elem_of_app. right. by left.
  - intros i z Hz. destruct (decide (i = slot (s_key <$> seps) key)) as [->|Hne].
    + rewrite list_lookup_insert_eq in Hz by (by eapply lookup_lt_Some). by injection Hz as <-.
    + rewrite list_lookup_insert_ne in Hz by done. eapply stands_same; [by eapply Hkids|]. intros n a Hn. apply Hsame, elem_of_app.
      right. right. apply elem_of_flat_map. exists z. split; [|done]. by eapply other_kid.
Qed.

(** The word that points to the subtree, unless it is the root. *)
Definition hook (l : option link) : option Z := (fun lk => link_at (l_node lk) (l_sep lk)) <$> l.

(** The word leads to [new] now. *)
Definition hooked (c : gmap Z Z) (l : option link) (new : TOID) : Prop :=
  match l with
  | Some lk => link_at (l_node lk) (l_sep lk) mod 8 = 0 /\ c !! link_at (l_node lk) (l_sep lk) = Some (off new) /\
      fits 64 (off new) /\ pool_uuid_lo new = pool_uuid_lo (l_node lk)
  | None => True
  end.

Lemma hook_in P key s d sub lk rest plug c h :
  way P key s d sub (Some lk) rest plug -> stands c h s -> in_leaf (l_node lk) (link_at (l_node lk) (l_sep lk)).
Proof.
  intros Hw Hs. inversion Hw as [|d' node sw seps kids kid x l rest' plug' Hw' Hk Hx]; subst.
  destruct (way_stands _ _ _ _ _ _ _ _ _ _ Hw' Hs) as (h' & _ & Hst). inversion Hst as [|? ? ? ? ? Hi _]; subst.
  by apply (link_in _ _ _ _ _ _ _ Hi Hx).
Qed.

(** The word that leads to a subtree is in none of the subtree's nodes. *)
Lemma hook_apart P key s d sub l rest plug c h n a :
  way P key s d sub l rest plug -> stands c h s -> separate (nodes s) -> n ∈ nodes sub -> in_leaf n a -> Some a <> hook l.
Proof.
  intros Hw Hs Hsep Hn Ha E. destruct l as [lk|]; [|done]. injection E as ->.
  rewrite (way_whole _ _ _ _ _ _ _ _ Hw) in Hsep. apply separate_app in Hsep as (_ & _ & Hd).
  eapply Hd; [by eapply way_link_in|exact Hn| |exact Ha]. by eapply hook_in.
Qed.

(** The subtree is exchanged, through the word that points to it. *)
Lemma way_swung P key s d sub l rest plug c c' h y :
  way P key s d sub l rest plug -> stands c (d + h) s -> separate (nodes s) -> stands c' h y -> hooked c' l (top y) ->
  (forall n a, n ∈ rest -> in_leaf n a -> Some a <> hook l -> c' !! a = c !! a) -> stands c' (d + h) (plug y).
Proof.
  intros Hw Hs Hsep Hy Hh Hsame. inversion Hw as [|d' node sw seps kids kid x l' rest' plug' Hw' Hk Hx]; subst; [done|].
  cbn [hooked hook l_node l_sep fmap option_fmap option_map] in *. destruct Hh as (Hal & Hc & Hf & Hu).
  destruct (way_stands _ _ _ _ _ _ _ _ _ _ Hw' Hs) as (h' & E & Hst). assert (h' = S h) as -> by lia.
  inversion Hst as [|? ? ? ? ? Hi Hkids]; subst. set (j := slot (s_key <$> seps) key) in *.
  assert (forall n, n ∈ rest' \/ n ∈ flat_map nodes (delete j kids) -> forall a, in_leaf n a -> c' !! a = c !! a) as Hother.
  { intros n Hn a Ha. apply (Hsame n a); [apply elem_of_app; rewrite elem_of_cons; tauto|done|]. intros [= ->].
    pose proof (link_in _ _ _ _ _ _ _ Hi Hx) as [Hin _].
    rewrite (way_whole _ _ _ _ _ _ _ _ Hw') in Hsep. apply separate_app in Hsep as (_ & [Hself _] & Hd).
    destruct Hn as [Hn|Hn]; [by eapply (Hd n node); [|left|..]|].
    eapply (Hself n); [|exact Hin|exact Ha]. rewrite (flat_map_delete_perm nodes kids j sub) by done. apply elem_of_app. by right. }
  rewrite Nat.add_succ_comm in *. eapply (way_same _ _ _ _ _ _ _ _ c c' (S h)); [exact Hw'|done| |done|].
  - constructor.
    + eapply swing; try done. intros a Ha Hne. apply (Hsame node a); [apply elem_of_app; right; by left|done|congruence].
    + intros i z Hz. apply list_lookup_insert_Some in Hz as [(-> & <- & _)|[Hne Hz]]; [done|].
      eapply stands_same; [by eapply Hkids|]. intros n a Hn. apply (Hother n). right. apply elem_of_flat_map.
      exists z. split; [|done]. eapply other_kid; [done|congruence].
  - intros n a Hn. by apply (Hother n); left.
Qed.

(** ** The traversal *)

Section traversal.
Context {HP : Platform} {HL : PlatformLaws} (me : Z) (fuel : nat) (t : BzTree).

(** Where the traversal stands when it arrives. *)
Definition arrived (md : Z) (d : nat) (sub : shape) (l : option link) : position :=
  MkPos (Z.of_nat d) (top sub) (match l with None => md_root_node md + 8 | Some lk => link_at (l_node lk) (l_sep lk) end)
    (l_node <$> l).

Lemma ev_way dep md key H s d sub l rest plug e0 e c mm y w :
  way passes key s d sub l rest plug -> stands c H s -> Z.of_nat H < 2 ^ 32 -> NUL ∉ key ->
  c !! md_height md = Some (Z.of_nat H) -> (d + 2 <= H)%nat -> forall n,
  ev (loop n (traverse_turn me fuel dep t key true md) (arrived md d sub l)) (St e0 e c mm) y w ->
  ev (loop (d + n) (traverse_turn me fuel dep t key true md) (MkPos 0 (top s) (md_root_node md + 8) None)) (St e0 e c mm) y w.
Proof.
  intros Hw Hs Hb Hkey Hmd. induction Hw as [|d node sw seps kids kid x l rest plug Hw IH Hk Hx Hp]; intros Hd n Hev; [done|].
  rewrite Nat.add_succ_comm. apply IH; [lia|].
  destruct (way_stands _ _ _ _ _ _ _ _ _ _ Hw Hs) as (h' & E & Hst). inversion Hst as [|h1 ? ? ? ? Hi Hkids]; subst.
  cbn [loop]. eapply ev_bind.
  - eapply (ev_turn me fuel t dep true md key (d + S h1)); [exact Hst|done|done|lia|done|done|by intros _|done| |done].
    cbn. f_equal. lia.
  - destruct (Z.leb_spec (Z.of_nat (d + S h1 - 1)) (Z.of_nat (d + S h1 - S h1) + 1)); [lia|].
    replace (Z.of_nat (d + S h1 - S h1) + 1) with (Z.of_nat (S d)) by lia. exact Hev.
Qed.
End traversal.
End way.
