(* ===== verification/BzSteps.v ===== *)
(** * The steps of a structural modification (bztree.cc, bztree_helpers.cc)

    Freezing nodes, swinging a pointer, and handing a node to the garbage list, run
    alone. *)
From Stdlib Require Import ZArith Lia Ascii.
From stdpp Require Import base list gmap strings.
From S2P Require Import Prelude Bytes Prog Status Hash Library Epoch Garbage Metrics Memory Descriptor MwCAS Entries Target Pool DList DListSpec BzNode BzTree BzBytes BzNodeSpec BzSmo BzLeaf BzSupply BzPlace.
#[local] Open Scope Z_scope.
#[local] Open Scope machine_scope.
#[local] Open Scope prog_scope.

Section steps.
Context {HP : Platform} {HL : PlatformLaws} {HM : Pmdk} (me : Z) (fuel : nat) (fuel_big : (30 < fuel)%nat) (depth : nat).
Context (t : BzTree) (m g part : Z) (k sz i : nat) (own : nat) (own_ne : epoch t <> m).
(** The tree's garbage list is a ring of [2 ^ kt] slots; its manager's table has [szt]. *)
Context (kt szt : nat) (garbage_ne : garbage t <> g).

(** The next [r] slots of the tree's garbage list are free. *)
Record room (r : nat) (l : gmap Z GarbageList) (e : EpochWorld) : Prop := {
  rm_list : exists G, l !! garbage t = Some G /\ ring_wf (epoch t) kt szt G e /\
    forall j, (j < r)%nat ->
      exists it, items_ G !! slot_at kt 1 (tail_ G + Z.of_nat j) = Some it /\ removal_epoch it = 0;
  rm_short : (r <= 2 ^ kt)%nat;
  rm_epoch : 0 < cur (epoch t) e /\ cur (epoch t) e + Z.of_nat r < 2 ^ 64 - 1
}.

(** A protected thread with descriptors [ds] and room for [r] nodes. *)
Record ready (r : nat) (ds : list Z) (en : Entry) (l : gmap Z GarbageList) (e : EpochWorld) (c : gmap Z Z) : Prop := {
  rd_service : service me t m g part k sz i own ds en l e c;
  rd_protected : protected_epoch en <> 0;
  rd_room : room r l e
}.

Lemma room_beside r l e l' e' : room r l e -> beside m g l e l' e' -> room r l' e'.
Proof.
  intros [(G & G1 & G2 & G3) H2 H3] (B1 & B2 & B3). split; [|done|unfold cur in *; by rewrite B2].
  exists G. rewrite B1 by done. split; [done|]. split; [|done]. unfold ring_wf, table_wf, entries in *. by rewrite B2.
Qed.

Lemma ready_same r ds en l e c c' :
  (forall a, pool_cells part ds a -> c' !! a = c !! a) -> ready r ds en l e c -> ready r ds en l e c'.
Proof.
  clear fuel_big own_ne garbage_ne.
  intros Hs [[S1 S2 S3 S4] H2 H3]. split; [|done|done]. split; [|done..]. by eapply supply_same.
Qed.

Lemma ready_above r ds en l e c : ready r ds en l e c -> forall d, d ∈ ds -> above d.
Proof. by intros [[_ _ _ H] _ _]. Qed.

(** An operation that expects what is there. *)
Lemma ev_operation r ds d en l e c mm ws :
  ready r (d :: ds) en l e c -> metrics_ok me mm -> expected part (d :: ds) c ws ->
  exists l' e' c' mm', metrics_ok me mm' /\
    ev (desc_mwcas me fuel (S depth) t (entry_of <$> ws)) (St l e c mm) true (St l' e' c' mm') /\
    ready r ds en l' e' c' /\ (forall x, x ∈ ws -> c' !! wa x = Some (wn x)) /\
    (forall a, ~ pool_cells part (d :: ds) a -> a ∉ wa <$> ws -> c' !! a = c !! a).
Proof.
  intros [Hs Hp Hr] Hm Hex.
  destruct (ev_change me fuel fuel_big depth t m g part k sz i own own_ne ds d en l e c mm ws Hs Hp Hm Hex)
    as (l' & e' & c' & mm' & Hm' & Hev & Hs' & _ & Hw & Ho & Hb).
  exists l', e', c', mm'. split_and!; try done. split; [done|done|by eapply room_beside].
Qed.

(** ** Garbage *)

Lemma ev_push_garbage r ds en l e c mm p :
  ready (S r) ds en l e c ->
  exists l' e', ev (push_garbage fuel t p) (St l e c mm) tt (St l' e' c mm) /\ ready r ds en l' e' c.
Proof.
  intros [Hs Hp [(G & G1 & G2 & G3) Hshort [E1 E2]]].
  destruct (G3 O) as (it & Hit & H0); [lia|]. rewrite Z.add_0_r in Hit.
  set (new := MkItem (cur (epoch t) e) DestroyNode_ptr 0 p).
  destruct (push_next_free bz_destroy (fun _ _ _ c => c) l (garbage t) (epoch t) kt szt 1 (cur (epoch t) e) new
    (fun _ => GarbageList_try bz_destroy (garbage t) (epoch t) (cur (epoch t) e) p DestroyNode_ptr 0) fuel G e it)
    as (e' & Hroll & Hrun); [apply safe_round|done..|lia|].
  set (G' := set_items (<[slot_at kt 1 (tail_ G) := new]> (items_ G)) (set_tail (signed 64 (tail_ G + 1)) G)) in *.
  exists (<[garbage t := G']> l), e'. pose proof Hroll as [(Ht & Hen & Htab & Hoth) Hcur].
  assert (0 < cur (epoch t) e' /\ cur (epoch t) e' + Z.of_nat r < 2 ^ 64 - 1) as Hep.
  { destruct Hcur as [-> | ->]; [lia|]. rewrite u64_id by (unfold fits; lia). lia. }
  split; [|split; [|done|]].
  - unfold push_garbage, assert_ok. apply (ev_bind _ _ _ Status_OK (St (<[garbage t := G']> l) e' c mm)); [|by apply ev_check]. intros w0 H.
    destruct w0 as [l0 e0 c0]. unfold volatile, St in H. cbn in H. injection H as -> -> Hc Hm.
    exists (MkGW (<[garbage t := G']> l) e' c0). split; [|unfold volatile, St; cbn; by rewrite Hc, Hm].
    assert (MkGW l e c0 = W l (garbage t) G e c0) as -> by (unfold W; by rewrite insert_id).
    unfold GarbageList_Push. rewrite (run_push_prefix l (garbage t) (epoch t) kt szt) by done. apply Hrun.
  - destruct Hs as [Hs (H1 & H2 & H3 & H4) H5 H6]. split.
    + eapply supply_epochs; [apply Hoth; congruence|done|]. destruct Hs as [S1 S2 S3 S4 S5 S6 S7 S8]. split; try done.
      by rewrite lookup_insert_ne.
    + split; [|by rewrite Hen, Ht]. unfold table_wf in *. rewrite Hen in *. destruct Htab. destruct H1. split; [congruence|done].
    + lia.
    + done.
  - split; [|lia|done]. exists G'. split; [apply lookup_insert_eq|]. destruct G2 as (R1 & R2 & R3 & R4 & R5 & R6). split.
    + split_and!; try done.
      * cbn. by rewrite length_insert.
      * intros s x. cbn. intros [(_ & <- & _)|(_ & Hx)]%list_lookup_insert_Some; [|by eapply R5].
        cbn. unfold invalid_epoch. lia.
    + intros j Hj. destruct (G3 (S j)) as (x & Hx & Hx0); [lia|]. exists x. split; [|done]. cbn [G' tail_ items_ set_items set_tail].
      rewrite slot_at_signed by done. replace (tail_ G + (1 + Z.of_nat j)) with (tail_ G + Z.of_nat (S j)) by lia.
      rewrite list_lookup_insert_ne; [done|]. apply not_eq_sym, slot_at_ne; [done|lia].
Qed.

(** ** Status words in an operation *)

(** A node in service, with its status word. *)
Record serves (ds : list Z) (c : gmap Z Z) (node : TOID) (sw : NodeHeaderStatusWord) : Prop := {
  sr_word : c !! status_word (D_RW node) = Some (sw_word sw);
  sr_ok : sw_ok sw;
  sr_small : block_size sw <= sizeof_body /\ delete_size sw <= sizeof_body;
  sr_live : frozen sw = false;
  sr_at : 0 < D_RW node /\ D_RW node mod 8 = 0;
  sr_pool a : in_leaf node a -> ~ pool_cells part ds a
}.

Lemma status_in node : in_leaf node (status_word (D_RW node)).
Proof. clear fuel_big. unfold in_leaf, status_word, BZTREE_NODE_SIZE. lia. Qed.

Lemma serves_load ds c node sw : serves ds c node sw -> mev (load_sw (D_RW node)) c sw c.
Proof. intros [H1 H2 _ _ _ _]. eapply mev_bind; [by apply mev_load|]. rewrite sw_of_word by done. apply mev_ret. Qed.

Definition status_rec (node : TOID) (sw sw' : NodeHeaderStatusWord) : wrec :=
  MkW (status_word (D_RW node)) (sw_word sw) (sw_word sw') kRecycleNever.

Lemma serves_expected ds c node sw b :
  serves ds c node sw -> (forall d, d ∈ ds -> above d) ->
  let x := status_rec node sw (set_frozen b sw) in
  wa x <> 0 /\ wa x mod 8 = 0 /\ wp x = kRecycleNever /\ plain (wo x) /\ plain (wn x) /\
    c !! wa x = Some (wo x) /\ wo x ∉ ds /\ ~ pool_cells part ds (wa x).
Proof.
  clear fuel_big own_ne garbage_ne.
  intros [H1 H2 [H3 H3'] H4 [H5 H5'] H6] Ha. pose proof (status_in node) as Hin.
  unfold sizeof_body, BZTREE_NODE_SIZE, sizeof_NodeHeader in *. cbn [status_rec wa wo wn wp]. split_and!; try done.
  - unfold status_word. lia.
  - unfold status_word. by rewrite <- Z.add_mod_idemp_l, H5' by lia.
  - apply sw_word_plain; [done|lia].
  - apply sw_word_plain; [by destruct H2|cbn; lia].
  - intros Hd. eapply (sw_word_above sw); [done|lia|by apply Ha|done].
  - by apply H6.
Qed.

Lemma set_frozen_same sw : frozen sw = false -> set_frozen false sw = sw.
Proof. destruct sw; cbn. by intros ->. Qed.

(** ** Freezing *)

Lemma ev_freeze r ds d en l e c mm (xs : list (TOID * NodeHeaderStatusWord)) :
  ready r (d :: ds) en l e c -> metrics_ok me mm -> (length xs <= 4)%nat -> separate xs.*1 ->
  (forall x, x ∈ xs -> serves (d :: ds) c x.1 x.2) ->
  exists l' e' c' mm', metrics_ok me mm' /\
    ev (desc_mwcas me fuel (S depth) t ((fun x => freeze_entry (status_word (D_RW x.1)) x.2 x.2) <$> xs)) (St l e c mm) true (St l' e' c' mm') /\
    ready r ds en l' e' c' /\ (forall x, x ∈ xs -> c' !! status_word (D_RW x.1) = Some (sw_word (set_frozen true x.2))) /\
    (forall a, ~ pool_cells part (d :: ds) a -> (forall n, n ∈ xs.*1 -> a <> status_word (D_RW n)) -> c' !! a = c !! a).
Proof.
  intros Hr Hm Hlen Hsep Hx.
  set (ws := (fun x => status_rec x.1 x.2 (set_frozen true x.2)) <$> xs).
  destruct (ev_operation r ds d en l e c mm ws Hr Hm) as (l' & e' & c' & mm' & Hm' & Hev & Hr' & Hw & Ho).
  - split.
    + unfold ws. by rewrite length_fmap.
    + unfold ws. clear -Hsep. induction xs as [|x xs IH]; [constructor|]. cbn in *. destruct Hsep as [H1 H2].
      constructor; [|by apply IH]. intros (w & E & (y & -> & Hy)%list_elem_of_fmap)%list_elem_of_fmap. cbn in E.
      eapply (H1 y.1 (status_word (D_RW x.1))); [by apply list_elem_of_fmap_2|apply status_in|rewrite E; apply status_in].
    + intros w (x & -> & Hin)%list_elem_of_fmap. apply serves_expected; [by apply Hx|].
      by eapply ready_above.
  - exists l', e', c', mm'. split; [done|]. split; [|split; [done|split]].
    + unfold ws in Hev. rewrite <- list_fmap_compose in Hev. exact Hev.
    + intros x Hin. apply (Hw (status_rec x.1 x.2 (set_frozen true x.2))). by apply (list_elem_of_fmap_2 (fun x => status_rec x.1 x.2 (set_frozen true x.2))).
    + intros a Ha Hne. apply Ho; [done|]. intros (w & -> & (y & -> & Hy)%list_elem_of_fmap)%list_elem_of_fmap. eapply Hne; [|done]. by apply list_elem_of_fmap_2.
Qed.

(** ** Swinging a pointer *)

(** The node that holds the pointer, if it is not the root's. *)
Definition holder_serves (ds : list Z) (c : gmap Z Z) (gp : option (TOID * NodeHeaderStatusWord)) (a : Z) : Prop :=
  match gp with Some (n, sw) => serves ds c n sw /\ a <> status_word (D_RW n) | None => True end.

Lemma ev_swap_node r ds d en l e c mm gp a old new :
  ready r (d :: ds) en l e c -> metrics_ok me mm -> holder_serves (d :: ds) c gp a ->
  a <> 0 -> a mod 8 = 0 -> c !! a = Some (off old) -> plain (off old) -> plain (off new) -> off old ∉ d :: ds ->
  ~ pool_cells part (d :: ds) a ->
  exists l' e' c' mm', metrics_ok me mm' /\
    ev (swap_node me fuel (S depth) t (fst <$> gp) a old new) (St l e c mm) true (St l' e' c' mm') /\
    ready r ds en l' e' c' /\ c' !! a = Some (off new) /\
    (forall x, ~ pool_cells part (d :: ds) x -> x <> a -> c' !! x = c !! x).
Proof.
  intros Hr Hm Hg Ha0 Ha8 Hc Hpo Hpn Hod Hap.
  set (gws := match gp with Some (n, sw) => [status_rec n sw sw] | None => [] end).
  set (ws := gws ++ [MkW a (off old) (off new) kRecycleNever]).
  assert (length gws <= 1)%nat as Hgl by (unfold gws; destruct gp as [[n sw]|]; simpl; lia).
  assert (forall w, w ∈ gws -> exists n sw, gp = Some (n, sw) /\ w = status_rec n sw sw) as Hgw.
  { unfold gws. destruct gp as [[n sw]|]; [|by intros w []%not_elem_of_nil]. intros w ->%list_elem_of_singleton. eauto. }
  destruct (ev_operation r ds d en l e c mm ws Hr Hm) as (l' & e' & c' & mm' & Hm' & Hev & Hr' & Hw & Ho).
  - split.
    + unfold ws. rewrite length_app. simpl. lia.
    + unfold ws, gws. destruct gp as [[n sw]|]; cbn; [|repeat constructor; by apply not_elem_of_nil].
      destruct Hg as [_ Hne]. repeat constructor; [|by apply not_elem_of_nil]. intros E%list_elem_of_singleton; by apply Hne.
    + intros w [Hin|Hin]%elem_of_app; [|by apply list_elem_of_singleton in Hin as ->].
      destruct (Hgw w Hin) as (n & sw & E & ->). rewrite E in Hg. destruct Hg as [Hs _].
      pose proof (serves_expected _ _ _ _ false Hs (ready_above _ _ _ _ _ _ Hr)) as H.
      by rewrite set_frozen_same in H by apply Hs.
  - exists l', e', c', mm'. split; [done|]. split; [|split; [done|split]].
    + unfold swap_node. eapply (ev_bind _ _ _ (snd <$> gp)).
      { apply ev_mem. destruct gp as [[n sw]|]; cbn [fmap option_fmap option_map fst snd]; [|apply mev_ret]. eapply mev_bind; [by eapply serves_load, Hg|]. apply mev_ret. }
      destruct gp as [[n sw]|]; cbn [fmap option_fmap option_map fst snd].
      * destruct Hg as [Hs _]. rewrite (sr_live _ _ _ _ Hs). apply ev_loop_once; [lia|].
        eapply ev_bind; [exact Hev|]. apply ev_ret.
      * apply ev_loop_once; [lia|]. eapply ev_bind; [exact Hev|]. apply ev_ret.
    + apply (Hw (MkW a (off old) (off new) kRecycleNever)). apply elem_of_app. right. by apply list_elem_of_singleton.
    + intros x Hx Hne. destruct (decide (x ∈ wa <$> gws)) as [Hin|Hnin].
      * apply list_elem_of_fmap in Hin as (w & -> & Hin). destruct (Hgw w Hin) as (n & sw & E & ->).
        assert (status_rec n sw sw ∈ ws) as Hws by (apply elem_of_app; by left). rewrite (Hw _ Hws).
        rewrite E in Hg. symmetry. apply Hg.
      * apply Ho; [done|]. unfold ws. rewrite fmap_app. intros [?|H]%elem_of_app; [done|]. by apply list_elem_of_singleton in H.
Qed.
End steps.
