(* ===== verification/BzModify.v ===== *)
(** * A structural modification keeps the map (bztree.cc, bztree_smos.cc)

    What a modification of a tree in memory leaves: some nodes replaced by new ones that
    hold the same records, and the word swung that led to them.  The new tree stands in
    memory, is ordered, and represents the same map. *)
From Stdlib Require Import ZArith Lia Ascii.
From stdpp Require Import base list gmap strings sorting.
From S2P Require Import Prelude Bytes Prog Status Hash Library Epoch Garbage Metrics Memory Descriptor MwCAS Entries Target Pool DList DListSpec BzNode BzTree BzBytes BzNodeSpec BzSmo BzLeaf BzSupply BzPlace BzMap BzHeight BzOrder BzBuild BzWay BzSteps.
#[local] Open Scope Z_scope.
#[local] Open Scope machine_scope.
#[local] Open Scope prog_scope.

Section exchange.
Context {HM : Pmdk} (part : Z) (ds : list Z) (R : TOID) (u : Z).

(** An object of [n] bytes that an operation may point to: in the tree's pool, aligned,
    apart from the descriptors. *)
Record fine (n : Z) (t : TOID) : Prop := {
  fi_pool : pool_uuid_lo t = u;
  fi_off : plain (off t) /\ off t mod 8 = 0 /\ off t ∉ ds;
  fi_at : 0 < D_RW t /\ D_RW t mod 8 = 0;
  fi_apart a : D_RW t <= a < D_RW t + n -> ~ pool_cells part ds a
}.
Definition good (t : TOID) : Prop := fine BZTREE_NODE_SIZE t.

(** The metadata, at [md], and the root object that points to it. *)
Record meta (md : Z) (c : gmap Z Z) : Prop := {
  mt_oid : exists o, c !! root_metadata (D_RW R) = Some u /\ c !! (root_metadata (D_RW R) + 8) = Some o /\
    D_RW (MkTOID u o) = md /\ plain o /\ o ∉ ds;
  mt_epoch : is_Some (c !! md_global_epoch md);
  mt_root : 0 < D_RW R /\ D_RW R mod 8 = 0
}.

Lemma meta_same md c c' :
  (forall a, a ∈ [root_metadata (D_RW R); root_metadata (D_RW R) + 8; md_global_epoch md] -> c' !! a = c !! a) -> meta md c -> meta md c'.
Proof.
  intros Hs [(o & H1 & H2 & H3) H4 H5]. split; [|by rewrite Hs by set_solver|done]. exists o. by rewrite !Hs by set_solver.
Qed.

(** A tree in service: it stands in memory and is ordered. *)
Record sound (md : Z) (H : nat) (s : shape) (c : gmap Z Z) : Prop := {
  sd_rooted : rooted R md (top s) (Z.of_nat H) c;
  sd_stands : stands c H s;
  sd_apart : separate (nodes s);
  sd_good n : n ∈ nodes s -> good n;
  sd_words a : a ∈ tree_words R md -> ~ pool_cells part ds a /\ forall n, n ∈ nodes s -> ~ in_leaf n a;
  sd_layout : NoDup (tree_words R md) /\ md mod 8 = 0 /\ 0 < md;
  sd_order : ordered None None s;
  sd_meta : meta md c
}.

Lemma sound_clear md H s c : sound md H s c -> clear_tree part R ds md s.
Proof. intros [H1 H2 H3 H4 H5 _ _ _]. split; [done|done|]. intros n a Hn Ha. by apply (fi_apart _ _ (H4 n Hn)). Qed.

Lemma plain_fits v : plain v -> fits 64 v.
Proof. unfold plain, fits. lia. Qed.

Lemma top_in s : top s ∈ nodes s.
Proof. destruct s; by left. Qed.

Lemma stands_serves c h s : stands c h s -> good (top s) -> serves part ds c (top s) (top_sw s).
Proof.
  intros Hs [_ _ Hat Hap]. destruct (stands_top _ _ _ Hs) as [H1 H2]. split; [done|done| | |done|done].
  - destruct Hs as [node sw rs Hl|h node sw seps kids Hi _]; cbn.
    + destruct (leaf_small _ _ _ _ Hl), (leaf_deleted _ _ _ _ Hl). lia.
    + pose proof (in_room _ _ _ _ _ Hi). destruct (in_sw _ _ _ _ _ Hi) as (_ & _ & ->). node_lia.
  - destruct Hs as [node sw rs Hl|h node sw seps kids Hi _]; [apply Hl|apply Hi].
Qed.

(** ** The exchange of a subtree *)

(** The word that leads to a subtree. *)
Definition addr (md : Z) (l : option link) : Z := default (md_root_node md + 8) (hook l).

(** From [c] to [c'] the nodes [olds] have gone out of service and the nodes [news] are
    new; the word of [l] leads to [new]. *)
Record changed (md : Z) (l : option link) (new : TOID) (olds news : list TOID) (c c' : gmap Z Z) : Prop := {
  ch_apart : separate news;
  ch_new n : n ∈ news -> good n /\ forall a, in_leaf n a -> c !! a = None;
  ch_word : c' !! addr md l = Some (off new);
  ch_same a : ~ pool_cells part ds a -> (forall n, n ∈ olds ++ news -> ~ in_leaf n a) -> a <> addr md l -> c' !! a = c !! a
}.

(** Another root. *)
Lemma rooted_swung md root new h c c' :
  rooted R md root h c -> NoDup (tree_words R md) ->
  (forall a, a ∈ tree_words R md -> a <> md_root_node md + 8 -> c' !! a = c !! a) ->
  c' !! (md_root_node md + 8) = Some (off new) -> pool_uuid_lo new = pool_uuid_lo root -> rooted R md new h c'.
Proof.
  intros [(v & o & E1 & E2 & E3) (E4 & E5) E6] Hnd Hsame Hw Hu. unfold tree_words in *.
  assert (forall a, a ∈ [root_metadata (D_RW R); root_metadata (D_RW R) + 8; md_root_node md; md_height md] -> c' !! a = c !! a) as Hs.
  { intros a Ha. apply Hsame; [set_solver|]. intros ->.
    repeat (apply NoDup_cons in Hnd as [? Hnd]). set_solver. }
  split; [exists v, o|split; [|done]|]; rewrite ?Hs by set_solver; [done|by rewrite Hu|done].
Qed.

Section kept.
Context (key : bytes) (s : shape) (d : nat) (sub : shape) (l : option link) (rest : list TOID) (plug : shape -> shape).
Context (md : Z) (H h : nat) (c c' : gmap Z Z) (target : TOID) (olds news keep : list TOID).
Context (Hs : sound md H s c) (Hw : way anyhow key s d sub l rest plug).
Context (Hold : nodes sub ≡ₚ olds ++ keep).
Context (Hch : changed md l target olds news c c').

Lemma whole : nodes s ≡ₚ rest ++ olds ++ keep.
Proof. by rewrite (way_whole _ _ _ _ _ _ _ _ Hw), Hold. Qed.

(** A node that stays does not change, but for the word. *)
Lemma stays n a : n ∈ rest ++ keep -> in_leaf n a -> a <> addr md l -> c' !! a = c !! a.
Proof.
  intros Hn Ha Hne.
  assert (n ∈ nodes s) as Hin.
  { rewrite whole, !elem_of_app. apply elem_of_app in Hn. tauto. }
  apply (ch_same _ _ _ _ _ _ _ Hch); [by apply (fi_apart _ _ (sd_good _ _ _ _ Hs n Hin))| |done].
  intros o [Ho|Ho]%elem_of_app Hx.
  - pose proof (sd_apart _ _ _ _ Hs) as Hsep. rewrite whole in Hsep.
    apply separate_app in Hsep as (_ & Hsep & H1). apply separate_app in Hsep as (_ & _ & H2).
    apply elem_of_app in Hn as [Hn|Hn]; [by apply (H1 n o a Hn); [apply elem_of_app; left|..]|by apply (H2 o n a)].
  - destruct (ch_new _ _ _ _ _ _ _ Hch o Ho) as [Hg Hf].
    by apply (region_fresh c n o a); [eapply stands_region; [apply Hs|done]|apply (fi_at _ _ Hg)|..].
Qed.

Lemma addr_kept n a : n ∈ keep -> in_leaf n a -> a <> addr md l.
Proof.
  intros Hn Ha E. assert (n ∈ nodes sub) as Hsub by (rewrite Hold; apply elem_of_app; by right).
  unfold addr in E. destruct (hook l) as [x|] eqn:El; cbn in E.
  - eapply (hook_apart _ _ _ _ _ _ _ _ c H n a Hw); [apply Hs|apply Hs|done|done|]. by rewrite El, E.
  - assert (a ∈ tree_words R md) as Ht by (rewrite E; right; right; right; by left).
    destruct (sd_words _ _ _ _ Hs a Ht) as [_ Hno]. eapply (Hno n); [|done]. rewrite (way_whole _ _ _ _ _ _ _ _ Hw). apply elem_of_app. by right.
Qed.

(** A subtree that stays. *)
Lemma kept hx x : stands c hx x -> nodes x ⊆ keep -> stands c' hx x.
Proof.
  intros Hst Hsub. eapply stands_same; [exact Hst|]. intros n a Hn Ha.
  apply (stays n); [apply elem_of_app; by right; apply Hsub|done|by eapply addr_kept; [apply Hsub|]].
Qed.

Lemma words_mapped a : a ∈ tree_words R md -> is_Some (c !! a).
Proof.
  destruct (sd_rooted _ _ _ _ Hs) as [(v & o & E1 & E2 & _) (E3 & E4) E5]. unfold tree_words.
  rewrite !elem_of_cons, elem_of_nil. intros [->|[->|[->|[->|[->|[->|[]]]]]]]; try by eexists. apply (mt_epoch _ _ (sd_meta _ _ _ _ Hs)).
Qed.

(** The words above the root are in none of the nodes, and the swung word is one of them
    for the root only. *)
Lemma words_out a n : a ∈ tree_words R md -> n ∈ rest ++ olds ++ news ++ keep -> ~ in_leaf n a.
Proof.
  intros Ha Hn Hx. destruct (decide (n ∈ news)) as [Hnew|Hno].
  - destruct (ch_new _ _ _ _ _ _ _ Hch n Hnew) as [_ Hf]. destruct (words_mapped a Ha) as [v Hv]. by rewrite Hf in Hv.
  - destruct (sd_words _ _ _ _ Hs a Ha) as [_ Hout]. eapply (Hout n); [|done]. rewrite whole. rewrite !elem_of_app in *. tauto.
Qed.

Lemma words_addr a : a ∈ tree_words R md -> a = addr md l -> l = None /\ a = md_root_node md + 8.
Proof.
  intros Ha E. assert (forall lk, l = Some lk -> False) as Hno.
  { intros lk El. pose proof Hw as Hw'. rewrite El in Hw', E. cbn in E. subst a. apply (words_out _ (l_node lk) Ha).
    - apply elem_of_app. left. by eapply way_link_in.
    - eapply hook_in; [exact Hw'|apply Hs]. }
  destruct (hook l) as [x|] eqn:Eh.
  - apply fmap_Some in Eh as (lk & El & _). by apply Hno in El.
  - apply fmap_None in Eh. split; [done|]. by rewrite Eh in E.
Qed.

Lemma words_same a : a ∈ tree_words R md -> a <> addr md l -> c' !! a = c !! a.
Proof.
  intros Ha Hne. apply (ch_same _ _ _ _ _ _ _ Hch); [by apply (sd_words _ _ _ _ Hs)| |done].
  intros n Hn. apply words_out; [done|]. rewrite !elem_of_app in *. tauto.
Qed.

Lemma meta_kept : meta md c'.
Proof.
  eapply meta_same; [|apply Hs]. destruct (sd_layout _ _ _ _ Hs) as [Hnd _]. unfold tree_words in Hnd. rewrite !NoDup_cons in Hnd.
  intros a Ha. apply words_same; [unfold tree_words; set_solver|]. intros E. apply words_addr in E as [_ ->]; [|unfold tree_words; set_solver]. set_solver.
Qed.

Lemma separate_kept : separate (rest ++ news ++ keep).
Proof.
  pose proof (sd_apart _ _ _ _ Hs) as Hsep. rewrite whole in Hsep.
  apply separate_app in Hsep as (S1 & Hsep & S2). apply separate_app in Hsep as (_ & S3 & _).
  assert (forall a b x, a ∈ rest ++ keep -> b ∈ news -> in_leaf a x -> in_leaf b x -> False) as Hnew'.
  { intros a b x Ha Hb. destruct (ch_new _ _ _ _ _ _ _ Hch b Hb) as [Hgb Hfb].
    apply (region_fresh c); [|apply (fi_at _ _ Hgb)|done]. eapply stands_region; [apply Hs|].
    rewrite whole, !elem_of_app. apply elem_of_app in Ha. tauto. }
  apply separate_app. split; [done|]. split; [apply separate_app; split; [apply Hch|]; split; [done|]|].
  - intros a b x Ha Hb Hx Hy. eapply (Hnew' b a x); [apply elem_of_app; by right|done..].
  - intros a b x Ha [Hb|Hb]%elem_of_app Hx Hy; [eapply (Hnew' a b x); [apply elem_of_app; by left|done..]|].
    eapply (S2 a b x); [done|apply elem_of_app; by right|done..].
Qed.

Lemma exchanged new M :
  H = (d + h)%nat -> means s M -> top new = target -> nodes new ≡ₚ news ++ keep -> stands c' h new -> target ∈ news ->
  match l with Some lk => link_at (l_node lk) (l_sep lk) mod 8 = 0 | None => True end ->
  (forall kv, kv ∈ entries sub <-> kv ∈ entries new) -> (forall lo hi, ordered lo hi sub -> ordered lo hi new) ->
  sound md H (plug new) c' /\ means (plug new) M.
Proof.
  intros EH Hm Et Hnew Hst Htop Hal Hent Hord.
  destruct (ch_new _ _ _ _ _ _ _ Hch _ Htop) as [Hg Hfresh].
  assert (forall n, n ∈ rest -> n ∈ nodes s) as Hrest by (intros n Hn; rewrite whole; apply elem_of_app; by left).
  assert (stands c' H (plug new)) as Hst'.
  { rewrite EH. eapply way_swung; [exact Hw|rewrite <- EH; apply Hs|apply Hs|exact Hst| |].
    - destruct l as [lk|]; [|done]. rewrite Et. split; [done|]. split; [exact (ch_word _ _ _ _ _ _ _ Hch)|].
      split; [apply plain_fits, (fi_off _ _ Hg)|]. rewrite (fi_pool _ _ Hg). symmetry.
      apply (fi_pool BZTREE_NODE_SIZE), (sd_good _ _ _ _ Hs), Hrest. by eapply way_link_in.
    - intros n a Hn Ha Hne. apply (stays n); [apply elem_of_app; by left|done|]. unfold addr. intros ->.
      destruct (hook l) as [x|] eqn:El; cbn in *; [done|].
      destruct (sd_words _ _ _ _ Hs (md_root_node md + 8)) as [_ Hno]; [right; right; right; by left|]. by eapply Hno; [apply Hrest|]. }
  assert (ordered None None (plug new)) as Hord'.
  { destruct (way_ordered _ _ _ _ _ _ _ _ _ _ Hw (sd_order _ _ _ _ Hs)) as (lo & hi & H1 & H2). by apply H2, Hord. }
  assert (nodes (plug new) ≡ₚ rest ++ news ++ keep) as Hnodes by (by rewrite (way_nodes _ _ _ _ _ _ _ _ new Hw), Hnew).
  split.
  - split; try done.
    + pose proof words_same as Hsame. pose proof words_addr as Hwa. destruct l as [lk|].
      * rewrite (way_link_top _ _ _ _ _ _ _ _ new Hw) by (right; by inversion Hw).
        eapply rooted_same; [apply Hs|]. intros a Ha. apply Hsame; [done|]. by intros [? _]%Hwa.
      * inversion Hw; subst. eapply rooted_swung; [apply Hs|apply (sd_layout _ _ _ _ Hs)|exact Hsame|rewrite ?Et; exact (ch_word _ _ _ _ _ _ _ Hch)|].
        rewrite ?Et, (fi_pool _ _ Hg). symmetry. apply (fi_pool BZTREE_NODE_SIZE), (sd_good _ _ _ _ Hs), top_in.
    + rewrite Hnodes. apply separate_kept.
    + intros n. rewrite Hnodes, !elem_of_app. intros [Hn|[Hn|Hn]]; [by apply (sd_good _ _ _ _ Hs), Hrest|by apply (ch_new _ _ _ _ _ _ _ Hch)|].
      apply (sd_good _ _ _ _ Hs). rewrite whole, !elem_of_app. tauto.
    + intros a Ha. split; [by apply (sd_words _ _ _ _ Hs)|]. intros n. rewrite Hnodes. intros Hn. apply words_out; [done|].
      rewrite !elem_of_app in *. tauto.
    + apply (sd_layout _ _ _ _ Hs).
    + apply meta_kept.
  - eapply same_map; [exact Hm|eapply stands_readable, Hs|by eapply stands_readable|apply Hs|done|].
    intros kv. eapply way_entries; [exact Hw|apply Hent].
Qed.
End kept.

(** ** Freezing, building, swinging *)

(** The nodes [olds] have been frozen and the nodes [news] built. *)
Record built_on (olds news : list TOID) (c c2 : gmap Z Z) : Prop := {
  bo_apart : separate news;
  bo_new n : n ∈ news -> good n /\ forall a, in_leaf n a -> c !! a = None;
  bo_same a : ~ pool_cells part ds a -> (forall n, n ∈ olds ++ news -> ~ in_leaf n a) -> c2 !! a = c !! a
}.

Lemma built_grown olds news c c1 c2 :
  (forall n, n ∈ olds -> is_Some (c1 !! status_word (D_RW n))) ->
  (forall a, ~ pool_cells part ds a -> (forall n, n ∈ olds -> a <> status_word (D_RW n)) -> c1 !! a = c !! a) ->
  grown c1 c2 news -> Forall good news -> built_on olds news c c2.
Proof.
  intros Hst Hs Hg Hn. rewrite Forall_forall in Hn. split; [apply Hg| |].
  - intros n Hin. split; [by apply Hn|]. intros a Ha. pose proof (gr_fresh _ _ _ Hg n a Hin Ha) as Hf. rewrite <- Hs; [done| |].
    + by apply (fi_apart _ _ (Hn n Hin)).
    + intros o Ho ->. destruct (Hst o Ho) as [v Hv]. by rewrite Hf in Hv.
  - intros a Ha Hno. rewrite (gr_same _ _ _ Hg).
    + apply Hs; [done|]. intros n Hin ->. apply (Hno n); [apply elem_of_app; by left|apply status_in].
    + intros n Hin. apply Hno, elem_of_app. by right.
Qed.

Lemma built_changed md l new olds news c c2 c3 :
  built_on olds news c c2 -> c3 !! addr md l = Some (off new) ->
  (forall a, ~ pool_cells part ds a -> a <> addr md l -> c3 !! a = c2 !! a) -> changed md l new olds news c c3.
Proof. intros [B1 B2 B3] Hw Hs. split; [done|done|done|]. intros a Ha Hno Hne. rewrite Hs by done. by apply B3. Qed.

(** A frozen node can still be read. *)
Lemma frozen_has c c1 h x :
  stands c h x -> good (top x) -> c1 !! status_word (D_RW (top x)) = Some (sw_word (set_frozen true (top_sw x))) ->
  (forall a, in_leaf (top x) a -> a <> status_word (D_RW (top x)) -> c1 !! a = c !! a) ->
  node_has c1 (D_RW (top x)) (set_frozen true (top_sw x)) (recs_of x).
Proof.
  intros Hst Hg Hsw Hs. eapply stands_resw; [exact Hst|exact Hs|exact Hsw| |done].
  destruct (stands_top _ _ _ Hst) as [_ [A B C D]]. by split.
Qed.

(** The other nodes of the tree have not changed. *)
Lemma built_stays md H s c c2 olds news others n a :
  sound md H s c -> built_on olds news c c2 -> nodes s ≡ₚ olds ++ others -> n ∈ others -> in_leaf n a -> c2 !! a = c !! a.
Proof.
  intros Hs HB Hn Hin Ha. assert (n ∈ nodes s) as Hns by (rewrite Hn; apply elem_of_app; by right).
  apply (bo_same _ _ _ _ HB); [by apply (fi_apart _ _ (sd_good _ _ _ _ Hs n Hns))|]. intros o [Ho|Ho]%elem_of_app Hx.
  - pose proof (sd_apart _ _ _ _ Hs) as Hsep. rewrite Hn in Hsep. apply separate_app in Hsep as (_ & _ & Hd). by apply (Hd o n a).
  - destruct (bo_new _ _ _ _ HB o Ho) as [Hg Hf].
    by apply (region_fresh c n o a); [eapply stands_region; [apply Hs|done]|apply (fi_at _ _ Hg)|..].
Qed.
End exchange.
