(* ===== verification/BzChild.v ===== *)
(** * Modifications of a child (bztree.cc)

    [child_compact], [child_split] and [child_merge], run alone where they are due: each
    leaves a sound tree that represents the same map. *)
From Stdlib Require Import ZArith Lia Ascii.
From stdpp Require Import base list gmap strings sorting.
From S2P Require Import Prelude Bytes Prog Status Hash Library Epoch Garbage Metrics Memory Descriptor MwCAS Entries Target Pool DList DListSpec BzNode BzTree BzBytes BzNodeSpec BzSmo BzLeaf BzSupply BzPlace BzMap BzHeight BzOrder BzBuild BzParent BzWay BzSteps BzModify.
#[local] Open Scope Z_scope.
#[local] Open Scope machine_scope.
#[local] Open Scope prog_scope.

Section child.
Context {HP : Platform} {HL : PlatformLaws} {HM : Pmdk} {HP' : PmdkLaws} (me : Z) (fuel : nat) (fuel_big : (30 < fuel)%nat) (depth : nat).
Context (t : BzTree) (m g part : Z) (k sz i : nat) (own : nat) (own_ne : epoch t <> m).
Context (kt szt : nat) (garbage_ne : garbage t <> g) (R : TOID) (u : Z).

(** The allocator serves objects of these sizes, whatever is in the pool's words. *)
Definition supplied (ds : list Z) (sizes : list Z) (c : gmap Z Z) : Prop := served (pool_cells part ds) (fine part ds u) sizes c.

Lemma pool_tail ds n a : pool_cells part (drop n ds) a -> pool_cells part ds a.
Proof.
  intros [H|[H|(x & Hx & H)]]; [by left|right; by left|]. right; right. exists x. split; [by eapply in_drop|done].
Qed.

Lemma fine_tail ds k0 n x : fine part ds u k0 x -> fine part (drop n ds) u k0 x.
Proof.
  intros [H1 (H2 & H3 & H4) H5 H6]. split; [done| |done|].
  - split_and!; [done|done|]. intros H. by apply H4, (in_drop n).
  - intros a Ha Hp. by apply (H6 a Ha), (pool_tail _ n).
Qed.

Lemma sound_tail ds n md H s c : sound part ds R u md H s c -> sound part (drop n ds) R u md H s c.
Proof.
  intros [H1 H2 H3 H4 H5 H6 H7 [(o & M1 & M2 & M3 & M4 & M5) M6 M7]]. split; try done.
  - intros x Hx. by apply fine_tail, H4.
  - intros a Ha. destruct (H5 a Ha) as [Hp Hn]. split; [|done]. intros Hq. by apply Hp, (pool_tail _ n).
  - split; [|done|done]. exists o. split_and!; try done. intros Hin. by apply M5, (in_drop n).
Qed.

Lemma supplied_tail ds n sizes c c' : supplied ds sizes c -> alike (pool_cells part ds) c c' -> supplied (drop n ds) sizes c'.
Proof.
  intros Hs Ha. eapply served_smaller; [intros a; apply pool_tail|intros ? x; apply fine_tail|]. by eapply served_alike.
Qed.

Lemma ready_grown r D n en gl e c1 c2 news :
  ready me t m g part k sz i own kt szt r (drop n D) en gl e c1 -> grown c1 c2 news -> Forall (good part D u) news ->
  ready me t m g part k sz i own kt szt r (drop n D) en gl e c2.
Proof.
  intros Hr Hg Hn. eapply ready_same; [|exact Hr]. intros a Ha. apply (gr_same _ _ _ Hg). intros x Hx Hin.
  rewrite Forall_forall in Hn. by apply (fi_apart _ _ _ _ _ (Hn x Hx) a Hin), (pool_tail _ n).
Qed.

(** ** Swinging the pointer to a subtree *)

Lemma link_holder D md H s c key d sub lk rest plug : sound part D R u md H s c -> way anyhow key s d sub (Some lk) rest plug ->
  good part D u (l_node lk) /\ exists h seps kids j kid, stands c h (Inner (l_node lk) (l_sw lk) seps kids) /\
  inner c (l_node lk) (l_sw lk) seps kids /\ seps !! j = Some (l_sep lk) /\ kids !! j = Some kid /\ top kid = top sub.
Proof.
  intros Hs Hw. split.
  - apply (sd_good _ _ _ _ _ _ _ _ Hs). rewrite (way_whole _ _ _ _ _ _ _ _ Hw). apply elem_of_app. left. by eapply way_link_in.
  - inversion Hw as [|d' node sw seps kids kid x l rest' plug' Hw' Hk Hx]; subst.
    destruct (way_stands _ _ _ _ _ _ _ _ _ _ Hw' (sd_stands _ _ _ _ _ _ _ _ Hs)) as (h & _ & Hst).
    exists h, seps, kids, (slot (s_key <$> seps) key), sub. split; [done|]. by inversion Hst.
Qed.

Section swing.
Context (D : list Z) (key : bytes) (s : shape) (md : Z) (H : nat) (d : nat) (sub : shape) (lk : option link) (rest : list TOID)
  (plug : shape -> shape) (c c2 : gmap Z Z) (olds news keep : list TOID).
Context (Hs : sound part D R u md H s c) (Hw : way anyhow key s d sub lk rest plug) (Hold : nodes sub ≡ₚ olds ++ keep).
Context (B : built_on part D u olds news c c2).
Context (Hal : match lk with Some lk => link_at (l_node lk) (l_sep lk) mod 8 = 0 | None => True end).

Lemma others_same n a : n ∈ rest ++ keep -> in_leaf n a -> c2 !! a = c !! a.
Proof.
  eapply built_stays; [exact Hs|exact B|]. rewrite (way_whole _ _ _ _ _ _ _ _ Hw), Hold. apply Permutation_app_swap_app.
Qed.

(** The word is where it should be. *)
Lemma addr_word : c !! addr md lk = Some (off (top sub)) /\ addr md lk mod 8 = 0 /\ addr md lk <> 0 /\ ~ pool_cells part D (addr md lk).
Proof.
  destruct lk as [lk0|]; unfold addr; cbn [hook fmap option_fmap option_map default from_option]; unfold id.
  - destruct (link_holder _ _ _ _ _ _ _ _ _ _ _ Hs Hw) as (Hg & h & seps & kids & j & kid & Hst & Hi & Hx & Hk & Et).
    pose proof (link_in _ _ _ _ _ _ _ Hi Hx) as [Hin _]. pose proof (fi_at _ _ _ _ _ Hg) as [Hpos _].
    split; [|split; [done|split; [unfold in_leaf in Hin; lia|by apply (fi_apart _ _ _ _ _ Hg)]]].
    rewrite <- Et. by eapply link_word.
  - inversion Hw; subst. destruct (sd_rooted _ _ _ _ _ _ _ _ Hs) as [_ (_ & E) _]. destruct (sd_layout _ _ _ _ _ _ _ _ Hs) as (_ & Hm8 & Hpos).
    unfold md_root_node in *. split; [done|]. split; [by rewrite <- Z.add_mod_idemp_l, Hm8|]. split; [lia|].
    apply (sd_words _ _ _ _ _ _ _ _ Hs). right; right; right; by left.
Qed.

(** It is in no node that is gone or new. *)
Lemma addr_apart n : n ∈ olds ++ news -> in_leaf n (addr md lk) -> False.
Proof.
  destruct addr_word as (Hc & _ & _). intros [Hn|Hn]%elem_of_app Ha.
  - assert (n ∈ nodes sub) as Hsub by (rewrite Hold; apply elem_of_app; by left). unfold addr in *. destruct (hook lk) as [a|] eqn:E; cbn in *.
    + eapply hook_apart; [exact Hw|apply Hs|apply Hs|exact Hsub|exact Ha|done].
    + eapply (sd_words _ _ _ _ _ _ _ _ Hs (md_root_node md + 8)); [right; right; right; by left| |exact Ha].
      rewrite (way_whole _ _ _ _ _ _ _ _ Hw). apply elem_of_app. by right.
  - destruct (bo_new _ _ _ _ _ _ _ B n Hn) as [_ Hf]. by rewrite Hf in Hc.
Qed.

Lemma ev_swing r d2 ds n0 en gl e mm new :
  drop n0 D = d2 :: ds -> ready me t m g part k sz i own kt szt r (d2 :: ds) en gl e c2 -> metrics_ok me mm -> new ∈ news ->
  exists gl' e' c3 mm', metrics_ok me mm' /\
    ev (swap_node me fuel (S depth) t (l_node <$> lk) (addr md lk) (top sub) new) (St gl e c2 mm) true (St gl' e' c3 mm') /\
    ready me t m g part k sz i own kt szt r ds en gl' e' c3 /\ changed part D u md lk new olds news c c3 /\
    (forall n kvs, n ∈ news -> fits_node kvs -> new_node c2 n kvs -> fresh_node c3 (D_RW n) kvs) /\
    alike (pool_cells part D) c2 c3.
Proof.
  intros Ed Hr Hm Hnew. destruct addr_word as (Hc & Ha8 & Ha0 & Hap).
  destruct (bo_new _ _ _ _ _ _ _ B new Hnew) as [Gnew _].
  assert (good part D u (top sub)) as Gsub.
  { apply (sd_good _ _ _ _ _ _ _ _ Hs). rewrite (way_whole _ _ _ _ _ _ _ _ Hw). apply elem_of_app. right. apply top_in. }
  assert (c2 !! addr md lk = Some (off (top sub))) as Hc2.
  { rewrite (bo_same _ _ _ _ _ _ _ B); [done|done|]. intros n Hn Ha. by eapply addr_apart. }
  assert (forall a, ~ pool_cells part D a -> ~ pool_cells part (d2 :: ds) a) as Hpool.
  { intros a Hn Hp. apply Hn, (pool_tail _ n0). by rewrite Ed. }
  destruct (ev_swap_node me fuel fuel_big depth t m g part k sz i own own_ne kt szt garbage_ne r ds d2 en gl e c2 mm
    ((fun lk => (l_node lk, l_sw lk)) <$> lk) (addr md lk) (top sub) new) as (gl' & e' & c3 & mm' & Hm' & Ev & Hr' & Hw3 & Hs3).
  - done.
  - done.
  - pose proof others_same as Hother.
    destruct lk as [lk0|]; [|done]. destruct (link_holder _ _ _ _ _ _ _ _ _ _ _ Hs Hw) as (Hg & h & seps & kids & j & kid & Hst & Hi & Hx & Hk & Et).
    pose proof (way_link_in _ _ _ _ _ _ _ _ Hw) as Hin.
    pose proof (stands_serves part D u _ _ _ Hst Hg) as [V1 V2 V3 V4 V5 V6]. cbn [top top_sw] in *. split.
    + split; try done.
      * rewrite (Hother (l_node lk0)); [done|apply elem_of_app; by left|apply status_in].
      * intros a Ha. by apply Hpool, V6.
    + destruct (inner_rec _ _ _ _ _ _ _ _ Hi Hx Hk) as (_ & Bx & _ & _ & Kx & _). pose proof (ok_offset _ Bx) as [Ho _].
      change (addr md (Some lk0)) with (link_at (l_node lk0) (l_sep lk0)). unfold link_at. node_lia.
  - done.
  - done.
  - done.
  - apply (fi_off _ _ _ _ _ Gsub).
  - apply (fi_off _ _ _ _ _ Gnew).
  - intros Hin. rewrite <- Ed in Hin. by apply (fi_off _ _ _ _ _ Gsub), (in_drop n0).
  - by apply Hpool.
  - exists gl', e', c3, mm'. split; [done|]. split; [|split; [done|split; [|split]]].
    + by destruct lk.
    + eapply built_changed; [exact B|done|]. intros a Ha Hne. apply Hs3; [by apply Hpool|done].
    + intros n kvs Hn Hfit Hf. eapply fresh_node_same; [|exact Hfit|exact Hf]. intros a Ha.
      destruct (bo_new _ _ _ _ _ _ _ B n Hn) as [Hg _]. apply Hs3; [by apply Hpool, (fi_apart _ _ _ _ _ Hg)|].
      intros ->. eapply (addr_apart n); [apply elem_of_app; by right|done].
    + intros a Ha. destruct (decide (a = addr md lk)) as [->|Hne]; [rewrite Hc2, Hw3; split; by eexists|]. rewrite Hs3; [done|by apply Hpool|done].
Qed.
End swing.

(** ** Freezing *)

(** The nodes of [xs] are frozen, and can be read. *)
Lemma ev_freeze_nodes r d ds en gl e c mm (xs : list shape) :
  ready me t m g part k sz i own kt szt r (d :: ds) en gl e c -> metrics_ok me mm -> (length xs <= 4)%nat -> separate (top <$> xs) ->
  (forall x, x ∈ xs -> exists h, stands c h x /\ good part (d :: ds) u (top x)) ->
  exists gl' e' c1 mm', metrics_ok me mm' /\
    ev (desc_mwcas me fuel (S depth) t ((fun x => freeze_entry (status_word (D_RW (top x))) (top_sw x) (top_sw x)) <$> xs))
      (St gl e c mm) true (St gl' e' c1 mm') /\
    ready me t m g part k sz i own kt szt r ds en gl' e' c1 /\
    (forall x, x ∈ xs -> node_has c1 (D_RW (top x)) (set_frozen true (top_sw x)) (recs_of x)) /\
    (forall a, ~ pool_cells part (d :: ds) a -> (forall n, n ∈ top <$> xs -> a <> status_word (D_RW n)) -> c1 !! a = c !! a) /\
    (forall n, n ∈ top <$> xs -> is_Some (c1 !! status_word (D_RW n))) /\
    alike (pool_cells part (d :: ds)) c c1.
Proof.
  intros Hr Hm Hlen Hsep Hx.
  set (ys := (fun x => (top x, top_sw x)) <$> xs). assert (ys.*1 = top <$> xs) as Eys.
  { unfold ys. rewrite <- list_fmap_compose. done. }
  destruct (ev_freeze me fuel fuel_big depth t m g part k sz i own own_ne kt szt garbage_ne r ds d en gl e c mm ys)
    as (gl' & e' & c1 & mm' & Hm' & Ev & Hr' & Hf & Hs); [done|done|unfold ys; by rewrite length_fmap|by rewrite Eys| |].
  { intros y (x & -> & Hin)%list_elem_of_fmap. destruct (Hx x Hin) as (h & Hst & Hg). by eapply stands_serves. }
  rewrite Eys in Hs. assert (forall x, x ∈ xs -> c1 !! status_word (D_RW (top x)) = Some (sw_word (set_frozen true (top_sw x)))) as Hf'.
  { intros x Hin. apply (Hf (top x, top_sw x)). by apply (list_elem_of_fmap_2 (fun x => (top x, top_sw x))). }
  assert (forall n, n ∈ top <$> xs -> exists h x, n = top x /\ x ∈ xs /\ stands c h x /\ good part (d :: ds) u (top x)) as Hn.
  { intros n (x & -> & Hin)%list_elem_of_fmap. destruct (Hx x Hin) as (h & Hst & Hg). eauto 6. }
  exists gl', e', c1, mm'. split; [done|]. split; [by unfold ys in Ev; rewrite <- list_fmap_compose in Ev|]. split; [done|].
  split; [|split; [done|split]].
  - intros x Hin. destruct (Hx x Hin) as (h & Hst & Hg). eapply frozen_has; [exact Hst|exact Hg|by apply Hf'|].
    intros a Ha Hne. apply Hs; [by apply (fi_apart _ _ _ _ _ Hg)|]. intros n (y & -> & Hy)%list_elem_of_fmap.
    destruct (decide (top y = top x)) as [->|Hd]; [done|]. intros E.
    apply list_elem_of_lookup_1 in Hin as [i1 H1], Hy as [i2 H2]. eapply (separate_two (top <$> xs) i1 i2); [done| | | |exact Ha|].
    + by rewrite list_lookup_fmap, H1.
    + by rewrite list_lookup_fmap, H2.
    + intros ->. rewrite H1 in H2. injection H2 as ->. done.
    + rewrite E. apply status_in.
  - intros n Hin. destruct (Hn n Hin) as (h & x & -> & Hxs & _). rewrite Hf' by done. by eexists.
  - intros a Ha. destruct (decide (a ∈ (fun x => status_word (D_RW (top x))) <$> xs)) as [(x & -> & Hin)%list_elem_of_fmap|Hno].
    + rewrite Hf' by done. destruct (Hx x Hin) as (h & Hst & _). destruct (stands_top _ _ _ Hst) as [-> _]. split; by eexists.
    + rewrite Hs; [done|done|]. intros n (x & -> & Hin)%list_elem_of_fmap ->. apply Hno. by apply (list_elem_of_fmap_2 (fun x => status_word (D_RW (top x)))).
Qed.

(** A new node, made of what stayed and of other new nodes. *)
Lemma made_stands D c2 c3 (news : list TOID) h n ld :
  (forall (n : TOID) kvs, n ∈ news -> fits_node kvs -> new_node c2 n kvs -> fresh_node c3 (D_RW n) kvs) ->
  n ∈ news -> new_node c2 n (pairs ld) -> fits_node (pairs ld) -> load_readable ld -> good part D u n -> load_stands c3 u h ld ->
  stands c3 h (make n ld).
Proof. intros Hfr Hn Hnew Hfit Hr Hg Hl. eapply stands_make; [by apply Hfr|done|done|apply (fi_pool _ _ _ _ _ Hg)|done]. Qed.

Lemma made_kid D c2 c3 (news : list TOID) h n ld :
  (forall (n : TOID) kvs, n ∈ news -> fits_node kvs -> new_node c2 n kvs -> fresh_node c3 (D_RW n) kvs) ->
  n ∈ news -> new_node c2 n (pairs ld) -> fits_node (pairs ld) -> load_readable ld -> good part D u n -> load_stands c3 u h ld ->
  stands c3 h (make n ld) /\ pool_uuid_lo (top (make n ld)) = u /\ fits 64 (off (top (make n ld))).
Proof.
  intros Hfr Hn Hnew Hfit Hr Hg Hl. split; [by eapply made_stands|]. rewrite top_make.
  split; [apply (fi_pool _ _ _ _ _ Hg)|apply plain_fits, (fi_off _ _ _ _ _ Hg)].
Qed.

(** ** The place of a modification *)

Section due.
Context (ds : list Z) (d1 d2 : Z) (en : Entry) (gl : gmap Z GarbageList) (e : EpochWorld) (c : gmap Z Z) (mm : MetricsWorld).
Context (key : bytes) (s : shape) (md : Z) (H : nat) (d : nat) (P : TOID) (psw : NodeHeaderStatusWord) (seps : list sep)
  (kids : list shape) (lk : option link) (rest : list TOID) (plug : shape -> shape).
Context (Hm : metrics_ok me mm) (Hs : sound part (d1 :: d2 :: ds) R u md H s c).
Context (Hw : way anyhow key s d (Inner P psw seps kids) lk rest plug).

(** What the proofs use of the subtree and its children. *)
Record sub_ok (h : nat) (lo hi : option bytes) : Prop := {
  so_height : H = (d + S h)%nat;
  so_stands : stands c (S h) (Inner P psw seps kids);
  so_inner : inner c P psw seps kids;
  so_kid i x : kids !! i = Some x -> stands c h x /\ good part (d1 :: d2 :: ds) u (top x) /\ readable x;
  so_good : good part (d1 :: d2 :: ds) u P;
  so_apart : separate (P :: flat_map nodes kids);
  so_order : ordered lo hi (Inner P psw seps kids);
  so_length : length seps = length kids;
  so_forest : forest lo hi (keyed seps kids);
  so_keys x : x ∈ (keyed seps kids).*1 -> NUL ∉ x
}.

Lemma sub_sound : exists h lo hi, sub_ok h lo hi.
Proof.
  destruct (way_stands _ _ _ _ _ _ _ _ _ _ Hw (sd_stands _ _ _ _ _ _ _ _ Hs)) as (h' & EH & Hst).
  inversion Hst as [|h ? ? ? ? Hi Hkids]; subst h'. pose proof (way_whole _ _ _ _ _ _ _ _ Hw) as Hn.
  destruct (way_ordered _ _ _ _ _ _ _ _ _ _ Hw (sd_order _ _ _ _ _ _ _ _ Hs)) as (lo & hi & Hord & _).
  pose proof (proj1 (in_len _ _ _ _ _ Hi)) as Hl. exists h, lo, hi. split; try done.
  - intros i0 y Hy. pose proof (Hkids _ _ Hy) as Hsty. split; [done|]. split; [|by eapply stands_readable].
    apply (sd_good _ _ _ _ _ _ _ _ Hs). rewrite Hn. apply elem_of_app. right. right. apply elem_of_flat_map.
    exists y. split; [by eapply list_elem_of_lookup_2|apply top_in].
  - apply (sd_good _ _ _ _ _ _ _ _ Hs). rewrite Hn. apply elem_of_app. right. by left.
  - pose proof (sd_apart _ _ _ _ _ _ _ _ Hs) as Hsep. rewrite Hn in Hsep. by apply separate_app in Hsep as (_ & ? & _).
  - by inversion Hord.
  - intros y. rewrite keyed_keys by done. intros (q & -> & [i0 Hq]%list_elem_of_lookup_1)%list_elem_of_fmap. by eapply (in_sep _ _ _ _ _ Hi).
Qed.

Section sub.
Context (h : nat) (lo hi : option bytes) (Hsub : sub_ok h lo hi).

Lemma node_at t0 : 0 < D_RW t0 -> in_leaf t0 (D_RW t0).
Proof. clear fuel_big. unfold in_leaf, BZTREE_NODE_SIZE. lia. Qed.

Lemma kids_two i1 i2 a b : kids !! i1 = Some a -> kids !! i2 = Some b -> i1 <> i2 -> forall x, in_leaf (top a) x -> in_leaf (top b) x -> False.
Proof.
  intros H1 H2 Hne x Hx Hy. destruct (so_apart _ _ _ Hsub) as [_ Hsep]. eapply (separate_kids kids i1 i2); eauto using top_in.
Qed.

Lemma kid_parent i1 a x : kids !! i1 = Some a -> in_leaf P x -> in_leaf (top a) x -> False.
Proof.
  intros H1. destruct (so_apart _ _ _ Hsub) as [Hself _]. apply Hself. apply elem_of_flat_map. exists a.
  split; [by eapply list_elem_of_lookup_2|apply top_in].
Qed.

Lemma kids_readable x : x ∈ (keyed seps kids).*2 -> readable x.
Proof. rewrite (keyed_kids _ _ (so_length _ _ _ Hsub)). intros [i1 Hx]%list_elem_of_lookup_1. by eapply so_kid. Qed.

Lemma kid_index j kid : kids !! j = Some kid -> index_of (points_to (top kid)) (child_pair <$> keyed seps kids) = j.
Proof.
  intros Hj. destruct (lookup_lt_is_Some_2 seps j) as [x Hx].
  { rewrite (so_length _ _ _ Hsub). by eapply lookup_lt_Some. }
  apply (index_child _ _ (s_key x)); [by apply keyed_lookup| |].
  - intros y. rewrite (keyed_kids _ _ (so_length _ _ _ Hsub)). intros [i1 Hy]%list_elem_of_lookup_1.
    destruct (so_kid _ _ _ Hsub _ _ Hy) as (_ & Hg & _). destruct (fi_off _ _ _ _ _ Hg) as (H1 & H2 & _). split; [by apply plain_fits|done].
  - intros i1 k' y Hi Hy E. unfold keyed in Hy. apply lookup_zip_with_Some in Hy as (q1 & q2 & [= <- <-] & _ & Hy).
    destruct (so_kid _ _ _ Hsub _ _ Hy) as (_ & Hg & _), (so_kid _ _ _ Hsub _ _ Hj) as (_ & Hg' & _).
    assert (top y = top kid) as Et.
    { pose proof (fi_pool _ _ _ _ _ Hg) as U1. pose proof (fi_pool _ _ _ _ _ Hg') as U2. destruct (top y), (top kid). cbn in *. congruence. }
    eapply (kids_two i1 j y kid Hy Hj ltac:(lia) (D_RW (top kid))); rewrite ?Et; apply node_at, (fi_at _ _ _ _ _ Hg').
Qed.

(** A child's contents. *)
Record kid_ok (kid : shape) : Prop := {
  ko_stands : stands c h kid;
  ko_good : good part (d1 :: d2 :: ds) u (top kid);
  ko_readable : load_readable (load_of kid);
  ko_fits : fits_node (pairs (load_of kid));
  ko_pairs : merge_sort key_le (live (recs_of kid)) = pairs (load_of kid);
  ko_load : load_stands c u h (load_of kid);
  ko_length : match kid with Inner _ _ seps kids => length seps = length kids | _ => True end;
  ko_nodes : nodes kid = top kid :: beneath (load_of kid)
}.

Lemma kid_sound j kid : kids !! j = Some kid -> kid_ok kid.
Proof.
  intros Hj. destruct (so_kid _ _ _ Hsub _ _ Hj) as (Hst & Hg & Hr). destruct (lookup_lt_is_Some_2 seps j) as [x Hx].
  { rewrite (so_length _ _ _ Hsub). by eapply lookup_lt_Some. }
  destruct (exchange_ordered _ _ _ _ _ _ (so_forest _ _ _ Hsub) (keyed_lookup _ _ _ _ _ Hx Hj)) as (lo' & hi' & Ho & _).
  split; [done|done|by apply load_of_readable|by eapply pairs_fit| | | |by eapply nodes_load].
  - eapply in_order; [done|exact Ho|by eapply stands_visible].
  - rewrite <- (fi_pool _ _ _ _ _ Hg). by apply load_of_stands.
  - destruct Ho; done.
Qed.

Lemma parent_pairs : merge_sort key_le (live (recs_of (Inner P psw seps kids))) = child_pair <$> keyed seps kids.
Proof.
  change (child_pair <$> keyed seps kids) with (pairs (load_of (Inner P psw seps kids))).
  apply (in_order _ lo hi); [by eapply stands_readable, so_stands|apply (so_order _ _ _ Hsub)|exact (stands_visible _ _ _ (so_stands _ _ _ Hsub))].
Qed.

Lemma parent_frozen : frozen psw = false.
Proof. by destruct (in_sw _ _ _ _ _ (so_inner _ _ _ Hsub)) as (_ & ? & _). Qed.

Lemma short_recs x hx : stands c hx x -> (length (recs_of x) < fuel)%nat.
Proof. intros Hx. destruct (stands_has _ _ _ Hx) as (_ & ? & _). lia. Qed.

Lemma serves_kid j kid : kids !! j = Some kid -> serves part (d1 :: d2 :: ds) c (top kid) (top_sw kid).
Proof. intros Hj. destruct (so_kid _ _ _ Hsub _ _ Hj) as (Hst & Hg & _). by eapply stands_serves. Qed.

(** ** Compaction *)

Section compact.
Context (kid : shape) (x : sep).
Context (Hk : kids !! slot (s_key <$> seps) key = Some kid) (Hx : seps !! slot (s_key <$> seps) key = Some x).

Lemma ev_child_compact r sizes M kd :
  ready me t m g part k sz i own kt szt (S r) (d1 :: d2 :: ds) en gl e c -> supplied (d1 :: d2 :: ds) (replicate 1 BZTREE_NODE_SIZE ++ sizes) c -> means s M ->
  link_at P x mod 8 = 0 -> d_child kd = top kid -> d_off_ptr kd = link_at P x ->
  exists n gl' e' c' mm', let s' := plug (Inner P psw seps (<[slot (s_key <$> seps) key := make n (load_of kid)]> kids)) in
    ev (child_compact me fuel (S depth) t P psw kd) (St gl e c mm) tt (St gl' e' c' mm') /\ metrics_ok me mm' /\
    ready me t m g part k sz i own kt szt r ds en gl' e' c' /\ supplied ds sizes c' /\
    sound part ds R u md H s' c' /\ means s' M /\ good part ds u n.
Proof.
  intros Hr Hsup HM' Hal Ekid Eptr. set (j := slot (s_key <$> seps) key) in *. set (D := d1 :: d2 :: ds) in *.
  assert (way anyhow key s (S d) kid (Some (MkLink P psw x)) (rest ++ P :: flat_map nodes (delete j kids))
    (fun y => plug (Inner P psw seps (<[j := y]> kids)))) as Hwk by (by eapply way_down).
  destruct (kid_sound j kid Hk) as [HstK GK Kr Kfit Kpairs Kload Klen Knodes]. pose proof (serves_kid j kid Hk) as SK.
  (* freeze *)
  destruct (ev_freeze_nodes (S r) d1 (d2 :: ds) en gl e c mm [kid])
    as (gl1 & e1 & c1 & mm1 & Hm1 & Ev1 & Hr1 & Hn1 & Hs1 & Hf1 & Hd1); [done|done|simpl; lia| | |].
  { split; [|done]. by intros b y []%not_elem_of_nil. }
  { intros y ->%list_elem_of_singleton. by exists h. }
  specialize (Hn1 kid ltac:(by left)).
  (* compact *)
  destruct (mev_new_nodes (pairs (load_of kid)) c1 (pool_cells part D) (fine part D u) sizes) as (n & c2 & Ev2 & N2 & G2 & Gn & Hsup2); [by eapply served_alike|done|].
  pose proof (built_grown part D u [top kid] [n] c c1 c2 Hf1 Hs1 G2 (proj2 (Forall_singleton _ _) Gn)) as B.
  (* swing *)
  assert (nodes kid ≡ₚ [top kid] ++ beneath (load_of kid)) as Hold by (by rewrite Knodes).
  destruct (ev_swing D key s md H (S d) kid _ _ _ c c2 [top kid] [n] (beneath (load_of kid)) Hs Hwk Hold B Hal (S r) d2 ds 1 en gl1 e1 mm1 n)
    as (gl3 & e3 & c3 & mm3 & Hm3 & Ev3 & Hr3 & Hch & Hfr & Ha3); [done| |done|by left|].
  { eapply (ready_grown _ D 1); [exact Hr1|exact G2|by apply Forall_singleton]. }
  destruct (ev_push_garbage me fuel fuel_big t m g part k sz i own own_ne kt szt garbage_ne r ds en gl3 e3 c3 mm3 (D_RW (top kid)) Hr3)
    as (gl4 & e4 & Ev4 & Hr4).
  exists n, gl4, e4, c3, mm3. cbn zeta. split; [|split; [done|split; [done|split; [by apply (supplied_tail D 2 _ c2)|]]]].
  - unfold child_compact. rewrite Ekid, Eptr, parent_frozen. do 2 (eapply ev_bind; [by apply ev_mem; eapply serves_load|]).
    eapply ev_bind; [exact Ev1|]. cbn [negb]. eapply ev_bind.
    { apply ev_mem. unfold node_compact. eapply mev_bind; [|exact Ev2]. rewrite <- Kpairs. eapply mev_copy_out; [exact Hn1|by eapply short_recs]. }
    eapply ev_bind; [exact Ev3|]. exact Ev4.
  - destruct (exchanged part D R u key s (S d) kid _ _ _ md H h c c3 n [top kid] [n] (beneath (load_of kid)) Hs Hwk Hold Hch (make n (load_of kid)) M)
      as [Hs' Hmeans']; [pose proof (so_height _ _ _ Hsub); lia|done|apply top_make|by rewrite nodes_make| |by left|done| | |].
    + eapply made_stands; [exact Hfr|by left|done|done|done|done|]. eapply load_stands_mono; [exact Kload|].
      intros hx y Hy Hin. eapply (kept part D R u key s (S d) kid _ _ _ md H c c3 n [top kid] [n] (beneath (load_of kid))); done.
    + intros kv. rewrite entries_make. by rewrite entries_load.
    + intros lo' hi' Ho. by apply ordered_make, ordered_load.
    + split_and!; [by apply (sound_tail D 2)|done|by apply (fine_tail D _ 2)..].
Qed.
End compact.
(** The node above is not frozen. *)
Lemma ev_is_frozen e0 gl0 mm0 : ev (is_frozen (l_node <$> lk)) (St gl0 e0 c mm0) false (St gl0 e0 c mm0).
Proof.
  destruct lk as [lk0|]; cbn [fmap option_fmap option_map is_frozen]; [|apply ev_ret].
  destruct (link_holder _ _ _ _ _ _ _ _ _ _ _ Hs Hw) as (Hg & h0 & seps0 & kids0 & j0 & kid0 & Hst & _).
  pose proof (stands_serves part (d1 :: d2 :: ds) u _ _ _ Hst Hg) as Sv. cbn [top top_sw] in Sv.
  eapply ev_bind; [by apply ev_mem; eapply serves_load|]. rewrite (sr_live _ _ _ _ _ Sv). apply ev_ret.
Qed.

(** A kept subtree, in the state after a modification of the whole subtree. *)
Lemma kept_kid c3 target olds news keep i0 y :
  changed part (d1 :: d2 :: ds) u md lk target olds news c c3 -> nodes (Inner P psw seps kids) ≡ₚ olds ++ keep ->
  kids !! i0 = Some y -> nodes y ⊆ keep ->
  stands c3 h y /\ pool_uuid_lo (top y) = u /\ fits 64 (off (top y)).
Proof.
  intros Hch Hold Hy Hin. destruct (so_kid _ _ _ Hsub _ _ Hy) as (Hst & Hg & _).
  split; [|split; [apply (fi_pool _ _ _ _ _ Hg)|apply plain_fits, (fi_off _ _ _ _ _ Hg)]].
  eapply (kept part (d1 :: d2 :: ds) R u key s d (Inner P psw seps kids)); done.
Qed.

(** ** Splitting *)

Section split.
Context (kid : shape) (Hk : kids !! slot (s_key <$> seps) key = Some kid).
Context (Hal : match lk with Some lk => link_at (l_node lk) (l_sep lk) mod 8 = 0 | None => True end).

(** What stays of the subtree. *)
Abbreviation spot := (slot (s_key <$> seps) key).
Definition split_keep : list TOID := beneath (load_of kid) ++ flat_map nodes (delete spot kids).

Lemma split_old : nodes (Inner P psw seps kids) ≡ₚ [top kid; P] ++ split_keep.
Proof.
  destruct (kid_sound spot kid Hk) as [_ _ _ _ _ _ _ Knodes]. cbn [nodes].
  rewrite (flat_map_delete_perm nodes kids spot kid), Knodes by done. unfold split_keep. solve_Permutation.
Qed.

Section parts.
Context (x : sep) (Hx : seps !! spot = Some x) (Hlen : (2 < length (pairs (load_of kid)))%nat)
  (Htot : total_key_len (pairs (load_of kid)) < 2 * total_key_len (removelast (pairs (load_of kid)))).
Abbreviation kvs := (pairs (load_of kid)).
Abbreviation children := (children_split (keyed seps kids) spot kid (BzSmo.sep_of (pairs (load_of kid)))).
Context (Hroom : forall a b, fits_node (child_pair <$> children a b)) (Htight : drop (S spot) (keyed seps kids) <> [] -> tight kid).

(** The subtree that a split leaves is sound. *)
Lemma split_sound p a b c2 c3 M :
  changed part (d1 :: d2 :: ds) u md lk p [top kid; P] [a; b; p] c c3 ->
  (forall (n : TOID) kvs, n ∈ [a; b; p] -> fits_node kvs -> new_node c2 n kvs -> fresh_node c3 (D_RW n) kvs) ->
  new_node c2 a (take (BzSmo.sep_of kvs) kvs) -> new_node c2 b (drop (BzSmo.sep_of kvs) kvs) -> new_node c2 p (child_pair <$> children a b) ->
  means s M -> sound part (d1 :: d2 :: ds) R u md H (plug (make p (Children (children a b)))) c3 /\ means (plug (make p (Children (children a b)))) M.
Proof.
  intros Hch Hfr Na Nb Np HM'. set (D := d1 :: d2 :: ds) in *. set (sub := Inner P psw seps kids) in *.
  destruct (kid_sound spot kid Hk) as [HstK GK Kr Kfit Kpairs Kload Klen Knodes]. pose proof (so_length _ _ _ Hsub) as Hl.
  pose proof (keyed_lookup _ _ _ _ _ Hx Hk) as Hkey. pose proof split_old as Hold. fold sub in Hold.
  assert (0 < BzSmo.sep_of kvs < length kvs)%nat as Hcut by (by apply sep_of_bounds).
  pose proof (fun n Hn => proj1 (ch_new _ _ _ _ _ _ _ _ _ _ Hch n Hn)) as Hg.
  pose proof (Hg a ltac:(by left)) as Ga. pose proof (Hg b ltac:(by right; left)) as Gb.
  assert (load_stands c3 u h (load_of kid)) as Kload3.
  { eapply load_stands_mono; [exact Kload|]. intros hx y Hy Hin.
    eapply (kept part D R u key s d sub lk rest plug md H c c3 p [top kid; P] [a; b; p] split_keep); try done.
    intros q Hq. apply elem_of_app. left. by apply Hin. }
  destruct (load_stands_take c3 u h (BzSmo.sep_of kvs) (load_of kid) Hcut Kload3) as [Kt Kd].
  assert (fits_node (pairs (load_take (BzSmo.sep_of kvs) (load_of kid))) /\ fits_node (pairs (load_drop (BzSmo.sep_of kvs) (load_of kid)))) as [Ft Fd].
  { apply fits_app. by rewrite pairs_take, pairs_drop, take_drop. }
  rewrite <- pairs_take in Na. rewrite <- pairs_drop in Nb.
  apply (exchanged part D R u key s d sub lk rest plug md H (S h) c c3 p [top kid; P] [a; b; p] split_keep Hs Hw Hold Hch (make p (Children (children a b))) M);
    [apply (so_height _ _ _ Hsub)|done|apply top_make| | |by right; right; left|done| |].
  - rewrite nodes_make, split_nodes, delete_keyed by done. unfold split_keep. solve_Permutation.
  - eapply made_stands; [exact Hfr|by right; right; left|exact Np|apply Hroom| |by apply Hg; right; right; left|].
    { apply (split_readable _ _ kid); [done|done|apply (so_keys _ _ _ Hsub)|apply kids_readable]. }
    split; [by unfold children_split, split_children; intros [_ ?]%app_eq_nil|]. exists h. split; [done|].
    intros y Hy. apply split_in in Hy as [->|[->|Hy]]; [| | |done].
    + eapply made_kid; [exact Hfr|by left|exact Na|done|by apply load_take_readable|done|done].
    + eapply made_kid; [exact Hfr|by right; left|exact Nb|done|by apply load_drop_readable|done|done].
    + rewrite delete_keyed in Hy by done. apply list_elem_of_lookup_1 in Hy as [i1 Hy]. destruct (lookup_delete_kid _ _ _ _ Hy) as [i2 Hy2].
      eapply (kept_kid c3 p [top kid; P] [a; b; p] split_keep i2 y); [done|done|done|]. intros q Hq. apply elem_of_app. right.
      apply elem_of_flat_map. exists y. split; [by eapply list_elem_of_lookup_2|done].
  - intros kv. cbn [sub entries make]. rewrite <- (keyed_kids seps kids Hl) at 1. by eapply split_below.
  - intros lo' hi' Ho. apply ordered_make. constructor. inversion Ho; subst. by eapply split_ordered; [|exact Hkey|apply (so_kid _ _ _ Hsub _ _ Hk)|..].
Qed.

Lemma ev_child_split r sizes M kd :
  ready me t m g part k sz i own kt szt (S (S r)) (d1 :: d2 :: ds) en gl e c ->
  supplied (d1 :: d2 :: ds) (replicate 3 BZTREE_NODE_SIZE ++ sizes) c -> means s M -> d_child kd = top kid ->
  exists p a b gl' e' c' mm', let s' := plug (make p (Children (children a b))) in
    ev (child_split me fuel (S depth) t (l_node <$> lk) (addr md lk) P psw kd) (St gl e c mm) tt (St gl' e' c' mm') /\ metrics_ok me mm' /\
    ready me t m g part k sz i own kt szt r ds en gl' e' c' /\ supplied ds sizes c' /\
    sound part ds R u md H s' c' /\ means s' M /\ good part ds u p /\ good part ds u a /\ good part ds u b.
Proof.
  intros Hr Hsup HM' Ekid. set (D := d1 :: d2 :: ds) in *. set (sub := Inner P psw seps kids) in *.
  destruct (kid_sound spot kid Hk) as [HstK GK Kr Kfit Kpairs Kload Klen Knodes]. pose proof (serves_kid spot kid Hk) as SK.
  pose proof (keyed_lookup _ _ _ _ _ Hx Hk) as Hkey. pose proof (kid_index spot kid Hk) as Hidx.
  assert (0 < BzSmo.sep_of kvs < length kvs)%nat as Hcut by (by apply sep_of_bounds).
  (* freeze *)
  destruct (ev_freeze_nodes (S (S r)) d1 (d2 :: ds) en gl e c mm [kid; sub])
    as (gl1 & e1 & c1 & mm1 & Hm1 & Ev1 & Hr1 & Hn1 & Hs1 & Hf1 & Hd1); [done|done|simpl; lia| | |].
  { split; [|split; [by intros b y []%not_elem_of_nil|done]]. intros b y ->%list_elem_of_singleton Ha Hb. by eapply (kid_parent spot kid). }
  { intros y [->|[->|[]%not_elem_of_nil]%elem_of_cons]%elem_of_cons; [by exists h|].
    exists (S h). split; [apply (so_stands _ _ _ Hsub)|apply (so_good _ _ _ Hsub)]. }
  pose proof (Hn1 kid ltac:(by left)) as HnK. pose proof (Hn1 sub ltac:(by right; left)) as HnP. cbn [top top_sw sub] in HnP.
  (* split *)
  destruct (mev_node_split fuel (pool_cells part D) (fine part D u) sizes c1 (Some P) (Some (child_pair <$> keyed seps kids)) (top kid) _ _ HnK)
    as (_ & _ & c2 & p & a & b & Ev2 & G2 & Na & Nb & Np & Gn & Hsup2);
    [by eapply short_recs|by apply (stands_has _ _ _ HstK)| |by eapply served_alike|by rewrite Kpairs|by rewrite Kpairs| |].
  { split.
    - eexists _, _. split; [exact HnP|]. split; [by eapply short_recs, so_stands|]. symmetry. apply parent_pairs.
    - rewrite Hidx, length_fmap. by eapply lookup_lt_Some. }
  { intros a b. rewrite Kpairs. erewrite split_pairs; [apply Hroom|done|done|done]. }
  rewrite Kpairs in Na, Nb, Np. erewrite split_pairs in Np; [|done..].
  pose proof (built_grown part D u [top kid; P] [a; b; p] c c1 c2 Hf1 Hs1 G2 Gn) as B.
  (* swing *)
  destruct (ev_swing D key s md H d sub lk rest plug c c2 [top kid; P] [a; b; p] split_keep Hs Hw split_old B Hal (S (S r)) d2 ds 1 en gl1 e1 mm1 p)
    as (gl3 & e3 & c3 & mm3 & Hm3 & Ev3 & Hr3 & Hch & Hfr & Ha3); [done| |done|by right; right; left|].
  { eapply (ready_grown _ D 1); [exact Hr1|exact G2|exact Gn]. }
  destruct (ev_push_garbage me fuel fuel_big t m g part k sz i own own_ne kt szt garbage_ne (S r) ds en gl3 e3 c3 mm3 (D_RW (top kid)) Hr3)
    as (gl4 & e4 & Ev4 & Hr4).
  destruct (ev_push_garbage me fuel fuel_big t m g part k sz i own own_ne kt szt garbage_ne r ds en gl4 e4 c3 mm3 (D_RW P) Hr4)
    as (gl5 & e5 & Ev5 & Hr5).
  destruct (split_sound p a b c2 c3 M Hch Hfr Na Nb Np HM') as [Hs' Hmeans']. rewrite !Forall_cons in Gn. destruct Gn as (Ga & Gb & Gp & _).
  exists p, a, b, gl5, e5, c3, mm3. cbn zeta. split; [|split; [done|split; [done|split; [by apply (supplied_tail D 2 _ c2)|]]]].
  - unfold child_split. rewrite Ekid, parent_frozen. eapply ev_bind; [apply ev_is_frozen|]. cbn match.
    do 2 (eapply ev_bind; [by apply ev_mem; eapply serves_load|]). eapply ev_bind; [exact Ev1|]. cbn [negb].
    eapply ev_bind; [by apply ev_mem|]. cbn match. eapply ev_bind; [exact Ev3|]. cbn match. eapply ev_bind; [exact Ev4|exact Ev5].
  - split_and!; [by apply (sound_tail D 2)|done|by apply (fine_tail D _ 2)..].
Qed.
End parts.
End split.

(** ** Merging *)

Section merge.
Context (i0 : nat) (a b : shape) (x2 : sep) (Ha : kids !! i0 = Some a) (Hb : kids !! S i0 = Some b) (Hx2 : seps !! S i0 = Some x2).
Context (Hal : match lk with Some lk => link_at (l_node lk) (l_sep lk) mod 8 = 0 | None => True end).

Lemma kids_same_kind : same_kind (load_of a) (load_of b).
Proof.
  destruct (so_kid _ _ _ Hsub _ _ Ha) as (Sa & _), (so_kid _ _ _ Hsub _ _ Hb) as (Sb & _).
  apply stands_height in Sa, Sb. destruct a, b; cbn; try done; lia.
Qed.

(** Two nodes with the free space that a merge asks for fit into one. *)
Lemma free_fits c0 h0 y lo' hi' : stands c0 h0 y -> ordered lo' hi' y ->
  sizeof_NodeMetadata * Z.of_nat (length (pairs (load_of y))) + data_len (pairs (load_of y)) <= sizeof_body - free_of (top_sw y) /\
  0 <= free_of (top_sw y) <= sizeof_body.
Proof.
  intros Hy Ho. destruct (stands_used _ _ _ Hy) as (H1 & H2 & _). pose proof (proj2 (stands_top _ _ _ Hy)) as [_ [Hr _] [Hbk _] _].
  assert (free_of (top_sw y) = sizeof_body - (sizeof_NodeMetadata * record_count (top_sw y) + block_size (top_sw y))) as ->.
  { unfold free_of, free_bytes. rewrite u32_id; [unfold sizeof_body; lia|]. unfold fits. node_lia. }
  split; [|node_lia].
  rewrite <- (in_order y lo' hi'); [|by eapply stands_readable|done|by eapply stands_visible].
  rewrite (Permutation_length (merge_sort_Permutation key_le (live (recs_of y)))).
  rewrite (data_len_perm _ _ (merge_sort_Permutation key_le (live (recs_of y)))). unfold used in H1. lia.
Qed.

Lemma merged_fits k1 k2 n : keyed seps kids !! i0 = Some (k1, a) -> keyed seps kids !! S i0 = Some (k2, b) ->
  fits_node (child_pair <$> children_merged (keyed seps kids) i0 a k2 b n).
Proof.
  intros H1 H2.
  assert (fits_node (child_pair <$> keyed seps kids)) as Hf.
  { change (child_pair <$> keyed seps kids) with (pairs (load_of (Inner P psw seps kids))). eapply pairs_fit; apply Hsub. }
  rewrite <- (take_drop_middle _ _ _ H1) in Hf. rewrite (drop_S _ _ _ H2) in Hf.
  unfold children_merged, merge_children, fits_node in *. rewrite !length_fmap, !length_app, !fmap_app, !data_len_app in *.
  cbn [fmap list_fmap data_len foldr length] in *. fold (data_len (child_pair <$> drop (S (S i0)) (keyed seps kids))) in *.
  assert (pair_len (child_pair (k2, joined a b n)) = pair_len (child_pair (k2, b))) as E.
  { unfold pair_len, child_pair, off_bytes. cbn [fst snd]. by rewrite !length_le_bytes. }
  pose proof (pair_len_child (k1, a)). change (k2, joined a b n) with ((k2, joined a b n) : bytes * shape). rewrite E.
  unfold sizeof_NodeMetadata in *. lia.
Qed.

(** What stays of the subtree. *)
Definition merge_keep : list TOID := (beneath (load_of a) ++ beneath (load_of b)) ++ flat_map nodes (delete i0 (delete (S i0) kids)).

Lemma merge_old : nodes (Inner P psw seps kids) ≡ₚ [top a; top b; P] ++ merge_keep.
Proof.
  destruct (kid_sound i0 a Ha) as [_ _ _ _ _ _ _ NA], (kid_sound (S i0) b Hb) as [_ _ _ _ _ _ _ NB]. cbn [nodes].
  rewrite (flat_map_delete_perm nodes kids (S i0) b), (flat_map_delete_perm nodes (delete (S i0) kids) i0 a), NA, NB
    by (done || by rewrite list_lookup_delete_lt by lia). unfold merge_keep. solve_Permutation.
Qed.

Lemma merge_fits : BZTREE_MIN_FREE_SPACE + BZTREE_NODE_SIZE <= free_of (top_sw a) + free_of (top_sw b) ->
  fits_node (pairs (load_app (load_of a) (load_of b))) /\ load_readable (load_app (load_of a) (load_of b)) /\
  u32 (free_of (top_sw a) + free_of (top_sw b)) = free_of (top_sw a) + free_of (top_sw b).
Proof.
  intros Hfree. destruct (kid_sound i0 a Ha) as [SA GA RA FA PA LA ELA NA], (kid_sound (S i0) b Hb) as [SB GB RB FB PB LB ELB NB].
  destruct (lookup_lt_is_Some_2 seps i0) as [x1 Hx1]; [rewrite (so_length _ _ _ Hsub); by eapply lookup_lt_Some|].
  destruct (forest_neighbours _ _ _ _ _ _ _ _ (so_forest _ _ _ Hsub) (keyed_lookup _ _ _ _ _ Hx1 Ha) (keyed_lookup _ _ _ _ _ Hx2 Hb))
    as (lo1 & hi2 & OA & OB).
  destruct (free_fits _ _ _ _ _ SA OA) as [UA BA]. destruct (free_fits _ _ _ _ _ SB OB) as [UB BB]. split; [|split].
  - rewrite (pairs_app _ _ kids_same_kind). unfold fits_node. rewrite length_app, data_len_app, Nat2Z.inj_add. clear -UA UB Hfree.
    unfold BZTREE_MIN_FREE_SPACE, sizeof_NodeMetadata in *. node_lia.
  - eapply load_app_readable; [exact kids_same_kind|by apply ordered_load|by apply ordered_load|done|done].
  - apply u32_id. unfold fits. node_lia.
Qed.

(** The subtree that a merge leaves is sound. *)
Lemma merge_sound p n c2 c3 M :
  changed part (d1 :: d2 :: ds) u md lk p [top a; top b; P] [n; p] c c3 ->
  (forall (n0 : TOID) kvs, n0 ∈ [n; p] -> fits_node kvs -> new_node c2 n0 kvs -> fresh_node c3 (D_RW n0) kvs) ->
  new_node c2 n (pairs (load_app (load_of a) (load_of b))) -> new_node c2 p (child_pair <$> children_merged (keyed seps kids) i0 a (s_key x2) b n) ->
  fits_node (pairs (load_app (load_of a) (load_of b))) -> load_readable (load_app (load_of a) (load_of b)) -> tight a -> means s M ->
  let s' := plug (make p (Children (children_merged (keyed seps kids) i0 a (s_key x2) b n))) in
  sound part (d1 :: d2 :: ds) R u md H s' c3 /\ means s' M.
Proof.
  intros Hch Hfr Nn Np Fab Rab Htight HM' s'. set (D := d1 :: d2 :: ds) in *. set (sub := Inner P psw seps kids) in *.
  destruct (kid_sound i0 a Ha) as [SA GA RA FA PA LA ELA NA], (kid_sound (S i0) b Hb) as [SB GB RB FB PB LB ELB NB].
  pose proof kids_same_kind as Hkind. pose proof (so_length _ _ _ Hsub) as Hl. pose proof merge_old as Hold. fold sub in Hold.
  destruct (lookup_lt_is_Some_2 seps i0) as [x1 Hx1]; [rewrite Hl; by eapply lookup_lt_Some|].
  pose proof (keyed_lookup _ _ _ _ _ Hx1 Ha) as Hkey1. pose proof (keyed_lookup _ _ _ _ _ Hx2 Hb) as Hkey2.
  pose proof (fun n Hn => proj1 (ch_new _ _ _ _ _ _ _ _ _ _ Hch n Hn)) as Hg. pose proof (Hg n ltac:(by left)) as Gn.
  assert (forall ld, load_stands c u h ld -> beneath ld ⊆ merge_keep -> load_stands c3 u h ld) as Kload3.
  { intros ld Hld Hin. eapply load_stands_mono; [exact Hld|]. intros hx y Hy Hyin.
    eapply (kept part D R u key s d sub lk rest plug md H c c3 p [top a; top b; P] [n; p] merge_keep); try done.
    intros q Hq. by apply Hin, Hyin. }
  assert (load_stands c3 u h (load_app (load_of a) (load_of b))) as Kab.
  { apply load_stands_app; [done|apply Kload3; [done|]|apply Kload3; [done|]]; intros q Hq; unfold merge_keep; rewrite !elem_of_app; tauto. }
  apply (exchanged part D R u key s d sub lk rest plug md H (S h) c c3 p [top a; top b; P] [n; p] merge_keep Hs Hw Hold Hch
      (make p (Children (children_merged (keyed seps kids) i0 a (s_key x2) b n))) M);
    [apply (so_height _ _ _ Hsub)|done|apply top_make| | |by right; left|done| |].
  - rewrite nodes_make, merged_nodes, !list_fmap_delete, (keyed_kids _ _ Hl) by done. unfold merge_keep. solve_Permutation.
  - eapply made_stands; [exact Hfr|by right; left|exact Np|by eapply merged_fits| |by apply Hg; right; left|].
    { eapply merged_readable; [exact Hkey2|apply (so_keys _ _ _ Hsub)|apply kids_readable|done]. }
    split; [by unfold children_merged, merge_children; intros [_ ?]%app_eq_nil|]. exists h. split; [done|].
    intros y Hy. eapply merged_in in Hy as [->|Hy]; [| |exact Hkey2].
    + unfold joined. by eapply made_kid; [exact Hfr|by left|exact Nn|..].
    + rewrite !list_fmap_delete, (keyed_kids _ _ Hl) in Hy. pose proof Hy as [i1 Hy1]%list_elem_of_lookup_1.
      destruct (lookup_delete_kid _ _ _ _ Hy1) as [i2 Hy2]. destruct (lookup_delete_kid _ _ _ _ Hy2) as [i3 Hy3].
      eapply (kept_kid c3 p [top a; top b; P] [n; p] merge_keep i3 y); [done|done|done|]. intros q Hq. apply elem_of_app. right.
      apply elem_of_flat_map. by exists y.
  - intros kv. cbn [sub entries make]. rewrite <- (keyed_kids seps kids Hl) at 1. by eapply merged_below.
  - intros lo' hi' Ho. apply ordered_make. constructor. inversion Ho; subst.
    eapply merge_ordered; [done|exact Hkey1|exact Hkey2|by eapply stands_readable|by eapply stands_readable|done|done].
Qed.

Lemma ev_child_merge r sizes M kd :
  ready me t m g part k sz i own kt szt (S (S (S r))) (d1 :: d2 :: ds) en gl e c ->
  supplied (d1 :: d2 :: ds) (replicate 2 BZTREE_NODE_SIZE ++ sizes) c -> means s M ->
  (if negb (TOID_IS_NULL (d_left kd)) then (d_left kd, d_child kd) else (d_child kd, d_right kd)) = (top a, top b) ->
  BZTREE_MIN_FREE_SPACE + BZTREE_NODE_SIZE <= free_of (top_sw a) + free_of (top_sw b) -> tight a ->
  exists p n gl' e' c' mm', let s' := plug (make p (Children (children_merged (keyed seps kids) i0 a (s_key x2) b n))) in
    ev (child_merge me fuel (S depth) t (l_node <$> lk) (addr md lk) P psw kd) (St gl e c mm) tt (St gl' e' c' mm') /\ metrics_ok me mm' /\
    ready me t m g part k sz i own kt szt r ds en gl' e' c' /\ supplied ds sizes c' /\
    sound part ds R u md H s' c' /\ means s' M /\ good part ds u p /\ good part ds u n.
Proof.
  intros Hr Hsup HM' Ekd Hfree Htight. set (D := d1 :: d2 :: ds) in *. set (sub := Inner P psw seps kids) in *.
  destruct (kid_sound i0 a Ha) as [SA GA RA FA PA LA ELA NA]. pose proof (serves_kid i0 a Ha) as VA.
  destruct (kid_sound (S i0) b Hb) as [SB GB RB FB PB LB ELB NB]. pose proof (serves_kid (S i0) b Hb) as VB.
  pose proof kids_same_kind as Hkind. pose proof parent_pairs as Epk. fold sub in Epk. destruct (merge_fits Hfree) as (Fab & Rab & Eu).
  destruct (lookup_lt_is_Some_2 seps i0) as [x1 Hx1]; [rewrite (so_length _ _ _ Hsub); by eapply lookup_lt_Some|].
  pose proof (keyed_lookup _ _ _ _ _ Hx1 Ha) as Hkey1. pose proof (keyed_lookup _ _ _ _ _ Hx2 Hb) as Hkey2.
  pose proof (kid_index i0 a Ha) as Hidx.
  (* freeze *)
  destruct (ev_freeze_nodes (S (S (S r))) d1 (d2 :: ds) en gl e c mm [a; b; sub])
    as (gl1 & e1 & c1 & mm1 & Hm1 & Ev1 & Hr1 & Hn1 & Hs1 & Hf1 & Hd1); [done|done|simpl; lia| | |].
  { split; [|split; [|split; [by intros q y []%not_elem_of_nil|done]]].
    - intros q y [->|[->|[]%not_elem_of_nil]%elem_of_cons]%elem_of_cons Hy Hz; [by eapply (kids_two i0 (S i0) a b); [| |lia|..]|by eapply (kid_parent i0 a)].
    - intros q y ->%list_elem_of_singleton Hy Hz. by eapply (kid_parent (S i0) b). }
  { intros y [->|[->|[->|[]%not_elem_of_nil]%elem_of_cons]%elem_of_cons]%elem_of_cons; [by exists h|by exists h|].
    exists (S h). split; [apply (so_stands _ _ _ Hsub)|apply (so_good _ _ _ Hsub)]. }
  pose proof (Hn1 a ltac:(by left)) as HnA. pose proof (Hn1 b ltac:(by right; left)) as HnB.
  pose proof (Hn1 sub ltac:(by right; right; left)) as HnP. cbn [top top_sw sub] in HnP.
  (* merge *)
  destruct (mev_node_merge fuel (pool_cells part D) (fine part D u) sizes c1 P (top a) (top b) _ _ _ _ _ _ HnP HnA HnB)
    as (c2 & p & n & Ev2 & G2 & Nn & Np & Gn & Hsup2);
    [by eapply short_recs, so_stands|by eapply short_recs|by eapply short_recs|by eapply served_alike|by rewrite PA, PB, <- (pairs_app _ _ Hkind)| | |].
  { intros n. rewrite Epk. erewrite merge_pairs; [by eapply merged_fits|done|done]. }
  { rewrite Epk, Hidx, length_fmap. by eapply lookup_lt_Some. }
  rewrite PA, PB, <- (pairs_app _ _ Hkind) in Nn. rewrite Epk in Np. erewrite merge_pairs in Np; [|done..].
  pose proof (built_grown part D u [top a; top b; P] [n; p] c c1 c2 Hf1 Hs1 G2 Gn) as B.
  (* swing *)
  destruct (ev_swing D key s md H d sub lk rest plug c c2 [top a; top b; P] [n; p] merge_keep Hs Hw merge_old B Hal (S (S (S r))) d2 ds 1 en gl1 e1 mm1 p)
    as (gl3 & e3 & c3 & mm3 & Hm3 & Ev3 & Hr3 & Hch & Hfr & Ha3); [done| |done|by right; left|].
  { eapply (ready_grown _ D 1); [exact Hr1|exact G2|exact Gn]. }
  destruct (ev_push_garbage me fuel fuel_big t m g part k sz i own own_ne kt szt garbage_ne (S (S r)) ds en gl3 e3 c3 mm3 (D_RW (top a)) Hr3)
    as (gl4 & e4 & Ev4 & Hr4).
  destruct (ev_push_garbage me fuel fuel_big t m g part k sz i own own_ne kt szt garbage_ne (S r) ds en gl4 e4 c3 mm3 (D_RW (top b)) Hr4)
    as (gl5 & e5 & Ev5 & Hr5).
  destruct (ev_push_garbage me fuel fuel_big t m g part k sz i own own_ne kt szt garbage_ne r ds en gl5 e5 c3 mm3 (D_RW P) Hr5)
    as (gl6 & e6 & Ev6 & Hr6).
  destruct (merge_sound p n c2 c3 M Hch Hfr Nn Np Fab Rab Htight HM') as [Hs' Hmeans']. rewrite !Forall_cons in Gn. destruct Gn as (Gn & Gp & _).
  exists p, n, gl6, e6, c3, mm3. cbn zeta. split; [|split; [done|split; [done|split; [by apply (supplied_tail D 2 _ c2)|]]]].
  - unfold child_merge. rewrite Ekd, parent_frozen. eapply ev_bind; [apply ev_is_frozen|]. cbn match.
    do 2 (eapply ev_bind; [by apply ev_mem; eapply serves_load|]). rewrite (sr_live _ _ _ _ _ VA), (sr_live _ _ _ _ _ VB).
    fold (free_of (top_sw a)) (free_of (top_sw b)). rewrite Eu, (proj2 (Z.ltb_ge _ _)) by lia.
    eapply ev_bind; [exact Ev1|]. cbn [negb]. eapply ev_bind; [by apply ev_mem|]. cbn match. eapply ev_bind; [exact Ev3|]. cbn match.
    eapply ev_bind; [exact Ev4|]. eapply ev_bind; [exact Ev5|exact Ev6].
  - split_and!; [by apply (sound_tail D 2)|done|by apply (fine_tail D _ 2)..].
Qed.
End merge.
End sub.
End due.
End child.
