(* ===== verification/BzRoot.v ===== *)
(** * Modifications of the root (bztree.cc)

    [root_smo], run alone where the root is to be compacted or split: a new root under new
    metadata, to which the root object points then. *)
From Stdlib Require Import ZArith Lia Ascii.
From stdpp Require Import base list gmap strings sorting.
From S2P Require Import Prelude Bytes Prog Status Hash Library Epoch Garbage Metrics Memory Descriptor MwCAS Entries Target Pool DList DListSpec BzNode BzTree BzBytes BzNodeSpec BzSmo BzLeaf BzSupply BzPlace BzMap BzHeight BzOrder BzBuild BzParent BzWay BzSteps BzModify BzChild.
#[local] Open Scope Z_scope.
#[local] Open Scope machine_scope.
#[local] Open Scope prog_scope.

(** A mapped object and an unmapped one do not overlap. *)
Lemma region_apart c a n b k x :
  region c a n -> b mod 8 = 0 -> (forall y, b <= y < b + k -> c !! y = None) -> a <= x < a + n -> b <= x < b + k -> False.
Proof.
  intros (Ha & _ & Hr) Hb Hf Hxa Hxb. pose proof (Z.div_mod x 8 ltac:(lia)). pose proof (Z.mod_pos_bound x 8 ltac:(lia)).
  pose proof (Z.div_mod a 8 ltac:(lia)). pose proof (Z.div_mod b 8 ltac:(lia)).
  destruct (Hr (8 * (x / 8))) as [w Hw]; [lia|by rewrite Z.mul_comm, Z.mod_mul|]. rewrite Hf in Hw; [done|lia].
Qed.

(** ** Metadata exchanged *)

Section exchange.
Context {HM : Pmdk} (part : Z) (ds : list Z) (R : TOID) (u : Z).
Abbreviation good := (good part ds u).
Abbreviation fine := (fine part ds u).
Abbreviation sound := (sound part ds R u).

Definition in_meta (q : TOID) (a : Z) : Prop := D_RW q <= a < D_RW q + sizeof_Metadata.

(** From [c] to [c'] the nodes [olds] have gone out of service, the nodes [news] and the
    metadata [q] are new, and the root object leads to [q], and that to [new]. *)
Record replaced (q new : TOID) (H : nat) (olds news : list TOID) (c c' : gmap Z Z) : Prop := {
  rp_meta : fine sizeof_Metadata q /\ forall a, in_meta q a -> c !! a = None;
  rp_new n : n ∈ news -> good n /\ forall a, in_leaf n a -> c !! a = None /\ ~ in_meta q a;
  rp_apart : separate news;
  rp_object : c' !! (root_metadata (D_RW R) + 8) = Some (off q);
  rp_root : c' !! md_root_node (D_RW q) = Some u /\ c' !! (md_root_node (D_RW q) + 8) = Some (off new);
  rp_height : c' !! md_height (D_RW q) = Some (Z.of_nat H);
  rp_epoch : is_Some (c' !! md_global_epoch (D_RW q));
  rp_same a : ~ pool_cells part ds a -> (forall n, n ∈ olds ++ news -> ~ in_leaf n a) -> ~ in_meta q a ->
    a <> root_metadata (D_RW R) + 8 -> c' !! a = c !! a
}.

Section replaced.
Context (s new : shape) (md : Z) (H H' : nat) (c c' : gmap Z Z) (q : TOID) (olds news keep : list TOID).
Context (Hs : sound md H s c) (Hold : nodes s ≡ₚ olds ++ keep) (Hnew : nodes new ≡ₚ news ++ keep).
Context (Hrp : replaced q (top new) H' olds news c c').

Lemma meta_word a : a ∈ tree_words R (D_RW q) -> a = root_metadata (D_RW R) \/ a = root_metadata (D_RW R) + 8 \/ in_meta q a.
Proof.
  unfold tree_words, in_meta, md_root_node, md_height, md_global_epoch, sizeof_Metadata.
  rewrite !elem_of_cons, elem_of_nil. intros [->|[->|[->|[->|[->|[->|[]]]]]]]; lia || tauto.
Qed.

Lemma object_word a : a = root_metadata (D_RW R) \/ a = root_metadata (D_RW R) + 8 ->
  is_Some (c !! a) /\ ~ pool_cells part ds a /\ (forall n, n ∈ nodes s -> ~ in_leaf n a) /\ ~ in_meta q a /\ forall n, n ∈ news -> ~ in_leaf n a.
Proof.
  intros Ha. destruct (mt_oid _ _ _ _ _ (sd_meta _ _ _ _ _ _ _ _ Hs)) as (o & E1 & E2 & _).
  assert (is_Some (c !! a)) as Hm by (destruct Ha as [->| ->]; by eexists). split; [done|].
  assert (a ∈ tree_words R md) as Hin by (unfold tree_words; destruct Ha as [->| ->]; set_solver).
  destruct (sd_words _ _ _ _ _ _ _ _ Hs a Hin) as [Hp Hn]. destruct Hm as [v Hv]. split_and!; [done|done| |].
  - intros Hx. destruct (rp_meta _ _ _ _ _ _ _ Hrp) as [_ Hf]. by rewrite Hf in Hv.
  - intros n Hin' Hx. destruct (rp_new _ _ _ _ _ _ _ Hrp n Hin') as [_ Hf]. destruct (Hf a Hx) as [Hf' _]. by rewrite Hf' in Hv.
Qed.

(** A node that stays has not changed. *)
Lemma stays_there n a : n ∈ keep -> in_leaf n a -> c' !! a = c !! a.
Proof.
  intros Hn Ha. assert (n ∈ nodes s) as Hin by (rewrite Hold; apply elem_of_app; by right).
  pose proof (sd_good _ _ _ _ _ _ _ _ Hs n Hin) as Hg. pose proof (stands_region _ _ _ _ (sd_stands _ _ _ _ _ _ _ _ Hs) Hin) as Hreg.
  apply (rp_same _ _ _ _ _ _ _ Hrp).
  - by apply (fi_apart _ _ _ _ _ Hg).
  - intros o [Ho|Ho]%elem_of_app Hx.
    + pose proof (sd_apart _ _ _ _ _ _ _ _ Hs) as Hsep. rewrite Hold in Hsep. apply separate_app in Hsep as (_ & _ & Hd). by apply (Hd o n a).
    + destruct (rp_new _ _ _ _ _ _ _ Hrp o Ho) as [Hgo Hf]. apply (region_fresh c n o a); [done|apply (fi_at _ _ _ _ _ Hgo)|by intros y Hy; apply Hf|done|done].
  - intros Hx. destruct (rp_meta _ _ _ _ _ _ _ Hrp) as [Hg' Hf]. destruct (fi_at _ _ _ _ _ Hg') as [_ H8]. unfold in_meta in *.
    by eapply (region_apart c (D_RW n) BZTREE_NODE_SIZE).
  - intros ->. destruct (object_word (root_metadata (D_RW R) + 8)) as (_ & _ & Hno & _); [by right|]. by apply (Hno n Hin).
Qed.

Lemma stands_there h x : stands c h x -> nodes x ⊆ keep -> stands c' h x.
Proof. intros Hst Hsub. eapply stands_same; [exact Hst|]. intros n a Hn. by apply stays_there, Hsub. Qed.

Lemma re_rooted M :
  stands c' H' new -> means s M -> top new ∈ news -> ordered None None new ->
  (forall kv, kv ∈ entries s <-> kv ∈ entries new) -> sound (D_RW q) H' new c' /\ means new M.
Proof.
  intros Hst Hm Htop Hord Hent. destruct (rp_meta _ _ _ _ _ _ _ Hrp) as [Hq Hqf]. destruct (fi_at _ _ _ _ _ Hq) as [Hqp Hq8].
  destruct (mt_oid _ _ _ _ _ (sd_meta _ _ _ _ _ _ _ _ Hs)) as (o & E1 & E2 & _).
  assert (c' !! root_metadata (D_RW R) = Some u) as E1'.
  { destruct (object_word (root_metadata (D_RW R))) as (_ & Hp & Hn & Hme & Hnews); [by left|].
    rewrite (rp_same _ _ _ _ _ _ _ Hrp); [done|done| |done|lia]. intros n [Hin|Hin]%elem_of_app; [|by apply Hnews].
    apply Hn. rewrite Hold. apply elem_of_app. by left. }
  assert (MkTOID u (off q) = q) as Eq by (rewrite <- (fi_pool _ _ _ _ _ Hq); by destruct q).
  assert (forall n, n ∈ nodes new -> good n) as Hgood.
  { intros n. rewrite Hnew. intros [Hn|Hn]%elem_of_app; [by apply (rp_new _ _ _ _ _ _ _ Hrp)|].
    apply (sd_good _ _ _ _ _ _ _ _ Hs). rewrite Hold. apply elem_of_app. by right. }
  destruct (rp_root _ _ _ _ _ _ _ Hrp) as [Er1 Er2]. split.
  - split; try done.
    + split; [|by rewrite (fi_pool _ _ _ _ _ (Hgood _ (top_in new)))|apply Hrp].
      exists u, (off q). rewrite Eq. split_and!; [done|apply Hrp|done].
    + rewrite Hnew. pose proof (sd_apart _ _ _ _ _ _ _ _ Hs) as Hsep. rewrite Hold in Hsep. apply separate_app in Hsep as (_ & Hsep & _).
      apply separate_app. split; [apply Hrp|]. split; [done|]. intros a b x Ha Hb Hx Hy.
      destruct (rp_new _ _ _ _ _ _ _ Hrp a Ha) as [Hga Hfa].
      eapply (region_fresh c b a x); [|apply (fi_at _ _ _ _ _ Hga)|by intros y Hy'; apply Hfa|done|done].
      eapply stands_region; [apply Hs|]. rewrite Hold. apply elem_of_app. by right.
    + intros a Ha. apply meta_word in Ha as [Ha|[Ha|Ha]];
        [destruct (object_word a) as (_ & Hp & Hn & _ & Hnews); [tauto|]; split; [done|]; intros n; rewrite Hnew; intros [Hin|Hin]%elem_of_app;
          [by apply Hnews|apply Hn; rewrite Hold; apply elem_of_app; by right]..|].
      split; [by apply (fi_apart _ _ _ _ _ Hq)|]. intros n. rewrite Hnew. intros [Hin|Hin]%elem_of_app Hx.
      * destruct (rp_new _ _ _ _ _ _ _ Hrp n Hin) as [_ Hf]. by apply (Hf a Hx).
      * assert (n ∈ nodes s) as Hns by (rewrite Hold; apply elem_of_app; by right).
        eapply (region_apart c (D_RW n) BZTREE_NODE_SIZE (D_RW q)); [eapply stands_region; [apply Hs|exact Hns]|exact Hq8|exact Hqf|exact Hx|exact Ha].
    + split; [|done]. assert (forall a, a = root_metadata (D_RW R) \/ a = root_metadata (D_RW R) + 8 -> ~ in_meta q a) as Hno.
      { intros a Ha. by destruct (object_word a Ha) as (_ & _ & _ & ? & _). }
      pose proof (Hno _ (or_introl eq_refl)) as N1. pose proof (Hno _ (or_intror eq_refl)) as N2.
      unfold tree_words, in_meta, md_root_node, md_height, md_global_epoch, sizeof_Metadata in *.
      rewrite !NoDup_cons, !not_elem_of_cons. split_and!; try lia; try apply not_elem_of_nil. constructor.
    + split; [|apply Hrp|apply (mt_root _ _ _ _ _ (sd_meta _ _ _ _ _ _ _ _ Hs))]. exists (off q). rewrite Eq.
      split_and!; [done|apply Hrp|done|apply (fi_off _ _ _ _ _ Hq)|apply (fi_off _ _ _ _ _ Hq)].
  - eapply same_map; [exact Hm|eapply stands_readable, Hs|by eapply stands_readable|apply Hs|done|done].
Qed.
End replaced.
End exchange.

(** ** The run *)

Section root.
Context {HP : Platform} {HL : PlatformLaws} {HM : Pmdk} {HP' : PmdkLaws} (me : Z) (fuel : nat) (fuel_big : (30 < fuel)%nat) (depth : nat).
Context (t : BzTree) (m g part : Z) (k sz i : nat) (own : nat) (own_ne : epoch t <> m).
Context (kt szt : nat) (garbage_ne : garbage t <> g) (R : TOID) (u : Z).
(** The root object has been allocated; an address of the pool is that of one object. *)
Context (root_fixed : forall s, is_Some (cells s !! D_RW R) -> pmemobj_root sizeof_RootObj s = (R, s)).
Context (oid_fixed : forall q, pool_uuid_lo q = u -> pmemobj_oid (D_RW q) = q).

Lemma mev_root_object c : is_Some (c !! D_RW R) -> mev root_object c (D_RW R) c.
Proof.
  intros H. eapply mev_bind; [|apply mev_ret]. intros pc mm. exists pc. unfold POBJ_ROOT. cbn [act run]. by rewrite root_fixed.
Qed.

Lemma mev_store_toid c a q : is_Some (c !! a) -> is_Some (c !! (a + 8)) ->
  mev (store_toid a q) c tt (<[a + 8 := off q]> (<[a := pool_uuid_lo q]> c)).
Proof.
  intros H1 H2. eapply mev_bind; [by apply mev_store|]. apply mev_store. destruct (decide (a = a + 8)) as [E|Hne]; [lia|].
  by rewrite lookup_insert_ne.
Qed.

(** What [root_smo] puts under the new metadata. *)
Definition new_root (compact : bool) (root : TOID) (md_new : Z) : prog World (option (TOID * TOID)) :=
  if compact then
    let! n := mem (node_compact fuel root) in
    mem (store_toid (md_root_node md_new) n) ;;; Ret None
  else
    let! r := mem (node_split fuel None root) in
    mem (store_toid (md_root_node md_new) r.1) ;;;
    let! h := ld (md_height md_new) in
    st (md_height md_new) (u64 (h + 1)) ;;;
    Ret (Some r.2).

(** Both kinds of it, in the memory [c3] in which the root is frozen and the metadata [q]
    has been allocated: nodes [news] in memory, up to [c4], and the words of [q], up to [c5]. *)
Record builds (q target : TOID) (H' : nat) (news : list TOID) (sizes : list Z) (D : list Z) (c3 c4 c5 : gmap Z Z) : Prop := {
  bd_grown : grown c3 c4 news;
  bd_good : Forall (good part D u) news;
  bd_served : served (pool_cells part D) (fine part D u) sizes c4;
  bd_same a : ~ in_meta q a -> c5 !! a = c4 !! a;
  bd_alike : alike (fun _ => False) c4 c5;
  bd_root : c5 !! md_root_node (D_RW q) = Some u /\ c5 !! (md_root_node (D_RW q) + 8) = Some (off target);
  bd_height : c5 !! md_height (D_RW q) = Some (Z.of_nat H');
  bd_epoch : is_Some (c5 !! md_global_epoch (D_RW q))
}.

(** New metadata, as the body finds it. *)
Record with_meta (q : TOID) (H : nat) (s : shape) (sizes : list Z) (D : list Z) (c3 : gmap Z Z) : Prop := {
  wm_node : node_has c3 (D_RW (top s)) (set_frozen true (top_sw s)) (recs_of s);
  wm_region : region c3 (D_RW q) sizeof_Metadata;
  wm_height : c3 !! md_height (D_RW q) = Some (Z.of_nat H);
  wm_served : served (pool_cells part D) (fine part D u) sizes c3
}.

Lemma alike_insert (X : Z -> Prop) (c : gmap Z Z) a v : is_Some (c !! a) -> alike X c (<[a := v]> c).
Proof.
  intros Ha x _. destruct (decide (a = x)) as [<-|Hne]; [rewrite lookup_insert_eq; split; [by eexists|done]|by rewrite lookup_insert_ne].
Qed.

(** The store of the new root. *)
Lemma builds_stored q n H news sizes D c3 c4 :
  grown c3 c4 news -> Forall (good part D u) news -> served (pool_cells part D) (fine part D u) sizes c4 -> n ∈ news ->
  region c3 (D_RW q) sizeof_Metadata -> c3 !! md_height (D_RW q) = Some (Z.of_nat H) ->
  let c5 := <[md_root_node (D_RW q) + 8 := off n]> (<[md_root_node (D_RW q) := pool_uuid_lo n]> c4) in
  mev (store_toid (md_root_node (D_RW q)) n) c4 tt c5 /\ builds q n H news sizes D c3 c4 c5.
Proof.
  intros Hg Hn Hsup Hin (Q8 & _ & Hreg) Hh c5. pose proof (grown_sub _ _ _ Hg) as Hsub.
  assert (forall j, 0 <= j < 4 -> is_Some (c4 !! (D_RW q + j * 8))) as Hmap.
  { intros j Hj. destruct (Hreg (D_RW q + j * 8)) as [v Hv]; [unfold sizeof_Metadata; lia| |exists v; by eapply lookup_weaken].
    by rewrite Z.mod_add. }
  assert (is_Some (c4 !! md_root_node (D_RW q))) as M0 by (replace (md_root_node (D_RW q)) with (D_RW q + 0 * 8) by (unfold md_root_node; lia); by apply Hmap).
  pose proof (Hmap 1 ltac:(lia)) as M1. pose proof (Hmap 3 ltac:(lia)) as M3.
  assert (md_root_node (D_RW q) <> md_root_node (D_RW q) + 8) as Hne by lia.
  split; [by apply mev_store_toid|]. rewrite Forall_forall in Hn. pose proof (fi_pool _ _ _ _ _ (Hn n Hin)) as Eu.
  split; try done; [by apply Forall_forall|..].
  - intros a Ha. unfold in_meta, sizeof_Metadata, c5, md_root_node in *. by rewrite !lookup_insert_ne by lia.
  - transitivity (<[md_root_node (D_RW q) := pool_uuid_lo n]> c4); apply alike_insert; [done|]. by rewrite lookup_insert_ne.
  - unfold c5. rewrite lookup_insert_eq, lookup_insert_ne, lookup_insert_eq by done. by rewrite Eu.
  - unfold c5, md_root_node, md_height in *. rewrite !lookup_insert_ne by lia. by eapply lookup_weaken.
  - unfold c5, md_root_node, md_global_epoch in *. by rewrite !lookup_insert_ne by lia.
Qed.

(** Another height. *)
Lemma builds_raised q n H H' news sizes D c3 c4 c5 :
  builds q n H news sizes D c3 c4 c5 -> builds q n H' news sizes D c3 c4 (<[md_height (D_RW q) := Z.of_nat H']> c5).
Proof.
  intros [B1 B2 B3 B4 B5 B6 B7 B8]. split; try done.
  - intros a Ha. rewrite lookup_insert_ne; [by apply B4|]. intros <-. apply Ha. unfold in_meta, md_height, sizeof_Metadata. lia.
  - transitivity c5; [done|]. apply alike_insert. by eexists.
  - unfold md_height, md_root_node in *. by rewrite !lookup_insert_ne by lia.
  - by rewrite lookup_insert_eq.
  - unfold md_height, md_global_epoch in *. by rewrite lookup_insert_ne by lia.
Qed.

(** *** Up to the new root *)

Section change.
Context (ds : list Z) (d1 d2 : Z) (en : Entry) (gl : gmap Z GarbageList) (e : EpochWorld) (c : gmap Z Z) (mm : MetricsWorld).
Context (s : shape) (md : Z) (H : nat).
Context (Hm : metrics_ok me mm) (Hs : sound part (d1 :: d2 :: ds) R u md H s c).
Abbreviation D := (d1 :: d2 :: ds).

Lemma node_has_sub c1 c2 node sw rs : c1 ⊆ c2 -> node_has c1 node sw rs -> node_has c2 node sw rs.
Proof. intros Hsub Hn. by eapply node_has_mono. Qed.

(** The metadata's words hold. *)
Lemma words_known : exists o h v, c !! root_metadata (D_RW R) = Some u /\ c !! (root_metadata (D_RW R) + 8) = Some o /\
  pmemobj_oid md = MkTOID u o /\ plain o /\ o ∉ D /\ c !! md_root_node md = Some (pool_uuid_lo (top s)) /\
  c !! (md_root_node md + 8) = Some (off (top s)) /\ c !! md_height md = Some h /\ h = Z.of_nat H /\ c !! md_global_epoch md = Some v.
Proof.
  destruct (sd_meta _ _ _ _ _ _ _ _ Hs) as [(o & E1 & E2 & E3 & E4 & E5) [v Hv] _].
  destruct (sd_rooted _ _ _ _ _ _ _ _ Hs) as [_ (E6 & E7) E8]. exists o, (Z.of_nat H), v. split_and!; try done.
  rewrite <- E3. by apply oid_fixed.
Qed.

(** Frozen, and with new metadata that has the height and the epoch. *)
Lemma ev_new_meta r sizes :
  ready me t m g part k sz i own kt szt r D en gl e c -> supplied part u D (sizeof_Metadata :: sizes) c ->
  exists gl1 e1 c1 mm1 q c2 c3 h v, metrics_ok me mm1 /\
    ev (desc_mwcas me fuel (S depth) t [freeze_entry (status_word (D_RW (top s))) (top_sw s) (top_sw s)]) (St gl e c mm) true (St gl1 e1 c1 mm1) /\
    ready me t m g part k sz i own kt szt r (d2 :: ds) en gl1 e1 c1 /\
    mev (POBJ_ZNEW sizeof_Metadata) c1 q c2 /\ c2 !! md_height md = Some h /\ is_Some (c2 !! md_height (D_RW q)) /\
    <[md_height (D_RW q) := h]> c2 !! md_global_epoch md = Some v /\ is_Some (<[md_height (D_RW q) := h]> c2 !! md_global_epoch (D_RW q)) /\
    c3 = <[md_global_epoch (D_RW q) := v]> (<[md_height (D_RW q) := h]> c2) /\ with_meta q H s sizes D c3 /\
    fine part D u sizeof_Metadata q /\ (forall a, in_meta q a -> c !! a = None) /\ alike (pool_cells part D) c c1 /\
    (forall a, ~ pool_cells part D a -> a <> status_word (D_RW (top s)) -> ~ in_meta q a -> c3 !! a = c !! a) /\
    (forall a, ~ in_meta q a -> c3 !! a = c1 !! a) /\ (forall a, in_meta q a -> c1 !! a = None).
Proof.
  intros Hr Hsup. pose proof (sd_stands _ _ _ _ _ _ _ _ Hs) as Hst.
  destruct (ev_freeze_nodes me fuel fuel_big depth t m g part k sz i own own_ne kt szt garbage_ne u r d1 (d2 :: ds) en gl e c mm [s])
    as (gl1 & e1 & c1 & mm1 & Hm1 & Ev1 & Hr1 & Hn1 & Hs1 & _ & Hd1); [done|done|simpl; lia| | |].
  { split; [|done]. by intros b y []%not_elem_of_nil. }
  { intros y ->%list_elem_of_singleton. exists H. split; [done|]. apply (sd_good _ _ _ _ _ _ _ _ Hs), top_in. }
  specialize (Hn1 s ltac:(by left)). destruct (Hsup c1 Hd1) as (q & Hal & Hq & Hserved).
  destruct (mev_POBJ_ZNEW _ _ _ Hal ltac:(done)) as (c2 & Ev2 & Hqp & Hreg & Hout & Hzero & Hfresh).
  destruct words_known as (o & h & v & _ & _ & _ & _ & _ & _ & _ & Eh & -> & Ev).
  assert (forall a, a ∈ tree_words R md -> is_Some (c !! a) -> c1 !! a = c !! a /\ ~ in_meta q a) as Hw.
  { intros a Ha [x Hx]. destruct (sd_words _ _ _ _ _ _ _ _ Hs a Ha) as [Hp Hn]. assert (c1 !! a = c !! a) as E.
    { apply Hs1; [done|]. intros n ->%list_elem_of_singleton ->. apply (Hn _ (top_in s)), status_in. }
    split; [done|]. intros Hx'. by rewrite <- E, Hfresh in Hx. }
  destruct (Hw (md_height md)) as [W1 N1]; [unfold tree_words; set_solver|by eexists|].
  destruct (Hw (md_global_epoch md)) as [W2 N2]; [unfold tree_words; set_solver|by eexists|].
  assert (forall j, 0 <= j < 4 -> c2 !! (D_RW q + j * 8) = Some 0) as Hz.
  { intros j Hj. apply Hzero; [unfold sizeof_Metadata; lia|]. rewrite Z.mod_add by done. apply Hreg. }
  pose proof (Hz 2 ltac:(lia)) as Z2. pose proof (Hz 3 ltac:(lia)) as Z3.
  assert (in_meta q (md_height (D_RW q)) /\ in_meta q (md_global_epoch (D_RW q))) as [I1 I2].
  { unfold in_meta, md_height, md_global_epoch, sizeof_Metadata. lia. }
  set (c3 := <[md_global_epoch (D_RW q) := v]> (<[md_height (D_RW q) := Z.of_nat H]> c2)).
  assert (forall a, ~ in_meta q a -> c3 !! a = c1 !! a) as H31.
  { intros a Ha. unfold c3. rewrite !lookup_insert_ne by (intros <-; tauto). by apply Hout. }
  assert (with_meta q H s sizes D c3) as Hwm.
  { split.
    - eapply node_has_mono; [|exact Hn1]. apply map_subseteq_spec. intros a x Hx. rewrite H31; [done|]. intros Ha. by rewrite Hfresh in Hx.
    - destruct Hreg as (R1 & R2 & R3). split_and!; [done|done|]. intros x Hx Hx8. unfold c3. rewrite !lookup_insert_is_Some'. right. right. by apply R3.
    - unfold c3. rewrite lookup_insert_ne by (unfold md_height, md_global_epoch; lia). by rewrite lookup_insert_eq.
    - apply Hserved. intros a Ha. by apply H31. }
  assert (c2 !! md_height md = Some (Z.of_nat H)) as F1 by (rewrite Hout by done; by rewrite W1).
  assert (is_Some (c2 !! md_height (D_RW q))) as F2 by (by eexists).
  assert (<[md_height (D_RW q) := Z.of_nat H]> c2 !! md_global_epoch md = Some v) as F3.
  { rewrite lookup_insert_ne by (intros E; by rewrite E in I1). rewrite Hout by done. by rewrite W2. }
  assert (is_Some (<[md_height (D_RW q) := Z.of_nat H]> c2 !! md_global_epoch (D_RW q))) as F4.
  { rewrite lookup_insert_ne by (unfold md_height, md_global_epoch; lia). by eexists. }
  assert (forall a, in_meta q a -> c !! a = None) as F5.
  { intros a Ha. destruct (c !! a) eqn:E; [|done]. exfalso. assert (is_Some (c1 !! a)) as [y Hy].
    { apply Hd1; [by apply (fi_apart _ _ _ _ _ Hq)|rewrite E; by eexists]. }
    by rewrite Hfresh in Hy. }
  assert (forall a, ~ pool_cells part D a -> a <> status_word (D_RW (top s)) -> ~ in_meta q a -> c3 !! a = c !! a) as F6.
  { intros a Hp Hne Hnm. rewrite H31 by done. apply Hs1; [done|]. by intros n ->%list_elem_of_singleton. }
  exists gl1, e1, c1, mm1, q, c2, c3, (Z.of_nat H), v. split_and!; done.
Qed.

(** The body: it builds a root, and [made] is what is known of it. *)
Context (compact : bool) (H' : nat) (sizes more : list Z) (made : TOID -> list TOID -> gmap Z Z -> Prop).
Context (Hcompact : compact = (BZTREE_MAX_DELETED_SPACE <? delete_size (top_sw s))).
Context (Hdue : compact || (BZTREE_NODE_SIZE <? BZTREE_MIN_FREE_SPACE + sizeof_NodeHeader + block_size (top_sw s)
  + record_count (top_sw s) * sizeof_NodeMetadata) = true).
Context (Hbody : forall q c3, with_meta q H s (sizes ++ more) D c3 ->
  exists target news x c4 c5, (forall gl e mm, ev (new_root compact (top s) (D_RW q)) (St gl e c3 mm) x (St gl e c5 mm)) /\
    builds q target H' news more D c3 c4 c5 /\ made target news c4).

Lemma ev_root_change r :
  ready me t m g part k sz i own kt szt (S (S r)) D en gl e c -> supplied part u D (sizeof_Metadata :: sizes ++ more) c ->
  exists q target news c4 gl' e' c' mm', metrics_ok me mm' /\
    ev (root_smo me fuel (S depth) t md) (St gl e c mm) true (St gl' e' c' mm') /\
    ready me t m g part k sz i own kt szt r ds en gl' e' c' /\ supplied part u ds more c' /\
    replaced part D R u q target H' [top s] news c c' /\ made target news c4 /\
    (forall n kvs, n ∈ news -> fits_node kvs -> new_node c4 n kvs -> fresh_node c' (D_RW n) kvs).
Proof.
  intros Hr Hsup. destruct (ev_new_meta (S (S r)) (sizes ++ more) Hr Hsup)
    as (gl1 & e1 & c1 & mm1 & q & c2 & c3 & h & v & Hm1 & Ev1 & Hr1 & Ev2 & W1 & W2 & W3 & W4 & E3 & Hwm & Hq & Hqf & Hd1 & Hsame3 & H31 & Hf1).
  destruct words_known as (o & h' & v' & K1 & K2 & K3 & K4 & K5 & K6 & K7 & K8 & -> & K9).
  destruct (Hbody q c3 Hwm) as (target & news & x & c4 & c5 & Ev4 & [B1 B2 B3 B4 B5 B6 B7 B8] & Hmade). rewrite Forall_forall in B2.
  assert (forall n, n ∈ news -> good part D u n /\ forall a, in_leaf n a -> c !! a = None /\ ~ in_meta q a) as Hnews.
  { intros n Hn. split; [by apply B2|]. intros a Ha. pose proof (gr_fresh _ _ _ B1 n a Hn Ha) as Hf.
    assert (~ in_meta q a) as Hno.
    { intros Hx. eapply (region_apart c3 (D_RW q) sizeof_Metadata (D_RW n) BZTREE_NODE_SIZE a); [apply Hwm|apply (fi_at _ _ _ _ _ (B2 n Hn))| |done|done].
      intros y. by apply (gr_fresh _ _ _ B1). }
    split; [|done]. destruct (c !! a) eqn:E; [|done]. exfalso. assert (is_Some (c1 !! a)) as [y Hy].
    { apply Hd1; [by apply (fi_apart _ _ _ _ _ (B2 n Hn))|rewrite E; by eexists]. }
    by rewrite H31, Hy in Hf. }
  assert (forall a, ~ in_meta q a -> (forall n, n ∈ news -> ~ in_leaf n a) -> c5 !! a = c3 !! a) as H53.
  { intros a Ha Hn. rewrite B4 by done. apply (gr_same _ _ _ B1). intros n Hin Hx. by apply (Hn n). }
  assert (forall a, a ∈ tree_words R md -> is_Some (c !! a) -> c3 !! a = c !! a /\ c5 !! a = c !! a /\ ~ in_meta q a) as Hwords.
  { intros a Ha [y Hy]. destruct (sd_words _ _ _ _ _ _ _ _ Hs a Ha) as [Hp Hn]. assert (~ in_meta q a) as Hno by (intros Hx; by rewrite Hqf in Hy).
    assert (c3 !! a = c !! a) as E3'. { apply Hsame3; [done| |done]. intros ->. apply (Hn _ (top_in s)), status_in. }
    split; [done|]. split; [|done]. rewrite H53; [done|done|]. intros n Hin Hx. destruct (Hnews n Hin) as [_ Hf]. destruct (Hf a Hx) as [Hf' _]. by rewrite Hf' in Hy. }
  assert (forall a y, a ∈ tree_words R md -> c !! a = Some y -> c3 !! a = Some y /\ c5 !! a = Some y) as Hw5.
  { intros a y Ha Hy. destruct (Hwords a Ha) as (W3' & W5' & _); [by eexists|]. by rewrite W3', W5'. }
  (* the operation *)
  assert (ready me t m g part k sz i own kt szt (S (S r)) (d2 :: ds) en gl1 e1 c5) as Hr5.
  { eapply ready_same; [|exact Hr1]. intros a Ha. assert (pool_cells part D a) as Ha' by (by apply (pool_tail _ D 1)).
    rewrite H53; [apply H31| |]; [by intros Hx; apply (fi_apart _ _ _ _ _ Hq a Hx)|by intros Hx; apply (fi_apart _ _ _ _ _ Hq a Hx)|].
    intros n Hin Hx. by apply (fi_apart _ _ _ _ _ (B2 n Hin) a Hx). }
  set (loc := root_metadata (D_RW R) + 8). destruct (mt_root _ _ _ _ _ (sd_meta _ _ _ _ _ _ _ _ Hs)) as [HR1 HR2].
  assert (loc ∈ tree_words R md) as Hloc by (unfold tree_words; set_solver).
  destruct (sd_words _ _ _ _ _ _ _ _ Hs loc Hloc) as [Hlp Hln].
  destruct (ev_operation me fuel fuel_big depth t m g part k sz i own own_ne kt szt garbage_ne (S (S r)) ds d2 en gl1 e1 c5 mm1
    [MkW loc o (off q) kRecycleNever] Hr5 Hm1) as (gl6 & e6 & c6 & mm6 & Hm6 & Ev6 & Hr6 & Hw6 & Hs6).
  { split; [simpl; lia|cbn; apply NoDup_singleton|]. intros y ->%list_elem_of_singleton. cbn [wa wo wn wp].
    split_and!; [unfold loc, root_metadata; lia| |done|done|apply (fi_off _ _ _ _ _ Hq)|by apply Hw5| |].
    - unfold loc, root_metadata. by rewrite <- Z.add_mod_idemp_l, HR2.
    - intros Hin. apply K5. by right.
    - intros Hp. by apply Hlp, (pool_tail _ D 1). }
  specialize (Hw6 _ ltac:(by apply list_elem_of_singleton)). cbn [wa wn] in Hw6.
  assert (forall a, ~ pool_cells part D a -> a <> loc -> c6 !! a = c5 !! a) as Hs6'.
  { intros a Hp Hne. apply Hs6; [intros Hx; by apply Hp, (pool_tail _ D 1)|]. cbn. by intros ->%list_elem_of_singleton. }
  assert (md_root_node md <> loc /\ md_root_node md + 8 <> loc) as [Ne1 Ne2].
  { destruct (sd_layout _ _ _ _ _ _ _ _ Hs) as [Hnd _]. unfold tree_words in Hnd. rewrite !NoDup_cons in Hnd. unfold loc. set_solver. }
  destruct (ev_push_garbage me fuel fuel_big t m g part k sz i own own_ne kt szt garbage_ne (S r) ds en gl6 e6 c6 mm6 md Hr6)
    as (gl7 & e7 & Ev7 & Hr7).
  destruct (ev_push_garbage me fuel fuel_big t m g part k sz i own own_ne kt szt garbage_ne r ds en gl7 e7 c6 mm6 (D_RW (top s)) Hr7)
    as (gl8 & e8 & Ev8 & Hr8).
  assert (forall a y, a ∈ tree_words R md -> c !! a = Some y -> a <> loc -> c6 !! a = Some y) as Hw6'.
  { intros a y Ha Hy Hne. rewrite Hs6'; [by apply Hw5|by apply (sd_words _ _ _ _ _ _ _ _ Hs)|done]. }
  exists q, target, news, c4, gl8, e8, c6, mm6. split; [done|]. split; [|split; [done|split; [|split; [|split; [done|]]]]].
  - pose proof (stands_serves part D u _ _ _ (sd_stands _ _ _ _ _ _ _ _ Hs) (sd_good _ _ _ _ _ _ _ _ Hs _ (top_in s))) as Sv.
    assert (ev (mem (load_sw (D_RW (top s)))) (St gl e c mm) (top_sw s) (St gl e c mm)) as Hsw by (apply ev_mem; by eapply serves_load).
    assert (forall c' l1 e' mm', c' !! md_root_node md = Some (pool_uuid_lo (top s)) -> c' !! (md_root_node md + 8) = Some (off (top s)) ->
      ev (mem (load_toid (md_root_node md))) (St l1 e' c' mm') (top s) (St l1 e' c' mm')) as Hroot.
    { intros c' l1 e' mm' H1 H2. apply ev_mem. eapply mev_bind; [by apply mev_load|]. eapply mev_bind; [by apply mev_load|].
      destruct (top s). apply mev_ret. }
    assert (md_root_node md ∈ tree_words R md /\ md_root_node md + 8 ∈ tree_words R md) as [I1 I2] by (unfold tree_words; set_solver).
    unfold root_smo. eapply ev_bind; [apply ev_ret|]. eapply ev_bind; [by apply Hroot|]. do 3 (eapply ev_bind; [exact Hsw|]).
    cbv zeta. rewrite <- Hcompact, Hdue. cbn [negb]. do 2 (eapply ev_bind; [exact Hsw|]). eapply ev_bind; [exact Ev1|]. cbn [negb].
    eapply ev_bind; [by apply ev_mem|]. eapply ev_bind; [by apply ev_ld|]. eapply ev_bind; [by apply ev_st|].
    eapply ev_bind; [by apply ev_ld|]. eapply ev_bind; [by apply ev_st|]. rewrite <- E3.
    eapply ev_bind; [by apply Hroot; apply Hw5|].
    eapply ev_bind; [apply Ev4|].
    eapply ev_bind; [apply ev_mem, mev_root_object; exists u; apply Hw5; [unfold tree_words; set_solver|done]|].
    rewrite K3. eapply ev_bind; [exact Ev6|]. cbn match. eapply ev_bind; [|apply ev_ret].
    eapply ev_bind; [exact Ev7|]. eapply ev_bind; [|exact Ev8].
    by apply Hroot; apply Hw6'.
  - eapply (supplied_tail part u D 2 more c4 c6); [exact B3|]. transitivity c5.
    { eapply alike_larger; [|exact B5]. done. }
    intros a Ha. destruct (decide (a = loc)) as [->|Hne]; [|by rewrite Hs6'].
    rewrite Hw6. split; intros _; [by eexists|]. exists o. by apply Hw5.
  - assert (~ in_meta q loc) as Hlq by (apply (Hwords loc Hloc); by eexists).
    assert (forall a, in_meta q a -> c6 !! a = c5 !! a) as Hq6.
    { intros a Ha. apply Hs6'; [by apply (fi_apart _ _ _ _ _ Hq)|by intros ->]. }
    assert (in_meta q (md_root_node (D_RW q)) /\ in_meta q (md_root_node (D_RW q) + 8) /\ in_meta q (md_height (D_RW q)) /\
      in_meta q (md_global_epoch (D_RW q))) as (J1 & J2 & J3 & J4).
    { unfold in_meta, md_root_node, md_height, md_global_epoch, sizeof_Metadata. lia. }
    split; rewrite ?Hq6 by done; try done; [by apply (gr_apart _ _ _ B1)|].
    intros a Hp Hn Hno Hne. rewrite Hs6' by done. rewrite H53; [|done|intros n Hin; apply Hn, elem_of_app; by right].
    apply Hsame3; [done| |done]. intros ->. apply (Hn (top s)); [apply elem_of_app; left; by left|apply status_in].
  - intros n kvs Hn Hfit Hf. eapply fresh_node_same; [|exact Hfit|exact Hf]. intros a Ha. destruct (Hnews n Hn) as [Hg Hfr].
    destruct (Hfr a Ha) as [Ha1 Ha2]. rewrite Hs6'; [by apply B4|by apply (fi_apart _ _ _ _ _ Hg)|]. intros ->. unfold loc in Ha1. by rewrite K2 in Ha1.
Qed.
End change.

(** ** Compaction and split *)

Section both.
Context (ds : list Z) (d1 d2 : Z) (en : Entry) (gl : gmap Z GarbageList) (e : EpochWorld) (c : gmap Z Z) (mm : MetricsWorld).
Context (s : shape) (md : Z) (H : nat) (M : gmap (list ascii) (list ascii)).
Context (Hm : metrics_ok me mm) (Hs : sound part (d1 :: d2 :: ds) R u md H s c) (HM' : means s M).
Abbreviation D := (d1 :: d2 :: ds).

(** What is known of the root, as of any child. *)
Lemma root_known : load_readable (load_of s) /\ fits_node (pairs (load_of s)) /\ merge_sort key_le (live (recs_of s)) = pairs (load_of s) /\
  load_stands c u H (load_of s) /\ nodes s = top s :: beneath (load_of s) /\ (length (recs_of s) < fuel)%nat /\ fits_node (live (recs_of s)).
Proof.
  pose proof (sd_stands _ _ _ _ _ _ _ _ Hs) as Hst. pose proof (sd_order _ _ _ _ _ _ _ _ Hs) as Ho.
  pose proof (stands_readable _ _ _ Hst) as Hr. destruct (stands_has _ _ _ Hst) as (_ & Hlen & Hfit).
  split_and!; [by apply load_of_readable|by eapply pairs_fit|eapply in_order; [done|exact Ho|by eapply stands_visible]| |by eapply nodes_load|lia|done].
  rewrite <- (fi_pool _ _ _ _ _ (sd_good _ _ _ _ _ _ _ _ Hs _ (top_in s))). by apply load_of_stands.
Qed.

Lemma ev_root_compact r more :
  BZTREE_MAX_DELETED_SPACE < delete_size (top_sw s) ->
  ready me t m g part k sz i own kt szt (S (S r)) D en gl e c -> supplied part u D (sizeof_Metadata :: BZTREE_NODE_SIZE :: more) c ->
  exists q n gl' e' c' mm', let s' := make n (load_of s) in metrics_ok me mm' /\
    ev (root_smo me fuel (S depth) t md) (St gl e c mm) true (St gl' e' c' mm') /\
    ready me t m g part k sz i own kt szt r ds en gl' e' c' /\ supplied part u ds more c' /\
    sound part ds R u (D_RW q) H s' c' /\ means s' M /\ good part ds u n.
Proof.
  intros Hdel Hr Hsup. destruct root_known as (Kr & Kfit & Kpairs & Kload & Knodes & Klen & Klive).
  destruct (ev_root_change ds d1 d2 en gl e c mm s md H Hm Hs true H [BZTREE_NODE_SIZE] more
    (fun n news c4 => news = [n] /\ new_node c4 n (pairs (load_of s)))) with (r := r)
    as (q & n & news & c4 & gl' & e' & c' & mm' & Hm' & Hev & Hr' & Hsup' & Hrp & (-> & Hn) & Hfr).
  - symmetry. by apply Z.ltb_lt.
  - done.
  - intros q c3 [W1 W2 W3 W4]. destruct (mev_new_nodes (pairs (load_of s)) c3 (pool_cells part D) (fine part D u) more W4 Kfit)
      as (n & c4 & Ev & N & G & Gn & Hsv).
    destruct (builds_stored q n H [n] more D c3 c4 G ltac:(by apply Forall_singleton) Hsv ltac:(by left) W2 W3) as [Est B].
    exists n, [n], None, c4. eexists. split; [|split; [exact B|done]]. intros gl0 e0 mm0. unfold new_root.
    eapply ev_bind; [apply ev_mem; unfold node_compact; eapply mev_bind; [by eapply mev_copy_out|rewrite Kpairs; exact Ev]|].
    eapply ev_bind; [by apply ev_mem|apply ev_ret].
  - done.
  - done.
  - exists q, n, gl', e', c', mm'. cbn zeta. split; [done|]. split; [done|]. split; [done|]. split; [done|].
    pose proof (rp_new _ _ _ _ _ _ _ _ _ _ _ Hrp n ltac:(by left)) as [Gn _].
    assert (nodes s ≡ₚ [top s] ++ beneath (load_of s)) as Hold by (by rewrite Knodes).
    assert (nodes (make n (load_of s)) ≡ₚ [n] ++ beneath (load_of s)) as Hnew by (by rewrite nodes_make).
    rewrite <- (top_make n (load_of s)) in Hrp at 1.
    destruct (re_rooted part D R u s (make n (load_of s)) md H H c c' q [top s] [n] (beneath (load_of s)) Hs Hold Hnew Hrp M) as [Hs' Hmeans].
    + eapply made_stands; [exact Hfr|by left|exact Hn|done|done|done|]. eapply load_stands_mono; [exact Kload|].
      intros hx y Hy Hin. by eapply (stands_there part D R u s (make n (load_of s)) md H H c c' q [top s] [n] (beneath (load_of s))).
    + done.
    + rewrite top_make. by left.
    + apply ordered_make, ordered_load, Hs.
    + intros kv. rewrite entries_make, entries_load; [done|]. pose proof (sd_order _ _ _ _ _ _ _ _ Hs) as Ho. by destruct Ho.
    + split_and!; [by apply (sound_tail part R u D 2)|done|by apply (fine_tail part u D _ 2)..].
Qed.

(** The two halves of the root become its only children. *)
Lemma halves_pairs a b n : load_readable (load_of s) -> (0 < n < length (pairs (load_of s)))%nat ->
  split_records None (top s) (back_key (take n (pairs (load_of s)))) (back_key (drop n (pairs (load_of s)))) a b =
    child_pair <$> halves a b n (load_of s).
Proof.
  intros Hr Hn. cbn [split_records halves fmap list_fmap child_pair fst snd]. unfold child_pair. cbn [fst snd]. rewrite !top_make.
  destruct (top_key_plain _ (load_take_readable n _ Hr)) as [E1 _].
  { rewrite pairs_take. intros E%(f_equal length). rewrite length_take in E. simpl in E. lia. }
  destruct (top_key_plain _ (load_drop_readable n _ Hr)) as [E2 _].
  { rewrite pairs_drop. intros E%(f_equal length). rewrite length_drop in E. simpl in E. lia. }
  rewrite E1, E2. unfold top_key. by rewrite pairs_take, pairs_drop.
Qed.

Lemma ev_root_split r more :
  let kvs := pairs (load_of s) in
  delete_size (top_sw s) <= BZTREE_MAX_DELETED_SPACE ->
  BZTREE_NODE_SIZE < BZTREE_MIN_FREE_SPACE + sizeof_NodeHeader + block_size (top_sw s) + record_count (top_sw s) * sizeof_NodeMetadata ->
  (2 < length kvs)%nat -> total_key_len kvs < 2 * total_key_len (removelast kvs) ->
  (forall a b, fits_node (child_pair <$> halves a b (BzSmo.sep_of kvs) (load_of s))) -> Z.of_nat H < 2 ^ 32 ->
  ready me t m g part k sz i own kt szt (S (S r)) D en gl e c ->
  supplied part u D (sizeof_Metadata :: replicate 3 BZTREE_NODE_SIZE ++ more) c ->
  exists q p a b gl' e' c' mm', let s' := make p (Children (halves a b (BzSmo.sep_of kvs) (load_of s))) in metrics_ok me mm' /\
    ev (root_smo me fuel (S depth) t md) (St gl e c mm) true (St gl' e' c' mm') /\
    ready me t m g part k sz i own kt szt r ds en gl' e' c' /\ supplied part u ds more c' /\
    sound part ds R u (D_RW q) (S H) s' c' /\ means s' M /\ good part ds u p /\ good part ds u a /\ good part ds u b.
Proof.
  intros kvs Hdel Hfull Hlen Htot Hroom HH Hr Hsup. destruct root_known as (Kr & Kfit & Kpairs & Kload & Knodes & Klen & Klive).
  set (n := BzSmo.sep_of kvs) in *. assert (0 < n < length kvs)%nat as Hcut by (by apply sep_of_bounds). unfold kvs in Hcut.
  destruct (ev_root_change ds d1 d2 en gl e c mm s md H Hm Hs false (S H) (replicate 3 BZTREE_NODE_SIZE) more
    (fun p news c4 => exists a b, news = [a; b; p] /\ new_node c4 a (take n kvs) /\ new_node c4 b (drop n kvs) /\
      new_node c4 p (child_pair <$> halves a b n (load_of s)))) with (r := r)
    as (q & p & news & c4 & gl' & e' & c' & mm' & Hm' & Hev & Hr' & Hsup' & Hrp & (a & b & -> & Na & Nb & Np) & Hfr).
  - symmetry. by apply Z.ltb_ge.
  - by apply Z.ltb_lt.
  - intros q c3 [W1 W2 W3 W4].
    destruct (mev_node_split fuel (pool_cells part D) (fine part D u) more c3 None None (top s) _ _ W1)
      as (_ & _ & c4 & p & a & b & Ev & G & Na & Nb & Np & Gn & Hsv); [done|done|done|done|by rewrite Kpairs|by rewrite Kpairs| |].
    { intros a b. rewrite Kpairs. fold kvs. fold n. unfold kvs. rewrite halves_pairs by done. apply Hroom. }
    rewrite Kpairs in Na, Nb, Np. fold kvs in Na, Nb, Np. fold n in Na, Nb, Np. unfold kvs in Np. rewrite halves_pairs in Np by done.
    destruct (builds_stored q p H [a; b; p] more D c3 c4 G Gn Hsv ltac:(by right; right; left) W2 W3) as [Est B].
    pose proof (builds_raised q p H (S H) _ _ _ _ _ _ B) as B'.
    exists p, [a; b; p], (Some (a, b)), c4. eexists. split; [|split; [exact B'|by exists a, b]]. intros gl0 e0 mm0. unfold new_root.
    eapply ev_bind; [by apply ev_mem|]. eapply ev_bind; [by apply ev_mem|]. eapply ev_bind; [apply ev_ld, (bd_height _ _ _ _ _ _ _ _ _ B)|].
    rewrite u64_id by (unfold fits; lia). replace (Z.of_nat H + 1) with (Z.of_nat (S H)) by lia.
    eapply ev_bind; [apply ev_st; by rewrite (bd_height _ _ _ _ _ _ _ _ _ B)|apply ev_ret].
  - done.
  - done.
  - exists q, p, a, b, gl', e', c', mm'. cbn zeta. split; [done|]. split; [done|]. split; [done|]. split; [done|].
    set (s' := make p (Children (halves a b n (load_of s)))).
    pose proof (fun x Hx => proj1 (rp_new _ _ _ _ _ _ _ _ _ _ _ Hrp x Hx)) as Hg.
    pose proof (Hg a ltac:(by left)) as Ga. pose proof (Hg b ltac:(by right; left)) as Gb. pose proof (Hg p ltac:(by right; right; left)) as Gp.
    assert (nodes s ≡ₚ [top s] ++ beneath (load_of s)) as Hold by (by rewrite Knodes).
    assert (nodes s' ≡ₚ [a; b; p] ++ beneath (load_of s)) as Hnew.
    { unfold s'. rewrite nodes_make. cbn [beneath halves fmap list_fmap snd flat_map]. rewrite !nodes_make, app_nil_r, (beneath_split n (load_of s)). solve_Permutation. }
    change p with (top s') in Hrp at 1.
    assert (load_stands c' u H (load_of s)) as Kload'.
    { eapply load_stands_mono; [exact Kload|]. intros hx y Hy Hin.
      by eapply (stands_there part D R u s s' md H (S H) c c' q [top s] [a; b; p] (beneath (load_of s))). }
    destruct (load_stands_take c' u H n (load_of s) Hcut Kload') as [Kt Kd].
    assert (fits_node (pairs (load_take n (load_of s))) /\ fits_node (pairs (load_drop n (load_of s)))) as [Ft Fd].
    { apply fits_app. by rewrite pairs_take, pairs_drop, take_drop. }
    unfold kvs in Na, Nb. rewrite <- pairs_take in Na. rewrite <- pairs_drop in Nb.
    destruct (halves_forest None None a b n (load_of s) ltac:(apply ordered_load, Hs) Kr Hcut) as (Hfo & _).
    destruct (re_rooted part D R u s s' md H (S H) c c' q [top s] [a; b; p] (beneath (load_of s)) Hs Hold Hnew Hrp M) as [Hs' Hmeans].
    + unfold s'. eapply made_stands; [exact Hfr|by right; right; left|exact Np|apply Hroom| |done|].
      { constructor; cbn [halves fmap list_fmap fst snd].
        - intros x Hx. rewrite !elem_of_cons, elem_of_nil in Hx. destruct Hx as [->|[->|[]]]; (eapply top_key_plain; [by apply load_take_readable || by apply load_drop_readable|]);
            rewrite ?pairs_take, ?pairs_drop; intros E%(f_equal length); rewrite ?length_take, ?length_drop in E; simpl in E; lia.
        - intros x Hx. rewrite !elem_of_cons, elem_of_nil in Hx. destruct Hx as [->|[->|[]]]; apply make_readable; [by apply load_take_readable|by apply load_drop_readable]. }
      split; [done|]. exists H. split; [done|]. cbn [halves fmap list_fmap snd]. intros y Hy. rewrite !elem_of_cons, elem_of_nil in Hy.
      destruct Hy as [->|[->|[]]].
      * eapply made_kid; [exact Hfr|by left|exact Na|done|by apply load_take_readable|done|done].
      * eapply made_kid; [exact Hfr|by right; left|exact Nb|done|by apply load_drop_readable|done|done].
    + done.
    + unfold s'. rewrite top_make. by right; right; left.
    + unfold s'. apply ordered_make. by constructor.
    + intros kv. unfold s'. rewrite entries_make, entries_load by (pose proof (sd_order _ _ _ _ _ _ _ _ Hs) as Ho; by destruct Ho).
      cbn [below halves fmap list_fmap snd flat_map]. rewrite !elem_of_app, !entries_make, elem_of_nil.
      destruct (load_of s) as [kvs0|qs]; cbn [below load_take load_drop].
      * rewrite <- (take_drop n kvs0) at 1. rewrite elem_of_app. tauto.
      * rewrite <- (take_drop n qs) at 1. rewrite fmap_app, flat_map_app, elem_of_app. tauto.
    + split_and!; [by apply (sound_tail part R u D 2)|done|by apply (fine_tail part u D _ 2)..].
Qed.
End both.
End root.
