(* ===== verification/BzDue.v ===== *)
(** * The search that modifies the tree (bztree.cc)

    [find_leaf_parent_smo] comes to the first child on the way of its key that is to be
    compacted, split or merged, modifies it and asks for another search; [find_leaf] runs
    searches until none is due. *)
From Stdlib Require Import ZArith Lia Ascii.
From stdpp Require Import base list gmap strings sorting.
From S2P Require Import Prelude Bytes Prog Status Hash Library Epoch Garbage Metrics Memory Descriptor MwCAS Entries Target Pool DList DListSpec BzNode BzTree BzBytes BzNodeSpec BzSmo BzLeaf BzSupply BzPlace BzMap BzHeight BzOrder BzBuild BzParent BzWay BzSteps BzModify BzChild BzRoot.
#[local] Open Scope Z_scope.
#[local] Open Scope machine_scope.
#[local] Open Scope prog_scope.

(** The word that leads to a subtree can be the target of a multi-word CAS. *)
Definition aligned `{Pmdk} (l : option link) : Prop :=
  match l with Some lk => link_at (l_node lk) (l_sep lk) mod 8 = 0 | None => True end.

(** The left one of the two children that are merged: the left neighbour is preferred. *)
Definition merge_at (kids : list shape) (j : nat) (fs : Z) : option nat :=
  if negb (TOID_IS_NULL (mergeable kids (Z.of_nat j - 1) fs)) then Some (pred j)
  else if negb (TOID_IS_NULL (mergeable kids (Z.of_nat j + 1) fs)) then Some j else None.

(** A search for [key] in [s] modifies the tree: the root, or the first child on the way that
    is to be modified.  That takes slots of the garbage list and objects, may make the tree
    higher, and gives a tree in terms of the new nodes. *)
Inductive due `{Pmdk} (key : bytes) (s : shape) : nat -> list Z -> nat -> (TOID -> TOID -> TOID -> shape) -> Prop :=
| due_root_compact :
    BZTREE_MAX_DELETED_SPACE < delete_size (top_sw s) ->
    due key s 2 [sizeof_Metadata; BZTREE_NODE_SIZE] 0 (fun p _ _ => make p (load_of s))
| due_root_split :
    let kvs := pairs (load_of s) in
    delete_size (top_sw s) <= BZTREE_MAX_DELETED_SPACE ->
    BZTREE_NODE_SIZE < BZTREE_MIN_FREE_SPACE + sizeof_NodeHeader + block_size (top_sw s) + record_count (top_sw s) * sizeof_NodeMetadata ->
    (2 < length kvs)%nat -> total_key_len kvs < 2 * total_key_len (removelast kvs) ->
    (forall a b, fits_node (child_pair <$> halves a b (BzSmo.sep_of kvs) (load_of s))) ->
    due key s 2 (sizeof_Metadata :: replicate 3 BZTREE_NODE_SIZE) 1
      (fun p a b => make p (Children (halves a b (BzSmo.sep_of kvs) (load_of s))))
| due_compact d P psw seps kids lk rest plug kid x :
    settled (top_sw s) -> let j := slot (s_key <$> seps) key in
    way passes key s d (Inner P psw seps kids) lk rest plug -> kids !! j = Some kid -> seps !! j = Some x ->
    BZTREE_MAX_DELETED_SPACE < delete_size (top_sw kid) -> link_at P x mod 8 = 0 ->
    due key s 1 [BZTREE_NODE_SIZE] 0 (fun p _ _ => plug (Inner P psw seps (<[j := make p (load_of kid)]> kids)))
| due_split d P psw seps kids lk rest plug kid :
    settled (top_sw s) -> let j := slot (s_key <$> seps) key in
    let kvs := pairs (load_of kid) in
    let children := children_split (keyed seps kids) j kid (BzSmo.sep_of kvs) in
    way passes key s d (Inner P psw seps kids) lk rest plug -> kids !! j = Some kid ->
    delete_size (top_sw kid) <= BZTREE_MAX_DELETED_SPACE -> free_of (top_sw kid) < BZTREE_MIN_FREE_SPACE -> aligned lk ->
    (2 < length kvs)%nat -> total_key_len kvs < 2 * total_key_len (removelast kvs) ->
    (forall a b, fits_node (child_pair <$> children a b)) -> (drop (S j) (keyed seps kids) <> [] -> tight kid) ->
    due key s 2 (replicate 3 BZTREE_NODE_SIZE) 0 (fun p a b => plug (make p (Children (children a b))))
| due_merge d P psw seps kids lk rest plug kid i a b x :
    settled (top_sw s) -> let j := slot (s_key <$> seps) key in
    way passes key s d (Inner P psw seps kids) lk rest plug -> kids !! j = Some kid ->
    delete_size (top_sw kid) <= BZTREE_MAX_DELETED_SPACE -> BZTREE_MIN_FREE_SPACE <= free_of (top_sw kid) ->
    merge_at kids j (free_of (top_sw kid)) = Some i -> kids !! i = Some a -> kids !! S i = Some b -> seps !! S i = Some x ->
    aligned lk -> tight a ->
    due key s 3 (replicate 2 BZTREE_NODE_SIZE) 0 (fun p n _ => plug (make p (Children (children_merged (keyed seps kids) i a (s_key x) b n)))).

(** What is merged has the free space that it takes. *)
Lemma mergeable_some kids i fs : TOID_IS_NULL (mergeable kids i fs) = false ->
  exists kid, 0 <= i /\ kids !! Z.to_nat i = Some kid /\ mergeable kids i fs = top kid /\
    BZTREE_MIN_FREE_SPACE + BZTREE_NODE_SIZE <= fs + free_of (top_sw kid).
Proof.
  unfold mergeable. destruct (kids !! Z.to_nat i) as [kid|]; [|done].
  destruct (Z.leb_spec 0 i); [|done]. destruct (Z.ltb_spec (fs + free_of (top_sw kid)) (BZTREE_MIN_FREE_SPACE + BZTREE_NODE_SIZE)); [done|].
  cbn [andb negb]. intros _. by exists kid.
Qed.

Lemma merge_at_some kids j kid i a b kd :
  kids !! j = Some kid -> merge_at kids j (free_of (top_sw kid)) = Some i -> kids !! i = Some a -> kids !! S i = Some b ->
  d_child kd = top kid -> d_left kd = mergeable kids (Z.of_nat j - 1) (free_of (top_sw kid)) ->
  d_right kd = mergeable kids (Z.of_nat j + 1) (free_of (top_sw kid)) ->
  negb (TOID_IS_NULL (d_left kd)) || negb (TOID_IS_NULL (d_right kd)) = true /\
  (if negb (TOID_IS_NULL (d_left kd)) then (d_left kd, d_child kd) else (d_child kd, d_right kd)) = (top a, top b) /\
  BZTREE_MIN_FREE_SPACE + BZTREE_NODE_SIZE <= free_of (top_sw a) + free_of (top_sw b).
Proof.
  unfold merge_at. intros Hk Hat Ha Hb -> -> ->.
  destruct (TOID_IS_NULL (mergeable kids (Z.of_nat j - 1) _)) eqn:El; cbn [negb orb] in *.
  - destruct (TOID_IS_NULL (mergeable kids (Z.of_nat j + 1) _)) eqn:Er; [done|]. injection Hat as <-.
    destruct (mergeable_some _ _ _ Er) as (y & _ & Hy & -> & Hf). replace (Z.to_nat (Z.of_nat j + 1)) with (S j) in Hy by lia.
    rewrite Hk in Ha. rewrite Hb in Hy. injection Ha as ->. injection Hy as ->. done.
  - injection Hat as <-. destruct (mergeable_some _ _ _ El) as (y & Hj & Hy & -> & Hf).
    replace (Z.to_nat (Z.of_nat j - 1)) with (pred j) in Hy by lia. replace (S (pred j)) with j in Hb by lia.
    rewrite Hk in Hb. rewrite Ha in Hy. injection Hb as ->. injection Hy as ->. split; [done|]. split; [done|lia].
Qed.

Section due.
Context {HP : Platform} {HL : PlatformLaws} {HM : Pmdk} {HP' : PmdkLaws} (me : Z) (fuel : nat) (fuel_big : (30 < fuel)%nat) (depth : nat).
Context (t : BzTree) (m g part : Z) (k sz i : nat) (own : nat) (own_ne : epoch t <> m).
Context (kt szt : nat) (garbage_ne : garbage t <> g) (R : TOID) (u : Z).
(** The root object has been allocated; an address of the pool is that of one object. *)
Context (root_fixed : forall s, is_Some (cells s !! D_RW R) -> pmemobj_root sizeof_RootObj s = (R, s)).
Context (oid_fixed : forall q, pool_uuid_lo q = u -> pmemobj_oid (D_RW q) = q).

(** ** The turn that modifies *)

Section turn.
Context (ds : list Z) (d1 d2 : Z) (key : bytes) (s : shape) (md : Z) (H d : nat) (P : TOID) (psw : NodeHeaderStatusWord)
  (seps : list sep) (kids : list shape) (lk : option link) (rest : list TOID) (plug : shape -> shape).
Context (gl : gmap Z GarbageList) (e : EpochWorld) (c : gmap Z Z) (mm : MetricsWorld).
Context (Hs : sound part (d1 :: d2 :: ds) R u md H s c) (Hw : way passes key s d (Inner P psw seps kids) lk rest plug).
Context (h : nat) (lo hi : option bytes) (Hsub : sub_ok part u ds d1 d2 c H d P psw seps kids h lo hi).
Context (kid : shape) (Hk : kids !! slot (s_key <$> seps) key = Some kid).
Context (Hset : settled (top_sw s)) (Hb : Z.of_nat H < 2 ^ 32) (Hf : (H <= fuel)%nat) (Hkey : NUL ∉ key).

(** What the search has found when it comes to the child. *)
Definition found (x : sep) : descent :=
  let j := Z.of_nat (slot (s_key <$> seps) key) in
  MkDescent j (top kid) (link_at P x) (free_of (top_sw kid)) (mergeable kids (j - 1) (free_of (top_sw kid)))
    (mergeable kids (j + 1) (free_of (top_sw kid))).

(** A search that modifies the child ends there. *)
Lemma ev_search_turn x w : seps !! slot (s_key <$> seps) key = Some x ->
  ev (child_smo me fuel (S depth) t (l_node <$> lk) (addr md lk) P psw (found x)) (St gl e c mm) true w ->
  ev (find_leaf_parent_smo me fuel (S depth) t key true md) (St gl e c mm) None w.
Proof.
  intros Hx Hev. pose proof (sd_rooted _ _ _ _ _ _ _ _ Hs) as Hr. pose proof (rt_height _ _ _ _ _ Hr) as Hh.
  destruct (stands_top _ _ _ (sd_stands _ _ _ _ _ _ _ _ Hs)) as [T1 T2]. pose proof (so_height _ _ _ _ _ _ _ _ _ _ _ _ _ _ _ Hsub) as EH.
  assert (0 < h)%nat as Hh0.
  { destruct (so_kid _ _ _ _ _ _ _ _ _ _ _ _ _ _ _ Hsub _ _ Hk) as (Hst & _). apply stands_height in Hst. destruct kid; lia. }
  unfold find_leaf_parent_smo. eapply (ev_bind _ _ _ false).
  { eapply ev_root_smo; [exact Hr| |exact Hset]. unfold load_sw. eapply mev_bind; [by apply mev_load|].
    rewrite sw_of_word by done. apply mev_ret. }
  cbv beta match. eapply ev_bind; [by apply ev_ld|]. eapply ev_bind; [by eapply ev_mem, mev_root|].
  rewrite (proj2 (Z.eqb_neq _ _)) by lia. replace fuel with (d + (fuel - d))%nat at 1 by lia.
  eapply (ev_way me fuel t (S depth) md key H s d _ lk rest plug); [exact Hw|apply Hs|done|done|done|lia|].
  destruct (fuel - d)%nat as [|n] eqn:En; [lia|]. cbn [loop]. eapply (ev_bind _ _ _ (inr None)); [|apply ev_ret].
  unfold traverse_turn. cbn [arrived p_parent p_h p_grandparent p_off_ptr top].
  pose proof (so_inner _ _ _ _ _ _ _ _ _ _ _ _ _ _ _ Hsub) as Hi.
  eapply ev_bind; [apply ev_mem; eapply mev_load_sw, in_has, Hi|].
  eapply ev_bind.
  { apply ev_mem. eapply mev_descend; [exact Hi| |done|exact Hk|exact Hx]. intros q y Hq.
    eapply stands_top. by apply (so_kid _ _ _ _ _ _ _ _ _ _ _ _ _ _ _ Hsub _ _ Hq). }
  eapply (ev_bind _ _ _ true); [|apply ev_ret]. destruct lk as [lk0|]; exact Hev.
Qed.
End turn.

(** A search that modifies the tree keeps its map, and asks for another search. *)
Lemma ev_due ds d1 d2 en gl e c mm key s md H r sizes up result r0 more M :
  due key s r sizes up result -> Z.of_nat H < 2 ^ 32 -> (H <= fuel)%nat -> NUL ∉ key ->
  metrics_ok me mm -> sound part (d1 :: d2 :: ds) R u md H s c ->
  ready me t m g part k sz i own kt szt (r + r0) (d1 :: d2 :: ds) en gl e c -> supplied part u (d1 :: d2 :: ds) (sizes ++ more) c -> means s M ->
  exists p a b md' gl' e' c' mm', let s' := result p a b in
    ev (find_leaf_parent_smo me fuel (S depth) t key true md) (St gl e c mm) None (St gl' e' c' mm') /\ metrics_ok me mm' /\
    ready me t m g part k sz i own kt szt r0 ds en gl' e' c' /\ supplied part u ds more c' /\
    sound part ds R u md' (up + H) s' c' /\ means s' M /\ good part ds u p /\ good part ds u a /\ good part ds u b.
Proof.
  intros Hdue Hb Hf Hkey Hm Hs Hr Hsup HM'.
  assert (forall w, ev (root_smo me fuel (S depth) t md) (St gl e c mm) true w ->
    ev (find_leaf_parent_smo me fuel (S depth) t key true md) (St gl e c mm) None w) as Hroot.
  { intros w Hev. unfold find_leaf_parent_smo. eapply ev_bind; [exact Hev|apply ev_ret]. }
  destruct Hdue as [Hdel|kvs Hdel Hfull Hlen Htot Hroom
                   |d P psw seps kids lk rest plug kid x Hset j Hw Hk Hx Hdel Hal
                   |d P psw seps kids lk rest plug kid Hset j kvs children Hw Hk Hdel Hfree Hal Hlen Htot Hroom Htight
                   |d P psw seps kids lk rest plug kid i0 a b x2 Hset j Hw Hk Hdel Hfree Hat Ha Hb' Hx2 Hal Htight].
  3-5: pose proof (way_any _ _ _ _ _ _ _ _ Hw) as Hwa;
    destruct (sub_sound part R u ds d1 d2 c key s md H d P psw seps kids lk rest plug Hs Hwa) as (h & lo & hi & Hsub);
    pose proof (serves_kid part u ds d1 d2 c H d P psw seps kids h lo hi Hsub j kid Hk) as SK.
  - destruct (ev_root_compact me fuel fuel_big depth t m g part k sz i own own_ne kt szt garbage_ne R u root_fixed oid_fixed ds d1 d2 en gl e c mm
      s md H M Hm Hs HM' r0 more Hdel Hr Hsup) as (q & n & gl' & e' & c' & mm' & Hm' & Hev & Hout).
    exists n, n, n, (D_RW q), gl', e', c', mm'. split; [by apply Hroot|]. cbn zeta in *; tauto.
  - destruct (ev_root_split me fuel fuel_big depth t m g part k sz i own own_ne kt szt garbage_ne R u root_fixed oid_fixed ds d1 d2 en gl e c mm
      s md H M Hm Hs HM' r0 more Hdel Hfull Hlen Htot Hroom Hb Hr Hsup) as (q & p & a & b & gl' & e' & c' & mm' & Hm' & Hev & Hout).
    exists p, a, b, (D_RW q), gl', e', c', mm'. split; [by apply Hroot|]. cbn zeta in *; tauto.
  - destruct (ev_child_compact me fuel fuel_big depth t m g part k sz i own own_ne kt szt garbage_ne R u ds d1 d2 en gl e c mm key s md H d P psw
      seps kids lk rest plug Hm Hs Hwa h lo hi Hsub kid x Hk Hx r0 more M (found key P seps kids kid x) Hr Hsup HM' Hal eq_refl eq_refl)
      as (p & gl' & e' & c' & mm' & Hev & Hout).
    exists p, p, p, md, gl', e', c', mm'. split; [|cbn zeta in *; tauto]. eapply ev_search_turn; [exact Hs|exact Hw|exact Hsub|exact Hk|done..|exact Hx|].
    unfold child_smo. eapply ev_bind; [by apply ev_mem; eapply serves_load|]. rewrite (proj2 (Z.ltb_lt _ _)) by done.
    eapply ev_bind; [exact Hev|apply ev_ret].
  - destruct (lookup_lt_is_Some_2 seps j) as [x Hx]; [rewrite (so_length _ _ _ _ _ _ _ _ _ _ _ _ _ _ _ Hsub); by eapply lookup_lt_Some|].
    destruct (ev_child_split me fuel fuel_big depth t m g part k sz i own own_ne kt szt garbage_ne R u ds d1 d2 en gl e c mm key s md H d P psw
      seps kids lk rest plug Hm Hs Hwa h lo hi Hsub kid Hk Hal x Hx Hlen Htot Hroom Htight r0 more M (found key P seps kids kid x) Hr Hsup HM' eq_refl)
      as (p & a & b & gl' & e' & c' & mm' & Hev & Hout).
    exists p, a, b, md, gl', e', c', mm'. split; [|cbn zeta in *; tauto]. eapply ev_search_turn; [exact Hs|exact Hw|exact Hsub|exact Hk|done..|exact Hx|].
    unfold child_smo. eapply ev_bind; [by apply ev_mem; eapply serves_load|]. rewrite (proj2 (Z.ltb_ge _ _)) by done.
    cbn [found d_fs]. rewrite (proj2 (Z.ltb_lt _ _)) by done. eapply ev_bind; [exact Hev|apply ev_ret].
  - destruct (lookup_lt_is_Some_2 seps j) as [x Hx]; [rewrite (so_length _ _ _ _ _ _ _ _ _ _ _ _ _ _ _ Hsub); by eapply lookup_lt_Some|].
    destruct (merge_at_some kids j kid i0 a b (found key P seps kids kid x) Hk Hat Ha Hb' eq_refl eq_refl eq_refl) as (Hany & Hpair & Hsum).
    destruct (ev_child_merge me fuel fuel_big depth t m g part k sz i own own_ne kt szt garbage_ne R u ds d1 d2 en gl e c mm key s md H d P psw
      seps kids lk rest plug Hm Hs Hwa h lo hi Hsub i0 a b x2 Ha Hb' Hx2 Hal r0 more M (found key P seps kids kid x) Hr Hsup HM' Hpair Hsum Htight)
      as (p & n & gl' & e' & c' & mm' & Hev & Hout).
    exists p, n, n, md, gl', e', c', mm'. split; [|cbn zeta in *; tauto]. eapply ev_search_turn; [exact Hs|exact Hw|exact Hsub|exact Hk|done..|exact Hx|].
    unfold child_smo. eapply ev_bind; [by apply ev_mem; eapply serves_load|]. rewrite (proj2 (Z.ltb_ge _ _)) by done.
    cbn [found d_fs]. rewrite (proj2 (Z.ltb_ge _ _)) by done. fold (found key P seps kids kid x). rewrite Hany.
    eapply ev_bind; [exact Hev|apply ev_ret].
Qed.

(** ** Searches until nothing is due *)

(** After [n] modifications a search for [key] finds no more to do, whatever nodes the
    allocator gives.  They take [r] slots of the garbage list and objects of [sizes]. *)
Inductive settling (key : bytes) : nat -> nat -> list Z -> shape -> Prop :=
| settling_done s : settled (top_sw s) -> quiet key s -> settling key 0 0 [] s
| settling_more s r sizes up result n r' sizes' :
    due key s r sizes up result ->
    (forall p a b, good part [] u p -> good part [] u a -> good part [] u b -> settling key n r' sizes' (result p a b)) ->
    settling key (S n) (r + r') (sizes ++ sizes') s.

Lemma good_any ds x : good part ds u x -> good part [] u x.
Proof. intros H. by apply (fine_tail part u ds _ (length ds)) in H; rewrite drop_all in H. Qed.

(** The search ends in the key's leaf, in a tree for the same map. *)
Lemma ev_settling key n r sizes s : settling key n r sizes s ->
  forall turns ds en gl e c mm md H r0 more M, (n < turns)%nat -> (2 * n <= length ds)%nat -> (n + H <= fuel)%nat -> Z.of_nat (n + H) < 2 ^ 32 ->
  NUL ∉ key -> metrics_ok me mm -> sound part ds R u md H s c ->
  ready me t m g part k sz i own kt szt (r + r0) ds en gl e c -> supplied part u ds (sizes ++ more) c -> means s M ->
  exists s' md' H' place leaf_oid sw rs plug gl' e' c' mm', place.1.1 = leaf_oid /\
    ev (loop turns (fun _ : unit =>
          let! md := get_metadata in
          let! v := find_leaf_parent_smo me fuel (S depth) t key true md in
          match v with None => Ret (inl tt) | Some v => Ret (inr v) end) tt) (St gl e c mm) place (St gl' e' c' mm') /\
    metrics_ok me mm' /\ ready me t m g part k sz i own kt szt r0 (drop (2 * n) ds) en gl' e' c' /\
    supplied part u (drop (2 * n) ds) more c' /\ sound part (drop (2 * n) ds) R u md' H' s' c' /\ means s' M /\
    settled (top_sw s') /\ quiet key s' /\ leads key s' leaf_oid sw rs plug /\
    leaf c' (D_RW leaf_oid) sw rs /\ (H' <= n + H)%nat.
Proof.
  induction 1 as [s Hset Hq|s r sizes up result n r' sizes' Hdue _ IH];
    intros turns ds en gl e c mm md H r0 more M Hn Hds Hf Hb Hkey Hm Hs Hr Hsup HM'; (destruct turns as [|turns]; [lia|]); cbn [loop].
  - destruct (stands_leads _ _ _ key (sd_stands _ _ _ _ _ _ _ _ Hs)) as (leaf_oid & sw & rs & plug & Hle & Hleaf).
    destruct (ev_find_parent_of me fuel fuel_big t R (S depth) key true md H s leaf_oid sw rs plug gl e c mm)
      as (par & idx & Hev); [apply Hs|apply Hs|done|lia|done|done|done|].
    exists s, md, H, (leaf_oid, par, idx), leaf_oid, sw, rs, plug, gl, e, c, mm. rewrite drop_0. split_and!; try done.
    eapply (ev_bind _ _ _ (inr (leaf_oid, par, idx))); [|apply ev_ret].
    eapply ev_bind; [eapply ev_get_metadata; [exact root_fixed|apply Hs]|]. eapply ev_bind; [exact Hev|apply ev_ret].
  - destruct ds as [|d1 [|d2 ds]]; [simpl in Hds; lia|simpl in Hds; lia|].
    rewrite <- Nat.add_assoc in Hr. rewrite <- app_assoc in Hsup.
    destruct (ev_due ds d1 d2 en gl e c mm key s md H r sizes up result (r' + r0) (sizes' ++ more) M Hdue) as
      (p & a & b & md' & gl1 & e1 & c1 & mm1 & Hev & Hm1 & Hr1 & Hsup1 & Hs1 & HM1 & Gp & Ga & Gb); [lia|lia|done|done|done|done|done|done|].
    assert (up <= 1)%nat as Hup by (destruct Hdue; lia).
    destruct (IH p a b (good_any _ _ Gp) (good_any _ _ Ga) (good_any _ _ Gb) turns ds en gl1 e1 c1 mm1 md' (up + H)%nat r0 more M)
      as (s' & md'' & H' & v & leaf_oid & sw & rs & plug & gl' & e' & c' & mm' & Ev & Hrest); try done; [lia|simpl in Hds; lia|lia|lia|].
    exists s', md'', H', v, leaf_oid, sw, rs, plug, gl', e', c', mm'. split; [done|].
    replace (2 * S n)%nat with (S (S (2 * n))) by lia. cbn [drop].
    destruct Hrest as (Hev' & Hrest). split; [|destruct Hrest as (R1 & R2 & R3 & R4 & R5 & R6 & R7 & R8 & R9 & R10); split_and!; [done..|lia]].
    eapply (ev_bind _ _ _ (inl tt)); [|exact Hev'].
    eapply ev_bind; [eapply ev_get_metadata; [exact root_fixed|apply Hs]|]. eapply ev_bind; [exact Hev|apply ev_ret].
Qed.
End due.
