(* ===== verification/BzUse.v ===== *)
(** * Operations that modify the tree first (bztree.cc)

    An insertion or update whose search compacts, splits or merges nodes before it comes to
    the leaf: its answer is the map's, and it leaves an ordered tree for the map after it. *)
From Stdlib Require Import ZArith Lia Ascii.
From stdpp Require Import base list gmap strings sorting.
From S2P Require Import Prelude Bytes Prog Status Hash Library Epoch Garbage Metrics Memory Descriptor MwCAS Entries Target Pool DList DListSpec BzNode BzTree BzBytes BzNodeSpec BzSmo BzLeaf BzSupply BzPlace BzMap BzHeight BzOrder BzBuild BzParent BzWay BzSteps BzModify BzChild BzRoot BzDue.
#[local] Open Scope Z_scope.
#[local] Open Scope machine_scope.
#[local] Open Scope prog_scope.

(** ** Order and the leaf of a key *)

(** The child in a key's slot has bounds that the key is between. *)
Lemma slot_between lo hi ks key k kid :
  forest lo hi ks -> NUL ∉ key -> (forall x, x ∈ ks.*1 -> NUL ∉ x) -> between lo hi (zstr key) -> ks !! slot ks.*1 key = Some (k, kid) ->
  exists lo' hi', between lo' hi' (zstr key) /\ ordered lo' hi' kid /\
    forall kid', ordered lo' hi' kid' -> forest lo hi (<[slot ks.*1 key := (k, kid')]> ks).
Proof.
  intros Hf Hk. induction Hf as [lo hi k1 kid1 Hb Ho|lo hi k1 kid1 ks Hb Ho Hf IH]; intros Hnul Hbt Hi.
  - assert (slot [k1] key = O) as E by (unfold slot; cbn [first_ge length]; by case_bool_decide). cbn [fmap list_fmap fst] in *.
    rewrite E in *. injection Hi as -> ->. exists lo, hi. split; [done|]. split; [done|]. intros kid' Ho'. by constructor.
  - pose proof (forest_length _ _ _ Hf) as Hlen. cbn [fmap list_fmap fst] in *. assert (NUL ∉ k1) as Hk1 by (apply Hnul; by left).
    assert (slot (k1 :: ks.*1) key = if bool_decide (bytes_lt k1 key) then S (slot ks.*1 key) else O) as E.
    { unfold slot. cbn [first_ge length]. rewrite length_fmap. case_bool_decide; [|done]. simpl.
      destruct (Nat.eqb_spec (first_ge ks.*1 key) (length ks)); [lia|done]. }
    rewrite E in *. case_bool_decide as Hlt.
    + destruct IH as (lo' & hi' & H1 & H2 & H3); [intros x Hx; apply Hnul; by right| |exact Hi|].
      { split; [|apply Hbt]. by apply zstr_lt. }
      exists lo', hi'. split; [done|]. split; [done|]. intros kid' Ho'. cbn. constructor; [done|done|by apply H3].
    + injection Hi as -> ->. exists lo, (Some (zstr k)). split; [|split; [done|]].
      * split; [apply Hbt|]. apply leb_not_lt. by rewrite zstr_lt.
      * intros kid' Ho'. cbn. by constructor.
Qed.

Lemma leads_ordered key s leaf_oid sw rs plug lo hi :
  leads key s leaf_oid sw rs plug -> readable s -> NUL ∉ key -> ordered lo hi s -> between lo hi (zstr key) ->
  exists lo' hi', between lo' hi' (zstr key) /\ ordered lo' hi' (Leaf leaf_oid sw rs) /\
    forall sw' rs', ordered lo' hi' (Leaf leaf_oid sw' rs') -> ordered lo hi (plug sw' rs').
Proof.
  intros Hle Hr Hk. revert lo hi. induction Hle as [node sw rs|node nsw seps kids kid leaf_oid sw rs plug Hkid _ IH]; intros lo hi Ho Hb.
  - exists lo, hi. auto.
  - inversion Hr as [|? ? ? ? _ Hnul Hkids]; subst. inversion Ho as [|? ? ? ? ? ? Hl Hf]; subst.
    rewrite <- (keyed_keys seps kids Hl) in Hkid |- *.
    destruct (lookup_lt_is_Some_2 (keyed seps kids) (slot (keyed seps kids).*1 key)) as [[k0 kid0] Hkeyed].
    { rewrite <- (length_fmap snd), keyed_kids by done. by eapply lookup_lt_Some. }
    assert (kid0 = kid) as ->.
    { apply (f_equal (fmap snd)) in Hkeyed. rewrite <- list_lookup_fmap, keyed_kids, Hkid in Hkeyed by done. by injection Hkeyed. }
    destruct (slot_between lo hi (keyed seps kids) key k0 kid Hf Hk) as (lo1 & hi1 & B1 & O1 & F1); [|done|done|].
    { intros x. rewrite keyed_keys by done. intros (q & -> & Hq)%list_elem_of_fmap. by apply Hnul. }
    destruct (IH ltac:(apply Hkids; by eapply list_elem_of_lookup_2) lo1 hi1 O1 B1) as (lo' & hi' & B' & O' & F').
    exists lo', hi'. split; [done|]. split; [done|]. intros sw' rs' Ho'. constructor; [by rewrite length_insert|].
    set (j := slot (keyed seps kids).*1 key) in *.
    assert (exists x, seps !! j = Some x /\ s_key x = k0) as (x & Hx & <-).
    { unfold keyed in Hkeyed. apply lookup_zip_with_Some in Hkeyed as (q & y & [= -> _] & Hq & _).
      apply list_lookup_fmap_Some in Hq as (x & -> & Hx). by exists x. }
    rewrite (keyed_insert seps kids j x) by done. by apply F1, F'.
Qed.

(** A leaf whose records have changed under one key that is between its bounds. *)
Lemma leaf_ordered `{Pmdk} c lo hi node sw rs sw' rs' N N' key :
  contents rs N -> contents rs' N' -> (forall k, k <> key -> N' !! k = N !! k) -> between lo hi (zstr key) ->
  leaf c (D_RW node) sw' rs' -> ordered lo hi (Leaf node sw rs) -> ordered lo hi (Leaf node sw' rs').
Proof.
  intros HN HN' Hsame Hb Hl Ho. inversion Ho as [? ? ? ? ? Hall|]; subst. constructor. intros kv Hkv.
  unfold live in Hkv. apply list_elem_of_fmap in Hkv as (r & -> & Hr). apply list_elem_of_filter in Hr as [Hv Hr]. cbn [fst].
  pose proof Hr as [i Hi]%list_elem_of_lookup_1. destruct (proj1 (lf_recs _ _ _ _ Hl i r Hi Hv)) as (k & v & Hrec).
  pose proof Hrec as (_ & -> & _). destruct (decide (k = key)) as [->|Hne]; [done|].
  assert (N !! k = Some v) as Hk by (rewrite <- Hsame by done; apply HN'; by exists i, r).
  apply HN, record_live in Hk as (Hin & _). apply (Hall _ Hin).
Qed.

(** ** The operation *)

Section use.
Context {HP : Platform} {HL : PlatformLaws} {HM : Pmdk} {HP' : PmdkLaws} (me : Z) (fuel : nat) (fuel_big : (30 < fuel)%nat) (depth : nat).
Context (t : BzTree) (m g part : Z) (k sz i : nat) (own : nat) (own_ne : epoch t <> m).
Context (kt szt : nat) (garbage_ne : garbage t <> g) (R : TOID) (u : Z).
Context (root_fixed : forall s, is_Some (cells s !! D_RW R) -> pmemobj_root sizeof_RootObj s = (R, s)).
Context (oid_fixed : forall q, pool_uuid_lo q = u -> pmemobj_oid (D_RW q) = q).

(** The world holds the sound tree [s] for [M]; the thread has the descriptors [ds], [r]
    slots of the garbage list are free, and the allocator serves [sizes]. *)
Record in_use (ds : list Z) (r : nat) (sizes : list Z) (H : nat) (s : shape) (M : gmap (list ascii) (list ascii)) (prot : bool) (w : World) : Prop := {
  iu_sound : exists md, sound part ds R u md H s (cells (client w));
  iu_means : means s M;
  iu_service : exists en, service me t m g part k sz i own ds en (lists w) (epochs w) (cells (client w)) /\ (protected_epoch en =? 0) = negb prot;
  iu_room : room t kt szt r (lists w) (epochs w);
  iu_supplied : supplied part u ds sizes (cells (client w));
  iu_metrics : metrics_ok me (metrics (client w))
}.

(** Protection makes a thread ready. *)
Lemma ready_protected ds r en l e c :
  service me t m g part k sz i own ds en l e c -> room t kt szt r l e ->
  ready me t m g part k sz i own kt szt r ds (protected_entry me t e) l (put_entry (epoch t) i (protected_entry me t e) e) c.
Proof.
  intros Hs [(G & G1 & (R1 & R2 & R3 & R4 & R5 & R6) & G3) H2 H3].
  destruct (service_put me t m g part k sz i own own_ne ds en l e c (protected_entry me t e) Hs eq_refl) as [Hs1 Hc1].
  split; [done|by eapply service_protected|]. split; [|done|by rewrite Hc1]. exists G. split; [done|]. split; [|done].
  split_and!; try done. pose proof (sv_holds _ _ _ _ _ _ _ _ _ _ _ _ _ _ Hs) as ((T1 & T2) & _).
  pose proof (sv_holds _ _ _ _ _ _ _ _ _ _ _ _ _ _ Hs1) as ((T3 & T4) & _).
  destruct R6 as [R6 R7]. rewrite R6 in T1. injection T1 as T1. assert (own = szt) as -> by lia. done.
Qed.

(** What the operation does once it has found its leaf, at the place of that leaf. *)
Lemma modifying o v (q : TOID -> option Z -> prog World (unit + bool)) n r r0 sizes more H s M prot w ds :
  o = Insert (op_key o) v /\ q = insert_found me fuel depth t (op_key o) v \/ o = Update (op_key o) v /\ q = update_found me fuel depth t (op_key o) v ->
  fits_limit (op_key o) v -> in_use ds (r + r0) (sizes ++ more) H s M prot w -> settling part u (op_key o) n r sizes s -> c_strings o ->
  (2 * n + 2 <= length ds)%nat -> (n < fuel)%nat -> (n + H <= fuel)%nat -> Z.of_nat (n + H) < 2 ^ 32 ->
  exists n' H' s' w', run (run_operation me fuel depth t o) w = (Done (map_step o M).1, w') /\
    holds_tree me t m g part k sz i own R n' H' s' (map_step o M).2 false w' /\ ordered None None s' /\
    (length ds <= 2 * n + 2 + n')%nat /\ (H' <= n + H)%nat.
Proof.
  intros Ho Hfit [(md & Hs) HM' (en & Hsv & Hpr) Hroom Hsup Hm] Hset Hstr Hds Hn Hf Hb.
  set (key := op_key o) in *. assert (NUL ∉ key /\ NUL ∉ v) as [Nk Nb] by (destruct Ho as [[E _]|[E _]]; rewrite E in Hstr; exact Hstr).
  pose proof (ready_protected _ _ _ _ _ _ Hsv Hroom) as Hr. set (en1 := protected_entry me t (epochs w)) in *.
  set (e1 := put_entry (epoch t) i en1 (epochs w)) in *.
  destruct (ev_settling me fuel fuel_big depth t m g part k sz i own own_ne kt szt garbage_ne R u root_fixed oid_fixed key n r sizes s Hset
    fuel ds en1 (lists w) e1 (cells (client w)) (metrics (client w)) md H r0 more M)
    as (s1 & md1 & H1 & pl & leaf_oid & sw & rs & plug & l2 & e2 & c2 & mm2 & Epl & Ev & Hm2 & Hr2 & _ & Hs1 & HM1 & Hset1 & Hq1 & Hle & Hleaf & HH1);
    [done|lia|done|done|done|done|done|done|done|done|].
  destruct (drop (2 * n) ds) as [|d1 [|d2 ds']] eqn:Ed; [apply (f_equal length) in Ed; rewrite length_drop in Ed; simpl in Ed; lia..|].
  destruct (means_leads _ _ _ _ _ _ _ Hle HM1) as (N & HN & EN). pose proof (sd_stands _ _ _ _ _ _ _ _ Hs1) as Hst1.
  pose proof (sound_clear _ _ _ _ _ _ _ _ Hs1) as Hcl. pose proof (leads_self _ _ _ _ _ _ Hle) as Eself.
  assert (settled sw) as Hsw by (eapply quiet_settled; [exact Hle| |]; by rewrite Eself).
  set (p := tree_place me fuel fuel_big t R root_fixed c2 md1 H1 s1 key leaf_oid sw rs plug (sd_rooted _ _ _ _ _ _ _ _ Hs1) Hst1 Hle
    (ct_nodes _ _ _ _ _ Hcl) ltac:(lia) ltac:(lia) Nk).
  assert (tree me fuel t p sw rs N c2) as Htree.
  { split; [done|done|done]. }
  pose proof (clear_tree_leaf _ _ _ _ _ _ _ _ _ _ Hcl Hle) as Hap.
  destruct (map_step_key o M N EN) as (A1 & A2 & A3). fold key in A2, A3.
  assert (exists x, (map_step o N).1 = Flag x /\ leaves me fuel t m g part k sz i own (q (spot _ _ _ p) (Z.of_nat <$> find_from key 0 rs)) (inr x)
    (map_step o N).2 false (sizeof_NodeMetadata + data_size key v) sw (d1 :: d2 :: ds') p l2 e2 c2 mm2) as (x & Ex & Hleaves).
  { destruct Ho as [[E ->]|[E ->]]; rewrite E; cbn [map_step fst snd].
    - eexists. split; [done|]. rewrite (bool_decide_ext (fits_limit key v /\ N !! key = None) (N !! key = None)) by tauto.
      eapply leaves_insert_found; try done; [apply Hr2|apply Hr2].
    - eexists. split; [done|]. rewrite (bool_decide_ext (fits_limit key v /\ is_Some (N !! key)) (is_Some (N !! key))) by tauto.
      eapply leaves_update_found; try done; [apply Hr2|apply Hr2]. }
  destruct Hleaves as (used & sw' & rs' & en' & l' & e' & c' & mm' & Hu & Hm' & Hev & [Hup Hl' Hcont'] & Hs' & Hap' & Hp' & _).
  destruct (tree_same R c2 md1 H1 s1 key leaf_oid sw rs plug (sd_rooted _ _ _ _ _ _ _ _ Hs1) Hst1 Hle (ct_nodes _ _ _ _ _ Hcl) c' sw' rs' Hup Hl')
    as [Hroot' Hst'].
  assert (ev (run_operation me fuel depth t o) (St (lists w) (epochs w) (cells (client w)) (metrics (client w))) (Flag x) (St l' e' c' mm')) as Hrun.
  { assert (ev (loop fuel (fun _ : unit => bz_protect me fuel t ;;;
      let! leaf_oid := find_leaf me fuel (S depth) t key true in
      let! found := mem (find_record fuel (D_RW leaf_oid) key) in q leaf_oid found) tt)
      (St (lists w) (epochs w) (cells (client w)) (metrics (client w))) x (St l' e' c' mm')) as Hloop.
    { apply ev_loop_once; [lia|]. eapply ev_bind; [by eapply ev_protect|].
      eapply ev_bind; [eapply (ev_bind _ _ _ pl); [exact Ev|rewrite Epl; apply ev_ret]|].
      eapply ev_bind; [by eapply (ev_find_record me fuel fuel_big t key p)|]. exact Hev. }
    assert ((BZTREE_MIN_FREE_SPACE <? sizeof_NodeMetadata + data_size key v) = false) as Esmall by (apply Z.ltb_ge; exact Hfit).
    destruct Ho as [[E Eq]|[E Eq]]; rewrite E; cbn [run_operation]; rewrite Eq in Hloop; (eapply ev_bind; [|apply ev_ret]).
    - unfold BzTree_insert. rewrite Esmall. exact Hloop.
    - unfold BzTree_update. rewrite Esmall. exact Hloop. }
  destruct (Hrun w eq_refl) as (w' & Er & Ew). destruct w' as [l1 e1' [c1 pc1 m1]]. unfold volatile, St in Ew. simpl in Ew. injection Ew as -> -> -> ->.
  pose proof (leads_nodes _ _ _ _ _ _ sw' rs' Hle) as Hnodes.
  exists (length (drop used (d1 :: d2 :: ds'))), H1, (plug sw' rs'). eexists. split; [by rewrite Er, A1, Ex|].
  split; [|split; [|split; [|done]]].
  - exists (drop used (d1 :: d2 :: ds')), md1, en'. cbn [client lists epochs cells metrics]. split; [done|]. split; [done|]. split; [done|].
    split; [rewrite <- A2; by eapply means_update|]. split; [done|]. split; [|by split].
    apply clear_tree_tail. destruct Hcl as [B1 B2 B3]. split; rewrite Hnodes; done.
  - destruct (leads_ordered key s1 leaf_oid sw rs plug None None Hle (stands_readable _ _ _ Hst1) Nk (sd_order _ _ _ _ _ _ _ _ Hs1))
      as (lo & hi & B1 & B2 & B3); [done|]. apply B3. by eapply (leaf_ordered c' lo hi _ sw rs _ _ N _ key).
  - apply (f_equal length) in Ed. rewrite length_drop in Ed. rewrite length_drop. simpl in *. lia.
Qed.
End use.

(** C7.  An insertion or update run alone on an ordered tree of any height, in memory, whose
    search first makes the modifications that are due (compactions, splits and merges of
    children, compactions and splits of the root, one after the other, until none is
    due) answers what the map does that the tree represents, and leaves an ordered tree
    for the map after it; it takes two descriptors for each modification and two for
    itself. Asked of the modifications (due): the link that leads to the modified node
    is at a multiple of 8, a node to split has a separator that leaves both halves a
    record, the new parent fits in a node, and an inner node that is merged, or that is
    split and is not the last child, leads to no key above its last separator, because
    the code would lose it. Sizes are limited as the code limits them, not as the
    comment at bztree.h:15 does. *)
Theorem BzTree_modifies_then_answers `{PlatformLaws, PmdkLaws} me fuel depth t m g part k sz i own kt szt R u o key value n r r0 sizes more height s M prot w ds :
  (30 < fuel)%nat -> epoch t <> m -> garbage t <> g ->
  (forall s, is_Some (cells s !! D_RW R) -> pmemobj_root sizeof_RootObj s = (R, s)) ->
  (forall q, pool_uuid_lo q = u -> pmemobj_oid (D_RW q) = q) ->
  o = Insert key value \/ o = Update key value -> c_strings o -> fits_limit key value ->
  in_use me t m g part k sz i own kt szt R u ds (r + r0) (sizes ++ more) height s M prot w ->
  settling part u key n r sizes s -> (2 * n + 2 <= length ds)%nat -> (n < fuel)%nat -> (n + height <= fuel)%nat -> Z.of_nat (n + height) < 2 ^ 32 ->
  exists n' height' s' w', run (run_operation me fuel depth t o) w = (Done (map_step o M).1, w') /\
    holds_tree me t m g part k sz i own R n' height' s' (map_step o M).2 false w' /\ ordered None None s' /\
    (length ds <= 2 * n + 2 + n')%nat /\ (height' <= n + height)%nat.
Proof.
  intros Hf N1 N2 Hroot Hoid Ho Hstr Hfit Hu Hset Hds Hn Hh Hb. assert (op_key o = key) as <- by (by destruct Ho as [-> | ->]).
  destruct Ho as [E|E]; (eapply modifying; [exact Hf|exact N1|exact N2|exact Hroot|exact Hoid| |exact Hfit|exact Hu|exact Hset|exact Hstr|done..]); tauto.
Qed.

(** *** A concrete tree in which a merge is due

    The tree of two levels of [BzHeight], both leaves now with all their space: an insertion
    under "a" merges them first.  The tree has a garbage list, and a word above the pool
    keeps the allocator from it. *)
Definition mergeable_kids : list shape := [Leaf (MkTOID 1 8448) (MkSW 0 false 0 0 0) []; Leaf (MkTOID 1 8704) (MkSW 0 false 0 0 0) []].
Definition mergeable_tree : shape := Inner (MkTOID 1 8192) root_sw root_seps mergeable_kids.
Definition mergeable_cells : gmap Z Z := <[2 ^ 36 := 0]> (<[8712 := sw_word (MkSW 0 false 0 0 0)]> two_level_cells).
Definition mergeable_world : World :=
  MkGW (<[300 := MkGarbageList (Some 200) 0 4 (replicate 4 Item_new)]> {[ 16 := empty_ring ]}) tree_epochs (MkMem mergeable_cells ∅ metrics_off).

(** The bump allocator serves what is asked for above all words of the pool. *)
Lemma bump_supplied part ds hi (sizes : list Z) : (forall a, pool_cells part ds a -> a <= hi) -> (forall d, d ∈ ds -> d <= hi) -> 0 < hi -> ~ pool_cells part ds hi ->
  (forall n, n ∈ sizes -> 0 < n <= 256) -> forall B c, hi <= B -> is_Some (c !! hi) -> (forall a, is_Some (c !! a) -> a <= B) ->
  B + 512 * Z.of_nat (length sizes) < 2 ^ 60 -> @supplied bump part 1 ds sizes c.
Proof.
  intros Hpool Hds Hhi Hnp Hsz. induction sizes as [|n sizes IH]; intros B c HB Hc Hk Hroom; [done|]. intros c1 Ha.
  set (a := next_free c1). destruct (next_free_spec c1) as (A1 & A2 & A3). fold a in A1, A2, A3.
  assert (hi < a) as Hlow.
  { destruct (proj1 (Ha hi Hnp) Hc) as [v Hv]. destruct (Z.lt_ge_cases hi a); [done|]. by rewrite A3 in Hv. }
  assert (forall x, is_Some (c1 !! x) -> x <= B) as Hk1.
  { intros x Hx. destruct (decide (x <= hi)); [lia|]. apply Hk, Ha; [|done]. intros Hp. apply Hpool in Hp. lia. }
  assert (BzSmo.top c1 <= B) as Htop.
  { unfold BzSmo.top. assert (forall kv, kv ∈ map_to_list c1 -> kv.1 <= B) as Hall.
    { intros [x v] Hx%elem_of_map_to_list. apply Hk1. by eexists. }
    clear -Hall HB Hhi. induction (map_to_list c1) as [|kv l IH]; cbn [foldr]; [lia|].
    pose proof (Hall kv ltac:(by left)). assert (foldr (fun kv m => kv.1 `max` m) 0 l <= B) by (apply IH; intros y Hy; apply Hall; by right). lia. }
  assert (a <= B + 64) as Hup.
  { unfold a, next_free. pose proof (Z.div_mod (BzSmo.top c1) 64 ltac:(lia)). pose proof (Z.mod_pos_bound (BzSmo.top c1) 64 ltac:(lia)). lia. }
  pose proof (Hsz n ltac:(by left)) as Hn. cbn [length] in Hroom.
  exists (MkTOID 1 a). split; [done|]. change (D_RW (MkTOID 1 a)) with a. split.
  - split; [done| |done|].
    + change (off (MkTOID 1 a)) with a. split; [unfold plain, fits; lia|]. split; [done|]. intros Hin. apply Hds in Hin. lia.
    + intros x Hx Hp. apply Hpool in Hp. change (D_RW (MkTOID 1 a)) with a in Hx. lia.
  - intros c' Hout. apply (IH ltac:(intros x Hx; apply Hsz; by right) (B + 320)); [lia| | |lia].
    + rewrite Hout by lia. by apply Ha.
    + intros x Hx. destruct (decide (a <= x < a + n)); [lia|]. rewrite Hout in Hx by done. apply Hk1 in Hx. lia.
Qed.

Lemma mergeable_same a : a <> 2 ^ 36 -> a <> 8712 -> mergeable_cells !! a = two_level_cells !! a.
Proof. intros H1 H2. unfold mergeable_cells. by rewrite !lookup_insert_ne. Qed.

Lemma mergeable_stands : @stands bump_pmdk mergeable_cells 2 mergeable_tree.
Proof.
  pose proof two_level_inner as Hi. apply (@inner_same bump_pmdk _ mergeable_cells) in Hi.
  2: { intros a Ha. apply mergeable_same; unfold in_leaf, BZTREE_NODE_SIZE in Ha; change (D_RW _) with 8192 in Ha; lia. }
  apply stands_inner.
  - destruct Hi as [I1 I2 I3 I4 I5 I6 I7 I8 I9 I10 I11 I12]. split; try done.
    intros [|[|j]] kid Hk; [| |done]; injection Hk as <-; done.
  - intros [|[|j]] kid Hk; [| |done]; injection Hk as <-; apply stands_leaf.
    + eapply leaf_same; [|apply (two_level_leaf 8448 0); tauto]. intros a Ha. unfold BZTREE_NODE_SIZE in Ha. change (D_RW _) with 8448 in Ha. apply mergeable_same; lia.
    + apply empty_leaf; [done|done|by vm_compute|]. change (D_RW (MkTOID 1 8704)) with 8704.
      set (P (x : Z) (o : option Z) := x <> status_word 8704 -> o = Some 0).
      apply (node_words _ _ P); [done|]. apply (bool_decide_unpack _). vm_compute. exact I.
Qed.

Lemma mergeable_sound : @sound bump_pmdk 4096 free_descs (MkTOID 1 64) 1 4608 2 mergeable_tree mergeable_cells.
Proof.
  destruct two_level_apart as [A1 A2 A3]. split.
  - split; [by exists 1, 4608|done|done].
  - exact mergeable_stands.
  - exact A1.
  - intros n Hn. split.
    + assert (n ∈ [MkTOID 1 8192; MkTOID 1 8448; MkTOID 1 8704]) as Hn' by exact Hn. rewrite !elem_of_cons, elem_of_nil in Hn'.
      by destruct Hn' as [->|[->|[->|[]]]].
    + assert (n ∈ [MkTOID 1 8192; MkTOID 1 8448; MkTOID 1 8704]) as Hn' by exact Hn. rewrite !elem_of_cons, elem_of_nil in Hn'.
      destruct Hn' as [->|[->|[->|[]]]]; (split; [by vm_compute|split; [done|]]); cbn [off]; intros Hin%free_descs_far; lia.
    + assert (n ∈ [MkTOID 1 8192; MkTOID 1 8448; MkTOID 1 8704]) as Hn' by exact Hn. rewrite !elem_of_cons, elem_of_nil in Hn'.
      by destruct Hn' as [->|[->|[->|[]]]].
    + intros a Ha. by apply (A3 n a).
  - exact A2.
  - split; [|done]. apply (bool_decide_unpack _). vm_compute. exact I.
  - constructor; [done|]. assert (forall lo hi n sw, ordered lo hi (Leaf n sw [])) as Hleaf by (intros; constructor; by intros kv []%not_elem_of_nil).
    apply for_cons; [done|apply Hleaf|]. apply for_last; [|apply Hleaf]. split; [by vm_compute|done].
  - split; [exists 4608|by eexists|done]. split; [done|]. split; [done|]. split; [done|]. split; [by vm_compute|]. intros Hin%free_descs_far. lia.
Qed.

Lemma mergeable_pool a : pool_cells 4096 free_descs a -> a < 2 ^ 35 /\ a <> 8712.
Proof.
  intros [->|[->|(d & Hd & Ha)]]; [by vm_compute|by vm_compute|]. apply free_descs_far in Hd. lia.
Qed.

Lemma mergeable_in_use : @in_use bump_pmdk 5 sample_tree 100 16 4096 2 128 117 128 2 128 (MkTOID 1 64) 1 free_descs 3
  [BZTREE_NODE_SIZE; BZTREE_NODE_SIZE] 2 mergeable_tree ∅ false mergeable_world.
Proof.
  split.
  - exists 4608. exact mergeable_sound.
  - assert (contents [] ∅) as Hno by (intros key v; split; [done|]; by intros (j & r & Hj & _)).
    apply (means_inner _ _ _ _ [∅; ∅]); [done| |].
    + intros [|[|j]] kid N Hk HN; [| |done]; injection Hk as <-; injection HN as <-; by apply means_leaf.
    + intros key. destruct (slot _ _) as [|[|j]]; done.
  - exists (MkEntry 0 1 5). split; [|done]. split; [|by vm_compute|by vm_compute|].
    + assert (supply 5 100 16 4096 2 128 free_descs (lists two_level_tree) tree_epochs mergeable_cells) as [(G & G1 & G2) S2 S3 S4 S5 S6 S7 S8].
      { eapply supply_same; [|exact two_level_supply]. intros a Ha. apply mergeable_pool in Ha. apply mergeable_same; lia. }
      split; [|exact S2|exact S3|exact S4|exact S5|exact S6|exact S7|exact S8]. exists G. split; [exact G1|exact G2].
    + apply Forall_forall. apply (bool_decide_unpack _). vm_compute. exact I.
  - split; [|vm_compute; lia|by vm_compute]. eexists. split; [reflexivity|]. split.
    + split; [done|]. split; [lia|]. split; [done|]. split; [done|]. split; [|by vm_compute].
      intros j it Hj. apply lookup_replicate in Hj as [-> _]. done.
    + intros j Hj. exists Item_new. split; [|done]. apply lookup_replicate. split; [done|apply slot_at_lt].
  - apply (bump_supplied 4096 free_descs (2 ^ 36)) with (B := 2 ^ 36).
    + intros a Ha. apply mergeable_pool in Ha. lia.
    + intros d Hd. apply free_descs_far in Hd. lia.
    + lia.
    + intros Ha. apply mergeable_pool in Ha. lia.
    + intros n Hn. rewrite !elem_of_cons, elem_of_nil in Hn. by destruct Hn as [->|[->|[]]].
    + lia.
    + by eexists.
    + intros a [v Hv]. apply (elem_of_map_to_list mergeable_cells), (list_elem_of_fmap_2 fst) in Hv. revert Hv. cbn [fst].
      assert (Forall (fun a => a <= 2 ^ 36) (map_to_list mergeable_cells).*1) as Hall by (apply (bool_decide_unpack _); vm_compute; exact I).
      rewrite Forall_forall in Hall. apply Hall.
    + by vm_compute.
  - by left.
Qed.

(** One merge, which takes three slots and two nodes, and nothing more is due. *)
Lemma mergeable_settling : @settling bump_pmdk 4096 1 key_a 1 3 [BZTREE_NODE_SIZE; BZTREE_NODE_SIZE] mergeable_tree.
Proof.
  apply (@settling_more bump_pmdk 4096 1 key_a mergeable_tree 3 (replicate 2 BZTREE_NODE_SIZE) 0
    (fun p n _ => make p (Children (children_merged (keyed root_seps mergeable_kids) 0 (Leaf (MkTOID 1 8448) (MkSW 0 false 0 0 0) []) [byte_of 122]
      (Leaf (MkTOID 1 8704) (MkSW 0 false 0 0 0) []) n))) 0 0 []).
  - apply (@due_merge bump_pmdk key_a mergeable_tree 0 (MkTOID 1 8192) root_sw root_seps mergeable_kids None [] (fun x => x)
      (Leaf (MkTOID 1 8448) (MkSW 0 false 0 0 0) []) 0 _ _ (MkSep (MkNMD 0 true 220 2 10) [byte_of 122])); try reflexivity.
    + split; vm_compute; congruence.
    + constructor.
    + vm_compute; congruence.
    + vm_compute; congruence.
  - intros p a b _ _ _. apply settling_done; [split; vm_compute; congruence|].
    eapply quiet_inner; [reflexivity|split; vm_compute; congruence|reflexivity|reflexivity|apply quiet_leaf].
Qed.

Lemma BzTree_modifies_then_answers_witness : exists n' height' s' w',
  run (@run_operation plain_platform bump_pmdk 5 31 0 sample_tree (Insert key_a value_b)) mergeable_world = (Done (Flag true), w') /\
  @holds_tree bump_pmdk 5 sample_tree 100 16 4096 2 128 117 128 (MkTOID 1 64) n' height' s' (<[key_a := value_b]> ∅) false w'.
Proof.
  destruct (@BzTree_modifies_then_answers plain_platform plain_platform_laws bump_pmdk bump_laws 5 31 0 sample_tree 100 16 4096 2 128 117 128 2 128
    (MkTOID 1 64) 1 (Insert key_a value_b) key_a value_b 1 3 0 [BZTREE_NODE_SIZE; BZTREE_NODE_SIZE] [] 2 mergeable_tree ∅ false mergeable_world free_descs)
    as (n' & h' & s' & w' & R & Hr & _).
  - lia.
  - done.
  - done.
  - exact bump_root_fixed.
  - intros [u o] E. cbn in E. by rewrite E.
  - by left.
  - split; apply (bool_decide_unpack _); vm_compute; exact I.
  - vm_compute. congruence.
  - exact mergeable_in_use.
  - exact mergeable_settling.
  - vm_compute. lia.
  - lia.
  - lia.
  - vm_compute. done.
  - exists n', h', s', w'. split; [exact R|exact Hr].
Defined.
