(* ===== verification/BzScenarios.v ===== *)
(** * Runs of the BzTree that go wrong (src/bztree)

    Concrete executions of the modelled code: splits that stop on an assertion, a child
    pointer that cannot be swapped, a key that one thread loses, an insertion lost between
    two threads, and a thread that crashes cleaning up after itself. *)
From Stdlib Require Import ZArith Lia Ascii.
From stdpp Require Import base list gmap strings.
From S2P Require Import Prelude Bytes Prog Status Hash Library Epoch Garbage Metrics Memory Descriptor MwCAS Entries Target Pool BzNode BzTree BzNodeSpec BzSmo BzBytes BzLeaf BzSupply BzPlace BzMap.
#[local] Open Scope Z_scope.
#[local] Open Scope prog_scope.

(** ** A process with a tree

    Threads 5 and 6 hold entries of the tree's manager 200; each has a partition of the
    pool with [n] free descriptors and a garbage list of 32 slots.  The tree's garbage
    list is 300, its root object is at 64, its metadata at 4608 and its only leaf at 8192. *)
Definition two_threads : EpochWorld :=
  let w := initialized 100 (initialized 200 (MkEpochWorld ∅ (MkThreads ∅ ∅))) in
  let enter t w := (run (Unprotect t 1 200) (run (Protect t 1 200) w).2).2 in
  let w := enter 6 (enter 5 w) in
  set_threads (tls_set (5, tls_part) (tls_ptr_part 4096) (tls_set (6, tls_part) (tls_ptr_part 4160) (threads w))) w.
Definition ring_32 (m : Z) : GarbageList := MkGarbageList (Some m) 0 32 (replicate 32 Item_new).

Definition partition_cells (part g base : Z) (n : nat) : list (Z * Z) :=
  [(free_list part, base); (garbage_list part, g)] ++
  concat ((fun j => let d := base + 256 * Z.of_nat j in
    [(next_ptr_ d, if (S j =? n)%nat then 0 else d + 256); (owner_partition_ d, part); (status_ d, kStatusFinished);
     (count_ d, 0); (free_callback_ d, 0); (allocate_callback_ d, 0)] ++ ((fun a => (a, 0)) <$> word_fields d)) <$> seq 0 n).
Definition process_cells (n : nat) : gmap Z Z :=
  list_to_map (partition_cells 4096 16 (2 ^ 33) n ++ partition_cells 4160 17 (2 ^ 34) n ++
    [(64, 1); (72, 4608); (4608, 1); (4616, 8192); (4624, 1); (4632, 0)]) ∪ zeros 32 8192 ∅.
Definition process (n : nat) : World :=
  MkGW (list_to_map [(16, ring_32 100); (17, ring_32 100); (300, ring_32 200)]) two_threads
    (MkMem (process_cells n) ∅ metrics_off).

(** The operations of thread [me], on the bump allocator. *)
#[local] Instance bump_pmdk : Pmdk := bump.
Definition operate (me : Z) (o : operation) : prog World answer := run_operation me 40 1 sample_tree o.
Definition operate_all (me : Z) (os : list operation) : prog World (list answer) := run_operations me 40 1 sample_tree os.

(** A key, and a value of [n] characters. *)
Definition ch (z : Z) : bytes := [byte_of z].
Definition chars (z : Z) (n : nat) : bytes := replicate n (byte_of z).

Definition answers {A} (r : result A * World) : result A := r.1.

(** ** Splits that stop on an assertion *)

(** Five insertions, every one of which answers true. *)
Definition long_values : list operation :=
  [Insert (ch 97) (chars 120 29); Insert (ch 98) (chars 120 29); Insert (ch 99) (chars 120 29);
   Insert (ch 100) (chars 120 29); Insert (chars 101 30) (chars 120 8)].

(** Five insertions within the size limit bring a leaf to a state in which the last key is at
    least as long as all others together: the next operation that descends to it splits it
    and stops on the assertion that says this cannot happen. *)
Example insertions_reach_the_split_assertion :
  answers (run (operate_all 5 long_values) (process 24)) = Done (replicate 5 (Flag true)) /\
  answers (run (operate_all 5 (long_values ++ [Insert (ch 98) (ch 120)])) (process 24)) =
    Faulted "assert(sep != sorted.end())".
Proof. vm_compute. repeat split. Qed.

(** ** A split that overflows the parent *)

(** A leaf of three keys of 38 characters with empty values, the longest that [insert]
    accepts, and a parent of four separators that leave it 48 bytes of free space. *)
Definition terminated (z : Z) (n : nat) : bytes := chars z n ++ [NUL].
Definition long_keys : list pair_bytes := (fun z => (terminated z 38, [NUL])) <$> [97; 98; 99].
Definition long_leaf := built long_keys ∅.
Definition long_separators : list pair_bytes :=
  [(terminated 48 29, off_bytes TOID_NULL); (terminated 49 29, off_bytes TOID_NULL);
   (terminated 50 28, off_bytes TOID_NULL); (terminated 99 38, off_bytes long_leaf.1)].
Definition long_parent := built long_separators long_leaf.2.

(** The split adds 55 bytes to the 192 of the parent.  The data of the last record overwrite
    its metadata, and the new parent can no longer be read. *)
Example split_overflows_parent :
  (forall k, fits_limit (chars k 38) []) /\
  free_bytes 4 (data_len long_separators) = BZTREE_MIN_FREE_SPACE /\
  match run (node_split 8 (Some long_parent.1) long_leaf.1) (MkMem long_parent.2 ∅ metrics_off) with
  | (Done (p, _), s) => (run (copy_out 8 p) s).1 = Faulted "load from unmapped memory"
  | _ => False
  end.
Proof. split; [done|]. vm_compute. by split. Qed.

(** ** A child that cannot be swapped *)

(** Five records, which the next operation splits, and three updates of one of them. *)
Definition five_records : list operation :=
  (fun z => Insert (ch z) (chars 120 31)) <$> [97; 98; 99; 100; 101].
Definition updates (k : Z) : list operation := (fun z => Update (ch k) (chars z 31)) <$> [65; 66; 67; 68].

(** A parent stores its children offsets right after their keys, on no boundary in
    particular: the same updates go through under a child whose offset happens to fall
    on a word boundary and end with the alignment check of the descriptor under the
    other. *)
Theorem unaligned_child_pointer_stops :
  answers (run (operate_all 5 (five_records ++ updates 97)) (process 30)) = Done (replicate 9 (Flag true)) /\
  answers (run (operate_all 5 (five_records ++ updates 101)) (process 30)) =
    Faulted "DCHECK(uint64_t(addr) % sizeof(uint64_t) == 0)".
Proof. vm_compute. repeat split. Qed.

(** ** A key lost by one thread *)

(** A key of thirty equal characters and one that counts, and an insertion of it. *)
Definition long_key (z : Z) : bytes := chars 107 30 ++ ch z.
Definition put (z : Z) : operation := Insert (long_key z) (chars 120 7).

(** A tree of three levels: the root leads the keys up to 90 to one inner node and the rest
    to another.  Key 90 is erased, its leaf is split, and it is inserted again: it is now
    in a leaf whose separator, the last of the inner node, is 80. *)
Definition three_levels : list operation :=
  (put <$> [10; 20; 30; 40; 50; 60; 70; 80; 90; 100; 110; 120; 125; 126; 127]) ++ [Erase (long_key 90)] ++
  (put <$> [71; 72; 73; 90]).

(** C14.  One thread alone loses a key: when an inner node is split, the separator of its
    right half is the half's last separator, although the last child also holds the keys
    between this and the node's own separator; the next lookup of such a key goes to
    another child, and an insertion of it succeeds a second time. *)
Theorem inner_split_loses_a_key :
  answers (run (operate_all 5 (three_levels ++ [Lookup (long_key 90)])) (process 70)) =
    Done (replicate 20 (Flag true) ++ [Found (Some (chars 120 7))]) /\
  answers (run (operate_all 5 (three_levels ++ (put <$> [11; 12; 13]) ++ [Lookup (long_key 90); put 90])) (process 70)) =
    Done (replicate 23 (Flag true) ++ [Found None; Flag true]).
Proof. vm_compute. repeat split. Qed.

(** ** Two threads *)

(** The first of two programs takes [n] steps, the second runs to its end, and then the first. *)
Definition interrupted (n : nat) (a b : prog World answer) (w : World) : list (prog World answer) * World :=
  exec (replicate n 0%nat ++ replicate 3000 1%nat ++ replicate 3000 0%nat) ([a; b], w).

(** C15.  Two insertions of different keys into one leaf both answer true, and the key of the
    second is gone: the first was interrupted between its two multi-word CASes, and goes
    on with the record count it reads afterwards. *)
Theorem concurrent_insertion_lost :
  let c := interrupted 170 (operate 5 (Insert (ch 97) (ch 120))) (operate 6 (Insert (ch 98) (ch 121))) (process 10) in
  outcome <$> c.1 = [Some (Done (Flag true)); Some (Done (Flag true))] /\
  answers (run (operate_all 5 [Lookup (ch 97); Lookup (ch 98)]) c.2) = Done [Found (Some (ch 120)); Found None].
Proof. vm_compute. repeat split. Qed.

(** A leaf that the next insertion will split. *)
Definition five_in_the_root : World := (run (operate_all 5 five_records) (process 20)).2.

(** C16.  Two threads split the root: freezing a frozen root succeeds, so both build a new
    one; the second to install it fails, and cleaning up hands the allocator the new
    metadata as if it were a persistent pointer, which nulls the root inside, and then
    reads through that root. *)
Theorem losing_root_split_crashes :
  let c := interrupted 200 (operate 5 (Insert (ch 102) (ch 120))) (operate 6 (Insert (ch 103) (ch 121))) five_in_the_root in
  answers (run (operate_all 5 five_records) (process 20)) = Done (replicate 5 (Flag true)) /\
  outcome <$> c.1 = [Some (Faulted "load from unmapped memory"); Some (Done (Flag true))].
Proof. vm_compute. repeat split. Qed.

(** C17.  The tree reads words that are the target of multi-word CASes without the protected
    reads: a lookup that runs while another thread installs a new root takes the
    descriptor pointer for an address, and an insertion that runs while another reserves
    its record hands the descriptor pointer back as an old value. *)
Theorem unprotected_reads_stop :
  outcome <$> (interrupted 580 (operate 5 (Insert (ch 102) (ch 120))) (operate 6 (Lookup (ch 97))) five_in_the_root).1 =
    [Some (Done (Flag true)); Some (Faulted "load from unmapped memory")] /\
  outcome <$> (interrupted 90 (operate 5 (Insert (ch 97) (ch 120))) (operate 6 (Insert (ch 98) (ch 121))) (process 10)).1 =
    [Some (Done (Flag true)); Some (Faulted "DCHECK(IsCleanPtr(oldval))")].
Proof. vm_compute. repeat split. Qed.
