(* ===== verification/Environment.v ===== *)
(** * The Linux environment (src/environment/environment_linux.{h,cc})

    Clocks, thread affinity and shared memory segments; what the system calls answer is a
    parameter.  CHECK_EQ is in force, as with glog. *)
From Stdlib Require Import ZArith Lia Ascii.
From stdpp Require Import base list gmap strings pretty.
From S2P Require Import Prelude Bytes Prog Status Library.
#[local] Open Scope Z_scope.
#[local] Open Scope prog_scope.

(** The system: [strerror(errno)], the clock, the number of processors, the calling
    thread, setting a thread's processors, and shared memory. *)
Class System (E : Type) := {
  strerror : E -> string;
  clock_gettime : E -> (Z * Z) * E;
  hardware_concurrency : E -> Z;
  pthread_self : E -> Z;
  pthread_setaffinity_np : Z -> list Z -> E -> Z * E;
  shm_open : bytes -> bool -> E -> Z * E;
  ftruncate : Z -> Z -> E -> E;
  shm_mmap : Z -> Z -> Z -> E -> Z * E;
  munmap : Z -> Z -> E -> E;
  getcwd : E -> bytes
}.

Definition failed (c : Code) (msg msg2 : bytes) : Status :=
  default (Status_code c) (Status_msg c (Slice_of_string msg) (Slice_of_string msg2)).

Definition MAP_FAILED : Z := 2 ^ 64 - 1.

Section environment.
Context {E : Type} `{System E}.

(** ** Clocks *)

(** The time of a [timespec] in microseconds, rounded to the nearest. *)
Definition micros (ts : Z * Z) : Z :=
  let ns := u64 (ts.1 * 1000000000 + ts.2) in
  ns / 1000 + Z.b2z (500 <=? ns mod 1000).
Definition NowMicros : prog E Z := let! ts := act clock_gettime in Ret (micros ts).
(** The same body. *)
Definition NowNanos : prog E Z := let! ts := act clock_gettime in Ret (micros ts).

(** ** Thread affinity *)

Definition GetCoreCount : prog E Z := let! n := rd hardware_concurrency in Ret (u32 n).

Definition BalanceNumaNodes : Z := 3.

(** BalanceNumaNodes, on [n] logical processors. *)
Definition balanced_core (n core : Z) : Z :=
  let logical_core_count := n / 4 in
  let physical_core_count := logical_core_count / 2 in
  let numa_node := u32 (core mod 4) in
  let numa_core := u32 (core / 4) in
  let numa_core :=
    if numa_core <? physical_core_count then u32 (numa_core * 2)
    else u32 (u32 ((numa_core - physical_core_count) * 2) + 1) in
  u32 (u32 (numa_node * logical_core_count) + numa_core).

(** The switch; the label of its last statement is misspelt, so other cores fall through. *)
Definition crossfire : list Z :=
  [0; 4; 8; 12; 16; 20; 1; 5; 9; 13; 17; 21; 2; 6; 10; 14; 18; 22; 3; 7; 11; 15; 19; 23].
Definition crossfire_core (core : Z) : Z := default core (crossfire !! Z.to_nat core).

Definition spread_core (orig_core : Z) : Z :=
  let core := if 32 <=? orig_core then orig_core - 32 else orig_core in
  let pcore := u32 (core mod 4 * 8 + core / 4) in
  if 32 <=? orig_core then u32 (pcore + 32) else pcore.

Definition place_core (core affinity_pattern : Z) : prog E Z :=
  if affinity_pattern =? BalanceNumaNodes then
    let! n := GetCoreCount in
    check (n mod 4 =? 0) "CHECK_EQ(GetCoreCount() % numa_node_count, 0)" ;;;
    let! n := GetCoreCount in
    check ((n / 4) mod 2 =? 0) "CHECK_EQ(logical_core_count % 2, 0)" ;;;
    Ret (balanced_core n core)
  else if affinity_pattern =? 4 then Ret (crossfire_core core)
  else if affinity_pattern =? 5 then Ret (spread_core core)
  else Ret core.

(** A [cpu_set_t] has 1024 bits; [CPU_SET] ignores others. *)
Definition CPU_SET (core : Z) : list Z := if core <? 1024 then [core] else [].

Definition SetThreadAffinity_of (thread core affinity_pattern : Z) : prog E Status :=
  let! core := place_core core affinity_pattern in
  let! result := act (pthread_setaffinity_np thread (CPU_SET core)) in
  if negb (result =? 0) then
    let! e := rd strerror in Ret (failed kAborted (lit "Failed to set thread affinity.") (lit e))
  else Ret Status_OK.
Definition SetThreadAffinity (core affinity_pattern : Z) : prog E Status :=
  let! thread_handle := rd pthread_self in SetThreadAffinity_of thread_handle core affinity_pattern.

(** ** Directories, files, thread pools *)

(** The buffer has 4096 zero bytes; a failed [getcwd] leaves them. *)
Definition GetWorkingDirectory : prog E (Status * bytes) :=
  let! cwd := rd getcwd in Ret (Status_OK, cwd).
Definition GetExecutableDirectory : prog E (Status * bytes) :=
  let! r := GetWorkingDirectory in Ret (Status_OK, r.2).
Definition NewRandomReadWriteAsyncFile : Status := failed kNotSupported (lit "Not implemented") (lit "").
Definition NewThreadPool : Status := failed kNotSupported (lit "Not implemented") (lit "").

(** ** Shared memory segments *)

Record LinuxSharedMemorySegment := MkSegment {
  segment_name_ : bytes; size_ : Z; map_fd_ : Z; map_address_ : Z
}.
Definition LinuxSharedMemorySegment_new : LinuxSharedMemorySegment := MkSegment [] 0 0 0.

(** The descriptor is tested after the file has been sized with it. *)
Definition Segment_Initialize (segname : bytes) (size : Z) (open_existing : bool) (s : LinuxSharedMemorySegment)
    : prog E (Status * LinuxSharedMemorySegment) :=
  let! fd :=
    (if open_existing then act (shm_open (c_str segname) false)
     else let! fd := act (shm_open (c_str segname) true) in upd (ftruncate fd size) ;;; Ret fd) in
  let s := MkSegment segname size fd (map_address_ s) in
  if fd =? -1 then let! e := rd strerror in Ret (failed kIOError (lit "Failed to create file mapping") (lit e), s)
  else Ret (Status_OK, s).

Definition attach_message (s : LinuxSharedMemorySegment) (base : Z) : bytes :=
  lit "Failed to attach to shared memory segment " ++ segment_name_ s ++ lit " of " ++ lit (pretty (size_ s)) ++
  lit " bytes with base address " ++ lit (pretty base).
Definition Segment_Attach (base_address : Z) (s : LinuxSharedMemorySegment) : prog E (Status * LinuxSharedMemorySegment) :=
  let! a := act (shm_mmap base_address (size_ s) (map_fd_ s)) in
  let s := MkSegment (segment_name_ s) (size_ s) (map_fd_ s) a in
  if a =? MAP_FAILED then let! e := rd strerror in Ret (failed kIOError (attach_message s base_address) (lit e), s)
  else Ret (Status_OK, s).
Definition Segment_Detach (s : LinuxSharedMemorySegment) : prog E (Status * LinuxSharedMemorySegment) :=
  upd (munmap (map_address_ s) (size_ s)) ;;;
  Ret (Status_OK, MkSegment (segment_name_ s) (size_ s) (map_fd_ s) 0).
Definition Segment_GetMapAddress (s : LinuxSharedMemorySegment) : Z := map_address_ s.

(** The object comes from the allocator; [mem] is what it returns. *)
Definition Segment_Create (mem : Z) : Status * option LinuxSharedMemorySegment :=
  if mem =? 0 then (Status_code kOutOfMemory, None) else (Status_OK, Some LinuxSharedMemorySegment_new).
Definition NewSharedMemorySegment (mem : Z) (segname : bytes) (size : Z) (open_existing : bool)
    : prog E (Status * option LinuxSharedMemorySegment) :=
  match Segment_Create mem with
  | (s, None) => Ret (s, None)
  | (_, Some seg) =>
      let! r := Segment_Initialize segname size open_existing seg in
      if Status_ok r.1 then Ret (Status_OK, Some r.2) else Ret (r.1, None)
  end.
End environment.

(** ** Clocks *)

(** Both clocks answer the time in microseconds, rounded to the nearest, and so does the
    one that is to answer nanoseconds. *)
Theorem clocks_correct {E} `{System E} (s : E) :
  let ts := (clock_gettime s).1 in
  run NowNanos s = run NowMicros s /\
  (0 <= ts.1 < 2 ^ 33 -> 0 <= ts.2 < 1000000000 ->
   let ns := ts.1 * 1000000000 + ts.2 in
   exists t, run NowMicros s = (Done t, (clock_gettime s).2) /\ ns - 500 <= 1000 * t <= ns + 500).
Proof.
  unfold NowNanos, NowMicros. cbn. split; [done|]. destruct (clock_gettime s) as [[sec nsec] s']. cbn [fst snd bind run act].
  intros Hs Hn. eexists. split; [done|]. unfold micros. cbn [fst snd]. rewrite u64_id by (unfold fits; lia).
  pose proof (Z.div_mod (sec * 1000000000 + nsec) 1000). pose proof (Z.mod_pos_bound (sec * 1000000000 + nsec) 1000).
  destruct (Z.leb_spec 500 ((sec * 1000000000 + nsec) mod 1000)); simpl; lia.
Qed.

(** ** Affinity *)

(** [f] permutes the integers below [n]. *)
Definition permutes (n : Z) (f : Z -> Z) : Prop :=
  (forall c, 0 <= c < n -> 0 <= f c < n) /\
  (forall c d, 0 <= c < n -> 0 <= d < n -> f c = f d -> c = d).

Definition permutesb (n : nat) (f : Z -> Z) : bool :=
  forallb (fun c => (0 <=? f c) && (f c <? Z.of_nat n)) (Z.of_nat <$> seq 0 n) &&
  bool_decide (NoDup (f <$> (Z.of_nat <$> seq 0 n))).

Lemma permutesb_spec n f : permutesb n f = true -> permutes (Z.of_nat n) f.
Proof.
  unfold permutesb. intros [Hb Hnd%bool_decide_eq_true]%andb_true_iff.
  assert (forall c, 0 <= c < Z.of_nat n -> (Z.of_nat <$> seq 0 n) !! Z.to_nat c = Some c) as Hl.
  { intros c Hc. rewrite list_lookup_fmap, lookup_seq_lt by lia. simpl. f_equal. lia. }
  split.
  - intros c Hc. rewrite forallb_forall in Hb. specialize (Hb c).
    assert (List.In c (Z.of_nat <$> seq 0 n)) as Hin by (apply list_elem_of_In, list_elem_of_lookup; eexists; by apply Hl).
    specialize (Hb Hin). zbool. lia.
  - intros c d Hc Hd E.
    assert ((f <$> (Z.of_nat <$> seq 0 n)) !! Z.to_nat c = Some (f c)) as Ec by (by rewrite list_lookup_fmap, Hl).
    assert ((f <$> (Z.of_nat <$> seq 0 n)) !! Z.to_nat d = Some (f c)) as Ed by (by rewrite list_lookup_fmap, Hl, E).
    pose proof (NoDup_lookup _ _ _ _ Hnd Ec Ed). lia.
Qed.

Lemma balanced_core_spec p core :
  0 < p -> 8 * p < 2 ^ 32 -> 0 <= core < 8 * p ->
  balanced_core (8 * p) core =
    core mod 4 * (2 * p) + (if core / 4 <? p then 2 * (core / 4) else 2 * (core / 4 - p) + 1) /\
  0 <= core / 4 < 2 * p /\ 0 <= core mod 4 < 4.
Proof.
  intros Hp Hn Hc. unfold balanced_core.
  assert (8 * p / 4 = 2 * p) as -> by (symmetry; apply Z.div_unique with 0; lia).
  assert (2 * p / 2 = p) as -> by (symmetry; apply Z.div_unique with 0; lia).
  pose proof (Z.div_mod core 4). pose proof (Z.mod_pos_bound core 4).
  rewrite (u32_id (core mod 4)), (u32_id (core / 4)) by (unfold fits; lia).
  assert (0 <= core mod 4 * (2 * p) <= 6 * p) as Hm by nia.
  rewrite (u32_id (core mod 4 * (2 * p))) by (unfold fits; lia). destruct (Z.ltb_spec (core / 4) p).
  - rewrite (u32_id (core / 4 * 2)), u32_id by (unfold fits; lia). split; lia.
  - rewrite (u32_id ((core / 4 - p) * 2)), (u32_id ((core / 4 - p) * 2 + 1)), u32_id by (unfold fits; lia). split; lia.
Qed.

(** The processor's number within its node. *)
Definition within_node (p core : Z) : Z := if core / 4 <? p then 2 * (core / 4) else 2 * (core / 4 - p) + 1.
Lemma within_node_range p core : 0 <= core / 4 < 2 * p -> 0 <= within_node p core < 2 * p.
Proof. intros Hc. unfold within_node. destruct (Z.ltb_spec (core / 4) p); lia. Qed.

Lemma balanced_permutes p : 0 < p -> 8 * p < 2 ^ 32 -> permutes (8 * p) (balanced_core (8 * p)).
Proof.
  intros Hp Hn. split.
  - intros c Hc. destruct (balanced_core_spec p c Hp Hn Hc) as (-> & Hq & Hr).
    destruct (Z.ltb_spec (c / 4) p); nia.
  - intros c d Hc Hd E. destruct (balanced_core_spec p c Hp Hn Hc) as (Ec & Hqc & Hrc), (balanced_core_spec p d Hp Hn Hd) as (Ed & Hqd & Hrd).
    rewrite Ec, Ed in E. pose proof (Z.div_mod c 4). pose proof (Z.div_mod d 4).
    destruct (Z.div_mod_unique (2 * p) (c mod 4) (d mod 4) (within_node p c) (within_node p d)) as [Em Ew];
      [left; by apply within_node_range..|unfold within_node; lia|].
    unfold within_node in Ew. destruct (Z.ltb_spec (c / 4) p), (Z.ltb_spec (d / 4) p); lia.
Qed.

(** C33.  Placing threads on processors: on a machine whose number of processors is a multiple
    of eight the NUMA pattern permutes the processors, puts thread i on node i mod 4 and
    fills the first of every pair of hyperthreads before the second; on any other it
    stops; the two machine-specific patterns permute 24 and 64 processors, and the first
    leaves all others alone, its error label being misspelt; any other pattern leaves
    the number. *)
Theorem place_core_correct {E} `{System E} (s : E) (core pattern : Z) :
  0 <= hardware_concurrency s < 2 ^ 32 -> 0 <= core ->
  let n := hardware_concurrency s in
  (pattern = BalanceNumaNodes -> n mod 8 <> 0 -> exists m, run (place_core core pattern) s = (Faulted m, s)) /\
  (pattern = BalanceNumaNodes -> n mod 8 = 0 -> core < n ->
     run (place_core core pattern) s = (Done (balanced_core n core), s) /\ permutes n (balanced_core n) /\
     balanced_core n core / (n / 4) = core mod 4 /\
     (balanced_core n core mod (n / 4) mod 2 = 0 <-> core < n / 2)) /\
  (pattern = 4 -> run (place_core core pattern) s = (Done (crossfire_core core), s) /\
     permutes 24 crossfire_core /\ (24 <= core -> crossfire_core core = core)) /\
  (pattern = 5 -> run (place_core core pattern) s = (Done (spread_core core), s) /\ permutes 64 spread_core) /\
  (pattern < 3 -> run (place_core core pattern) s = (Done core, s)).
Proof.
  intros Hn Hc n. fold n in Hn.
  assert (u32 (hardware_concurrency s) = n) as Hu by (apply u32_id; done).
  assert (forall p, pattern = p -> place_core core pattern = place_core core p) as Hp by congruence.
  assert (n mod 8 = 0 <-> n mod 4 = 0 /\ (n / 4) mod 2 = 0) as Hmod.
  { pose proof (Z.div_mod n 4). pose proof (Z.div_mod (n / 4) 2). pose proof (Z.div_mod n 8).
    pose proof (Z.mod_pos_bound n 4). pose proof (Z.mod_pos_bound (n / 4) 2). pose proof (Z.mod_pos_bound n 8). lia. }
  assert (run (place_core core BalanceNumaNodes) s =
    if n mod 4 =? 0 then (if (n / 4) mod 2 =? 0 then (Done (balanced_core n core), s)
                          else (Faulted "CHECK_EQ(logical_core_count % 2, 0)", s))
    else (Faulted "CHECK_EQ(GetCoreCount() % numa_node_count, 0)", s)) as Hrun.
  { unfold place_core, GetCoreCount. cbn. rewrite Hu. destruct (n mod 4 =? 0); [|done]. cbn. rewrite Hu.
    by destruct ((n / 4) mod 2 =? 0). }
  split; [|split; [|split; [|split]]].
  - intros E1 Hno. rewrite (Hp _ E1), Hrun. destruct (Z.eqb_spec (n mod 4) 0); [|by eexists].
    destruct (Z.eqb_spec ((n / 4) mod 2) 0); [|by eexists]. destruct Hno. by apply Hmod.
  - intros E1 H8 Hlt. rewrite (Hp _ E1), Hrun. pose proof (proj1 Hmod H8) as [-> ->]. split; [done|].
    apply Z.mod_divide in H8 as [p Hp8]; [|done].
    assert (n = 8 * p) as En by lia. clear Hp8 Hu Hrun Hmod. clearbody n. subst n. assert (0 < p) as Hpos by lia.
    split; [apply balanced_permutes; lia|].
    destruct (balanced_core_spec p core Hpos) as (-> & Hq & Hr); [lia..|].
    fold (within_node p core). pose proof (within_node_range p core Hq) as Hw.
    assert (8 * p / 4 = 2 * p) as -> by (symmetry; apply Z.div_unique with 0; lia).
    assert (8 * p / 2 = 4 * p) as -> by (symmetry; apply Z.div_unique with 0; lia).
    split; [symmetry; apply Z.div_unique with (within_node p core); lia|].
    rewrite <- (Z.mod_unique _ (2 * p) (core mod 4) (within_node p core)) by lia.
    unfold within_node in *. pose proof (Z.div_mod core 4). destruct (Z.ltb_spec (core / 4) p).
    + rewrite Z.mul_comm, Z_mod_mult. split; [lia|done].
    + rewrite Z.add_comm, Z.mul_comm, Z.mod_add by lia. split; [done|lia].
  - intros E1. rewrite (Hp _ E1). split; [done|]. split; [by apply (permutesb_spec 24); vm_compute|].
    intros Hge. unfold crossfire_core. rewrite lookup_ge_None_2; [done|]. simpl. lia.
  - intros E1. rewrite (Hp _ E1). split; [done|]. by apply (permutesb_spec 64); vm_compute.
  - intros Hlt. unfold place_core, BalanceNumaNodes.
    destruct (Z.eqb_spec pattern 3), (Z.eqb_spec pattern 4), (Z.eqb_spec pattern 5); (lia || done).
Qed.

(** *** A system of sixteen processors *)

#[local] Instance sixteen : System unit := {|
  strerror := fun _ => "Invalid argument"; clock_gettime := fun s => ((1, 1500), s);
  hardware_concurrency := fun _ => 16; pthread_self := fun _ => 7;
  pthread_setaffinity_np := fun _ cpus s => (match cpus with [] => 22 | _ => 0 end, s);
  shm_open := fun _ _ s => (3, s); ftruncate := fun _ _ s => s; shm_mmap := fun b _ _ s => (b, s);
  munmap := fun _ _ s => s; getcwd := fun _ => lit "/"
|}.

Lemma place_core_correct_witness :
  run (@place_core unit sixteen 9 BalanceNumaNodes) tt = (Done 5, tt) /\ permutes 16 (balanced_core 16).
Proof.
  destruct (@place_core_correct unit sixteen tt 9 BalanceNumaNodes) as (_ & Hb & _); [done..|].
  destruct (Hb eq_refl eq_refl eq_refl) as (Hr & Hp & _). split; [exact Hr|exact Hp].
Defined.
