(* ===== verification/Allocator.v ===== *)
(** * The allocators (src/environment/environment_linux.h)

    The thread-local allocator: slabs carved by their thread, blocks kept in per-thread
    lists by size; the wrappers of posix_memalign and of libpmemobj. *)
From Stdlib Require Import ZArith Lia Ascii.
From stdpp Require Import base list gmap strings.
From S2P Require Import Prelude Bytes Prog Status Library Memory BzNode.
#[local] Open Scope Z_scope.
#[local] Open Scope prog_scope.

(** ** Data *)

Definition MB : Z := 1024 * 1024.
Definition kNumaMemorySize : Z := 4096 * MB.
Definition kSlabSize : Z := 512 * 1024 * 1024.

(** The hidden header in front of every block; it is one cache line long. *)
Record Header := MkHeader { h_size : Z; h_next : Z }.
Definition sizeof_Header : Z := kCacheLineSize.
Definition GetData (h : Z) : Z := h + sizeof_Header.
Definition ExtractHeader (p : Z) : Z := p - sizeof_Header.

Record BlockList := MkBlockList { bl_head : Z; bl_tail : Z }.
Record Slab := MkSlab { tls_allocator : Z; allocated : Z; memory : Z }.
Record TlsAllocator := MkTlsAllocator { numa_memory_ : list Z; numa_allocated_ : list Z }.

(** Allocator objects by address, block headers by address, and the thread-local variables
    of every thread: its map from sizes to block lists, and its slab once it has one; the
    regions the system has mapped, by their bounds. *)
Record AllocWorld := MkAllocWorld {
  allocators : gmap Z TlsAllocator; headers : gmap Z Header;
  tls_blocks : gmap (Z * Z) BlockList; tls_slab : gmap Z Slab; mapped : list (Z * Z)
}.
Definition set_allocators (f : gmap Z TlsAllocator -> gmap Z TlsAllocator) (w : AllocWorld) : AllocWorld :=
  MkAllocWorld (f (allocators w)) (headers w) (tls_blocks w) (tls_slab w) (mapped w).
Definition set_headers (f : gmap Z Header -> gmap Z Header) (w : AllocWorld) : AllocWorld :=
  MkAllocWorld (allocators w) (f (headers w)) (tls_blocks w) (tls_slab w) (mapped w).
Definition set_blocks (f : gmap (Z * Z) BlockList -> gmap (Z * Z) BlockList) (w : AllocWorld) : AllocWorld :=
  MkAllocWorld (allocators w) (headers w) (f (tls_blocks w)) (tls_slab w) (mapped w).
Definition set_slab (f : gmap Z Slab -> gmap Z Slab) (w : AllocWorld) : AllocWorld :=
  MkAllocWorld (allocators w) (headers w) (tls_blocks w) (f (tls_slab w)) (mapped w).

Definition set_mapped (f : list (Z * Z) -> list (Z * Z)) (w : AllocWorld) : AllocWorld :=
  MkAllocWorld (allocators w) (headers w) (tls_blocks w) (tls_slab w) (f (mapped w)).

(** libnuma, mmap, posix_memalign (its result and the pointer it stores) and free; the
    node of the processor a thread runs on. *)
Class Os := {
  numa_max_node : nat;
  numa_node : Z -> AllocWorld -> Z;
  mmap : Z -> AllocWorld -> Z * AllocWorld;
  numa_free : Z -> Z -> AllocWorld -> AllocWorld;
  posix_memalign : Z -> Z -> AllocWorld -> (Z * Z) * AllocWorld;
  free : Z -> AllocWorld -> AllocWorld
}.

(** ** Accesses *)

(** A field of a header in memory. *)
Definition header_read {X} (h : Z) (f : Header -> X) : prog AllocWorld X :=
  let! x := rd (fun w => headers w !! h) in
  match x with Some x => Ret (f x) | None => Fault "load from unmapped memory" end.
Definition header_write (h : Z) (f : Header -> Header) : prog AllocWorld unit :=
  upd (set_headers (fun m => <[h := f (default (MkHeader 0 0) (m !! h))]> m)).
Definition set_h_size (n : Z) (x : Header) : Header := MkHeader n (h_next x).
Definition set_h_next (p : Z) (x : Header) : Header := MkHeader (h_size x) p.

(** The thread-local map and slab. *)
Definition find_blocks (me size : Z) : prog AllocWorld (option BlockList) := rd (fun w => tls_blocks w !! (me, size)).
Definition put_blocks (me size : Z) (b : BlockList) : prog AllocWorld unit := upd (set_blocks <[(me, size) := b]>).
Definition put_slab (me : Z) (s : Slab) : prog AllocWorld unit := upd (set_slab <[me := s]>).

(** The arrays of an allocator. *)
Definition numa_entry (a node : Z) (w : AllocWorld) : option (Z * Z) :=
  match allocators w !! a with
  | Some A =>
      match numa_memory_ A !! Z.to_nat node, numa_allocated_ A !! Z.to_nat node with
      | Some m, Some v => Some (m, v)
      | _, _ => None
      end
  | None => None
  end.
Definition set_numa_allocated (a node v : Z) : AllocWorld -> AllocWorld :=
  set_allocators (alter (fun A => MkTlsAllocator (numa_memory_ A) (<[Z.to_nat node := v]> (numa_allocated_ A))) a).
Definition numa_memory (a node : Z) : prog AllocWorld Z :=
  let! x := rd (numa_entry a node) in
  match x with Some x => Ret x.1 | None => Fault "load from unmapped memory" end.
Definition numa_fetch_add (a node n : Z) : prog AllocWorld Z :=
  let! x := act (fun w =>
    match numa_entry a node w with
    | Some (_, v) => (Some v, set_numa_allocated a node (u64 (v + n)) w)
    | None => (None, w)
    end) in
  match x with Some x => Ret x | None => Fault "load from unmapped memory" end.

Section tls.
Context {HO : Os} (me : Z) (fuel : nat).

(** ** BlockList *)

(** The list of [size] of this thread. *)
Definition BlockList_Get (size : Z) (b : BlockList) : prog AllocWorld Z :=
  if bl_head b =? 0 then Ret 0 else
  let alloc := bl_head b in
  (if alloc =? bl_tail b then put_blocks me size (MkBlockList 0 0)
   else let! next := header_read alloc h_next in put_blocks me size (MkBlockList next (bl_tail b))) ;;;
  Ret (GetData alloc).

Definition BlockList_Put (size : Z) (b : BlockList) (header : Z) : prog AllocWorld unit :=
  let! head :=
    (if bl_head b =? 0 then
       check (bl_tail b =? 0) "DCHECK(!tail)" ;;;
       put_blocks me size (MkBlockList header header) ;;; Ret header
     else
       header_write (bl_tail b) (set_h_next header) ;;;
       put_blocks me size (MkBlockList (bl_head b) header) ;;;
       header_write header (set_h_next 0) ;;; Ret (bl_head b)) in
  let! s1 := header_read head h_size in
  let! s2 := header_read header h_size in
  check (s1 =? s2) "DCHECK(head->size == header->size)".

(** ** Slab *)

Definition Slab_new (a : Z) : Slab := MkSlab a 0 0.

(** [retry:] with the thread's slab as it stands. *)
Definition Slab_retry (n : Z) (s : Slab) : prog AllocWorld (Slab + Z) :=
  if negb (memory s =? 0) && (u64 (allocated s + n) <=? kSlabSize) then
    put_slab me (MkSlab (tls_allocator s) (u64 (allocated s + n)) (memory s)) ;;;
    Ret (inr (memory s + allocated s))
  else
    let! node := rd (numa_node me) in
    let! off := numa_fetch_add (tls_allocator s) node kSlabSize in
    let! base := numa_memory (tls_allocator s) node in
    put_slab me (MkSlab (tls_allocator s) (allocated s) (base + off)) ;;;
    check (off <? kNumaMemorySize) "ALWAYS_ASSERT(off < tls_allocator->kNumaMemorySize)" ;;;
    put_slab me (MkSlab (tls_allocator s) 0 (base + off)) ;;;
    Ret (inl (MkSlab (tls_allocator s) 0 (base + off))).
Definition Slab_Allocate (s : Slab) (n : Z) : prog AllocWorld Z := loop fuel (Slab_retry n) s.

(** The slab belongs to the thread, and stays with the allocator that first gave it one. *)
Definition GetTlsSlab (this : Z) : prog AllocWorld Slab :=
  let! s := rd (fun w => tls_slab w !! me) in
  match s with
  | Some s => Ret s
  | None => put_slab me (Slab_new this) ;;; Ret (Slab_new this)
  end.

(** ** The allocator's operations *)

Definition aligned_size (nSize : Z) : Z :=
  u64 (nSize + sizeof_Header + kCacheLineSize - 1) / kCacheLineSize * kCacheLineSize.

(** Nothing in the map: a block of the thread's own memory. *)
Definition slab_block (this nSize size : Z) : prog AllocWorld Z :=
  let! tls_slab := GetTlsSlab this in
  let! p := Slab_Allocate tls_slab nSize in
  if p =? 0 then Ret p else
  header_write p (set_h_size size) ;;; header_write p (set_h_next 0) ;;; Ret (p + sizeof_Header).

Definition TlsAllocate (this nSize : Z) : prog AllocWorld Z :=
  let nSize := aligned_size nSize in
  let size := u64 (nSize - sizeof_Header) in
  let! block_list := find_blocks me size in
  let! pBytes := (match block_list with Some b => BlockList_Get size b | None => Ret 0 end) in
  let! pBytes :=
    (if pBytes =? 0 then slab_block this nSize size else Ret pBytes) in
  check (negb (pBytes =? 0)) "DCHECK(pBytes)" ;;;
  Ret pBytes.

Definition TlsAllocator_Allocate (this nSize : Z) : prog AllocWorld Z :=
  let! p := TlsAllocate this nSize in check (negb (p =? 0)) "DCHECK( *mem)" ;;; Ret p.

Definition TlsAllocator_Free (pBytes : Z) : prog AllocWorld unit :=
  let pHeader := ExtractHeader pBytes in
  header_write pHeader (set_h_next 0) ;;;
  let! size := header_read pHeader h_size in
  check (negb (size =? 0)) "DCHECK(pHeader->size)" ;;;
  let! block_list := find_blocks me size in
  match block_list with
  | None => put_blocks me size (MkBlockList pHeader pHeader)
  | Some b => BlockList_Put size b pHeader
  end.

Definition TlsAllocator_AllocateAligned (this nSize nAlignment : Z) : prog AllocWorld Z :=
  check (nAlignment =? kCacheLineSize) "unsupported alignment." ;;; TlsAllocator_Allocate this nSize.
Definition TlsAllocator_FreeAligned (pBytes : Z) : prog AllocWorld unit := TlsAllocator_Free pBytes.
End tls.

(** ** Construction, destruction, creation *)

Section objects.
Context {HO : Os}.

(** Every node's memory is mapped; the result of mmap is not looked at. *)
Definition TlsAllocator_new (this : Z) : prog AllocWorld unit :=
  let nodes := S numa_max_node in
  let! memories := for_list (seq 0 nodes) (fun _ l => let! m := act (mmap kNumaMemorySize) in Ret (l ++ [m])) [] in
  upd (set_allocators <[this := MkTlsAllocator memories (replicate nodes 0)]>).

(** The last node is left out. *)
Definition TlsAllocator_delete (this : Z) : prog AllocWorld unit :=
  for_list (seq 0 numa_max_node) (fun i (_ : unit) =>
    let! m := numa_memory this (Z.of_nat i) in upd (numa_free m kNumaMemorySize)) tt.

(** [Create] of an allocator object of [size] bytes that [new] constructs: a status, and
    the pointer when it succeeds. *)
Definition create (size : Z) (new : Z -> prog AllocWorld unit) : prog AllocWorld (Status * option Z) :=
  let! r := act (posix_memalign kCacheLineSize size) in
  let '(n, allocator) := r in
  if negb (n =? 0) || (allocator =? 0) then Ret (corruption "Out of memory", None)
  else new allocator ;;; Ret (Status_OK, Some allocator).

Definition sizeof_TlsAllocator : Z := 24.
Definition TlsAllocator_Create : prog AllocWorld (Status * option Z) := create sizeof_TlsAllocator TlsAllocator_new.
Definition TlsAllocator_Destroy (a : Z) : prog AllocWorld unit := TlsAllocator_delete a ;;; upd (free a).

(** The environment object is made in the same way. *)
Definition sizeof_LinuxEnvironment : Z := 8.
Definition LinuxEnvironment_Create : prog AllocWorld (Status * option Z) :=
  create sizeof_LinuxEnvironment (fun _ => Ret tt).
Definition LinuxEnvironment_Destroy (e : Z) : prog AllocWorld unit := upd (free e).

(** *** The wrapper of posix_memalign *)

Definition sizeof_DefaultAllocator : Z := 8.
Definition DefaultAllocator_Create : prog AllocWorld (Status * option Z) :=
  create sizeof_DefaultAllocator (fun _ => Ret tt).
Definition DefaultAllocator_Destroy (a : Z) : prog AllocWorld unit := upd (free a).
Definition DefaultAllocator_Allocate (nSize : Z) : prog AllocWorld Z :=
  let! r := act (posix_memalign kCacheLineSize nSize) in
  check (r.1 =? 0) "allocator error." ;;; Ret r.2.
Definition DefaultAllocator_Free (pBytes : Z) : prog AllocWorld unit := upd (free pBytes).
Definition DefaultAllocator_AllocateAligned (nSize nAlignment : Z) : prog AllocWorld Z :=
  check (nAlignment =? kCacheLineSize) "unsupported alignment." ;;; DefaultAllocator_Allocate nSize.
Definition DefaultAllocator_FreeAligned (pBytes : Z) : prog AllocWorld unit := DefaultAllocator_Free pBytes.

(** The object is given the size of another class.  [open_pool] is [pmemobj_open] of the
    file or, when there is none, [pmemobj_create]. *)
Definition PMDKAllocator_Create (open_pool : AllocWorld -> Z * AllocWorld) : prog AllocWorld (Status * option (Z * Z)) :=
  let! r := act (posix_memalign kCacheLineSize sizeof_DefaultAllocator) in
  let '(n, allocator) := r in
  if negb (n =? 0) || (allocator =? 0) then Ret (corruption "Out of memory", None) else
  let! tmp_pool := act open_pool in
  check (negb (tmp_pool =? 0)) "LOG_ASSERT(tmp_pool != nullptr)" ;;;
  Ret (Status_OK, Some (allocator, tmp_pool)).
(** [pmemobj_close] of the pool, in the destructor. *)
Definition PMDKAllocator_Destroy (pmemobj_close : Z -> AllocWorld -> AllocWorld) (a pop : Z) : prog AllocWorld unit :=
  upd (pmemobj_close pop) ;;; upd (free a).
End objects.

(** *** The wrapper of libpmemobj

    [tx_alloc] and [tx_add_range] are [pmemobj_tx_alloc], with no result when the
    transaction aborts, and [pmemobj_tx_add_range_direct]; [pop] is the pool. *)
Section pmdk.
Context {HM : Pmdk} (pop : Z) (tx_alloc : Z -> Mem -> option TOID * Mem) (tx_add_range : Z -> Z -> Mem -> Mem).

(** After an abort, which prints, the caller's pointer is what it was. *)
Definition PMDKAllocator_Allocate (mem nSize : Z) : prog Mem unit :=
  let! v := load mem in
  (if v =? 0 then Ret tt else upd (tx_add_range mem 8)) ;;;
  let! t := act (tx_alloc nSize) in
  match t with Some t => store mem (D_RW t) | None => Ret tt end.
Definition PMDKAllocator_AllocateAligned (mem nSize nAlignment : Z) : prog Mem unit :=
  check (nAlignment =? kCacheLineSize) "unsupported alignment." ;;; PMDKAllocator_Allocate mem nSize.
Definition PMDKAllocator_Free (pBytes : Z) : prog Mem unit := upd (pmemobj_free (pmemobj_oid pBytes)).
Definition PMDKAllocator_GetDirect (pmem_offset : Z) : Z := u64 (pmem_offset + pop).
Definition PMDKAllocator_GetOffset (pmem_direct : Z) : Z := u64 (pmem_direct - pop).
Definition PMDKAllocator_GetRoot (nSize : Z) : prog Mem Z :=
  let! t := act (pmemobj_root nSize) in Ret (D_RW t).
End pmdk.
