(* ===== verification/AllocSpec.v ===== *)
(** * What the thread-local allocator does (environment_linux.h)

    The blocks it has carved never overlap, and each thread's free blocks of one size form
    a queue. *)
From Stdlib Require Import ZArith Lia Ascii.
From stdpp Require Import base list gmap strings.
From S2P Require Import Prelude Bytes Prog Status Library Memory BzNode Allocator.
#[local] Open Scope Z_scope.
#[local] Open Scope prog_scope.

(** ** The specification *)

(** The blocks carved so far, by the address of their header, with their sizes; and every
    thread's queues of free blocks by size. *)
Record Heap := MkHeap { carved : gmap Z Z; freed : gmap (Z * Z) (list Z) }.
Definition is_free (H : Heap) (h : Z) : Prop := exists k q, freed H !! k = Some q /\ h ∈ q.
Definition live (H : Heap) (h s : Z) : Prop := carved H !! h = Some s /\ ~ is_free H h.

(** The size of the block for a request. *)
Definition class_size (n : Z) : Z := aligned_size n - sizeof_Header.

Definition allocates (t n : Z) (H : Heap) (p : Z) (H' : Heap) : Prop :=
  match freed H !! (t, class_size n) with
  | Some (h :: q) => p = GetData h /\ H' = MkHeap (carved H) (<[(t, class_size n) := q]> (freed H))
  | _ => carved H !! ExtractHeader p = None /\
         H' = MkHeap (<[ExtractHeader p := class_size n]> (carved H)) (freed H)
  end.
Definition frees (t h s : Z) (H : Heap) : Heap :=
  MkHeap (carved H) (<[(t, s) := default [] (freed H !! (t, s)) ++ [h]]> (freed H)).

(** ** The invariant *)

(** Half-open intervals of addresses, and who they belong to: a block with its header,
    the rest of a thread's slab, the rest of a node's memory. *)
Definition apart (a b : Z * Z) : Prop := a.2 <= b.1 \/ b.2 <= a.1.
Definition within (a b : Z * Z) : Prop := b.1 <= a.1 /\ a.2 <= b.2.
Inductive owner := Block (h : Z) | Slack (t : Z) | Fresh (i : nat).
#[export] Instance owner_eq_dec : EqDecision owner.
Proof. solve_decision. Defined.

Definition extent (this : Z) (w : AllocWorld) (c : gmap Z Z) (o : owner) : option (Z * Z) :=
  match o with
  | Block h => (fun s => (h, h + sizeof_Header + s)) <$> c !! h
  | Slack t =>
      match tls_slab w !! t with
      | Some s => if memory s =? 0 then None else Some (memory s + allocated s, memory s + kSlabSize)
      | None => None
      end
  | Fresh i => (fun e : Z * Z => (e.1 + e.2, e.1 + kNumaMemorySize)) <$> numa_entry this (Z.of_nat i) w
  end.
Definition separate (ext : owner -> option (Z * Z)) : Prop :=
  forall o1 o2 e1 e2, o1 <> o2 -> ext o1 = Some e1 -> ext o2 = Some e2 -> apart e1 e2.

Lemma separate_refine ext ext' (src : owner -> owner) :
  (forall o e', ext' o = Some e' -> exists e, ext (src o) = Some e /\ within e' e) ->
  (forall o1 o2 e1 e2, o1 <> o2 -> src o1 = src o2 -> ext' o1 = Some e1 -> ext' o2 = Some e2 -> apart e1 e2) ->
  separate ext -> separate ext'.
Proof.
  intros Hsrc Hsame Hsep o1 o2 e1 e2 Hne E1 E2.
  destruct (decide (src o1 = src o2)) as [Es|Hns]; [by eapply Hsame|].
  destruct (Hsrc o1 e1 E1) as (f1 & F1 & W1), (Hsrc o2 e2 E2) as (f2 & F2 & W2).
  pose proof (Hsep _ _ _ _ Hns F1 F2) as Ha. unfold apart, within in *. lia.
Qed.

Definition bl_of (q : list Z) : BlockList := MkBlockList (default 0 (head q)) (default 0 (last q)).
Definition line_aligned (a : Z) : Prop := a mod kCacheLineSize = 0.
Definition slab_ok (this : Z) (s : Slab) : Prop :=
  tls_allocator s = this /\ line_aligned (allocated s) /\ 0 <= allocated s <= kSlabSize /\
  (memory s = 0 \/ 0 < memory s /\ line_aligned (memory s)).

Record heap_ok (this : Z) (nodes : nat) (w : AllocWorld) (H : Heap) : Prop := {
  ho_header h s : carved H !! h = Some s ->
    0 < h /\ line_aligned h /\ 0 <= s /\ exists nx, headers w !! h = Some (MkHeader s nx);
  ho_list k : tls_blocks w !! k = bl_of <$> freed H !! k;
  ho_linked k q i x y : freed H !! k = Some q -> q !! i = Some x -> q !! S i = Some y ->
    headers w !! x = Some (MkHeader k.2 y);
  ho_freed k q x : freed H !! k = Some q -> x ∈ q -> carved H !! x = Some k.2;
  ho_once k1 q1 i k2 q2 j x : freed H !! k1 = Some q1 -> freed H !! k2 = Some q2 ->
    q1 !! i = Some x -> q2 !! j = Some x -> k1 = k2 /\ i = j;
  ho_apart : separate (extent this w (carved H));
  ho_slab t s : tls_slab w !! t = Some s -> slab_ok this s;
  ho_nodes i : (i < nodes)%nat -> is_Some (numa_entry this (Z.of_nat i) w);
  ho_numa i m v : numa_entry this (Z.of_nat i) w = Some (m, v) ->
    0 < m /\ line_aligned m /\ 0 <= v <= kNumaMemorySize /\ v mod kSlabSize = 0
}.

(** ** Sizes *)

Lemma aligned_size_spec n :
  0 <= n < 2 ^ 64 - 128 -> n + sizeof_Header <= aligned_size n < n + sizeof_Header + kCacheLineSize /\ line_aligned (aligned_size n).
Proof.
  intros Hn. unfold aligned_size, line_aligned, sizeof_Header, kCacheLineSize. rewrite u64_id by (unfold fits; lia).
  split; [|by apply Z_mod_mult]. pose proof (Z.div_mod (n + 64 + 64 - 1) 64). pose proof (Z.mod_pos_bound (n + 64 + 64 - 1) 64). lia.
Qed.

Lemma aligned_add a b : line_aligned a -> line_aligned b -> line_aligned (a + b).
Proof. unfold line_aligned, kCacheLineSize. intros Ha Hb. rewrite Z.add_mod, Ha, Hb by lia. done. Qed.

Lemma slab_aligned v : v mod kSlabSize = 0 -> line_aligned v.
Proof.
  unfold line_aligned, kSlabSize, kCacheLineSize. intros Hv.
  apply Z.mod_divide in Hv as [x ->]; [|lia]. apply Z.mod_divide; [lia|]. exists (x * 8388608). lia.
Qed.

(** A request that fits in a slab. *)
Definition small (n : Z) : Prop := 0 <= n <= kSlabSize - sizeof_Header.

Lemma small_sizes n : small n ->
  let a := aligned_size n in
  line_aligned a /\ n <= class_size n /\ 0 < a <= kSlabSize /\ 0 <= class_size n /\
  u64 (a - sizeof_Header) = class_size n.
Proof.
  unfold small, class_size, kSlabSize, sizeof_Header, kCacheLineSize. intros Hn.
  destruct (aligned_size_spec n) as [Hb Ha]; [lia|]. unfold line_aligned, sizeof_Header, kCacheLineSize in *.
  set (a := aligned_size n) in *. cbn zeta.
  pose proof (Z.div_mod a 64). rewrite u64_id by (unfold fits; lia). split; [done|]. lia.
Qed.

(** ** Changes of the world *)

Section changes.
Context (this : Z) (nodes : nat).

Lemma entry_nat node w : numa_entry this node w = numa_entry this (Z.of_nat (Z.to_nat node)) w.
Proof. unfold numa_entry. by rewrite Nat2Z.id. Qed.

(** The extents do not depend on the headers and the lists. *)
Lemma extent_headers f w c : extent this (set_headers f w) c = extent this w c.
Proof. done. Qed.
Lemma extent_blocks f w c : extent this (set_blocks f w) c = extent this w c.
Proof. done. Qed.

Lemma bl_of_snoc q h : bl_of (q ++ [h]) = MkBlockList (default h (head q)) h.
Proof. unfold bl_of. rewrite last_snoc. by destruct q. Qed.

(** Taking the first free block. *)
Lemma heap_ok_get w H k h q :
  heap_ok this nodes w H -> freed H !! k = Some (h :: q) ->
  heap_ok this nodes (set_blocks <[k := bl_of q]> w) (MkHeap (carved H) (<[k := q]> (freed H))).
Proof.
  intros Hok Hk. destruct Hok as [Hh Hl Hn Hf Ho Ha Hs Hm Hu].
  assert (forall k' q' i x, <[k:=q]> (freed H) !! k' = Some q' -> q' !! i = Some x ->
    exists q0 i0, freed H !! k' = Some q0 /\ q0 !! i0 = Some x /\ q0 !! S i0 = q' !! S i /\ i0 = (if decide (k' = k) then S i else i)) as Hold.
  { intros k' q' i x. destruct (decide (k' = k)) as [->|Hne].
    - rewrite lookup_insert_eq. intros [= <-] Hi. by exists (h :: q), (S i).
    - rewrite lookup_insert_ne by done. intros Hq Hi. by exists q', i. }
  split; simpl; [done| |intros k' q' i x y Hq Hx Hy|intros k' q' x Hq Hx|intros k1 q1 i k2 q2 j x H1 H2 Hi Hj|done..].
  - intros k'. destruct (decide (k' = k)) as [->|Hne]; [by rewrite !lookup_insert_eq|].
    by rewrite !lookup_insert_ne.
  - destruct (Hold k' q' i x Hq Hx) as (q0 & i0 & E0 & Ei & Es & _). eapply Hn; [done..|]. by rewrite Es.
  - apply list_elem_of_lookup in Hx as [i Hi]. destruct (Hold k' q' i x Hq Hi) as (q0 & i0 & E0 & Ei & _).
    eapply Hf; [done|]. apply list_elem_of_lookup. by exists i0.
  - destruct (Hold k1 q1 i x H1 Hi) as (p1 & i1 & E1 & Ei1 & _ & D1), (Hold k2 q2 j x H2 Hj) as (p2 & j1 & E2 & Ej1 & _ & D2).
    destruct (Ho k1 p1 i1 k2 p2 j1 x E1 E2 Ei1 Ej1) as [-> E]. split; [done|]. subst i1 j1. destruct (decide (k2 = k)); lia.
Qed.

(** A header off every free list may change its link. *)
Lemma heap_ok_link w H h p :
  heap_ok this nodes w H -> ~ is_free H h -> is_Some (carved H !! h) ->
  heap_ok this nodes (set_headers (fun m => <[h := set_h_next p (default (MkHeader 0 0) (m !! h))]> m) w) H.
Proof.
  intros Hok Hnf [s0 Hc]. destruct Hok as [Hh Hl Hn Hf Ho Ha Hs Hm Hu]. split; simpl; [|done| |done..].
  - intros h' s Hc'. destruct (Hh h' s Hc') as (H1 & H2 & H3 & nx & Hx). split_and!; [done..|].
    destruct (decide (h' = h)) as [->|Hne].
    + rewrite lookup_insert_eq, Hx. by eexists.
    + rewrite lookup_insert_ne by done. by eexists.
  - intros k q i x y Hq Hx Hy. rewrite lookup_insert_ne; [by eapply Hn|]. intros ->. apply Hnf.
    exists k, q. split; [done|]. apply list_elem_of_lookup. by exists i.
Qed.
(** A queue grows at its end: its last header, if any, now links to the new one. *)
Definition linked_to (q : list Z) (h : Z) (m : gmap Z Header) : gmap Z Header :=
  match last q with Some x => alter (set_h_next h) x m | None => m end.

Lemma linked_to_size q h m x y : m !! x = Some y -> exists nx, linked_to q h m !! x = Some (MkHeader (h_size y) nx).
Proof.
  intros E. unfold linked_to. destruct (last q) as [z|]; [|exists (h_next y); by destruct y].
  destruct (decide (x = z)) as [->|Hne].
  - rewrite lookup_alter_eq, E. by eexists.
  - rewrite lookup_alter_ne, E by done. exists (h_next y). by destruct y.
Qed.

Lemma heap_ok_put w H t s h :
  let q := default [] (freed H !! (t, s)) in
  heap_ok this nodes w H -> live H h s ->
  heap_ok this nodes (set_blocks <[(t, s) := bl_of (q ++ [h])]> (set_headers (linked_to q h) w)) (frees t h s H).
Proof.
  intros q Hok [Hc Hnf]. destruct Hok as [Hh Hl Hn Hf Ho Ha Hs Hm Hu].
  assert (forall i x, q !! i = Some x -> freed H !! (t, s) = Some q) as Hq.
  { unfold q. intros i x. by destruct (freed H !! (t, s)). }
  (* every place of a queue is an old place or the new last one *)
  assert (forall k q' i x, freed (frees t h s H) !! k = Some q' -> q' !! i = Some x ->
    (exists q0, freed H !! k = Some q0 /\ q0 !! i = Some x /\ (k = (t, s) -> q0 = q) /\ (k <> (t, s) -> q0 = q')) \/
    (k = (t, s) /\ x = h /\ i = length q)) as Hold.
  { intros k q' i x. unfold frees; simpl. fold q. destruct (decide (k = (t, s))) as [->|Hne].
    - rewrite lookup_insert_eq. intros [= <-] [Hi|[Hi Hx]]%lookup_app_Some.
      + left. exists q. split_and!; [by eapply Hq|done..].
      + right. apply list_lookup_singleton_Some in Hx as [Hx <-]. split_and!; [done..|lia].
    - rewrite lookup_insert_ne by done. intros Hk Hi. left. by exists q'. }
  assert (forall k q0 i, freed H !! k = Some q0 -> q0 !! i <> Some h) as Hfresh.
  { intros k q0 i Hk Hi. apply Hnf. exists k, q0. split; [done|]. apply list_elem_of_lookup. by exists i. }
  split; [|..|done|done|done|done].
  - intros h' s' Hc'. destruct (Hh h' s' Hc') as (H1 & H2 & H3 & nx & Hx). split_and!; [done..|].
    destruct (linked_to_size q h _ _ _ Hx) as [nx' Hx']. by exists nx'.
  - intros k. unfold frees; simpl. fold q. destruct (decide (k = (t, s))) as [->|Hne].
    + by rewrite !lookup_insert_eq.
    + by rewrite !lookup_insert_ne.
  - intros k q' i x y Hk Hx Hy. simpl. destruct (Hold k q' (S i) y Hk Hy) as [(q0 & E0 & Ey & HA & HB)|(-> & -> & Hi)].
    + assert (q0 !! i = Some x) as Ex.
      { destruct (Hold k q' i x Hk Hx) as [(q1 & E1 & Ex & _)|(-> & -> & Hi)]; [congruence|].
        rewrite (HA eq_refl) in Ey. apply lookup_lt_Some in Ey. lia. }
      pose proof (Hn k q0 i x y E0 Ex Ey) as Hlink. unfold linked_to. destruct (last q) as [z|] eqn:El; [|done].
      rewrite lookup_alter_ne; [done|]. intros ->. rewrite last_lookup in El.
      assert (freed H !! (t, s) = Some q) as Eq by (by eapply Hq).
      destruct (Ho k q0 i (t, s) q (pred (length q)) x E0 Eq Ex El) as [-> ->].
      rewrite (HA eq_refl) in Ey. apply lookup_lt_Some in Ey. lia.
    + destruct (Hold (t, s) q' i x Hk Hx) as [(q0 & E0 & Ex & HA & _)|(_ & _ & ?)]; [|lia].
      rewrite (HA eq_refl) in Ex, E0. assert (last q = Some x) as El.
      { rewrite last_lookup. by replace (pred (length q)) with i by lia. }
      unfold linked_to. rewrite El, lookup_alter_eq.
      pose proof (Hf _ _ x E0 ltac:(apply list_elem_of_lookup; by exists i)) as Hcx.
      destruct (Hh _ _ Hcx) as (_ & _ & _ & nx & ->). done.
  - intros k q' x Hk Hx. apply list_elem_of_lookup in Hx as [i Hi].
    destruct (Hold k q' i x Hk Hi) as [(q0 & E0 & Ex & _)|(-> & -> & _)]; [|done].
    eapply Hf; [done|]. apply list_elem_of_lookup. by exists i.
  - intros k1 q1 i k2 q2 j x H1 H2 Hi Hj.
    destruct (Hold k1 q1 i x H1 Hi) as [(p1 & E1 & Ei & _)|(-> & -> & ->)], (Hold k2 q2 j _ H2 Hj) as [(p2 & E2 & Ej & _)|(-> & E & ->)];
      [by eapply Ho| | |done]; exfalso; [subst|]; by eapply Hfresh.
Qed.
(** Carving a block of [a] bytes off a slab. *)
Definition carve (t a : Z) (s : Slab) (w : AllocWorld) : AllocWorld :=
  let p := memory s + allocated s in
  set_headers (fun m => <[p := MkHeader (a - sizeof_Header) 0]> m)
    (set_slab <[t := MkSlab (tls_allocator s) (allocated s + a) (memory s)]> w).

Lemma heap_ok_carve w H t s a :
  let p := memory s + allocated s in
  heap_ok this nodes w H -> tls_slab w !! t = Some s -> memory s <> 0 ->
  line_aligned a -> sizeof_Header <= a -> allocated s + a <= kSlabSize ->
  carved H !! p = None /\
  heap_ok this nodes (carve t a s w) (MkHeap (<[p := a - sizeof_Header]> (carved H)) (freed H)).
Proof.
  intros p Hok Ht Hmem Hal Ha1 Ha2. destruct Hok as [Hh Hl Hn Hf Ho Ha Hs Hm Hu].
  destruct (Hs t s Ht) as (Hthis & Haal & Har & [?|[Hmp Hmal]]); [done|].
  assert (sizeof_Header = 64) as Hsz by done.
  assert (extent this w (carved H) (Slack t) = Some (p, memory s + kSlabSize)) as Hslack.
  { unfold extent. rewrite Ht. by destruct (Z.eqb_spec (memory s) 0). }
  assert (carved H !! p = None) as Hp.
  { destruct (carved H !! p) as [s'|] eqn:E; [|done]. exfalso. destruct (Hh p s' E) as (_ & _ & Hs' & _).
    assert (extent this w (carved H) (Block p) = Some (p, p + sizeof_Header + s')) as Hb by (unfold extent; by rewrite E).
    pose proof (Ha (Block p) (Slack t) _ _ ltac:(done) Hb Hslack) as Hd. unfold apart in Hd. simpl in Hd. unfold p in *. lia. }
  split; [done|]. split; simpl; [|done| | |done| | |done..].
  - intros h s' Hc. destruct (decide (h = p)) as [->|Hne].
    + rewrite lookup_insert_eq in Hc. simplify_eq. rewrite lookup_insert_eq. split_and!; [lia|by apply aligned_add|lia|by eexists].
    + rewrite lookup_insert_ne in Hc by done. rewrite lookup_insert_ne by done. by apply Hh.
  - intros k q i x y Hq Hx Hy. rewrite lookup_insert_ne; [by eapply Hn|]. intros <-.
    rewrite (Hf k q p Hq) in Hp; [done|]. apply list_elem_of_lookup. by exists i.
  - intros k q x Hq Hx. pose proof (Hf k q x Hq Hx) as Hcx. rewrite lookup_insert_ne; [done|]. intros <-. congruence.
  - eapply (separate_refine _ _ (fun o => if decide (o = Block p) then Slack t else o)); [..|exact Ha].
    + intros o e' E. destruct (decide (o = Block p)) as [->|Hne].
      * rewrite Hslack. eexists. split; [done|]. unfold extent in E. rewrite lookup_insert_eq in E. simpl in E. simplify_eq.
        unfold within; simpl. unfold p. lia.
      * destruct o as [h|u|i]; simpl in *.
        -- rewrite lookup_insert_ne in E by congruence. exists e'. unfold within. split; [done|lia].
        -- destruct (decide (u = t)) as [->|Hu'].
           ++ rewrite lookup_insert_eq in E. simpl in E. rewrite Ht. destruct (Z.eqb_spec (memory s) 0); [done|]. simplify_eq.
              eexists. split; [done|]. unfold within; simpl. lia.
           ++ rewrite lookup_insert_ne in E by done. exists e'. unfold within. split; [done|lia].
        -- exists e'. unfold within. split; [done|lia].
    + intros o1 o2 e1 e2 Hne Hsame E1 E2.
      assert (forall e1 e2, extent this (carve t a s w) (<[p:=a - sizeof_Header]> (carved H)) (Block p) = Some e1 ->
        extent this (carve t a s w) (<[p:=a - sizeof_Header]> (carved H)) (Slack t) = Some e2 -> apart e1 e2) as Hpair.
      { intros f1 f2. simpl. rewrite !lookup_insert_eq. simpl. destruct (Z.eqb_spec (memory s) 0); [done|].
        intros [= <-] [= <-]. unfold apart; simpl. unfold p. lia. }
      destruct (decide (o1 = Block p)) as [->|], (decide (o2 = Block p)) as [->|]; simplify_eq; [by apply Hpair|].
      specialize (Hpair _ _ E2 E1). unfold apart in *. lia.
  - intros u s' Hu'. destruct (decide (u = t)) as [->|Hne].
    + rewrite lookup_insert_eq in Hu'. simplify_eq. split_and!; simpl; [done|by apply aligned_add|lia|lia|by right].
    + rewrite lookup_insert_ne in Hu' by done. by apply Hs in Hu'.
Qed.

(** A slab takes the next part of a node's memory. *)
Definition new_slab (t : Z) (i : nat) (m v : Z) (w : AllocWorld) : AllocWorld :=
  set_slab <[t := MkSlab this 0 (m + v)]> (set_numa_allocated this (Z.of_nat i) (v + kSlabSize) w).

Lemma entry_set i j v w :
  numa_entry this (Z.of_nat j) (set_numa_allocated this (Z.of_nat i) v w) =
    (fun e : Z * Z => if decide (i = j) then (e.1, v) else e) <$> numa_entry this (Z.of_nat j) w.
Proof.
  unfold numa_entry, set_numa_allocated, set_allocators; simpl. rewrite lookup_alter_eq, !Nat2Z.id.
  destruct (allocators w !! this) as [A|]; [|done]. simpl.
  destruct (numa_memory_ A !! j) as [m|]; [|done]. destruct (decide (i = j)) as [->|Hne].
  - destruct (numa_allocated_ A !! j) as [u|] eqn:E; simpl.
    + by rewrite list_lookup_insert_eq by (by eapply lookup_lt_Some).
    + by rewrite list_insert_ge, E by (by apply lookup_ge_None).
  - rewrite list_lookup_insert_ne by done. by destruct (numa_allocated_ A !! j).
Qed.

Lemma entry_new_slab t i j m v w :
  numa_entry this (Z.of_nat j) (new_slab t i m v w) =
    (fun e : Z * Z => if decide (i = j) then (e.1, v + kSlabSize) else e) <$> numa_entry this (Z.of_nat j) w.
Proof. apply entry_set. Qed.

Lemma heap_ok_new_slab w H t i m v :
  heap_ok this nodes w H -> numa_entry this (Z.of_nat i) w = Some (m, v) -> v < kNumaMemorySize ->
  heap_ok this nodes (new_slab t i m v w) H.
Proof.
  intros Hok Hi Hv. destruct Hok as [Hh Hl Hn Hf Ho Ha Hs Hm Hu].
  destruct (Hu i m v Hi) as (Hm0 & Hmal & Hvr & Hvm).
  assert (v + kSlabSize <= kNumaMemorySize) as Hroom.
  { apply Z.mod_divide in Hvm as [x ->]; [|done]. unfold kSlabSize, kNumaMemorySize, MB in *. lia. }
  assert (0 < kSlabSize) as Hk by done.
  assert (extent this w (carved H) (Fresh i) = Some (m + v, m + kNumaMemorySize)) as Hfresh by (simpl; by rewrite Hi).
  split; simpl; [done..| | | |].
  - eapply (separate_refine _ _ (fun o => if decide (o = Slack t) then Fresh i else o)); [..|exact Ha].
    + intros o e' E. destruct (decide (o = Slack t)) as [->|Hne].
      * rewrite Hfresh. eexists. split; [done|]. unfold extent, new_slab in E. simpl in E. rewrite lookup_insert_eq in E. simpl in E.
        destruct (Z.eqb_spec (m + v) 0); simplify_eq. unfold within; simpl. lia.
      * destruct o as [h|u|j]; simpl in *.
        -- exists e'. unfold within. split; [done|lia].
        -- rewrite lookup_insert_ne in E by congruence. exists e'. unfold within. split; [done|lia].
        -- rewrite entry_new_slab in E. destruct (numa_entry this (Z.of_nat j) w) as [[m' v']|] eqn:Ej; [|done]. simpl in *.
           eexists. split; [done|]. destruct (decide (i = j)) as [->|]; simplify_eq; unfold within; simpl; lia.
    + intros o1 o2 e1 e2 Hne Hsame E1 E2.
      assert (forall e1 e2, extent this (new_slab t i m v w) (carved H) (Slack t) = Some e1 ->
        extent this (new_slab t i m v w) (carved H) (Fresh i) = Some e2 -> apart e1 e2) as Hpair.
      { intros f1 f2. simpl. rewrite lookup_insert_eq. simpl. destruct (Z.eqb_spec (m + v) 0); [done|].
        rewrite entry_new_slab, Hi. simpl. rewrite decide_True by done. intros [= <-] [= <-]. unfold apart; simpl. lia. }
      destruct (decide (o1 = Slack t)) as [->|], (decide (o2 = Slack t)) as [->|]; simplify_eq; [by apply Hpair|].
      specialize (Hpair _ _ E2 E1). unfold apart in *. lia.
  - intros u s' Hu'. destruct (decide (u = t)) as [->|Hne].
    + rewrite lookup_insert_eq in Hu'. simplify_eq. split_and!; simpl; [done..|]. right. split; [lia|].
      apply aligned_add; [done|by apply slab_aligned].
    + rewrite lookup_insert_ne in Hu' by done. by apply Hs in Hu'.
  - intros j Hj. destruct (Hm j Hj) as [e E]. rewrite entry_new_slab, E. by eexists.
  - intros j m' v' E. rewrite entry_new_slab in E. destruct (numa_entry this (Z.of_nat j) w) as [[m0 v0]|] eqn:Ej; [|done]. simpl in E.
    destruct (decide (i = j)) as [->|]; simplify_eq; [|by apply Hu in Ej].
    split_and!; [done..|lia|lia|]. rewrite <- Zplus_mod_idemp_l, Hvm, Z.add_0_l. by apply Z_mod_same_full.
Qed.
End changes.

(** ** The operations *)

Section operations.
Context {HO : Os} (this : Z) (nodes : nat).
Context (node_ok : forall t w, (Z.to_nat (numa_node t w) < nodes)%nat).

Lemma run_Get t s h q w H :
  heap_ok this nodes w H -> freed H !! (t, s) = Some (h :: q) ->
  run (BlockList_Get t s (bl_of (h :: q))) w = (Done (GetData h), set_blocks <[(t, s) := bl_of q]> w).
Proof.
  intros Hok Hq. pose proof (ho_freed _ _ _ _ Hok _ _ h Hq ltac:(by left)) as Hc.
  destruct (ho_header _ _ _ _ Hok _ _ Hc) as (Hpos & _). unfold BlockList_Get, bl_of. simpl.
  destruct (Z.eqb_spec h 0); [lia|]. destruct q as [|y q]; simpl; [by rewrite Z.eqb_refl|].
  destruct (Z.eqb_spec h (default 0 (last (y :: q)))) as [E|_].
  { exfalso. destruct (last (y :: q)) as [z|] eqn:El; [|by apply last_None in El]. simpl in E. subst z.
    rewrite last_lookup in El. simpl in El.
    destruct (ho_once _ _ _ _ Hok _ _ 0%nat _ _ (S (length q)) h Hq Hq) as [_ ?]; [done..|lia]. }
  unfold header_read. simpl. pose proof (ho_linked _ _ _ _ Hok _ _ 0%nat h y Hq ltac:(done) ltac:(done)) as ->. done.
Qed.

(** A slab with room, or a node with no memory left. *)
Definition roomy_slab (t a : Z) (s : Slab) (w : AllocWorld) : Prop :=
  tls_slab w !! t = Some s /\ memory s <> 0 /\ allocated s + a <= kSlabSize.
Definition cut (t a : Z) (s : Slab) (w : AllocWorld) : AllocWorld :=
  set_slab <[t := MkSlab (tls_allocator s) (allocated s + a) (memory s)]> w.
Definition out_of_memory : string := "ALWAYS_ASSERT(off < tls_allocator->kNumaMemorySize)".
Definition exhausted (w : AllocWorld) : Prop :=
  exists i m, numa_entry this (Z.of_nat i) w = Some (m, kNumaMemorySize).

Lemma run_retry_room t a s w H :
  heap_ok this nodes w H -> roomy_slab t a s w -> 0 <= a ->
  run (Slab_retry t a s) w = (Done (inr (memory s + allocated s)), cut t a s w).
Proof.
  intros Hok (Ht & Hm & Hr) Ha. destruct (ho_slab _ _ _ _ Hok _ _ Ht) as (_ & _ & Hb & _).
  unfold Slab_retry. destruct (Z.eqb_spec (memory s) 0); [done|]. simpl.
  unfold kSlabSize in *. rewrite u64_id by (unfold fits; lia). destruct (Z.leb_spec (allocated s + a) (512 * 1024 * 1024)); [done|lia].
Qed.

Lemma run_retry_full t a s w H :
  heap_ok this nodes w H -> tls_slab w !! t = Some s -> ~ roomy_slab t a s w -> 0 <= a <= kSlabSize ->
  (exists i m v, v < kNumaMemorySize /\ numa_entry this (Z.of_nat i) w = Some (m, v) /\
     run (Slab_retry t a s) w = (Done (inl (MkSlab this 0 (m + v))), new_slab this t i m v w)) \/
  exhausted w /\ exists w', run (Slab_retry t a s) w = (Faulted out_of_memory, w').
Proof.
  intros Hok Ht Hno Ha. destruct (ho_slab _ _ _ _ Hok _ _ Ht) as (Hthis & _ & Hb & _).
  assert (negb (memory s =? 0) && (u64 (allocated s + a) <=? kSlabSize) = false) as E.
  { apply andb_false_iff. destruct (Z.eqb_spec (memory s) 0) as [|Hm]; [by left|right]. apply Z.leb_gt.
    unfold kSlabSize in *. rewrite u64_id by (unfold fits; lia).
    destruct (Z.lt_ge_cases (512 * 1024 * 1024) (allocated s + a)); [done|]. exfalso. by apply Hno. }
  unfold Slab_retry. rewrite E, Hthis. set (i := Z.to_nat (numa_node t w)).
  destruct (ho_nodes _ _ _ _ Hok i (node_ok t w)) as [[m v] Hmv].
  destruct (ho_numa _ _ _ _ Hok _ _ _ Hmv) as (Hm0 & _ & Hv & Hmod).
  pose proof Hmv as Hmv'. unfold i in Hmv'. rewrite <- entry_nat in Hmv'.
  assert (u64 (v + kSlabSize) = v + kSlabSize) as Hu.
  { apply u64_id. unfold fits, kNumaMemorySize, MB, kSlabSize in *. lia. }
  assert (set_numa_allocated this (numa_node t w) (v + kSlabSize) w = set_numa_allocated this (Z.of_nat i) (v + kSlabSize) w) as Hset.
  { unfold set_numa_allocated, i. by rewrite Nat2Z.id. }
  assert (numa_entry this (numa_node t w) (set_numa_allocated this (Z.of_nat i) (v + kSlabSize) w) = Some (m, v + kSlabSize)) as Hafter.
  { rewrite entry_nat. fold i. rewrite entry_set, Hmv. simpl. by rewrite decide_True. }
  unfold numa_fetch_add, numa_memory, put_slab, act, rd, upd. simpl. rewrite Hmv'. simpl. rewrite Hu, Hset, Hafter. simpl.
  destruct (Z.ltb_spec v kNumaMemorySize) as [Hlt|Hge]; simpl.
  - left. exists i, m, v. split; [done|]. split; [done|]. f_equal. unfold new_slab, set_slab. simpl. by rewrite insert_insert_eq.
  - right. split; [exists i, m; assert (v = kNumaMemorySize) as <- by lia; done|]. by eexists.
Qed.

Context (fuel : nat) (fuel_2 : (2 <= fuel)%nat).

Lemma run_Slab_Allocate t a s w H :
  heap_ok this nodes w H -> tls_slab w !! t = Some s -> line_aligned a -> sizeof_Header <= a <= kSlabSize ->
  (exists s0 w0, heap_ok this nodes w0 H /\ roomy_slab t a s0 w0 /\
     run (Slab_Allocate t fuel s a) w = (Done (memory s0 + allocated s0), cut t a s0 w0)) \/
  exhausted w /\ exists w', run (Slab_Allocate t fuel s a) w = (Faulted out_of_memory, w').
Proof.
  intros Hok Ht Hal Ha. assert (0 < sizeof_Header) by done. unfold Slab_Allocate.
  destruct fuel as [|[|n]] eqn:Ef; [exfalso; lia..|].
  assert (forall k s0 w0, heap_ok this nodes w0 H -> roomy_slab t a s0 w0 ->
    run (loop (S k) (Slab_retry t a) s0) w0 = (Done (memory s0 + allocated s0), cut t a s0 w0)) as Hgo.
  { intros k s0 w0 Hok0 Hr0. cbn [loop]. rewrite run_bind, (run_retry_room t a s0 w0 H) by (done || lia). done. }
  destruct (decide (memory s <> 0 /\ allocated s + a <= kSlabSize)) as [[Hm Hr]|Hno].
  - left. exists s, w. split; [done|]. split; [done|]. by apply Hgo.
  - destruct (run_retry_full t a s w H Hok Ht) as [(i & m & v & Hv & Hmv & E)|(Hex & w' & E)]; [|lia| |].
    { intros (_ & ? & ?). by apply Hno. }
    + left. exists (MkSlab this 0 (m + v)), (new_slab this t i m v w).
      destruct (ho_numa _ _ _ _ Hok _ _ _ Hmv) as (Hm0 & _ & Hvr & _).
      assert (heap_ok this nodes (new_slab this t i m v w) H) as Hok1 by (by apply heap_ok_new_slab).
      assert (roomy_slab t a (MkSlab this 0 (m + v)) (new_slab this t i m v w)) as Hr1.
      { split; [apply lookup_insert_eq|]. simpl. lia. }
      split; [done|]. split; [done|]. cbn [loop]. rewrite run_bind, E. cbn [and_then]. by apply Hgo.
    + right. split; [done|]. exists w'. cbn [loop]. by rewrite run_bind, E.
Qed.

Lemma allocate_carves t n s0 w0 H :
  heap_ok this nodes w0 H -> small n -> roomy_slab t (aligned_size n) s0 w0 ->
  let p := memory s0 + allocated s0 in
  run (header_write p (set_h_size (class_size n)) ;;; header_write p (set_h_next 0) ;;; Ret (p + sizeof_Header))
      (cut t (aligned_size n) s0 w0) = (Done (GetData p), carve t (aligned_size n) s0 w0) /\ 0 < p /\ carved H !! p = None /\
  heap_ok this nodes (carve t (aligned_size n) s0 w0) (MkHeap (<[p := class_size n]> (carved H)) (freed H)).
Proof.
  intros Hok Hn (Ht & Hm & Hr) p. destruct (small_sizes n Hn) as (Hal & _ & Ha & Hc & _).
  destruct (ho_slab _ _ _ _ Hok _ _ Ht) as (_ & _ & Hb & [?|[Hmp _]]); [done|].
  destruct (heap_ok_carve this nodes w0 H t s0 (aligned_size n) Hok Ht Hm Hal) as [Hp Hok']; [unfold class_size in Hc; lia|done|].
  split; [|split; [unfold p; lia|by split]].
  unfold header_write, cut, carve, set_headers, set_slab, upd, act. simpl. fold p. do 2 f_equal.
  by rewrite lookup_insert_eq, insert_insert_eq.
Qed.

(** The thread's slab, which it has from now on. *)
Lemma run_GetTlsSlab t w H :
  heap_ok this nodes w H -> exists s w1, run (GetTlsSlab t this) w = (Done s, w1) /\
    heap_ok this nodes w1 H /\ tls_slab w1 !! t = Some s /\ (exhausted w1 -> exhausted w).
Proof.
  intros Hok. unfold GetTlsSlab. rewrite run_bind, run_rd. cbn [and_then].
  destruct (tls_slab w !! t) as [s|] eqn:Es; [by exists s, w|].
  exists (Slab_new this), (set_slab <[t := Slab_new this]> w). split; [done|].
  split; [|split; [apply lookup_insert_eq|done]]. destruct Hok as [Hh Hl Hn Hf Ho Ha Hs Hm Hu].
  split; simpl; [done..| | |done|done].
  - eapply (separate_refine _ _ (fun o => o)); [| |exact Ha]; [|by intros ???? ? ->].
    intros o e' E. destruct o as [h|u|i]; try (exists e'; unfold within; split; [done|lia]). simpl in *.
    destruct (decide (u = t)) as [->|Hne]; [by rewrite lookup_insert_eq in E|].
    rewrite lookup_insert_ne in E by done. exists e'. unfold within. split; [done|lia].
  - intros u s'. destruct (decide (u = t)) as [->|Hne].
    + rewrite lookup_insert_eq. intros [= <-]. split_and!; simpl; [done..|by left].
    + rewrite lookup_insert_ne by done. apply Hs.
Qed.

Lemma run_slab_block t n w H :
  heap_ok this nodes w H -> small n ->
  (exists h w', run (slab_block t fuel this (aligned_size n) (class_size n)) w = (Done (GetData h), w') /\ 0 < h /\
     carved H !! h = None /\ heap_ok this nodes w' (MkHeap (<[h := class_size n]> (carved H)) (freed H))) \/
  exhausted w /\ exists w', run (slab_block t fuel this (aligned_size n) (class_size n)) w = (Faulted out_of_memory, w').
Proof.
  intros Hok Hn. destruct (small_sizes n Hn) as (Hal & _ & Ha & Hc & _).
  destruct (run_GetTlsSlab t w H Hok) as (s & w1 & E & Hok1 & Ht & Hex). unfold slab_block. rewrite run_bind, E. cbn [and_then].
  rewrite run_bind. destruct (run_Slab_Allocate t (aligned_size n) s w1 H Hok1 Ht Hal) as [(s0 & w0 & Hok0 & Hr0 & E0)|(Hx & w' & E0)];
    [unfold class_size in Hc; lia| |]; rewrite E0; cbn [and_then].
  - left. destruct (allocate_carves t n s0 w0 H Hok0 Hn Hr0) as (Er & Hpos & Hnew & Hok2).
    destruct (Z.eqb_spec (memory s0 + allocated s0) 0); [lia|]. rewrite Er.
    by exists (memory s0 + allocated s0), (carve t (aligned_size n) s0 w0).
  - right. split; [by apply Hex|]. by exists w'.
Qed.

Lemma run_TlsAllocate t n w H :
  heap_ok this nodes w H -> small n ->
  (exists p w' H', run (TlsAllocator_Allocate t fuel this n) w = (Done p, w') /\
     heap_ok this nodes w' H' /\ allocates t n H p H') \/
  exhausted w /\ exists w', run (TlsAllocator_Allocate t fuel this n) w = (Faulted out_of_memory, w').
Proof.
  intros Hok Hn. destruct (small_sizes n Hn) as (Hal & _ & Ha & Hc & Hu).
  assert (forall h, 0 < h -> (GetData h =? 0) = false) as Hnz.
  { intros h Hh. apply Z.eqb_neq. unfold GetData, sizeof_Header, kCacheLineSize. lia. }
  assert (forall h, ExtractHeader (GetData h) = h) as Hext by (intros h; unfold ExtractHeader, GetData; lia).
  assert (forall (r : prog AllocWorld Z) h w w', 0 < h -> run r w = (Done (GetData h), w') ->
    and_then (run (let! pBytes := r in check (negb (pBytes =? 0)) "DCHECK(pBytes)" ;;; Ret pBytes) w)
      (fun a s' => run (check (negb (a =? 0)) "DCHECK( *mem)" ;;; Ret a) s') = (Done (GetData h), w')) as Hgive.
  { intros r h w0 w' Hh E. rewrite run_bind, E. cbn. rewrite (Hnz h Hh). cbn. by rewrite (Hnz h Hh). }
  unfold TlsAllocator_Allocate, TlsAllocate, allocates. rewrite Hu, !run_bind. unfold find_blocks. rewrite run_rd. cbn [and_then].
  rewrite (ho_list _ _ _ _ Hok). rewrite run_bind.
  destruct (freed H !! (t, class_size n)) as [[|h q]|] eqn:Eq; cbn [fmap option_fmap option_map].
  2:{ left. rewrite (run_Get t _ h q w H Hok Eq). cbn [and_then]. pose proof (ho_freed _ _ _ _ Hok _ _ h Eq ltac:(by left)) as Hch.
      destruct (ho_header _ _ _ _ Hok _ _ Hch) as (Hpos & _).
      exists (GetData h). eexists _, _. split; [apply (Hgive _ h); [done|by rewrite (Hnz h Hpos)]|]. split; [by eapply heap_ok_get|done]. }
  all: cbn [run BlockList_Get bl_of bl_head head default Z.eqb and_then]; destruct (run_slab_block t n w H Hok Hn) as [(h & w' & E & Hpos & Hnew & Hok')|(Hex & w' & E)].
  1,3: left; exists (GetData h), w'; eexists; split; [by apply (Hgive _ h)|rewrite Hext; split; [exact Hok'|done]].
  all: right; split; [done|]; exists w'; by rewrite run_bind, E.
Qed.

Lemma write_link (m : gmap Z Header) l (f : Header -> Header) : is_Some (m !! l) -> <[l := f (default (MkHeader 0 0) (m !! l))]> m = alter f l m.
Proof.
  intros [x E]. apply map_eq. intros a. destruct (decide (a = l)) as [->|].
  - by rewrite lookup_insert_eq, lookup_alter_eq, E.
  - by rewrite lookup_insert_ne, lookup_alter_ne by done.
Qed.

Lemma run_Put t s h q w H :
  heap_ok this nodes w H -> freed H !! (t, s) = Some q -> live H h s -> headers w !! h = Some (MkHeader s 0) ->
  run (BlockList_Put t s (bl_of q) h) w = (Done tt, set_blocks <[(t, s) := bl_of (q ++ [h])]> (set_headers (linked_to q h) w)).
Proof.
  clear fuel_2 node_ok. intros Hok Hq [Hc Hnf] Hhead. destruct (ho_header _ _ _ _ Hok _ _ Hc) as (Hpos & _).
  unfold BlockList_Put. rewrite bl_of_snoc. destruct q as [|x q].
  { cbn. unfold header_read, linked_to. cbn. rewrite Hhead. cbn. rewrite Hhead. cbn. rewrite Z.eqb_refl. by destruct w. }
  pose proof (ho_freed _ _ _ _ Hok _ _ x Hq ltac:(by left)) as Hcx.
  destruct (ho_header _ _ _ _ Hok _ _ Hcx) as (Hxpos & _ & _ & nx & Hx).
  assert (exists l, last (x :: q) = Some l /\ is_Some (headers w !! l) /\ l <> h) as (l & El & Hl & Hne).
  { destruct (last (x :: q)) as [l|] eqn:El; [|by apply last_None in El].
    assert (l ∈ x :: q) as Hin by (apply last_Some_elem_of; done).
    pose proof (ho_freed _ _ _ _ Hok _ _ l Hq Hin) as Hcl. destruct (ho_header _ _ _ _ Hok _ _ Hcl) as (_ & _ & _ & nl & Hnl).
    exists l. split; [done|]. split; [by eexists|]. intros ->. apply Hnf. by exists (t, s), (x :: q). }
  unfold bl_of. rewrite El. 
  assert (linked_to (x :: q) h (headers w) = <[l := set_h_next h (default (MkHeader 0 0) (headers w !! l))]> (headers w)) as Elink.
  { unfold linked_to. by rewrite El, write_link. }
  set (m1 := linked_to (x :: q) h (headers w)) in *.
  assert (m1 !! h = Some (MkHeader s 0)) as Eh by (rewrite Elink, lookup_insert_ne by done; exact Hhead).
  destruct (linked_to_size (x :: q) h _ _ _ Hx) as [nx' Ex]. fold m1 in Ex.
  unfold header_write, header_read, put_blocks, upd, rd, act. cbn. destruct (Z.eqb_spec x 0); [lia|]. cbn. rewrite <- Elink. fold m1. rewrite Eh. cbn.
  rewrite (insert_id m1 h) by done. rewrite Ex. cbn.
  unfold set_headers, set_blocks. cbn. rewrite <- !Elink, Eh. cbn. rewrite (insert_id m1 h) by done. rewrite Eh. cbn. by rewrite Z.eqb_refl.
Qed.

Lemma run_Free t s h w H :
  heap_ok this nodes w H -> live H h s -> s <> 0 ->
  exists w', run (TlsAllocator_Free t (GetData h)) w = (Done tt, w') /\ heap_ok this nodes w' (frees t h s H).
Proof.
  clear fuel_2 node_ok. intros Hok Hlive Hs. pose proof Hlive as [Hc Hnf]. destruct (ho_header _ _ _ _ Hok _ _ Hc) as (_ & _ & _ & nx & Hx).
  pose proof (heap_ok_link this nodes w H h 0 Hok Hnf ltac:(by eexists)) as Hok1.
  set (w1 := set_headers _ w) in Hok1. exists (set_blocks <[(t, s) := bl_of (default [] (freed H !! (t, s)) ++ [h])]>
    (set_headers (linked_to (default [] (freed H !! (t, s))) h) w1)).
  split; [|by apply heap_ok_put].
  assert (headers w1 !! h = Some (MkHeader s 0)) as Hh.
  { unfold w1. simpl. by rewrite lookup_insert_eq, Hx. }
  unfold TlsAllocator_Free. replace (ExtractHeader (GetData h)) with h by (unfold ExtractHeader, GetData; lia).
  assert (run (header_write h (set_h_next 0)) w = (Done tt, w1)) as E by done. rewrite run_bind, E. cbn [and_then]. clearbody w1.
  unfold header_read at 1. cbn. rewrite Hh. cbn. destruct (Z.eqb_spec s 0); [done|]. cbn.
  rewrite (ho_list _ _ _ _ Hok1). destruct (freed H !! (t, s)) as [q|] eqn:Eq; cbn.
  - by apply (run_Put t s h q w1 H).
  - unfold linked_to. simpl. do 2 f_equal.
Qed.
End operations.
