(* ===== verification/AllocClient.v ===== *)
(** * Clients of the thread-local allocator (environment_linux.h)

    From the allocator's construction on, whatever threads allocate and free. *)
From Stdlib Require Import ZArith Lia Ascii.
From stdpp Require Import base list gmap strings.
From S2P Require Import Prelude Bytes Prog Status Library Memory BzNode Allocator AllocSpec.
#[local] Open Scope Z_scope.
#[local] Open Scope prog_scope.

(** ** Live blocks *)

Section live.
Context (this : Z) (nodes : nat).

Lemma extract_get h : ExtractHeader (GetData h) = h.
Proof. unfold ExtractHeader, GetData. lia. Qed.

Lemma allocates_live t n H p H' w w' :
  heap_ok this nodes w H -> heap_ok this nodes w' H' -> allocates t n H p H' ->
  live H' (ExtractHeader p) (class_size n) /\
  forall h s, live H h s -> live H' h s /\ h <> ExtractHeader p.
Proof.
  intros Hok Hok' Ha. unfold allocates in Ha.
  assert (forall H0 : Heap, carved H !! ExtractHeader p = None /\
    H' = MkHeap (<[ExtractHeader p := class_size n]> (carved H)) (freed H) ->
    live H' (ExtractHeader p) (class_size n) /\ forall h s, live H h s -> live H' h s /\ h <> ExtractHeader p) as Hnew.
  { intros _ [Hn ->]. split.
    - split; [apply lookup_insert_eq|]. intros (k & q & Hk & Hin). simpl in Hk.
      rewrite (ho_freed _ _ _ _ Hok k q _ Hk Hin) in Hn. done.
    - intros h s [Hc Hf]. assert (h <> ExtractHeader p) by (intros ->; congruence).
      split; [|done]. split; [simpl; by rewrite lookup_insert_ne|done]. }
  destruct (freed H !! (t, class_size n)) as [[|h q]|] eqn:Eq; [by apply Hnew|clear Hnew|by apply Hnew].
  destruct Ha as [-> ->]. rewrite extract_get.
  assert (forall x, is_free (MkHeap (carved H) (<[(t, class_size n) := q]> (freed H))) x -> is_free H x) as Hsub.
  { intros x (k & q' & Hk & Hin). simpl in Hk. destruct (decide (k = (t, class_size n))) as [->|Hne].
    - rewrite lookup_insert_eq in Hk. simplify_eq. exists (t, class_size n), (h :: q'). split; [done|by right].
    - rewrite lookup_insert_ne in Hk by done. by exists k, q'. }
  split.
  - split; [apply (ho_freed _ _ _ _ Hok _ _ h Eq); by left|]. intros (k & q' & Hk & Hin). simpl in Hk.
    apply list_elem_of_lookup in Hin as [i Hi]. destruct (decide (k = (t, class_size n))) as [->|Hne].
    + rewrite lookup_insert_eq in Hk. simplify_eq.
      destruct (ho_once _ _ _ _ Hok _ _ 0%nat _ _ (S i) h Eq Eq) as [_ ?]; [done..|lia].
    + rewrite lookup_insert_ne in Hk by done. destruct (ho_once _ _ _ _ Hok _ _ 0%nat _ _ i h Eq Hk) as [<- _]; done.
  - intros x s [Hc Hf]. split; [split; [done|by intros ?%Hsub]|]. intros ->. apply Hf. exists (t, class_size n), (h :: q).
    split; [done|by left].
Qed.

Lemma frees_live t h s H x u : live H x u -> x <> h -> live (frees t h s H) x u.
Proof.
  intros [Hc Hf] Hne. split; [done|]. intros (k & q & Hk & Hin). unfold frees in Hk; simpl in Hk. apply Hf.
  destruct (decide (k = (t, s))) as [->|Hk'].
  - rewrite lookup_insert_eq in Hk. simplify_eq. apply elem_of_app in Hin as [Hin|Hin%list_elem_of_singleton]; [|by subst].
    destruct (freed H !! (t, s)) as [q|] eqn:Eq; [|by apply elem_of_nil in Hin]. by exists (t, s), q.
  - rewrite lookup_insert_ne in Hk by done. by exists k, q.
Qed.

(** Two live blocks are apart, headers included. *)
Lemma live_apart w H h1 s1 h2 s2 :
  heap_ok this nodes w H -> live H h1 s1 -> live H h2 s2 -> h1 <> h2 ->
  apart (GetData h1, GetData h1 + s1) (GetData h2, GetData h2 + s2).
Proof.
  intros Hok [H1 _] [H2 _] Hne.
  assert (extent this w (carved H) (Block h1) = Some (h1, h1 + sizeof_Header + s1)) as E1 by (simpl; by rewrite H1).
  assert (extent this w (carved H) (Block h2) = Some (h2, h2 + sizeof_Header + s2)) as E2 by (simpl; by rewrite H2).
  assert (Block h1 <> Block h2) as Hbne by congruence. pose proof (ho_apart _ _ _ _ Hok _ _ _ _ Hbne E1 E2) as Ha.
  destruct (ho_header _ _ _ _ Hok _ _ H1) as (_ & _ & ? & _), (ho_header _ _ _ _ Hok _ _ H2) as (_ & _ & ? & _).
  unfold apart, GetData, sizeof_Header, kCacheLineSize in *. simpl in *. lia.
Qed.
End live.

(** ** Scripts *)

(** What clients do: a thread asks for [n] bytes, or frees the [i]th block they hold. *)
Inductive request := Alloc (n : Z) | FreeNth (i : nat).

Section scripts.
Context {HO : Os} (this : Z) (fuel : nat).

(** [held]: the pointers the clients hold, with the sizes they asked for. *)
Fixpoint run_script (ops : list (Z * request)) (held : list (Z * Z)) : prog AllocWorld (list (Z * Z)) :=
  match ops with
  | [] => Ret held
  | (t, Alloc n) :: r =>
      let! p := TlsAllocator_AllocateAligned t fuel this n kCacheLineSize in run_script r (held ++ [(p, n)])
  | (t, FreeNth i) :: r =>
      match held !! i with
      | Some (p, _) => TlsAllocator_FreeAligned t p ;;; run_script r (delete i held)
      | None => run_script r held
      end
  end.
Definition request_ok (o : Z * request) : Prop :=
  match o.2 with Alloc n => 0 < n /\ small n | FreeNth _ => True end.

(** What the specification makes of a script. *)
Inductive behaves : Heap -> list (Z * Z) -> list (Z * request) -> Heap -> list (Z * Z) -> Prop :=
| behaves_nil H held : behaves H held [] H held
| behaves_alloc t n p H H1 held ops H2 held2 :
    allocates t n H p H1 -> behaves H1 (held ++ [(p, n)]) ops H2 held2 ->
    behaves H held ((t, Alloc n) :: ops) H2 held2
| behaves_free t i p n s H held ops H2 held2 :
    held !! i = Some (p, n) -> live H (ExtractHeader p) s ->
    behaves (frees t (ExtractHeader p) s H) (delete i held) ops H2 held2 ->
    behaves H held ((t, FreeNth i) :: ops) H2 held2
| behaves_none t i H held ops H2 held2 :
    held !! i = None -> behaves H held ops H2 held2 -> behaves H held ((t, FreeNth i) :: ops) H2 held2.

(** The pointers held are those of different live blocks, large enough. *)
Definition holds (H : Heap) (held : list (Z * Z)) : Prop :=
  NoDup held.*1 /\ forall p n, (p, n) ∈ held -> exists s, live H (ExtractHeader p) s /\ 0 < n <= s.
End scripts.

Section run.
Context {HO : Os} (this : Z) (nodes : nat) (fuel : nat) (fuel_2 : (2 <= fuel)%nat).
Context (node_ok : forall t w, (Z.to_nat (numa_node t w) < nodes)%nat).

Lemma run_Aligned t n w : run (TlsAllocator_AllocateAligned t fuel this n kCacheLineSize) w = run (TlsAllocator_Allocate t fuel this n) w.
Proof. done. Qed.

Lemma holds_alloc t n H p H' w w' held :
  heap_ok this nodes w H -> heap_ok this nodes w' H' -> allocates t n H p H' -> 0 < n -> small n ->
  holds H held -> holds H' (held ++ [(p, n)]).
Proof.
  intros Hok Hok' Ha Hn Hsm [Hnd Hh]. destruct (allocates_live this nodes t n H p H' w w' Hok Hok' Ha) as [Hp Hl].
  destruct (small_sizes n Hsm) as (_ & Hc & _). split.
  - rewrite fmap_app. apply NoDup_app. split; [done|]. split; [|apply NoDup_singleton].
    intros x ([q m] & -> & Hin)%list_elem_of_fmap Hx. apply list_elem_of_singleton in Hx. simpl in Hx. subst q.
    destruct (Hh p m Hin) as (s & Hs & _). by destruct (Hl _ _ Hs).
  - intros q m [Hin|Hin%list_elem_of_singleton]%elem_of_app.
    + destruct (Hh q m Hin) as (s & Hs & Hm). exists s. split; [by apply Hl|done].
    + simplify_eq. exists (class_size n). split; [done|lia].
Qed.

Lemma holds_free H held i p n t s :
  holds H held -> held !! i = Some (p, n) -> live H (ExtractHeader p) s -> holds (frees t (ExtractHeader p) s H) (delete i held).
Proof.
  intros [Hnd Hh] Hi Hs. pose proof (list_lookup_fmap fst held i) as Hpi. rewrite Hi in Hpi. simpl in Hpi. split.
  - rewrite list_fmap_delete. eapply sublist_NoDup; [exact Hnd|apply sublist_delete].
  - intros q m Hin. assert ((q, m) ∈ held) as Hin' by (by eapply list_elem_of_delete_inv).
    destruct (Hh q m Hin') as (u & Hu & Hm). exists u. split; [|done]. apply frees_live; [done|].
    intros E. assert (q = p) as -> by (unfold ExtractHeader in E; lia).
    apply list_elem_of_lookup in Hin as [j Hj]. destruct (decide (j < i)%nat).
    + rewrite list_lookup_delete_lt in Hj by done. pose proof (list_lookup_fmap fst held j) as Hpj. rewrite Hj in Hpj. simpl in Hpj.
      pose proof (NoDup_lookup _ _ _ _ Hnd Hpi Hpj). lia.
    + rewrite list_lookup_delete_ge in Hj by lia. pose proof (list_lookup_fmap fst held (S j)) as Hpj. rewrite Hj in Hpj. simpl in Hpj.
      pose proof (NoDup_lookup _ _ _ _ Hnd Hpi Hpj). lia.
Qed.

Lemma run_scripts ops : forall H held w,
  heap_ok this nodes w H -> holds H held -> Forall request_ok ops ->
  (exists H' held' w', run (run_script this fuel ops held) w = (Done held', w') /\
     heap_ok this nodes w' H' /\ holds H' held' /\ behaves H held ops H' held') \/
  exists w', run (run_script this fuel ops held) w = (Faulted out_of_memory, w').
Proof.
  induction ops as [|[t r] ops IH]; intros H held w Hok Hh Hops.
  { left. exists H, held, w. split; [done|]. split; [done|]. split; [done|constructor]. }
  apply Forall_cons in Hops as [Hr Hops]. destruct r as [n|i]; cbn [run_script].
  - destruct Hr as [Hn Hsm]. rewrite run_bind, run_Aligned.
    destruct (run_TlsAllocate this nodes node_ok fuel fuel_2 t n w H Hok Hsm) as [(p & w1 & H1 & E & Hok1 & Ha)|(_ & w1 & E)];
      rewrite E; cbn [and_then]; [|right; by exists w1].
    destruct (IH H1 (held ++ [(p, n)]) w1 Hok1) as [(H2 & held2 & w2 & E2 & Hok2 & Hh2 & Hb)|(w2 & E2)]; [by apply (holds_alloc t n H p H1 w w1)|done| |].
    + left. exists H2, held2, w2. split; [done|]. split; [done|]. split; [done|]. by eapply behaves_alloc.
    + right. by exists w2.
  - destruct (held !! i) as [[p n]|] eqn:Ei.
    + destruct (proj2 Hh p n) as (s & Hs & Hn); [apply list_elem_of_lookup; by exists i|].
      destruct (run_Free this nodes t s (ExtractHeader p) w H Hok Hs ltac:(lia)) as (w1 & E & Hok1).
      assert (GetData (ExtractHeader p) = p) as Ep by (unfold GetData, ExtractHeader; lia). rewrite Ep in E.
      rewrite run_bind. unfold TlsAllocator_FreeAligned. rewrite E. cbn [and_then].
      destruct (IH _ (delete i held) w1 Hok1) as [(H2 & held2 & w2 & E2 & Hok2 & Hh2 & Hb)|(w2 & E2)]; [by eapply holds_free|done| |].
      * left. exists H2, held2, w2. split; [done|]. split; [done|]. split; [done|]. by eapply behaves_free.
      * right. by exists w2.
    + destruct (IH H held w Hok Hh Hops) as [(H2 & held2 & w2 & E2 & Hok2 & Hh2 & Hb)|(w2 & E2)].
      * left. exists H2, held2, w2. split; [done|]. split; [done|]. split; [done|]. by apply behaves_none.
      * right. by exists w2.
Qed.
End run.

(** ** Construction *)

(** A successful mmap returns a page-aligned region apart from those mapped. *)
Class OsLaws `{Os} : Prop := {
  mmap_law n w : exists m, mmap n w = (m, set_mapped (cons (m, m + n)) w) /\ 0 < m /\ line_aligned m /\
    forall r, r ∈ mapped w -> apart (m, m + n) r;
  numa_node_law t w : (Z.to_nat (numa_node t w) <= numa_max_node)%nat
}.

Section new.
Context `{OsLaws} (this : Z).

Definition region (m : Z) : Z * Z := (m, m + kNumaMemorySize).

Lemma run_maps ks : forall (l : list Z) w,
  exists ms rs, run (for_list ks (fun (_ : nat) l => let! m := act (mmap kNumaMemorySize) in Ret (l ++ [m])) l) w =
      (Done (l ++ ms), set_mapped (fun _ => rs) w) /\ length ms = length ks /\
    (forall r, r ∈ mapped w -> r ∈ rs) /\
    (forall m, m ∈ ms -> 0 < m /\ line_aligned m /\ forall r, r ∈ mapped w -> apart (region m) r) /\
    (forall i j mi mj, i <> j -> ms !! i = Some mi -> ms !! j = Some mj -> apart (region mi) (region mj)).
Proof.
  induction ks as [|k ks IH]; intros l w.
  { exists [], (mapped w). rewrite app_nil_r. split_and!; [by destruct w|done|done|by intros m ?%elem_of_nil|].
    intros i j mi mj _ Hi. done. }
  destruct (mmap_law kNumaMemorySize w) as (m & E & Hm & Hal & Hap).
  destruct (IH (l ++ [m]) (set_mapped (cons (m, m + kNumaMemorySize)) w)) as (ms & rs & Er & Hlen & Hsub & Hms & Hpair).
  exists (m :: ms), rs. cbn [for_list]. rewrite run_bind. unfold act at 1. cbn [run bind]. rewrite E. cbn [run bind and_then].
  rewrite Er, <- app_assoc. split; [done|]. split; [simpl; by f_equal|]. split; [|split].
  - intros r Hr. apply Hsub. simpl. by right.
  - intros x [->|Hx]%elem_of_cons; [done|]. destruct (Hms x Hx) as (? & ? & Hx'). split_and!; [done..|].
    intros r Hr. apply Hx'. simpl. by right.
  - assert (forall j mj, ms !! j = Some mj -> apart (region mj) (region m)) as Hfirst.
    { intros j mj Hj. apply (Hms mj); [apply list_elem_of_lookup; by exists j|]. simpl. by left. }
    intros [|i] [|j] mi mj Hne Hi Hj; simpl in *; simplify_eq; [| |eapply Hpair; [|done..]; lia].
    + pose proof (Hfirst j mj Hj) as Ha. unfold apart in *. lia.
    + by eapply Hfirst.
Qed.

(** A process in which no thread has used an allocator yet. *)
Definition fresh_process (w : AllocWorld) : Prop := tls_blocks w = ∅ /\ tls_slab w = ∅.
Definition empty_heap : Heap := MkHeap ∅ ∅.

Lemma run_new w :
  fresh_process w ->
  exists w', run (TlsAllocator_new this) w = (Done tt, w') /\ heap_ok this (S numa_max_node) w' empty_heap.
Proof.
  intros [Hb Hs]. unfold TlsAllocator_new.
  destruct (run_maps (seq 0 (S numa_max_node)) [] w) as (ms & rs & E & Hlen & _ & Hms & Hpair). rewrite length_seq in Hlen.
  rewrite run_bind, E. cbn [and_then app]. rewrite run_upd. eexists. split; [done|].
  set (w' := set_allocators _ _).
  assert (forall i, numa_entry this (Z.of_nat i) w' = (fun m => (m, 0)) <$> ms !! i) as He.
  { intros i. unfold numa_entry, w', set_allocators. simpl. rewrite lookup_insert_eq, Nat2Z.id. simpl.
    destruct (ms !! i) as [m|] eqn:Ei; [|done]. simpl. apply lookup_lt_Some in Ei.
    change (0 :: replicate numa_max_node 0) with (replicate (S numa_max_node) 0).
    by rewrite lookup_replicate_2 by lia. }
  split; unfold empty_heap; cbn [carved freed].
  - intros h s. by rewrite lookup_empty.
  - intros k. simpl. by rewrite Hb, !lookup_empty.
  - intros k q i x y. by rewrite lookup_empty.
  - intros k q x. by rewrite lookup_empty.
  - intros k1 q1 i k2 q2 j x. by rewrite lookup_empty.
  - assert (forall o e, extent this w' ∅ o = Some e -> exists i m, o = Fresh i /\ ms !! i = Some m /\ e = region m) as Hext.
    { intros [h|t|i] e; cbn [extent]; [by rewrite lookup_empty|simpl; by rewrite Hs, lookup_empty|].
      rewrite He. destruct (ms !! i) as [m|] eqn:Ei; [|done]. simpl. intros [= <-]. exists i, m. split; [done|]. split; [done|].
      unfold region. f_equal. lia. }
    intros o1 o2 e1 e2 Hne E1 E2. destruct (Hext _ _ E1) as (i & mi & -> & Hi & ->), (Hext _ _ E2) as (j & mj & -> & Hj & ->).
    eapply Hpair; [|done..]. congruence.
  - intros t s. simpl. by rewrite Hs, lookup_empty.
  - intros i Hi. rewrite He. destruct (lookup_lt_is_Some_2 ms i) as [m ->]; [lia|by eexists].
  - intros i m v. rewrite He. destruct (ms !! i) as [m'|] eqn:Ei; [|done]. simpl. intros [= <- <-].
    destruct (Hms m') as (? & ? & _); [apply list_elem_of_lookup; by exists i|]. by split_and!.
Qed.
End new.

(** ** The contract *)

(** C21.  From construction on, whatever any threads allocate and free, in any order, blocks
    of one thread freed by another included, with every request for at least one byte
    and at most what a slab holds beside its header (512 MB less 64 bytes): either the
    memory of a node runs out and the assertion in the slab stops the program, or every
    request is served as the specification says, from the oldest free block of its size
    that its thread has freed, or else by carving a new one, the invariant holds, and
    the blocks held are aligned to cache lines and do not overlap. *)
Theorem TlsAllocator_correct `{OsLaws} this fuel ops w :
  (2 <= fuel)%nat -> fresh_process w -> Forall request_ok ops ->
  (exists H held w', run (TlsAllocator_new this ;;; run_script this fuel ops []) w = (Done held, w') /\
     behaves empty_heap [] ops H held /\ heap_ok this (S numa_max_node) w' H /\
     (forall p n, (p, n) ∈ held -> 0 < p /\ line_aligned p) /\
     forall i j p n q m, i <> j -> held !! i = Some (p, n) -> held !! j = Some (q, m) -> apart (p, p + n) (q, q + m)) \/
  exists w', run (TlsAllocator_new this ;;; run_script this fuel ops []) w = (Faulted out_of_memory, w').
Proof.
  intros Hf Hfresh Hops. destruct (run_new this w Hfresh) as (w1 & E & Hok). rewrite run_bind, E. cbn [and_then].
  assert (forall t w, (Z.to_nat (numa_node t w) < S numa_max_node)%nat) as Hnode
    by (intros t w0; pose proof (numa_node_law t w0); lia).
  assert (holds empty_heap []) as Hnone by (split; [constructor|by intros p n ?%elem_of_nil]).
  destruct (run_scripts this (S numa_max_node) fuel Hf Hnode ops empty_heap [] w1 Hok Hnone Hops)
    as [(H2 & held & w2 & E2 & Hok2 & [Hnd Hh] & Hb)|(w2 & E2)]; [left; exists H2, held, w2|right; by exists w2].
  do 3 (split; [done|]). split.
  - intros p n Hin. destruct (Hh p n Hin) as (s & [Hc _] & _).
    destruct (ho_header _ _ _ _ Hok2 _ _ Hc) as (Hpos & Hal & _). apply Z.mod_divide in Hal as [x Hx]; [|done].
    unfold line_aligned, ExtractHeader, sizeof_Header, kCacheLineSize in *. split; [lia|].
    apply Z.mod_divide; [done|]. exists (x + 1). lia.
  - intros i j p n q m Hne Hi Hj.
    destruct (Hh p n) as (s & Hs & Hn); [apply list_elem_of_lookup; by exists i|].
    destruct (Hh q m) as (u & Hu & Hm); [apply list_elem_of_lookup; by exists j|].
    assert (p <> q) as Hpq.
    { intros <-. apply Hne. eapply NoDup_lookup; [exact Hnd| |]; rewrite list_lookup_fmap, ?Hi, ?Hj; done. }
    pose proof (live_apart this _ w2 H2 _ _ _ _ Hok2 Hs Hu) as Ha. unfold apart, GetData, ExtractHeader in *. simpl in *. lia.
Qed.

(** *** A machine with two nodes *)

(** mmap gives the first page boundary above everything mapped; threads run on the node of
    their number's parity. *)
Definition top_mapped (l : list (Z * Z)) : Z := foldr (fun r x => Z.max r.2 x) 4096 l.
Definition page_up (z : Z) : Z := (z + 4095) / 4096 * 4096.
Definition two_nodes : Os := {|
  numa_max_node := 1;
  numa_node := fun t _ => t mod 2;
  mmap := fun n w => let m := page_up (top_mapped (mapped w)) in (m, set_mapped (cons (m, m + n)) w);
  numa_free := fun m n w => set_mapped (filter (fun r => r <> (m, m + n))) w;
  posix_memalign := fun _ _ w => ((0, 64), w);
  free := fun _ w => w
|}.

Lemma top_mapped_max l r : r ∈ l -> r.2 <= top_mapped l.
Proof.
  induction l as [|x l IH]; [by intros ?%elem_of_nil|].
  intros [->|Hin]%elem_of_cons; simpl; [lia|]. specialize (IH Hin). lia.
Qed.
Lemma top_mapped_pos l : 4096 <= top_mapped l.
Proof. induction l; simpl; lia. Qed.
#[local] Instance two_nodes_laws : @OsLaws two_nodes.
Proof.
  split.
  - intros n w. simpl. exists (page_up (top_mapped (mapped w))). split; [done|].
    pose proof (top_mapped_pos (mapped w)). unfold page_up, line_aligned, kCacheLineSize.
    pose proof (Z.div_mod (top_mapped (mapped w) + 4095) 4096). pose proof (Z.mod_pos_bound (top_mapped (mapped w) + 4095) 4096).
    split; [lia|]. split.
    + apply Z.mod_divide; [done|]. exists ((top_mapped (mapped w) + 4095) / 4096 * 64). lia.
    + intros r Hr. pose proof (top_mapped_max _ _ Hr). unfold apart. simpl. right. lia.
  - intros t w. simpl. pose proof (Z.mod_pos_bound t 2). lia.
Qed.

Definition blank : AllocWorld := MkAllocWorld ∅ ∅ ∅ ∅ [].
Definition sample_script : list (Z * request) :=
  [(5, Alloc 100); (6, Alloc 64); (5, Alloc 10); (5, FreeNth 0); (6, FreeNth 0); (5, Alloc 128); (6, Alloc 65)].

Lemma TlsAllocator_correct_witness :
  exists H held w', run (@TlsAllocator_new two_nodes 64 ;;; @run_script two_nodes 64 2%nat sample_script []) blank = (Done held, w') /\
    behaves empty_heap [] sample_script H held /\ length held = 3%nat.
Proof.
  destruct (@TlsAllocator_correct two_nodes two_nodes_laws 64 2%nat sample_script blank) as [(H & held & w' & E & Hb & _)|(w' & E)].
  - lia.
  - by split.
  - repeat constructor; unfold small, kSlabSize, sizeof_Header, kCacheLineSize; lia.
  - exists H, held, w'. split; [exact E|]. split; [exact Hb|].
    assert (exists l, (run (@TlsAllocator_new two_nodes 64 ;;; @run_script two_nodes 64 2%nat sample_script []) blank).1 = Done l /\ length l = 3%nat)
      as (l & El & Hl) by (eexists; split; vm_compute; reflexivity).
    rewrite E in El. simpl in El. by simplify_eq.
  - exfalso. assert ((run (@TlsAllocator_new two_nodes 64 ;;; @run_script two_nodes 64 2%nat sample_script []) blank).1 <> Faulted out_of_memory) as Hn
      by (vm_compute; discriminate).
    by rewrite E in Hn.
Defined.

(** *** Requests at the limits *)

(** A script with requests of any size, and what it answers. *)
Definition answer (this : Z) (ops : list (Z * request)) (w : AllocWorld) : result (list (Z * Z)) * AllocWorld :=
  run (@run_script two_nodes this 20 ops []) w.
Definition started : AllocWorld := (run (@TlsAllocator_new two_nodes 64) blank).2.
Definition restarted (w : AllocWorld) : AllocWorld :=
  (run (@TlsAllocator_Destroy two_nodes 64 ;;; @TlsAllocator_new two_nodes 128) w).2.

(** Requests outside the contract, on a machine of two nodes: a block of no bytes is served
    and cannot be freed; a request for a whole slab takes every slab of the node and stops;
    one of 2^64 - 100 bytes wraps to nothing, and the next block is at the same address; after one allocator is destroyed and another made, a thread goes
    on carving the memory of the first, of which only the last node is still mapped. *)
Example TlsAllocator_limits :
  (answer 64 [(5, Alloc 0)] started).1 = Done [(4160 + kNumaMemorySize, 0)] /\
  (answer 64 [(5, Alloc 0); (5, FreeNth 0)] started).1 = Faulted "DCHECK(pHeader->size)" /\
  (answer 64 [(5, Alloc kSlabSize)] started).1 = Faulted out_of_memory /\
  numa_entry 64 1 (answer 64 [(5, Alloc kSlabSize)] started).2 = Some (4096 + kNumaMemorySize, 9 * kSlabSize) /\
  (answer 64 [(5, Alloc (2 ^ 64 - 100)); (5, Alloc 8)] started).1 =
    Done [(4160 + kNumaMemorySize, 2 ^ 64 - 100); (4160 + kNumaMemorySize, 8)] /\
  (let w := (answer 64 [(5, Alloc 64); (6, Alloc 64)] started).2 in
   (answer 128 [(6, Alloc 64)] (restarted w)).1 = Done [(4096 + 192, 64)] /\
   mapped (restarted w) = [(4096 + 3 * kNumaMemorySize, 4096 + 4 * kNumaMemorySize);
     (4096 + 2 * kNumaMemorySize, 4096 + 3 * kNumaMemorySize); (4096 + kNumaMemorySize, 4096 + 2 * kNumaMemorySize)]).
Proof. vm_compute. repeat split. Qed.
