(* ===== verification/Shared.v ===== *)
(** * Words shared by operations in flight (src/mwcas/mwcas.cc)

    What the words of memory may hold while volatile multi-word CASes run on them, what a
    word shows once the pointers in it are resolved, which writes keep this well-formed,
    and what a thread guarantees to the others and relies on. *)
From Stdlib Require Import ZArith Lia.
From stdpp Require Import base list gmap strings relations.
From S2P Require Import Prelude Bytes Prog Status Library Epoch Garbage Metrics Memory Descriptor MwCAS Target.
#[local] Open Scope Z_scope.
#[local] Open Scope prog_scope.
#[local] Open Scope machine_scope.

(** ** Operations in flight *)

(** A descriptor's partition, garbage ring and words. *)
Record Op := MkOp { o_part : Z; o_ring : Z; o_words : list wrec }.

(** The pointer a conditional CAS puts into a word. *)
Definition cond_ptr (d : Z) (i : nat) : Z := SetFlags (words_ d (Z.of_nat i)) kCondCASFlag.

Section operations.
Context (D : gmap Z Op).

Definition word_of (d : Z) (i : nat) (x : wrec) : Prop :=
  exists o, D !! d = Some o /\ o_words o !! i = Some x.

Definition target (a : Z) : Prop := a <> 0 /\ exists d i x, word_of d i x /\ wa x = a.

(** The descriptors and the words they target are apart. *)
Record placed : Prop := {
  pl_own d o : D !! d = Some o -> layout_ok d (o_part o) (o_words o);
  pl_apart d o d' o' : D !! d = Some o -> D !! d' = Some o' -> d <> d' -> d + 256 <= d' \/ d' + 256 <= d;
  pl_target a d o : target a -> D !! d = Some o -> ~ (d <= a < d + 256) /\ a <> garbage_list (o_part o);
  pl_part d o d' o' : D !! d = Some o -> D !! d' = Some o' -> ~ (d <= garbage_list (o_part o') < d + 256)
}.

(** What a word may hold: a value, or the pointer of an operation that targets it. *)
Definition valid (a v : Z) : Prop :=
  plain v \/ exists d i x, word_of d i x /\ wa x = a /\ (v = mwcas_ptr d 0 \/ v = cond_ptr d i).

Definition status_fine (s : Z) : Prop :=
  s = kStatusFinished \/ s = kStatusUndecided \/ s = kStatusSucceeded \/ s = kStatusFailed.

(** The words of memory between any two accesses. *)
Definition cells_ok (c : gmap Z Z) : Prop :=
  (forall d o, D !! d = Some o -> frame d (o_part o) (o_ring o) (o_words o) c) /\
  (forall d o, D !! d = Some o -> exists s, c !! status_ d = Some s /\ status_fine s) /\
  (forall a, target a -> exists v, c !! a = Some v /\ valid a v).

(** What a word shows: through a conditional CAS its old value; through an operation its
    new value if that has succeeded, else the old one. *)
Definition shown (c : gmap Z Z) (a : Z) : Z :=
  let v := default 0 (c !! a) in
  if IsCondCASDescriptorPtr v then default 0 (c !! old_value_ (CleanPtr v))
  else if IsMwCASDescriptorPtr v then
    match D !! CleanPtr v with
    | Some o =>
        match list_find (fun x => wa x = a) (o_words o) with
        | Some (_, x) => if default 0 (c !! status_ (CleanPtr v)) =? kStatusSucceeded then wn x else wo x
        | None => 0
        end
    | None => 0
    end
  else v.

(** A successful operation asked for the change of [a] from [u] to [u']. *)
Definition committed (c : gmap Z Z) (a u u' : Z) : Prop :=
  exists d i x, word_of d i x /\ wa x = a /\ wo x = u /\ wn x = u' /\ c !! status_ d = Some kStatusSucceeded.

Definition justified (c c' : gmap Z Z) : Prop :=
  forall a, target a -> shown c' a = shown c a \/ committed c' a (shown c a) (shown c' a).

(** What a word shows is what it held, changed by successful operations one after another. *)
Definition explained (init : Z -> Z) (c : gmap Z Z) : Prop :=
  forall a, target a -> rtc (committed c a) (init a) (shown c a).

(** An operation is started once and decided once. *)
Definition later (s s' : Z) : Prop :=
  s = s' \/ s = kStatusFinished \/ (s = kStatusUndecided /\ s' <> kStatusFinished).
Definition statuses_later (c c' : gmap Z Z) : Prop :=
  forall d o s, D !! d = Some o -> c !! status_ d = Some s -> exists s', c' !! status_ d = Some s' /\ later s s'.
Definition none_started (c c' : gmap Z Z) : Prop :=
  forall d o, D !! d = Some o -> c !! status_ d = Some kStatusFinished -> c' !! status_ d = Some kStatusFinished.

Context (Hpl : placed).

Lemma word_plain d i x : word_of d i x -> plain d /\ plain (words_ d (Z.of_nat i)) /\ (i < 4)%nat.
Proof.
  intros (o & Ho & Hi). destruct (pl_own Hpl _ _ Ho) as [Hd Hn _ _ _ _].
  apply lookup_lt_Some in Hi. unfold plain, fits, words_, sizeof_WordDescriptor. lia.
Qed.

Lemma word_values d i x : word_of d i x -> plain (wo x) /\ plain (wn x).
Proof.
  intros (o & Ho & Hi). apply (lay_plain _ _ _ (pl_own Hpl _ _ Ho)). by eapply list_elem_of_lookup_2.
Qed.

Lemma word_unique d i j x y : word_of d i x -> word_of d j y -> wa x = wa y -> wa x <> 0 -> i = j /\ x = y.
Proof.
  intros (o & Ho & Hi) (o' & Ho' & Hj) E H0. rewrite Ho in Ho'. injection Ho' as <-.
  pose proof (lay_nodup _ _ _ (pl_own Hpl _ _ Ho)) as Hnd.
  destruct (decide (i = j)) as [<-|Hne]; [by rewrite Hi in Hj; injection Hj as ->|].
  exfalso. revert i j Hi Hj Hne. clear Ho. induction (o_words o) as [|z l IH]; [done|].
  intros [|i] [|j] Hi Hj Hne; simpl in *; [done| | |].
  - injection Hi as ->. apply (targets_nodup_cons x l Hnd H0 y); [by eapply list_elem_of_lookup_2|done].
  - injection Hj as ->. apply (targets_nodup_cons y l Hnd ltac:(by rewrite <- E) x); [by eapply list_elem_of_lookup_2|done].
  - eapply (IH ltac:(by eapply targets_nodup_tail) i j); [done..|]. by intros ->.
Qed.

(** ** Recognising the pointers *)

Lemma cond_ptr_bit d i k : plain (words_ d (Z.of_nat i)) -> 61 <= k -> Z.testbit (cond_ptr d i) k = (62 =? k).
Proof.
  intros Hp Hk. unfold cond_ptr, SetFlags. rewrite (set_testbit _ Hp) by done.
  unfold kCondCASFlag. by rewrite Z.pow2_bits_eqb.
Qed.

Lemma cond_ptr_flags d i : plain (words_ d (Z.of_nat i)) ->
  IsCondCASDescriptorPtr (cond_ptr d i) = true /\ IsMwCASDescriptorPtr (cond_ptr d i) = false /\
  CleanPtr (cond_ptr d i) = words_ d (Z.of_nat i).
Proof.
  intros Hp. unfold IsCondCASDescriptorPtr, IsMwCASDescriptorPtr, kCondCASFlag, kMwCASFlag.
  rewrite !has_pow2, !cond_ptr_bit by (done || lia). split; [done|]. split; [done|].
  apply CleanPtr_set; [done|]. intros k Hk. unfold kCondCASFlag. rewrite Z.pow2_bits_eqb by lia. lia.
Qed.

Lemma mwcas_ptr_flags d : plain d ->
  IsCondCASDescriptorPtr (mwcas_ptr d 0) = false /\ IsMwCASDescriptorPtr (mwcas_ptr d 0) = true /\
  CleanPtr (mwcas_ptr d 0) = d.
Proof.
  intros Hp. unfold IsCondCASDescriptorPtr, IsMwCASDescriptorPtr.
  change kCondCASFlag with (2 ^ 62). change kMwCASFlag with (2 ^ 63).
  rewrite !has_pow2, !mwcas_ptr_bit, Z.bits_0 by (done || lia). repeat split.
  by apply CleanPtr_mwcas; [|left].
Qed.

Lemma plain_flags v : plain v -> IsCondCASDescriptorPtr v = false /\ IsMwCASDescriptorPtr v = false.
Proof. intros Hp. split; by apply plain_not_flag. Qed.

(** ** What a word shows *)

Lemma shown_plain c a v : c !! a = Some v -> plain v -> shown c a = v.
Proof. intros H Hp. unfold shown. rewrite H. simpl. destruct (plain_flags v Hp) as [-> ->]. done. Qed.

Lemma word_frame c d i x : cells_ok c -> word_of d i x -> word_at d c i x.
Proof. intros [Hf _] (o & Ho & Hi). destruct (Hf d o Ho) as [Hw _]. by apply Hw. Qed.

Lemma shown_cond c a d i x :
  word_at d c i x -> word_of d i x -> c !! a = Some (cond_ptr d i) -> shown c a = wo x.
Proof.
  intros (_ & Ho & _) Hx H. destruct (word_plain d i x Hx) as (_ & Hp & _).
  destruct (cond_ptr_flags d i Hp) as (E1 & _ & E3). unfold shown. rewrite H. simpl. by rewrite E1, E3, Ho.
Qed.

Lemma shown_mwcas c a d i x s :
  target a -> word_of d i x -> wa x = a -> c !! a = Some (mwcas_ptr d 0) -> c !! status_ d = Some s ->
  shown c a = if s =? kStatusSucceeded then wn x else wo x.
Proof.
  intros [H0 _] Hx Ha H Hs. destruct (word_plain d i x Hx) as (Hp & _).
  destruct (mwcas_ptr_flags d Hp) as (E1 & E2 & E3). unfold shown. rewrite H. simpl. rewrite E1, E2, E3.
  destruct Hx as (o & Ho & Hi). rewrite Ho, Hs. simpl.
  destruct (list_find (fun y => wa y = a) (o_words o)) as [[j y]|] eqn:Ef.
  - apply list_find_Some in Ef as (Hj & Hy & _).
    destruct (word_unique d i j x y) as [_ <-]; [by exists o..|congruence|congruence|done].
  - apply list_find_None in Ef. rewrite Forall_forall in Ef.
    destruct (Ef x); [by eapply list_elem_of_lookup_2|done].
Qed.

(** ** Writes that the invariant allows *)

(** Neither the status of a descriptor nor a target is any other word the code relies on. *)
Definition writable (a : Z) : Prop := target a \/ exists d o, D !! d = Some o /\ a = status_ d.

Lemma frame_kept c a v d o :
  writable a -> D !! d = Some o -> frame d (o_part o) (o_ring o) (o_words o) c ->
  frame d (o_part o) (o_ring o) (o_words o) (<[a := v]> c).
Proof.
  intros Ha Ho (Hw & Hc & Hp & Hg). pose proof (lay_d _ _ _ (pl_own Hpl _ _ Ho)) as Hd.
  assert (forall b, (d <= b < d + 256 /\ b <> status_ d) \/ b = garbage_list (o_part o) -> (<[a := v]> c) !! b = c !! b) as Hne.
  { intros b Hb. apply lookup_insert_ne. intros <-. destruct Ha as [Ht|(d' & o' & Ho' & ->)].
    - destruct (pl_target Hpl a d o Ht Ho). tauto.
    - destruct (decide (d = d')) as [<-|Hdd].
      + destruct Hb as [[_ []]|Hb]; [done|]. apply (pl_part Hpl d o d o Ho Ho). rewrite <- Hb. unfold status_. lia.
      + destruct Hb as [[Hb _]|Hb]; [destruct (pl_apart Hpl d o d' o' Ho Ho' Hdd); unfold status_ in *; lia|].
        apply (pl_part Hpl d' o' d o Ho' Ho). rewrite <- Hb. unfold status_. lia. }
  unfold frame, word_at, count_, owner_partition_ in *. split_and!.
  - intros i x Hi. destruct (word_plain d i x) as (_ & _ & H4); [by exists o|].
    unfold words_, address_, old_value_, new_value_, status_address_, recycle_policy_, sizeof_WordDescriptor in *.
    destruct (Hw i x Hi) as (H1 & H2 & H3 & H5 & H6).
    rewrite !Hne by (left; unfold status_; lia). done.
  - rewrite Hne by (left; unfold status_; lia). done.
  - rewrite Hne by (left; unfold status_; lia). done.
  - rewrite Hne by (by right). done.
Qed.

Lemma status_apart a d o : target a -> D !! d = Some o -> a <> status_ d.
Proof. intros Ht Ho ->. destruct (pl_target Hpl _ d o Ht Ho) as [H _]. apply H. unfold status_. lia. Qed.

Lemma status_inj d o d' o' : D !! d = Some o -> D !! d' = Some o' -> status_ d = status_ d' -> d = d'.
Proof. unfold status_. lia. Qed.

(** What another word shows does not change when a target is written. *)
Lemma shown_other c a b v :
  cells_ok c -> target a -> target b -> a <> b -> shown (<[a := v]> c) b = shown c b.
Proof.
  intros Hc Ha Hb Hne. destruct Hc as (Hf & Hs & Hv). destruct (Hv b Hb) as (u & Hu & Hval).
  assert ((<[a := v]> c) !! b = Some u) as Hu' by (by rewrite lookup_insert_ne).
  destruct Hval as [Hp|(d & i & x & Hx & Hxb & Hptr)]; [by rewrite !(shown_plain _ _ u)|].
  pose proof Hx as (o & Ho & Hi). destruct (word_plain d i x Hx) as (Hd & Hp & _).
  destruct Hptr as [-> | ->].
  - destruct (Hs d o Ho) as (s & Hst & _).
    rewrite !(shown_mwcas _ b d i x s); try done.
    rewrite lookup_insert_ne; [done|]. by eapply status_apart.
  - unfold shown. rewrite Hu, Hu'. simpl. destruct (cond_ptr_flags d i Hp) as (-> & _ & ->).
    rewrite lookup_insert_ne; [done|]. intros ->.
    destruct (pl_target Hpl _ d o Ha Ho) as [H _]. apply H.
    destruct (word_plain d i x Hx) as (_ & _ & H4). unfold old_value_, words_, sizeof_WordDescriptor. lia.
Qed.

(** One access: the invariant is kept, statuses move forward, what words show changes only
    as a successful operation asks, and no operation is started. *)
Definition cstep (c c' : gmap Z Z) : Prop :=
  cells_ok c' /\ statuses_later c c' /\ justified c c' /\ none_started c c'.

Lemma later_refl s : later s s. Proof. by left. Qed.
Lemma later_trans s1 s2 s3 : later s1 s2 -> later s2 s3 -> later s1 s3.
Proof. unfold later. intuition congruence. Qed.

Lemma committed_later c c' a u u' : statuses_later c c' -> committed c a u u' -> committed c' a u u'.
Proof.
  intros Hl (d & i & x & Hx & Ha & Hu & Hu' & Hs). exists d, i, x. split_and!; [done..|].
  destruct Hx as (o & Ho & _). destruct (Hl d o _ Ho Hs) as (s' & Hs' & L). rewrite Hs'.
  destruct L as [<-|[L|[L _]]]; done.
Qed.

Lemma history_later c c' a u v : statuses_later c c' -> rtc (committed c a) u v -> rtc (committed c' a) u v.
Proof. intros Hl. induction 1 as [|x y z H _ IH]; [done|]. eapply rtc_l; [by eapply committed_later|done]. Qed.

Lemma explained_later init c c' : explained init c -> statuses_later c c' -> justified c c' -> explained init c'.
Proof.
  intros He Hl Hj a Ha. pose proof (history_later c c' a _ _ Hl (He a Ha)) as H.
  destruct (Hj a Ha) as [->|Hc]; [done|]. by eapply rtc_r.
Qed.

Lemma statuses_same c c' :
  (forall d o, D !! d = Some o -> c' !! status_ d = c !! status_ d) -> statuses_later c c' /\ none_started c c'.
Proof.
  intros H. split.
  - intros d o s Ho Hs. exists s. rewrite (H d o Ho). split; [done|apply later_refl].
  - intros d o Ho. by rewrite (H d o Ho).
Qed.

Lemma cstep_refl c : cells_ok c -> cstep c c.
Proof.
  intros Hc. destruct (statuses_same c c) as [H1 H2]; [done|]. split_and!; [done..| |done].
  intros a _. by left.
Qed.

Lemma target_write c a v :
  cells_ok c -> target a -> valid a v ->
  (let c' := <[a := v]> c in shown c' a = shown c a \/ committed c' a (shown c a) (shown c' a)) ->
  cstep c (<[a := v]> c).
Proof.
  intros Hc Ha Hval Hsh. pose proof Hc as (Hf & Hs & Hv).
  assert (forall d o, D !! d = Some o -> (<[a := v]> c) !! status_ d = c !! status_ d) as Est.
  { intros d o Ho. apply lookup_insert_ne. by eapply status_apart. }
  destruct (statuses_same c (<[a := v]> c) Est) as [H1 H2]. split_and!; [|done| |done].
  - split_and!.
    + intros d o Ho. apply frame_kept; [by left|done|by apply Hf].
    + intros d o Ho. rewrite (Est d o Ho). by apply (Hs d o).
    + intros b Hb. destruct (decide (a = b)) as [<-|Hne].
      * exists v. by rewrite lookup_insert_eq.
      * rewrite lookup_insert_ne by done. by apply Hv.
  - intros b Hb. destruct (decide (a = b)) as [<-|Hne]; [done|]. left. by apply shown_other.
Qed.

(** A status moves forward: deciding an operation changes what all words it is installed in
    show, at once. *)
Lemma status_write c d o s s' :
  cells_ok c -> D !! d = Some o -> c !! status_ d = Some s -> s <> kStatusSucceeded ->
  status_fine s' -> later s s' ->
  let c' := <[status_ d := s']> c in cells_ok c' /\ statuses_later c c' /\ justified c c'.
Proof.
  intros Hc Ho Hu Hns Hf' Hl c'. pose proof Hc as (Hf & Hs & Hv).
  assert (forall d' o', D !! d' = Some o' -> d' <> d -> c' !! status_ d' = c !! status_ d') as Est.
  { intros d' o' Ho' Hne. apply lookup_insert_ne. intros E. apply Hne. by eapply status_inj. }
  assert (c' !! status_ d = Some s') as Est' by apply lookup_insert_eq.
  assert (cells_ok c') as Hc'.
  { split_and!.
    - intros d' o' Ho'. apply frame_kept; [right; eauto|done|by apply Hf].
    - intros d' o' Ho'. destruct (decide (d' = d)) as [->|Hne]; [by exists s'|].
      rewrite (Est d' o') by done. by apply (Hs d' o').
    - intros b Hb. unfold c'. rewrite lookup_insert_ne by (intros E; by eapply (status_apart b d o)). by apply Hv. }
  split_and!; [done| |].
  - intros d' o' t Ho' Ht. destruct (decide (d' = d)) as [->|Hne].
    + exists s'. split; [done|]. rewrite Hu in Ht. by injection Ht as <-.
    + exists t. rewrite (Est d' o') by done. split; [done|]. apply later_refl.
  - intros b Hb. destruct (Hv b Hb) as (u & Hbu & Hval).
    assert (c' !! b = Some u) as Hbu'.
    { unfold c'. rewrite lookup_insert_ne; [done|]. intros E. by eapply (status_apart b d o). }
    destruct Hval as [Hp|(d' & i & x & Hx & Hxb & [-> | ->])].
    + left. by rewrite !(shown_plain _ _ u).
    + destruct (decide (d' = d)) as [->|Hne].
      * rewrite (shown_mwcas c b d i x s), (shown_mwcas _ b d i x s') by done.
        rewrite (proj2 (Z.eqb_neq s _) Hns). destruct (Z.eqb_spec s' kStatusSucceeded) as [->|]; [|by left].
        right. by exists d, i, x.
      * left. pose proof Hx as (o' & Ho' & _). destruct (Hs d' o' Ho') as (t & Ht & _).
        rewrite !(shown_mwcas _ b d' i x t); try done. by rewrite (Est d' o').
    + left. by rewrite (shown_cond c b d' i x), (shown_cond _ b d' i x) by (done || by apply word_frame).
Qed.

Lemma decide_write c d o s :
  cells_ok c -> D !! d = Some o -> c !! status_ d = Some kStatusUndecided ->
  s = kStatusSucceeded \/ s = kStatusFailed -> cstep c (<[status_ d := s]> c).
Proof.
  intros Hc Ho Hu Hd.
  destruct (status_write c d o kStatusUndecided s) as (Hc' & Hl & Hj);
    [done..|unfold status_fine; tauto|right; right; by destruct Hd as [-> | ->]|].
  split_and!; [done..|]. intros d' o' Ho' Hs'.
  destruct (decide (d' = d)) as [->|Hne]; [by rewrite Hu in Hs'|].
  rewrite lookup_insert_ne; [done|]. intros E. apply Hne. by eapply status_inj.
Qed.
End operations.

(** ** The rely and the guarantee of an owner *)

Section owner.
Context {HP : Platform} (D : gmap Z Op) (Hpl : placed D).
(** The manager all rings use, its table, the threads, each at its slot of the table. *)
Context (m : Z) (sz : nat) (running : Z -> Prop) (slot : Z -> nat).
(** What the words hold at the start. *)
Context (init : Z -> Z).

(** Every thread stays protected. *)
Definition epochs_ok (e : EpochWorld) : Prop :=
  forall t, running t -> exists en, holds t m sz (slot t) en e /\ protected_epoch en <> 0.

Definition world_ok (w : World) : Prop :=
  cells_ok D (cells (client w)) /\ enabled (metrics (client w)) = false /\ epochs_ok (epochs w) /\
  (forall d o, D !! d = Some o -> gl_epoch_manager_ (glist w (o_ring o)) = Some m) /\
  explained D init (cells (client w)).

Definition words_of (s : World * unit) : gmap Z Z := cells (client s.1).
Definition no_ghost (_ _ : World) (_ : unit) : unit := tt.

(** The owner of [d0], whose descriptors go to the ring [g0]. *)
Context (me d0 g0 : Z).

Definition own_R (s s' : World * unit) : Prop :=
  world_ok s.1 ->
  world_ok s'.1 /\ statuses_later D (words_of s) (words_of s') /\
  (is_Some (D !! d0) ->
   (words_of s !! status_ d0 = Some kStatusFinished -> words_of s' !! status_ d0 = Some kStatusFinished) /\
   lists s'.1 !! g0 = lists s.1 !! g0).

Definition own_G (s s' : World * unit) : Prop :=
  world_ok s.1 ->
  world_ok s'.1 /\ statuses_later D (words_of s) (words_of s') /\
  (forall d o, D !! d = Some o -> d <> d0 ->
     words_of s !! status_ d = Some kStatusFinished -> words_of s' !! status_ d = Some kStatusFinished) /\
  (forall g, g <> g0 -> lists s'.1 !! g = lists s.1 !! g).

(** What a thread does while it drives an operation, its own or another's. *)
Definition drive_G (s s' : World * unit) : Prop :=
  world_ok s.1 ->
  world_ok s'.1 /\ cstep D (words_of s) (words_of s') /\ lists s'.1 = lists s.1.

Lemma statuses_later_refl c : statuses_later D c c.
Proof. intros d o s _ Hs. exists s. split; [done|apply later_refl]. Qed.

Lemma statuses_later_trans c1 c2 c3 :
  statuses_later D c1 c2 -> statuses_later D c2 c3 -> statuses_later D c1 c3.
Proof.
  intros H1 H2 d o s Ho Hs. destruct (H1 d o s Ho Hs) as (s2 & Hs2 & L1).
  destruct (H2 d o s2 Ho Hs2) as (s3 & Hs3 & L2). exists s3. split; [done|]. by eapply later_trans.
Qed.

Lemma own_R_refl : reflexive _ own_R.
Proof. intros s Hw. split_and!; [done|apply statuses_later_refl|done..]. Qed.

Lemma own_R_trans : transitive _ own_R.
Proof.
  intros s1 s2 s3 H12 H23 Hw. destruct (H12 Hw) as (Hw2 & L12 & F12).
  destruct (H23 Hw2) as (Hw3 & L23 & F23). split_and!; [done|by eapply statuses_later_trans|].
  intros Hd. destruct (F12 Hd) as [F1 G1], (F23 Hd) as [F2 G2]. split; [auto|congruence].
Qed.

Lemma drive_own s s' : drive_G s s' -> own_G s s'.
Proof.
  intros H Hw. destruct (H Hw) as (Hw' & (Hc & Hl & Hj & Hn) & Hg). split_and!; [done..| |by rewrite Hg].
  intros d o Ho _. by apply (Hn d o).
Qed.

Lemma drive_R s s' : drive_G s s' -> own_R s s'.
Proof.
  intros H Hw. destruct (H Hw) as (Hw' & (Hc & Hl & Hj & Hn) & Hg). split_and!; [done..|].
  intros [o Ho]. split; [by apply (Hn d0 o)|by rewrite Hg].
Qed.
End owner.

(** What one thread does, every other relies on. *)
Lemma own_G_R D m sz running slot init d g d' g' s s' :
  d <> d' -> g <> g' ->
  own_G D m sz running slot init d g s s' -> own_R D m sz running slot init d' g' s s'.
Proof.
  intros Hd Hg H Hw. destruct (H Hw) as (Hw' & Hl & Hn & Hls). split_and!; [done..|].
  intros [o' Ho']. split; [apply (Hn d' o' Ho'); congruence|apply Hls; congruence].
Qed.
