(* ===== verification/Helping.v ===== *)
(** * Driving, helping and reading under interference (src/mwcas/mwcas.cc, mwcas.h)

    Triples for the code of the volatile multi-word CAS against any number of other
    threads: the conditional CAS, the two phases, helping at any depth, reading a word, and
    the owner's start and clean-up. *)
From Stdlib Require Import ZArith Lia.
From stdpp Require Import base list gmap strings relations.
From S2P Require Import Prelude Bytes Prog Status Library Epoch Garbage Metrics Memory Descriptor MwCAS Target Shared.
#[local] Open Scope Z_scope.
#[local] Open Scope prog_scope.
#[local] Open Scope machine_scope.

(** ** Driving an operation *)

Section drive.
Context {HP : Platform} (D : gmap Z Op) (Hpl : placed D).
Context (m : Z) (sz : nat) (running : Z -> Prop) (slot : Z -> nat) (init : Z -> Z) (me d0 g0 : Z) (Hrun : running me).
Context (fuel : nat).

Abbreviation R := (own_R D m sz running slot init d0 g0).
Abbreviation dtriple := (triple no_ghost R (drive_G D m sz running slot init)).
Abbreviation dstable := (stable R).
Abbreviation wok := (world_ok D m sz running slot init).

Definition ok (s : World * unit) : Prop := wok s.1.

(** Facts about an operation's status that no thread undoes. *)
Definition started (d : Z) (s : World * unit) : Prop :=
  ok s /\ exists v, words_of s !! status_ d = Some v /\ v <> kStatusFinished.
Definition decided (d v : Z) (s : World * unit) : Prop :=
  ok s /\ words_of s !! status_ d = Some v /\ (v = kStatusSucceeded \/ v = kStatusFailed).

Lemma ok_stable : dstable ok.
Proof. intros s s' Hs HR. apply HR, Hs. Qed.

Lemma started_stable d o : D !! d = Some o -> dstable (started d).
Proof.
  intros Ho s s' [Hs (v & Hv & Hne)] HR. destruct (HR Hs) as (Hs' & Hl & _). split; [done|].
  destruct (Hl d o v Ho Hv) as (v' & Hv' & L). exists v'. split; [done|].
  destruct L as [<-|[->|[-> ?]]]; done.
Qed.

Lemma later_decided v v' : v = kStatusSucceeded \/ v = kStatusFailed -> later v v' -> v' = v.
Proof. intros [-> | ->] [<-|[H|[H _]]]; done. Qed.

Lemma decided_stable d o v : D !! d = Some o -> dstable (decided d v).
Proof.
  intros Ho s s' [Hs (Hv & Hd)] HR. destruct (HR Hs) as (Hs' & Hl & _).
  destruct (Hl d o v Ho Hv) as (v' & Hv' & L). split_and!; [done| |done].
  by rewrite Hv', (later_decided v v' Hd L).
Qed.

Lemma both_stable (P Q : World * unit -> Prop) : dstable P -> dstable Q -> dstable (fun s => P s /\ Q s).
Proof. intros HP' HQ s s' [H1 H2] HR. split; [by eapply HP'|by eapply HQ]. Qed.

Lemma fact_stable (P : Prop) : dstable (fun _ => P).
Proof. intros s s' H _. exact H. Qed.

#[local] Hint Resolve ok_stable both_stable fact_stable : core.
#[local] Hint Resolve own_R_refl own_R_trans : core.

Lemma same_drive s : ok s -> drive_G D m sz running slot init s s.
Proof. intros Hs _. split_and!; [done|apply cstep_refl, Hs|done]. Qed.

Lemma drive_frame {A} (F P : World * unit -> Prop) (p : prog World A) (Q : A -> World * unit -> Prop) :
  dstable F -> (forall s s', F s -> drive_G D m sz running slot init s s' -> F s') ->
  dtriple P p Q -> dtriple (fun s => P s /\ F s) p (fun a s => Q a s /\ F s).
Proof. apply triple_frame. Qed.

(** *** Accesses *)

Lemma d_rd {X} (f : World -> X) (P : World * unit -> Prop) (Q : X -> World * unit -> Prop) :
  dstable P -> (forall x, dstable (Q x)) -> (forall s, P s -> ok s /\ Q (f s.1) s) -> dtriple P (rd f) Q.
Proof.
  intros HP' HQ H. apply triple_act; [done..|]. intros [w []] Hs. simpl.
  destruct (H _ Hs) as [Hi Hq]. split; [by apply same_drive|done].
Qed.

Lemma d_ld a (P : World * unit -> Prop) (Q : Z -> World * unit -> Prop) :
  dstable P -> (forall x, dstable (Q x)) ->
  (forall s, P s -> ok s /\ exists v, words_of s !! a = Some v /\ Q v s) -> dtriple P (ld a) Q.
Proof.
  intros HP' HQ H s Hs. simpl. intros s' HR. destruct (H s' (HP' _ _ Hs HR)) as (Hi & v & Hv & Hq).
  destruct s' as [w []]. simpl in *. unfold words_of in Hv. simpl in Hv. rewrite Hv.
  change (set_client (client w) w) with (put (get w) w). rewrite put_get.
  split; [by apply same_drive|]. intros t Ht. by eapply HQ.
Qed.

(** A word that never changes. *)
Lemma d_const a v (P : World * unit -> Prop) :
  dstable P -> (forall s, P s -> ok s /\ words_of s !! a = Some v) ->
  dtriple P (ld a) (fun v' s => v' = v /\ P s).
Proof. intros HP' H. apply d_ld; [done|auto|]. intros s Hs. destruct (H s Hs) as [Hi Hv]. eauto. Qed.

Lemma d_cas a new cmp (P : World * unit -> Prop) (Q : Z -> World * unit -> Prop) :
  dstable P -> (forall x, dstable (Q x)) ->
  (forall s, P s -> ok s /\ exists v, words_of s !! a = Some v /\
     let c' := <[a := if v =? cmp then new else v]> (words_of s) in
     cstep D (words_of s) c' /\
     forall s', ok s' -> words_of s' = c' -> Q v s') ->
  dtriple P (cas a new cmp) Q.
Proof.
  intros HP' HQ H s Hs. simpl. intros s' HR. destruct (H s' (HP' _ _ Hs HR)) as (Hi & v & Hv & Hc & Hq).
  destruct s' as [w []]. unfold words_of, ok in *. simpl in *. rewrite Hv. simpl.
  assert (wok (set_client (set_cells (<[a := if v =? cmp then new else v]> (cells (client w))) (client w)) w)) as Hok.
  { destruct Hi as (_ & He & Hep & Hg & Hx). destruct Hc as (Hc & Hl & Hj & _).
    apply (explained_later D init _ _ Hx Hl) in Hj. destruct w as [? ? []]. by split_and!. }
  split.
  - intros _. split_and!; [done|by destruct w as [? ? []]|by destruct w].
  - intros t Ht. eapply HQ; [|exact Ht]. apply Hq; [done|by destruct w as [? ? []]].
Qed.

Lemma d_bind_const {B} a v (P : World * unit -> Prop) (k : Z -> prog World B) Q :
  dstable P -> (forall s, P s -> ok s /\ words_of s !! a = Some v) ->
  dtriple P (k v) Q -> dtriple P (bind (ld a) k) Q.
Proof.
  intros HP' H Hk. eapply triple_bind; [done|by apply d_const|]. intros v' s [-> Hs]. by apply Hk.
Qed.

Lemma d_ret {A} (a : A) (P : World * unit -> Prop) (Q : A -> World * unit -> Prop) :
  dstable P -> (forall s, P s -> Q a s) -> dtriple P (Ret a) Q.
Proof. apply triple_ret. Qed.

Lemma no_change a v c : cells_ok D c -> c !! a = Some v -> cstep D c (<[a := v]> c).
Proof. intros Hc Hv. rewrite insert_id by done. by apply cstep_refl. Qed.

(** The words of a descriptor are what its owner put there. *)
Lemma ok_word s d i x : ok s -> word_of D d i x -> word_at d (words_of s) i x.
Proof. intros [Hc _] Hx. by eapply word_frame. Qed.

Lemma ok_cells s : ok s -> cells_ok D (words_of s).
Proof. intros Hs. apply Hs. Qed.

Lemma ok_frame s d o : ok s -> D !! d = Some o ->
  words_of s !! count_ d = Some (Z.of_nat (length (o_words o))) /\
  words_of s !! owner_partition_ d = Some (o_part o) /\ words_of s !! garbage_list (o_part o) = Some (o_ring o).
Proof. intros Hs Ho. destruct (ok_cells s Hs) as [Hf _]. by apply Hf. Qed.

(** So they are after a write to a target. *)
Lemma word_kept s d i x a v :
  ok s -> word_of D d i x -> target D a -> word_at d (<[a := v]> (words_of s)) i x.
Proof.
  intros Hs (o & Ho & Hi) Ha. destruct (ok_cells s Hs) as [Hf _].
  apply (frame_kept D Hpl _ a v d o); [by left|done|by apply Hf|done].
Qed.

Lemma ok_status s d o : ok s -> D !! d = Some o -> exists v, words_of s !! status_ d = Some v /\ status_fine v.
Proof. intros [(_ & Hs & _) _] Ho. by apply (Hs d o). Qed.

Lemma ok_target s a : ok s -> target D a -> exists v, words_of s !! a = Some v /\ valid D a v.
Proof. intros [(_ & _ & Hv) _] Ha. by apply Hv. Qed.

Lemma word_target d i x : word_of D d i x -> wa x <> 0 -> target D (wa x).
Proof. intros Hx H0. split; [done|]. eauto. Qed.

(** *** The conditional CAS *)

(** Replacing a conditional pointer by the operation's, or by the old value. *)
Lemma d_complete d i x new :
  word_of D d i x -> wa x <> 0 -> new = mwcas_ptr d 0 \/ new = wo x ->
  dtriple ok (cas (wa x) new (cond_ptr d i)) (fun _ => ok).
Proof.
  intros Hx H0 Hnew. pose proof (word_target d i x Hx H0) as Ht. apply d_cas; [auto..|].
  intros s Hs. split; [done|]. destruct (ok_target s _ Hs Ht) as (v & Hv & Hval). exists v.
  split; [done|]. split; [|done]. destruct (Z.eqb_spec v (cond_ptr d i)) as [->|]; [|apply no_change; [apply Hs|done]].
  assert (valid D (wa x) new) as Hval'.
  { destruct Hnew as [-> | ->]; [right; by exists d, i, x; auto|left; by apply (word_values D Hpl d i x)]. }
  pose proof (ok_cells s Hs) as Hc. apply target_write; [done..|]. cbv zeta.
  rewrite (shown_cond D Hpl _ _ d i x (ok_word s d i x Hs Hx) Hx Hv).
  destruct Hnew as [-> | ->].
  - pose proof Hx as (o & Ho & _). destruct (ok_status s d o Hs Ho) as (st & Hst & _).
    assert ((<[wa x := mwcas_ptr d 0]> (words_of s)) !! status_ d = Some st) as Hst'.
    { rewrite lookup_insert_ne; [done|]. by eapply status_apart. }
    rewrite (shown_mwcas D Hpl _ _ d i x st) by (done || apply lookup_insert_eq).
    destruct (Z.eqb_spec st kStatusSucceeded) as [->|]; [|by left]. right. by exists d, i, x.
  - left. apply shown_plain; [apply lookup_insert_eq|]. by apply (word_values D Hpl d i x).
Qed.

(** The choice by status, which another thread may outdate at once. *)
Lemma d_if_undecided d i x :
  word_of D d i x ->
  dtriple ok (if_undecided (status_ d) (mwcas_ptr d 0) (old_value_ (words_ d (Z.of_nat i))))
    (fun v s => (v = mwcas_ptr d 0 \/ v = wo x) /\ ok s).
Proof.
  intros Hx. pose proof Hx as (o & Ho & _). unfold if_undecided.
  eapply triple_bind; [done|apply (d_ld _ ok (fun _ => ok)); [auto..|]|].
  - intros s Hs. destruct (ok_status s d o Hs Ho) as (v & Hv & _). eauto.
  - intros v. destruct (v =? kStatusUndecided).
    + apply d_ret; [auto|]. auto.
    + eapply triple_conseq; [apply (d_const _ (wo x) ok)| |]; [auto| |done|].
      * intros s Hs. split; [done|]. apply (ok_word s d i x Hs Hx).
      * intros v' s [-> Hs]. auto.
Qed.

(** What a conditional CAS answers: a value, or the pointer of an operation on the word. *)
Definition settled (a v : Z) : Prop :=
  plain v \/ exists d o, D !! d = Some o /\ v = mwcas_ptr d 0.

Lemma valid_settled a v : valid D a v -> IsCondCASDescriptorPtr v = false -> settled a v.
Proof.
  intros [Hp|(d & i & x & Hx & _ & [-> | ->])] Hn; [by left| |].
  - right. destruct Hx as (o & Ho & _). eauto.
  - destruct (word_plain D Hpl d i x Hx) as (_ & Hp & _). destruct (cond_ptr_flags d i Hp). congruence.
Qed.

Lemma triple_pure {A} (phi : Prop) P (p : prog World A) Q :
  (phi -> dtriple P p Q) -> dtriple (fun s => phi /\ P s) p Q.
Proof. intros H s [Hphi Hs]. by apply H. Qed.

(** Helping the conditional CAS found in the word. *)
Lemma d_CondCAS_other d i x :
  word_of D d i x -> wa x <> 0 ->
  let ret := cond_ptr d i in
  dtriple ok
    (let! wd_address := ld (address_ (CleanPtr ret)) in
     check (wd_address =? wa x) "wrong address" ;;;
     let! wd_status := ld (status_address_ (CleanPtr ret)) in
     let! desired := if_undecided wd_status (SetFlags (GetDescriptor wd_status) (kMwCASFlag .| 0)) (old_value_ (CleanPtr ret)) in
     let! now := ld wd_address in
     if negb (now =? ret) then Ret (inl tt) else
     let! new := if_undecided wd_status (SetFlags (GetDescriptor wd_status) (kMwCASFlag .| 0)) (old_value_ (CleanPtr ret)) in
     let! rval := cas wd_address new ret in
     if (rval =? ret) && (desired =? SetFlags (GetDescriptor wd_status) (kMwCASFlag .| 0))
     then Ret (inr (SetFlags (GetDescriptor wd_status) (kMwCASFlag .| 0))) else Ret (inl tt))
    (fun r s => match r with inl _ => ok s | inr v => settled (wa x) v /\ ok s end).
Proof.
  intros Hx H0 ret. destruct (word_plain D Hpl d i x Hx) as (Hd & Hp & _).
  destruct (cond_ptr_flags d i Hp) as (_ & _ & E). subst ret. rewrite E.
  apply (d_bind_const _ (wa x)); [auto|intros s Hs; split; [done|apply (ok_word s d i x Hs Hx)]|].
  rewrite Z.eqb_refl. simpl (check _ _). cbn [bind].
  apply (d_bind_const _ (status_ d)); [auto|intros s Hs; split; [done|apply (ok_word s d i x Hs Hx)]|].
  replace (GetDescriptor (status_ d)) with d by (unfold GetDescriptor, status_; lia).
  eapply triple_bind; [done|by apply (d_if_undecided d i x)|]. intros desired. cbv beta.
  apply triple_pure. intros _.
  eapply triple_bind; [done|apply (d_ld _ ok (fun _ => ok)); [auto..|]|].
  { intros s Hs. destruct (ok_target s _ Hs (word_target d i x Hx H0)) as (v & Hv & _). eauto. }
  intros now. destruct (negb _); [apply d_ret; auto|].
  eapply triple_bind; [done|by apply (d_if_undecided d i x)|]. intros new. cbv beta.
  apply triple_pure. intros Hnew.
  eapply triple_bind; [done|by apply d_complete|]. intros rval. cbv beta.
  destruct ((rval =? _) && _); apply d_ret; auto. intros s Hs. split; [|done].
  right. destruct Hx as (o & Ho & _). eauto.
Qed.

Lemma d_CondCAS_try d i x :
  word_of D d i x -> wa x <> 0 ->
  dtriple ok (CondCAS_try d (Z.of_nat i) 0)
    (fun r s => match r with inl _ => ok s | inr v => settled (wa x) v /\ ok s end).
Proof.
  intros Hx H0. pose proof (word_target d i x Hx H0) as Ht.
  destruct (word_plain D Hpl d i x Hx) as (Hd & Hp & _). unfold CondCAS_try.
  apply (d_bind_const _ (wa x)); [auto|intros s Hs; split; [done|apply (ok_word s d i x Hs Hx)]|].
  apply (d_bind_const _ (wo x)); [auto|intros s Hs; split; [done|apply (ok_word s d i x Hs Hx)]|].
  eapply triple_bind; [done|apply (d_cas _ _ _ ok (fun v s => valid D (wa x) v /\ ok s)); [auto..|]|].
  { intros s Hs. split; [done|]. destruct (ok_target s _ Hs Ht) as (v & Hv & Hval). exists v.
    split; [done|]. split; [|auto]. destruct (Z.eqb_spec v (wo x)) as [->|]; [|apply no_change; [apply Hs|done]].
    apply target_write; [done|apply Hs|done|right; exists d, i, x; auto|]. left.
    rewrite (shown_cond D Hpl _ _ d i x), (shown_plain D _ _ (wo x));
      [done|done|by apply (word_values D Hpl d i x)|by apply word_kept|done|apply lookup_insert_eq]. }
  intros v. cbv beta zeta. apply triple_pure. intros Hval.
  destruct (IsCondCASDescriptorPtr v) eqn:Ev.
  - destruct Hval as [Hp'|(d' & j & y & Hy & Ea & [-> | ->])].
    + destruct (plain_flags v Hp'). congruence.
    + destruct (word_plain D Hpl d' j y Hy) as (Hd' & _). destruct (mwcas_ptr_flags d' Hd'). congruence.
    + rewrite <- Ea. apply (d_CondCAS_other d' j y Hy). by rewrite Ea.
  - pose proof (valid_settled _ _ Hval Ev) as Hset. destruct (v =? wo x); [|apply d_ret; auto].
    eapply triple_bind; [done|by apply (d_if_undecided d i x)|].
    intros new. cbv beta. apply triple_pure. intros Hnew.
    eapply triple_bind; [done|by apply d_complete|]. intros ?. apply d_ret; auto.
Qed.

Lemma d_CondCAS d i x :
  word_of D d i x -> wa x <> 0 ->
  dtriple ok (CondCAS fuel d (Z.of_nat i) 0) (fun v s => settled (wa x) v /\ ok s).
Proof.
  intros Hx H0. unfold CondCAS. apply (triple_loop _ _ _ (own_R_refl _ _ _ _ _ _ _ _) (fun _ : unit => ok)); [auto|].
  intros []. eapply triple_conseq; [by apply d_CondCAS_try|done|]. intros [[]|v] s; done.
Qed.

(** *** Protection and counters *)

Lemma d_erd {X} (f : EpochWorld -> X) (P : World * unit -> Prop) (Q : X -> World * unit -> Prop) :
  dstable P -> (forall x, dstable (Q x)) -> (forall s, P s -> ok s /\ Q (f (epochs s.1)) s) ->
  dtriple P (zoom (rd f)) Q.
Proof.
  intros HP' HQ H. apply triple_act; [done..|]. intros [w []] Hs. destruct (H _ Hs) as [Hi Hq]. simpl in *.
  change (set_epochs (epochs w) w) with (put (get w) w). rewrite put_get.
  split; [by apply same_drive|done].
Qed.

Lemma ok_holds s : ok s -> exists en, holds me m sz (slot me) en (epochs s.1) /\ protected_epoch en <> 0.
Proof. intros (_ & _ & He & _). by apply He. Qed.

Lemma d_deref : dtriple ok (zoom (deref_table m)) (fun t s => table_size_ t = Z.of_nat sz /\ ok s).
Proof.
  apply triple_zoom_bind. eapply triple_bind; [done| |].
  - apply (d_erd _ ok (fun x s => (exists t, x = Some t /\ table_size_ t = Z.of_nat sz) /\ ok s)); [auto..|].
    intros s Hs. split; [done|]. destruct (ok_holds s Hs) as (en & [[-> _] _] & _). split; [|done]. by eexists.
  - intros x. cbv beta. apply triple_pure. intros (t & -> & Ht). by apply d_ret; auto.
Qed.

Lemma d_GetEntry : dtriple ok (zoom (GetEntryForThread me fuel m)) (fun r s => r = (m, slot me) /\ ok s).
Proof.
  apply triple_zoom_bind. eapply triple_bind; [done| |].
  - apply (d_erd _ ok (fun x s => x = tls_ptr_entry m (slot me) /\ ok s)); [auto..|].
    intros s Hs. split; [done|]. destruct (ok_holds s Hs) as (en & (_ & _ & _ & ->) & _). done.
  - intros x. cbv beta. apply triple_pure. intros ->. by apply d_ret; auto.
Qed.

(** Any entry of the table can be read; the thread's own is protected. *)
Lemma d_entry_load i : (i < sz)%nat \/ i = slot me ->
  dtriple ok (zoom (entry_load m i protected_epoch)) (fun v s => (i = slot me -> v <> 0) /\ ok s).
Proof.
  intros Hi. apply triple_zoom_bind. eapply triple_bind; [done| |].
  - apply (d_erd _ ok (fun x s => (exists v, x = Some v /\ (i = slot me -> v <> 0)) /\ ok s)); [auto..|].
    intros s Hs. split; [done|]. split; [|done]. destruct (ok_holds s Hs) as (en & ([_ Hl] & He & _) & Hne).
    assert (exists e, entries (epochs s.1) m !! i = Some e) as [e Hi'].
    { destruct Hi as [Hi | ->]; [|eauto]. apply lookup_lt_is_Some. by rewrite Hl. }
    rewrite Hi'. eexists. split; [done|]. intros ->. rewrite He in Hi'. by injection Hi' as <-.
  - intros x. cbv beta. apply triple_pure. intros (v & -> & Hv). by apply d_ret; auto.
Qed.

Lemma d_IsProtected : dtriple ok (zoom (IsProtected me fuel m)) (fun b s => b = true /\ ok s).
Proof.
  unfold IsProtected. apply triple_zoom_bind. eapply triple_bind; [done|apply d_deref|].
  intros t. cbv beta. apply triple_pure. intros _. unfold MinEpochTable_IsProtected. apply triple_zoom_bind.
  eapply triple_bind; [done|apply d_GetEntry|].
  intros [m' i]. cbv beta. apply triple_pure. intros [= -> ->]. apply triple_zoom_bind.
  eapply triple_bind; [done|apply d_entry_load; auto|].
  intros p. cbv beta. apply triple_pure. intros Hp. apply d_ret; [auto|]. intros s Hs.
  by rewrite (proj2 (Z.eqb_neq _ _) (Hp eq_refl)).
Qed.

(** The ring and the manager of a descriptor. *)
Lemma d_partition_garbage d o : D !! d = Some o ->
  dtriple ok (partition_garbage d) (fun g s => g = o_ring o /\ ok s).
Proof.
  intros Ho. unfold partition_garbage.
  apply (d_bind_const _ (o_part o)); [auto|intros s Hs; split; [done|apply (ok_frame s d o Hs Ho)]|].
  apply d_const; [auto|intros s Hs; split; [done|apply (ok_frame s d o Hs Ho)]].
Qed.

Lemma d_gl_epoch d o : D !! d = Some o -> dtriple ok (gl_epoch (o_ring o)) (fun r s => r = m /\ ok s).
Proof.
  intros Ho. unfold gl_epoch, gl_read. eapply triple_bind; [done|apply (d_rd _ ok (fun x s => x = Some m /\ ok s)); [auto..|]|].
  - intros s Hs. split; [done|]. split; [|done]. destruct Hs as (_ & _ & _ & Hg & _). by apply (Hg d).
  - intros x. cbv beta. apply triple_pure. intros ->. by apply d_ret; auto.
Qed.

Lemma d_protected d o : D !! d = Some o -> dtriple ok (dcheck_protected me fuel d) (fun _ => ok).
Proof.
  intros Ho. unfold dcheck_protected.
  eapply triple_bind; [done|by apply (d_partition_garbage d o)|]. intros g. cbv beta. apply triple_pure. intros ->.
  eapply triple_bind; [done|by apply (d_gl_epoch d o)|]. intros m'. cbv beta. apply triple_pure. intros ->.
  eapply triple_bind; [done|apply d_IsProtected|]. intros b. cbv beta. apply triple_pure. intros ->.
  by apply triple_check; [auto|].
Qed.

Lemma d_metric k : dtriple ok (metric me k) (fun _ => ok).
Proof.
  intros s Hs. simpl. intros s' HR. pose proof (ok_stable s s' Hs HR) as Hs'.
  destruct s' as [w []]. pose proof Hs' as (_ & He & _). simpl in *. unfold set_metrics. simpl.
  rewrite He. destruct w as [l e [c pc mm]]. simpl. split; [by apply same_drive|].
  intros t Ht. by eapply ok_stable.
Qed.

(** *** The two phases *)

Lemma later_started s s' d o : D !! d = Some o -> started d s -> drive_G D m sz running slot init s s' -> started d s'.
Proof.
  intros Ho [Hs (v & Hv & Hne)] HG. destruct (HG Hs) as (Hs' & (_ & Hl & _) & _). split; [done|].
  destruct (Hl d o v Ho Hv) as (v' & Hv' & L). exists v'. split; [done|]. destruct L as [<-|[->|[-> ?]]]; done.
Qed.

Lemma settled_cases a v : settled a v ->
  (IsMwCASDescriptorPtr v = false) \/ exists d o, D !! d = Some o /\ CleanPtr v = d.
Proof.
  intros [Hp|(d & o & Ho & ->)]; [left; apply (plain_flags v Hp)|]. right. exists d, o. split; [done|].
  destruct (pl_own D Hpl d o Ho) as [Hd _ _ _ _ _]. apply mwcas_ptr_flags. unfold plain, fits. lia.
Qed.

Definition outcome_of (v : Z) : Prop := v = kStatusSucceeded \/ v = kStatusFailed.

(** Phase 1 for one word, when helping is safe. *)
Lemma d_install help d i x st :
  (forall d' o', D !! d' = Some o' -> dtriple ok (help d') (fun _ => ok)) ->
  word_of D d i x -> outcome_of st ->
  dtriple ok (Volatile_install me fuel help d (Z.of_nat i) st) (fun r s => outcome_of r /\ ok s).
Proof.
  intros Hhelp Hx Hst. unfold Volatile_install. destruct (negb _); [by apply d_ret; auto|].
  apply (d_bind_const _ (wa x)); [auto|intros s Hs; split; [done|apply (ok_word s d i x Hs Hx)]|].
  destruct (Z.eqb_spec (wa x) kAllocNullAddress) as [|Hne]; [by apply d_ret; auto|].
  apply (triple_loop _ _ _ (own_R_refl _ _ _ _ _ _ _ _) (fun _ : unit => ok)); [auto|]. intros [].
  eapply triple_bind; [done|by apply (d_CondCAS d i x)|]. intros v. cbv beta. apply triple_pure. intros Hv.
  apply (d_bind_const _ (wo x)); [auto|intros s Hs; split; [done|apply (ok_word s d i x Hs Hx)]|].
  destruct (_ || _); [by apply d_ret; auto|].
  destruct (settled_cases _ _ Hv) as [->|(d' & o' & Ho' & Ev)]; [apply d_ret; [auto|]; intros s Hs; split; [by right|done]|].
  destruct (IsMwCASDescriptorPtr v); [|apply d_ret; [auto|]; intros s Hs; split; [by right|done]].
  rewrite Ev. eapply triple_bind; [done|by apply (Hhelp d' o')|]. intros ?. cbv beta.
  eapply triple_bind; [done|apply d_metric|]. intros ?. by apply d_ret; auto.
Qed.

(** Every word of a descriptor, in order. *)
Lemma d_for_words {I} d o (body : Z -> I -> prog World I) (Inv : I -> World * unit -> Prop) i0 :
  D !! d = Some o -> (forall i, dstable (Inv i)) -> (forall i s, Inv i s -> ok s) ->
  (forall k x i, word_of D d k x -> dtriple (Inv i) (body (Z.of_nat k) i) Inv) ->
  dtriple (Inv i0) (for_words d body i0) Inv.
Proof.
  intros Ho Hst Hok Hb. unfold for_words.
  apply (d_bind_const _ (Z.of_nat (length (o_words o)))); [auto| |].
  { intros s Hs. pose proof (Hok _ _ Hs) as Hs'. split; [done|]. apply (ok_frame s d o Hs' Ho). }
  rewrite Nat2Z.id.
  apply (triple_for_list _ _ _ (own_R_refl _ _ _ _ _ _ _ _) (fun _ => Inv)); [auto|].
  intros pre k post i E. assert (k < length (o_words o))%nat as Hk.
  { assert (k ∈ seq 0 (length (o_words o))) as H by (rewrite E; set_solver). apply elem_of_seq in H. lia. }
  destruct (lookup_lt_is_Some_2 _ _ Hk) as [x Hx]. apply (Hb k x). by exists o.
Qed.

(** The end of phase 1: whoever comes first decides. *)
Lemma d_decide d o st :
  D !! d = Some o -> outcome_of st ->
  dtriple (started d) (cas (status_ d) st kStatusUndecided) (fun _ s => exists v, decided d v s).
Proof.
  intros Ho Hst. apply d_cas.
  - by eapply started_stable.
  - intros _ s s' [v Hv] HR. exists v. by eapply decided_stable.
  - intros s [Hs (v & Hv & Hne)]. split; [done|]. exists v. split; [done|].
    destruct (Z.eqb_spec v kStatusUndecided) as [->|Hnu].
    + split; [apply (decide_write D Hpl _ d o); [apply Hs|done..]|]. intros s' Hs' E. exists st.
      split; [done|]. rewrite E. by rewrite lookup_insert_eq.
    + split; [apply no_change; [apply Hs|done]|]. intros s' Hs' E. exists v.
      split; [done|]. rewrite E, lookup_insert_eq. split; [done|].
      destruct (ok_status s d o Hs Ho) as (v' & Hv' & Hf). rewrite Hv in Hv'. injection Hv' as <-.
      destruct Hf as [?|[?|Hf]]; done.
Qed.

(** Reading the status of a decided operation answers the decision, for good. *)
Lemma d_read_decision d o :
  D !! d = Some o ->
  dtriple (fun s => exists v, decided d v s) (ld (status_ d)) (fun v => decided d v).
Proof.
  intros Ho. apply d_ld.
  - intros s s' [v Hv] HR. exists v. by eapply decided_stable.
  - intros v. by eapply decided_stable.
  - intros s [v Hv]. pose proof Hv as (Hs & Hst & _). eauto.
Qed.

(** Phase 2 for one word. *)
Lemma d_finish d i x v :
  word_of D d i x ->
  dtriple (decided d v) (Volatile_finish d (Z.of_nat i) (v =? kStatusSucceeded)) (fun _ => decided d v).
Proof.
  intros Hx. pose proof Hx as (o & Ho & _). pose proof (decided_stable d o v Ho) as Hst.
  assert (forall s, decided d v s -> word_at d (words_of s) i x) as Hw by (intros s [Hs _]; by apply ok_word).
  unfold Volatile_finish.
  apply (d_bind_const _ (wa x)); [done|intros s Hs; split; [apply Hs|apply (Hw s Hs)]|].
  destruct (Z.eqb_spec (wa x) kAllocNullAddress) as [|Hne]; [by apply d_ret|].
  set (u := if v =? kStatusSucceeded then wn x else wo x).
  apply (d_bind_const _ u); [done| |].
  { intros s Hs. split; [apply Hs|]. destruct (Hw s Hs) as (_ & Ho' & Hn & _). subst u. by destruct (v =? _). }
  assert (plain u) as Hu by (subst u; destruct (word_values D Hpl d i x Hx); by destruct (v =? _)).
  pose proof (word_target d i x Hx Hne) as Ht.
  eapply triple_bind; [done|apply (d_cas _ _ _ (decided d v) (fun _ => decided d v)); [done..|]|].
  - intros s Hs. pose proof Hs as (Hok & Hv & Hd). split; [done|].
    destruct (ok_target s _ Hok Ht) as (old & Hold & _). exists old. split; [done|]. rewrite <- mwcas_ptr_0.
    destruct (Z.eqb_spec old (mwcas_ptr d 0)) as [->|].
    + split.
      * apply target_write; [done|apply Hok|done|by left|]. left.
        rewrite (shown_mwcas D Hpl (words_of s) (wa x) d i x v) by done.
        apply shown_plain; [apply lookup_insert_eq|done].
      * intros s' Hs' E. split_and!; [done| |done]. rewrite E, lookup_insert_ne; [done|].
        by eapply (status_apart D Hpl).
    + split; [apply no_change; [apply Hok|done]|]. intros s' Hs' E. split_and!; [done| |done].
      rewrite E. by rewrite insert_id.
  - intros ?. by apply d_ret.
Qed.

(** *** The whole operation *)

(** The phases, which helpers and owners share, followed by [k]. *)
Section phases.
Context (G' : World * unit -> World * unit -> Prop) (HG : forall s s', drive_G D m sz running slot init s s' -> G' s s').
Context (F : World * unit -> Prop) (HF : dstable F).
Context (HFG : forall s s', F s -> drive_G D m sz running slot init s s' -> F s').

Lemma d_then {A B} (p : prog World A) (k : A -> prog World B) P Q Q' :
  dtriple P p Q -> (forall a, triple no_ghost R G' (fun s => Q a s /\ F s) (k a) Q') ->
  triple no_ghost R G' (fun s => P s /\ F s) (bind p k) Q'.
Proof.
  intros Hp Hk. exact (triple_then _ _ _ (own_R_refl _ _ _ _ _ _ _ _) G' F p k P Q Q' HG HF HFG Hp Hk).
Qed.

Lemma d_install_all help d o :
  (forall d' o', D !! d' = Some o' -> dtriple ok (help d') (fun _ => ok)) -> D !! d = Some o ->
  dtriple (started d) (for_words d (Volatile_install me fuel help d) kStatusSucceeded)
    (fun st s => (outcome_of st /\ ok s) /\ started d s).
Proof.
  intros Hhelp Ho.
  apply (triple_conseq _ _ _ (fun s => (outcome_of kStatusSucceeded /\ ok s) /\ started d s)
    _ _ (fun st s => (outcome_of st /\ ok s) /\ started d s)); [|intros s Hs; split; [split; [by left|apply Hs]|exact Hs]|done].
  apply (drive_frame (started d) (fun s => outcome_of kStatusSucceeded /\ ok s) _ (fun r s => outcome_of r /\ ok s));
    [by eapply started_stable|by intros; eapply later_started|].
  apply (d_for_words d o _ (fun r s => outcome_of r /\ ok s)); [done|auto|by intros ? ? [_ ?]|].
  intros k x st Hx. apply triple_pure. intros Hst. by apply (d_install _ d k x).
Qed.

Lemma d_finish_all d o v : D !! d = Some o ->
  dtriple (decided d v) (for_words d (fun i (_ : unit) => Volatile_finish d i (v =? kStatusSucceeded)) tt)
    (fun _ => decided d v).
Proof.
  intros Ho. apply (d_for_words d o _ (fun _ => decided d v)); [done|by intros; eapply decided_stable|by intros ? ? [? _]|].
  intros k x ? Hx. by apply (d_finish d k x).
Qed.

Lemma phases_then {A} help d o (k : Z -> prog World A) Q' :
  (forall d' o', D !! d' = Some o' -> dtriple ok (help d') (fun _ => ok)) -> D !! d = Some o ->
  (forall v, triple no_ghost R G' (fun s => decided d v s /\ F s) (k v) Q') ->
  triple no_ghost R G' (fun s => started d s /\ F s)
    (let! my_status := for_words d (Volatile_install me fuel help d) kStatusSucceeded in
     cas (status_ d) my_status kStatusUndecided ;;;
     let! s := ld (status_ d) in
     for_words d (fun i (_ : unit) => Volatile_finish d i (s =? kStatusSucceeded)) tt ;;;
     k s) Q'.
Proof.
  intros Hhelp Ho Hk. eapply d_then; [by eapply d_install_all|]. intros st. cbv beta.
  intros s [[[Hst _] Hs] HFs]. revert s Hs HFs.
  assert (triple no_ghost R G' (fun s => started d s /\ F s)
    (cas (status_ d) st kStatusUndecided ;;;
     let! s := ld (status_ d) in
     for_words d (fun i (_ : unit) => Volatile_finish d i (s =? kStatusSucceeded)) tt ;;; k s) Q') as H.
  { eapply d_then; [by apply (d_decide d o)|]. intros ?. cbv beta.
    eapply d_then; [by apply (d_read_decision d o)|]. intros v. cbv beta.
    eapply d_then; [by apply (d_finish_all d o)|]. intros ?. apply Hk. }
  intros s Hs HFs. exact (H s (conj Hs HFs)).
Qed.
End phases.

Lemma VolatileMwCAS_unfold depth d c :
  VolatileMwCAS me fuel (S depth) d c =
  (dcheck_protected me fuel d ;;;
   let! s := ld (status_ d) in
   if negb (s =? kStatusUndecided) then
     if 0 <? c then
       metric me BailedHelp ;;;
       let! s := ld (status_ d) in Ret (s =? kStatusSucceeded)
     else Cleanup me fuel d
   else
     let! my_status := for_words d (Volatile_install me fuel
       (fun other => VolatileMwCAS me fuel depth other (c + 1) ;;; Ret tt) d) kStatusSucceeded in
     cas (status_ d) my_status kStatusUndecided ;;;
     let! s := ld (status_ d) in
     for_words d (fun i (_ : unit) => Volatile_finish d i (s =? kStatusSucceeded)) tt ;;;
     if c =? 0 then Cleanup me fuel d else Ret (s =? kStatusSucceeded)).
Proof. done. Qed.

(** Reading a status: if it says undecided, the operation has been started. *)
Lemma d_read_status d o : D !! d = Some o ->
  dtriple ok (ld (status_ d)) (fun v s => (v = kStatusUndecided -> started d s) /\ ok s).
Proof.
  intros Ho. apply d_ld; [auto| |].
  - intros v s s' [Hs Hok] HR. split; [|by eapply ok_stable]. intros E. eapply started_stable; eauto.
  - intros s Hs. split; [done|]. destruct (ok_status s d o Hs Ho) as (v & Hv & _). exists v.
    split; [done|]. split; [|done]. intros ->. split; [done|]. by exists kStatusUndecided.
Qed.

(** Helping is safe at any depth. *)
Lemma d_VolatileMwCAS depth d o c : D !! d = Some o -> 0 < c ->
  dtriple ok (VolatileMwCAS me fuel depth d c) (fun _ => ok).
Proof.
  revert d o c. induction depth as [|depth IH]; intros d o c Ho Hc; [by intros s _|].
  rewrite VolatileMwCAS_unfold, (proj2 (Z.ltb_lt 0 c)), (proj2 (Z.eqb_neq c 0)) by lia.
  eapply triple_bind; [done|by apply (d_protected d o)|]. intros ?. cbv beta.
  eapply triple_bind; [done|by apply (d_read_status d o)|]. intros v. cbv beta.
  destruct (Z.eqb_spec v kStatusUndecided) as [->|Hne]; simpl negb; cbv iota.
  - apply (triple_conseq _ _ _ (fun s => started d s /\ True) _ _ (fun _ => ok)); [|intros s [Hs _]; auto|done].
    apply (phases_then _ (fun _ _ H => H) (fun _ => True) ltac:(done) ltac:(done) _ d o); [|done|].
    + intros d' o' Ho'. eapply triple_bind; [done|by apply (IH d' o' (c + 1) Ho'); lia|]. intros ?. by apply d_ret; auto.
    + intros v. apply (triple_conseq _ _ _ ok _ _ (fun _ => ok)); [by apply d_ret|by intros s [[? _] _]|done].
  - apply (triple_conseq _ _ _ ok _ _ (fun _ => ok)); [|by intros s [_ ?]|done].
    eapply triple_bind; [done|apply d_metric|]. intros ?. cbv beta.
    eapply triple_bind; [done|apply (d_read_status d o Ho)|]. intros w. cbv beta.
    apply (triple_conseq _ _ _ ok _ _ (fun _ => ok)); [by apply d_ret|by intros s [_ ?]|done].
Qed.

(** Bumping the epoch keeps every thread protected. *)
Lemma epochs_ok_mgr e x :
  running me -> epochs_ok m sz running slot e -> epoch_table_ x = epoch_table_ (mgr e m) ->
  epochs_ok m sz running slot (set_mgr m x e).
Proof.
  intros _ He Ex t Ht. destruct (He t Ht) as (en & ([Htab Hlen] & Hen & Hid & Htls) & Hne).
  exists en. split; [|done].
  assert (mgr (set_mgr m x e) m = x) as Em by (unfold mgr, set_mgr; simpl; by rewrite lookup_insert_eq).
  assert (entries (set_mgr m x e) m = entries e m) as Ee by (unfold entries; by rewrite Em, Ex).
  unfold holds, table_wf. rewrite Em, Ex, Ee. done.
Qed.

Lemma d_eupd {X} (f : EpochWorld -> X * EpochWorld) :
  (forall e, exists x, (f e).2 = set_mgr m x e /\ epoch_table_ x = epoch_table_ (mgr e m)) ->
  dtriple ok (zoom (act f)) (fun _ => ok).
Proof.
  intros Hf. apply triple_act; [auto..|]. intros [w []] Hs. simpl.
  destruct (Hf (epochs w)) as (x & E & Ht). destruct (f (epochs w)) as [y e']. simpl in *. subst e'.
  assert (ok (set_epochs (set_mgr m x (epochs w)) w, tt)) as Hok.
  { destruct Hs as (Hc & Hm & He & Hg & Hx). split_and!; [done|done|by apply epochs_ok_mgr|done|done]. }
  split; [|done]. intros _. split_and!; [done|apply cstep_refl; apply Hs|done].
Qed.

Lemma d_zoom_for_list {E I} (l : list E) (body : E -> I -> prog EpochWorld I) i :
  (forall x j, x ∈ l -> dtriple ok (zoom (body x j)) (fun _ => ok)) ->
  dtriple ok (zoom (for_list l body i)) (fun _ => ok).
Proof.
  revert i. induction l as [|x l IH]; intros i Hb; [by apply d_ret; auto|]. cbn [for_list].
  apply triple_zoom_bind. eapply triple_bind; [done|apply Hb; by left|]. intros j. cbv beta.
  apply IH. intros y k Hy. apply Hb. by right.
Qed.

Lemma d_BumpCurrentEpoch : dtriple ok (zoom (BumpCurrentEpoch m)) (fun _ => ok).
Proof.
  unfold BumpCurrentEpoch. apply triple_zoom_bind.
  eapply triple_bind; [done|apply d_eupd; intros e; by eexists|]. intros ep. cbv beta.
  unfold ComputeNewSafeToReclaimEpoch. apply triple_zoom_bind.
  apply (triple_bind _ _ _ (own_R_refl _ _ _ _ _ _ _ _) _ _ ok (fun _ => ok));
    [|intros x; apply d_eupd; intros e; by eexists].
  unfold MinEpochTable_ComputeNewSafeToReclaimEpoch. apply triple_zoom_bind.
  eapply triple_bind; [done|apply d_deref|]. intros t. cbv beta. apply triple_pure. intros ->.
  apply triple_zoom_bind.
  apply (triple_bind _ _ _ (own_R_refl _ _ _ _ _ _ _ _) _ _ ok (fun _ => ok)); [|intros x; by apply d_ret; auto].
  rewrite Nat2Z.id.
  apply d_zoom_for_list. intros i o Hi. apply elem_of_seq in Hi.
  apply triple_zoom_bind. eapply triple_bind; [done|apply d_entry_load; left; lia|]. intros v. cbv beta.
  apply triple_pure. intros _. by apply (d_ret _ ok (fun _ => ok)); auto.
Qed.

(** *** Readers *)

(** A value the word legitimately had: the first one, or one a successful operation put there. *)
Definition seen (a v : Z) (s : World * unit) : Prop :=
  ok s /\ rtc (committed D (words_of s) a) (init a) v.

Lemma seen_stable a v : dstable (seen a v).
Proof.
  intros s s' [Hs Hv] HR. destruct (HR Hs) as (Hs' & Hl & _). split; [done|]. by eapply history_later.
Qed.

Lemma d_complete_CondCAS d i x :
  word_of D d i x -> wa x <> 0 ->
  dtriple ok (complete_CondCAS true (wa x) (cond_ptr d i) 0) (fun _ => ok).
Proof.
  intros Hx H0. destruct (word_plain D Hpl d i x Hx) as (_ & Hp & _).
  destruct (cond_ptr_flags d i Hp) as (_ & _ & E). unfold complete_CondCAS. rewrite E. cbv zeta.
  apply (d_bind_const _ (status_ d)); [auto|intros s Hs; split; [done|apply (ok_word s d i x Hs Hx)]|].
  replace (GetDescriptor (status_ d)) with d by (unfold GetDescriptor, status_; lia).
  apply (d_bind_const _ (wa x)); [auto|intros s Hs; split; [done|apply (ok_word s d i x Hs Hx)]|].
  rewrite Z.eqb_refl, orb_true_r. cbn [check bind].
  eapply triple_bind; [done|by apply (d_if_undecided d i x)|]. intros new. cbv beta. apply triple_pure. intros Hnew.
  eapply triple_bind; [done|by apply d_complete|]. intros ?. by apply d_ret; auto.
Qed.

Lemma d_GetValueVolatile_try depth a : target D a ->
  dtriple ok (GetValueVolatile_try me fuel depth a)
    (fun r s => match r with inl _ => ok s | inr v => seen a v s end).
Proof.
  intros Ha. unfold GetValueVolatile_try.
  eapply triple_bind; [done|apply (d_ld a ok (fun v s => valid D a v /\ (ok s /\ (plain v -> seen a v s))))|]; [auto| | |].
  - intros v. apply both_stable; [apply fact_stable|]. apply both_stable; [apply ok_stable|].
    intros s s' H HR Hv. eapply seen_stable; eauto.
  - intros s Hs. split; [done|]. destruct (ok_target s a Hs Ha) as (v & Hv & Hval). exists v. split_and!; [done..|].
    intros Hp. split; [done|]. destruct Hs as (_ & _ & _ & _ & Hx). specialize (Hx a Ha).
    change (cells (client s.1)) with (words_of s) in Hx. by rewrite (shown_plain D _ a v Hv Hp) in Hx.
  - intros v. cbv beta. apply triple_pure. intros Hval. fold (IsCondCASDescriptorPtr v) (IsMwCASDescriptorPtr v).
    destruct Hval as [Hp|(d & i & x & Hx & <- & [-> | ->])].
    + destruct (plain_flags v Hp) as [-> ->]. apply d_ret; [|by intros s [_ Hv]; apply Hv].
      apply both_stable; [apply ok_stable|]. intros s s' H HR Hv. eapply seen_stable; eauto.
    + apply (triple_conseq _ _ _ ok _ _ (fun r s => match r : unit + Z with inl _ => ok s | inr v => seen (wa x) v s end));
        [|by intros s [? _]|done].
      destruct (word_plain D Hpl d i x Hx) as (Hd & _). destruct (mwcas_ptr_flags d Hd) as (-> & -> & ->).
      destruct Hx as (o & Ho & _). destruct (pl_own D Hpl d o Ho) as [Hr _ _ _ _ _].
      rewrite (proj2 (Z.eqb_neq d 0)) by lia. cbn [negb check bind].
      eapply triple_bind; [done|by apply (d_VolatileMwCAS depth d o)|]. intros ?. by apply d_ret; auto.
    + apply (triple_conseq _ _ _ ok _ _ (fun r s => match r : unit + Z with inl _ => ok s | inr v => seen (wa x) v s end));
        [|by intros s [? _]|done].
      destruct (word_plain D Hpl d i x Hx) as (_ & Hp & _). destruct (cond_ptr_flags d i Hp) as (-> & _ & _).
      eapply triple_bind; [done|apply (d_complete_CondCAS d i x Hx); apply Ha|]. intros ?. by apply d_ret; auto.
Qed.

Lemma d_GetValue depth a : target D a ->
  dtriple ok (GetValueProtectedVolatile me fuel depth a) (fun v => seen a v).
Proof.
  intros Ha. unfold GetValueProtectedVolatile. eapply triple_bind; [done|apply d_metric|]. intros ?. cbv beta.
  apply (triple_loop _ _ _ (own_R_refl _ _ _ _ _ _ _ _) (fun _ : unit => ok)); [by apply seen_stable|].
  intros []. eapply triple_conseq; [by apply d_GetValueVolatile_try|done|]. by intros [[]|v] s.
Qed.

(** *** The owner *)

Context (o0 : Op) (Ho0 : D !! d0 = Some o0) (Hg0 : o_ring o0 = g0).

Abbreviation otriple := (triple no_ghost R (own_G D m sz running slot init d0 g0)).

(** The owner's ring, which no other thread touches. *)
Definition ring (phi : GarbageList -> Prop) (s : World * unit) : Prop :=
  ok s /\ exists L, lists s.1 !! g0 = Some L /\ gl_epoch_manager_ L = Some m /\ phi L.

Lemma ring_stable phi : dstable (ring phi).
Proof.
  intros s s' [Hs (L & HL & Hm & Hphi)] HR. destruct (HR Hs) as (Hs' & _ & H). destruct (H (mk_is_Some _ _ Ho0)) as [_ E].
  split; [done|]. exists L. by rewrite E.
Qed.

Lemma ring_drive phi s s' : ring phi s -> drive_G D m sz running slot init s s' -> ring phi s'.
Proof.
  intros [Hs (L & HL & Hm & Hphi)] HG. destruct (HG Hs) as (Hs' & _ & E). split; [done|]. exists L. by rewrite E.
Qed.

Lemma decided_drive v s s' : decided d0 v s -> drive_G D m sz running slot init s s' -> decided d0 v s'.
Proof.
  intros (Hs & Hv & Hd) HG. destruct (HG Hs) as (Hs' & (_ & Hl & _) & _). split_and!; [done| |done].
  destruct (Hl d0 o0 v Ho0 Hv) as (v' & Hv' & L). by rewrite Hv', (later_decided v v' Hd L).
Qed.

(** The decision and the ring, while the owner cleans up. *)
Definition cleaning (v : Z) (phi : GarbageList -> Prop) (s : World * unit) : Prop :=
  decided d0 v s /\ ring phi s.

Lemma cleaning_stable v phi : dstable (cleaning v phi).
Proof. apply both_stable; [by eapply decided_stable|apply ring_stable]. Qed.

Lemma cleaning_drive v phi s s' : cleaning v phi s -> drive_G D m sz running slot init s s' -> cleaning v phi s'.
Proof. intros [H1 H2] HG. split; [by eapply decided_drive|by eapply ring_drive]. Qed.

#[local] Hint Resolve cleaning_stable : core.

Lemma cleaning_mono v (phi psi : GarbageList -> Prop) s :
  (forall L, phi L -> psi L) -> cleaning v phi s -> cleaning v psi s.
Proof. intros H [Hd [Hs (L & HL & Hm & Hphi)]]. split; [done|]. split; [done|]. exists L. auto. Qed.

(** Whatever leaves the owner's facts alone, before what goes on from them. *)
Lemma o_then {A B} P0 (p : prog World A) (k : A -> prog World B) v phi P1 (Q : A -> Prop) (Q' : B -> World * unit -> Prop) :
  (forall s, cleaning v phi s -> P0 s) -> dtriple P0 p P1 -> (forall a s, P1 a s -> Q a) ->
  (forall a, Q a -> otriple (cleaning v phi) (k a) Q') -> otriple (cleaning v phi) (bind p k) Q'.
Proof.
  intros HP0 Hp HQ Hk.
  apply (triple_conseq _ _ _ (fun s => P0 s /\ cleaning v phi s) _ _ Q'); [|by intros s Hs; split; [apply HP0|]|done].
  apply (d_then _ (drive_own D m sz running slot init d0 g0) (cleaning v phi) (cleaning_stable v phi)
    (cleaning_drive v phi) p k P0 P1); [done|].
  intros a s [Ha Hs]. apply (Hk a); [by eapply HQ|done].
Qed.

Lemma cleaning_ok v phi s : cleaning v phi s -> ok s.
Proof. intros [[Hs _] _]. exact Hs. Qed.

Lemma o_check (b : bool) msg v phi : b = true -> otriple (cleaning v phi) (check b msg) (fun _ => cleaning v phi).
Proof. intros ->. by apply triple_check; [apply cleaning_stable|]. Qed.

(** An access to the ring. *)
Lemma o_ring_act {X} (f : World -> X * World) v phi (psi : X -> GarbageList -> Prop) :
  (forall w L, lists w !! g0 = Some L -> phi L -> exists x L', f w = (x, set_glist g0 L' w) /\
     gl_epoch_manager_ L' = gl_epoch_manager_ L /\ psi x L') ->
  otriple (cleaning v phi) (act f) (fun x => cleaning v (psi x)).
Proof.
  intros Hf. apply triple_act; [auto..|]. intros [w []] [Hd [Hs (L & HL & Hm & Hphi)]]. simpl in *.
  destruct (Hf w L HL Hphi) as (x & L' & -> & Hm' & Hpsi). simpl.
  assert (ok (set_glist g0 L' w, tt)) as Hok.
  { destruct Hs as (Hc & He & Hep & Hg & Hx). split_and!; [done..| |done]. intros d o Ho. simpl.
    unfold glist, set_glist. simpl. destruct (decide (g0 = o_ring o)) as [E|Hne].
    - rewrite <- E, lookup_insert_eq. simpl. congruence.
    - rewrite lookup_insert_ne by done. by apply (Hg d). }
  split.
  - intros _. split_and!; [done|apply statuses_later_refl|done|].
    intros g Hne. simpl. rewrite lookup_insert_ne by congruence. done.
  - destruct Hd as (_ & Hv & Hd). split; [by split|]. split; [done|]. exists L'. simpl. rewrite lookup_insert_eq, Hm'. done.
Qed.

Lemma o_ret {A} (a : A) v phi (Q : A -> World * unit -> Prop) :
  (forall s, cleaning v phi s -> Q a s) -> otriple (cleaning v phi) (Ret a) Q.
Proof. apply triple_ret, cleaning_stable. Qed.

(** The slot at the tail is free, and a push takes it without destroying anything. *)
Definition slot_holds (i : nat) (P : Item -> Prop) (L : GarbageList) : Prop :=
  exists it, items_ L !! i = Some it /\ P it.
Definition slot_at (t n : Z) : nat := Z.to_nat (u64 t .& u64 (n - 1)).
Definition slot_free (L : GarbageList) : Prop :=
  slot_holds (slot_at (tail_ L) (item_count_ L)) (fun it => removal_epoch it = 0) L.

Lemma o_item_load {X} i (f : Item -> X) v P :
  otriple (cleaning v (slot_holds i P)) (item_load g0 i f)
    (fun x s => (exists it, P it /\ x = f it) /\ cleaning v (slot_holds i P) s).
Proof.
  unfold item_load. eapply triple_bind; [done|apply (o_ring_act _ v (slot_holds i P)
    (fun x L => (exists it, P it /\ x = Some (f it)) /\ slot_holds i P L))|].
  - intros w L HL (it & Hit & HP'). exists (Some (f it)), L. unfold glist. rewrite HL. simpl. rewrite Hit.
    split_and!; [|done|by exists it|by exists it]. f_equal. unfold set_glist. rewrite insert_id by done. by destruct w.
  - intros x. cbv beta. apply (triple_conseq _ _ _ (fun s => (exists it, P it /\ x = Some (f it)) /\ cleaning v (slot_holds i P) s)
      _ _ (fun x s => (exists it, P it /\ x = f it) /\ cleaning v (slot_holds i P) s));
      [|intros s [Hd [Hs (L & HL & Hm & Hit & HL')]]; split; [done|]; split; [done|]; split; [done|by exists L]|done].
    intros s [(it & HP' & ->) Hs]. revert s Hs. apply (o_ret (f it)). intros s Hs. split; [by exists it|done].
Qed.

Lemma o_item_store i (f : Item -> Item) v P P' :
  (forall it, P it -> P' (f it)) ->
  otriple (cleaning v (slot_holds i P)) (item_store g0 i f) (fun _ => cleaning v (slot_holds i P')).
Proof.
  intros Hf. unfold item_store, item_rmw. eapply triple_bind; [done|apply (o_ring_act _ v (slot_holds i P)
    (fun x L => x = Some tt /\ slot_holds i P' L))|].
  - intros w L HL (it & Hit & HP'). eexists (Some tt), _. unfold glist. rewrite HL. simpl. rewrite Hit.
    split_and!; [done|done|done|]. exists (f it). split; [|by apply Hf]. simpl.
    apply list_lookup_insert_eq. by eapply lookup_lt_Some.
  - intros x. cbv beta. apply (triple_conseq _ _ _ (fun s => x = Some tt /\ cleaning v (slot_holds i P') s)
      _ _ (fun _ => cleaning v (slot_holds i P')));
      [|intros s [Hd [Hs (L & HL & Hm & Hit & HL')]]; split; [done|]; split; [done|]; split; [done|by exists L]|done].
    intros s [-> Hs]. revert s Hs. by apply (o_ret tt).
Qed.

Lemma o_populate i v removed cb ctx ep :
  otriple (cleaning v (slot_holds i (fun _ => True))) (populate g0 i removed cb ctx ep)
    (fun _ => cleaning v (slot_holds i (fun _ => True))).
Proof.
  unfold populate. do 3 (eapply triple_bind; [done|by apply (o_item_store _ _ _ _ (fun _ => True))|]; intros ?; cbv beta).
  by apply o_item_store.
Qed.

(** Reading the tail and advancing it. *)
Lemma o_tail v :
  otriple (cleaning v slot_free)
    (act (fun w => let t := tail_ (glist w g0) in
                   (t, set_glist g0 (set_tail (signed 64 (t + 1)) (glist w g0)) w)))
    (fun t => cleaning v (fun L => slot_holds (slot_at t (item_count_ L)) (fun it => removal_epoch it = 0) L)).
Proof.
  apply o_ring_act. intros w L HL Hfree. eexists _, _. unfold glist. rewrite HL. simpl. done.
Qed.

Lemma o_item_count v t :
  otriple (cleaning v (fun L => slot_holds (slot_at t (item_count_ L)) (fun it => removal_epoch it = 0) L))
    (gl_read g0 item_count_)
    (fun n => cleaning v (slot_holds (slot_at t n) (fun it => removal_epoch it = 0))).
Proof.
  apply o_ring_act. intros w L HL Hfree. exists (item_count_ L), L. unfold glist. rewrite HL. simpl.
  split_and!; [|done..]. f_equal. unfold set_glist. rewrite insert_id by done. by destruct w.
Qed.

Lemma d_roll_over i n : dtriple ok (roll_over m i n) (fun _ => ok).
Proof.
  unfold roll_over. destruct (_ =? 0); [apply d_BumpCurrentEpoch|by apply d_ret; auto].
Qed.

(** Filling a free slot: it has no occupant to reclaim. *)
Lemma o_fill i removal v :
  otriple (cleaning v (slot_holds i (fun it => removal_epoch it = 0)))
    (check (negb (0 =? invalid_epoch)) "invalid priorItemEpoch" ;;;
     item_store g0 i (set_removal_epoch invalid_epoch) ;;;
     let! ok := reclaim destroy g0 m i 0 in
     if ok then populate g0 i d0 FreeDescriptor_ptr 0 removal ;;; Ret (inr Status_OK)
     else Ret (inl tt))
    (fun r s => match r : unit + Status with inl _ => False | inr st => Status_ok st = true /\ cleaning v (fun _ => True) s end).
Proof.
  change (check (negb (0 =? invalid_epoch)) "invalid priorItemEpoch") with (Ret tt : prog World unit).
  cbn [bind]. eapply triple_bind; [done|by apply (o_item_store _ _ _ _ (fun _ => True))|]. intros ?. cbv beta.
  change (reclaim destroy g0 m i 0) with (Ret true : prog World bool). cbn [bind].
  eapply triple_bind; [done|apply o_populate|]. intros ?. cbv beta.
  apply o_ret. intros s Hs. split; [done|]. by eapply cleaning_mono.
Qed.

Lemma o_try v removal :
  otriple (cleaning v slot_free) (GarbageListUnsafe_try destroy g0 m removal d0 FreeDescriptor_ptr 0)
    (fun r s => match r with inl _ => False | inr st => Status_ok st = true /\ cleaning v (fun _ => True) s end).
Proof.
  unfold GarbageListUnsafe_try. eapply triple_bind; [done|apply o_tail|]. intros t. cbv beta.
  eapply triple_bind; [done|apply o_item_count|]. intros n. cbv beta zeta. fold (slot_at t n).
  apply (o_then ok _ _ _ _ (fun _ => ok) (fun _ => True)); [by apply cleaning_ok|apply d_roll_over|done|]. intros ? _.
  eapply triple_bind; [done|apply o_item_load|]. intros prior. cbv beta.
  intros s [(it & Hit & ->) Hs]. rewrite Hit. exact (o_fill _ removal v s Hs).
Qed.

Lemma o_push v :
  otriple (cleaning v slot_free) (GarbageListUnsafe_Push destroy fuel g0 d0 FreeDescriptor_ptr 0)
    (fun st s => Status_ok st = true /\ cleaning v (fun _ => True) s).
Proof.
  unfold GarbageListUnsafe_Push. pose proof (d_gl_epoch d0 o0 Ho0) as Hge. rewrite Hg0 in Hge.
  apply (o_then ok _ _ _ _ _ (fun r => r = m) _ (cleaning_ok v _) Hge); [by intros ? ? [? _]|]. intros ? ->.
  apply (o_then ok _ _ _ _ (fun _ => ok) (fun _ => True) _ (cleaning_ok v _)); [|done|intros removal _].
  { apply (d_erd _ ok (fun _ => ok)); auto. }
  apply (triple_loop _ _ _ (own_R_refl _ _ _ _ _ _ _ _) (fun _ : unit => cleaning v slot_free)).
  - intros st. apply both_stable; [apply fact_stable|auto].
  - intros []. eapply triple_conseq; [apply o_try|done|]. by intros [[]|st] s.
Qed.

(** The owner is answered with the decision, and its descriptor goes to its ring. *)
Lemma o_Cleanup v :
  otriple (cleaning v slot_free) (Cleanup me fuel d0) (fun b s => b = (v =? kStatusSucceeded) /\ decided d0 v s).
Proof.
  assert (forall s, cleaning v slot_free s -> v = kStatusSucceeded \/ v = kStatusFailed) as Hout by (by intros s [(_ & _ & ?) _]).
  intros s Hs. pose proof (Hout s Hs) as Hv. revert s Hs. clear Hout.
  assert (forall B (k : Z -> prog World B) Q', otriple (cleaning v slot_free) (k v) Q' ->
    otriple (cleaning v slot_free) (bind (ld (status_ d0)) k) Q') as Hread.
  { intros B k Q' Hk. apply (o_then (decided d0 v) _ _ _ _ (fun r s => r = v /\ decided d0 v s) (fun r => r = v));
      [by intros s [? _]| |by intros ? ? [? _]|by intros ? ->].
    apply d_const; [by eapply decided_stable|]. intros s (Hs & Hst & _). done. }
  unfold Cleanup. apply Hread.
  eapply triple_bind; [done|apply o_check; by destruct Hv as [-> | ->]|]. intros ?. cbv beta. apply Hread.
  eapply triple_bind; [done|apply o_check; by destruct Hv as [-> | ->]|]. intros ?. cbv beta. apply Hread. cbv zeta.
  apply (o_then ok _ _ _ _ (fun _ => ok) (fun _ => True) _ (cleaning_ok v _)); [apply d_metric|done|intros ? _].
  pose proof (d_partition_garbage d0 o0 Ho0) as Hpg. rewrite Hg0 in Hpg.
  apply (o_then ok _ _ _ _ _ (fun g => g = g0) _ (cleaning_ok v _) Hpg); [by intros ? ? [? _]|]. intros ? ->.
  eapply triple_bind; [done|apply o_push|]. intros st. cbv beta.
  intros s [Hst Hs]. rewrite Hst. revert s Hs. cbn [check bind].
  change (otriple (cleaning v (fun _ => True)) (dcheck_protected me fuel d0 ;;; Ret (v =? kStatusSucceeded))
    (fun b s => b = (v =? kStatusSucceeded) /\ decided d0 v s)).
  apply (o_then ok _ _ _ _ (fun _ => ok) (fun _ => True) _ (cleaning_ok v _)); [by apply (d_protected d0 o0)|done|intros ? _].
  apply o_ret. by intros s [Hs _].
Qed.

(** Before the operation starts, and while it goes on. *)
Definition fresh (s : World * unit) : Prop :=
  ring slot_free s /\ words_of s !! status_ d0 = Some kStatusFinished.
Definition going (s : World * unit) : Prop := started d0 s /\ ring slot_free s.

Lemma fresh_stable : dstable fresh.
Proof.
  intros s s' [Hr Hf] HR. split; [by eapply ring_stable|]. destruct Hr as [Hs _].
  destruct (HR Hs) as (_ & _ & H). destruct (H (mk_is_Some _ _ Ho0)). auto.
Qed.

Lemma going_stable : dstable going.
Proof. apply both_stable; [by eapply started_stable|apply ring_stable]. Qed.

Lemma going_drive s s' : going s -> drive_G D m sz running slot init s s' -> going s'.
Proof. intros [H1 H2] HG. split; [by eapply later_started|by eapply ring_drive]. Qed.

Lemma o_set_undecided : otriple fresh (st (status_ d0) kStatusUndecided) (fun _ => going).
Proof.
  intros s Hs. simpl. intros s' HR. pose proof (fresh_stable _ _ Hs HR) as [[Hok (L & HL & Hm & Hfree)] Hf].
  destruct s' as [w []]. unfold words_of in *. simpl in *. rewrite Hf. simpl.
  destruct (status_write D Hpl (cells (client w)) d0 o0 kStatusFinished kStatusUndecided) as (Hc & Hl & Hj);
    [apply Hok|done|done|done|unfold status_fine; tauto|right; by left|].
  assert (wok (set_client (set_cells (<[status_ d0 := kStatusUndecided]> (cells (client w))) (client w)) w)) as Hwok.
  { destruct Hok as (_ & He & Hep & Hg & Hx). apply (explained_later D init _ _ Hx Hl) in Hj.
    destruct w as [? ? []]. by split_and!. }
  split.
  - intros _. split_and!; [done|by destruct w as [? ? []]| |by destruct w].
    intros d o Ho Hne H. destruct w as [l e [c pc mm]]. unfold words_of in *. simpl in *.
    rewrite lookup_insert_ne; [done|]. unfold status_. lia.
  - intros t Ht. eapply going_stable; [|exact Ht]. split.
    + split; [done|]. exists kStatusUndecided. unfold words_of. destruct w as [? ? []]. simpl.
      by rewrite lookup_insert_eq.
    + split; [done|]. exists L. by destruct w as [? ? []].
Qed.

Lemma o_start : otriple fresh (start_MwCAS d0) (fun _ => going).
Proof.
  unfold start_MwCAS.
  apply (triple_conseq _ _ _ (fun s => fresh s /\ fresh s) _ _ (fun _ => going)); [|auto|done].
  apply (d_then _ (drive_own D m sz running slot init d0 g0) fresh fresh_stable) with (Q := fun r s => r = kStatusFinished /\ fresh s).
  - intros s s' [Hr Hf] HG. split; [by eapply ring_drive|]. destruct Hr as [Hs _].
    destruct (HG Hs) as (_ & (_ & _ & _ & Hn) & _). by eapply Hn.
  - apply d_const; [apply fresh_stable|]. intros s [[Hs _] Hf]. done.
  - intros r s [[-> Hs] _]. revert s Hs. apply o_set_undecided.
Qed.

(** The whole operation: the owner is answered with the decision. *)
Lemma o_VolatileMwCAS depth :
  otriple going (VolatileMwCAS me fuel depth d0 0)
    (fun b => decided d0 (if b then kStatusSucceeded else kStatusFailed)).
Proof.
  destruct depth as [|depth]; [by intros s _|]. rewrite VolatileMwCAS_unfold. cbn [Z.ltb Z.eqb Z.compare].
  assert (forall v, otriple (cleaning v slot_free) (Cleanup me fuel d0)
    (fun b => decided d0 (if b then kStatusSucceeded else kStatusFailed))) as Hclean.
  { intros v. eapply triple_conseq; [apply o_Cleanup|done|]. intros b s [-> Hd].
    pose proof Hd as (_ & _ & Ho). destruct Ho as [-> | ->]; exact Hd. }
  apply (triple_conseq _ _ _ (fun s => ok s /\ going s)
    _ _ (fun b : bool => decided d0 (if b then kStatusSucceeded else kStatusFailed))); [|by intros s Hs; split; [apply Hs|]|done].
  apply (d_then _ (drive_own D m sz running slot init d0 g0) going going_stable going_drive _ _ ok (fun _ => ok));
    [by apply (d_protected d0 o0)|]. intros ?. cbv beta.
  apply (triple_conseq _ _ _ (fun s => started d0 s /\ ring slot_free s)
    _ _ (fun b : bool => decided d0 (if b then kStatusSucceeded else kStatusFailed))); [|by intros s [_ ?]|done].
  apply (d_then _ (drive_own D m sz running slot init d0 g0) (ring slot_free) (ring_stable _) (ring_drive _) _ _
    (started d0) (fun v s => (v <> kStatusUndecided -> decided d0 v s) /\ started d0 s)).
  - apply d_ld; [by eapply started_stable| |].
    + intros v s s' [H1 H2] HR. split; [|by eapply started_stable]. intros Hne. eapply decided_stable; eauto.
    + intros s [Hs (v & Hv & Hne)]. split; [done|]. exists v. split; [done|]. split; [|split; [done|by exists v]].
      intros Hnu. split; [done|]. split; [done|]. destruct (ok_status s d0 o0 Hs Ho0) as (v' & Hv' & Hf).
      rewrite Hv in Hv'. injection Hv' as <-. destruct Hf as [?|[?|Hf]]; done.
  - intros v. cbv beta. destruct (Z.eqb_spec v kStatusUndecided) as [->|Hne]; cbn [negb].
    + apply (triple_conseq _ _ _ (fun s => started d0 s /\ ring slot_free s)
        _ _ (fun b : bool => decided d0 (if b then kStatusSucceeded else kStatusFailed))); [|by intros s [[_ ?] ?]|done].
      apply (phases_then _ (drive_own D m sz running slot init d0 g0) (ring slot_free) (ring_stable _) (ring_drive _)
        _ d0 o0 (fun _ => Cleanup me fuel d0)); [|done|exact Hclean].
      intros d' o' Ho'. eapply triple_bind; [done|apply (d_VolatileMwCAS depth d' o'); [done|lia]|].
      intros ?. by apply d_ret; auto.
    + apply (triple_conseq _ _ _ (cleaning v slot_free)
        _ _ (fun b : bool => decided d0 (if b then kStatusSucceeded else kStatusFailed))); [apply Hclean| |done].
      intros s [[Hd _] Hr]. split; [by apply Hd|done].
Qed.

Lemma o_MwCAS depth :
  otriple fresh (MwCAS me fuel false depth d0)
    (fun b => decided d0 (if b then kStatusSucceeded else kStatusFailed)).
Proof.
  unfold MwCAS. eapply triple_bind; [done|apply o_start|]. intros ?. apply o_VolatileMwCAS.
Qed.
End drive.
