(* ===== verification/Concurrent.v ===== *)
(** * The volatile multi-word CAS under any schedule (src/mwcas/mwcas.cc)

    Any number of threads run operations that share words and help each other, and read
    words.  What a word shows moves only as successful operations ask; every owner is
    answered with the one decision of its operation; and no check of the code fails. *)
From Stdlib Require Import ZArith Lia.
From stdpp Require Import base list gmap strings relations.
From S2P Require Import Prelude Bytes Prog Status Library Epoch Garbage Metrics Memory Descriptor MwCAS Target Shared Helping.
#[local] Open Scope Z_scope.
#[local] Open Scope prog_scope.
#[local] Open Scope machine_scope.

(** ** Any number of owners and readers, under any schedule *)

(** A thread and what it does: run the operation of a descriptor, or read a word. *)
Inductive task := Owner (me d : Z) | Reader (me a : Z).
Definition task_id (k : task) : Z := match k with Owner me _ => me | Reader me _ => me end.

Section pool.
Context {HP : Platform} (D : gmap Z Op) (fuel depth : nat).

Definition task_prog (k : task) : prog World (bool + Z) :=
  match k with
  | Owner me d => let! b := MwCAS me fuel false depth d in Ret (inl b)
  | Reader me a => let! v := GetValueProtectedVolatile me fuel depth a in Ret (inr v)
  end.

Context (ks : list task) (m : Z) (sz : nat) (slot : Z -> nat) (w0 : World).

(** Descriptors filled in and not started, each with one owner and in a partition of its
    own; every thread protected; values in the words; no statistics. *)
Record ready : Prop := {
  rd_placed : placed D;
  rd_owner j k me d : ks !! j = Some k -> k = Owner me d -> is_Some (D !! d);
  rd_reader j k me a : ks !! j = Some k -> k = Reader me a -> target D a;
  rd_apart i j me me' d d' o o' : ks !! i = Some (Owner me d) -> ks !! j = Some (Owner me' d') -> i <> j ->
    D !! d = Some o -> D !! d' = Some o' -> d <> d' /\ o_ring o <> o_ring o';
  rd_frame d o : D !! d = Some o -> frame d (o_part o) (o_ring o) (o_words o) (cells (client w0));
  rd_status d o : D !! d = Some o -> cells (client w0) !! status_ d = Some kStatusFinished;
  rd_values a : target D a -> exists v, cells (client w0) !! a = Some v /\ plain v;
  rd_rings d o : D !! d = Some o ->
    exists L, lists w0 !! o_ring o = Some L /\ gl_epoch_manager_ L = Some m /\ slot_free L;
  rd_protected k : k ∈ ks ->
    exists en, holds (task_id k) m sz (slot (task_id k)) en (epochs w0) /\ protected_epoch en <> 0;
  rd_metrics : enabled (metrics (client w0)) = false
}.
Context (Hready : ready).

Definition initially (a : Z) : Z := default 0 (cells (client w0) !! a).
Definition running (t : Z) : Prop := exists k, k ∈ ks /\ task_id k = t.
Definition ring_of (d : Z) : Z := from_option o_ring 0 (D !! d).

Definition task_R (j : nat) : World * unit -> World * unit -> Prop :=
  match ks !! j with
  | Some (Owner _ d) => own_R D m sz running slot initially d (ring_of d)
  | _ => own_R D m sz running slot initially 0 0
  end.
Definition task_G (j : nat) : World * unit -> World * unit -> Prop :=
  match ks !! j with
  | Some (Owner _ d) => own_G D m sz running slot initially d (ring_of d)
  | Some (Reader _ _) => drive_G D m sz running slot initially
  | None => eq
  end.

(** What a thread is answered. *)
Definition task_post (j : nat) (r : bool + Z) (s : World * unit) : Prop :=
  match ks !! j, r with
  | Some (Owner _ d), inl b => words_of s !! status_ d = Some (if b then kStatusSucceeded else kStatusFailed)
  | Some (Reader _ a), inr v => rtc (committed D (words_of s) a) (initially a) v
  | _, _ => False
  end.

Lemma null_not_owned : ~ is_Some (D !! 0).
Proof. intros [o Ho]. destruct (pl_own D (rd_placed Hready) 0 o Ho) as [H _ _ _ _ _]. lia. Qed.

Lemma task_R_refl j : reflexive _ (task_R j).
Proof. unfold task_R. destruct (ks !! j) as [[]|]; apply own_R_refl. Qed.

Lemma task_G_R i j s s' : i <> j -> task_G i s s' -> task_R j s s'.
Proof.
  intros Hne. unfold task_G, task_R. destruct (ks !! i) as [[me d|me a]|] eqn:Ei.
  - destruct (ks !! j) as [[me' d'|me' a']|] eqn:Ej; intros HG.
    + destruct (rd_owner Hready i _ me d Ei eq_refl) as [o Ho], (rd_owner Hready j _ me' d' Ej eq_refl) as [o' Ho'].
      destruct (rd_apart Hready i j me me' d d' o o') as [Hd Hg]; [done..|].
      eapply own_G_R; [exact Hd| |exact HG]. unfold ring_of. by rewrite Ho, Ho'.
    + intros Hw. destruct (HG Hw) as (Hw' & Hl & _). split_and!; [done..|]. intros H. by destruct null_not_owned.
    + intros Hw. destruct (HG Hw) as (Hw' & Hl & _). split_and!; [done..|]. intros H. by destruct null_not_owned.
  - intros HG. destruct (ks !! j) as [[me' d'|me' a']|]; by apply drive_R.
  - intros <-. destruct (ks !! j) as [[me' d'|me' a']|]; apply own_R_refl.
Qed.

Lemma ready_cells_ok : cells_ok D (cells (client w0)).
Proof.
  split_and!; [apply (rd_frame Hready)| |].
  - intros d o Ho. exists kStatusFinished. split; [by apply (rd_status Hready d o)|by left].
  - intros a Ha. destruct (rd_values Hready a Ha) as (v & Hv & Hp). exists v. split; [done|by left].
Qed.

Lemma ready_ok : ok D m sz running slot initially (w0, tt).
Proof.
  split_and!; [apply ready_cells_ok|apply (rd_metrics Hready)| | |].
  - intros t (k & Hk & <-). by apply (rd_protected Hready).
  - intros d o Ho. destruct (rd_rings Hready d o Ho) as (L & HL & Hm & _). simpl. unfold glist. by rewrite HL.
  - intros a Ha. simpl. destruct (rd_values Hready a Ha) as (v & Hv & Hp).
    rewrite (shown_plain D _ a v Hv Hp). unfold initially. by rewrite Hv.
Qed.

Lemma task_rg j k : ks !! j = Some k ->
  rg (task_R j) (task_G j) (observe no_ghost (task_prog k)) (task_post j) (w0, tt).
Proof.
  intros Hk. assert (running (task_id k)) as Hrun by (exists k; split; [by eapply list_elem_of_lookup_2|done]).
  unfold task_R, task_G, task_post. rewrite Hk. destruct k as [me d|me a]; unfold task_prog.
  - destruct (rd_owner Hready j _ me d Hk eq_refl) as [o Ho].
    assert (o_ring o = ring_of d) as Hring by (unfold ring_of; by rewrite Ho).
    apply observe_bind. eapply rg_bind; [apply own_R_refl| |].
    + apply (o_MwCAS D (rd_placed Hready) m sz running slot initially me d (ring_of d) Hrun fuel o Ho Hring depth).
      split; [split; [apply ready_ok|]|by apply (rd_status Hready d o)].
      rewrite <- Hring. apply (rd_rings Hready d o Ho).
    + intros b s Hs s' HR. eapply (decided_stable D m sz running slot initially) in HR as (_ & Hv & _); done.
  - pose proof (rd_reader Hready j _ me a Hk eq_refl) as Ha. apply observe_bind. eapply rg_bind; [apply own_R_refl| |].
    + apply (d_GetValue D (rd_placed Hready) m sz running slot initially me 0 0 Hrun fuel depth a Ha). apply ready_ok.
    + intros v s Hs s' HR. eapply seen_stable in HR as [_ Hv]; done.
Qed.

(** The interleaved execution, with and without the (empty) auxiliary state. *)
Lemma tasks_sound sched :
  let c := exec sched (task_prog <$> ks, w0) in
  (forall j k p, ks !! j = Some k -> c.1 !! j = Some p ->
     rg (task_R j) (task_G j) (observe no_ghost p) (task_post j) (c.2, tt)) /\
  ok D m sz running slot initially (c.2, tt).
Proof.
  destruct (exec_rg task_R task_G) with (Q := task_post) (sched := sched)
    (ts := observe no_ghost <$> (task_prog <$> ks)) (s := (w0, tt)) as [Hp Hs].
  - apply task_R_refl.
  - intros j. unfold task_R. destruct (ks !! j) as [[]|]; apply own_R_trans.
  - apply task_G_R.
  - intros j p. rewrite !list_lookup_fmap. destruct (ks !! j) as [k|] eqn:Ek; intros [= <-]. by apply task_rg.
  - destruct (exec_observe no_ghost sched (task_prog <$> ks) (w0, tt)) as [E1 E2].
    assert (ok D m sz running slot initially (exec sched (observe no_ghost <$> (task_prog <$> ks), (w0, tt))).2) as Hok.
    { clear Hp E1 E2. pose proof ready_ok as H0. induction Hs as [s|s s' s'' [i Hst] _ IH]; [done|].
      apply IH. unfold task_G in Hst. destruct (ks !! i) as [[me d|me a]|]; [apply (Hst H0)|apply (Hst H0)|by subst]. }
    destruct (exec sched (observe no_ghost <$> (task_prog <$> ks), (w0, tt))) as [ts [w' []]]. simpl in *. subst w'.
    destruct (exec sched (task_prog <$> ks, w0)) as [ps w']. simpl in *. split; [|done].
    intros j k p _ Hj. apply (Hp j). rewrite E1, list_lookup_fmap, Hj. done.
Qed.
End pool.

(** C2.  Under every schedule of any number of owners, each running its own volatile
    operation and helping whatever it meets, and of readers: no thread fails a check or
    touches unmapped memory; an owner is answered true exactly when its operation has
    succeeded; a reader gets the first value of the word or one that successful
    operations led to, and so does what every word shows at any moment. *)
Theorem MwCAS_concurrent {HP : Platform} D fuel depth ks m sz slot w0 sched :
  ready D ks m sz slot w0 ->
  let c := exec sched (task_prog fuel depth <$> ks, w0) in
  let now := cells (client c.2) in
  (forall j k p (r : result (bool + Z)), ks !! j = Some k -> c.1 !! j = Some p -> outcome p = Some r ->
     match k, r with
     | Owner _ d, Done (inl b) => now !! status_ d = Some (if b then kStatusSucceeded else kStatusFailed)
     | Reader _ a, Done (inr v) => rtc (committed D now a) (initially w0 a) v
     | _, NoFuel => True
     | _, _ => False
     end) /\
  (forall a, target D a -> rtc (committed D now a) (initially w0 a) (shown D now a)).
Proof.
  intros Hr c now. destruct (tasks_sound D fuel depth ks m sz slot w0 Hr sched) as [Hp Hok].
  split; [|apply Hok]. intros j k p r Hk Hj Hout. specialize (Hp j k p Hk Hj). unfold task_post in Hp. rewrite Hk in Hp.
  assert (outcome (observe no_ghost p) = Some r) as Ho by (by destruct p).
  pose proof (rg_outcome _ (task_G D ks m sz slot w0 j) (task_R_refl D ks m sz slot w0 j) _ _ _ r Hp Ho) as H.
  destruct k, r as [[]|msg|]; exact H || done.
Qed.
