(* ===== verification/Scenarios.v ===== *)
(** * Schedules and crashes (src/mwcas/mwcas.cc, mwcas.h)

    Concrete executions of the modelled code under the interleaving semantics of
    [Prog] and under a crash: what the conditional CAS does not prevent, and what
    the flushes do not cover. *)
From Stdlib Require Import ZArith Lia.
From stdpp Require Import base list gmap strings.
From S2P Require Import Prelude Bytes Prog Status Library Epoch Garbage Metrics Memory Descriptor MwCAS Target Pool Shared Helping Concurrent.
#[local] Open Scope Z_scope.
#[local] Open Scope prog_scope.
#[local] Open Scope machine_scope.

(** ** A conditional CAS that comes late *)

(** Threads 5, 6 and 7 are protected; the first two own descriptors 1024 and 2048. *)
Definition three_protected : EpochWorld :=
  foldl (fun w t => (run (Protect t 1 100) w).2)
    (initialized 100 (MkEpochWorld ∅ (MkThreads ∅ ∅))) [5; 6; 7].
Definition free_ring : GarbageList := MkGarbageList (Some 100) 1 4 (replicate 4 Item_new).

(** [MwCAS (A1 [1 - 2], A2 [3 - 4])], and the one that reverses it, prepared. *)
Definition forth : list wrec := [MkW 8192 1 2 kRecycleNever; MkW 8200 3 4 kRecycleNever].
Definition back : list wrec := [MkW 8192 2 1 kRecycleNever; MkW 8200 4 3 kRecycleNever].
Definition aba_world : World :=
  MkGW (list_to_map [(16, free_ring); (17, free_ring)]) three_protected
    (MkMem (sample_cells 1024 4096 16 kStatusFinished forth ∪ sample_cells 2048 5120 17 kStatusFinished back)
       ∅ metrics_off).

(** The owner of the first operation; a thread that reads A1, helping if it must, and
    then reverses the operation; and a thread that only reads A1. *)
Definition owner : prog World bool := MwCAS 5 3 false 1 1024.
Definition reverser : prog World bool :=
  GetValueProtectedVolatile 6 3 1 8192 ;;; MwCAS 6 3 false 1 2048.
Definition reader : prog World bool := GetValueProtectedVolatile 7 3 1 8192 ;;; Ret true.

(** The owner stops before its conditional CAS on A2; the reader helps and stops at the
    same place; the owner installs its word descriptor, reads Undecided and stops;
    the reverser completes the operation and reverses it. *)
Definition aba_prefix : list nat :=
  replicate 16 0%nat ++ replicate 18 2%nat ++ replicate 6 0%nat ++ replicate 400 1%nat.
(** The reader installs the same word descriptor again; the owner replaces it. *)
Definition aba_rest : list nat :=
  replicate 1 2%nat ++ replicate 400 0%nat ++ replicate 400 2%nat.

(** C12.  An interleaving of three protected threads in which two operations, A1 and A2 from
    (1,3) to (2,4) and back, both report success and leave (1,3), after which the first
    owner resumes its conditional CAS and finally A2 holds 4 while A1 holds 1. *)
Theorem CondCAS_reused_word_descriptor :
  let c := exec aba_prefix ([owner; reverser; reader], aba_world) in
  let c' := exec aba_rest c in
  (cells (client c.2) !! 8192 = Some 1 /\ cells (client c.2) !! 8200 = Some 3 /\
   cells (client c.2) !! status_ 1024 = Some kStatusSucceeded /\
   cells (client c.2) !! status_ 2048 = Some kStatusSucceeded) /\
  cells (client c'.2) !! 8192 = Some 1 /\ cells (client c'.2) !! 8200 = Some 4 /\
  (outcome <$> c'.1) = [Some (Done true); Some (Done true); Some (Done true)].
Proof. vm_compute. repeat split. Qed.

(** ** A thread that stops in the middle *)

(** Two operations that share the word A2: the second expects [x] there.  At the start
    A1, A2 and A3 hold 1, 3 and 5. *)
Definition A_words : list Z := [8192; 8200; 8208].
Definition first_words : list wrec := [MkW 8192 1 2 kRecycleNever; MkW 8200 3 4 kRecycleNever].
Definition second_words (x : Z) : list wrec := [MkW 8208 5 7 kRecycleNever; MkW 8200 x 6 kRecycleNever].
Definition shared_cells (x : Z) : gmap Z Z :=
  <[8200 := 3]> (sample_cells 1024 4096 16 kStatusFinished first_words ∪
                 sample_cells 2048 5120 17 kStatusFinished (second_words x)).
Definition shared_world (x : Z) : World :=
  MkGW (list_to_map [(16, free_ring); (17, free_ring)]) three_protected (MkMem (shared_cells x) ∅ metrics_off).
Definition two_owners (pm : bool) : list (prog World bool) := [MwCAS 5 100 pm 2 1024; MwCAS 6 100 pm 2 2048].

(** The two operations, their owners and a reader of the shared word. *)
Definition shared_ops : gmap Z Op :=
  <[1024 := MkOp 4096 16 first_words]> {[2048 := MkOp 5120 17 (second_words 4)]}.
Definition shared_tasks : list task := [Owner 5 1024; Owner 6 2048; Reader 7 8200].
Definition shared_slot (t : Z) : nat :=
  match tls_get (threads three_protected) (t, tls_entry) with tls_ptr_entry _ i => i | _ => 0%nat end.

Lemma shared_op d o : shared_ops !! d = Some o ->
  (d = 1024 /\ o = MkOp 4096 16 first_words) \/ (d = 2048 /\ o = MkOp 5120 17 (second_words 4)).
Proof. unfold shared_ops. rewrite lookup_insert_Some, lookup_singleton_Some. naive_solver. Qed.

Lemma shared_target a : target shared_ops a -> a = 8192 \/ a = 8200 \/ a = 8208.
Proof.
  intros (_ & d & i & x & (o & [[-> ->]|[-> ->]]%shared_op & Hx) & <-);
    destruct i as [|[|i]]; simplify_eq/=; auto.
Qed.

Lemma shared_layout d part ws :
  (d, part, ws) = (1024, 4096, first_words) \/ (d, part, ws) = (2048, 5120, second_words 4) -> layout_ok d part ws.
Proof.
  intros [[= -> -> ->]|[= -> -> ->]]; split; try (unfold garbage_list; simpl; lia);
    try (intros x [->|[->|[]%elem_of_nil]%elem_of_cons]%elem_of_cons; unfold plain, fits, garbage_list; simpl; lia);
    apply (bool_decide_unpack _); by vm_compute.
Qed.

Lemma shared_placed : placed shared_ops.
Proof.
  split.
  - intros d o [[-> ->]|[-> ->]]%shared_op; apply shared_layout; auto.
  - intros d o d' o' [[-> ->]|[-> ->]]%shared_op [[-> ->]|[-> ->]]%shared_op Hne; lia.
  - intros a d o [->|[->| ->]]%shared_target [[-> ->]|[-> ->]]%shared_op; unfold garbage_list; simpl; lia.
  - intros d o d' o' [[-> ->]|[-> ->]]%shared_op [[-> ->]|[-> ->]]%shared_op; unfold garbage_list; simpl; lia.
Qed.

Lemma shared_ready : ready shared_ops shared_tasks 100 128 shared_slot (shared_world 4).
Proof.
  split.
  - apply shared_placed.
  - intros [|[|[|j]]] k me d Hk E; simplify_eq/=; vm_compute; eauto.
  - intros [|[|[|j]]] k me a Hk E; simplify_eq/=. split; [done|].
    exists 1024, 1%nat, (MkW 8200 3 4 kRecycleNever). split; [|done]. eexists. by split.
  - intros [|[|[|i]]] [|[|[|j]]] me me' d d' o o' Hi Hj Hne; simplify_eq/=;
      intros [[? ->]|[? ->]]%shared_op [[? ->]|[? ->]]%shared_op; simplify_eq/=; done.
  - intros d o [[-> ->]|[-> ->]]%shared_op; (split; [|by vm_compute]);
      intros [|[|i]] x Hx; simplify_eq/=; by vm_compute.
  - intros d o [[-> ->]|[-> ->]]%shared_op; by vm_compute.
  - intros a [->|[->| ->]]%shared_target; eexists; (split; [vm_compute; reflexivity|unfold plain, fits; lia]).
  - intros d o [[-> ->]|[-> ->]]%shared_op; exists free_ring; (split; [by vm_compute|split; [done|]]);
      exists Item_new; by vm_compute.
  - intros k [->|[->|[->|[]%elem_of_nil]%elem_of_cons]%elem_of_cons]%elem_of_cons;
      eexists; (split; [split; [split|split; [vm_compute; reflexivity|split]]|]); by vm_compute.
  - by vm_compute.
Qed.

(** The first owner stops after 23 steps, having published a conditional pointer; the reader
    and the second owner go to their ends, helping; then the first owner does. *)
Definition shared_sched : list nat :=
  replicate 23 0%nat ++ replicate 600 2%nat ++ replicate 600 1%nat ++ replicate 600 0%nat.

Lemma MwCAS_concurrent_witness :
  let c := exec shared_sched (task_prog 100 2 <$> shared_tasks, shared_world 4) in
  let now := cells (client c.2) in
  (outcome <$> c.1) = [Some (Done (inl true)); Some (Done (inl true)); Some (Done (inr 4))] /\
  (now !! status_ 1024 = Some kStatusSucceeded /\ now !! status_ 2048 = Some kStatusSucceeded) /\
  (forall a, target shared_ops a ->
     rtc (committed shared_ops now a) (initially (shared_world 4) a) (shown shared_ops now a)).
Proof.
  split; [vm_compute; reflexivity|]. split; [vm_compute; split; reflexivity|].
  exact (proj2 (MwCAS_concurrent shared_ops 100 2 shared_tasks 100 128 shared_slot (shared_world 4) shared_sched shared_ready)).
Defined.

(** The first owner takes [a] steps; then the second as many as it can use; then the first
    goes on to its end, and the second. *)
Definition paused (pm : bool) (x : Z) (a : nat) : list (prog World bool) * World :=
  exec (replicate a 0%nat) (two_owners pm, shared_world x).
Definition alone (c : list (prog World bool) * World) : list (prog World bool) * World := exec (replicate 500 1%nat) c.
Definition resumed (c : list (prog World bool) * World) : list (prog World bool) * World :=
  exec (replicate 400 0%nat ++ replicate 400 1%nat) c.

(** A2 still points to the first operation, which has been decided. *)
Definition blocked (c : list (prog World bool) * World) : bool :=
  let at_ a := default 0 (cells (client c.2) !! a) in
  IsMwCASDescriptorPtr (at_ 8200) && (CleanPtr (at_ 8200) =? 1024) &&
  negb (at_ (status_ 1024) =? kStatusUndecided).

(** Answers and words after one atomic operation and then another. *)
Definition in_order (ws ws' : list wrec) (c : gmap Z Z) : bool * bool * list (option Z) :=
  let r := atomic_mwcas ws c in
  let r' := atomic_mwcas ws' r.2 in
  (r.1, r'.1, (fun a => r'.2 !! a) <$> A_words).
Definition answered (p : prog World bool) : option bool := match p with Ret b => Some b | _ => None end.
(** The answers of both and the words, if both have ended. *)
Definition ended (c : list (prog World bool) * World) : option (bool * bool * list (option Z)) :=
  match answered <$> c.1 with
  | [Some b1; Some b2] => Some (b1, b2, (fun a => cells (client c.2) !! a) <$> A_words)
  | _ => None
  end.
Definition second_first (r : bool * bool * list (option Z)) : bool * bool * list (option Z) := (r.1.2, r.1.1, r.2).

Definition answers_alone (c : list (prog World bool) * World) : bool :=
  bool_decide (is_Some ((alone c).1 !! 1%nat ≫= answered)).
Definition either_order (x : Z) (c : list (prog World bool) * World) : bool :=
  bool_decide (ended c = Some (in_order first_words (second_words x) (shared_cells x))) ||
  bool_decide (ended c = Some (second_first (in_order (second_words x) first_words (shared_cells x)))).
Definition progress (x : Z) (c : list (prog World bool) * World) : bool :=
  eqb (answers_alone c) (negb (blocked c)) && either_order x (resumed (alone c)).

#[local] Strategy expand [progress answers_alone either_order].

Lemma progress_spec x c : progress x c = true ->
  ((exists b, (alone c).1 !! 1%nat ≫= answered = Some b) <-> blocked c = false) /\
  (ended (resumed (alone c)) = Some (in_order first_words (second_words x) (shared_cells x)) \/
   ended (resumed (alone c)) = Some (second_first (in_order (second_words x) first_words (shared_cells x)))).
Proof.
  unfold progress. intros [Hl Hr]%andb_true_iff. split.
  - apply eqb_prop in Hl. rewrite <- negb_true_iff, <- Hl. unfold answers_alone.
    rewrite bool_decide_eq_true. reflexivity.
  - apply orb_true_iff in Hr as [Hr | Hr]; [left | right]; exact (bool_decide_eq_true_1 _ Hr).
Qed.

(** A thread that has ended stays where it is. *)
Lemma exec_longer n m i (c : list (prog World bool) * World) b :
  (exec (replicate n i) c).1 !! i ≫= answered = Some b -> (n <= m)%nat ->
  exec (replicate m i) c = exec (replicate n i) c.
Proof.
  intros H Hm. replace m with (n + (m - n))%nat by lia. rewrite replicate_add, exec_app.
  apply bind_Some in H as (p & Hp & H). destruct p as [b'| | |]; [|discriminate H..].
  apply exec_ended. eauto.
Qed.

(** The first owner has ended after 230 steps, so that later pauses are one pause. *)
Lemma paused_ended x a : x = 3 \/ x = 4 -> (230 <= a)%nat -> paused false x a = paused false x 230.
Proof.
  intros Hx Ha. apply (exec_longer 230 a 0 _ true); [|exact Ha].
  destruct Hx as [-> | ->]; vm_compute; reflexivity.
Qed.

Lemma progress_everywhere x a : x = 3 \/ x = 4 -> progress x (paused false x a) = true.
Proof.
  intros Hx.
  assert (Hall : forallb (fun b => progress x (paused false x b)) (seq 0 231) = true)
    by (destruct Hx as [-> | ->]; vm_compute; reflexivity).
  assert (Hlt : forall b, (b < 231)%nat -> progress x (paused false x b) = true).
  { intros b Hb. rewrite forallb_forall in Hall. apply Hall, in_seq. lia. }
  destruct (decide (a < 231)%nat) as [H | H]; [exact (Hlt a H)|].
  rewrite (paused_ended x a) by (exact Hx || lia). exact (Hlt 230%nat ltac:(lia)).
Qed.

(** Two concrete volatile operations that share one word.  The owner of the first stops after
    any number of steps: the second completes on its own exactly when it does not find
    the first decided and still installed in the shared word, and once the first owner
    resumes both complete with the answers and final words of one order or the other. *)
Example stopped_owner_helped (after : bool) (a : nat) :
  let x := if after then 4 else 3 in
  let c := paused false x a in
  ((exists b, (alone c).1 !! 1%nat ≫= answered = Some b) <-> blocked c = false) /\
  (ended (resumed (alone c)) = Some (in_order first_words (second_words x) (shared_cells x)) \/
   ended (resumed (alone c)) = Some (second_first (in_order (second_words x) first_words (shared_cells x)))).
Proof.
  intros x c. apply progress_spec, progress_everywhere. destruct after; [right | left]; reflexivity.
Qed.

(** The worlds in which the second operation waits on A2: the first is decided and its
    owner has not swapped it out (volatile); the first is not even decided, and its owner
    has not yet flushed the pointer it installed (persistent).  A2 is the second word of
    the second descriptor, and the first one once [std::sort] has ordered the words. *)
Definition waits (pm : bool) : World := (alone (paused pm 3 (if pm then 26 else 28)%nat)).2.
Definition waiting_install (pm : bool) (fuel : nat) : prog World Z :=
  if pm
  then Persistent_install 6 fuel (fun other => PersistentMwCAS 6 fuel 1 other 1 ;;; Ret tt) true 2048 0 kStatusSucceeded
  else Volatile_install 6 fuel (fun other => VolatileMwCAS 6 fuel 1 other 1 ;;; Ret tt) 2048 1 kStatusSucceeded.

(** A load, a test that fails, and a loop whose round changes nothing and asks for another. *)
Lemma load_then_spins {O} fuel (body : unit -> prog World (unit + O)) (a : Z) (t : Z -> bool) (r : O) ad w :
  run (ld ad) w = (Done a, w) -> t a = false -> run (body tt) w = (Done (inl tt), w) ->
  run (let! a := ld ad in if t a then Ret r else loop fuel body tt) w = (NoFuel, w).
Proof. intros Ha Ht Hb. rewrite (run_bind_done _ _ _ _ _ Ha), Ht. by apply loop_spins. Qed.

(** C13.  When the owner stops between deciding and swapping out (volatile), or between
    installing its dirty pointer and persisting it (persistent, not even decided), the
    loop of another operation on that word uses up any number of rounds and changes
    nothing. *)
Theorem stopped_owner_blocks (pm : bool) (fuel : nat) :
  run (waiting_install pm fuel) (waits pm) = (NoFuel, waits pm) /\
  (cells (client (waits pm)) !! status_ 1024 = Some (if pm then kStatusUndecided else kStatusSucceeded)) /\
  (default 0 (cells (client (waits pm)) !! 8200) = SetFlags 1024 (kMwCASFlag .| if pm then kDirtyFlag else 0)) /\
  (cells (client (waits pm)) !! status_ 2048 = Some kStatusUndecided).
Proof.
  split; [|destruct pm; vm_compute; repeat split].
  destruct fuel as [|n]; [destruct pm; vm_compute; reflexivity|].
  destruct pm; unfold waiting_install.
  - refine (load_then_spins (S n) _ 8200 (fun a => true && (a =? kAllocNullAddress)) _ _ _ _ _ _);
      vm_compute; reflexivity.
  - refine (load_then_spins (S n) _ 8200 (fun a => a =? kAllocNullAddress) _ _ _ _ _ _);
      vm_compute; reflexivity.
Qed.

(** ** A crash after a successful persistent operation *)

(** The words of the sample are on the line at 8192; everything is persistent at the start. *)
Definition persistent_world : World :=
  let w := sample_world in
  MkGW (lists w) (epochs w) (MkMem (cells (client w)) (cells (client w)) metrics_off).

(** Running the operation, crashing, and running the scan of [Recovery] over its descriptor. *)
Definition crashed (w : World) : World := MkGW (lists w) (epochs w) (crash (client w)).
Definition recovered (w : World) : result bool * World :=
  run (@recover_descriptor lines_platform 0 0 1024) (crashed w).

(** C18.  On a platform where a flush persists exactly the cache lines of its range, a
    persistent multi-word CAS returns true, the process crashes, recovery finds the
    operation recorded as succeeded, and the targets hold their old values: the targets
    were never flushed, only the field that names them. *)
Theorem committed_update_lost_in_crash :
  let r := run (@MwCAS lines_platform 5 1 true 1 1024) persistent_world in
  let r' := recovered r.2 in
  (r.1 = Done true /\ cells (client r.2) !! 8192 = Some 6 /\ cells (client r.2) !! 8200 = Some 8) /\
  r'.1 = Done true /\
  clear (default 0 (cells (client r'.2) !! status_ 1024)) kStatusDirtyFlag = kStatusSucceeded /\
  cells (client r'.2) !! 8192 = Some 5 /\ cells (client r'.2) !! 8200 = Some 7.
Proof. vm_compute. repeat split. Qed.
