(* ===== verification/Recovery.v ===== *)
(** * Recovery after a crash (src/mwcas/mwcas.cc: DescriptorPool::Recovery)

    What the scan makes of one descriptor found in persistent memory: addresses are
    moved to where the pool is mapped now, and every word that still points to the
    descriptor gets its old or its new value, according to the recorded status. *)
From Stdlib Require Import ZArith Lia.
From stdpp Require Import base list gmap strings.
From S2P Require Import Prelude Bytes Prog Status Library Epoch Garbage Metrics Memory Descriptor MwCAS Entries Pool.
#[local] Open Scope Z_scope.
#[local] Open Scope machine_scope.
#[local] Open Scope prog_scope.

(** ** Loops over the targets *)

(** The targets of a list of words, updated in order; [h] also gets the word's index. *)
Fixpoint upd_from (h : nat -> wrec -> Z -> Z) (k : nat) (xs : list wrec) (c : gmap Z Z) : gmap Z Z :=
  match xs with
  | [] => c
  | x :: xs => upd_from h (S k) xs (if wa x =? 0 then c else alter (h k x) (wa x) c)
  end.

Lemma upd_from_other h xs a : forall k c,
  (forall x, x ∈ xs -> wa x <> 0 -> wa x <> a) -> upd_from h k xs c !! a = c !! a.
Proof.
  induction xs as [|x xs IH]; intros k c Ha; [done|]. simpl. rewrite IH by (intros y Hy; apply Ha; by right).
  destruct (Z.eqb_spec (wa x) 0); [done|]. apply lookup_alter_ne. apply Ha; [by left|done].
Qed.

Lemma upd_from_target h xs x : forall k i c,
  targets_nodup xs -> xs !! i = Some x -> wa x <> 0 -> upd_from h k xs c !! wa x = h (k + i)%nat x <$> c !! wa x.
Proof.
  induction xs as [|y xs IH]; intros k i c Hnd Hi H0; [done|]. destruct i as [|i]; simpl in *.
  - injection Hi as ->. rewrite upd_from_other.
    + rewrite (proj2 (Z.eqb_neq _ _) H0), lookup_alter_eq. by rewrite Nat.add_0_r.
    + intros z Hz _. by eapply targets_nodup_cons.
  - rewrite (IH (S k) i) by (done || by eapply targets_nodup_tail).
    replace (k + S i)%nat with (S k + i)%nat by lia.
    destruct (Z.eqb_spec (wa y) 0); [done|]. rewrite lookup_alter_ne; [done|].
    intros E. apply (targets_nodup_cons y xs Hnd ltac:(done) x); [by eapply list_elem_of_lookup_2|done].
Qed.

Lemma upd_from_id xs : forall k c, upd_from (fun _ _ v => v) k xs c = c.
Proof.
  induction xs as [|x xs IH]; intros k c; [done|]. simpl. rewrite IH.
  destruct (wa x =? 0); [done|]. apply map_eq. intros a. destruct (decide (a = wa x)) as [->|].
  - rewrite lookup_alter_eq. by destruct (c !! wa x).
  - by rewrite lookup_alter_ne.
Qed.

Lemma targets_nodup_suffix xs ys : targets_nodup (xs ++ ys) -> targets_nodup ys.
Proof. unfold targets_nodup. rewrite fmap_app, filter_app. by intros (_ & _ & ?)%NoDup_app. Qed.

(** Running [q] comes to running [r]. *)
Definition leads {A} (q : prog World A) (w : World) (r : prog World A) (w' : World) : Prop :=
  forall w0, volatile w0 = w -> exists w1, volatile w1 = w' /\ run q w0 = run r w1.

Lemma leads_refl {A} (q : prog World A) w : leads q w q w.
Proof. intros w0 H. by exists w0. Qed.

Lemma leads_bind {A B} (p : prog World A) (k : A -> prog World B) w x w1 r w2 :
  ev p w x w1 -> leads (k x) w1 r w2 -> leads (bind p k) w r w2.
Proof.
  intros Hp Hk w0 H0. destruct (Hp w0 H0) as (w1' & R & H1). destruct (Hk w1' H1) as (w2' & H2 & R2).
  exists w2'. split; [done|]. by rewrite run_bind, R.
Qed.

Lemma fails_leads {A} (q r : prog World A) w w' msg : leads q w r w' -> fails r w' msg -> fails q w msg.
Proof. intros Hl Hf w0 H0. destruct (Hl w0 H0) as (w1 & H1 & ->). by apply Hf. Qed.

Lemma ev_leads {A} (q r : prog World A) w w' x w'' : leads q w r w' -> ev r w' x w'' -> ev q w x w''.
Proof. intros Hl He w0 H0. destruct (Hl w0 H0) as (w1 & H1 & ->). by apply He. Qed.

Section recovery.
Context {HP : Platform} {HL : PlatformLaws}.
Context (l : gmap Z GarbageList) (e : EpochWorld) (mm : MetricsWorld) (d : Z).

(** The descriptor lists these words. *)
Definition listed (ws : list wrec) (c : gmap Z Z) : Prop :=
  (forall i x, ws !! i = Some x -> word_at d c i x) /\ c !! count_ d = Some (Z.of_nat (length ws)).

(** At most four, with distinct targets outside the descriptor. *)
Record apart (ws : list wrec) : Prop := {
  ap_n : (length ws <= 4)%nat;
  ap_target x : x ∈ ws -> wa x <> 0 -> ~ (d <= wa x < d + 256);
  ap_nodup : targets_nodup ws
}.

Ltac offsets := unfold words_, address_, old_value_, new_value_, status_address_, recycle_policy_,
  sizeof_WordDescriptor, count_, status_ in *; lia.

Lemma listed_change ws c c' :
  apart ws -> (forall a, d <= a < d + 256 -> c' !! a = c !! a) -> listed ws c -> listed ws c'.
Proof.
  intros Ha Hc [Hw Hn]. split; [|rewrite Hc; [done|offsets]].
  intros i x Hi. apply (word_at_ext d c c'); [|by apply Hw].
  intros a Hr. apply Hc. apply lookup_lt_Some in Hi. pose proof (ap_n _ Ha).
  unfold words_, sizeof_WordDescriptor in Hr. lia.
Qed.

(** Some target's value is bad. *)
Fixpoint any_target (bad : nat -> wrec -> Z -> bool) (k : nat) (ws : list wrec) (c : gmap Z Z) : bool :=
  match ws with
  | [] => false
  | x :: ws => (negb (wa x =? 0) && bad k x (default 0 (c !! wa x))) || any_target bad (S k) ws c
  end.

Lemma any_target_ext bad ws c c' : forall k,
  (forall x, x ∈ ws -> wa x <> 0 -> c' !! wa x = c !! wa x) -> any_target bad k ws c' = any_target bad k ws c.
Proof.
  induction ws as [|x ws IH]; intros k Hx; [done|]. cbn [any_target]. rewrite IH by (intros y Hy; apply Hx; by right).
  destruct (Z.eqb_spec (wa x) 0); [done|]. by rewrite Hx by (left || done).
Qed.

(** A loop whose body treats each non-null target by itself, and stops at a bad one. *)
Lemma for_targets_outcome (body : Z -> Z -> prog World unit) (h : nat -> wrec -> Z -> Z) (bad : nat -> wrec -> Z -> bool) msg ws c :
  apart ws -> listed ws c ->
  (forall i x v c, ws !! i = Some x -> wa x <> 0 -> listed ws c -> c !! wa x = Some v ->
     if bad i x v then fails (body (Z.of_nat i) (wa x)) (St l e c mm) msg
     else ev (body (Z.of_nat i) (wa x)) (St l e c mm) tt (St l e (<[wa x := h i x v]> c) mm)) ->
  (forall x, x ∈ ws -> wa x <> 0 -> is_Some (c !! wa x)) ->
  if any_target bad 0 ws c then fails (for_targets d body) (St l e c mm) msg
  else ev (for_targets d body) (St l e c mm) tt (St l e (upd_from h 0 ws c) mm).
Proof.
  intros Hap Hl Hb Hmap.
  assert (forall post pre c, ws = pre ++ post -> listed ws c -> (forall x, x ∈ post -> wa x <> 0 -> is_Some (c !! wa x)) ->
    let loop := for_list (seq (length pre) (length post)) (fun i (_ : unit) =>
          let! a := ld (address_ (words_ d (Z.of_nat i))) in
          if a =? kAllocNullAddress then Ret tt else body (Z.of_nat i) a) tt in
    if any_target bad (length pre) post c then fails loop (St l e c mm) msg
    else ev loop (St l e c mm) tt (St l e (upd_from h (length pre) post c) mm)) as H.
  { clear c Hl Hmap. induction post as [|x post IH]; intros pre c E Hl Hmap; [apply ev_ret|].
    cbn [length seq for_list upd_from any_target]. assert (ws !! length pre = Some x) as Hx by (by rewrite E, lookup_app_r, Nat.sub_diag by lia).
    destruct (proj1 Hl _ x Hx) as (Ha & _).
    specialize (IH (pre ++ [x]) (if wa x =? 0 then c else alter (h (length pre) x) (wa x) c)).
    rewrite length_app, Nat.add_1_r in IH. cbv zeta in IH |- *.
    assert (forall y, y ∈ post -> wa y <> 0 -> wa x <> 0 -> wa y <> wa x) as Hne.
    { intros y Hy Hy0 Hx0. pose proof (ap_nodup _ Hap) as Hnd. rewrite E in Hnd. apply targets_nodup_suffix in Hnd.
      by apply (targets_nodup_cons x post Hnd Hx0 y). }
    rewrite (any_target_ext bad post c) in IH.
    2: { intros y Hy Hy0. destruct (Z.eqb_spec (wa x) 0) as [|H0]; [done|]. by rewrite lookup_alter_ne by (intros Eq; by apply (Hne y)). }
    assert (listed ws (if wa x =? 0 then c else alter (h (length pre) x) (wa x) c)) as Hl1.
    { destruct (Z.eqb_spec (wa x) 0) as [|H0]; [done|]. apply (listed_change ws c); [done| |done].
      intros a Har. apply lookup_alter_ne. intros <-. by apply (ap_target _ Hap x) in Har; [|by eapply list_elem_of_lookup_2|]. }
    assert (forall y, y ∈ post -> wa y <> 0 -> is_Some ((if wa x =? 0 then c else alter (h (length pre) x) (wa x) c) !! wa y)) as Hmap1.
    { intros y Hy Hy0. destruct (Z.eqb_spec (wa x) 0) as [|H0]; [apply Hmap; [by right|done]|].
      rewrite lookup_alter_ne by (intros Eq; by apply (Hne y)). apply Hmap; [by right|done]. }
    specialize (IH ltac:(by rewrite E, <- app_assoc) Hl1 Hmap1).
    destruct (Z.eqb_spec (wa x) 0) as [E0|H0].
    - cbn [negb andb orb]. assert (forall w, w = St l e c mm -> ev (let! a := ld (address_ (words_ d (Z.of_nat (length pre)))) in
        if a =? kAllocNullAddress then Ret tt else body (Z.of_nat (length pre)) a) w tt w) as Hskip.
      { intros w ->. eapply ev_bind; [by apply ev_ld|]. unfold kAllocNullAddress. rewrite E0. apply ev_ret. }
      destruct (any_target bad (S (length pre)) post c).
      + by eapply fails_bind; [apply Hskip|].
      + by eapply ev_bind; [apply Hskip|].
    - destruct (Hmap x ltac:(left) H0) as [v Hv]. pose proof (Hb _ x v c Hx H0 Hl Hv) as Hbx. rewrite Hv. cbn [default negb andb].
      change (id v) with v. destruct (bad (length pre) x v); cbn [orb].
      + apply fails_first. eapply fails_bind; [by apply ev_ld|]. unfold kAllocNullAddress. by rewrite (proj2 (Z.eqb_neq _ _) H0).
      + assert (ev (let! a := ld (address_ (words_ d (Z.of_nat (length pre)))) in
          if a =? kAllocNullAddress then Ret tt else body (Z.of_nat (length pre)) a) (St l e c mm) tt
          (St l e (alter (h (length pre) x) (wa x) c) mm)) as Hstep.
        { eapply ev_bind; [by apply ev_ld|]. unfold kAllocNullAddress. rewrite (proj2 (Z.eqb_neq _ _) H0).
          replace (alter (h (length pre) x) (wa x) c) with (<[wa x := h (length pre) x v]> c); [exact Hbx|].
          apply map_eq. intros a. destruct (decide (a = wa x)) as [->|]; [by rewrite lookup_insert_eq, lookup_alter_eq, Hv|].
          by rewrite lookup_insert_ne, lookup_alter_ne by done. }
        destruct (any_target bad (S (length pre)) post c).
        * by eapply fails_bind; [exact Hstep|].
        * by eapply ev_bind; [exact Hstep|]. }
  pose proof (H ws [] c eq_refl Hl Hmap) as H0. cbn [length] in H0. cbv zeta in H0. unfold for_targets, for_words. destruct (any_target bad 0 ws c).
  - eapply fails_bind; [apply ev_ld, Hl|]. rewrite Nat2Z.id. exact H0.
  - eapply ev_bind; [apply ev_ld, Hl|]. rewrite Nat2Z.id. exact H0.
Qed.

(** ** The words move with the pool *)

Context (adj : Z).

Definition relocated (x : wrec) : wrec :=
  if wa x =? 0 then x else MkW (u64 (wa x + adj)) (wo x) (wn x) (wp x).

Lemma ev_relocate ws c :
  (length ws <= 4)%nat -> listed ws c ->
  exists c', listed (relocated <$> ws) c' /\ (forall a, ~ (d + 40 <= a < d + 256) -> c' !! a = c !! a) /\
    ev (relocate_words adj d) (St l e c mm) tt (St l e c' mm).
Proof.
  intros Hn [Hw Hc].
  assert (forall post pre c, (length pre + length post <= 4)%nat ->
    (forall i x, pre !! i = Some x -> word_at d c i x) ->
    (forall i x, post !! i = Some x -> word_at d c (length pre + i) x) ->
    exists c', (forall i x, (pre ++ (relocated <$> post)) !! i = Some x -> word_at d c' i x) /\
      (forall a, ~ (d + 40 <= a < d + 256) -> c' !! a = c !! a) /\
      ev (for_list (seq (length pre) (length post)) (fun i (_ : unit) =>
            let! a := ld (address_ (words_ d (Z.of_nat i))) in
            if a =? kAllocNullAddress then Ret tt else st (address_ (words_ d (Z.of_nat i))) (u64 (a + adj))) tt)
         (St l e c mm) tt (St l e c' mm)) as H.
  - clear ws c Hn Hw Hc. induction post as [|x post IH]; intros pre c Hn Hpre Hpost.
    { exists c. rewrite app_nil_r. split; [done|]. split; [done|]. apply ev_ret. }
    pose proof (Hpost 0%nat x eq_refl) as Hx. rewrite Nat.add_0_r in Hx.
    simpl in Hn. pose proof Hx as (Ha & Hx2).
    set (c1 := if wa x =? 0 then c else <[address_ (words_ d (Z.of_nat (length pre))) := u64 (wa x + adj)]> c).
    assert (forall a, a <> address_ (words_ d (Z.of_nat (length pre))) -> c1 !! a = c !! a) as Hc1.
    { intros a Ha'. unfold c1. destruct (wa x =? 0); [done|]. by apply lookup_insert_ne. }
    assert (word_at d c1 (length pre) (relocated x)) as Hx1.
    { unfold relocated, word_at, c1. destruct (Z.eqb_spec (wa x) 0); [done|]. cbn [wa wo wn wp].
      rewrite lookup_insert_eq, !lookup_insert_ne by offsets. done. }
    destruct (IH (pre ++ [relocated x]) c1) as (c' & H1 & H2 & H3).
    { rewrite length_app. simpl. lia. }
    { intros i y Hy. destruct (decide (i = length pre)) as [->|Hi].
      - rewrite lookup_app_r, Nat.sub_diag in Hy by lia. by injection Hy as <-.
      - pose proof (lookup_lt_Some _ _ _ Hy) as Hlt. rewrite length_app in Hlt. simpl in Hlt.
        rewrite lookup_app_l in Hy by lia. apply (word_at_ext d c); [|by apply Hpre].
        intros a Hr. apply Hc1. offsets. }
    { intros i y Hy. rewrite length_app. simpl. replace (length pre + 1 + i)%nat with (length pre + S i)%nat by lia.
      apply (word_at_ext d c); [|by apply Hpost]. intros a Hr. apply Hc1. offsets. }
    exists c'. rewrite length_app, Nat.add_1_r in H3. split; [|split].
    + intros i y Hy. apply H1. by rewrite <- app_assoc.
    + intros a Hr. rewrite H2 by done. apply Hc1. offsets.
    + cbn [length seq for_list]. eapply ev_bind; [|exact H3]. eapply ev_bind; [by apply ev_ld|].
      unfold kAllocNullAddress, c1. destruct (wa x =? 0); [apply ev_ret|]. apply ev_st. by eexists.
  - destruct (H ws [] c Hn) as (c' & H1 & H2 & H3); [done|done|]. exists c'. split; [split|split].
    + done.
    + rewrite H2 by offsets. by rewrite length_fmap.
    + done.
    + unfold relocate_words, for_targets, for_words. eapply ev_bind; [by apply ev_ld|]. rewrite Nat2Z.id. exact H3.
Qed.

(** ** Rolling back and forward *)

(** The word still points to the descriptor, or to its own word descriptor, at the
    addresses they had before. *)
Definition to_descriptor (v : Z) : bool := u64 (CleanPtr v + adj) =? d.
Definition to_word (i : nat) (v : Z) : bool := u64 (CleanPtr v + adj) =? words_ d (Z.of_nat i).

Definition rolled_back (i : nat) (x : wrec) (v : Z) : Z := if to_descriptor v || to_word i v then wo x else v.
Definition rolled_forward (x : wrec) (v : Z) : Z := if to_descriptor v then wn x else v.

Lemma ev_roll_back ws i x v c :
  apart ws -> ws !! i = Some x -> wa x <> 0 -> listed ws c -> c !! wa x = Some v ->
  ev (roll_back_word adj d (Z.of_nat i) (wa x)) (St l e c mm) tt (St l e (<[wa x := rolled_back i x v]> c) mm).
Proof.
  intros Hap Hi H0 [Hw _] Hv. destruct (Hw i x Hi) as (Ha & Ho & _). unfold roll_back_word, rolled_back.
  eapply ev_bind; [by apply ev_ld|]. cbv zeta. fold (to_descriptor v). fold (to_word i v).
  destruct (to_descriptor v || to_word i v); [|rewrite insert_id by done; apply ev_ret].
  eapply ev_bind; [by apply ev_ld|]. eapply ev_bind; [apply ev_st; by eexists|]. apply (@ev_flush _ _ _ _ HP HL).
Qed.

Lemma ev_roll_forward ws i x v c :
  apart ws -> ws !! i = Some x -> wa x <> 0 -> listed ws c -> c !! wa x = Some v -> to_word i v = false ->
  ev (roll_forward_word adj d (Z.of_nat i) (wa x)) (St l e c mm) tt (St l e (<[wa x := rolled_forward x v]> c) mm).
Proof.
  intros Hap Hi H0 [Hw _] Hv Ht. destruct (Hw i x Hi) as (Ha & Ho & Hn & _). unfold roll_forward_word, rolled_forward.
  eapply ev_bind; [by apply ev_ld|]. cbv zeta. fold (to_descriptor v). fold (to_word i v). rewrite Ht.
  eapply ev_bind; [by apply ev_check|].
  destruct (to_descriptor v); [|rewrite insert_id by done; apply ev_ret].
  eapply ev_bind; [by apply ev_ld|]. eapply ev_bind; [apply ev_st; by eexists|]. apply (@ev_flush _ _ _ _ HP HL).
Qed.

(** A succeeded operation's word must not point to its word descriptor. *)
Lemma fails_roll_forward i a v c : c !! a = Some v -> to_word i v = true ->
  fails (roll_forward_word adj d (Z.of_nat i) a) (St l e c mm) "invalid field value".
Proof.
  intros Hv Ht. unfold roll_forward_word. eapply fails_bind; [by apply ev_ld|]. cbv zeta. fold (to_word i v). rewrite Ht.
  by apply fails_first, fails_check.
Qed.

(** What the last pass of the scan refuses: the descriptor's own address, flagged. *)
Definition flagged (v : Z) : bool := (clear v kDirtyFlag =? d .| kMwCASFlag) || (clear v kDirtyFlag =? d .| kCondCASFlag).

Lemma check_word_outcome i a v c : c !! a = Some v ->
  if flagged v then fails (check_word d i a) (St l e c mm) "invalid word value"
  else ev (check_word d i a) (St l e c mm) tt (St l e (<[a := v]> c) mm).
Proof.
  intros Hv. rewrite insert_id by done. unfold flagged, check_word. destruct (clear v kDirtyFlag =? d .| kMwCASFlag) eqn:E1; cbn [orb].
  { eapply fails_bind; [by apply ev_ld|]. apply fails_first, fails_check. by rewrite E1. }
  destruct (clear v kDirtyFlag =? d .| kCondCASFlag) eqn:E2.
  - eapply fails_bind; [by apply ev_ld|]. eapply fails_bind; [apply ev_check; by rewrite E1|]. apply fails_check. by rewrite E2.
  - eapply ev_bind; [by apply ev_ld|]. eapply ev_bind; apply ev_check; [by rewrite E1|by rewrite E2].
Qed.

Definition final_value (succeeded : bool) (i : nat) (x : wrec) (v : Z) : Z :=
  if succeeded then rolled_forward x v else rolled_back i x v.

(** How the scan of a descriptor ends: it stops at a word of a succeeded operation that
    still points to its word descriptor, and at a final value it does not accept. *)
Definition scan_outcome (succeeded : bool) (ws : list wrec) (c : gmap Z Z) : result bool :=
  if succeeded && any_target (fun i _ => to_word i) 0 ws c then Faulted "invalid field value"
  else if any_target (fun i x v => flagged (final_value succeeded i x v)) 0 ws c then Faulted "invalid word value"
  else Done true.

Definition scanned (succeeded : bool) (ws : list wrec) (c : gmap Z Z) : gmap Z Z := upd_from (final_value succeeded) 0 ws c.

Lemma any_scanned (bad : Z -> bool) succeeded ws c : targets_nodup ws -> (forall x, x ∈ ws -> wa x <> 0 -> is_Some (c !! wa x)) ->
  any_target (fun _ _ => bad) 0 ws (scanned succeeded ws c) = any_target (fun i x v => bad (final_value succeeded i x v)) 0 ws c.
Proof.
  intros Hnd Hmap. unfold scanned.
  assert (forall post pre k, ws = pre ++ post -> k = length pre ->
    any_target (fun _ _ => bad) k post (upd_from (final_value succeeded) 0 ws c) =
    any_target (fun i x v => bad (final_value succeeded i x v)) k post c) as H; [|by apply (H ws [] 0%nat)].
  induction post as [|x post IH]; intros pre k E ->; [done|]. cbn [any_target].
  rewrite (IH (pre ++ [x])) by (by rewrite ?length_app, ?Nat.add_1_r, ?E, <- ?app_assoc). f_equal.
  destruct (Z.eqb_spec (wa x) 0) as [|H0]; [done|]. cbn [negb andb].
  assert (ws !! length pre = Some x) as Hx by (by rewrite E, lookup_app_r, Nat.sub_diag by lia).
  rewrite (upd_from_target _ ws x 0 (length pre)) by done. cbn [Nat.add].
  destruct (Hmap x (list_elem_of_lookup_2 _ _ _ Hx) H0) as [v ->]. done.
Qed.

Lemma roll_outcome succeeded ws c : apart ws -> listed ws c -> (forall x, x ∈ ws -> wa x <> 0 -> is_Some (c !! wa x)) ->
  let pass := for_targets d (if succeeded : bool then roll_forward_word adj d else roll_back_word adj d) in
  if succeeded && any_target (fun i _ => to_word i) 0 ws c then fails pass (St l e c mm) "invalid field value"
  else ev pass (St l e c mm) tt (St l e (scanned succeeded ws c) mm).
Proof.
  intros Hap Hl Hmap pass. unfold pass. destruct succeeded; cbn [andb].
  - apply (for_targets_outcome _ (final_value true) (fun i _ => to_word i)); [done..| |done].
    intros i x v c' Hi H0 Hl' Hv. destruct (to_word i v) eqn:Ht; [by apply fails_roll_forward with (v := v)|].
    by apply (ev_roll_forward ws).
  - pose proof (for_targets_outcome (roll_back_word adj d) (final_value false) (fun _ _ _ => false) EmptyString ws c Hap Hl) as Hr.
    assert (forall k, any_target (fun _ _ _ => false) k ws c = false) as E.
    { generalize ws. induction ws0 as [|x xs IH]; intros k; cbn [any_target]; [done|]. by rewrite IH, andb_false_r. }
    rewrite E in Hr. apply Hr; [|done]. intros i x v c' Hi H0 Hl' Hv. by apply (ev_roll_back ws).
Qed.

Lemma recover_outcome i ws c status (succeeded : bool) :
  apart (relocated <$> ws) -> listed ws c -> c !! status_ d = Some status ->
  (if succeeded then clear status kStatusDirtyFlag = kStatusSucceeded
   else clear status kStatusDirtyFlag = kStatusUndecided \/ clear status kStatusDirtyFlag = kStatusFailed) ->
  (forall x, x ∈ relocated <$> ws -> wa x <> 0 -> is_Some (c !! wa x)) ->
  exists c0, (forall a, ~ (d + 40 <= a < d + 256) -> c0 !! a = c !! a) /\
    match scan_outcome succeeded (relocated <$> ws) c with
    | Done b => ev (recover_descriptor adj i d) (St l e c mm) b (St l e (scanned succeeded (relocated <$> ws) c0) mm)
    | Faulted msg => fails (recover_descriptor adj i d) (St l e c mm) msg
    | NoFuel => False
    end.
Proof.
  intros Hap Hl Hs Hst Hmap. assert (length ws <= 4)%nat as Hn by (rewrite <- (length_fmap relocated); apply Hap).
  destruct (ev_relocate ws c Hn Hl) as (c0 & Hl0 & Hout & Hrel). exists c0. split; [done|].
  set (ws' := relocated <$> ws) in *.
  assert (forall x, x ∈ ws' -> wa x <> 0 -> c0 !! wa x = c !! wa x) as Hsame.
  { intros x Hx H0. rewrite Hout; [done|]. pose proof (ap_target _ Hap x Hx H0). lia. }
  assert (forall x, x ∈ ws' -> wa x <> 0 -> is_Some (c0 !! wa x)) as Hmap0 by (intros x Hx H0; rewrite Hsame by done; auto).
  assert (listed ws' (scanned succeeded ws' c0)) as Hl1.
  { apply (listed_change ws' c0); [done| |done]. intros a Ha. apply upd_from_other.
    intros x Hx H0 <-. by apply (ap_target _ Hap x Hx H0). }
  assert (forall x, x ∈ ws' -> wa x <> 0 -> is_Some (scanned succeeded ws' c0 !! wa x)) as Hmap1.
  { intros x Hx H0. pose proof Hx as [j Hj]%list_elem_of_lookup. unfold scanned.
    rewrite (upd_from_target _ ws' x 0 j) by (done || apply (ap_nodup _ Hap)). by destruct (Hmap0 x Hx H0) as [v ->]. }
  assert (c0 !! status_ d = Some status) as Hs0 by (rewrite Hout; [done|offsets]).
  assert (status <> 0) as Hne.
  { intros ->. destruct succeeded; [by vm_compute in Hst|]. by destruct Hst as [Hst|Hst]; vm_compute in Hst. }
  pose proof (roll_outcome succeeded ws' c0 Hap Hl0 Hmap0) as Hroll. cbv zeta in Hroll.
  pose proof (for_targets_outcome (check_word d) (fun _ _ v => v) (fun _ _ => flagged) "invalid word value" ws' _ Hap Hl1
    ltac:(intros j x v c' Hj H0 Hlc Hcv; by apply check_word_outcome) Hmap1) as Hcheck.
  rewrite any_scanned in Hcheck by (done || apply (ap_nodup _ Hap)). rewrite upd_from_id in Hcheck.
  assert (leads (recover_descriptor adj i d) (St l e c mm)
    (for_targets d (if succeeded then roll_forward_word adj d else roll_back_word adj d) ;;; for_targets d (check_word d) ;;; Ret true)
    (St l e c0 mm)) as Hleads.
  { unfold recover_descriptor. eapply leads_bind; [by apply ev_ld|]. unfold kStatusInvalid. rewrite (proj2 (Z.eqb_neq _ _) Hne).
    eapply leads_bind; [by apply ev_ld|].
    eapply leads_bind; [apply ev_check; unfold assert_valid_status; destruct succeeded; [by rewrite Hst|by destruct Hst as [-> | ->]]|].
    eapply leads_bind; [exact Hrel|]. eapply leads_bind; [by apply ev_ld|]. cbv zeta.
    replace (clear status kStatusDirtyFlag =? kStatusFinished) with false
      by (symmetry; apply Z.eqb_neq; destruct succeeded; [by rewrite Hst|by destruct Hst as [-> | ->]]).
    destruct succeeded; [rewrite Hst; apply leads_refl|].
    replace ((clear status kStatusDirtyFlag =? kStatusUndecided) || (clear status kStatusDirtyFlag =? kStatusFailed))
      with true by (by destruct Hst as [-> | ->]). apply leads_refl. }
  unfold scan_outcome. rewrite <- !(any_target_ext _ ws' c c0) by done.
  destruct (succeeded && any_target (fun i _ => to_word i) 0 ws' c0).
  { eapply fails_leads; [exact Hleads|]. by apply fails_first. }
  destruct (any_target (fun i x v => flagged (final_value succeeded i x v)) 0 ws' c0).
  - eapply fails_leads; [exact Hleads|]. eapply fails_bind; [exact Hroll|]. by apply fails_first.
  - eapply ev_leads; [exact Hleads|]. eapply ev_bind; [exact Hroll|]. eapply ev_bind; [exact Hcheck|]. apply ev_ret.
Qed.
End recovery.

(** C9.  Recovery makes an interrupted operation atomic: for an undecided or failed
    descriptor every word that still points to the descriptor or its word descriptor
    gets its old value, for a succeeded one every word that points to the descriptor its
    new value, at the addresses the pool is mapped to now, and every other word keeps
    its contents. A word of a succeeded operation that points to its word descriptor
    stops the scan with "invalid field value", and a final value that is the
    descriptor's flagged address with "invalid word value"; no other check fails. *)
Theorem recover_descriptor_correct `{PlatformLaws} adj i d ws status (succeeded : bool) w :
  let c := cells (client w) in
  let ws' := relocated adj <$> ws in
  apart d ws' -> listed d ws c -> c !! status_ d = Some status ->
  (if succeeded then clear status kStatusDirtyFlag = kStatusSucceeded
   else clear status kStatusDirtyFlag = kStatusUndecided \/ clear status kStatusDirtyFlag = kStatusFailed) ->
  (forall x, x ∈ ws' -> wa x <> 0 -> is_Some (c !! wa x)) ->
  exists w', run (recover_descriptor adj i d) w = (scan_outcome d adj succeeded ws' c, w') /\
    (scan_outcome d adj succeeded ws' c = Done true ->
     (forall j x v, ws' !! j = Some x -> wa x <> 0 -> c !! wa x = Some v ->
        cells (client w') !! wa x = Some (final_value d adj succeeded j x v)) /\
     (forall a, ~ (d + 40 <= a < d + 256) -> (forall x, x ∈ ws' -> wa x <> 0 -> wa x <> a) ->
        cells (client w') !! a = c !! a) /\
     lists w' = lists w /\ epochs w' = epochs w /\ metrics (client w') = metrics (client w)).
Proof.
  intros c ws' Hap Hl Hs Hst Hmap.
  destruct (recover_outcome (lists w) (epochs w) (metrics (client w)) d adj i ws c status succeeded
    Hap Hl Hs Hst Hmap) as (c0 & Hout & Hcase). fold ws' in Hcase.
  destruct (scan_outcome d adj succeeded ws' c) as [b|msg|] eqn:Eo; [|specialize (Hcase w eq_refl)|done].
  2: { destruct (run (recover_descriptor adj i d) w) as [r w'] eqn:Er. exists w'. cbn in Hcase. by subst r. }
  destruct (Hcase w eq_refl) as (w' & R & E). exists w'. split; [exact R|]. intros _.
  destruct w' as [l' e' [c' pc' m']]. unfold volatile, St in E. simpl in E. simplify_eq. simpl.
  split; [|split; [|done]].
  - intros j x v Hj H0' Hcv. unfold scanned. rewrite (upd_from_target _ ws' x 0 j) by (done || apply (ap_nodup _ _ Hap)).
    rewrite Hout; [by rewrite Hcv|].
    pose proof (ap_target _ _ Hap x (list_elem_of_lookup_2 _ _ _ Hj) H0'). lia.
  - intros a Ha Hn. unfold scanned. rewrite upd_from_other by done. by apply Hout.
Qed.

(** A committed operation of two words, the first of them not yet written; the pool was
    at 1024 and is now at 5120. *)
Definition moved_words : list wrec := [MkW 8192 5 6 kRecycleNever; MkW 8200 7 8 kRecycleNever].
Definition moved_cells : gmap Z Z :=
  list_to_map [(12288, mwcas_ptr 1024 kDirtyFlag); (12296, 8)] ∪
  sample_cells 5120 4096 16 (kStatusSucceeded .| kStatusDirtyFlag) moved_words.
Definition moved_world : World := MkGW ∅ (MkEpochWorld ∅ (MkThreads ∅ ∅)) (MkMem moved_cells ∅ metrics_off).

Example recover_descriptor_correct_witness :
  exists w', run (recover_descriptor 4096 0 5120) moved_world = (Done true, w') /\
    cells (client w') !! 12288 = Some 6 /\ cells (client w') !! 12296 = Some 8.
Proof.
  destruct (recover_descriptor_correct 4096 0 5120 moved_words (kStatusSucceeded .| kStatusDirtyFlag) true
    moved_world) as (w' & R & H1).
  - split.
    + simpl. lia.
    + intros x [->|[->|[]%elem_of_nil]%elem_of_cons]%elem_of_cons _; vm_compute; naive_solver.
    + apply (bool_decide_unpack _). by vm_compute.
  - split; [|by vm_compute]. intros [|[|n]] x Hx; [injection Hx as <-; by vm_compute..|done].
  - by vm_compute.
  - by vm_compute.
  - intros x [->|[->|[]%elem_of_nil]%elem_of_cons]%elem_of_cons _; by eexists.
  - destruct (H1 ltac:(by vm_compute)) as [H2 _]. exists w'. split; [exact R|]. clear H1. rename H2 into H1. split.
    + exact (H1 0%nat (MkW 12288 5 6 kRecycleNever) (mwcas_ptr 1024 kDirtyFlag) eq_refl ltac:(done) ltac:(by vm_compute)).
    + exact (H1 1%nat (MkW 12296 7 8 kRecycleNever) 8 eq_refl ltac:(done) ltac:(by vm_compute)).
Defined.
